(* ===== verification/_CoqProject ===== *)
-Q . S2P
Prelude.v
PyStd.v
JsonText.v
JsonRoundTrip.v
EcpaModel.v
PlanArtifact.v
SignedAttestation.v
HostEvidence.v
TransactionModel.v
ContractParse.v
ContractCompiler.v
ContractOrder.v
PlanTheorems.v
ExposureGate.v
GateInvariants.v
ExposureOracle.v
GateTheorems.v
DurableCoordinator.v
CoordinatorInvariants.v
CoordinatorTheorems.v
HostEventSink.v
HostJournal.v
JournalTheorems.v
HostObserver.v
ObserverTheorems.v
LifecycleSource.v
LifecycleTheorems.v
QuarantineTransaction.v
QuarantineInvariants.v
QuarantineRecords.v
QuarantineSpec.v
QuarantineStates.v
QuarantineSteps.v
QuarantineRecovery.v
QuarantineTheorems.v
RecoveryTheorems.v
Manifest.v
ManifestTheorems.v
Capabilities.v
ExtensionConfig.v
Discovery.v
DiscoveryTheorems.v
RuntimeEvidence.v
Catalog.v
CatalogTheorems.v
ExtensionCore.v
ExtensionCoreTheorems.v
VllmProvider.v
StateAxisProvider.v
MooncakeProvider.v
ProductionStackProvider.v
BuiltinProviders.v
CommandLine.v
CommandTheorems.v
ProcessSupervisor.v
SupervisorTheorems.v
ManagerController.v
ManagerTheorems.v
