(* ===== verification/Prelude.v ===== *)
(** * The vLLM-HUST extension manager: a verification library

    The program manages extensions of an inference host.  Installed bundles publish
    manifests; the command line enables, configures and launches hosts with them.  Below it
    lies a transaction manager (ECPA, the extension contract and plan architecture):
    extensions declare contracts; a compiler turns them into one plan; a coordinator takes
    the plan through prepare, launch, observation, commit and rollback against a durable
    store; an exposure gate decides which generation of the host serves requests; signed
    attestations and host event journals are the evidence, and a quarantine transaction
    injects a fault into that evidence.  This library models those parts from their Python
    source and proves what they guarantee.

    ** Files and the code they model

    Paths are below [src/vllm_hust_ext/] unless they begin with [experiments/].

    - [Prelude], [PyStd]: exceptions as values, state-passing computations with a
      Hoare-style [triple], ordered dictionaries, sorting, and the standard library the
      code uses (SHA-256, [json.dumps], string methods), all executable.  [JsonText]:
      [json.loads] on bytes and text; [JsonRoundTrip]: what was printed is read back.
    - [EcpaModel]: [ecpa_model.py], the reference lifecycle model: a record, and each method
      a function that returns a result and the model it leaves.
    - [ContractParse], [ContractCompiler], [ContractOrder], [PlanTheorems]:
      [contract_compiler.py].  The parser works on arbitrary decoded JSON; the compiler
      resolves capabilities, orders contracts with a heap, assigns resources and binds
      obligations.  [ContractOrder] proves the ordering loop total and correct.
    - [PlanArtifact]: [plan_artifact.py], the canonical bytes of a plan and their reader.
    - [SignedAttestation]: [attestation/], the statement, the envelope, the verifier.
      Ed25519 and the canonical form of RFC 8785 are the classes [Ed25519] and [Jcs].
    - [HostEvidence]: [host_evidence.py], the events of a host and their translation into
      statements.  [HostEventSink], [HostJournal], [JournalTheorems]: [host_event_sink.py],
      the journals, their lock and fences, the writer, the reader and the quarantine move.
      [HostObserver], [ObserverTheorems]: [host_observer.py], coverage of a plan from
      journals and [/proc].
    - [LifecycleSource], [LifecycleTheorems]: [formal_lifecycle_source.py], its request, the
      fault's choice of a journal, the fact, the commit and [main].  [QuarantineTransaction]:
      [quarantine_transaction.py] and the fault's transaction of
      [formal_lifecycle_source.py].  A [World] is two directories, a lock and a script of
      outcomes, one for each system call: it works, fails, writes short, or kills the
      process.  [QuarantineInvariants]: every outcome; [QuarantineRecords]: names and records;
      [QuarantineTheorems]: histories of calls; [QuarantineSpec], [QuarantineStates],
      [QuarantineSteps], [QuarantineRecovery], [RecoveryTheorems]: one transaction, killed
      anywhere and reconciled, against an abstract state.
    - [ExposureGate], [GateInvariants], [ExposureOracle], [GateTheorems]:
      [exposure_gate.py].  A [World] is the SQLite rows, the traffic adapter, the armed fault
      points and the number of clock readings; every method of [ReferenceExposureGate] is a
      computation over it.  [ExposureOracle] is [evaluate_trace] and [export_trace].
    - [DurableCoordinator], [CoordinatorInvariants], [CoordinatorTheorems]:
      [durable_coordinator.py].  The adapter protocols are type classes, the fake adapters
      of the module instances; the coordinator is proved against the classes.  With an
      exposure gate as traffic side it calls the methods of [ExposureGate].
    - [TransactionModel]: [experiments/transaction_model/explore.py], the abstract exposure
      transaction and its breadth-first exploration.
    - [Manifest], [ManifestTheorems]: [manifest.py]; [ExtensionConfig]: [config.py];
      [Discovery], [DiscoveryTheorems]: [discovery.py]; [RuntimeEvidence]:
      [runtime_evidence.py]; [Catalog], [CatalogTheorems]: [catalog.py]; [Capabilities]:
      [capabilities.py].
    - [ExtensionCore], [ExtensionCoreTheorems]: [core.py] and the provider contract of
      [providers/base.py], a [Record] of operations the clients are proved against.
      [VllmProvider], [StateAxisProvider], [MooncakeProvider], [ProductionStackProvider]:
      the four of [providers/]; [BuiltinProviders] puts them into the table and proves what
      their plans and checks promise.
    - [CommandLine], [CommandTheorems]: [cli.py], the composition of the enabled bundles, the
      launch of a host, and the commands.
    - [ProcessSupervisor], [SupervisorTheorems]: [process_supervisor.py];
      [ManagerController], [ManagerTheorems]: [manager_controller.py].  Both launches are
      state machines whose events are their own next step, a signal between any two steps,
      what the processes do and the clock.  The target's environment is read back by the
      event sink of [HostJournal].

    ** What is proved

    Each claim is a theorem whose comment carries its number (C1, C2, ...) and states its
    conditions; other theorems are supporting results.  For the gate and the coordinator a
    call may return, raise, or be cut short at any fault point, the adapters may do anything,
    and time and routes change between calls; [reachable] is the closure of all that, and the
    invariants ([gate_inv], [coord_inv]) are preserved by each step.  From them follow: the
    candidate is opened at most once and under a checked proof; logs replay to the stored
    state; commits rest on evidence that is current at the commit's clock; nonces are spent
    once.  For the compiler: the order is a topological sort, cycles are found exactly, the
    plan does not depend on input order.  For artifacts, attestations, events and manifests:
    what is accepted is well formed and canonical, and what was written is read back.  For
    the journals and the quarantine: every history of calls, errors, short writes and kills
    keeps every journal copy and published record; and the single fault, when no system call
    fails and no other transaction is there, recovers from a kill anywhere.  For the
    extensions: the enabled set stays coherent under every command, a launch is vetted, its
    command and environment are the caller's but for what manifests declare and the manager
    owns.  For the launches: what a returned code means, that the kill comes when due, and
    that they end.  Several theorems and examples state where two parts disagree, or where
    an operation cannot recover.

    ** Bounds and fuel

    [kahn] runs with as much fuel as there are contracts plus one; [ContractOrder] proves
    it never runs out.  The search for dependency cycles has one more than the edges, which
    [CommandTheorems] proves enough; the JSON scanner twice the length of its text plus one,
    which [JsonRoundTrip] proves enough.  [explore] runs with 100 dequeues;
    [exploration_exhaustive] proves the queue is empty before.  Generations and sequence
    numbers are unbounded [Z], as Python's are; the 64-bit limit of an SQLite INTEGER column
    is not modelled.  Integers that [int] and [json] refuse for their number of digits are.

    ** What is not modelled

    - Third-party and platform code is a class with its documented laws as named
      hypotheses: [packaging] ([Pep440]), [int] and [\w] beyond ASCII, float formatting,
      URLs, cryptography, [/proc], the file system behind discovery, what imports give.
    - SQLite is a record of rows, a [with connection] block a transaction that restores
      them when its body raises; a crash keeps the committed rows.  One process uses a store
      at a time: interleaving is at the granularity of calls and fault points.  Adapters do
      not call back into the object that calls them.
    - For the quarantine, changes of a directory by others in the middle of a call, and loss
      of data that was not synced.
    - [RecursionError]; in most validators the text of error messages; [str.lower] beyond
      ASCII; type errors on rows the coordinator never writes.
    - HTTP and the audit lines of the lifecycle source; the argument parser, the printing and
      [formal-run]'s dispatch of the command line; the supervisor on other systems than POSIX.
    - [formal_adapter_admission.py], a validator that only the tests call and whose last
      check is [datetime.fromisoformat], which differs between Python versions.
    - The false-effective experiment (a harness and runner that drive deployments and judge
      loosely typed records), the scripts that run the modelled code and write result files,
      the repository's and the paper's scripts, and the Go verifier. *)
From Stdlib Require Import Permutation Sorted.
From stdpp Require Export base decidable list strings gmap sorting pretty.

(** ** Exceptions as values: the result of a Python call *)

Inductive result (E A : Type) : Type :=
  | Ok (a : A)
  | Raise (e : E).
Arguments Ok {E A} a.
Arguments Raise {E A} e.

#[export] Instance result_ret {E} : MRet (result E) := λ _ a, Ok a.
#[export] Instance result_bind {E} : MBind (result E) :=
  λ _ _ f m, match m with Ok a => f a | Raise e => Raise e end.

(** [raise_if b e] is [if b: raise e]. *)
Definition raise_if {E} (b : bool) (e : E) : result E unit :=
  if b then Raise e else Ok tt.

(** A [for] loop whose body may raise: the first exception leaves the loop. *)
Fixpoint mapR {E A B} (f : A → result E B) (l : list A) : result E (list B) :=
  match l with
  | [] => Ok []
  | x :: l => y ← f x; ys ← mapR f l; Ok (y :: ys)
  end.

Fixpoint forR {E A} (f : A → result E unit) (l : list A) : result E unit :=
  match l with
  | [] => Ok tt
  | x :: l => _ ← f x; forR f l
  end.

Fixpoint foldR {E A B} (f : B → A → result E B) (b : B) (l : list A) : result E B :=
  match l with
  | [] => Ok b
  | x :: l => b' ← f b x; foldR f b' l
  end.

(** [enumerate(l)] *)
Definition enumerate {A} (l : list A) : list (nat * A) := zip (seq 0 (length l)) l.

(** ** Methods of an object: state passing that keeps the state on a raise *)

Definition method (S E A : Type) : Type := S → result E A * S.

#[export] Instance method_ret {S E} : MRet (method S E) := λ _ a s, (Ok a, s).
#[export] Instance method_bind {S E} : MBind (method S E) :=
  λ _ _ f m s, match m s with
               | (Ok a, s') => f a s'
               | (Raise e, s') => (Raise e, s')
               end.

Definition get {S E} : method S E S := λ s, (Ok s, s).
Definition modify {S E} (f : S → S) : method S E unit := λ s, (Ok tt, f s).
Definition raise {S E A} (e : E) : method S E A := λ s, (Raise e, s).
Definition guard_raise {S E} (b : bool) (e : E) : method S E unit :=
  if b then raise e else mret tt.
Definition lift {S E A} (r : result E A) : method S E A := λ s, (r, s).
(** [try: m except Exception as e: h e] *)
Definition catch {S E A} (m : method S E A) (h : E → method S E A) : method S E A :=
  λ s, match m s with
       | (Ok a, s') => (Ok a, s')
       | (Raise e, s') => h e s'
       end.
(** [try: x = m except Exception as e: x = e] with the outcome as a value. *)
Definition attempt {S E A} (m : method S E A) : method S E (result E A) :=
  λ s, let '(r, s') := m s in (Ok r, s').

(** ** Orders used by [sorted] and [heapq] *)

Class PyOrd (A : Type) := py_leb : A → A → bool.
#[export] Hint Mode PyOrd ! : typeclass_instances.

Class PyOrdLaws (A : Type) `{PyOrd A} : Prop := {
  py_leb_total (x y : A) : py_leb x y ∨ py_leb y x;
  py_leb_trans (x y z : A) : py_leb x y → py_leb y z → py_leb x z;
  py_leb_antisym (x y : A) : py_leb x y → py_leb y x → x = y;
}.

#[export] Instance string_ord : PyOrd string := String.leb.
#[export] Instance Z_ord : PyOrd Z := Z.leb.
#[export] Instance prod_ord `{EqDecision A, PyOrd A, PyOrd B} : PyOrd (A * B) :=
  λ x y, if decide (x.1 = y.1) then py_leb x.2 y.2 else py_leb x.1 y.1.

Lemma ascii_compare_trans_lt a b c :
  Ascii.compare a b = Lt → Ascii.compare b c = Lt → Ascii.compare a c = Lt.
Proof. unfold Ascii.compare. rewrite !N.compare_lt_iff. lia. Qed.

Lemma ascii_compare_refl a : Ascii.compare a a = Eq.
Proof. unfold Ascii.compare. apply N.compare_refl. Qed.

Lemma ascii_compare_eq a b : Ascii.compare a b = Eq → a = b.
Proof. by apply Ascii.compare_eq_iff. Qed.

Lemma string_compare_trans_lt s t u :
  String.compare s t = Lt → String.compare t u = Lt → String.compare s u = Lt.
Proof.
  revert t u. induction s as [|a s IH]; intros [|b t] [|c u]; simpl; try done.
  destruct (Ascii.compare a b) eqn:Hab; try done;
    destruct (Ascii.compare b c) eqn:Hbc; try done; intros.
  - apply ascii_compare_eq in Hab, Hbc. subst.
    rewrite ascii_compare_refl. eauto.
  - apply ascii_compare_eq in Hab. subst. by rewrite Hbc.
  - apply ascii_compare_eq in Hbc. subst. by rewrite Hab.
  - by rewrite (ascii_compare_trans_lt a b c).
Qed.

Lemma string_leb_spec s t :
  String.leb s t = true ↔ s = t ∨ String.compare s t = Lt.
Proof.
  unfold String.leb.
  assert (∀ r, String.compare r r = Eq) as Hrefl.
  { intros r. induction r; simpl; [done|]. by rewrite ascii_compare_refl. }
  destruct (String.compare s t) eqn:E; split; try done; auto.
  - intros _. left. by apply String.compare_eq_iff.
  - intros [->|?]; [|done]. by rewrite Hrefl in E.
Qed.

#[export] Instance string_ord_laws : PyOrdLaws string.
Proof.
  split; unfold py_leb, string_ord.
  - intros x y. destruct (String.leb_total x y) as [->| ->]; [left|right]; done.
  - intros x y z Hxy Hyz. apply Is_true_true.
    apply Is_true_true, string_leb_spec in Hxy, Hyz. apply string_leb_spec.
    destruct Hxy as [->|Hxy]; [done|]. destruct Hyz as [<-|Hyz]; [by right|].
    right. by eapply string_compare_trans_lt.
  - intros x y Hxy Hyx. apply Is_true_true in Hxy, Hyx.
    by apply String.leb_antisym.
Qed.

#[export] Instance Z_ord_laws : PyOrdLaws Z.
Proof.
  split; unfold py_leb, Z_ord; intros; rewrite ?Is_true_true, ?Z.leb_le in *; lia.
Qed.

#[export] Instance prod_ord_laws
  `{EqDecision A, PyOrd A, !PyOrdLaws A, PyOrd B, !PyOrdLaws B} : PyOrdLaws (A * B).
Proof.
  assert (∀ a c : A, py_leb a c → py_leb c a → a = c) as Hanti
    by (intros; by apply py_leb_antisym).
  split.
  - intros [a b] [c d]; change (_ ∨ _) with
      (Is_true (prod_ord (a, b) (c, d)) ∨ Is_true (prod_ord (c, d) (a, b))).
    unfold prod_ord; simpl. repeat case_decide; simplify_eq; apply py_leb_total.
  - intros [a b] [c d] [e f]; change (Is_true (prod_ord (a, b) (c, d)) →
      Is_true (prod_ord (c, d) (e, f)) → Is_true (prod_ord (a, b) (e, f))).
    unfold prod_ord; simpl.
    destruct (decide (a = c)) as [->|], (decide (c = e)) as [->|]; simpl; intros H1 H2.
    + by eapply py_leb_trans.
    + done.
    + by try rewrite decide_False by done.
    + destruct (decide (a = e)) as [->|]; [naive_solver|]. by eapply py_leb_trans.
  - intros [a b] [c d]; change (Is_true (prod_ord (a, b) (c, d)) →
      Is_true (prod_ord (c, d) (a, b)) → (a, b) = (c, d)).
    unfold prod_ord; simpl. intros H1 H2.
    destruct (decide (a = c)) as [->|]; [|rewrite decide_False in H2 by done; naive_solver].
    rewrite decide_True in H2 by done. f_equal. by apply py_leb_antisym.
Qed.

(** ** [sorted(l, key=f)]: stable insertion sort *)

Section sorting.
Context {A K : Type} `{PyOrd K} (f : A → K).

Fixpoint insert_on (x : A) (l : list A) : list A :=
  match l with
  | [] => [x]
  | y :: l' => if py_leb (f x) (f y) then x :: l else y :: insert_on x l'
  end.

Definition sort_on (l : list A) : list A := foldr insert_on [] l.

Lemma insert_on_perm x l : insert_on x l ≡ₚ x :: l.
Proof.
  induction l as [|y l IH]; simpl; [done|].
  destruct (py_leb (f x) (f y)); [done|].
  rewrite IH. by constructor.
Qed.

Lemma sort_on_perm l : sort_on l ≡ₚ l.
Proof. induction l as [|x l IH]; simpl; [done|]. by rewrite insert_on_perm, IH. Qed.

Lemma elem_of_sort_on x l : x ∈ sort_on l ↔ x ∈ l.
Proof. by rewrite sort_on_perm. Qed.

Lemma length_sort_on l : length (sort_on l) = length l.
Proof. by rewrite sort_on_perm. Qed.

Context {Laws : PyOrdLaws K}.
Definition key_le (x y : A) : Prop := py_leb (f x) (f y).

Lemma insert_on_sorted x l :
  StronglySorted key_le l → StronglySorted key_le (insert_on x l).
Proof.
  induction 1 as [|y l Hl IH Hy]; simpl; [by repeat constructor|].
  destruct (py_leb (f x) (f y)) eqn:Hxy.
  - assert (key_le x y) by (unfold key_le; by rewrite Hxy).
    constructor; [by constructor|]. constructor; [done|].
    eapply Forall_impl; [exact Hy|]. intros z. by apply py_leb_trans.
  - constructor; [done|]. rewrite insert_on_perm. constructor; [|done].
    unfold key_le. destruct (py_leb_total (f x) (f y)); [|done].
    by rewrite Hxy in *.
Qed.

Lemma sort_on_sorted l : StronglySorted key_le (sort_on l).
Proof. induction l; simpl; [constructor|]. by apply insert_on_sorted. Qed.

(** Sorting forgets the order of the input when the keys are distinct. *)
Lemma sort_on_unique l l' :
  NoDup (f <$> l) → l ≡ₚ l' → sort_on l = sort_on l'.
Proof.
  intros Hnd Hp. eapply (StronglySorted_unique_strong key_le);
    [|apply sort_on_sorted..|by rewrite !sort_on_perm].
  intros x y Hx Hy Hxy Hyx. rewrite elem_of_sort_on in Hx, Hy.
  assert (f x = f y) as Hf by (by apply py_leb_antisym).
  rewrite <-Hp in Hy.
  apply list_elem_of_lookup in Hx as [i Hi], Hy as [j Hj].
  assert (i = j) as ->; [|by simplify_eq].
  eapply NoDup_lookup; [exact Hnd| |]; rewrite list_lookup_fmap.
  - by rewrite Hi.
  - by rewrite Hj, Hf.
Qed.

Lemma sort_on_sorted_id l : StronglySorted key_le l → sort_on l = l.
Proof.
  induction 1 as [|x l Hl IH Hx]; simpl; [done|]. rewrite IH.
  destruct l as [|y l]; [done|]. simpl. inversion Hx; subst.
  destruct (py_leb (f x) (f y)) eqn:E; [done|].
  unfold key_le in *. by rewrite E in *.
Qed.
End sorting.

(** ** Loops *)

Lemma mapR_Ok {E A B} (f : A → result E B) l ys :
  mapR f l = Ok ys ↔ Forall2 (λ x y, f x = Ok y) l ys.
Proof.
  revert ys. induction l as [|x l IH]; intros ys; simpl.
  - split; [intros; simplify_eq; constructor|by inversion 1].
  - unfold mbind, result_bind. split.
    + destruct (f x) as [y|e] eqn:Hx; [|done].
      destruct (mapR f l) as [ys'|e]; [|done].
      intros [= <-]. constructor; [done|]. by apply IH.
    + intros (y&ys'&Hx&Hl%IH&->)%Forall2_cons_inv_l. by rewrite Hx, Hl.
Qed.

Lemma mapR_Forall_in {E A B} (f : A → result E B) (P : B → Prop) l ys :
  (∀ x y, x ∈ l → f x = Ok y → P y) → mapR f l = Ok ys → Forall P ys.
Proof.
  intros Hf H. apply mapR_Ok in H. induction H as [|x y l ys Hx _ IH]; constructor.
  - eapply Hf; [by left|done].
  - apply IH. intros z w Hz. apply Hf. by right.
Qed.
Lemma mapR_Forall {E A B} (f : A → result E B) (P : B → Prop) l ys :
  (∀ x y, f x = Ok y → P y) → mapR f l = Ok ys → Forall P ys.
Proof. intros Hf. apply mapR_Forall_in. eauto. Qed.

Lemma mapR_fmap {E A B} (f : A → result E B) (g : B → A) ys :
  Forall (λ y, f (g y) = Ok y) ys → mapR f (g <$> ys) = Ok ys.
Proof. intros H. apply mapR_Ok. induction H; constructor; done. Qed.

Lemma forR_Ok {E A} (f : A → result E unit) l :
  forR f l = Ok tt ↔ Forall (λ x, f x = Ok tt) l.
Proof.
  induction l as [|x l IH]; simpl; [by split|].
  rewrite Forall_cons. unfold mbind, result_bind.
  destruct (f x) as [[]|e]; [naive_solver|]. split; [done|by intros [? _]].
Qed.

(** The first iteration that raises decides the exception of the loop. *)
Lemma forR_Raise {E A} (f : A → result E unit) l e :
  forR f l = Raise e ↔
  ∃ l1 x l2, l = l1 ++ x :: l2 ∧ Forall (λ x, f x = Ok tt) l1 ∧ f x = Raise e.
Proof.
  split.
  - induction l as [|x l IH]; simpl; [done|].
    unfold mbind, result_bind. destruct (f x) as [[]|e'] eqn:Hx; intros Hr.
    + destruct (IH Hr) as (l1&y&l2&->&?&?).
      exists (x :: l1), y, l2. by repeat constructor.
    + simplify_eq. by exists [], x, l.
  - intros (l1&x&l2&->&Hl1&Hx).
    induction Hl1 as [|y l1 Hy Hl1 IH]; simpl; unfold mbind, result_bind in *.
    + by rewrite Hx.
    + by rewrite Hy.
Qed.

(** ** Lists without duplicates: [len(l) != len(set(l))] *)

Definition has_duplicates {A} `{EqDecision A} (l : list A) : bool :=
  bool_decide (¬ NoDup l).

Lemma has_duplicates_false {A} `{EqDecision A} (l : list A) :
  has_duplicates l = false ↔ NoDup l.
Proof. unfold has_duplicates. rewrite bool_decide_eq_false. destruct (decide (NoDup l)); tauto. Qed.

Lemma NoDup_fmap_elem {A B} (f : A → B) l x y :
  NoDup (f <$> l) → x ∈ l → y ∈ l → f x = f y → x = y.
Proof.
  intros Hnd [i Hi]%list_elem_of_lookup [j Hj]%list_elem_of_lookup Hf.
  assert (i = j) as ->; [|by simplify_eq].
  eapply NoDup_lookup; [exact Hnd|..]; rewrite list_lookup_fmap; [by rewrite Hi|].
  by rewrite Hj, Hf.
Qed.

(** ** Insertion-ordered dictionaries: [dict] where its iteration order matters *)

Section odict.
Context {K V : Type} `{EqDecision K}.

Fixpoint od_get (k : K) (d : list (K * V)) : option V :=
  match d with
  | [] => None
  | (k', v) :: d => if decide (k = k') then Some v else od_get k d
  end.

(** [d[k] = v]: in place for a known key, at the end for a new one. *)
Fixpoint od_set (k : K) (v : V) (d : list (K * V)) : list (K * V) :=
  match d with
  | [] => [(k, v)]
  | (k', v') :: d =>
      if decide (k = k') then (k, v) :: d else (k', v') :: od_set k v d
  end.

Lemma od_get_set k k' v d :
  od_get k (od_set k' v d) = if decide (k = k') then Some v else od_get k d.
Proof.
  induction d as [|[k'' v''] d IH]; simpl; [done|].
  repeat (case_decide; simplify_eq; simpl; auto).
Qed.

Lemma od_get_elem_of k v d : od_get k d = Some v → (k, v) ∈ d.
Proof.
  induction d as [|[k' v'] d IH]; simpl; [done|].
  case_decide; intros; simplify_eq; [by left|right; auto].
Qed.

Lemma od_get_None k d : od_get k d = None ↔ k ∉ d.*1.
Proof.
  induction d as [|[k' v'] d IH]; simpl; [by split; [inversion 2|]|].
  rewrite not_elem_of_cons. case_decide; naive_solver.
Qed.

Lemma od_get_NoDup k v d : NoDup d.*1 → (k, v) ∈ d → od_get k d = Some v.
Proof.
  induction d as [|[k' v'] d IH]; simpl; [by intros _ ?%elem_of_nil|].
  intros [Hk Hd]%NoDup_cons [?|Hin]%elem_of_cons; simplify_eq.
  - by rewrite decide_True.
  - rewrite decide_False; [auto|]. intros <-. apply Hk.
    apply list_elem_of_fmap. by exists (k, v).
Qed.

Lemma od_set_keys k v d k' : k' ∈ (od_set k v d).*1 ↔ k' = k ∨ k' ∈ d.*1.
Proof.
  induction d as [|[k'' v''] d IH]; simpl.
  - rewrite elem_of_cons, elem_of_nil. tauto.
  - case_decide; simpl; rewrite !elem_of_cons, ?IH; naive_solver.
Qed.

Lemma od_set_new k v d : k ∉ d.*1 → od_set k v d = d ++ [(k, v)].
Proof.
  induction d as [|[k' v'] d IH]; simpl; [done|]. intros Hk. rewrite decide_False by set_solver.
  rewrite IH by set_solver. done.
Qed.

Lemma od_set_NoDup k v d : NoDup d.*1 → NoDup (od_set k v d).*1.
Proof.
  induction d as [|[k' v'] d IH]; simpl; intros Hnd.
  - apply NoDup_singleton.
  - apply NoDup_cons in Hnd as [Hk Hd].
    case_decide; simpl; apply NoDup_cons; simplify_eq; [done|].
    split; [|auto]. rewrite od_set_keys. naive_solver.
Qed.
End odict.

(** ** Symbolic execution of methods *)

(** The state a call leaves behind, whether it returns or raises. *)
Definition exec {S E A} (m : method S E A) (s : S) : S := (m s).2.

Ltac unfold_method :=
  unfold mbind, mret, method_bind, method_ret, get, modify, raise, guard_raise,
    lift, catch, attempt in *.

(** Split on every test the goal or the hypothesis [H] still branches on. *)
Ltac split_branches :=
  repeat (case_match; simplify_eq/=; try done).

Lemma guard_raise_false {S E} (e : E) (s : S) : guard_raise false e s = (Ok tt, s).
Proof. done. Qed.

Lemma bind_Ok {S E A B} (m : method S E A) (f : A → method S E B) s b s' :
  (m ≫= f) s = (Ok b, s') ↔ ∃ a s1, m s = (Ok a, s1) ∧ f a s1 = (Ok b, s').
Proof.
  unfold mbind, method_bind. destruct (m s) as [[a|e] s1]; naive_solver.
Qed.

Lemma guard_raise_Ok {S E} (b : bool) (e : E) (s s' : S) u :
  guard_raise b e s = (Ok u, s') ↔ b = false ∧ s' = s.
Proof. unfold guard_raise. destruct b, u; unfold raise, mret, method_ret; naive_solver. Qed.

Lemma get_Ok {S E} (s a s' : S) : @get S E s = (Ok a, s') ↔ a = s ∧ s' = s.
Proof. unfold get. naive_solver. Qed.

Lemma modify_Ok {S E} (f : S → S) (s s' : S) u :
  @modify S E f s = (Ok u, s') ↔ s' = f s.
Proof. unfold modify. destruct u. naive_solver. Qed.

Lemma mret_Ok {S E A} (a a' : A) (s s' : S) :
  (mret a : method S E A) s = (Ok a', s') ↔ a' = a ∧ s' = s.
Proof. unfold mret, method_ret. naive_solver. Qed.

Lemma lift_Ok {S E A} (r : result E A) (s s' : S) a :
  lift r s = (Ok a, s') ↔ r = Ok a ∧ s' = s.
Proof. unfold lift. naive_solver. Qed.

Lemma result_bind_Ok {E A B} (m : result E A) (f : A → result E B) b :
  m ≫= f = Ok b ↔ ∃ a, m = Ok a ∧ f a = Ok b.
Proof. destruct m; unfold mbind, result_bind; naive_solver. Qed.

Lemma raise_if_Ok {E} (b : bool) (e : E) u : raise_if b e = Ok u ↔ b = false.
Proof. unfold raise_if. destruct b, u; naive_solver. Qed.

(** Read every successful run among the hypotheses as the tests it passed and
    the states it went through. *)
Ltac method_inv :=
  repeat match goal with
  | H : mbind _ _ _ = (Ok _, _) |- _ =>
      apply bind_Ok in H; destruct H as (? & ? & ? & ?)
  | H : mbind _ _ = Ok _ |- _ => apply result_bind_Ok in H; destruct H as (? & ? & ?)
  | H : get _ = (Ok _, _) |- _ => apply get_Ok in H; destruct H as [? ?]; subst
  | H : guard_raise _ _ _ = (Ok _, _) |- _ =>
      apply guard_raise_Ok in H; destruct H as [? ?]; subst
  | H : modify _ _ = (Ok _, _) |- _ => apply modify_Ok in H; subst
  | H : mret _ _ = (Ok _, _) |- _ => apply mret_Ok in H; destruct H as [? ?]; subst
  | H : lift _ _ = (Ok _, _) |- _ => apply lift_Ok in H; destruct H as [? ?]; subst
  | H : raise_if _ _ = Ok _ |- _ => apply raise_if_Ok in H
  | H : raise _ _ = (Ok _, _) |- _ => discriminate H
  end.

Ltac bool_inv :=
  repeat match goal with
  | H : negb _ = false |- _ => apply negb_false_iff in H
  | H : negb _ = true |- _ => apply negb_true_iff in H
  | H : _ || _ = false |- _ => apply orb_false_iff in H; destruct H as [? ?]
  | H : _ && _ = true |- _ => apply andb_true_iff in H; destruct H as [? ?]
  | H : bool_decide _ = true |- _ => apply bool_decide_eq_true in H
  | H : bool_decide _ = false |- _ => apply bool_decide_eq_false in H
  | H : (_ =? _)%Z = true |- _ => apply Z.eqb_eq in H
  | H : (_ <? _)%Z = false |- _ => apply Z.ltb_ge in H
  | H : (_ >? _)%Z = false |- _ => rewrite Z.gtb_ltb in H; apply Z.ltb_ge in H
  end.

(** ** Exception safety

    [read_only]: never assigns; [total]: never raises; [atomic]: a raise leaves
    the state as it was.  A method whose checks come before its assignments is
    atomic, and the rules below follow that shape. *)

Definition read_only {S E A} (m : method S E A) : Prop := ∀ s, (m s).2 = s.
Definition total {S E A} (m : method S E A) : Prop := ∀ s e, (m s).1 ≠ Raise e.
Definition atomic {S E A} (m : method S E A) : Prop := ∀ s e, (m s).1 = Raise e → (m s).2 = s.

Section exception_safety.
Context {S E : Type}.

Lemma read_only_bind {A B} (m : method S E A) (f : A → method S E B) :
  read_only m → (∀ a, read_only (f a)) → read_only (m ≫= f).
Proof.
  intros Hm Hf s. specialize (Hm s). unfold mbind, method_bind.
  destruct (m s) as [[a|e] s']; simpl in *; subst; [apply Hf|done].
Qed.
Lemma read_only_get : read_only (@get S E).
Proof. done. Qed.
Lemma read_only_mret {A} (a : A) : read_only (mret a : method S E A).
Proof. done. Qed.
Lemma read_only_raise {A} (e : E) : read_only (raise e : method S E A).
Proof. done. Qed.
Lemma read_only_lift {A} (r : result E A) : read_only (lift r : method S E A).
Proof. done. Qed.
Lemma read_only_guard b (e : E) : read_only (guard_raise b e : method S E ()).
Proof. by destruct b. Qed.

Lemma total_bind {A B} (m : method S E A) (f : A → method S E B) :
  total m → (∀ a, total (f a)) → total (m ≫= f).
Proof.
  intros Hm Hf s e. specialize (Hm s). unfold mbind, method_bind.
  destruct (m s) as [[a|e'] s']; simpl in *; [apply Hf|by destruct (Hm e')].
Qed.
Lemma total_get : total (@get S E).
Proof. done. Qed.
Lemma total_mret {A} (a : A) : total (mret a : method S E A).
Proof. done. Qed.
Lemma total_modify f : total (@modify S E f).
Proof. done. Qed.

Lemma atomic_read_only {A} (m : method S E A) : read_only m → atomic m.
Proof. intros Hm s e _. apply Hm. Qed.
Lemma atomic_total {A} (m : method S E A) : total m → atomic m.
Proof. intros Hm s e He. by destruct (Hm s e). Qed.
Lemma atomic_bind {A B} (m : method S E A) (f : A → method S E B) :
  read_only m → (∀ a, atomic (f a)) → atomic (m ≫= f).
Proof.
  intros Hm Hf s e. specialize (Hm s). unfold mbind, method_bind.
  destruct (m s) as [[a|e'] s']; simpl in *; subst; [apply Hf|done].
Qed.

Lemma read_only_exec {A} (m : method S E A) s : read_only m → exec m s = s.
Proof. intros Hm. apply Hm. Qed.

(** A call of an atomic method either returned or left the state alone. *)
Lemma atomic_exec {A} (m : method S E A) s :
  atomic m → exec m s = s ∨ ∃ a, m s = (Ok a, exec m s).
Proof.
  intros Hm. specialize (Hm s). unfold exec.
  destruct (m s) as [[a|e] s']; simpl in *; eauto.
Qed.
End exception_safety.

Ltac solve_read_only :=
  repeat first
    [ apply read_only_get | apply read_only_mret | apply read_only_raise
    | apply read_only_lift | apply read_only_guard
    | apply read_only_bind; [|intros ?] | progress case_match ].

Ltac solve_total :=
  repeat first
    [ apply total_get | apply total_mret | apply total_modify
    | apply total_bind; [|intros ?] | progress case_match ].

Ltac solve_atomic :=
  repeat first
    [ solve [apply atomic_read_only; solve_read_only]
    | solve [apply atomic_total; solve_total]
    | apply atomic_bind; [solve [solve_read_only]|intros ?]
    | progress case_match ].

(** Membership of a constant in a constant list, by evaluation. *)
Ltac in_list := by apply (bool_decide_unpack _); vm_compute.
Ltac not_in_list :=
  let H := fresh in
  intros H; exfalso; revert H;
  lazymatch goal with |- ?P → False => change (¬ P) end; in_list.

Lemma foldR_snoc {E A B} (f : B → A → result E B) b l x :
  foldR f b (l ++ [x]) = foldR f b l ≫= λ b', f b' x.
Proof.
  revert b. induction l as [|y l IH]; intros b; simpl.
  - unfold mbind, result_bind. by destruct (f b x).
  - unfold mbind, result_bind in *. destruct (f b y); [apply IH|done].
Qed.

(** A property of every element and what precedes it, one element at a time. *)
Lemma every_split_snoc {A} (Q : list A → A → Prop) l x :
  (∀ pre c post, l ++ [x] = pre ++ c :: post → Q pre c) ↔
  (∀ pre c post, l = pre ++ c :: post → Q pre c) ∧ Q l x.
Proof.
  split.
  - intros H. split; [|by apply (H l x [])].
    intros pre c post ->. apply (H pre c (post ++ [x])). by rewrite <-app_assoc.
  - intros [Hl Hx] pre c post Heq.
    destruct post as [|y post _] using rev_ind.
    + apply app_inj_tail in Heq as [-> ->]. done.
    + rewrite app_comm_cons, app_assoc in Heq.
      apply app_inj_tail in Heq as [-> ->]. by eapply Hl.
Qed.

(** [raises_only P r]: every exception of [r] satisfies [P]. *)
Definition raises_only {E A} (P : E → Prop) (r : result E A) : Prop :=
  ∀ e, r = Raise e → P e.

Section raises_only.
Context {E : Type} (P : E → Prop).

Lemma raises_only_Ok {A} (a : A) : raises_only P (Ok a).
Proof. by intros e. Qed.
Lemma raises_only_Raise {A} e : P e → raises_only P (Raise e : result E A).
Proof. by intros ? ? [= <-]. Qed.
Lemma raises_only_bind {A B} (r : result E A) (f : A → result E B) :
  raises_only P r → (∀ a, r = Ok a → raises_only P (f a)) → raises_only P (r ≫= f).
Proof.
  intros Hr Hf. destruct r as [a|e]; [by apply Hf|].
  intros ? [= <-]. by apply Hr.
Qed.
Lemma raises_only_raise_if b e : P e → raises_only P (raise_if b e).
Proof. intros He e'. destruct b; simpl; [by intros [= <-]|done]. Qed.
Lemma raises_only_mapR {A B} (f : A → result E B) l :
  (∀ x, x ∈ l → raises_only P (f x)) → raises_only P (mapR f l).
Proof.
  induction l as [|x l IH]; intros Hf; simpl; [by apply raises_only_Ok|].
  apply raises_only_bind; [apply Hf; by left|intros y _].
  apply raises_only_bind; [|intros ? _; apply raises_only_Ok].
  apply IH. intros z Hz. apply Hf. by right.
Qed.
Lemma raises_only_forR {A} (f : A → result E ()) l :
  (∀ x, x ∈ l → raises_only P (f x)) → raises_only P (forR f l).
Proof.
  induction l as [|x l IH]; intros Hf; simpl; [by apply raises_only_Ok|].
  apply raises_only_bind; [apply Hf; by left|intros y _].
  apply IH. intros z Hz. apply Hf. by right.
Qed.
Lemma raises_only_foldR {A B} (f : B → A → result E B) l b :
  (∀ b x, x ∈ l → raises_only P (f b x)) → raises_only P (foldR f b l).
Proof.
  revert b. induction l as [|x l IH]; intros b Hf; simpl; [by apply raises_only_Ok|].
  apply raises_only_bind; [apply Hf; by left|intros y _].
  apply IH. intros c z Hz. apply Hf. by right.
Qed.
End raises_only.

(** Walk down a validator; the side conditions about [P] go to [auto with raises]. *)
Create HintDb raises.
Ltac solve_raises :=
  repeat first
    [ apply raises_only_Ok
    | solve [auto with raises]
    | apply raises_only_Raise; solve [auto with raises]
    | apply raises_only_raise_if; solve [auto with raises]
    | apply raises_only_bind; [|intros ? ?]
    | apply raises_only_mapR; intros ? ?
    | apply raises_only_forR; intros ? ?
    | progress case_match ].

Lemma filter_ext_in {A} (P Q : A → Prop) `{∀ x, Decision (P x), ∀ x, Decision (Q x)} (l : list A) :
  (∀ x, x ∈ l → P x ↔ Q x) → filter P l = filter Q l.
Proof.
  induction l as [|x l IH]; intros HPQ; [done|]. rewrite !filter_cons.
  pose proof (HPQ x ltac:(by left)) as Hx.
  rewrite IH by (intros y Hy; apply HPQ; by right).
  repeat case_decide; tauto.
Qed.

Lemma filter_whole {A} (P : A → Prop) `{∀ x, Decision (P x)} (l : list A) : Forall P l → filter P l = l.
Proof. induction 1 as [|x l Hx _ IH]; [done|]. by rewrite filter_cons_True, IH. Qed.
Lemma filter_none {A} (P : A → Prop) `{∀ x, Decision (P x)} (l : list A) : Forall (λ x, ¬ P x) l → filter P l = [].
Proof. induction 1 as [|x l Hx _ IH]; [done|]. by rewrite filter_cons_False. Qed.

Lemma StronglySorted_filter {A} (R : A → A → Prop) (P : A → Prop) `{∀ x, Decision (P x)} (l : list A) :
  StronglySorted R l → StronglySorted R (filter P l).
Proof.
  induction 1 as [|x l Hl IH Hx]; [constructor|]. rewrite filter_cons. case_decide; [|done]. constructor; [done|].
  rewrite Forall_forall in *. intros y [_ Hy]%list_elem_of_filter. auto.
Qed.

(** ** Hoare triples over a component of the state

    [proj] selects the durable part of a state whose other parts no statement is
    about.  From a state whose durable part satisfies [P], the method returns in
    [Q] or raises in [E]. *)

Definition triple_of {S D X A} (proj : S → D) (P : D → Prop) (m : method S X A)
    (Q : A → D → Prop) (E : D → Prop) : Prop :=
  ∀ s, P (proj s) →
    match m s with
    | (Ok a, s') => Q a (proj s')
    | (Raise _, s') => E (proj s')
    end.

(** The method never assigns the durable part. *)
Definition keeps {S D X A} (proj : S → D) (m : method S X A) : Prop :=
  ∀ s, proj (m s).2 = proj s.

Section triples.
Context {S D X : Type} {proj : S → D} {E : D → Prop}.
Notation triple P m Q E := (triple_of proj P m Q E).

Lemma triple_conseq {A} (P P' : D → Prop) (m : method S X A) (Q Q' : A → D → Prop) :
  triple P' m Q' E → (∀ d, P d → P' d) → (∀ a d, Q' a d → Q a d) → triple P m Q E.
Proof.
  intros Hm HP HQ s Hs. specialize (Hm s (HP _ Hs)).
  destruct (m s) as [[a|e] s']; auto.
Qed.

Lemma triple_weaken {A} P (m : method S X A) (Q Q' : A → D → Prop) :
  triple P m Q' E → (∀ a d, Q' a d → Q a d) → triple P m Q E.
Proof. intros Hm HQ. by eapply triple_conseq. Qed.

Lemma triple_strengthen {A} (P P' : D → Prop) (m : method S X A) Q :
  triple P' m Q E → (∀ d, P d → P' d) → triple P m Q E.
Proof. intros Hm HP. by eapply triple_conseq. Qed.

Lemma triple_bind {A B} P (m : method S X A) (f : A → method S X B) R Q :
  triple P m R E → (∀ a, triple (R a) (f a) Q E) → triple P (m ≫= f) Q E.
Proof.
  intros Hm Hf s Hs. specialize (Hm s Hs). unfold mbind, method_bind.
  destruct (m s) as [[a|e] s']; [by apply Hf|done].
Qed.

Lemma triple_get {B} P (f : S → method S X B) Q :
  (∀ s0, triple (λ d, d = proj s0 ∧ P d) (f s0) Q E) → triple P (get ≫= f) Q E.
Proof. intros Hf s Hs. unfold mbind, method_bind, get. by apply Hf. Qed.

Lemma triple_ret {A} (P : D → Prop) (a : A) (Q : A → D → Prop) :
  (∀ d, P d → Q a d) → triple P (mret a : method S X A) Q E.
Proof. intros HQ s Hs. by apply HQ. Qed.

Lemma triple_raise {A} (P : D → Prop) e (Q : A → D → Prop) :
  (∀ d, P d → E d) → triple P (raise e : method S X A) Q E.
Proof. intros HE s Hs. by apply HE. Qed.

Lemma triple_guard (P : D → Prop) b (e : X) :
  (∀ d, P d → E d) →
  triple P (guard_raise b e : method S X ()) (λ _ d, P d ∧ b = false) E.
Proof. intros HE s Hs. destruct b; [by apply HE|done]. Qed.

Lemma triple_keeps {A} (P : D → Prop) (m : method S X A) :
  keeps proj m → (∀ d, P d → E d) → triple P m (λ _, P) E.
Proof.
  intros Hm HE s Hs. specialize (Hm s).
  destruct (m s) as [[a|e] s']; simpl in Hm; rewrite Hm; auto.
Qed.

(** Facts about the arguments can be read off the precondition. *)
Lemma triple_pre {A} (P : D → Prop) (m : method S X A) Q :
  (∀ d, P d → triple (λ d', d' = d ∧ P d) m Q E) → triple P m Q E.
Proof. intros H s Hs. by apply (H (proj s) Hs). Qed.

Lemma triple_fact {A} (P : D → Prop) (F : Prop) (m : method S X A) Q :
  (∀ d, P d → F) → (F → triple P m Q E) → triple P m Q E.
Proof. intros HF Hm s Hs. apply Hm; [by eapply HF|done]. Qed.

Lemma triple_lift_Ok {A B} P (a : A) (f : A → method S X B) Q :
  triple P (f a) Q E → triple P (lift (Ok a) ≫= f) Q E.
Proof. done. Qed.

(** A handler starts from where the body raised. *)
Lemma triple_catch {A} P (m : method S X A) (h : X → method S X A) Q E' :
  triple P m Q E' → (∀ e, triple E' (h e) Q E) → triple P (catch m h) Q E.
Proof.
  intros Hm Hh s Hs. specialize (Hm s Hs). unfold catch.
  destruct (m s) as [[a|e] s']; [done|by apply Hh].
Qed.

Lemma triple_attempt {A} P (m : method S X A) (Q : D → Prop) :
  triple P m (λ _, Q) Q → triple P (attempt m) (λ _, Q) E.
Proof.
  intros Hm s Hs. specialize (Hm s Hs). unfold attempt. by destruct (m s) as [[a|e] s'].
Qed.
End triples.

Section keeps.
Context {S D X : Type} {proj : S → D}.

Lemma keeps_bind {A B} (m : method S X A) (f : A → method S X B) :
  keeps proj m → (∀ a, keeps proj (f a)) → keeps proj (m ≫= f).
Proof.
  intros Hm Hf s. specialize (Hm s). unfold mbind, method_bind.
  destruct (m s) as [[a|e] s']; simpl in *; [by rewrite Hf|done].
Qed.
Lemma keeps_get : keeps proj (@get S X).
Proof. done. Qed.
Lemma keeps_ret {A} (a : A) : keeps proj (mret a : method S X A).
Proof. done. Qed.
Lemma keeps_raise {A} e : keeps proj (raise e : method S X A).
Proof. done. Qed.
Lemma keeps_guard b e : keeps proj (guard_raise b e : method S X ()).
Proof. by destruct b. Qed.
Lemma keeps_lift {A} (r : result X A) : keeps proj (lift r : method S X A).
Proof. done. Qed.
Lemma keeps_attempt {A} (m : method S X A) : keeps proj m → keeps proj (attempt m).
Proof. intros Hm s. specialize (Hm s). unfold attempt. by destruct (m s). Qed.
End keeps.
