(* ===== verification/PyStd.v ===== *)
(** * The part of Python's standard library the modelled code uses

    [hashlib.sha256], [json.dumps] with sorted keys and compact separators,
    and the string methods the validators call.  A Python [str] is a Rocq
    [string] holding its UTF-8 bytes; a value that may come out of
    [json.loads] (the [Any] of the source) is a [json].

    [str.lower] is the ASCII case mapping: the only caller tests
    [value.lower() != value] on names whose grammar is ASCII. *)

From Stdlib Require Import NArith.
From S2P Require Import Prelude.

(** ** Bytes *)

Fixpoint bytes_of_string (s : string) : list N :=
  match s with
  | EmptyString => []
  | String a s => Ascii.N_of_ascii a :: bytes_of_string s
  end.

Fixpoint string_of_bytes (l : list N) : string :=
  match l with
  | [] => EmptyString
  | n :: l => String (Ascii.ascii_of_N n) (string_of_bytes l)
  end.

Definition hex_digit (n : N) : Ascii.ascii :=
  Ascii.ascii_of_N (if (n <? 10)%N then 48 + n else 87 + n)%N.

Fixpoint hex_fixed (digits : nat) (n : N) (acc : string) : string :=
  match digits with
  | O => acc
  | S d => hex_fixed d (n / 16)%N (String (hex_digit (n mod 16)) acc)
  end.

(** ** SHA-256 (FIPS 180-4), on 32-bit words *)

Module Sha256.
Local Open Scope N_scope.

(** The low 32 bits. *)
Definition w32 (n : N) : N := N.land n 4294967295.
Definition add32 (a b : N) : N := w32 (a + b).
Definition rotr (k x : N) : N :=
  N.lor (N.shiftr x k) (w32 (N.shiftl x (32 - k))).
Definition ch (x y z : N) : N := N.lxor (N.land x y) (N.land (N.lxor x 4294967295) z).
Definition maj (x y z : N) : N :=
  N.lxor (N.lxor (N.land x y) (N.land x z)) (N.land y z).
Definition bsig0 (x : N) : N := N.lxor (N.lxor (rotr 2 x) (rotr 13 x)) (rotr 22 x).
Definition bsig1 (x : N) : N := N.lxor (N.lxor (rotr 6 x) (rotr 11 x)) (rotr 25 x).
Definition ssig0 (x : N) : N := N.lxor (N.lxor (rotr 7 x) (rotr 18 x)) (N.shiftr x 3).
Definition ssig1 (x : N) : N := N.lxor (N.lxor (rotr 17 x) (rotr 19 x)) (N.shiftr x 10).

(** The constants of the standard are the first 32 bits of the fractional parts of the
    cube roots (of the square roots) of the first primes. *)
Definition is_prime (n : N) : bool :=
  forallb (fun d => negb (n mod N.of_nat d =? 0)) (seq 2 (N.to_nat n - 2)).
Definition primes (bound : nat) : list N :=
  List.filter is_prime (N.of_nat <$> seq 2 (bound - 2)).

(** The largest [r] with [r ^ 3 <= n], bit by bit. *)
Fixpoint cbrt_bits (bits : nat) (n r : N) : N :=
  match bits with
  | O => r
  | S b => let r' := r + 2 ^ N.of_nat b in
           cbrt_bits b n (if r' * r' * r' <=? n then r' else r)
  end.

Definition K : list N :=
  Eval vm_compute in (fun p => w32 (cbrt_bits 36 (p * 2 ^ 96) 0)) <$> primes 312.

Definition H0 : list N :=
  Eval vm_compute in (fun p => w32 (N.sqrt (p * 2 ^ 64))) <$> primes 20.

(** The message schedule, kept newest word first. *)
Fixpoint schedule (n : nat) (ws : list N) : list N :=
  match n with
  | O => ws
  | S n =>
      let w i := nth i ws 0 in
      schedule n (add32 (add32 (ssig1 (w 1%nat)) (w 6%nat))
                        (add32 (ssig0 (w 14%nat)) (w 15%nat)) :: ws)
  end.

Definition round (st : list N) (kw : N * N) : list N :=
  match st with
  | [a; b; c; d; e; f; g; h] =>
      let t1 := add32 (add32 (add32 h (bsig1 e)) (ch e f g)) (add32 kw.1 kw.2) in
      let t2 := add32 (bsig0 a) (maj a b c) in
      [add32 t1 t2; a; b; c; add32 d t1; e; f; g]
  | _ => st
  end.

Definition compress (h block : list N) : list N :=
  let ws := rev (schedule 48 (rev block)) in
  zip_with add32 h (foldl round h (zip K ws)).

Fixpoint words (fuel : nat) (bs : list N) : list N :=
  match fuel, bs with
  | S fuel, a :: b :: c :: d :: bs =>
      (((a * 256 + b) * 256 + c) * 256 + d) :: words fuel bs
  | _, _ => []
  end.

Fixpoint blocks (fuel : nat) (h ws : list N) : list N :=
  match fuel, ws with
  | S fuel, _ :: _ => blocks fuel (compress h (take 16 ws)) (drop 16 ws)
  | _, _ => h
  end.

Fixpoint be_bytes (n : nat) (x : N) (acc : list N) : list N :=
  match n with
  | O => acc
  | S n => be_bytes n (x / 256) ((x mod 256) :: acc)
  end.

Definition pad (bs : list N) : list N :=
  let len := length bs in
  let zeros := ((119 - len mod 64) mod 64)%nat in
  bs ++ [0x80] ++ replicate zeros 0 ++ be_bytes 8 (N.of_nat len * 8) [].

Definition hexdigest (bs : list N) : string :=
  let ws := words (length bs + 72) (pad bs) in
  foldr (λ w acc, hex_fixed 8 w acc) EmptyString (blocks (length ws) H0 ws).
End Sha256.

(** [hashlib.sha256(s.encode()).hexdigest()] *)
Definition sha256_hexdigest (s : string) : string :=
  Sha256.hexdigest (bytes_of_string s).

Example sha256_abc :
  sha256_hexdigest "abc" =
  "ba7816bf8f01cfea414140de5dae2223b00361a396177a9cb410ff61f20015ad"%string.
Proof. vm_compute. reflexivity. Qed.

Example sha256_two_blocks :
  sha256_hexdigest "abcdbcdecdefdefgefghfghighijhijkijkljklmklmnlmnomnopnopq" =
  "248d6a61d20638b8e5c026930c3e6039a33ce45964ff2167f6ecedd419db06c1"%string.
Proof. vm_compute. reflexivity. Qed.

(** ** String methods *)

Local Open Scope string_scope.
Local Open Scope list_scope.

Definition starts_with (prefix s : string) : bool := String.prefix prefix s.

Fixpoint ends_with (suffix s : string) : bool :=
  bool_decide (s = suffix) ||
  match s with EmptyString => false | String _ s => ends_with suffix s end.

Fixpoint has_char (c : Ascii.ascii) (s : string) : bool :=
  match s with
  | EmptyString => false
  | String a s => bool_decide (a = c) || has_char c s
  end.

Fixpoint string_forallb (p : Ascii.ascii → bool) (s : string) : bool :=
  match s with EmptyString => true | String a s => p a && string_forallb p s end.

Definition is_upper (a : Ascii.ascii) : bool :=
  let n := Ascii.N_of_ascii a in ((65 <=? n) && (n <=? 90))%N.
Definition is_lower (a : Ascii.ascii) : bool :=
  let n := Ascii.N_of_ascii a in ((97 <=? n) && (n <=? 122))%N.
Definition is_digit (a : Ascii.ascii) : bool :=
  let n := Ascii.N_of_ascii a in ((48 <=? n) && (n <=? 57))%N.

(** [s.lower() == s] *)
Definition is_lowercased (s : string) : bool := string_forallb (λ a, negb (is_upper a)) s.

(** The characters [str.strip] removes, as UTF-8 byte strings. *)
Definition py_whitespace : list string :=
  string_of_bytes <$>
    (((λ n, [n]) <$> [9; 10; 11; 12; 13; 28; 29; 30; 31; 32]) ++
     [[194; 133]; [194; 160]; [225; 154; 128]] ++
     ((λ n, [226; 128; n]) <$>
        [128; 129; 130; 131; 132; 133; 134; 135; 136; 137; 138; 168; 169; 175]) ++
     [[226; 129; 159]; [227; 128; 128]])%N%list.

(** [s.strip() == s] *)
Definition is_stripped (s : string) : bool :=
  forallb (λ w, negb (starts_with w s) && negb (ends_with w s)) py_whitespace.

(** [s.split(".", 1)[0]] *)
Fixpoint before_dot (s : string) : string :=
  match s with
  | EmptyString => ""
  | String a s => if bool_decide (a = Ascii.ascii_of_N 46) then "" else String a (before_dot s)
  end.

(** [s.split(".", 1)[1]], empty without a dot *)
Fixpoint after_dot (s : string) : string :=
  match s with
  | EmptyString => ""
  | String a s => if bool_decide (a = Ascii.ascii_of_N 46) then s else after_dot s
  end.

(** [s.removeprefix(p)] and [s.removesuffix(p)] *)
Fixpoint drop_chars (n : nat) (s : string) : string :=
  match n, s with S n, String _ s => drop_chars n s | _, _ => s end.
Definition remove_prefix (p s : string) : string :=
  if starts_with p s then drop_chars (String.length p) s else s.
Fixpoint remove_suffix (p s : string) : string :=
  if bool_decide (s = p) then EmptyString
  else match s with EmptyString => EmptyString | String a s => String a (remove_suffix p s) end.

Definition is_hex (a : Ascii.ascii) : bool :=
  is_digit a || (let n := Ascii.N_of_ascii a in (97 <=? n) && (n <=? 102))%N.

(** [Path(s).name == s]: one path component, and not ["."]. *)
Definition is_path_name (s : string) : bool :=
  negb (bool_decide (s = "")) && negb (bool_decide (s = ".")) &&
  negb (has_char (Ascii.ascii_of_N 47) s).

#[local] Arguments String.append !_ _ / : simpl nomatch.

Lemma string_app_assoc (a b c : string) : (a +:+ b) +:+ c = a +:+ b +:+ c.
Proof. induction a as [|x a IH]; [done|]. exact (f_equal (String x) IH). Qed.

Lemma string_app_nil_r (a : string) : a +:+ "" = a.
Proof. induction a as [|x a IH]; [done|]. exact (f_equal (String x) IH). Qed.

Lemma starts_with_spec p s : starts_with p s = true ↔ ∃ t, s = p +:+ t.
Proof.
  unfold starts_with. revert s. induction p as [|x p IH]; intros s; simpl.
  - split; [intros _; by exists s|by destruct s].
  - destruct s as [|y s]; simpl; [split; [done|intros [t Ht]; by simplify_eq]|].
    destruct (Ascii.ascii_dec x y) as [->|Hxy].
    + rewrite IH. split; intros [t Ht]; exists t; by simplify_eq/=.
    + split; [done|intros [t Ht]; by simplify_eq/=].
Qed.

Lemma starts_with_app p s : starts_with p (p +:+ s) = true.
Proof. apply starts_with_spec. eauto. Qed.

Lemma ends_with_spec p s : ends_with p s = true ↔ ∃ t, s = t +:+ p.
Proof.
  induction s as [|x s IH]; simpl; rewrite orb_true_iff, bool_decide_eq_true.
  - split; [intros [<-|?]; [by exists ""|done]|].
    intros [[|??] Ht]; simplify_eq/=; by left.
  - rewrite IH. split.
    + intros [<-|[t ->]]; [by exists ""|]. by exists (String x t).
    + intros [[|y t] Ht]; simplify_eq/=; [by left|right; eauto].
Qed.

Lemma ends_with_app p s : ends_with p (s +:+ p) = true.
Proof. apply ends_with_spec. eauto. Qed.

(** The last character tells apart strings with different endings. *)
Fixpoint last_char (s : string) : option Ascii.ascii :=
  match s with
  | EmptyString => None
  | String a EmptyString => Some a
  | String _ s => last_char s
  end.

Lemma last_char_app a b : b ≠ "" → last_char (a +:+ b) = last_char b.
Proof.
  intros Hb. induction a as [|x a IH]; simpl; [done|].
  destruct (a +:+ b) eqn:E; [|done]. destruct a; by simplify_eq/=.
Qed.

Lemma ends_with_last p s : p ≠ "" → ends_with p s = true → last_char s = last_char p.
Proof. intros Hp [t ->]%ends_with_spec. by apply last_char_app. Qed.

Lemma before_after_dot s : has_char (Ascii.ascii_of_N 46) s = true →
  s = before_dot s +:+ "." +:+ after_dot s.
Proof.
  induction s as [|a s IH]; cbn [has_char before_dot after_dot]; [done|].
  case_bool_decide as Ha; [by subst|]. intros Hs. simpl in *. by rewrite <-IH.
Qed.

Lemma dot_split a b : has_char (Ascii.ascii_of_N 46) a = false →
  before_dot (a +:+ "." +:+ b) = a ∧ after_dot (a +:+ "." +:+ b) = b.
Proof.
  induction a as [|x a IH]; cbn [has_char String.append before_dot after_dot]; [done|].
  intros [Hx Ha]%orb_false_iff. rewrite Hx. destruct (IH Ha) as [Hb Hd].
  split; [exact (f_equal (String x) Hb)|exact Hd].
Qed.

Lemma after_dot_nodot s : has_char (Ascii.ascii_of_N 46) s = false → after_dot s = "".
Proof.
  induction s as [|a s IH]; cbn [has_char after_dot]; [done|].
  intros [-> ?]%orb_false_iff. auto.
Qed.

Lemma remove_prefix_app p s : remove_prefix p (p +:+ s) = s.
Proof. unfold remove_prefix. rewrite starts_with_app. by induction p. Qed.

Fixpoint join (sep : string) (l : list string) : string :=
  match l with
  | [] => ""
  | [s] => s
  | s :: l => s +:+ sep +:+ join sep l
  end.

(** ** JSON values and [json.dumps] *)

Inductive json : Type :=
  | JNull
  | JBool (b : bool)
  | JInt (z : Z)
  | JFloat (repr : string)
  | JStr (s : string)
  | JArr (l : list json)
  | JObj (kv : list (string * json)).

(** The code points of a UTF-8 byte string. *)
Fixpoint utf8_decode (fuel : nat) (bs : list N) : list N :=
  match fuel, bs with
  | O, _ | _, [] => []
  | S fuel, a :: bs =>
      (if a <? 128 then a :: utf8_decode fuel bs
       else if a <? 224 then
         match bs with
         | b :: bs => (a mod 32 * 64 + b mod 64) :: utf8_decode fuel bs
         | _ => []
         end
       else if a <? 240 then
         match bs with
         | b :: c :: bs => ((a mod 16 * 64 + b mod 64) * 64 + c mod 64) :: utf8_decode fuel bs
         | _ => []
         end
       else
         match bs with
         | b :: c :: d :: bs =>
             (((a mod 8 * 64 + b mod 64) * 64 + c mod 64) * 64 + d mod 64)
               :: utf8_decode fuel bs
         | _ => []
         end)%N
  end.

Definition u_escape (n : N) : string := "\u" +:+ hex_fixed 4 n "".

(** The escapes both modes of [json.dumps] share. *)
Definition short_escape (n : N) : option string :=
  match n with
  | 34%N => Some (string_of_bytes [92; 34]%N)
  | 92%N => Some "\\"
  | 10%N => Some "\n"
  | 13%N => Some "\r"
  | 9%N => Some "\t"
  | 12%N => Some "\f"
  | 8%N => Some "\b"
  | _ => None
  end.

Definition escape_byte (n : N) : string :=
  match short_escape n with
  | Some e => e
  | None => if (n <? 32)%N then u_escape n else string_of_bytes [n]
  end.

Definition escape_code_point (n : N) : string :=
  match short_escape n with
  | Some e => e
  | None =>
      if ((32 <=? n) && (n <=? 126))%N then string_of_bytes [n]
      else if (n <? 65536)%N then u_escape n
      else let v := (n - 65536)%N in
           u_escape (55296 + v / 1024)%N +:+ u_escape (56320 + v mod 1024)%N
  end.

Definition dumps_string (ensure_ascii : bool) (s : string) : string :=
  let bs := bytes_of_string s in
  let quote := string_of_bytes [34%N] in
  quote +:+
  join "" (if ensure_ascii then escape_code_point <$> utf8_decode (length bs) bs
           else escape_byte <$> bs) +:+
  quote.

(** [json.dumps(v, sort_keys=True, separators=(",", ":"), ensure_ascii=...)] *)
Fixpoint dumps (ensure_ascii : bool) (v : json) : string :=
  match v with
  | JNull => "null"
  | JBool true => "true"
  | JBool false => "false"
  | JInt z => pretty z
  | JFloat repr => repr
  | JStr s => dumps_string ensure_ascii s
  | JArr l => "[" +:+ join "," (map (dumps ensure_ascii) l) +:+ "]"
  | JObj kv =>
      "{" +:+
      join "," (map (λ kv, dumps_string ensure_ascii kv.1 +:+ ":" +:+ kv.2)
                  (sort_on fst (map (λ '(k, v), (k, dumps ensure_ascii v)) kv))) +:+
      "}"
  end.

(** ** Access to JSON objects *)

Fixpoint assoc {A} (k : string) (kv : list (string * A)) : option A :=
  match kv with
  | [] => None
  | (k', v) :: kv => if decide (k = k') then Some v else assoc k kv
  end.

(** [d.get(k)], [None] where the key is missing. *)
Definition json_get (k : string) (kv : list (string * json)) : json :=
  default JNull (assoc k kv).

(** [set(d) == fields] *)
Definition has_exactly (fields : list string) {A} (kv : list (string * A)) : bool :=
  forallb (λ k, bool_decide (k ∈ fields)) kv.*1 &&
  forallb (λ f, bool_decide (f ∈ kv.*1)) fields.

Definition jstr_opt (o : option string) : json :=
  match o with Some s => JStr s | None => JNull end.
Definition jint_opt (o : option Z) : json :=
  match o with Some z => JInt z | None => JNull end.

Lemma has_exactly_spec fields {A} (kv : list (string * A)) :
  has_exactly fields kv = true ↔ ∀ k, k ∈ kv.*1 ↔ k ∈ fields.
Proof.
  unfold has_exactly. rewrite andb_true_iff, !forallb_forall.
  setoid_rewrite bool_decide_eq_true. setoid_rewrite <-list_elem_of_In.
  naive_solver.
Qed.

Lemma assoc_elem_of {A} k (kv : list (string * A)) v :
  assoc k kv = Some v → (k, v) ∈ kv.
Proof.
  induction kv as [|[k' v'] kv IH]; simpl; [done|]. case_decide; intros; simplify_eq.
  - by left.
  - right. auto.
Qed.

Lemma assoc_NoDup {A} k (kv : list (string * A)) v : NoDup kv.*1 → (k, v) ∈ kv → assoc k kv = Some v.
Proof.
  induction kv as [|[k' v'] kv IH]; simpl; [by intros _ ?%elem_of_nil|].
  intros [Hk Hnd]%NoDup_cons. intros [?|Hin]%elem_of_cons; simplify_eq; [by rewrite decide_True|].
  rewrite decide_False; [auto|]. intros ->. apply Hk. by apply (list_elem_of_fmap_2 fst _ _ Hin).
Qed.

Lemma assoc_is_Some {A} k (kv : list (string * A)) :
  is_Some (assoc k kv) ↔ k ∈ kv.*1.
Proof.
  induction kv as [|[k' v'] kv IH]; simpl.
  - split; [by intros []|by inversion 1].
  - rewrite elem_of_cons. case_decide; [naive_solver|]. rewrite IH. naive_solver.
Qed.

(** ** Python equality of JSON values

    Floats are kept by their [repr]: two floats are equal when it is the same
    (and no NaN is), and an integer equals the float that prints it. *)
Definition float_eqb (r r' : string) : bool :=
  bool_decide (r = r') && negb (bool_decide (r = "NaN")) ||
  bool_decide (r ∈ ["0.0"; "-0.0"]) && bool_decide (r' ∈ ["0.0"; "-0.0"]).

Definition int_float_eqb (z : Z) (r : string) : bool :=
  bool_decide (r = pretty z +:+ ".0") || (z =? 0)%Z && bool_decide (r = "-0.0").

Definition Z_of_bool (b : bool) : Z := if b then 1%Z else 0%Z.

Fixpoint json_eqb (a b : json) {struct a} : bool :=
  match a, b with
  | JNull, JNull => true
  | JBool x, JBool y => bool_decide (x = y)
  | JBool x, JInt z | JInt z, JBool x => (Z_of_bool x =? z)%Z
  | JInt x, JInt y => (x =? y)%Z
  | JFloat r, JFloat r' => float_eqb r r'
  | JInt z, JFloat r | JFloat r, JInt z => int_float_eqb z r
  | JBool x, JFloat r | JFloat r, JBool x => int_float_eqb (Z_of_bool x) r
  | JStr s, JStr t => bool_decide (s = t)
  | JArr l, JArr l' =>
      (fix eqb_list (l l' : list json) : bool :=
         match l, l' with
         | [], [] => true
         | x :: l, y :: l' => json_eqb x y && eqb_list l l'
         | _, _ => false
         end) l l'
  | JObj kv, JObj kv' =>
      (length kv =? length kv')%nat &&
      forallb (λ '(k, v), match assoc k kv' with Some w => json_eqb v w | None => false end) kv
  | _, _ => false
  end.

Lemma json_eqb_str v s : json_eqb v (JStr s) = true → v = JStr s.
Proof. destruct v; try done. cbn. by intros ->%bool_decide_eq_true. Qed.
Lemma json_eqb_singleton v s : json_eqb v (JArr [JStr s]) = true → v = JArr [JStr s].
Proof.
  destruct v as [| | | | |[|x [|]]|]; try done.
  - cbn. by rewrite andb_true_r; intros ->%json_eqb_str.
  - cbn. by rewrite andb_false_r.
Qed.

(** ** Base64 *)

Module Base64.
Local Open Scope N_scope.

(** The alphabet: A-Z, a-z, 0-9, [+], [/]. *)
Definition symbol (n : N) : N :=
  if n <? 26 then n + 65
  else if n <? 52 then n + 71
  else if n <? 62 then n - 4
  else if n =? 62 then 43 else 47.

Definition value (c : N) : option N :=
  if (65 <=? c) && (c <=? 90) then Some (c - 65)
  else if (97 <=? c) && (c <=? 122) then Some (c - 71)
  else if (48 <=? c) && (c <=? 57) then Some (c + 4)
  else if c =? 43 then Some 62
  else if c =? 47 then Some 63 else None.

Definition padding : N := 61.

(** [base64.b64encode] *)
Fixpoint encode (bs : list N) : list N :=
  match bs with
  | a :: b :: c :: bs =>
      symbol (a / 4) :: symbol (a mod 4 * 16 + b / 16) ::
      symbol (b mod 16 * 4 + c / 64) :: symbol (c mod 64) :: encode bs
  | [a; b] =>
      [symbol (a / 4); symbol (a mod 4 * 16 + b / 16); symbol (b mod 16 * 4); padding]
  | [a] => [symbol (a / 4); symbol (a mod 4 * 16); padding; padding]
  | [] => []
  end.

(** [base64.b64decode(s, validate=True)]: whole groups of four, padded at the end only;
    [None] where it raises. *)
Fixpoint decode (s : list N) : option (list N) :=
  match s with
  | [] => Some []
  | w :: x :: y :: z :: s =>
      a ← value w; b ← value x;
      if (y =? padding) && (z =? padding) && bool_decide (s = [])
      then Some [a * 4 + b / 16]
      else
        c ← value y;
        if (z =? padding) && bool_decide (s = [])
        then Some [a * 4 + b / 16; b mod 16 * 16 + c / 4]
        else
          d ← value z; rest ← decode s;
          Some (a * 4 + b / 16 :: b mod 16 * 16 + c / 4 :: c mod 4 * 64 + d :: rest)
  | _ => None
  end.

Lemma value_symbol n : n < 64 → value (symbol n) = Some n ∧ symbol n <> padding.
Proof.
  intros Hn. assert (In n (N.of_nat <$> seq 0 64)) as Hin.
  { apply list_elem_of_In, list_elem_of_fmap. exists (N.to_nat n).
    rewrite N2Nat.id, elem_of_seq. split; [done|lia]. }
  revert n Hin Hn.
  assert (Forall (λ n, value (symbol n) = Some n ∧ symbol n <> padding)
            (N.of_nat <$> seq 0 64)) as Hall
    by (apply (bool_decide_unpack _); vm_compute; exact I).
  intros n Hin _. rewrite Forall_forall in Hall. by apply Hall, list_elem_of_In.
Qed.

Lemma value_symbol_Some n : n < 64 → value (symbol n) = Some n.
Proof. intros. by apply value_symbol. Qed.

Lemma symbol_padding n : n < 64 → (symbol n =? padding) = false.
Proof. intros. apply N.eqb_neq. by apply value_symbol. Qed.

(** Each byte comes back from the two symbols that carry its bits. *)
Lemma first_byte a b : b < 16 → a / 4 * 4 + (a mod 4 * 16 + b) / 16 = a.
Proof. intros. rewrite N.div_add_l, (N.div_small b) by lia. pose proof (N.div_mod a 4). lia. Qed.
Lemma second_byte a b c :
  c < 4 → b < 256 →
  (a mod 4 * 16 + b / 16) mod 16 * 16 + (b mod 16 * 4 + c) / 4 = b.
Proof.
  intros. assert (b / 16 < 16) by (apply N.Div0.div_lt_upper_bound; lia).
  rewrite (N.add_comm (a mod 4 * 16)), N.Div0.mod_add, N.mod_small, N.div_add_l, (N.div_small c) by lia.
  pose proof (N.div_mod b 16). lia.
Qed.
Lemma third_byte b c : c < 256 → (b mod 16 * 4 + c / 64) mod 4 * 64 + c mod 64 = c.
Proof.
  intros. assert (c / 64 < 4) by (apply N.Div0.div_lt_upper_bound; lia).
  rewrite (N.add_comm (b mod 16 * 4)), N.Div0.mod_add, (N.mod_small (c / 64)) by lia.
  pose proof (N.div_mod c 64). lia.
Qed.

Lemma decode_encode bs : Forall (λ b, b < 256) bs → decode (encode bs) = Some bs.
Proof.
  assert (∀ a, a < 256 → a / 4 < 64) as Hq
    by (intros; apply N.Div0.div_lt_upper_bound; lia).
  assert (∀ a, a < 256 → a / 16 < 16) as Hh
    by (intros; apply N.Div0.div_lt_upper_bound; lia).
  assert (∀ a, a < 256 → a / 64 < 4) as Ht
    by (intros; apply N.Div0.div_lt_upper_bound; lia).
  assert (∀ n bs, (length bs <= n)%nat → Forall (λ b, b < 256) bs →
            decode (encode bs) = Some bs) as Hall; [|by intros; eapply Hall].
  intros n. induction n as [|n IH]; intros l Hn Hl.
  - destruct l; [done|simpl in Hn; lia].
  - destruct l as [|a [|b [|c l]]]; [done|..];
      repeat match goal with H : Forall _ (_ :: _) |- _ => apply Forall_cons in H as [? H] end;
      pose proof (N.mod_lt a 4 ltac:(done)).
    + simpl. rewrite !value_symbol_Some by (auto; lia). simpl.
      by rewrite <-(N.add_0_r (_ * 16)), first_byte by lia.
    + pose proof (N.mod_lt b 16 ltac:(done)). pose proof (Hh b ltac:(done)).
      simpl. rewrite !value_symbol_Some by (auto; lia). simpl.
      rewrite symbol_padding, first_byte by lia. simpl.
      by rewrite <-(N.add_0_r (_ * 4)), second_byte by lia.
    + pose proof (N.mod_lt b 16 ltac:(done)). pose proof (N.mod_lt c 64 ltac:(done)).
      pose proof (Hh b ltac:(done)). pose proof (Ht c ltac:(done)).
      cbn [encode decode]. rewrite !value_symbol_Some by (auto; lia). cbn [mbind option_bind].
      rewrite !symbol_padding, IH by (simpl in Hn; auto; lia). cbn.
      by rewrite first_byte, second_byte, third_byte by lia.
Qed.
End Base64.

Definition b64encode (s : string) : string :=
  string_of_bytes (Base64.encode (bytes_of_string s)).
Definition b64decode (s : string) : option string :=
  string_of_bytes <$> Base64.decode (bytes_of_string s).

Lemma string_of_bytes_of_string s : string_of_bytes (bytes_of_string s) = s.
Proof. induction s as [|a s IH]; simpl; [done|]. by rewrite Ascii.ascii_N_embedding, IH. Qed.

Lemma bytes_of_string_of_bytes l :
  Forall (λ b, (b < 256)%N) l → bytes_of_string (string_of_bytes l) = l.
Proof. induction 1 as [|b l Hb _ IH]; simpl; [done|]. by rewrite Ascii.N_ascii_embedding, IH. Qed.

Lemma bytes_of_string_bound s : Forall (λ b, (b < 256)%N) (bytes_of_string s).
Proof. induction s; simpl; constructor; [apply Ascii.N_ascii_bounded|done]. Qed.

Lemma symbol_bound n : (n < 64 → Base64.symbol n < 256)%N.
Proof. unfold Base64.symbol. intros. repeat case_match; bool_inv; rewrite ?N.ltb_lt, ?N.ltb_ge in *; lia. Qed.

Lemma encode_bound l :
  Forall (λ b, (b < 256)%N) l → Forall (λ b, (b < 256)%N) (Base64.encode l).
Proof.
  assert (∀ a, a < 256 → a / 4 < 64)%N as Hq
    by (intros; apply N.Div0.div_lt_upper_bound; lia).
  assert (∀ a b, b < 256 → a mod 4 * 16 + b / 16 < 64)%N as Hs.
  { intros a b Hb. pose proof (N.mod_lt a 4 ltac:(done)).
    assert (b / 16 < 16)%N by (apply N.Div0.div_lt_upper_bound; lia). lia. }
  assert (∀ b c, c < 256 → b mod 16 * 4 + c / 64 < 64)%N as Ht.
  { intros b c Hc. pose proof (N.mod_lt b 16 ltac:(done)).
    assert (c / 64 < 4)%N by (apply N.Div0.div_lt_upper_bound; lia). lia. }
  assert (∀ n (l : list N), (length l ≤ n)%nat → Forall (λ b, (b < 256)%N) l →
            Forall (λ b, (b < 256)%N) (Base64.encode l)) as Hall; [|by intros; eapply Hall].
  clear l. intros n. induction n as [|n IH]; intros l Hn Hl.
  - destruct l; [constructor|simpl in Hn; lia].
  - destruct l as [|a [|b [|c l]]]; [constructor|..];
      repeat match goal with H : Forall _ (_ :: _) |- _ => apply Forall_cons in H as [? H] end;
      cbn [Base64.encode]; repeat (apply Forall_cons; split);
      try (apply symbol_bound; auto); try constructor.
    + pose proof (N.mod_lt a 4 ltac:(done)). lia.
    + pose proof (N.mod_lt b 16 ltac:(done)). lia.
    + apply N.mod_lt. done.
    + apply IH; [simpl in Hn; lia|done].
Qed.

Lemma b64decode_encode s : b64decode (b64encode s) = Some s.
Proof.
  unfold b64decode, b64encode. pose proof (bytes_of_string_bound s) as Hs.
  rewrite bytes_of_string_of_bytes by (by apply encode_bound).
  rewrite Base64.decode_encode by done. simpl. by rewrite string_of_bytes_of_string.
Qed.

Example b64_padded : b64encode "light w" = "bGlnaHQgdw==" ∧ b64decode "bGlnaHQgdw=" = None.
Proof. vm_compute. by split. Qed.

(** The digest [tests/test_exposure_gate.py] records for this candidate. *)
Example sha256_candidate :
  sha256_hexdigest (dumps true (JObj [("plan_id", JStr "candidate")])) =
  "33c9a268940fae266a8d90ed2aedbdc43846684ba2bd327fc452fdb5c0ff171b".
Proof. vm_compute. reflexivity. Qed.

Example dumps_escapes :
  dumps true (JObj [("b", JArr [JInt (-3); JNull]); ("a", JStr (string_of_bytes [195; 169; 10; 127]%N))]) =
  "{" +:+ dumps_string false "a" +:+ ":" +:+ string_of_bytes [34%N] +:+ "\u00e9\n\u007f" +:+
  string_of_bytes [34%N] +:+ "," +:+ dumps_string false "b" +:+ ":[-3,null]}".
Proof. vm_compute. reflexivity. Qed.
