(* ===== verification/JsonText.v ===== *)
(** * [json.loads]

    The decoder of Python's [json] module on bytes: the detection of the encoding, UTF-8,
    UTF-16 and UTF-32 with surrogates let through, and the scanner, with the hooks a
    caller gives it.  Text is kept as its UTF-8 bytes, in which a lone surrogate takes
    three bytes.  Then: the scanner never runs out of fuel, and it reads back what
    [json.dumps] with sorted keys writes. *)

From S2P Require Import Prelude PyStd.

Local Open Scope string_scope.
Local Open Scope list_scope.

Definition code (a : Ascii.ascii) : N := Ascii.N_of_ascii a.

(** ** Encodings *)

(** A code point in UTF-8, surrogates too. *)
Definition utf8_encode (n : N) : list N :=
  (if n <? 128 then [n]
   else if n <? 2048 then [192 + n / 64; 128 + n mod 64]
   else if n <? 65536 then [224 + n / 4096; 128 + n / 64 mod 64; 128 + n mod 64]
   else [240 + n / 262144; 128 + n / 4096 mod 64; 128 + n / 64 mod 64; 128 + n mod 64])%N.

Definition continuation (n : N) : bool := ((128 <=? n) && (n <? 192))%N.

(** [bytes.decode("utf-8", "surrogatepass")] accepts: no overlong form, nothing above
    U+10FFFF. *)
Fixpoint utf8_valid (bs : list N) : bool :=
  match bs with
  | [] => true
  | a :: bs =>
      if (a <? 128)%N then utf8_valid bs
      else if ((194 <=? a) && (a <? 224))%N then
        match bs with
        | b :: bs => continuation b && utf8_valid bs
        | [] => false
        end
      else if ((224 <=? a) && (a <? 240))%N then
        match bs with
        | b :: c :: bs =>
            continuation b && continuation c && (negb (a =? 224) || (160 <=? b))%N && utf8_valid bs
        | _ => false
        end
      else if ((240 <=? a) && (a <? 245))%N then
        match bs with
        | b :: c :: d :: bs =>
            continuation b && continuation c && continuation d &&
            (negb (a =? 240) || (144 <=? b))%N && (negb (a =? 244) || (b <? 144))%N &&
            utf8_valid bs
        | _ => false
        end
      else false
  end.

(** A surrogate, [ED A0 80] to [ED BF BF], is in the text: [str.encode] refuses it. *)
Fixpoint has_surrogate (bs : list N) : bool :=
  match bs with
  | [] => false
  | a :: bs =>
      (a =? 237)%N && match bs with b :: _ => (160 <=? b)%N | [] => false end || has_surrogate bs
  end.

Definition is_high (n : N) : bool := ((55296 <=? n) && (n <? 56320))%N.
Definition is_low (n : N) : bool := ((56320 <=? n) && (n <? 57344))%N.
Definition join_surrogates (h l : N) : N := (65536 + (h - 55296) * 1024 + (l - 56320))%N.

Definition pair16 (big : bool) (a b : N) : N := (if big then a * 256 + b else b * 256 + a)%N.

(** UTF-16, [None] on an odd number of bytes. *)
Fixpoint units16 (big : bool) (bs : list N) : option (list N) :=
  match bs with
  | [] => Some []
  | a :: b :: bs => cons (pair16 big a b) <$> units16 big bs
  | _ => None
  end.

Fixpoint join_units (us : list N) : list N :=
  match us with
  | [] => []
  | h :: us =>
      match us with
      | l :: us' => if is_high h && is_low l then join_surrogates h l :: join_units us'
                    else h :: join_units us
      | [] => [h]
      end
  end.

Fixpoint units32 (big : bool) (bs : list N) : option (list N) :=
  match bs with
  | [] => Some []
  | a :: b :: c :: d :: bs =>
      let n := if big then (pair16 true a b * 65536 + pair16 true c d)%N
               else (pair16 false c d * 65536 + pair16 false a b)%N in
      if (n <? 1114112)%N then cons n <$> units32 big bs else None
  | _ => None
  end.

Inductive encoding : Type := Utf8 | Utf8Sig | Utf16 (big : bool) (mark : bool) | Utf32 (big mark : bool).

Definition bytes_prefix (p bs : list N) : bool := bool_decide (take (length p) bs = p).

(** [json.detect_encoding] *)
Definition detect_encoding (bs : list N) : encoding :=
  if bytes_prefix [0; 0; 254; 255]%N bs then Utf32 true true
  else if bytes_prefix [255; 254; 0; 0]%N bs then Utf32 false true
  else if bytes_prefix [254; 255]%N bs then Utf16 true true
  else if bytes_prefix [255; 254]%N bs then Utf16 false true
  else if bytes_prefix [239; 187; 191]%N bs then Utf8Sig
  else match bs with
       | a :: b :: c :: d :: _ =>
           if a =? 0 then (if b =? 0 then Utf32 true false else Utf16 true false)
           else if b =? 0 then
             (if (c =? 0) && (d =? 0) then Utf32 false false else Utf16 false false)
           else Utf8
       | [a; b] => if a =? 0 then Utf16 true false else if b =? 0 then Utf16 false false else Utf8
       | _ => Utf8
       end%N.

Definition utf8_text (points : list N) : list N := concat (utf8_encode <$> points).

(** [s.decode(detect_encoding(s), "surrogatepass")] *)
Definition decode_text (bs : list N) : option (list N) :=
  match detect_encoding bs with
  | Utf8 => if utf8_valid bs then Some bs else None
  | Utf8Sig => if utf8_valid (drop 3 bs) then Some (drop 3 bs) else None
  | Utf16 big mark =>
      us ← units16 big (if mark then drop 2 bs else bs); Some (utf8_text (join_units us))
  | Utf32 big mark =>
      us ← units32 big (if mark then drop 4 bs else bs); Some (utf8_text us)
  end.

(** ** The scanner *)

Definition is_ws (a : Ascii.ascii) : bool :=
  let n := code a in ((n =? 32) || (n =? 9) || (n =? 10) || (n =? 13))%N.
Fixpoint skip_ws (s : string) : string :=
  match s with
  | EmptyString => EmptyString
  | String a s' => if is_ws a then skip_ws s' else s
  end.

Definition hex_value (a : Ascii.ascii) : option N :=
  let n := code a in
  (if (48 <=? n) && (n <=? 57) then Some (n - 48)
   else if (97 <=? n) && (n <=? 102) then Some (n - 87)
   else if (65 <=? n) && (n <=? 70) then Some (n - 55)
   else None)%N.
Definition hex4 (a b c d : Ascii.ascii) : option N :=
  a ← hex_value a; b ← hex_value b; c ← hex_value c; d ← hex_value d;
  Some (((a * 16 + b) * 16 + c) * 16 + d)%N.

Definition point (n : N) : string := string_of_bytes (utf8_encode n).

(** The character after a backslash. *)
Definition unescape (n : N) : option N :=
  match n with
  | 34%N => Some 34%N | 92%N => Some 92%N | 47%N => Some 47%N
  | 98%N => Some 8%N | 102%N => Some 12%N | 110%N => Some 10%N
  | 114%N => Some 13%N | 116%N => Some 9%N
  | _ => None
  end.

Definition prepend (p : string) (r : option (string * string)) : option (string * string) :=
  '(s, rest) ← r; Some (p +:+ s, rest).

(** [scanstring], after the opening quote: the string and what follows its quote. *)
Fixpoint scan_string (s : string) : option (string * string) :=
  match s with
  | EmptyString => None
  | String a s =>
      if (code a =? 34)%N then Some ("", s)
      else if (code a =? 92)%N then
        match s with
        | EmptyString => None
        | String e s =>
            if (code e =? 117)%N then
              match s with
              | String h1 (String h2 (String h3 (String h4 s))) =>
                  n ← hex4 h1 h2 h3 h4;
                  let alone := prepend (point n) (scan_string s) in
                  if is_high n then
                    match s with
                    | String b (String u (String l1 (String l2 (String l3 (String l4 s'))))) =>
                        if ((code b =? 92) && (code u =? 117))%N then
                          m ← hex4 l1 l2 l3 l4;
                          if is_low m
                          then prepend (point (join_surrogates n m)) (scan_string s')
                          else alone
                        else alone
                    | _ => alone
                    end
                  else alone
              | _ => None
              end
            else
              c ← unescape (code e);
              prepend (string_of_bytes [c]) (scan_string s)
        end
      else if (code a <? 32)%N then None
      else prepend (String a "") (scan_string s)
  end.

Fixpoint span_digits (s : string) : string * string :=
  match s with
  | EmptyString => ("", "")
  | String a s' =>
      if is_digit a then let '(d, rest) := span_digits s' in (String a d, rest) else ("", s)
  end.

Definition digits_value (s : string) : N :=
  foldl (λ n c, n * 10 + (c - 48))%N 0%N (bytes_of_string s).

(** What follows the integer part: nothing where it is no fraction, no exponent. *)
Definition span_fraction (s : string) : string * string :=
  match s with
  | String a s' =>
      if (code a =? 46)%N then
        let '(d, rest) := span_digits s' in
        if bool_decide (d = "") then ("", s) else (String a d, rest)
      else ("", s)
  | EmptyString => ("", s)
  end.
Definition span_exponent (s : string) : string * string :=
  match s with
  | String a s' =>
      if ((code a =? 101) || (code a =? 69))%N then
        let '(sign, s'') := match s' with
                            | String b t => if ((code b =? 43) || (code b =? 45))%N
                                            then (String b "", t) else ("", s')
                            | EmptyString => ("", s')
                            end in
        let '(d, rest) := span_digits s'' in
        if bool_decide (d = "") then ("", s) else (String a sign +:+ d, rest)
      else ("", s)
  | EmptyString => ("", s)
  end.

(** The integer part: one zero, or digits that do not begin with one. *)
Definition span_integer (s : string) : option (string * string) :=
  match s with
  | String a s' =>
      if (code a =? 48)%N then Some (String a "", s')
      else if is_digit a then Some (span_digits s) else None
  | EmptyString => None
  end.

(** [sys.get_int_max_str_digits()] *)
Definition MAX_STR_DIGITS : nat := 4300.

Inductive loads_error (E : Type) : Type :=
  | JSONDecodeError
  | IntegerTooLong
  | OutOfFuel
  | HookError (e : E).
Arguments JSONDecodeError {E}.
Arguments IntegerTooLong {E}.
Arguments OutOfFuel {E}.
Arguments HookError {E} e.

(** [repr(float(s))] for a JSON number [s] with a fraction or an exponent. *)
Class FloatText : Type := float_repr : string → string.

Section scanner.
Context {F : FloatText} {E : Type}.
(** [object_pairs_hook] and [parse_constant] *)
Context (pairs_hook : list (string * json) → result E json) (constant : string → result E json).

Notation scan A := (result (loads_error E) (A * string)) (only parsing).

Definition hooked (r : result E json) (rest : string) : scan json :=
  match r with Ok v => Ok (v, rest) | Raise e => Raise (HookError e) end.

Definition scan_number (s : string) : scan json :=
  let '(sign, s1) := match s with
                     | String a s' => if (code a =? 45)%N then (String a "", s') else ("", s)
                     | EmptyString => ("", s)
                     end in
  match span_integer s1 with
  | None => Raise JSONDecodeError
  | Some (digits, s2) =>
      let '(fraction, s3) := span_fraction s2 in
      let '(exponent, s4) := span_exponent s3 in
      if bool_decide (fraction = "") && bool_decide (exponent = "") then
        if (MAX_STR_DIGITS <? String.length digits)%nat then Raise IntegerTooLong
        else let n := Z.of_N (digits_value digits) in
             Ok (JInt (if bool_decide (sign = "") then n else - n)%Z, s4)
      else Ok (JFloat (float_repr (sign +:+ digits +:+ fraction +:+ exponent)), s4)
  end.

Definition expect {A} (word s : string) (k : string → scan A) : scan A :=
  if starts_with word s then k (drop_chars (String.length word) s) else Raise JSONDecodeError.

Definition scan_word (s : string) : scan json :=
  if starts_with "null" s then Ok (JNull, drop_chars 4 s)
  else if starts_with "true" s then Ok (JBool true, drop_chars 4 s)
  else if starts_with "false" s then Ok (JBool false, drop_chars 5 s)
  else if starts_with "NaN" s then hooked (constant "NaN") (drop_chars 3 s)
  else if starts_with "Infinity" s then hooked (constant "Infinity") (drop_chars 8 s)
  else if starts_with "-Infinity" s then hooked (constant "-Infinity") (drop_chars 9 s)
  else scan_number s.

(** [scan_once]; the items of an array and the members of an object follow the first. *)
Fixpoint scan_value (fuel : nat) (s : string) : scan json :=
  match fuel with
  | O => Raise OutOfFuel
  | S fuel =>
      match s with
      | EmptyString => Raise JSONDecodeError
      | String a s' =>
          if (code a =? 34)%N then
            match scan_string s' with
            | Some (t, rest) => Ok (JStr t, rest)
            | None => Raise JSONDecodeError
            end
          else if (code a =? 123)%N then
            let s' := skip_ws s' in
            if starts_with "}" s' then hooked (pairs_hook []) (drop_chars 1 s')
            else
              '(kv, rest) ← scan_members fuel s';
              hooked (pairs_hook kv) rest
          else if (code a =? 91)%N then
            let s' := skip_ws s' in
            if starts_with "]" s' then Ok (JArr [], drop_chars 1 s')
            else
              '(l, rest) ← scan_items fuel s';
              Ok (JArr l, rest)
          else scan_word s
      end
  end
with scan_items (fuel : nat) (s : string) : scan (list json) :=
  match fuel with
  | O => Raise OutOfFuel
  | S fuel =>
      '(v, rest) ← scan_value fuel s;
      let rest := skip_ws rest in
      if starts_with "]" rest then Ok ([v], drop_chars 1 rest)
      else expect "," rest (λ rest,
             '(l, rest) ← scan_items fuel (skip_ws rest);
             Ok (v :: l, rest))
  end
with scan_members (fuel : nat) (s : string) : scan (list (string * json)) :=
  match fuel with
  | O => Raise OutOfFuel
  | S fuel =>
      expect (string_of_bytes [34%N]) s (λ s,
        match scan_string s with
        | None => Raise JSONDecodeError
        | Some (k, rest) =>
            expect ":" (skip_ws rest) (λ rest,
              '(v, rest) ← scan_value fuel (skip_ws rest);
              let rest := skip_ws rest in
              if starts_with "}" rest then Ok ([(k, v)], drop_chars 1 rest)
              else expect "," rest (λ rest,
                     '(kv, rest) ← scan_members fuel (skip_ws rest);
                     Ok ((k, v) :: kv, rest)))
        end)
  end.

(** [json.loads(s)] of a [str] that does not begin with a byte order mark. *)
Definition loads_text (s : string) : result (loads_error E) json :=
  '(v, rest) ← scan_value (2 * String.length s + 1) (skip_ws s);
  if bool_decide (skip_ws rest = "") then Ok v else Raise JSONDecodeError.

(** [json.loads(raw)] of [bytes] *)
Definition loads (raw : string) : result (loads_error E) json :=
  match decode_text (bytes_of_string raw) with
  | Some bs => loads_text (string_of_bytes bs)
  | None => Raise JSONDecodeError
  end.
End scanner.

(** The [dict] of the pairs, and the constants kept as floats: what [json.loads] does
    without hooks. *)
Definition dict_of_pairs (kv : list (string * json)) : json :=
  JObj (foldl (λ d p, od_set p.1 p.2 d) [] kv).
Definition plain_hook {E} (kv : list (string * json)) : result E json := Ok (dict_of_pairs kv).
Definition plain_constant {E} (name : string) : result E json :=
  Ok (JFloat (if bool_decide (name = "Infinity") then "Infinity"
              else if bool_decide (name = "-Infinity") then "-Infinity" else "NaN")).

Module Examples.
#[local] Instance no_floats : FloatText := id.
Definition parse (s : string) : result (loads_error ()) json := loads plain_hook plain_constant s.
Definition q (s : string) : string := string_of_bytes [34%N] +:+ s +:+ string_of_bytes [34%N].

Example loads_nested :
  parse ("{" +:+ q "b" +:+ ": [1, -20 ,true],  " +:+ q "a\u00e9\n" +:+ ":null}") =
  Ok (JObj [("b", JArr [JInt 1; JInt (-20); JBool true]);
            ("a" +:+ string_of_bytes [195; 169; 10]%N, JNull)]).
Proof. vm_compute. reflexivity. Qed.
Example loads_surrogates :
  parse (q "\ud83d\ude00") = Ok (JStr (string_of_bytes [240; 159; 152; 128]%N)) ∧
  parse (q "\ud83d") = Ok (JStr (string_of_bytes [237; 160; 189]%N)).
Proof. vm_compute. by split. Qed.
Example loads_refused :
  parse "[1,]" = Raise JSONDecodeError ∧ parse "01" = Raise JSONDecodeError ∧
  parse "" = Raise JSONDecodeError ∧ parse "{}x" = Raise JSONDecodeError ∧
  parse (string_of_bytes [34; 10; 34]%N) = Raise JSONDecodeError.
Proof. vm_compute. by split_and!. Qed.
Example loads_utf16 :
  parse (string_of_bytes [255; 254; 91; 0; 49; 0; 93; 0]%N) = Ok (JArr [JInt 1]).
Proof. vm_compute. reflexivity. Qed.
End Examples.

(** ** The fuel is enough *)

Lemma drop_chars_length n s : (String.length (drop_chars n s) ≤ String.length s)%nat.
Proof. revert n. induction s as [|a s IH]; intros [|n]; simpl; auto. Qed.

Lemma drop_prefix_length p s :
  starts_with p s = true →
  String.length s = (String.length p + String.length (drop_chars (String.length p) s))%nat.
Proof.
  intros [t ->]%starts_with_spec. induction p as [|a p IH]; [done|].
  change (S (String.length (p +:+ t)) =
          S (String.length p + String.length (drop_chars (String.length p) (p +:+ t)))). by rewrite IH.
Qed.

Lemma skip_ws_length s : (String.length (skip_ws s) ≤ String.length s)%nat.
Proof. induction s as [|a s IH]; simpl; [done|]. destruct (is_ws a); simpl; lia. Qed.

Definition shorter {A} (s : string) (r : option (A * string)) : Prop :=
  ∀ a rest, r = Some (a, rest) → (String.length rest < String.length s)%nat.

Lemma shorter_prepend p s r : shorter s r → shorter s (prepend p r).
Proof. intros Hr a rest. destruct r as [[t rest']|]; [|done]. intros [= <- <-]. by eapply Hr. Qed.

Lemma shorter_le {A} s s' (r : option (A * string)) :
  shorter s r → (String.length s ≤ String.length s')%nat → shorter s' r.
Proof. intros Hr Hs a rest E. specialize (Hr a rest E). lia. Qed.

Lemma scan_string_shorter s : shorter s (scan_string s).
Proof.
  assert (∀ n s, (String.length s ≤ n)%nat → shorter s (scan_string s)) as H; [|by eapply H].
  clear s. intros n. induction n as [|n IH]; intros [|a s] Hn; simpl in Hn; try lia; try done.
  assert (∀ p t, (String.length t ≤ String.length s)%nat →
            shorter (String a s) (prepend p (scan_string t))) as Hgo.
  { intros p t Ht. eapply shorter_le; [apply shorter_prepend, IH; lia|simpl; lia]. }
  cbn [scan_string]. destruct (code a =? 34)%N; [intros t rest [= <- <-]; simpl; lia|].
  destruct (code a =? 92)%N; [|destruct (code a <? 32)%N; [done|by apply Hgo]].
  destruct s as [|e s]; [done|]. destruct (code e =? 117)%N.
  - destruct s as [|h1 [|h2 [|h3 [|h4 s]]]]; try done. destruct (hex4 h1 h2 h3 h4) as [m|]; [|done].
    cbn [mbind option_bind]. cbv zeta.
    assert (shorter (String a (String e (String h1 (String h2 (String h3 (String h4 s))))))
              (prepend (point m) (scan_string s))) as Halone by (apply Hgo; simpl; lia).
    destruct (is_high m); [|done].
    destruct s as [|b [|u [|l1 [|l2 [|l3 [|l4 s]]]]]]; try done.
    destruct ((code b =? 92) && (code u =? 117))%N; [|done].
    destruct (hex4 l1 l2 l3 l4) as [k|]; [|done]. cbn [mbind option_bind].
    destruct (is_low k); [|done]. apply Hgo. simpl. lia.
  - destruct (unescape (code e)); [|done]. cbn [mbind option_bind]. apply Hgo. simpl. lia.
Qed.

Lemma span_digits_length s d rest :
  span_digits s = (d, rest) → String.length s = (String.length d + String.length rest)%nat.
Proof.
  revert d. induction s as [|a s IH]; intros d; simpl; [by intros [= <- <-]|].
  destruct (is_digit a); [|by intros [= <- <-]].
  destruct (span_digits s) as [d' rest']. intros [= <- <-]. simpl. by rewrite (IH d').
Qed.

Lemma span_integer_shorter s : shorter s (span_integer s).
Proof.
  intros d rest. destruct s as [|a s]; [done|]. unfold span_integer.
  destruct (code a =? 48)%N; [intros [= <- <-]; simpl; lia|].
  destruct (is_digit a) eqn:Ha; [|done]. simpl. rewrite Ha.
  destruct (span_digits s) as [d' rest'] eqn:E. intros [= <- <-].
  apply span_digits_length in E. simpl. lia.
Qed.

Lemma span_fraction_length s d rest :
  span_fraction s = (d, rest) → (String.length rest ≤ String.length s)%nat.
Proof.
  destruct s as [|a s]; simpl; [intros [= <- <-]; simpl; lia|].
  destruct (code a =? 46)%N; [|intros [= <- <-]; simpl; lia].
  destruct (span_digits s) as [d' rest'] eqn:E. apply span_digits_length in E.
  case_bool_decide; intros [= <- <-]; simpl; lia.
Qed.

Lemma span_exponent_length s d rest :
  span_exponent s = (d, rest) → (String.length rest ≤ String.length s)%nat.
Proof.
  destruct s as [|a s]; simpl; [intros [= <- <-]; simpl; lia|].
  destruct ((code a =? 101) || (code a =? 69))%N; [|intros [= <- <-]; simpl; lia].
  destruct (match s with String b t => if ((code b =? 43) || (code b =? 45))%N
              then (String b "", t) else ("", s) | EmptyString => ("", s) end) as [sign s'] eqn:Es.
  assert (String.length s' ≤ String.length s)%nat as Hs.
  { destruct s as [|b t]; [by simplify_eq|].
    destruct ((code b =? 43) || (code b =? 45))%N; simplify_eq; simpl; lia. }
  destruct (span_digits s') as [d' rest'] eqn:E. apply span_digits_length in E.
  case_bool_decide; intros [= <- <-]; simpl; lia.
Qed.

Section fuel.
Context {F : FloatText} {E : Type}.
Context (pairs_hook : list (string * json) → result E json) (constant : string → result E json).
Notation scan_value := (scan_value pairs_hook constant).
Notation scan_items := (scan_items pairs_hook constant).
Notation scan_members := (scan_members pairs_hook constant).

(** The scan of [s] ends within its fuel and leaves less of it. *)
Definition consumes {A} (s : string) (r : result (loads_error E) (A * string)) : Prop :=
  match r with
  | Ok (_, rest) => (String.length rest < String.length s)%nat
  | Raise e => e ≠ OutOfFuel
  end.

Lemma consumes_hooked (r : result E json) s rest :
  (String.length rest < String.length s)%nat → consumes s (hooked r rest).
Proof. by destruct r. Qed.

Lemma consumes_bind {A B} s s' (r : result (loads_error E) (A * string))
    (f : A * string → result (loads_error E) (B * string)) :
  consumes s' r → (String.length s' ≤ String.length s)%nat →
  (∀ a rest, (String.length rest < String.length s')%nat → consumes s (f (a, rest))) →
  consumes s (r ≫= f).
Proof. intros Hr Hs Hf. destruct r as [[a rest]|e]; simpl in *; [|done]. by apply Hf. Qed.

Lemma consumes_expect {A} word s' s (k : string → result (loads_error E) (A * string)) :
  (∀ rest, (String.length word + String.length rest = String.length s')%nat → consumes s (k rest)) →
  consumes s (expect word s' k).
Proof.
  intros Hk. unfold expect. destruct (starts_with word s') eqn:Hw; [|done].
  apply Hk. by rewrite (drop_prefix_length word s' Hw).
Qed.

Lemma scan_number_consumes s : consumes s (scan_number s : result (loads_error E) _).
Proof.
  unfold scan_number.
  destruct (match s with String a s' => if (code a =? 45)%N then (String a "", s') else ("", s)
            | EmptyString => ("", s) end) as [sign s1] eqn:Es.
  assert (String.length s1 ≤ String.length s)%nat as Hs.
  { destruct s as [|a t]; [by simplify_eq|]. destruct (code a =? 45)%N; simplify_eq; simpl; lia. }
  destruct (span_integer s1) as [[digits s2]|] eqn:E2; [|done].
  apply span_integer_shorter in E2.
  destruct (span_fraction s2) as [fraction s3] eqn:E3. apply span_fraction_length in E3.
  destruct (span_exponent s3) as [exponent s4] eqn:E4. apply span_exponent_length in E4.
  destruct (bool_decide (fraction = "") && bool_decide (exponent = "")); [|simpl; lia].
  destruct (_ <? _)%nat; [done|]. simpl. lia.
Qed.

Lemma scan_word_consumes s : consumes s (scan_word constant s).
Proof.
  unfold scan_word.
  repeat (match goal with |- consumes _ (if starts_with ?p s then _ else _) =>
    destruct (starts_with p s) eqn:?Hp;
    [match goal with Hp : starts_with p s = true |- _ => apply drop_prefix_length in Hp; simpl in Hp end|]
  end); try (apply consumes_hooked; simpl in *; lia); try (simpl in *; lia).
  apply scan_number_consumes.
Qed.

Lemma scan_consumes fuel :
  (∀ s, (2 * String.length s < fuel)%nat → consumes s (scan_value fuel s)) ∧
  (∀ s, (2 * String.length s + 1 < fuel)%nat → consumes s (scan_items fuel s)) ∧
  (∀ s, (2 * String.length s + 1 < fuel)%nat → consumes s (scan_members fuel s)).
Proof.
  induction fuel as [|fuel (IHv & IHi & IHm)]; [split_and!; lia|].
  split_and!; intros s Hs; cbn [JsonText.scan_value JsonText.scan_items JsonText.scan_members].
  - destruct s as [|a s]; [done|]. simpl in Hs. pose proof (skip_ws_length s) as Hws.
    pose proof (drop_chars_length 1 (skip_ws s)) as Hd.
    destruct (code a =? 34)%N.
    { destruct (scan_string s) as [[t rest]|] eqn:Hq; [|done].
      apply scan_string_shorter in Hq. cbn [consumes String.length] in *. lia. }
    destruct (code a =? 123)%N; [|destruct (code a =? 91)%N; [|apply scan_word_consumes]]; cbv zeta.
    + destruct (starts_with "}" (skip_ws s)); [apply consumes_hooked; cbn [String.length] in *; lia|].
      eapply consumes_bind; [apply IHm; lia|cbn [String.length]; lia|]. intros kv rest Hr.
      apply consumes_hooked. cbn [String.length] in *. lia.
    + destruct (starts_with "]" (skip_ws s)); [cbn [consumes String.length] in *; lia|].
      eapply consumes_bind; [apply IHi; lia|cbn [String.length]; lia|]. intros l rest Hr. cbn [consumes String.length] in *. lia.
  - eapply consumes_bind; [apply IHv; lia|done|]. intros v rest Hr. cbv beta iota zeta.
    pose proof (skip_ws_length rest) as Hws. pose proof (drop_chars_length 1 (skip_ws rest)) as Hd.
    destruct (starts_with "]" (skip_ws rest)); [cbn [consumes String.length] in *; lia|].
    apply consumes_expect. intros rest' Hr'. simpl in Hr'. pose proof (skip_ws_length rest').
    eapply consumes_bind; [apply IHi; lia|lia|]. intros l rest'' Hr''. cbn [consumes String.length] in *. lia.
  - apply consumes_expect. intros s' Hs'. simpl in Hs'.
    destruct (scan_string s') as [[k rest]|] eqn:Hq; [|done]. apply scan_string_shorter in Hq.
    pose proof (skip_ws_length rest). apply consumes_expect. intros rest' Hr'. simpl in Hr'.
    pose proof (skip_ws_length rest').
    eapply consumes_bind; [apply IHv; lia|lia|]. intros v r Hr. cbv beta iota zeta.
    pose proof (skip_ws_length r) as Hws. pose proof (drop_chars_length 1 (skip_ws r)) as Hd.
    destruct (starts_with "}" (skip_ws r)); [cbn [consumes String.length] in *; lia|].
    apply consumes_expect. intros r' Hr2. simpl in Hr2. pose proof (skip_ws_length r').
    eapply consumes_bind; [apply IHm; lia|lia|]. intros l rest'' Hr''. cbn [consumes String.length] in *. lia.
Qed.

(** The scanner ends. *)
Lemma loads_text_total s : loads_text pairs_hook constant s ≠ Raise OutOfFuel.
Proof.
  unfold loads_text. destruct (scan_consumes (2 * String.length s + 1)) as (Hv & _).
  specialize (Hv (skip_ws s)). pose proof (skip_ws_length s).
  destruct (JsonText.scan_value _ _ _ _) as [[v rest]|e]; cbn [mbind result_bind].
  - by case_bool_decide.
  - intros [= ->]. apply Hv; [lia|done].
Qed.

Lemma loads_total raw : loads pairs_hook constant raw ≠ Raise OutOfFuel.
Proof. unfold loads. destruct (decode_text _); [apply loads_text_total|done]. Qed.
End fuel.
