(* ===== verification/JsonRoundTrip.v ===== *)
(** * [json.loads] reads back what [json.dumps] writes

    For values without floats, with strings that are UTF-8 (surrogates let through) and
    keys that are unique, decoding the canonical text of a value gives the value with the
    keys of its objects sorted. *)

From S2P Require Import Prelude PyStd JsonText.

Local Open Scope string_scope.
Local Open Scope list_scope.

#[local] Arguments String.append !_ _ / : simpl nomatch.

Lemma json_nested_ind (P : json → Prop) :
  P JNull → (∀ b, P (JBool b)) → (∀ z, P (JInt z)) → (∀ r, P (JFloat r)) → (∀ s, P (JStr s)) →
  (∀ l, Forall P l → P (JArr l)) → (∀ kv, Forall (λ p, P p.2) kv → P (JObj kv)) → ∀ v, P v.
Proof.
  intros Hn Hb Hz Hf Hs Ha Ho. fix IH 1.
  intros [| | | | |l|kv]; [apply Hn|apply Hb|apply Hz|apply Hf|apply Hs| |].
  - apply Ha. induction l; constructor; [apply IH|done].
  - apply Ho. induction kv as [|[k v] kv]; constructor; [apply IH|done].
Qed.

(** ** Strings *)

Lemma string_app_cons a s t : String a s +:+ t = String a (s +:+ t).
Proof. done. Qed.

Lemma length_string_app s t :
  String.length (s +:+ t) = (String.length s + String.length t)%nat.
Proof. induction s as [|a s IH]; [done|]. rewrite string_app_cons. simpl. by rewrite IH. Qed.

Lemma bytes_of_string_app s t : bytes_of_string (s +:+ t) = bytes_of_string s ++ bytes_of_string t.
Proof. induction s as [|a s IH]; [done|]. rewrite string_app_cons. simpl. by rewrite IH. Qed.

Lemma join_nil_cons x l : join "" (x :: l) = x +:+ join "" l.
Proof. destruct l; simpl; [by rewrite string_app_nil_r|done]. Qed.

Lemma join_cons x y l sep : join sep (x :: y :: l) = x +:+ sep +:+ join sep (y :: l).
Proof. done. Qed.

(** ** Numbers *)

Definition stops (s : string) : Prop :=
  match s with
  | EmptyString => True
  | String a _ => is_digit a = false ∧ (code a =? 46)%N = false ∧
                  ((code a =? 101) || (code a =? 69))%N = false
  end.

Lemma span_digits_app d rest :
  string_forallb is_digit d = true → stops rest → span_digits (d +:+ rest) = (d, rest).
Proof.
  intros Hd Hr. induction d as [|a d IH].
  - destruct rest as [|a rest]; [done|]. simpl. by destruct Hr as [-> _].
  - simpl in Hd. apply andb_true_iff in Hd as [Ha Hd]. rewrite string_app_cons. simpl.
    by rewrite Ha, IH.
Qed.

Lemma digits_value_snoc d a :
  digits_value (d +:+ String a "") = (digits_value d * 10 + (code a - 48))%N.
Proof. unfold digits_value. by rewrite bytes_of_string_app, foldl_app. Qed.

Lemma digit_char n :
  (n < 10)%N → is_digit (pretty_N_char n) = true ∧ code (pretty_N_char n) = (48 + n)%N.
Proof.
  intros Hn. assert (n = 0 ∨ n = 1 ∨ n = 2 ∨ n = 3 ∨ n = 4 ∨ n = 5 ∨ n = 6 ∨ n = 7 ∨ n = 8 ∨ n = 9)%N
    as Hcases by lia. by repeat destruct Hcases as [->|Hcases]; [..|subst].
Qed.

Lemma string_forallb_app p s t : string_forallb p (s +:+ t) = string_forallb p s && string_forallb p t.
Proof. induction s as [|a s IH]; [done|]. rewrite string_app_cons. simpl. by rewrite IH, andb_assoc. Qed.

(** The digits of a number above zero. *)
Definition digits_of (n : N) (d : string) : Prop :=
  string_forallb is_digit d = true ∧ digits_value d = n ∧
  ∃ a d', d = String a d' ∧ is_digit a = true ∧ (code a =? 48)%N = false.

Lemma pretty_N_go_digits n s : (0 < n)%N → ∃ d, pretty_N_go n s = d +:+ s ∧ digits_of n d.
Proof.
  revert s. induction (N.lt_wf_0 n) as [n _ IH]; intros s Hn. rewrite pretty_N_go_step by done.
  destruct (digit_char (n mod 10)) as [Hd Hc]; [by apply N.mod_lt|].
  destruct (decide (n / 10 = 0)%N) as [E|E].
  - rewrite E, pretty_N_go_0. apply N.div_small_iff in E; [|done]. rewrite N.mod_small in * by done.
    exists (String (pretty_N_char n) ""). split; [done|]. split_and!.
    + simpl. by rewrite Hd.
    + change (0 * 10 + (code (pretty_N_char n) - 48) = n)%N. lia.
    + eexists _, _. split_and!; [done..|]. apply N.eqb_neq. lia.
  - destruct (IH (n / 10)%N) with (s := String (pretty_N_char (n mod 10)) s)
      as (d & -> & Hds & Hv & a & d' & -> & Ha & H0); [by apply N.div_lt|by apply N.neq_0_lt_0|].
    exists (String a d' +:+ String (pretty_N_char (n mod 10)) ""). split.
    + by rewrite string_app_assoc.
    + split_and!.
      * rewrite string_forallb_app, Hds. simpl. by rewrite Hd.
      * rewrite digits_value_snoc, Hv, Hc. pose proof (N.div_mod n 10 ltac:(done)) as Hn10.
        clear -Hn10. revert Hn10. generalize (n / 10)%N (n mod 10)%N. lia.
      * by eexists _, _.
Qed.

Lemma pretty_digits (n : positive) : digits_of (N.pos n) (pretty n).
Proof.
  destruct (pretty_N_go_digits (N.pos n) "" ltac:(done)) as (d & Hd & Hds).
  change (pretty n) with (pretty_N_go (N.pos n) ""). rewrite Hd. by rewrite string_app_nil_r.
Qed.

Section numbers.
Context {F : FloatText} {E : Type}.

Lemma span_fraction_stops s : stops s → span_fraction s = ("", s).
Proof. destruct s as [|a s]; [done|]. simpl. by intros (_ & -> & _). Qed.
Lemma span_exponent_stops s : stops s → span_exponent s = ("", s).
Proof. destruct s as [|a s]; [done|]. simpl. by intros (_ & _ & ->). Qed.

(** An integer of a number of digits [int] accepts. *)
Definition int_ok (z : Z) : Prop := (String.length (pretty (Z.abs_N z)) ≤ MAX_STR_DIGITS)%nat.

Lemma span_integer_digits n d rest :
  digits_of n d → stops rest → span_integer (d +:+ rest) = Some (d, rest).
Proof.
  intros (Hd & _ & a & d' & -> & Ha & H0) Hr. pose proof (span_digits_app _ _ Hd Hr) as Hs.
  unfold span_integer. rewrite string_app_cons in *. by rewrite H0, Ha, Hs.
Qed.

Lemma digit_not_minus a : is_digit a = true → (code a =? 45)%N = false.
Proof.
  unfold is_digit, code. cbv zeta. rewrite andb_true_iff, N.leb_le. intros [? _]. apply N.eqb_neq. lia.
Qed.

Lemma scan_number_int z rest :
  int_ok z → stops rest → scan_number (pretty z +:+ rest) = Ok (JInt z, rest) :> result (loads_error E) _.
Proof.
  intros Hz Hr. unfold int_ok in Hz.
  destruct z as [|p|p].
  - change (pretty 0%Z +:+ rest) with (String (Ascii.ascii_of_N 48) rest). unfold scan_number.
    cbv beta iota. change (code (Ascii.ascii_of_N 48) =? 45)%N with false. cbv iota.
    change (span_integer (String (Ascii.ascii_of_N 48) rest)) with (Some ("0", rest)).
    cbv iota. by rewrite span_fraction_stops, span_exponent_stops by done.
  - pose proof (pretty_digits p) as Hp. change (pretty (Z.pos p)) with (pretty p).
    change (pretty (Z.abs_N (Z.pos p))) with (pretty p) in Hz. unfold scan_number.
    pose proof (span_integer_digits _ _ rest Hp Hr) as Hi.
    destruct Hp as (_ & Hv & a & d' & Hd & Ha & _). rewrite Hd in *. rewrite string_app_cons in *.
    rewrite (digit_not_minus a Ha), Hi, span_fraction_stops, span_exponent_stops by done. cbn [bool_decide].
    rewrite !bool_decide_true by done. cbn [andb].
    destruct (Nat.ltb_spec MAX_STR_DIGITS (String.length (String a d'))); [lia|]. by rewrite Hv.
  - pose proof (pretty_digits p) as Hp. change (pretty (Z.neg p)) with (String (Ascii.ascii_of_N 45) (pretty p)).
    change (pretty (Z.abs_N (Z.neg p))) with (pretty p) in Hz. unfold scan_number.
    rewrite string_app_cons. change (code (Ascii.ascii_of_N 45) =? 45)%N with true. cbv iota.
    rewrite (span_integer_digits _ _ rest Hp Hr), span_fraction_stops, span_exponent_stops by done.
    rewrite !bool_decide_true by done. cbn [andb].
    destruct (Nat.ltb_spec MAX_STR_DIGITS (String.length (pretty p))); [lia|].
    by destruct Hp as (_ & -> & _).
Qed.
End numbers.

(** ** Strings and their escapes *)

Definition q : string := string_of_bytes [34%N].

Lemma escape_scanned n t :
  (n < 256)%N →
  scan_string (escape_byte n +:+ t) = prepend (string_of_bytes [n]) (scan_string t).
Proof.
  intros Hn. unfold escape_byte. destruct (N.ltb_spec n 32) as [H32|H32].
  - assert (n ∈ N.of_nat <$> seq 0 32) as Hin.
    { apply list_elem_of_fmap. exists (N.to_nat n). rewrite N2Nat.id, elem_of_seq. split; [done|lia]. }
    cbn in Hin. repeat (apply elem_of_cons in Hin as [->|Hin]; [reflexivity|]).
    by apply not_elem_of_nil in Hin.
  - destruct (decide (n = 34%N)) as [->|H34]; [reflexivity|].
    destruct (decide (n = 92%N)) as [->|H92]; [reflexivity|].
    assert (short_escape n = None) as ->.
    { unfold short_escape. repeat case_match; subst; try done; lia. }
    cbn [string_of_bytes String.append scan_string].
    unfold code. rewrite Ascii.N_ascii_embedding by done.
    rewrite (proj2 (N.eqb_neq n 34) H34), (proj2 (N.eqb_neq n 92) H92).
    by rewrite (proj2 (N.ltb_ge n 32) H32).
Qed.

Lemma dumps_string_text s rest :
  dumps_string false s +:+ rest =
  q +:+ (join "" (escape_byte <$> bytes_of_string s) +:+ (q +:+ rest)).
Proof. unfold dumps_string. by rewrite !string_app_assoc. Qed.

Lemma scan_escaped bs rest :
  Forall (λ b, b < 256)%N bs →
  scan_string (join "" (escape_byte <$> bs) +:+ (q +:+ rest)) = Some (string_of_bytes bs, rest).
Proof.
  induction 1 as [|b bs Hb _ IH]; [done|].
  rewrite fmap_cons, join_nil_cons, string_app_assoc, escape_scanned, IH by done. done.
Qed.

(** The bytes after the opening quote. *)
Lemma scan_dumps_string s rest :
  scan_string (join "" (escape_byte <$> bytes_of_string s) +:+ (q +:+ rest)) = Some (s, rest).
Proof.
  rewrite scan_escaped by apply bytes_of_string_bound. by rewrite string_of_bytes_of_string.
Qed.

(** ** Values *)

Fixpoint sort_keys (v : json) : json :=
  match v with
  | JArr l => JArr (map sort_keys l)
  | JObj kv => JObj (sort_on fst (map (λ '(k, v), (k, sort_keys v)) kv))
  | v => v
  end.

Definition utf8_string (s : string) : Prop := utf8_valid (bytes_of_string s) = true.

(** Values [json.dumps] writes and [json.loads] reads the same. *)
Fixpoint printable (v : json) : Prop :=
  match v with
  | JNull | JBool _ => True
  | JInt z => int_ok z
  | JFloat _ => False
  | JStr s => utf8_string s
  | JArr l => (fix all (l : list json) := match l with [] => True | v :: l => printable v ∧ all l end) l
  | JObj kv =>
      NoDup kv.*1 ∧
      (fix all (kv : list (string * json)) :=
         match kv with [] => True | (k, v) :: kv => (utf8_string k ∧ printable v) ∧ all kv end) kv
  end.

Lemma printable_arr l : printable (JArr l) ↔ Forall printable l.
Proof. simpl. induction l as [|v l IH]; rewrite ?Forall_cons, <-?IH; [|done]. by rewrite Forall_nil. Qed.

Lemma printable_obj kv :
  printable (JObj kv) ↔ NoDup kv.*1 ∧ Forall (λ p, utf8_string p.1 ∧ printable p.2) kv.
Proof.
  simpl. apply and_iff_compat_l.
  induction kv as [|[k v] kv IH]; rewrite ?Forall_cons, <-?IH; [|done]. by rewrite Forall_nil.
Qed.

Lemma insert_on_fmap_snd {A B} (g : A → B) (k : string) (v : A) l :
  map (λ '(k, v), (k, g v)) (insert_on fst (k, v) l) =
  insert_on fst (k, g v) (map (λ '(k, v), (k, g v)) l).
Proof. induction l as [|[k' v'] l IH]; [done|]. simpl. case_match; [done|]. simpl. by rewrite IH. Qed.

Lemma sort_on_fmap_snd {A B} (g : A → B) (l : list (string * A)) :
  sort_on fst (map (λ '(k, v), (k, g v)) l) = map (λ '(k, v), (k, g v)) (sort_on fst l).
Proof. induction l as [|[k v] l IH]; [done|]. simpl. by rewrite IH, insert_on_fmap_snd. Qed.

Definition member_text (p : string * json) : string :=
  dumps_string false p.1 +:+ ":" +:+ dumps false p.2.

Lemma dumps_obj kv :
  dumps false (JObj kv) = "{" +:+ join "," (map member_text (sort_on fst kv)) +:+ "}".
Proof.
  cbn [dumps]. rewrite sort_on_fmap_snd, map_map. unfold member_text.
  replace (map _ (sort_on fst kv)) with (map member_text (sort_on fst kv)); [done|].
  apply map_ext. by intros [].
Qed.

(** The first character of a value. *)
Lemma dumps_head v : printable v →
  ∃ a s, dumps false v = String a s ∧ is_ws a = false ∧ (code a =? 93)%N = false ∧
         (0 < code a < 128)%N.
Proof.
  destruct v as [|[]|z| | | |]; intros Hv; try (eexists _, _; split_and!; [reflexivity|done..]); [|done].
  destruct z as [|p|p]; try (eexists _, _; split_and!; [reflexivity|done..]).
  destruct (pretty_digits p) as (_ & _ & a & d & Hd & Ha & _).
  exists a, d. split; [exact Hd|]. unfold is_digit in Ha. unfold is_ws, code in *. cbv zeta in *.
  apply andb_true_iff in Ha as [H1%N.leb_le H2%N.leb_le].
  rewrite !orb_false_iff, !N.eqb_neq. lia.
Qed.

Lemma skip_ws_dumps v rest : printable v → skip_ws (dumps false v +:+ rest) = dumps false v +:+ rest.
Proof. intros (a & s & -> & Ha & _)%dumps_head. rewrite string_app_cons. simpl. by rewrite Ha. Qed.

Lemma stops_bracket rest : stops ("]" +:+ rest).
Proof. done. Qed.
Lemma stops_brace rest : stops ("}" +:+ rest).
Proof. done. Qed.
Lemma stops_comma rest : stops ("," +:+ rest).
Proof. done. Qed.

(** ** The scanner on printed text *)

Lemma join_head sep x l : ∃ t, join sep (x :: l) = x +:+ t.
Proof. destruct l; [exists ""; by rewrite string_app_nil_r|eauto]. Qed.

Lemma drop_chars_app w rest : drop_chars (String.length w) (w +:+ rest) = rest.
Proof. induction w as [|a w IH]; [done|]. exact IH. Qed.

Lemma expect_app {E A} w rest (k : string → result (loads_error E) (A * string)) :
  expect w (w +:+ rest) k = k rest.
Proof. unfold expect. by rewrite starts_with_app, drop_chars_app. Qed.

Section scan.
Context {F : FloatText} {E : Type}.
Context (pairs_hook : list (string * json) → result E json) (constant : string → result E json).
Context (Hhook : ∀ kv, NoDup kv.*1 → pairs_hook kv = Ok (JObj kv)).
Notation scan_value := (scan_value pairs_hook constant).
Notation scan_items := (scan_items pairs_hook constant).
Notation scan_members := (scan_members pairs_hook constant).

Definition scanned (v : json) : Prop :=
  ∀ fuel rest, stops rest → (2 * String.length (dumps false v +:+ rest) < fuel)%nat →
  scan_value fuel (dumps false v +:+ rest) = Ok (sort_keys v, rest).

Lemma scan_items_text l fuel rest :
  l ≠ [] → Forall (λ v, printable v ∧ scanned v) l →
  (2 * String.length (join "," (map (dumps false) l) +:+ ("]" +:+ rest)) + 1 < fuel)%nat →
  scan_items fuel (join "," (map (dumps false) l) +:+ ("]" +:+ rest)) = Ok (map sort_keys l, rest).
Proof.
  revert fuel. induction l as [|v [|w l] IH]; intros [|fuel] Hl Hall Hfuel; try done; try lia;
    apply Forall_cons in Hall as [[Hp Hv] Hall].
  - change (map (dumps false) [v]) with [dumps false v] in *. cbn [join] in *.
    cbn [JsonText.scan_items]. rewrite Hv; [|apply stops_bracket|lia].
    cbn [mbind result_bind]. cbv zeta. change (skip_ws ("]" +:+ rest)) with ("]" +:+ rest).
    by rewrite starts_with_app.
  - cbn [map] in *. rewrite join_cons, !string_app_assoc in *.
    set (text := join "," (dumps false w :: map (dumps false) l) +:+ ("]" +:+ rest)) in *.
    assert (String.length text < String.length (dumps false v +:+ ("," +:+ text)))%nat.
    { rewrite length_string_app. simpl. lia. }
    cbn [JsonText.scan_items]. rewrite Hv; [|apply stops_comma|lia].
    cbn [mbind result_bind]. change (skip_ws ("," +:+ text)) with ("," +:+ text).
    change (starts_with "]" ("," +:+ text)) with false. cbv iota. rewrite expect_app.
    assert (skip_ws text = text) as ->.
    { unfold text. destruct (join_head "," (dumps false w) (map (dumps false) l)) as [t ->].
      rewrite string_app_assoc. apply skip_ws_dumps. by apply Forall_cons in Hall as [[] _]. }
    rewrite (IH fuel); [done|done|done|lia].
Qed.

Lemma member_text_app k v t :
  member_text (k, v) +:+ t =
  q +:+ (join "" (escape_byte <$> bytes_of_string k) +:+ (q +:+ (":" +:+ (dumps false v +:+ t)))).
Proof. unfold member_text. cbn [fst snd]. by rewrite !string_app_assoc, dumps_string_text. Qed.

Lemma scan_member fuel k v t :
  printable v → scanned v → stops t →
  (2 * String.length (member_text (k, v) +:+ t) < S fuel)%nat →
  scan_members (S fuel) (member_text (k, v) +:+ t) =
  (let rest := skip_ws t in
   if starts_with "}" rest then Ok ([(k, sort_keys v)], drop_chars 1 rest)
   else expect "," rest (λ rest,
          '(kv, rest) ← scan_members fuel (skip_ws rest); Ok ((k, sort_keys v) :: kv, rest))).
Proof.
  intros Hp Hv Ht Hfuel. rewrite member_text_app in *. cbn [JsonText.scan_members].
  change (string_of_bytes [34%N]) with q. rewrite expect_app, scan_dumps_string.
  change (skip_ws (":" +:+ ?s)) with (":" +:+ s). rewrite expect_app, skip_ws_dumps, Hv by (try done; rewrite !length_string_app in *; simpl in *; lia).
  done.
Qed.

Lemma scan_members_text kv fuel rest :
  kv ≠ [] → Forall (λ p, printable p.2 ∧ scanned p.2) kv →
  (2 * String.length (join "," (map member_text kv) +:+ ("}" +:+ rest)) + 1 < fuel)%nat →
  scan_members fuel (join "," (map member_text kv) +:+ ("}" +:+ rest)) =
  Ok (map (λ '(k, v), (k, sort_keys v)) kv, rest).
Proof.
  revert fuel. induction kv as [|[k v] [|[k' w] kv] IH]; intros [|fuel] Hl Hall Hfuel; try done; try lia;
    apply Forall_cons in Hall as [[Hp Hv] Hall]; cbn [map] in *.
  - cbn [join] in *. rewrite scan_member; [|done..|apply stops_brace|lia].
    cbv zeta. change (skip_ws ("}" +:+ rest)) with ("}" +:+ rest). by rewrite starts_with_app.
  - rewrite join_cons, !string_app_assoc in *.
    set (text := join "," (member_text (k', w) :: map member_text kv) +:+ ("}" +:+ rest)) in *.
    assert (String.length text < String.length (member_text (k, v) +:+ ("," +:+ text)))%nat.
    { rewrite length_string_app. simpl. lia. }
    rewrite scan_member; [|done..|apply stops_comma|lia].
    cbv zeta. change (skip_ws ("," +:+ text)) with ("," +:+ text).
    change (starts_with "}" ("," +:+ text)) with false. cbv iota. rewrite expect_app.
    assert (skip_ws text = text) as ->.
    { unfold text. destruct (join_head "," (member_text (k', w)) (map member_text kv)) as [t ->].
      by rewrite string_app_assoc, member_text_app. }
    rewrite (IH fuel); [done|done|done|lia].
Qed.

Lemma scan_value_string fuel s :
  scan_value (S fuel) (q +:+ s) =
  match scan_string s with
  | Some (t, rest) => Ok (JStr t, rest)
  | None => Raise JSONDecodeError
  end.
Proof. reflexivity. Qed.

Lemma scan_value_object fuel s :
  starts_with "}" (skip_ws s) = false →
  scan_value (S fuel) ("{" +:+ s) =
  ('(kv, rest) ← scan_members fuel (skip_ws s); hooked (pairs_hook kv) rest).
Proof. intros Hs. change ("{" +:+ s) with (String (Ascii.ascii_of_N 123) s). simpl. by rewrite Hs. Qed.

Lemma scan_value_array fuel s :
  starts_with "]" (skip_ws s) = false →
  scan_value (S fuel) ("[" +:+ s) = ('(l, rest) ← scan_items fuel (skip_ws s); Ok (JArr l, rest)).
Proof. intros Hs. change ("[" +:+ s) with (String (Ascii.ascii_of_N 91) s). simpl. by rewrite Hs. Qed.

(** The empty ones. *)
Lemma scan_value_empty fuel rest :
  scan_value (S fuel) ("[" +:+ ("]" +:+ rest)) = Ok (JArr [], rest) ∧
  scan_value (S fuel) ("{" +:+ ("}" +:+ rest)) = hooked (pairs_hook []) rest.
Proof.
  split.
  - transitivity (if starts_with "]" ("]" +:+ rest) then Ok (JArr [], rest)
      else '(l, rest) ← scan_items fuel ("]" +:+ rest); Ok (JArr l, rest)); [reflexivity|].
    by rewrite starts_with_app.
  - transitivity (if starts_with "}" ("}" +:+ rest) then hooked (pairs_hook []) rest
      else '(kv, rest) ← scan_members fuel ("}" +:+ rest); hooked (pairs_hook kv) rest); [reflexivity|].
    by rewrite starts_with_app.
Qed.

Lemma scan_value_word fuel a s :
  (code a =? 34)%N || (code a =? 123)%N || (code a =? 91)%N = false →
  scan_value (S fuel) (String a s) = scan_word constant (String a s).
Proof. intros [[H1 H2]%orb_false_iff H3]%orb_false_iff. simpl. by rewrite H1, H2, H3. Qed.

Lemma starts_with_other c w a s : code c ≠ code a → starts_with (String c w) (String a s) = false.
Proof.
  intros Hc. unfold starts_with. simpl. destruct (Ascii.ascii_dec c a) as [->|]; [done|done].
Qed.

Lemma scan_word_null rest : scan_word constant ("null" +:+ rest) = Ok (JNull, rest).
Proof. unfold scan_word. rewrite starts_with_app. by rewrite (drop_chars_app "null"). Qed.
Lemma scan_word_bool b rest :
  scan_word constant (dumps false (JBool b) +:+ rest) = Ok (JBool b, rest).
Proof.
  destruct b; unfold scan_word; cbn [dumps].
  - change (starts_with "null" ("true" +:+ rest)) with false. cbv iota.
    rewrite starts_with_app. by rewrite (drop_chars_app "true").
  - change (starts_with "null" ("false" +:+ rest)) with false.
    change (starts_with "true" ("false" +:+ rest)) with false. cbv iota.
    rewrite starts_with_app. by rewrite (drop_chars_app "false").
Qed.

Lemma digit_code a : is_digit a = true → (48 ≤ code a ≤ 57)%N.
Proof. unfold is_digit, code. cbv zeta. by rewrite andb_true_iff, !N.leb_le. Qed.

Lemma scan_word_digit a s :
  is_digit a = true → scan_word constant (String a s) = scan_number (String a s).
Proof.
  intros Ha%digit_code. unfold scan_word.
  rewrite !starts_with_other; [done|..]; (change (code ?c) with (Ascii.N_of_ascii c) at 1; cbn; lia).
Qed.

Lemma scan_word_minus a s :
  is_digit a = true → scan_word constant ("-" +:+ String a s) = scan_number ("-" +:+ String a s).
Proof.
  intros Ha%digit_code. unfold scan_word.
  change (starts_with "-Infinity" ("-" +:+ String a s)) with (starts_with "Infinity" (String a s)).
  by rewrite (starts_with_other _ _ a s) by (change (code ?c) with (Ascii.N_of_ascii c) at 1; cbn; lia).
Qed.

Lemma scan_value_int fuel z rest :
  int_ok z → stops rest → scan_value (S fuel) (pretty z +:+ rest) = Ok (JInt z, rest).
Proof.
  intros Hz Hr. rewrite <-(scan_number_int z rest) by done.
  destruct z as [|p|p].
  - change (pretty 0%Z +:+ rest) with (String (Ascii.ascii_of_N 48) rest).
    by rewrite scan_value_word, scan_word_digit.
  - change (pretty (Z.pos p)) with (pretty p).
    destruct (pretty_digits p) as (_ & _ & a & d & -> & Ha & _). rewrite string_app_cons.
    rewrite scan_value_word, scan_word_digit; [done|done|].
    apply digit_code in Ha. rewrite !orb_false_iff, !N.eqb_neq. lia.
  - change (pretty (Z.neg p) +:+ rest) with ("-" +:+ (pretty p +:+ rest)).
    destruct (pretty_digits p) as (_ & _ & a & d & -> & Ha & _). rewrite string_app_cons.
    transitivity (scan_word constant ("-" +:+ String a (d +:+ rest))); [reflexivity|].
    by apply scan_word_minus.
Qed.

Lemma scan_dumps v : printable v → scanned v.
Proof.
  induction v as [|b|z|r|s|l IH|kv IH] using json_nested_ind; intros Hv [|fuel] rest Hrest Hfuel;
    try lia; try done.
  - change (scan_value (S fuel) (dumps false JNull +:+ rest)) with (scan_word constant ("null" +:+ rest)).
    apply scan_word_null.
  - replace (scan_value (S fuel) _) with (scan_word constant (dumps false (JBool b) +:+ rest));
      [apply scan_word_bool|destruct b; reflexivity].
  - by apply scan_value_int.
  - cbn [dumps]. rewrite dumps_string_text, scan_value_string, scan_dumps_string. done.
  - apply printable_arr in Hv. cbn [dumps] in *. rewrite !string_app_assoc in *.
    destruct l as [|v l]; [apply scan_value_empty|]. set (text := join "," _ +:+ _) in *.
    assert (skip_ws text = text ∧ starts_with "]" text = false) as [Hws Hclose].
    { apply Forall_cons in Hv as [Hv _]. unfold text. cbn [map].
      destruct (join_head "," (dumps false v) (map (dumps false) l)) as [t ->].
      rewrite string_app_assoc. split; [by apply skip_ws_dumps|].
      destruct (dumps_head v Hv) as (a & s & -> & _ & Ha & _).
      rewrite string_app_cons. apply starts_with_other. by apply not_eq_sym, N.eqb_neq. }
    rewrite scan_value_array by (by rewrite Hws). rewrite Hws. unfold text.
    rewrite scan_items_text; [done|done| |].
    + apply Forall_forall. intros w Hw. rewrite Forall_forall in IH, Hv. auto.
    + fold text. rewrite length_string_app in Hfuel. simpl in Hfuel. lia.
  - apply printable_obj in Hv as [Hnd Hv]. rewrite dumps_obj in *. rewrite !string_app_assoc in *.
    set (kv' := sort_on fst kv) in *.
    assert (kv' ≡ₚ kv) as Hperm by apply sort_on_perm.
    assert (sort_keys (JObj kv) = JObj (map (λ '(k, v), (k, sort_keys v)) kv')) as ->.
    { cbn [sort_keys]. by rewrite sort_on_fmap_snd. }
    assert (NoDup (map (λ '(k, v), (k, sort_keys v)) kv').*1) as Hnd'.
    { replace (map _ kv').*1 with kv'.*1; [by rewrite Hperm|].
      rewrite <-list_fmap_compose. apply map_ext. by intros []. }
    assert (Forall (λ p, printable p.2 ∧ scanned p.2) kv') as Hall.
    { rewrite Hperm. apply Forall_forall. intros p Hp. rewrite Forall_forall in IH, Hv.
      destruct (Hv p Hp). auto. }
    clearbody kv'. destruct kv' as [|[k v] kv'].
    { etrans; [apply scan_value_empty|]. by rewrite Hhook. }
    set (text := join "," _ +:+ _) in *.
    assert (skip_ws text = text ∧ starts_with "}" text = false) as [Hws Hclose].
    { unfold text. cbn [map]. destruct (join_head "," (member_text (k, v)) (map member_text kv')) as [t ->].
      by rewrite string_app_assoc, member_text_app. }
    rewrite scan_value_object by (by rewrite Hws). rewrite Hws. unfold text.
    rewrite scan_members_text; [|done|done|].
    + cbn [mbind result_bind]. by rewrite Hhook.
    + fold text. rewrite length_string_app in Hfuel. simpl in Hfuel. lia.
Qed.
End scan.

(** ** The bytes of printed text *)

Lemma utf8_valid_app a b : utf8_valid a = true → utf8_valid (a ++ b) = utf8_valid b.
Proof.
  assert (∀ n a, (length a ≤ n)%nat → utf8_valid a = true → utf8_valid (a ++ b) = utf8_valid b)
    as Hall; [|by eapply Hall].
  clear a. intros n. induction n as [|n IH]; intros [|x a] Hn; try done; [simpl in Hn; lia|].
  simpl in *. destruct (x <? 128)%N; [apply IH; lia|].
  destruct ((194 <=? x) && (x <? 224))%N.
  { destruct a as [|y a]; [done|]. simpl in *. intros [-> Ha]%andb_true_iff. apply IH; [lia|done]. }
  destruct ((224 <=? x) && (x <? 240))%N.
  { destruct a as [|y [|z a]]; try done. simpl in *. intros [-> Ha]%andb_true_iff.
    apply IH; [lia|done]. }
  destruct ((240 <=? x) && (x <? 245))%N; [|done].
  destruct a as [|y [|z [|w a]]]; try done. simpl in *. intros [-> Ha]%andb_true_iff.
  apply IH; [lia|done].
Qed.

(** UTF-8 without NUL. *)
Definition plain_bytes (l : list N) : Prop := utf8_valid l = true ∧ Forall (λ b, 0 < b)%N l.
Definition plain_text (s : string) : Prop := plain_bytes (bytes_of_string s).

Lemma plain_bytes_app a b : plain_bytes a → plain_bytes b → plain_bytes (a ++ b).
Proof. intros [Ha Hna] [Hb Hnb]. split; [by rewrite utf8_valid_app|by apply Forall_app]. Qed.

Lemma plain_app s t : plain_text s → plain_text t → plain_text (s +:+ t).
Proof. intros. unfold plain_text. rewrite bytes_of_string_app. by apply plain_bytes_app. Qed.

Lemma plain_ascii l : Forall (λ b, 0 < b < 128)%N l → plain_bytes l.
Proof.
  induction 1 as [|b l Hb _ [IH IHn]]; [by split|]. split.
  - simpl. by rewrite (proj2 (N.ltb_lt b 128)) by lia.
  - constructor; [lia|done].
Qed.

Lemma plain_join sep l : plain_text sep → Forall plain_text l → plain_text (join sep l).
Proof.
  intros Hsep. induction 1 as [|s [|t l] Hs _ IH]; [by split; [|constructor]|exact Hs|].
  rewrite join_cons. by apply plain_app, plain_app.
Qed.

Lemma escape_low n : (n < 128)%N → Forall (λ b, 0 < b < 128)%N (bytes_of_string (escape_byte n)).
Proof.
  intros Hn. assert (Forall (λ n, Forall (λ b, 0 < b < 128)%N (bytes_of_string (escape_byte n)))
    (N.of_nat <$> seq 0 128)) as Hall by (apply (bool_decide_unpack _); vm_compute; exact I).
  apply (proj1 (Forall_forall _ _) Hall). apply list_elem_of_fmap. exists (N.to_nat n).
  rewrite N2Nat.id, elem_of_seq. split; [done|lia].
Qed.

Lemma escape_high n : (128 ≤ n < 256)%N → bytes_of_string (escape_byte n) = [n].
Proof.
  intros Hn. unfold escape_byte.
  assert (short_escape n = None) as ->.
  { unfold short_escape. repeat case_match; subst; try done; lia. }
  rewrite (proj2 (N.ltb_ge n 32)) by lia. simpl. by rewrite Ascii.N_ascii_embedding by lia.
Qed.

(** The escapes of a list of bytes. *)
Definition escaped (bs : list N) : list N := bytes_of_string (join "" (escape_byte <$> bs)).

Lemma escaped_cons b bs : escaped (b :: bs) = bytes_of_string (escape_byte b) ++ escaped bs.
Proof. unfold escaped. by rewrite fmap_cons, join_nil_cons, bytes_of_string_app. Qed.

Lemma escaped_high b bs : (128 ≤ b < 256)%N → escaped (b :: bs) = b :: escaped bs.
Proof. intros Hb. by rewrite escaped_cons, escape_high. Qed.

Lemma continuation_bound b : continuation b = true → (128 ≤ b < 256)%N.
Proof. unfold continuation. rewrite andb_true_iff, N.leb_le, N.ltb_lt. lia. Qed.

Lemma plain_escaped bs : utf8_valid bs = true → plain_bytes (escaped bs).
Proof.
  assert (∀ n bs, (length bs ≤ n)%nat → utf8_valid bs = true → plain_bytes (escaped bs))
    as Hall; [|by eapply Hall].
  clear bs. intros n. induction n as [|n IH]; intros [|x bs] Hn;
    try (by intros _; split; [|constructor]); [simpl in Hn; lia|].
  simpl in Hn. intros Hv. pose proof Hv as Hv'. simpl in Hv. destruct (x <? 128)%N eqn:Hx.
  { apply N.ltb_lt in Hx. rewrite escaped_cons.
    apply plain_bytes_app; [by apply plain_ascii, escape_low|apply IH; [lia|done]]. }
  destruct ((194 <=? x) && (x <? 224))%N eqn:H2.
  { destruct bs as [|y bs]; [done|]. simpl in Hn. apply andb_true_iff in Hv as [Hy Hv].
    destruct (IH bs) as [IHv IHn]; [lia|done|]. pose proof (continuation_bound y Hy).
    apply andb_true_iff in H2 as [?%N.leb_le ?%N.ltb_lt].
    rewrite !escaped_high by lia. split; [|repeat constructor; lia || done].
    simpl. rewrite Hx. rewrite (proj2 (N.leb_le 194 x)), (proj2 (N.ltb_lt x 224)) by lia. simpl.
    by rewrite Hy. }
  destruct ((224 <=? x) && (x <? 240))%N eqn:H3.
  { destruct bs as [|y [|z bs]]; try done. simpl in Hn. apply andb_true_iff in Hv as [Hc Hv].
    pose proof Hc as [[Hy Hz]%andb_true_iff _]%andb_true_iff.
    destruct (IH bs) as [IHv IHn]; [lia|done|].
    pose proof (continuation_bound y Hy). pose proof (continuation_bound z Hz).
    pose proof H3 as [?%N.leb_le ?%N.ltb_lt]%andb_true_iff.
    rewrite !escaped_high by lia. split; [|repeat constructor; lia || done].
    simpl. by rewrite Hx, H2, H3, Hc. }
  destruct ((240 <=? x) && (x <? 245))%N eqn:H4; [|done].
  destruct bs as [|y [|z [|w bs]]]; try done. simpl in Hn. apply andb_true_iff in Hv as [Hc Hv].
  pose proof Hc as [[[[Hy Hz]%andb_true_iff Hw]%andb_true_iff _]%andb_true_iff _]%andb_true_iff.
  destruct (IH bs) as [IHv IHn]; [lia|done|]. pose proof (continuation_bound y Hy).
  pose proof (continuation_bound z Hz). pose proof (continuation_bound w Hw).
  pose proof H4 as [?%N.leb_le ?%N.ltb_lt]%andb_true_iff.
  rewrite !escaped_high by lia. split; [|repeat constructor; lia || done].
  simpl. by rewrite Hx, H2, H3, H4, Hc.
Qed.

Lemma plain_dumps_string s : utf8_string s → plain_text (dumps_string false s).
Proof.
  intros Hs. unfold dumps_string. apply plain_app; [by split; [|repeat constructor]|].
  apply plain_app; [by apply plain_escaped|by split; [|repeat constructor]].
Qed.

Ltac plain_word := by split; [|repeat constructor].

Lemma plain_digits d : string_forallb is_digit d = true → plain_text d.
Proof.
  intros Hd. apply plain_ascii. induction d as [|a d IH]; [constructor|].
  simpl in *. apply andb_true_iff in Hd as [Ha%digit_code Hd]. constructor; [unfold code in Ha; lia|auto].
Qed.

Lemma plain_dumps v : printable v → plain_text (dumps false v).
Proof.
  induction v as [|[]|z|r|s|l IH|kv IH] using json_nested_ind; intros Hv; try done;
    try plain_word.
  - destruct z as [|p|p]; [plain_word| |].
    + apply plain_digits. apply pretty_digits.
    + change (dumps false (JInt (Z.neg p))) with ("-" +:+ pretty p).
      apply plain_app; [plain_word|]. apply plain_digits, pretty_digits.
  - by apply plain_dumps_string.
  - apply printable_arr in Hv. cbn [dumps]. apply plain_app; [plain_word|].
    apply plain_app; [|plain_word]. apply plain_join; [plain_word|].
    apply Forall_forall. intros t (w & -> & Hw)%list_elem_of_fmap.
    rewrite Forall_forall in IH, Hv. auto.
  - apply printable_obj in Hv as [_ Hv]. rewrite dumps_obj. apply plain_app; [plain_word|].
    apply plain_app; [|plain_word]. apply plain_join; [plain_word|].
    apply Forall_forall. intros t (p & -> & Hp%elem_of_sort_on)%list_elem_of_fmap.
    rewrite Forall_forall in IH, Hv. destruct (Hv p Hp). unfold member_text.
    apply plain_app; [by apply plain_dumps_string|]. apply plain_app; [plain_word|]. auto.
Qed.

(** Such bytes are taken for UTF-8. *)
Lemma decode_plain a bs :
  (a < 128)%N → plain_bytes (a :: bs) → decode_text (a :: bs) = Some (a :: bs).
Proof.
  intros Ha [Hv Hn]. assert (detect_encoding (a :: bs) = Utf8) as Hd.
  { assert (∀ x p, x = 0%N ∨ (128 ≤ x)%N → bytes_prefix (x :: p) (a :: bs) = false) as Hp.
    { intros x p Hx. apply bool_decide_eq_false. simpl. intros [= -> _].
      apply Forall_cons in Hn as [? _]. lia. }
    unfold detect_encoding. rewrite !Hp by lia. destruct bs as [|b [|c [|d bs]]]; try done.
    - apply Forall_cons in Hn as [Ha0 [Hb0 _]%Forall_cons].
      by rewrite (proj2 (N.eqb_neq a 0)), (proj2 (N.eqb_neq b 0)) by lia.
    - apply Forall_cons in Hn as [Ha0 [Hb0 _]%Forall_cons].
      by rewrite (proj2 (N.eqb_neq a 0)), (proj2 (N.eqb_neq b 0)) by lia. }
  unfold decode_text. by rewrite Hd, Hv.
Qed.

Lemma sort_keys_text v : dumps false (sort_keys v) = dumps false v.
Proof.
  induction v as [| | | | |l IH|kv IH] using json_nested_ind; try done.
  - cbn [sort_keys dumps]. rewrite map_map. do 3 f_equal. apply map_ext_Forall. exact IH.
  - cbn [sort_keys dumps]. rewrite !sort_on_fmap_snd.
    rewrite (sort_on_sorted_id fst _ (sort_on_sorted fst kv)).
    do 3 f_equal. rewrite !map_map. apply map_ext_Forall. rewrite sort_on_perm.
    eapply Forall_impl; [exact IH|]. intros [k v] Hv. simpl in *. by rewrite Hv.
Qed.

Section loads.
Context {F : FloatText} {E : Type}.
Context (pairs_hook : list (string * json) → result E json) (constant : string → result E json).
Context (Hhook : ∀ kv, NoDup kv.*1 → pairs_hook kv = Ok (JObj kv)).

(** Canonical text, and white space after it, decodes to the value with its keys sorted. *)
Lemma loads_dumps v ws :
  printable v → string_forallb is_ws ws = true →
  loads pairs_hook constant (dumps false v +:+ ws) = Ok (sort_keys v).
Proof.
  intros Hv Hws. destruct (dumps_head v Hv) as (a & s & Hs & Ha & _ & Hc).
  assert (plain_text ws) as Hplain.
  { apply plain_ascii. clear -Hws. induction ws as [|b ws IH]; [constructor|].
    simpl in *. apply andb_true_iff in Hws as [Hb Hws]. constructor; [|auto].
    unfold is_ws, code in Hb. cbv zeta in Hb.
    rewrite !orb_true_iff, !N.eqb_eq in Hb. lia. }
  assert (decode_text (bytes_of_string (dumps false v +:+ ws)) =
          Some (bytes_of_string (dumps false v +:+ ws))) as Hd.
  { pose proof (plain_app _ _ (plain_dumps v Hv) Hplain) as Hp. rewrite Hs, string_app_cons in *.
    apply decode_plain; [apply Hc|exact Hp]. }
  unfold loads. rewrite Hd, string_of_bytes_of_string. unfold loads_text.
  rewrite skip_ws_dumps by done.
  assert (stops ws ∧ skip_ws ws = "") as [Hstop Hskip].
  { clear -Hws. split.
    - destruct ws as [|b ws]; [done|]. simpl in *. apply andb_true_iff in Hws as [Hb _].
      unfold is_ws, is_digit, code in *. cbv zeta in *.
      rewrite !orb_true_iff, !N.eqb_eq in Hb.
      rewrite andb_false_iff, N.leb_gt, orb_false_iff, !N.eqb_neq. lia.
    - induction ws as [|b ws IH]; [done|]. simpl in *.
      apply andb_true_iff in Hws as [-> Hws]. auto. }
  rewrite (scan_dumps pairs_hook constant Hhook v Hv) by (done || lia).
  cbn [mbind result_bind]. by rewrite Hskip.
Qed.
End loads.

Lemma NoDup_dict_of_pairs kv : NoDup kv.*1 → dict_of_pairs kv = JObj kv.
Proof.
  intros Hnd. unfold dict_of_pairs. f_equal.
  assert (∀ (d l : list (string * json)), NoDup (d ++ l).*1 →
    foldl (λ d p, od_set p.1 p.2 d) d l = d ++ l) as Hgo; [|by apply (Hgo [] kv)].
  clear. intros d l. revert d. induction l as [|[k v] l IH]; intros d Hnd; simpl.
  { by rewrite app_nil_r. }
  rewrite od_set_new.
  2:{ rewrite fmap_app, fmap_cons in Hnd. apply NoDup_app in Hnd as (_ & Hk & _). intros Hin.
      by apply (Hk k Hin), list_elem_of_here. }
  rewrite IH; [by rewrite <-app_assoc|]. by rewrite <-app_assoc.
Qed.

Lemma plain_hook_ok {E} kv : NoDup kv.*1 → plain_hook kv = Ok (JObj kv) :> result E json.
Proof. intros. unfold plain_hook. by rewrite NoDup_dict_of_pairs. Qed.

(** ** Keys of what was read *)

(** No object in [v] has a key twice. *)
Fixpoint unique_keys (v : json) : Prop :=
  match v with
  | JArr l => (fix all (l : list json) := match l with [] => True | v :: l => unique_keys v ∧ all l end) l
  | JObj kv =>
      NoDup kv.*1 ∧
      (fix all (kv : list (string * json)) :=
         match kv with [] => True | (_, v) :: kv => unique_keys v ∧ all kv end) kv
  | _ => True
  end.

Lemma unique_keys_arr l : unique_keys (JArr l) ↔ Forall unique_keys l.
Proof. simpl. induction l as [|v l IH]; rewrite ?Forall_cons, <-?IH; [|done]. by rewrite Forall_nil. Qed.

Lemma unique_keys_obj kv :
  unique_keys (JObj kv) ↔ NoDup kv.*1 ∧ Forall (λ p, unique_keys p.2) kv.
Proof.
  simpl. apply and_iff_compat_l.
  induction kv as [|[k v] kv IH]; rewrite ?Forall_cons, <-?IH; [|done]. by rewrite Forall_nil.
Qed.

Lemma unique_keys_get k kv : unique_keys (JObj kv) → unique_keys (json_get k kv).
Proof.
  intros [_ Hall]%unique_keys_obj. unfold json_get. destruct (assoc k kv) as [v|] eqn:E; [|done].
  apply assoc_elem_of in E. rewrite Forall_forall in Hall. exact (Hall _ E).
Qed.

Lemma od_set_Forall {V} (P : string * V → Prop) k v d :
  P (k, v) → Forall P d → Forall P (od_set k v d).
Proof. intros Hk. induction 1 as [|[k' v'] d Hx Hd IH]; simpl; [by constructor|]. case_decide; by constructor. Qed.

Lemma unique_keys_dict kv : Forall (λ p, unique_keys p.2) kv → unique_keys (dict_of_pairs kv).
Proof.
  intros Hall. apply unique_keys_obj.
  assert (∀ l d : list (string * json), Forall (λ p, unique_keys p.2) l →
    NoDup d.*1 ∧ Forall (λ p, unique_keys p.2) d →
    NoDup (foldl (λ d p, od_set p.1 p.2 d) d l).*1 ∧
    Forall (λ p, unique_keys p.2) (foldl (λ d p, od_set p.1 p.2 d) d l)) as Hgo.
  { induction l as [|[k v] l IH]; intros d Hl Hd; [done|]. apply Forall_cons in Hl as [Hv Hl].
    apply IH; [done|]. destruct Hd. split; [by apply od_set_NoDup|by apply od_set_Forall]. }
  apply Hgo; [done|]. split; constructor.
Qed.

Section unique.
Context {F : FloatText} {E : Type}.
Context (pairs_hook : list (string * json) → result E json) (constant : string → result E json).
Context (Hhook : ∀ kv v, Forall (λ p, unique_keys p.2) kv → pairs_hook kv = Ok v → unique_keys v).
Context (Hconstant : ∀ name v, constant name = Ok v → unique_keys v).

Definition reads_unique (r : result (loads_error E) (json * string)) : Prop :=
  ∀ v rest, r = Ok (v, rest) → unique_keys v.

Lemma scan_number_unique s : reads_unique (scan_number s).
Proof.
  intros v rest. unfold scan_number. repeat case_match; try done; by intros [= <- <-].
Qed.

Lemma scan_word_unique s : reads_unique (scan_word constant s).
Proof.
  intros v rest. unfold scan_word, hooked.
  repeat case_match; try done; intros; simplify_eq;
    first [done|by eauto|by eapply scan_number_unique].
Qed.

Lemma scan_unique fuel :
  (∀ s, reads_unique (scan_value pairs_hook constant fuel s)) ∧
  (∀ s l rest, scan_items pairs_hook constant fuel s = Ok (l, rest) → Forall unique_keys l) ∧
  (∀ s kv rest, scan_members pairs_hook constant fuel s = Ok (kv, rest) →
     Forall (λ p, unique_keys p.2) kv).
Proof.
  induction fuel as [|fuel (IHv & IHi & IHm)]; [done|].
  split_and!; intros s v rest; cbn [scan_value scan_items scan_members]; unfold expect; cbv zeta.
  - destruct s as [|a s]; [done|].
    destruct (code a =? 34)%N; [by repeat case_match; intros; simplify_eq|].
    destruct (code a =? 123)%N; [|destruct (code a =? 91)%N; [|apply scan_word_unique]].
    + case_match; [unfold hooked; destruct (pairs_hook []) eqn:Hh; [|done]; intros [= <- <-]; by eapply Hhook|]. intros ([kv r] & Hm & Hh)%result_bind_Ok.
      unfold hooked in Hh. destruct (pairs_hook kv) eqn:Hp; [|done]. injection Hh as <- <-. by eapply Hhook, Hp; eapply IHm.
    + case_match; [by intros [= <- <-]|]. intros ([l r] & Hi & Hh)%result_bind_Ok.
      injection Hh as <- <-. by eapply unique_keys_arr, IHi.
  - intros ([x r] & Hv%IHv & Hr)%result_bind_Ok. repeat case_match; simplify_eq; [by repeat constructor|].
    apply result_bind_Ok in Hr as ([l r'] & Hi%IHi & [= <- <-]). by constructor.
  - repeat case_match; try done. intros ([x r] & Hv%IHv & Hr)%result_bind_Ok.
    repeat case_match; simplify_eq; [by repeat constructor|].
    apply result_bind_Ok in Hr as ([l r'] & Hi%IHm & [= <- <-]). by constructor.
Qed.

(** Where the hook gives a [dict], which has each key once, [json.loads] gives such a value. *)
Lemma loads_unique raw v : loads pairs_hook constant raw = Ok v → unique_keys v.
Proof.
  unfold loads, loads_text. destruct (decode_text _) as [bs|]; [|done].
  intros ([w rest] & Hw & Hr)%result_bind_Ok. case_bool_decide; simplify_eq.
  by eapply (proj1 (scan_unique _)).
Qed.
End unique.

Lemma plain_hook_unique {E} kv v :
  Forall (λ p, unique_keys p.2) kv → plain_hook (E := E) kv = Ok v → unique_keys v.
Proof. intros Hkv [= <-]. by apply unique_keys_dict. Qed.

(** ** Exceptions of the hooks *)

Section hook_errors.
Context {F : FloatText} {E : Type} (P : E → Prop).
Context (pairs_hook : list (string * json) → result E json) (constant : string → result E json).
Context (Hhook : ∀ kv, raises_only P (pairs_hook kv)) (Hconstant : ∀ name, raises_only P (constant name)).

Definition hook_error (e : loads_error E) : Prop := ∀ e', e = HookError e' → P e'.

Lemma hooked_errors r rest : raises_only P r → raises_only hook_error (hooked r rest).
Proof. intros Hr e. destruct r as [v|e0]; [done|]. intros [= <-] e' [= <-]. by apply Hr. Qed.

Lemma decode_error : hook_error JSONDecodeError.
Proof. done. Qed.
Lemma too_long_error : hook_error IntegerTooLong.
Proof. done. Qed.
Lemma fuel_error : hook_error OutOfFuel.
Proof. done. Qed.
#[local] Hint Resolve decode_error too_long_error fuel_error : raises.

Lemma expect_errors {A} word s (k : string → result (loads_error E) (A * string)) :
  (∀ rest, raises_only hook_error (k rest)) → raises_only hook_error (expect word s k).
Proof. intros Hk. unfold expect. destruct (starts_with word s); [done|]. by apply raises_only_Raise. Qed.

Lemma scan_number_errors s : raises_only hook_error (scan_number s).
Proof. unfold scan_number. solve_raises. Qed.

Lemma scan_word_errors s : raises_only hook_error (scan_word constant s).
Proof.
  unfold scan_word. repeat (destruct (starts_with _ s); [by solve_raises || by apply hooked_errors|]).
  apply scan_number_errors.
Qed.

Lemma scan_errors fuel :
  (∀ s, raises_only hook_error (scan_value pairs_hook constant fuel s)) ∧
  (∀ s, raises_only hook_error (scan_items pairs_hook constant fuel s)) ∧
  (∀ s, raises_only hook_error (scan_members pairs_hook constant fuel s)).
Proof.
  induction fuel as [|fuel (IHv & IHi & IHm)]; [by split_and!; intros s; apply raises_only_Raise|].
  split_and!; intros s; cbn [scan_value scan_items scan_members]; cbv zeta.
  - destruct s as [|a s]; [by apply raises_only_Raise|].
    destruct (code a =? 34)%N; [solve_raises|].
    destruct (code a =? 123)%N; [|destruct (code a =? 91)%N; [|apply scan_word_errors]].
    + destruct (starts_with _ _); [by apply hooked_errors|].
      apply raises_only_bind; [apply IHm|]. intros [kv rest] _. by apply hooked_errors.
    + destruct (starts_with _ _); [apply raises_only_Ok|].
      apply raises_only_bind; [apply IHi|]. intros [l rest] _. apply raises_only_Ok.
  - apply raises_only_bind; [apply IHv|]. intros [v rest] _. destruct (starts_with _ _); [apply raises_only_Ok|].
    apply expect_errors. intros rest'. apply raises_only_bind; [apply IHi|]. intros [l r] _. apply raises_only_Ok.
  - apply expect_errors. intros rest. destruct (scan_string rest) as [[k rest']|]; [|by apply raises_only_Raise].
    apply expect_errors. intros r. apply raises_only_bind; [apply IHv|]. intros [v r'] _.
    destruct (starts_with _ _); [apply raises_only_Ok|].
    apply expect_errors. intros r2. apply raises_only_bind; [apply IHm|]. intros [l r3] _. apply raises_only_Ok.
Qed.

Lemma loads_errors raw : raises_only hook_error (loads pairs_hook constant raw).
Proof.
  unfold loads, loads_text. destruct (decode_text _); [|by apply raises_only_Raise].
  apply raises_only_bind; [apply (proj1 (scan_errors _))|]. intros [v rest] _. solve_raises.
Qed.
End hook_errors.

(** ** Values that differ by the order of members *)

Definition same_value (v w : json) : Prop := sort_keys v = sort_keys w.

#[export] Instance same_value_equiv : Equivalence same_value.
Proof. split; [by intros ?|by intros ?|]. unfold same_value. by intros ??? -> ->. Qed.

(** They have one text. *)
Lemma same_value_text v w : same_value v w → dumps false v = dumps false w.
Proof. intros H. by rewrite <-(sort_keys_text v), H, sort_keys_text. Qed.

Lemma same_value_arr l l' : Forall2 same_value l l' → same_value (JArr l) (JArr l').
Proof.
  intros Hl. unfold same_value. cbn [sort_keys]. f_equal.
  induction Hl as [|v w l l' Hv _ IH]; simpl; [done|]. by rewrite Hv, IH.
Qed.

Lemma keys_map_snd {A B} (g : A → B) (kv : list (string * A)) :
  (map (λ '(k, v), (k, g v)) kv).*1 = kv.*1.
Proof. induction kv as [|[k v] kv IH]; simpl; [done|]. by f_equal. Qed.

Lemma same_value_perm kv kv' : NoDup kv.*1 → kv ≡ₚ kv' → same_value (JObj kv) (JObj kv').
Proof.
  intros Hnd Hp. unfold same_value. cbn [sort_keys]. f_equal. apply (sort_on_unique fst).
  - by rewrite keys_map_snd.
  - by apply Permutation_map.
Qed.

Lemma same_value_members kv kv' :
  Forall2 (λ p p', p.1 = p'.1 ∧ same_value p.2 p'.2) kv kv' → same_value (JObj kv) (JObj kv').
Proof.
  intros Hkv. unfold same_value. cbn [sort_keys]. f_equal. f_equal.
  induction Hkv as [|[k v] [k' v'] kv kv' [Hk Hv] _ IH]; simpl in *; [done|]. by rewrite Hk, Hv, IH.
Qed.

(** A [dict] of exactly the [fields] is the one with its values in their order. *)
Lemma has_exactly_perm fields kv :
  NoDup fields → NoDup kv.*1 → has_exactly fields kv = true →
  kv ≡ₚ map (λ f, (f, json_get f kv)) fields.
Proof.
  intros Hf Hkv Hex. apply NoDup_Permutation.
  - by eapply NoDup_fmap_1.
  - apply (NoDup_fmap_1 fst). rewrite <-list_fmap_compose. by rewrite list_fmap_id.
  - intros [k v]. rewrite list_elem_of_fmap. rewrite has_exactly_spec in Hex. split.
    + intros Hin. exists k. pose proof (list_elem_of_fmap_2 fst _ _ Hin) as Hk. unfold json_get.
      by rewrite (assoc_NoDup k kv v), <-Hex.
    + intros (f & [= -> ->] & Hin%Hex). apply assoc_is_Some in Hin as [w Hw].
      unfold json_get. rewrite Hw. by apply assoc_elem_of.
Qed.

Lemma same_value_fields fields kv kv' :
  NoDup fields → unique_keys (JObj kv) → has_exactly fields kv = true →
  Forall2 (λ f p, p.1 = f ∧ same_value (json_get f kv) p.2) fields kv' →
  same_value (JObj kv) (JObj kv').
Proof.
  intros Hf [Hnd _]%unique_keys_obj Hex Hall. transitivity (JObj (map (λ f, (f, json_get f kv)) fields)).
  - by apply same_value_perm, has_exactly_perm.
  - apply same_value_members, Forall2_fmap_l. eapply Forall2_impl; [exact Hall|]. by intros f [k v] [<- ?].
Qed.

(** ** The members of a sorted object *)

Definition sorted_members (kv : list (string * json)) : list (string * json) :=
  sort_on fst (map (λ '(k, v), (k, sort_keys v)) kv).

Lemma assoc_map_snd {A B} (g : A → B) k kv : assoc k (map (λ '(k, v), (k, g v)) kv) = g <$> assoc k kv.
Proof. induction kv as [|[k' v] kv IH]; simpl; [done|]. by case_decide. Qed.

Lemma assoc_perm {A} k (kv kv' : list (string * A)) : NoDup kv.*1 → kv ≡ₚ kv' → assoc k kv = assoc k kv'.
Proof.
  intros Hnd Hp. assert (NoDup kv'.*1) as Hnd' by (by rewrite <-Hp).
  destruct (assoc k kv) as [v|] eqn:E.
  - apply assoc_elem_of in E. symmetry. apply assoc_NoDup; [done|]. by rewrite <-Hp.
  - destruct (assoc k kv') as [v|] eqn:E'; [|done]. apply assoc_elem_of in E'.
    rewrite (assoc_NoDup k kv v) in E; [done|done|]. by rewrite Hp.
Qed.

Lemma json_get_sorted k kv : NoDup kv.*1 → json_get k (sorted_members kv) = sort_keys (json_get k kv).
Proof.
  intros Hnd. unfold json_get, sorted_members.
  rewrite (assoc_perm k _ (map (λ '(k, v), (k, sort_keys v)) kv)), assoc_map_snd.
  - by destruct (assoc k kv).
  - by rewrite sort_on_perm, keys_map_snd.
  - apply sort_on_perm.
Qed.

Lemma sort_keys_idem v : sort_keys (sort_keys v) = sort_keys v.
Proof.
  induction v as [| | | | |l IH|kv IH] using json_nested_ind; try done.
  - cbn [sort_keys]. f_equal. rewrite map_map. by apply map_ext_Forall.
  - cbn [sort_keys]. rewrite !sort_on_fmap_snd, map_map.
    rewrite (sort_on_sorted_id fst _ (sort_on_sorted fst kv)). f_equal.
    apply map_ext_Forall. rewrite sort_on_perm.
    eapply Forall_impl; [exact IH|]. intros [k v] Hv. simpl in *. by rewrite Hv.
Qed.

Lemma same_value_sorted kv : same_value (JObj kv) (JObj (sorted_members kv)).
Proof. symmetry. exact (sort_keys_idem (JObj kv)). Qed.

Lemma json_get_here k v kv : json_get k ((k, v) :: kv) = v.
Proof. unfold json_get. simpl. by rewrite decide_True. Qed.
Lemma json_get_later k k' v kv : k ≠ k' → json_get k ((k', v) :: kv) = json_get k kv.
Proof. intros. unfold json_get. simpl. by rewrite decide_False. Qed.

(** ** One line *)

(** No line ends in the text. *)
Definition unbroken (s : string) : Prop := Forall (λ b, b ≠ 10 ∧ b ≠ 13)%N (bytes_of_string s).

Lemma unbroken_app s t : unbroken (s +:+ t) ↔ unbroken s ∧ unbroken t.
Proof. unfold unbroken. by rewrite bytes_of_string_app, Forall_app. Qed.

Lemma unbroken_join sep l : unbroken sep → Forall unbroken l → unbroken (join sep l).
Proof.
  intros Hs. induction 1 as [|x l Hx Hl IH]; [constructor|]. destruct l as [|y l]; [done|].
  rewrite join_cons, !unbroken_app. auto.
Qed.


Ltac unbroken_const := unfold unbroken; by apply (bool_decide_unpack _).

Lemma unbroken_digits d : string_forallb is_digit d = true → unbroken d.
Proof.
  unfold unbroken. induction d as [|a d IH]; [constructor|]. simpl. intros [Ha%digit_code Hd]%andb_true_iff.
  constructor; [unfold code in Ha; lia|auto].
Qed.

Lemma unbroken_int (z : Z) : unbroken (pretty z).
Proof.
  destruct z as [|p|p]; [unbroken_const| |].
  - apply unbroken_digits, pretty_digits.
  - change (pretty (Z.neg p)) with ("-" +:+ pretty p). apply unbroken_app. split; [unbroken_const|].
    apply unbroken_digits, pretty_digits.
Qed.

Lemma ascii_code n : (n < 256)%N → Ascii.N_of_ascii (Ascii.ascii_of_N n) = n.
Proof. apply Ascii.N_ascii_embedding. Qed.

Lemma unbroken_hex k n acc : unbroken acc → unbroken (hex_fixed k n acc).
Proof.
  revert n acc. induction k as [|k IH]; intros n acc Ha; [done|]. cbn [hex_fixed]. apply IH. constructor; [|done].
  unfold hex_digit. pose proof (N.mod_lt n 16 ltac:(done)) as Hn. revert Hn. generalize (n mod 16)%N. intros m Hm.
  destruct (m <? 10)%N eqn:E; [apply N.ltb_lt in E|apply N.ltb_ge in E]; rewrite ascii_code by lia; lia.
Qed.

Lemma unbroken_u_escape n : unbroken (u_escape n).
Proof. apply unbroken_app. split; [unbroken_const|]. apply unbroken_hex. constructor. Qed.

Lemma unbroken_escape n : unbroken (escape_code_point n).
Proof.
  unfold escape_code_point. destruct (short_escape n) as [e|] eqn:E.
  { unfold short_escape in E. repeat case_match; simplify_eq; unbroken_const. }
  destruct (_ && _) eqn:Hn; [|case_match; [apply unbroken_u_escape|apply unbroken_app; split; apply unbroken_u_escape]].
  apply andb_true_iff in Hn as [H1%N.leb_le H2%N.leb_le]. unfold unbroken. cbn. constructor; [|constructor].
  rewrite ascii_code by lia. lia.
Qed.

Lemma unbroken_escape_byte n : (n < 256)%N → unbroken (escape_byte n).
Proof.
  intros Hn. unfold escape_byte. destruct (short_escape n) as [e|] eqn:E.
  { unfold short_escape in E. repeat case_match; simplify_eq; unbroken_const. }
  destruct (n <? 32)%N eqn:H; [apply unbroken_u_escape|]. apply N.ltb_ge in H. unfold unbroken. cbn.
  constructor; [|constructor]. rewrite ascii_code by done. lia.
Qed.

Lemma unbroken_string b s : unbroken (dumps_string b s).
Proof.
  unfold dumps_string. rewrite !unbroken_app. split_and!; [unbroken_const| |unbroken_const].
  apply unbroken_join; [constructor|]. destruct b; apply Forall_fmap.
  - apply Forall_true. apply unbroken_escape.
  - eapply Forall_impl; [apply bytes_of_string_bound|]. intros n Hn. by apply unbroken_escape_byte.
Qed.

(** The texts of the floats are one line, as [repr] writes them. *)
Fixpoint floats_unbroken (v : json) : Prop :=
  match v with
  | JFloat r => unbroken r
  | JArr l => (fix all (l : list json) := match l with [] => True | v :: l => floats_unbroken v ∧ all l end) l
  | JObj kv =>
      (fix all (kv : list (string * json)) :=
         match kv with [] => True | (k, v) :: kv => floats_unbroken v ∧ all kv end) kv
  | _ => True
  end.

Lemma floats_arr l : floats_unbroken (JArr l) ↔ Forall floats_unbroken l.
Proof. simpl. induction l as [|v l IH]; rewrite ?Forall_cons, <-?IH; [|done]. by rewrite Forall_nil. Qed.

Lemma floats_obj kv : floats_unbroken (JObj kv) ↔ Forall (λ p, floats_unbroken p.2) kv.
Proof. simpl. induction kv as [|[k v] kv IH]; rewrite ?Forall_cons, <-?IH; [|done]. by rewrite Forall_nil. Qed.

Lemma unbroken_dumps b v : floats_unbroken v → unbroken (dumps b v).
Proof.
  induction v as [|[]|z|r|s|l IH|kv IH] using json_nested_ind; intros Hv; try unbroken_const.
  - apply unbroken_int.
  - done.
  - apply unbroken_string.
  - apply floats_arr in Hv. cbn [dumps]. rewrite !unbroken_app. split_and!; [unbroken_const| |unbroken_const].
    apply unbroken_join; [unbroken_const|]. apply Forall_forall. intros t (w & -> & Hw)%list_elem_of_fmap.
    rewrite Forall_forall in IH, Hv. auto.
  - apply floats_obj in Hv. cbn [dumps]. rewrite !unbroken_app. split_and!; [unbroken_const| |unbroken_const].
    apply unbroken_join; [unbroken_const|]. apply Forall_forall. intros t (p & -> & Hp%elem_of_sort_on)%list_elem_of_fmap.
    apply list_elem_of_fmap in Hp as ([k w] & -> & Hw). rewrite Forall_forall in IH, Hv. cbn [fst snd].
    rewrite !unbroken_app. split_and!; [apply unbroken_string|unbroken_const|exact (IH _ Hw (Hv _ Hw))].
Qed.

Lemma printable_floats v : printable v → floats_unbroken v.
Proof.
  induction v as [|b|z|r|s|l IH|kv IH] using json_nested_ind; intros Hv; try done.
  - apply printable_arr in Hv. apply floats_arr. rewrite Forall_forall in *. auto.
  - apply printable_obj in Hv as [_ Hv]. apply floats_obj. rewrite Forall_forall in *. intros p Hp.
    by apply IH, Hv.
Qed.
