(* ===== verification/EcpaModel.v ===== *)
(** * The reference model: [ecpa_model.py]

    The pure, executable state machine of the ECPA 0.1 contract: content
    identifiers, plans, the append-only evidence store and [ReferenceModel]. *)

From S2P Require Import Prelude PyStd.

Local Open Scope string_scope.
Local Open Scope list_scope.

(** ** States and errors *)

Inductive State : Type :=
  | INTENT | RESOLVED | PLANNED | PREPARING | PREPARED | LAUNCHING | OBSERVING
  | COMMIT_READY | EFFECTIVE | DEGRADED | RECONCILE | ROLLBACK | ROLLED_BACK
  | FAILED_SAFE | SAFETY_UNKNOWN.

#[export] Instance State_eq_dec : EqDecision State.
Proof. solve_decision. Defined.

Definition State_value (s : State) : string :=
  match s with
  | INTENT => "Intent" | RESOLVED => "Resolved" | PLANNED => "Planned"
  | PREPARING => "Preparing" | PREPARED => "Prepared" | LAUNCHING => "Launching"
  | OBSERVING => "Observing" | COMMIT_READY => "CommitReady"
  | EFFECTIVE => "Effective" | DEGRADED => "Degraded" | RECONCILE => "Reconcile"
  | ROLLBACK => "Rollback" | ROLLED_BACK => "RolledBack"
  | FAILED_SAFE => "FailedSafe" | SAFETY_UNKNOWN => "SafetyUnknown"
  end.

Inductive ErrorCode : Type :=
  | UNKNOWN_RESOURCE | AMBIGUOUS_RESOURCE | RESOURCE_CONFLICT | INCOMPATIBLE_HOST
  | MISSING_PROCESS_EVIDENCE | STALE_EVIDENCE | REPLAYED_NONCE | CAS_MISMATCH
  | EXTERNAL_LEASE_INVALID | AUTHORITY_VIOLATION | INVALID_TRANSITION
  | ROLLBACK_FAILED.

#[export] Instance ErrorCode_eq_dec : EqDecision ErrorCode.
Proof. solve_decision. Defined.

(** What a call can raise: a [ContractError] or a failed [assert self.plan]. *)
Inductive exn : Type :=
  | ContractError (code : ErrorCode) (detail : string)
  | AssertionError.

(** ** Content identifiers *)

Definition canonical_bytes (value : json) : string := dumps false value.

Definition content_id (prefix : string) (value : json) : string :=
  prefix +:+ ":sha256:" +:+ sha256_hexdigest (canonical_bytes value).

Definition canonical_uri (value kind : string) : result exn string :=
  let prefix := "urn:ecpa:" +:+ kind +:+ ":" in
  if negb (starts_with prefix value) || negb (is_lowercased value) || has_char Ascii.Space value
  then Raise (ContractError UNKNOWN_RESOURCE value)
  else Ok value.

(** ** Immutable contract objects *)

Record PluginIdentity : Type := mkPlugin {
  plugin_namespace : string;
  plugin_name : string;
  plugin_version : string;
  artifact_sha256 : string;
}.

Definition PluginIdentity_asdict (p : PluginIdentity) : json :=
  JObj [("namespace", JStr (plugin_namespace p)); ("name", JStr (plugin_name p));
        ("version", JStr (plugin_version p));
        ("artifact_sha256", JStr (artifact_sha256 p))].

Definition PluginIdentity_id (p : PluginIdentity) : string :=
  content_id "plugin" (PluginIdentity_asdict p).

Record HostCompatibility : Type := mkHost {
  host_runtime : string; host_version : string; host_provider : string; host_abi : string;
}.

Definition HostCompatibility_asdict (h : HostCompatibility) : json :=
  JObj [("runtime", JStr (host_runtime h)); ("version", JStr (host_version h));
        ("provider", JStr (host_provider h)); ("abi", JStr (host_abi h))].

Record ProcessIdentity : Type := mkProcess {
  p_host : string; p_role : string; p_ordinal : Z; p_start_id : string; p_epoch : Z;
}.

Definition ProcessIdentity_key (p : ProcessIdentity) : string :=
  p_host p +:+ "/" +:+ p_role p +:+ "/" +:+ pretty (p_ordinal p) +:+ "/" +:+
  p_start_id p +:+ "/" +:+ pretty (p_epoch p).

Definition ProcessIdentity_asdict (p : ProcessIdentity) : json :=
  JObj [("host", JStr (p_host p)); ("role", JStr (p_role p));
        ("ordinal", JInt (p_ordinal p)); ("start_id", JStr (p_start_id p));
        ("epoch", JInt (p_epoch p))].

Record ResourceClaim : Type := mkClaim {
  claim_uri : string; claim_owner : string; claim_mode : string;
}.

Definition ResourceClaim_asdict (c : ResourceClaim) : json :=
  JObj [("uri", JStr (claim_uri c)); ("owner", JStr (claim_owner c));
        ("mode", JStr (claim_mode c))].

Record EvidenceObligation : Type := mkObligation {
  obligation_id : string; ob_role : string; ob_event : string;
  required_ordinals : list Z;
}.

Definition EvidenceObligation_asdict (o : EvidenceObligation) : json :=
  JObj [("obligation_id", JStr (obligation_id o)); ("role", JStr (ob_role o));
        ("event", JStr (ob_event o));
        ("required_ordinals", JArr (JInt <$> required_ordinals o))].

Record Attestation : Type := mkAttestation {
  at_plan_id : string; at_launch_id : string; at_process : ProcessIdentity;
  at_obligation_id : string; at_event : string; at_nonce : string;
  at_issued_at : Z; at_expires_at : Z; at_artifact_id : string;
  at_authority : string; at_issuer : string; at_kid : string;
  at_observed_at : Z; at_evidence_digest : string; at_artifact_digest : string;
}.

Definition Attestation_asdict (a : Attestation) : json :=
  JObj [("plan_id", JStr (at_plan_id a)); ("launch_id", JStr (at_launch_id a));
        ("process", ProcessIdentity_asdict (at_process a));
        ("obligation_id", JStr (at_obligation_id a)); ("event", JStr (at_event a));
        ("nonce", JStr (at_nonce a)); ("issued_at", JInt (at_issued_at a));
        ("expires_at", JInt (at_expires_at a)); ("artifact_id", JStr (at_artifact_id a));
        ("authority", JStr (at_authority a)); ("issuer", JStr (at_issuer a));
        ("kid", JStr (at_kid a)); ("observed_at", JInt (at_observed_at a));
        ("evidence_digest", JStr (at_evidence_digest a));
        ("artifact_digest", JStr (at_artifact_digest a))].

Record PredecessorSnapshot : Type := mkPredecessor {
  pred_generation : Z; pred_plan_id : option string;
  rendered_inputs : list (string * json);
}.

Definition PredecessorSnapshot_asdict (p : PredecessorSnapshot) : json :=
  JObj [("generation", JInt (pred_generation p)); ("plan_id", jstr_opt (pred_plan_id p));
        ("rendered_inputs", JObj (rendered_inputs p))].

Record Plan : Type := mkPlan {
  plugins : list PluginIdentity; plan_host : HostCompatibility;
  claims : list ResourceClaim; obligations : list EvidenceObligation;
  predecessor : PredecessorSnapshot; fallback_proven : bool;
}.

Definition Plan_asdict (p : Plan) : json :=
  JObj [("plugins", JArr (PluginIdentity_asdict <$> plugins p));
        ("host", HostCompatibility_asdict (plan_host p));
        ("claims", JArr (ResourceClaim_asdict <$> claims p));
        ("obligations", JArr (EvidenceObligation_asdict <$> obligations p));
        ("predecessor", PredecessorSnapshot_asdict (predecessor p));
        ("fallback_proven", JBool (fallback_proven p))].

Definition Plan_plan_id (p : Plan) : string := content_id "plan" (Plan_asdict p).

(** ** The append-only evidence store *)

Record EvidenceRecord : Type := mkRecord {
  sequence : nat; rec_kind : string; rec_payload : json;
}.

Definition EvidenceStore_append (kind : string) (payload : json)
    (records : list EvidenceRecord) : list EvidenceRecord :=
  records ++ [mkRecord (length records) kind payload].

(** ** [ReferenceModel] *)

Record ReferenceModel : Type := mkModel {
  state : State;
  generation : Z;
  store : list EvidenceRecord;
  plan : option Plan;
  launch_id : option string;
  inventory : list ProcessIdentity;
  nonces : gset string;
  accepted : list Attestation;
}.

Definition ReferenceModel_init (generation : Z) : ReferenceModel :=
  mkModel INTENT generation [] None None [] ∅ [].

Definition op (A : Type) : Type := method ReferenceModel exn A.

(** [self.field = value], one per field an operation assigns. *)
Definition set_state (s : State) : op () :=
  modify (λ m, mkModel s (generation m) (store m) (plan m) (launch_id m) (inventory m)
                 (nonces m) (accepted m)).
Definition set_generation (g : Z) : op () :=
  modify (λ m, mkModel (state m) g (store m) (plan m) (launch_id m) (inventory m)
                 (nonces m) (accepted m)).
Definition set_plan (p : Plan) : op () :=
  modify (λ m, mkModel (state m) (generation m) (store m) (Some p) (launch_id m)
                 (inventory m) (nonces m) (accepted m)).
Definition set_launch (l : string) (inv : list ProcessIdentity) : op () :=
  modify (λ m, mkModel (state m) (generation m) (store m) (plan m) (Some l) inv
                 (nonces m) (accepted m)).
Definition accept (a : Attestation) : op () :=
  modify (λ m, mkModel (state m) (generation m) (store m) (plan m) (launch_id m)
                 (inventory m) ({[at_nonce a]} ∪ nonces m) (accepted m ++ [a])).
Definition clear_accepted : op () :=
  modify (λ m, mkModel (state m) (generation m) (store m) (plan m) (launch_id m)
                 (inventory m) (nonces m) []).
Definition store_append (kind : string) (payload : json) : op () :=
  modify (λ m, mkModel (state m) (generation m)
                 (EvidenceStore_append kind payload (store m)) (plan m) (launch_id m)
                 (inventory m) (nonces m) (accepted m)).

Definition require_detail (s : State) (states : list State) : string :=
  State_value s +:+ " not in [" +:+
  join ", " ((λ s, "'" +:+ State_value s +:+ "'") <$> states) +:+ "]".

Definition _require (states : list State) : op () :=
  m ← get;
  guard_raise (negb (bool_decide (state m ∈ states)))
    (ContractError INVALID_TRANSITION (require_detail (state m) states)).

(** [assert self.plan] *)
Definition assert_plan : op Plan :=
  m ← get;
  match plan m with Some p => mret p | None => raise AssertionError end.

Definition resolve (registrations : list string) (expected_namespace : string) : op () :=
  _ ← _require [INTENT];
  match filter (λ x, x = expected_namespace) registrations with
  | [] => raise (ContractError UNKNOWN_RESOURCE expected_namespace)
  | [_] => set_state RESOLVED
  | _ => raise (ContractError AMBIGUOUS_RESOURCE expected_namespace)
  end.

(** The loop of [make_plan] over [claims]. *)
Definition normalize_claim (normalized : list (string * ResourceClaim))
    (claim : ResourceClaim) : result exn (list (string * ResourceClaim)) :=
  uri ← canonical_uri (claim_uri claim) "resource";
  _ ← match od_get uri normalized with
      | Some prior =>
          raise_if ((bool_decide (claim_mode prior = "exclusive")
                     || bool_decide (claim_mode claim = "exclusive"))
                    && negb (bool_decide (claim_owner prior = claim_owner claim)))
            (ContractError RESOURCE_CONFLICT
               (uri +:+ ": " +:+ claim_owner prior +:+ " vs " +:+ claim_owner claim))
      | None => Ok tt
      end;
  Ok (od_set uri claim normalized).

Definition normalize_claims (claims : list ResourceClaim)
    : result exn (list (string * ResourceClaim)) :=
  foldR normalize_claim [] claims.

Definition make_plan (plugins : list PluginIdentity) (host : HostCompatibility)
    (claims : list ResourceClaim) (obligations : list EvidenceObligation)
    (predecessor : PredecessorSnapshot) (fallback_proven : bool) : op Plan :=
  _ ← _require [RESOLVED];
  normalized ← lift (normalize_claims claims);
  let p := mkPlan plugins host normalized.*2 obligations predecessor fallback_proven in
  _ ← set_plan p;
  _ ← store_append "plan" (JObj [("plan_id", JStr (Plan_plan_id p))]);
  _ ← set_state PLANNED;
  mret p.

Definition operation_record (operation : string) (rest : list (string * json)) : json :=
  JObj (("operation", JStr operation) :: rest).

Definition prepare : op () :=
  _ ← _require [PLANNED];
  p ← assert_plan;
  let entry := operation_record "prepare" [("plan_id", JStr (Plan_plan_id p))] in
  _ ← set_state PREPARING;
  _ ← store_append "wal" entry;
  _ ← store_append "receipt" entry;
  set_state PREPARED.

Definition launch (launch_id : string) (inventory : list ProcessIdentity) : op () :=
  _ ← _require [PREPARED];
  _ ← assert_plan;
  let entry := operation_record "launch" [("launch_id", JStr launch_id)] in
  _ ← set_state LAUNCHING;
  _ ← set_launch launch_id inventory;
  _ ← store_append "wal" entry;
  _ ← store_append "receipt" entry;
  set_state OBSERVING.

(** The staleness test of [attest] on the plan, the artifact, the launch and the clock. *)
Definition attestation_stale (p : Plan) (launch : option string) (item : Attestation)
    (now : Z) : bool :=
  negb (bool_decide (at_plan_id item = Plan_plan_id p))
  || negb (bool_decide (at_artifact_id item ∈ PluginIdentity_id <$> plugins p))
  || negb (bool_decide (Some (at_launch_id item) = launch))
  || (at_expires_at item <? now)%Z
  || (at_issued_at item >? now)%Z.

Definition attest (item : Attestation) (now : Z) : op () :=
  _ ← _require [OBSERVING; RECONCILE];
  p ← assert_plan;
  _ ← guard_raise (negb (bool_decide (at_authority item = "host-runtime")))
        (ContractError AUTHORITY_VIOLATION (at_authority item));
  m ← get;
  _ ← guard_raise (attestation_stale p (launch_id m) item now)
        (ContractError STALE_EVIDENCE (at_nonce item));
  _ ← guard_raise (bool_decide (at_nonce item ∈ nonces m))
        (ContractError REPLAYED_NONCE (at_nonce item));
  _ ← guard_raise (negb (bool_decide
          (ProcessIdentity_key (at_process item) ∈ ProcessIdentity_key <$> inventory m)))
        (ContractError STALE_EVIDENCE (ProcessIdentity_key (at_process item)));
  _ ← accept item;
  store_append "attestation" (Attestation_asdict item).

(** [{p.ordinal: p for p in inventory if p.role == role}]: the last one wins. *)
Definition processes_of (role : string) (inv : list ProcessIdentity)
    : gmap Z ProcessIdentity :=
  foldl (λ d p, if decide (p_role p = role) then <[p_ordinal p := p]> d else d) ∅ inv.

Definition observed_by (o : EvidenceObligation) (accepted : list Attestation)
    : gset (string * Z * Z) :=
  list_to_set ((λ a, (p_role (at_process a), p_ordinal (at_process a),
                      p_epoch (at_process a))) <$>
    filter (λ a, at_obligation_id a = obligation_id o ∧ at_event a = ob_event o) accepted).

Definition obligation_complete (inv : list ProcessIdentity) (accepted : list Attestation)
    (o : EvidenceObligation) : bool :=
  let processes := processes_of (ob_role o) inv in
  forallb (λ n, bool_decide (is_Some (processes !! n))) (required_ordinals o) &&
  bool_decide (list_to_set (omap (λ n, p ← processes !! n;
                                   Some (ob_role o, n, p_epoch p)) (required_ordinals o))
               = observed_by o accepted).

Definition evidence_complete : op bool :=
  p ← assert_plan;
  m ← get;
  mret (forallb (obligation_complete (inventory m) (accepted m)) (obligations p)).

Definition commit (expected_generation : Z) : op Z :=
  _ ← _require [OBSERVING];
  p ← assert_plan;
  m ← get;
  _ ← guard_raise (negb (expected_generation =? generation m)%Z
                   || negb (pred_generation (predecessor p) =? generation m)%Z)
        (ContractError CAS_MISMATCH ("expected " +:+ pretty expected_generation +:+
                                     ", current " +:+ pretty (generation m)));
  complete ← evidence_complete;
  _ ← guard_raise (negb complete)
        (ContractError MISSING_PROCESS_EVIDENCE "all-required-process coverage failed");
  _ ← set_state COMMIT_READY;
  _ ← store_append "wal" (operation_record "commit" [("from", JInt (generation m))]);
  _ ← set_generation (generation m + 1)%Z;
  _ ← store_append "receipt"
        (operation_record "commit" [("generation", JInt (generation m + 1)%Z)]);
  _ ← set_state EFFECTIVE;
  mret (generation m + 1)%Z.

Definition rollback (reason : string) (succeeds : bool) : op () :=
  p ← assert_plan;
  _ ← set_state ROLLBACK;
  _ ← store_append "wal"
        (operation_record "rollback"
           [("reason", JStr reason);
            ("predecessor", PredecessorSnapshot_asdict (predecessor p))]);
  if succeeds then
    _ ← store_append "receipt" (operation_record "rollback" [("conditional", JBool true)]);
    set_state ROLLED_BACK
  else
    _ ← store_append "receipt" (operation_record "rollback" [("success", JBool false)]);
    _ ← set_state FAILED_SAFE;
    raise (ContractError ROLLBACK_FAILED reason).

Definition external_lease_lost : op () :=
  p ← assert_plan;
  _ ← set_state DEGRADED;
  if fallback_proven p then set_state RECONCILE
  else rollback "external lease invalid" true.

Definition recover_after_crash : op () :=
  _ ← clear_accepted;
  _ ← set_state RECONCILE;
  m ← get;
  store_append "reobserve-required" (JObj [("launch_id", jstr_opt (launch_id m))]).

(** ** Runs: any sequence of public calls, those that raise included *)

Inductive call : Type :=
  | Call_resolve (registrations : list string) (expected_namespace : string)
  | Call_make_plan (plugins : list PluginIdentity) (host : HostCompatibility)
      (claims : list ResourceClaim) (obligations : list EvidenceObligation)
      (predecessor : PredecessorSnapshot) (fallback_proven : bool)
  | Call_prepare
  | Call_launch (launch_id : string) (inventory : list ProcessIdentity)
  | Call_attest (item : Attestation) (now : Z)
  | Call_commit (expected_generation : Z)
  | Call_external_lease_lost
  | Call_rollback (reason : string) (succeeds : bool)
  | Call_recover_after_crash.

Definition perform (c : call) : op () :=
  match c with
  | Call_resolve r n => resolve r n
  | Call_make_plan pl h c o p f => _ ← make_plan pl h c o p f; mret ()
  | Call_prepare => prepare
  | Call_launch l i => launch l i
  | Call_attest a now => attest a now
  | Call_commit g => _ ← commit g; mret ()
  | Call_external_lease_lost => external_lease_lost
  | Call_rollback r s => rollback r s
  | Call_recover_after_crash => recover_after_crash
  end.

Definition run (c : call) (m : ReferenceModel) : ReferenceModel := exec (perform c) m.

Definition run_all (cs : list call) (m : ReferenceModel) : ReferenceModel :=
  foldl (λ m c, run c m) m cs.

Inductive reachable (g0 : Z) : ReferenceModel → Prop :=
  | reachable_init : reachable g0 (ReferenceModel_init g0)
  | reachable_call c m : reachable g0 m → reachable g0 (run c m).

Ltac unfold_ops :=
  unfold _require, assert_plan, set_state, set_generation, set_plan, set_launch,
    accept, clear_accepted, store_append in *.

Ltac atomic_op := unfold_ops; solve_atomic.

Lemma atomic_discard {A} (m : op A) : atomic m → atomic (_ ← m; mret ()).
Proof.
  intros Hm s e. specialize (Hm s). unfold mbind, method_bind.
  destruct (m s) as [[a|e'] s']; simpl in *; [done|]. eauto.
Qed.

Lemma resolve_atomic r n : atomic (resolve r n).
Proof. unfold resolve. atomic_op. Qed.
Lemma make_plan_atomic pl h c o p f : atomic (make_plan pl h c o p f).
Proof. unfold make_plan. atomic_op. Qed.
Lemma prepare_atomic : atomic prepare.
Proof. unfold prepare. atomic_op. Qed.
Lemma launch_atomic l i : atomic (launch l i).
Proof. unfold launch. atomic_op. Qed.
Lemma attest_atomic a now : atomic (attest a now).
Proof. unfold attest. atomic_op. Qed.
Lemma commit_atomic g : atomic (commit g).
Proof. unfold commit, evidence_complete. atomic_op. Qed.

(** ** The protocol as a step relation

    The abstract specification: one rule per effect a public call can have on
    the model, its premises the facts the call has checked. *)

Definition appended (entries : list (string * json)) (rs : list EvidenceRecord)
    : list EvidenceRecord :=
  foldl (λ rs e, EvidenceStore_append e.1 e.2 rs) rs entries.

Definition evidence_covers (m : ReferenceModel) (p : Plan) : bool :=
  forallb (obligation_complete (inventory m) (accepted m)) (obligations p).

Definition rolled_back (reason : string) (p : Plan) (receipt : json) (final : State)
    (m : ReferenceModel) : ReferenceModel :=
  mkModel final (generation m)
    (appended
       [("wal", operation_record "rollback"
                  [("reason", JStr reason);
                   ("predecessor", PredecessorSnapshot_asdict (predecessor p))]);
        ("receipt", receipt)] (store m))
    (plan m) (launch_id m) (inventory m) (nonces m) (accepted m).

Inductive step (m : ReferenceModel) : ReferenceModel → Prop :=
  | step_resolve :
      state m = INTENT →
      step m (mkModel RESOLVED (generation m) (store m) (plan m) (launch_id m)
                (inventory m) (nonces m) (accepted m))
  | step_make_plan p cs normalized :
      state m = RESOLVED →
      normalize_claims cs = Ok normalized → claims p = normalized.*2 →
      step m (mkModel PLANNED (generation m)
                (appended [("plan", JObj [("plan_id", JStr (Plan_plan_id p))])] (store m))
                (Some p) (launch_id m) (inventory m) (nonces m) (accepted m))
  | step_prepare p :
      state m = PLANNED → plan m = Some p →
      step m (mkModel PREPARED (generation m)
                (let entry := operation_record "prepare" [("plan_id", JStr (Plan_plan_id p))] in
                 appended [("wal", entry); ("receipt", entry)] (store m))
                (plan m) (launch_id m) (inventory m) (nonces m) (accepted m))
  | step_launch p l inv :
      state m = PREPARED → plan m = Some p →
      step m (mkModel OBSERVING (generation m)
                (let entry := operation_record "launch" [("launch_id", JStr l)] in
                 appended [("wal", entry); ("receipt", entry)] (store m))
                (plan m) (Some l) inv (nonces m) (accepted m))
  | step_attest p item :
      state m = OBSERVING ∨ state m = RECONCILE → plan m = Some p →
      at_authority item = "host-runtime" →
      at_plan_id item = Plan_plan_id p →
      at_artifact_id item ∈ PluginIdentity_id <$> plugins p →
      launch_id m = Some (at_launch_id item) →
      (at_issued_at item ≤ at_expires_at item)%Z →
      at_nonce item ∉ nonces m →
      ProcessIdentity_key (at_process item) ∈ ProcessIdentity_key <$> inventory m →
      step m (mkModel (state m) (generation m)
                (appended [("attestation", Attestation_asdict item)] (store m))
                (plan m) (launch_id m) (inventory m)
                ({[at_nonce item]} ∪ nonces m) (accepted m ++ [item]))
  | step_commit p :
      state m = OBSERVING → plan m = Some p →
      pred_generation (predecessor p) = generation m →
      evidence_covers m p = true →
      step m (mkModel EFFECTIVE (generation m + 1)
                (appended
                   [("wal", operation_record "commit" [("from", JInt (generation m))]);
                    ("receipt", operation_record "commit"
                                  [("generation", JInt (generation m + 1))])] (store m))
                (plan m) (launch_id m) (inventory m) (nonces m) (accepted m))
  | step_rollback p reason receipt final :
      plan m = Some p →
      (receipt, final) ∈
        [(operation_record "rollback" [("conditional", JBool true)], ROLLED_BACK);
         (operation_record "rollback" [("success", JBool false)], FAILED_SAFE)] →
      step m (rolled_back reason p receipt final m)
  | step_lease_lost p :
      plan m = Some p → fallback_proven p = true →
      step m (mkModel RECONCILE (generation m) (store m) (plan m) (launch_id m)
                (inventory m) (nonces m) (accepted m))
  | step_recover :
      step m (mkModel RECONCILE (generation m)
                (appended [("reobserve-required",
                            JObj [("launch_id", jstr_opt (launch_id m))])] (store m))
                (plan m) (launch_id m) (inventory m) (nonces m) []).

Lemma assert_plan_Ok m p m' : assert_plan m = (Ok p, m') ↔ plan m = Some p ∧ m' = m.
Proof.
  unfold assert_plan. unfold_method. simpl.
  destruct (plan m); simpl; naive_solver.
Qed.

Lemma require_Ok states m u m' :
  _require states m = (Ok u, m') ↔ state m ∈ states ∧ m' = m.
Proof.
  unfold _require. split.
  - intros H. method_inv. bool_inv. done.
  - intros [H ->]. destruct u. unfold_method. simpl. by rewrite bool_decide_true.
Qed.

Lemma step_eq m m1 m2 : step m m1 → m1 = m2 → step m m2.
Proof. by intros ? ->. Qed.
Ltac apply_step rule := eapply step_eq; [eapply rule|reflexivity].

Ltac op_inv :=
  unfold set_state, set_generation, set_plan, set_launch, accept, clear_accepted,
    store_append in *;
  method_inv;
  repeat match goal with
  | H : _require _ _ = (Ok _, _) |- _ => apply require_Ok in H; destruct H as [? ?]; subst
  | H : assert_plan _ = (Ok _, _) |- _ => apply assert_plan_Ok in H; destruct H as [? ?]; subst
  end;
  method_inv; bool_inv;
  repeat match goal with
  | H : _ ∈ [_] |- _ => apply list_elem_of_singleton in H
  end.

Lemma resolve_step r n m u m' : resolve r n m = (Ok u, m') → step m m'.
Proof.
  unfold resolve. intros H. op_inv.
  repeat case_match; op_inv; try done. by constructor.
Qed.
Lemma make_plan_step pl h c o p f m u m' : make_plan pl h c o p f m = (Ok u, m') → step m m'.
Proof.
  unfold make_plan. intros H. op_inv.
  by apply_step (step_make_plan m (mkPlan pl h x1.*2 o p f) c x1).
Qed.
Lemma prepare_step m u m' : prepare m = (Ok u, m') → step m m'.
Proof. unfold prepare. intros H. op_inv. by apply_step step_prepare. Qed.
Lemma launch_step l i m u m' : launch l i m = (Ok u, m') → step m m'.
Proof. unfold launch. intros H. op_inv. by apply_step step_launch. Qed.
Lemma attest_step a now m u m' : attest a now m = (Ok u, m') → step m m'.
Proof.
  unfold attest. intros H. op_inv. unfold attestation_stale in *. bool_inv.
  apply_step step_attest; eauto; [|lia].
  match goal with H : state m ∈ _ |- _ => revert H end.
  rewrite !elem_of_cons, elem_of_nil. naive_solver.
Qed.
Lemma commit_step g m g' m' : commit g m = (Ok g', m') → step m m'.
Proof.
  unfold commit, evidence_complete. intros H. op_inv. simplify_eq.
  apply_step step_commit; eauto.
Qed.
Lemma rollback_effect reason succeeds m :
  exec (rollback reason succeeds) m = m ∨ step m (exec (rollback reason succeeds) m).
Proof.
  unfold exec, rollback. unfold_ops. unfold_method. simpl.
  destruct (plan m) as [p|] eqn:Hp; simpl; [right|by left].
  destruct succeeds; simpl.
  - eapply step_eq; [by eapply (step_rollback _ _ reason); [|left]|done].
  - eapply step_eq; [by eapply (step_rollback _ _ reason); [|right; left]|done].
Qed.
Lemma lease_lost_effect m :
  exec external_lease_lost m = m ∨ step m (exec external_lease_lost m).
Proof.
  unfold exec, external_lease_lost. unfold_ops. unfold_method. simpl.
  destruct (plan m) as [p|] eqn:Hp; simpl; [right|by left].
  destruct (fallback_proven p) eqn:Hf; simpl.
  - by apply_step step_lease_lost.
  - unfold rollback. unfold_ops. unfold_method. simpl. rewrite ?Hp. simpl.
    eapply step_eq; [by eapply (step_rollback _ _ "external lease invalid"); [|left]|].
    unfold rolled_back. by rewrite ?Hp.
Qed.

#[export] Hint Resolve resolve_step make_plan_step prepare_step launch_step attest_step
  commit_step : ecpa.

(** Every public call, returning or raising, stutters or takes one step. *)
Lemma run_step c m : run c m = m ∨ step m (run c m).
Proof.
  unfold run. destruct c; simpl;
    try match goal with
        | |- exec ?o m = m ∨ _ =>
            let H := fresh in
            assert (atomic o) as H by
              eauto using resolve_atomic, make_plan_atomic, prepare_atomic,
                launch_atomic, attest_atomic, commit_atomic, atomic_discard;
            destruct (atomic_exec o m H) as [?|[? Hok]];
              [by left|right; revert Hok; generalize (exec o m); intros ? Hok;
               method_inv; eauto with ecpa]
        end.
  - apply lease_lost_effect.
  - apply rollback_effect.
  - right. constructor.
Qed.

Lemma reachable_ind_step g0 (P : ReferenceModel → Prop) :
  P (ReferenceModel_init g0) →
  (∀ m m', reachable g0 m → P m → step m m' → P m') →
  ∀ m, reachable g0 m → P m.
Proof.
  intros Hinit Hstep m. induction 1 as [|c m Hm IH]; [done|].
  destruct (run_step c m) as [->|Hs]; eauto.
Qed.

(** ** Invariants of every run *)

Definition bound (m : ReferenceModel) (a : Attestation) : Prop :=
  ∃ p, plan m = Some p ∧
    at_plan_id a = Plan_plan_id p ∧
    at_artifact_id a ∈ PluginIdentity_id <$> plugins p ∧
    launch_id m = Some (at_launch_id a) ∧
    ProcessIdentity_key (at_process a) ∈ ProcessIdentity_key <$> inventory m ∧
    at_authority a = "host-runtime".

Definition before_launch : list State := [INTENT; RESOLVED; PLANNED; PREPARED].

Record evidence_inv (m : ReferenceModel) : Prop := {
  ei_early : state m ∈ before_launch → accepted m = [];
  ei_bound : ∀ a, a ∈ accepted m → bound m a;
  ei_fresh : ∀ a, a ∈ accepted m → at_nonce a ∈ nonces m;
  ei_unique : NoDup (at_nonce <$> accepted m);
}.

Lemma evidence_inv_transfer m m' :
  evidence_inv m → accepted m' = accepted m → nonces m' = nonces m →
  plan m' = plan m → launch_id m' = launch_id m → inventory m' = inventory m →
  (state m' ∈ before_launch → state m ∈ before_launch) → evidence_inv m'.
Proof.
  intros [He Hb Hf Hu] Ha Hn Hp Hl Hi Hs.
  split; unfold bound in *; rewrite ?Ha, ?Hn, ?Hp, ?Hl, ?Hi; auto.
Qed.

Lemma evidence_inv_empty m : accepted m = [] → evidence_inv m.
Proof.
  intros Ha. split; rewrite ?Ha; [done|by intros ? ?%elem_of_nil..|constructor].
Qed.

Lemma step_evidence_inv m m' : evidence_inv m → step m m' → evidence_inv m'.
Proof.
  intros Hinv Hs. pose proof Hinv as [Hearly Hbound Hfresh Hunique].
  assert (∀ s, state m = s → s ∈ before_launch → accepted m = []) as Hpre
    by (intros ? <-; auto).
  destruct Hs as [Hst|p cs n Hst|p Hst|p l inv Hst|p item Hst Hp|p Hst|p r rc final Hp Hin| |].
  - apply evidence_inv_empty. eapply Hpre; [exact Hst|in_list].
  - apply evidence_inv_empty. eapply Hpre; [exact Hst|in_list].
  - apply evidence_inv_empty. eapply Hpre; [exact Hst|in_list].
  - apply evidence_inv_empty. eapply Hpre; [exact Hst|in_list].
  - split; simpl.
    + destruct Hst as [-> | ->]; not_in_list.
    + intros a [Ha|Ha%list_elem_of_singleton]%elem_of_app; subst; [by apply Hbound|].
      exists p. repeat split; done.
    + intros a [Ha|Ha%list_elem_of_singleton]%elem_of_app; subst; apply elem_of_union;
        [right; auto|left; by apply elem_of_singleton].
    + rewrite fmap_app. apply NoDup_app. repeat split; [done| |apply NoDup_singleton].
      intros n (a&->&Ha)%list_elem_of_fmap Hin%list_elem_of_singleton.
      apply Hfresh in Ha. congruence.
  - eapply evidence_inv_transfer; try done. not_in_list.
  - eapply evidence_inv_transfer; try done. simpl.
    rewrite !elem_of_cons, elem_of_nil in Hin. destruct_or?; simplify_eq; not_in_list.
  - eapply evidence_inv_transfer; try done. not_in_list.
  - by apply evidence_inv_empty.
Qed.

Lemma reachable_evidence_inv g0 m : reachable g0 m → evidence_inv m.
Proof.
  intros Hm. induction Hm using reachable_ind_step; [|eauto using step_evidence_inv].
  by apply evidence_inv_empty.
Qed.

(** ** What [evidence_complete] decides *)

(** The process an ordinal of a role stands for: the last one listed. *)
Definition current_process (role : string) (n : Z) (inv : list ProcessIdentity)
    : option ProcessIdentity :=
  last (filter (λ p, p_role p = role ∧ p_ordinal p = n) inv).

(** Every required ordinal has a current process and an accepted attestation for
    its epoch, and no accepted attestation of the obligation names anything else. *)
Definition obligation_met (inv : list ProcessIdentity) (acc : list Attestation)
    (o : EvidenceObligation) : Prop :=
  let relevant a := at_obligation_id a = obligation_id o ∧ at_event a = ob_event o in
  let matches a n p := p_role (at_process a) = ob_role o ∧
                       p_ordinal (at_process a) = n ∧ p_epoch (at_process a) = p_epoch p in
  (∀ n, n ∈ required_ordinals o → ∃ p, current_process (ob_role o) n inv = Some p ∧
     ∃ a, a ∈ acc ∧ relevant a ∧ matches a n p) ∧
  (∀ a, a ∈ acc → relevant a → ∃ n p, n ∈ required_ordinals o ∧
     current_process (ob_role o) n inv = Some p ∧ matches a n p).

Lemma processes_of_snoc role inv p :
  processes_of role (inv ++ [p]) =
  if decide (p_role p = role) then <[p_ordinal p := p]> (processes_of role inv)
  else processes_of role inv.
Proof. unfold processes_of. by rewrite foldl_app. Qed.

Lemma processes_of_lookup role inv n :
  processes_of role inv !! n = current_process role n inv.
Proof.
  unfold current_process. induction inv as [|p inv IH] using rev_ind; [done|].
  rewrite processes_of_snoc, filter_app, last_app. simpl.
  destruct (decide (p_role p = role)) as [Hr|Hr].
  - rewrite lookup_insert. rewrite filter_cons.
    destruct (decide (p_ordinal p = n)) as [Hn|Hn].
    + by rewrite decide_True.
    + rewrite decide_False by naive_solver. done.
  - rewrite filter_cons, decide_False by naive_solver. done.
Qed.

Lemma obligation_complete_met inv acc o :
  obligation_complete inv acc o = true ↔ obligation_met inv acc o.
Proof.
  unfold obligation_complete. rewrite andb_true_iff, forallb_forall, bool_decide_eq_true.
  setoid_rewrite bool_decide_eq_true. setoid_rewrite <-list_elem_of_In.
  unfold observed_by. rewrite set_eq. setoid_rewrite elem_of_list_to_set.
  setoid_rewrite list_elem_of_omap. setoid_rewrite list_elem_of_fmap.
  setoid_rewrite list_elem_of_filter. setoid_rewrite processes_of_lookup.
  unfold obligation_met. split.
  - intros [Hdef Hset]. split.
    + intros n Hn. destruct (Hdef n Hn) as [p Hp]. exists p. split; [done|].
      assert (∃ n', n' ∈ required_ordinals o ∧
        (p ← current_process (ob_role o) n' inv; Some (ob_role o, n', p_epoch p))
        = Some (ob_role o, n, p_epoch p)) as Hin by (exists n; by rewrite Hp).
      apply Hset in Hin as (a&Heq&Hrel&Ha). simplify_eq. by exists a.
    + intros a Ha Hrel.
      destruct (Hset (p_role (at_process a), p_ordinal (at_process a),
        p_epoch (at_process a))) as [_ Hin].
      destruct Hin as (n&Hn&Hp); [by exists a|].
      destruct (current_process (ob_role o) n inv) as [p|] eqn:E; [|done].
      injection Hp as Hr Ho He. rewrite <-Ho in *. by exists n, p.
  - intros [Hreq Hobs]. split.
    + intros n Hn. destruct (Hreq n Hn) as (p&Hp&_). by rewrite Hp.
    + intros [[r n] e]. split.
      * intros (n'&Hn'&Hp). destruct (Hreq n' Hn') as (p&Hcur&a&Ha&Hrel&?&?&?).
        rewrite Hcur in Hp. simplify_eq/=. exists a. split; [congruence|done].
      * intros (a&[= -> -> ->]&Hrel&Ha). destruct (Hobs a Ha Hrel) as (n'&p&Hn'&Hp&Hr&Ho&He).
        exists n'. split; [done|]. rewrite Hp. simpl. by rewrite Hr, Ho, He.
Qed.

(** ** The record log *)

Definition payload_operation (r : EvidenceRecord) : option json :=
  match rec_payload r with JObj kv => assoc "operation" kv | _ => None end.

Definition wal_before_receipt (rs : list EvidenceRecord) : Prop :=
  ∀ i r, rs !! i = Some r → rec_kind r = "receipt" →
  ∃ j r', j < i ∧ rs !! j = Some r' ∧ rec_kind r' = "wal" ∧
          payload_operation r' = payload_operation r.

Record log_wf (rs : list EvidenceRecord) : Prop := {
  lw_sequence : ∀ i r, rs !! i = Some r → sequence r = i;
  lw_paired : wal_before_receipt rs;
}.

Lemma log_wf_append kind payload rs :
  log_wf rs →
  (kind = "receipt" → ∃ r', r' ∈ rs ∧ rec_kind r' = "wal" ∧
     payload_operation r' = payload_operation (mkRecord 0 kind payload)) →
  log_wf (EvidenceStore_append kind payload rs).
Proof.
  intros [Hseq Hpair] Hnew. split.
  - intros i r [Hi|[Hlen Hi]]%lookup_app_Some; [auto|].
    apply list_lookup_singleton_Some in Hi as [? <-]. simpl. lia.
  - intros i r [Hi|[Hlen Hi]]%lookup_app_Some Hk.
    + destruct (Hpair i r Hi Hk) as (j&r'&Hj&Hr'&?). exists j, r'.
      split_and!; try naive_solver. apply lookup_app_l_Some. naive_solver.
    + apply list_lookup_singleton_Some in Hi as [Hi0 <-]. simpl in Hk.
      destruct (Hnew Hk) as (r'&[j Hj]%list_elem_of_lookup&?&?).
      pose proof (lookup_lt_Some _ _ _ Hj). exists j, r'.
      split_and!; try done; [lia|]. by apply lookup_app_l_Some.
Qed.

Lemma log_wf_event kind payload rs :
  log_wf rs → kind ≠ "receipt" → log_wf (appended [(kind, payload)] rs).
Proof. intros Hwf Hk. by apply log_wf_append. Qed.

Lemma log_wf_pair operation e1 e2 rs :
  log_wf rs →
  log_wf (appended [("wal", operation_record operation e1);
                    ("receipt", operation_record operation e2)] rs).
Proof.
  intros Hwf. apply log_wf_append.
  - by apply log_wf_append.
  - intros _. exists (mkRecord (length rs) "wal" (operation_record operation e1)).
    split; [|done]. apply elem_of_app. right. by left.
Qed.

#[export] Hint Resolve log_wf_event log_wf_pair : ecpa.

Lemma step_log_wf m m' : log_wf (store m) → step m m' → log_wf (store m').
Proof.
  intros Hwf [| | | | | |p r rc final Hp Hin| |];
    cbn [store rolled_back]; try done;
    try (by apply log_wf_event); try (by apply (log_wf_pair _ _ _ _ Hwf)).
  rewrite !elem_of_cons, elem_of_nil in Hin.
  destruct_or?; simplify_eq; apply (log_wf_pair _ _ _ _ Hwf).
Qed.

Lemma reachable_log_wf g0 m : reachable g0 m → log_wf (store m).
Proof.
  intros Hm. induction Hm using reachable_ind_step; [|eauto using step_log_wf].
  by split; intros ? ? ?.
Qed.

Lemma step_store_prefix m m' : step m m' → store m `prefix_of` store m'.
Proof.
  assert (∀ entries rs, rs `prefix_of` appended entries rs) as Happ.
  { induction entries as [|[k e] es IH]; intros rs; simpl; [done|].
    etrans; [|apply IH]. by eexists. }
  intros []; cbn [store rolled_back]; try done; apply Happ.
Qed.

(** ** Generations and recovery *)

Lemma step_generation g0 m m' :
  step m m' →
  (state m ∈ OBSERVING :: before_launch → generation m = g0) →
  generation m = g0 ∨ generation m = (g0 + 1)%Z →
  (state m' ∈ OBSERVING :: before_launch → generation m' = g0) ∧
  (generation m' = g0 ∨ generation m' = (g0 + 1)%Z) ∧
  (state m' = EFFECTIVE → generation m' = (g0 + 1)%Z ∨ state m = EFFECTIVE).
Proof.
  intros Hs Hg Hor.
  assert (∀ s, state m = s → s ∈ OBSERVING :: before_launch → generation m = g0) as Hpre
    by (intros ? <-; auto).
  destruct Hs as [Hst|p cs n Hst|p Hst|p l inv Hst|p item Hst Hp|p Hst|p r rc final Hp Hin| |];
    simpl; try (assert (generation m = g0) by (by eapply Hpre; [exact Hst|in_list]));
    split_and!; auto; try not_in_list; try (intros; lia); try done.
  - rewrite !elem_of_cons, elem_of_nil in Hin. destruct_or?; simplify_eq; not_in_list.
  - rewrite !elem_of_cons, elem_of_nil in Hin. destruct_or?; simplify_eq; done.
Qed.

Definition settled : list State := [RECONCILE; ROLLED_BACK; FAILED_SAFE].

Lemma step_settled m m' :
  step m m' → state m ∈ settled → state m' ∈ settled ∧ generation m' = generation m.
Proof.
  intros Hs Hset.
  assert (∀ s, state m = s → s ∈ settled) as Hpre by (intros ? <-; auto).
  destruct Hs as [Hst|p cs n Hst|p Hst|p l inv Hst|p item Hst Hp|p Hst|p r rc final Hp Hin| |];
    simpl; split; try done; try in_list;
    try (exfalso; specialize (Hpre _ Hst); revert Hpre; not_in_list).
  rewrite !elem_of_cons, elem_of_nil in Hin. destruct_or?; simplify_eq; in_list.
Qed.

Lemma run_all_settled cs m :
  state m ∈ settled →
  state (run_all cs m) ∈ settled ∧ generation (run_all cs m) = generation m.
Proof.
  revert m. induction cs as [|c cs IH]; intros m Hm; simpl; [done|].
  destruct (run_step c m) as [->|Hs]; [auto|].
  destruct (step_settled _ _ Hs Hm) as [Hm' Hg].
  destruct (IH _ Hm') as [? ?]. split; [done|congruence].
Qed.

(** ** Claims of a plan *)

Definition uri_canonical (u : string) : Prop := canonical_uri u "resource" = Ok u.

(** The latest claim on a URI among those already seen. *)
Definition prior_claim (u : string) (seen : list ResourceClaim) : option ResourceClaim :=
  last (filter (λ c, claim_uri c = u) seen).

Definition compatible (prior claim : ResourceClaim) : Prop :=
  claim_mode prior = "exclusive" ∨ claim_mode claim = "exclusive" →
  claim_owner prior = claim_owner claim.

Lemma canonical_uri_Ok u k v : canonical_uri u k = Ok v → v = u.
Proof. unfold canonical_uri. case_match; naive_solver. Qed.

Lemma normalize_claim_Ok n c n' :
  normalize_claim n c = Ok n' ↔
  uri_canonical (claim_uri c) ∧ n' = od_set (claim_uri c) c n ∧
  ∀ prior, od_get (claim_uri c) n = Some prior → compatible prior c.
Proof.
  unfold normalize_claim, uri_canonical, compatible. split.
  - intros H. method_inv.
    match goal with H : canonical_uri _ _ = Ok ?v |- _ =>
      assert (v = claim_uri c) as -> by eauto using canonical_uri_Ok end.
    simplify_eq. split_and!; [done..|]. intros prior Hp. rewrite Hp in *.
    method_inv. rewrite andb_false_iff, orb_false_iff, negb_false_iff,
      !bool_decide_eq_false, bool_decide_eq_true in *. tauto.
  - intros (Hu&->&Hcomp). rewrite Hu. unfold mbind, result_bind.
    destruct (od_get (claim_uri c) n) as [prior|]; [|done].
    specialize (Hcomp prior eq_refl). unfold raise_if.
    destruct (bool_decide _ || bool_decide _) eqn:E; [|done].
    rewrite orb_true_iff, !bool_decide_eq_true in E.
    by rewrite bool_decide_true by auto.
Qed.

Lemma normalize_claims_lookup cs n u :
  normalize_claims cs = Ok n → od_get u n = prior_claim u cs.
Proof.
  unfold normalize_claims. revert n. induction cs as [|c cs IH] using rev_ind; intros n.
  - by intros [= <-].
  - rewrite foldR_snoc. intros H. method_inv.
    match goal with H : normalize_claim _ _ = _ |- _ => apply normalize_claim_Ok in H end.
    destruct_and?. subst. rewrite od_get_set. unfold prior_claim.
    rewrite filter_app, filter_cons, last_app. case_decide as Hu.
    + by rewrite decide_True.
    + rewrite decide_False by done. simpl. by apply IH.
Qed.

Lemma normalize_claims_NoDup cs n : normalize_claims cs = Ok n → NoDup n.*1.
Proof.
  unfold normalize_claims. revert n. induction cs as [|c cs IH] using rev_ind; intros n.
  - intros [= <-]. constructor.
  - rewrite foldR_snoc. intros H. method_inv.
    match goal with H : normalize_claim _ _ = _ |- _ => apply normalize_claim_Ok in H end.
    destruct_and?. subst. apply od_set_NoDup. by apply IH.
Qed.

(** ** Properties *)

(** Every run of calls on the reference model is a path of an abstract step relation of
    the ECPA lifecycle. *)
Theorem reachable_refines_protocol g0 m :
  reachable g0 m → rtc step (ReferenceModel_init g0) m.
Proof.
  intros Hm. induction Hm using reachable_ind_step; [done|by eapply rtc_r].
Qed.

(** Every attestation a reachable reference model has accepted names its plan, an
    artifact of the plan's plugins, the current launch and a process key of the
    inventory, under the host-runtime authority; its nonce is recorded as spent, and no
    two accepted attestations share a nonce. *)
Theorem accepted_evidence_bound g0 m :
  reachable g0 m →
  (∀ a, a ∈ accepted m → bound m a ∧ at_nonce a ∈ nonces m) ∧
  NoDup (at_nonce <$> accepted m).
Proof.
  intros Hm. destruct (reachable_evidence_inv g0 m Hm) as [_ Hb Hf Hu]. naive_solver.
Qed.

(** commit of the reference model succeeds exactly when the model is OBSERVING, the
    expected generation is the current one and the predecessor's, and every obligation
    has the ordinals it requires observed; the result, and the WAL and receipt records
    appended, are stated exactly. *)
Theorem commit_iff_evidence_met g m g' m' :
  commit g m = (Ok g', m') ↔
  state m = OBSERVING ∧ g = generation m ∧ g' = (generation m + 1)%Z ∧
  ∃ p, plan m = Some p ∧ pred_generation (predecessor p) = generation m ∧
    (∀ o, o ∈ obligations p → obligation_met (inventory m) (accepted m) o) ∧
    m' = mkModel EFFECTIVE (generation m + 1)
           (appended [("wal", operation_record "commit" [("from", JInt (generation m))]);
                      ("receipt", operation_record "commit"
                                    [("generation", JInt (generation m + 1))])] (store m))
           (plan m) (launch_id m) (inventory m) (nonces m) (accepted m).
Proof.
  assert (∀ inv acc obs, forallb (obligation_complete inv acc) obs = true ↔
            ∀ o, o ∈ obs → obligation_met inv acc o) as Hall.
  { intros. rewrite forallb_forall. setoid_rewrite <-list_elem_of_In.
    by setoid_rewrite obligation_complete_met. }
  split.
  - unfold commit, evidence_complete. intros H. op_inv. rewrite Hall in *.
    simplify_eq. split_and!; eauto.
  - intros (Hst&->&->&p&Hp&Hg&Hobs%Hall&->).
    unfold commit, evidence_complete. unfold_ops. unfold_method. simpl.
    rewrite bool_decide_true by (rewrite Hst; in_list). simpl.
    rewrite Hp. simpl. rewrite Hg, !Z.eqb_refl. simpl. rewrite Hp. simpl.
    rewrite Hobs. simpl. by rewrite Hp.
Qed.

(** The evidence store only grows, and its sequence numbers count from 1. *)
Theorem evidence_log_append_only g0 m c :
  reachable g0 m → store m `prefix_of` store (run c m) ∧ log_wf (store (run c m)).
Proof.
  intros Hm. split.
  - destruct (run_step c m) as [->|?]; [done|by apply step_store_prefix].
  - eapply reachable_log_wf. by constructor.
Qed.

(** A model commits at most one generation. *)
Theorem at_most_one_generation g0 m :
  reachable g0 m →
  (generation m = g0 ∨ generation m = (g0 + 1)%Z) ∧
  (state m = EFFECTIVE → generation m = (g0 + 1)%Z).
Proof.
  intros Hm.
  enough ((state m ∈ OBSERVING :: before_launch → generation m = g0) ∧
          (generation m = g0 ∨ generation m = (g0 + 1)%Z) ∧
          (state m = EFFECTIVE → generation m = (g0 + 1)%Z)) by tauto.
  induction Hm as [|m m' Hm (Hpre&Hgen&Heff) Hs] using reachable_ind_step; simpl.
  - split_and!; auto; done.
  - destruct (step_generation g0 m m' Hs Hpre Hgen) as (?&?&Heff').
    split_and!; auto. intros Hst. destruct (Heff' Hst) as [|Hst']; [done|].
    specialize (Heff Hst'). destruct Hs; simpl in *; congruence || lia || auto.
Qed.

(** After recover_after_crash, no sequence of calls brings the reference model to
    EFFECTIVE or changes its generation. *)
Theorem recovered_model_never_commits m cs :
  state (run_all cs (run Call_recover_after_crash m)) ≠ EFFECTIVE ∧
  generation (run_all cs (run Call_recover_after_crash m)) = generation m.
Proof.
  destruct (run_all_settled cs (run Call_recover_after_crash m)) as [Hs Hg]; [in_list|].
  split; [|exact Hg]. intros He. rewrite He in Hs. revert Hs. not_in_list.
Qed.

(** A call that raises leaves the model as it was, except a failed rollback, which
    leaves it FAILED_SAFE. *)
Theorem failed_call_keeps_model c m e m' :
  perform c m = (Raise e, m') →
  m' = m ∨ ∃ reason, e = ContractError ROLLBACK_FAILED reason ∧ state m' = FAILED_SAFE.
Proof.
  intros H.
  assert (atomic (perform c) → m' = m) as Hat.
  { intros Ha. specialize (Ha m e). rewrite H in Ha. by apply Ha. }
  destruct c; simpl in *;
    try (left; apply Hat; eauto using resolve_atomic, make_plan_atomic, prepare_atomic,
           launch_atomic, attest_atomic, commit_atomic, atomic_discard; fail).
  - revert H. unfold external_lease_lost, rollback. unfold_ops. unfold_method. simpl.
    destruct (plan m) as [p|] eqn:Hp; simpl; [|naive_solver].
    destruct (fallback_proven p); simpl; [done|]. by rewrite Hp.
  - revert H. unfold rollback. unfold_ops. unfold_method. simpl.
    destruct (plan m) as [p|]; simpl; [|naive_solver].
    destruct succeeds; simpl; [done|]. intros [= <- <-]. right. by exists reason.
  - left. apply Hat, atomic_total. unfold recover_after_crash. unfold_ops. solve_total.
Qed.

(** Claim normalisation succeeds, with one entry per URI holding the last claim on it,
    exactly when every URI is canonical and every claim is compatible with the last
    earlier one on its URI. *)
Theorem normalize_claims_iff cs :
  (∃ n, normalize_claims cs = Ok n ∧ NoDup n.*1 ∧ ∀ u, od_get u n = prior_claim u cs) ↔
  (∀ pre c post, cs = (pre ++ c :: post)%list →
     uri_canonical (claim_uri c) ∧
     ∀ prior, prior_claim (claim_uri c) pre = Some prior → compatible prior c).
Proof.
  induction cs as [|c cs IH] using rev_ind.
  - split; [by intros _ [|? ?]|]. intros _. exists []. repeat split; constructor.
  - rewrite (every_split_snoc (λ pre c, uri_canonical (claim_uri c) ∧ ∀ prior,
      prior_claim (claim_uri c) pre = Some prior → compatible prior c)), <-IH.
    unfold normalize_claims. rewrite foldR_snoc. split.
    + intros (n&Hn&_&_). method_inv.
      match goal with H : foldR _ _ _ = Ok ?k |- _ => rename H into Hf; rename k into n0 end.
      match goal with H : normalize_claim _ _ = _ |- _ => apply normalize_claim_Ok in H end.
      destruct_and?. split.
      * exists n0. split_and!; [done|by eapply normalize_claims_NoDup|].
        intros u. by apply normalize_claims_lookup.
      * split; [done|]. intros prior. erewrite <-normalize_claims_lookup by done. auto.
    + intros [(n&Hn&Hnd&Hget) [Hu Hcomp]]. exists (od_set (claim_uri c) c n).
      assert (foldR normalize_claim [] cs ≫= (λ b, normalize_claim b c)
              = Ok (od_set (claim_uri c) c n)) as Hok.
      { rewrite Hn. unfold mbind, result_bind. apply normalize_claim_Ok.
        split_and!; [done..|]. by setoid_rewrite Hget. }
      split_and!; [done|by apply od_set_NoDup|].
      intros u. apply normalize_claims_lookup. unfold normalize_claims. by rewrite foldR_snoc.
Qed.

(** An exclusive claim after another owner's shared claim is refused, but passes when
    its own owner's shared claim comes between: only the last claim on a URI is
    compared. *)
Theorem later_shared_claim_masks_conflict u o1 o2 :
  uri_canonical u → o1 ≠ o2 →
  normalize_claims [mkClaim u o1 "shared"; mkClaim u o2 "exclusive"] =
    Raise (ContractError RESOURCE_CONFLICT (u +:+ ": " +:+ o1 +:+ " vs " +:+ o2)) ∧
  normalize_claims [mkClaim u o1 "shared"; mkClaim u o2 "shared"; mkClaim u o2 "exclusive"] =
    Ok [(u, mkClaim u o2 "exclusive")].
Proof.
  intros Hu Ho. unfold normalize_claims.
  set (c1 := mkClaim u o1 "shared"). set (c2 := mkClaim u o2 "shared").
  set (c3 := mkClaim u o2 "exclusive").
  assert (normalize_claim [] c1 = Ok [(u, c1)]) as H1 by (by apply normalize_claim_Ok).
  assert (∀ c, od_set u c [(u, c1)] = [(u, c)]) as Hset
    by (intros c; simpl; by rewrite decide_True).
  assert (normalize_claim [(u, c1)] c2 = Ok [(u, c2)]) as H2.
  { apply normalize_claim_Ok. rewrite Hset. split_and!; [done..|]. simpl.
    rewrite decide_True by done. intros prior [= <-]. by intros [?|?]. }
  assert (normalize_claim [(u, c2)] c3 = Ok [(u, c3)]) as H3.
  { apply normalize_claim_Ok. split_and!; [done|simpl; by rewrite decide_True|]. simpl.
    rewrite decide_True by done. intros prior [= <-]. done. }
  unfold foldR, mbind, result_bind. rewrite H1, H2, H3. split; [|done].
  unfold normalize_claim. change (claim_uri c3) with u. rewrite Hu.
  unfold mbind, result_bind. simpl. rewrite decide_True by done.
  change (claim_owner c1) with o1. rewrite orb_true_r, bool_decide_false; done.
Qed.

(** ** A complete activation, evaluated *)

Definition example_plugin : PluginIdentity := mkPlugin "org.vllm-hust" "bidkv" "0.2" "00ff".
Definition example_process (n : Z) : ProcessIdentity := mkProcess "h0" "worker" n "s" 1.
Definition example_claim : ResourceClaim :=
  mkClaim "urn:ecpa:resource:kv" "bidkv" "exclusive".
Definition example_obligation : EvidenceObligation :=
  mkObligation "o1" "worker" "loaded" [0%Z; 1%Z].
Definition example_predecessor : PredecessorSnapshot :=
  mkPredecessor 0 (Some "old") [("route", JStr "old")].
Definition example_plan : Plan :=
  mkPlan [example_plugin] (mkHost "vllm-hust" "0.28" "vllm" "1") [example_claim]
    [example_obligation] example_predecessor false.
Definition example_attestation (n : Z) (nonce : string) : Attestation :=
  mkAttestation (Plan_plan_id example_plan) "launch-1" (example_process n) "o1" "loaded"
    nonce 100 160 (PluginIdentity_id example_plugin) "host-runtime" "" "" 0 "" "".
Definition example_calls : list call :=
  [Call_resolve ["a"; "org.vllm-hust"] "org.vllm-hust";
   Call_make_plan (plugins example_plan) (plan_host example_plan) (claims example_plan)
     (obligations example_plan) (predecessor example_plan) false;
   Call_prepare; Call_launch "launch-1" [example_process 0; example_process 1];
   Call_attest (example_attestation 0 "n0") 120; Call_attest (example_attestation 1 "n0") 120;
   Call_attest (example_attestation 1 "n1") 120].
Definition example_model : ReferenceModel := run_all example_calls (ReferenceModel_init 0).

Lemma reachable_run_all g0 cs m : reachable g0 m → reachable g0 (run_all cs m).
Proof.
  revert m. induction cs as [|c cs IH]; intros m Hm; simpl; [done|].
  apply IH. by constructor.
Qed.

Lemma example_reachable : reachable 0 example_model.
Proof. apply reachable_run_all. constructor. Qed.

Lemma reachable_refines_protocol_witness :
  state example_model = OBSERVING ∧ rtc step (ReferenceModel_init 0) example_model.
Proof.
  split; [by vm_compute|]. apply reachable_refines_protocol, example_reachable.
Defined.

Lemma accepted_evidence_bound_witness :
  at_nonce <$> accepted example_model = ["n0"; "n1"] ∧
  (∀ a, a ∈ accepted example_model → bound example_model a ∧ at_nonce a ∈ nonces example_model) ∧
  NoDup (at_nonce <$> accepted example_model).
Proof.
  split; [by vm_compute|]. apply (accepted_evidence_bound 0), example_reachable.
Defined.

Lemma evidence_log_append_only_witness :
  rec_kind <$> store (run (Call_commit 0) example_model) =
    ["plan"; "wal"; "receipt"; "wal"; "receipt"; "attestation"; "attestation";
     "wal"; "receipt"] ∧
  store example_model `prefix_of` store (run (Call_commit 0) example_model) ∧
  log_wf (store (run (Call_commit 0) example_model)).
Proof.
  split; [by vm_compute|]. apply (evidence_log_append_only 0), example_reachable.
Defined.

Lemma at_most_one_generation_witness :
  state (run (Call_commit 0) example_model) = EFFECTIVE ∧
  (generation (run (Call_commit 0) example_model) = 0%Z ∨
   generation (run (Call_commit 0) example_model) = 1%Z) ∧
  (state (run (Call_commit 0) example_model) = EFFECTIVE →
   generation (run (Call_commit 0) example_model) = 1%Z).
Proof.
  split; [by vm_compute|].
  apply (at_most_one_generation 0). apply reachable_call, example_reachable.
Defined.

Lemma failed_call_keeps_model_witness :
  perform (Call_attest (example_attestation 1 "n1") 120) example_model =
    (Raise (ContractError REPLAYED_NONCE "n1"), example_model) ∧
  (example_model = example_model ∨ ∃ reason,
     ContractError REPLAYED_NONCE "n1" = ContractError ROLLBACK_FAILED reason ∧
     state example_model = FAILED_SAFE).
Proof.
  assert (perform (Call_attest (example_attestation 1 "n1") 120) example_model =
    (Raise (ContractError REPLAYED_NONCE "n1"), example_model)) as H by (by vm_compute).
  split; [exact H|]. exact (failed_call_keeps_model _ _ _ _ H).
Defined.

Lemma later_shared_claim_masks_conflict_witness :
  normalize_claims [mkClaim "urn:ecpa:resource:kv" "a" "shared";
                    mkClaim "urn:ecpa:resource:kv" "b" "exclusive"] =
    Raise (ContractError RESOURCE_CONFLICT "urn:ecpa:resource:kv: a vs b") ∧
  normalize_claims [mkClaim "urn:ecpa:resource:kv" "a" "shared";
                    mkClaim "urn:ecpa:resource:kv" "b" "shared";
                    mkClaim "urn:ecpa:resource:kv" "b" "exclusive"] =
    Ok [("urn:ecpa:resource:kv", mkClaim "urn:ecpa:resource:kv" "b" "exclusive")].
Proof.
  apply (later_shared_claim_masks_conflict "urn:ecpa:resource:kv" "a" "b");
    [by vm_compute|done].
Defined.
