(* ===== verification/PlanArtifact.v ===== *)
(** * Execution plan artifacts

    [src/vllm_hust_ext/plan_artifact.py]: the canonical bytes of a plan and the parser that
    accepts only them.  [json.loads] is [JsonText.loads]; reading the file
    ([read_plan_artifact]) is a record of what the system calls report.  The theorems: an
    accepted artifact is the canonical text of the plan it gives, which is well formed, and
    the canonical text of a well-formed plan is accepted and gives the plan. *)

From S2P Require Import Prelude PyStd JsonText JsonRoundTrip EcpaModel.

Local Open Scope string_scope.
Local Open Scope list_scope.

Definition SCHEMA : string := "ecpa-execution-plan/v1".

Inductive artifact_exn : Type :=
  | PlanArtifactError (detail : string)
  | ContractExn (e : EcpaModel.exn)
  | UnicodeEncodeError
  | OSError.

Record ExecutionPlanArtifact : Type := mkArtifact {
  artifact_path : string; artifact_raw : string; artifact_plan : Plan;
}.

Definition plan_artifact_value (p : Plan) : json :=
  JObj [("schema", JStr SCHEMA); ("plan_id", JStr (Plan_plan_id p)); ("plan", Plan_asdict p)].

Definition newline : string := string_of_bytes [10%N].

Definition plan_artifact_bytes (p : Plan) : string :=
  canonical_bytes (plan_artifact_value p) +:+ newline.

(** ** Validators *)

Definition _exact_fields (v : json) (fields : list string) (context : string)
    : result artifact_exn (list (string * json)) :=
  let e := PlanArtifactError (context +:+ " fields do not match the schema") in
  match v with
  | JObj kv => _ ← raise_if (negb (has_exactly fields kv)) e; Ok kv
  | _ => Raise e
  end.

(** [character.isspace()] for some character of [s] *)
Fixpoint has_space (s : string) : bool :=
  existsb (λ w, starts_with w s) py_whitespace ||
  match s with EmptyString => false | String _ s => has_space s end.

Definition _string (v : json) (context : string) : result artifact_exn string :=
  let e := PlanArtifactError (context +:+ " must be a non-empty string without whitespace") in
  match v with
  | JStr s => _ ← raise_if (bool_decide (s = "") || has_space s) e; Ok s
  | _ => Raise e
  end.

Definition _integer (v : json) (context : string) : result artifact_exn Z :=
  let e := PlanArtifactError (context +:+ " must be a non-negative integer") in
  match v with
  | JInt z => _ ← raise_if (z <? 0)%Z e; Ok z
  | _ => Raise e
  end.

Definition is_sha256 (s : string) : bool := (String.length s =? 64)%nat && string_forallb is_hex s.

Definition _sha256 (v : json) (context : string) : result artifact_exn string :=
  digest ← _string v context;
  _ ← raise_if (negb (is_sha256 digest))
        (PlanArtifactError (context +:+ " must be a lowercase SHA-256 digest"));
  Ok digest.

(** ** [parse_plan_artifact] *)

Definition indexed (context : string) (n : nat) : string := context +:+ " " +:+ pretty n.

Definition parse_plugin (item : nat * json) : result artifact_exn PluginIdentity :=
  plugin ← _exact_fields item.2 ["namespace"; "name"; "version"; "artifact_sha256"]
             (indexed "plugin" item.1);
  namespace ← _string (json_get "namespace" plugin) "plugin namespace";
  name ← _string (json_get "name" plugin) "plugin name";
  version ← _string (json_get "version" plugin) "plugin version";
  digest ← _sha256 (json_get "artifact_sha256" plugin) "plugin artifact digest";
  Ok (mkPlugin namespace name version digest).

Definition parse_host (v : json) : result artifact_exn HostCompatibility :=
  host ← _exact_fields v ["runtime"; "version"; "provider"; "abi"] "host";
  runtime ← _string (json_get "runtime" host) "host runtime";
  version ← _string (json_get "version" host) "host version";
  provider ← _string (json_get "provider" host) "host provider";
  abi ← _string (json_get "abi" host) "host abi";
  Ok (mkHost runtime version provider abi).

(** [re.fullmatch(r"urn:ecpa:resource:[a-z0-9._-]+", uri)] *)
Definition resource_char (a : Ascii.ascii) : bool :=
  is_lower a || is_digit a ||
  (let n := Ascii.N_of_ascii a in (n =? 46) || (n =? 95) || (n =? 45))%N.
Definition resource_prefix : string := "urn:ecpa:resource:".
Definition is_resource_uri (uri : string) : bool :=
  starts_with resource_prefix uri &&
  (let rest := remove_prefix resource_prefix uri in
   negb (bool_decide (rest = "")) && string_forallb resource_char rest).

Definition contract {A} (r : result EcpaModel.exn A) : result artifact_exn A :=
  match r with Ok a => Ok a | Raise e => Raise (ContractExn e) end.

Definition claim_modes : list string := ["exclusive"; "shared-read"].

Definition parse_claim (item : nat * json) : result artifact_exn ResourceClaim :=
  claim ← _exact_fields item.2 ["uri"; "owner"; "mode"] (indexed "claim" item.1);
  uri ← _string (json_get "uri" claim) "claim URI";
  _ ← contract (canonical_uri uri "resource");
  _ ← raise_if (negb (is_resource_uri uri))
        (PlanArtifactError "claim URI does not match the resource profile");
  mode ← _string (json_get "mode" claim) "claim mode";
  _ ← raise_if (negb (bool_decide (mode ∈ claim_modes)))
        (PlanArtifactError "claim mode is unsupported");
  owner ← _string (json_get "owner" claim) "claim owner";
  Ok (mkClaim uri owner mode).

(** [tuple(sorted(set(l))) == l] *)
Fixpoint strictly_sorted (l : list Z) : bool :=
  match l with
  | x :: l => match l with y :: _ => (x <? y)%Z | [] => true end && strictly_sorted l
  | [] => true
  end.

(** An array, where [required] one that is not empty. *)
Definition as_array (required : bool) (v : json) (e : artifact_exn) : result artifact_exn (list json) :=
  match v with
  | JArr l => _ ← raise_if (required && bool_decide (l = [])) e; Ok l
  | _ => Raise e
  end.

Definition as_object (v : json) (e : artifact_exn) : result artifact_exn (list (string * json)) :=
  match v with JObj kv => Ok kv | _ => Raise e end.
Definition as_bool (v : json) (e : artifact_exn) : result artifact_exn bool :=
  match v with JBool b => Ok b | _ => Raise e end.

Definition parse_obligation (item : nat * json) : result artifact_exn EvidenceObligation :=
  obligation ← _exact_fields item.2 ["obligation_id"; "role"; "event"; "required_ordinals"]
                 (indexed "obligation" item.1);
  ordinals ← as_array true (json_get "required_ordinals" obligation)
               (PlanArtifactError "evidence obligation requires target ordinals");
  parsed_ordinals ← mapR (λ ordinal, _integer ordinal "required ordinal") ordinals;
  _ ← raise_if (negb (strictly_sorted parsed_ordinals))
        (PlanArtifactError "required ordinals must be unique and sorted");
  obligation_id ← _string (json_get "obligation_id" obligation) "obligation id";
  role ← _string (json_get "role" obligation) "obligation role";
  event ← _string (json_get "event" obligation) "obligation event";
  Ok (mkObligation obligation_id role event parsed_ordinals).

Definition parse_predecessor_id (v : json) : result artifact_exn (option string) :=
  match v with
  | JNull => Ok None
  | v => s ← _string v "predecessor plan id"; Ok (Some s)
  end.

Definition parse_body (v : json) : result artifact_exn Plan :=
  body ← _exact_fields v
           ["plugins"; "host"; "claims"; "obligations"; "predecessor"; "fallback_proven"] "plan";
  items ← as_array true (json_get "plugins" body)
            (PlanArtifactError "execution plan requires at least one plugin");
  plugins ← mapR parse_plugin (enumerate items);
  _ ← raise_if (has_duplicates (PluginIdentity_id <$> plugins))
        (PlanArtifactError "execution plan contains duplicate plugins");
  host ← parse_host (json_get "host" body);
  items ← as_array false (json_get "claims" body) (PlanArtifactError "plan claims must be an array");
  claims ← mapR parse_claim (enumerate items);
  _ ← raise_if (has_duplicates (claim_uri <$> claims))
        (PlanArtifactError "execution plan contains duplicate resource claims");
  items ← as_array true (json_get "obligations" body)
            (PlanArtifactError "execution plan requires evidence obligations");
  obligations ← mapR parse_obligation (enumerate items);
  _ ← raise_if (has_duplicates (obligation_id <$> obligations))
        (PlanArtifactError "execution plan contains duplicate obligations");
  predecessor ← _exact_fields (json_get "predecessor" body)
                  ["generation"; "plan_id"; "rendered_inputs"] "predecessor";
  predecessor_plan_id ← parse_predecessor_id (json_get "plan_id" predecessor);
  rendered_inputs ← as_object (json_get "rendered_inputs" predecessor)
                      (PlanArtifactError "predecessor rendered inputs must be an object");
  fallback_proven ← as_bool (json_get "fallback_proven" body)
                      (PlanArtifactError "fallback_proven must be boolean");
  generation ← _integer (json_get "generation" predecessor) "predecessor generation";
  Ok (mkPlan plugins host claims obligations
        (mkPredecessor generation predecessor_plan_id rendered_inputs) fallback_proven).

(** [canonical_bytes(v)], whose [encode] refuses surrogates. *)
Definition encoded (v : json) : result artifact_exn string :=
  let text := canonical_bytes v in
  if has_surrogate (bytes_of_string text) then Raise UnicodeEncodeError else Ok text.

Section parse.
Context {F : FloatText}.

(** [reject_nonfinite] is a [ValueError] that the handler around [json.loads] catches
    again, as it does every error of the decoder. *)
Definition reject_nonfinite (value : string) : result artifact_exn json :=
  Raise (PlanArtifactError ("non-finite JSON number is forbidden: " +:+ value)).

Definition parse_plan_artifact (raw : string) : result artifact_exn Plan :=
  value ← match loads plain_hook reject_nonfinite raw with
          | Ok v => Ok v
          | Raise _ => Raise (PlanArtifactError "execution plan is not valid UTF-8 JSON")
          end;
  envelope ← _exact_fields value ["schema"; "plan_id"; "plan"] "artifact";
  text ← encoded (JObj envelope);
  _ ← raise_if (negb (bool_decide (raw = text +:+ newline)))
        (PlanArtifactError "execution plan artifact is not canonical");
  _ ← raise_if (negb (json_eqb (json_get "schema" envelope) (JStr SCHEMA)))
        (PlanArtifactError "unsupported execution plan schema");
  plan ← parse_body (json_get "plan" envelope);
  _ ← raise_if (negb (json_eqb (json_get "plan_id" envelope) (JStr (Plan_plan_id plan))))
        (PlanArtifactError "execution plan id does not match its content");
  Ok plan.

(** ** [read_plan_artifact]

    [os.fstat] and the reads of an open descriptor, and what the path reports. *)
Record FileStat : Type := mkStat { st_mode : Z; st_uid : Z; content : option string }.
Record PathReport : Type := mkReport {
  is_absolute : bool; is_symlink : bool;
  resolved : option string;    (* [resolve(strict=True)], [None] on [OSError] *)
  opened : option FileStat;    (* [os.open] with [O_NOFOLLOW] *)
}.

(** [stat.S_ISREG], and [stat.S_IMODE(mode) & 0o022] *)
Definition S_ISREG (mode : Z) : bool := (Z.land mode 61440 =? 32768)%Z.
Definition writable_by_others (mode : Z) : bool := negb (Z.land (Z.land mode 4095) 18 =? 0)%Z.

Definition read_plan_artifact (euid : Z) (path : string) (r : PathReport)
    : result artifact_exn ExecutionPlanArtifact :=
  _ ← raise_if (negb (is_absolute r) || is_symlink r)
        (PlanArtifactError "execution plan path must be absolute and real");
  target ← match resolved r with
           | Some target => Ok target
           | None => Raise (PlanArtifactError "execution plan path is unavailable")
           end;
  _ ← raise_if (negb (bool_decide (target = path)))
        (PlanArtifactError "execution plan path must be canonical");
  metadata ← match opened r with
             | Some metadata => Ok metadata
             | None => Raise (PlanArtifactError "cannot open execution plan artifact")
             end;
  _ ← raise_if (negb (S_ISREG (st_mode metadata)) || negb (st_uid metadata =? euid)%Z
                || writable_by_others (st_mode metadata))
        (PlanArtifactError "execution plan must be a private owned regular file");
  raw ← match content metadata with Some raw => Ok raw | None => Raise OSError end;
  plan ← parse_plan_artifact raw;
  Ok (mkArtifact path raw plan).
End parse.

(** ** Well-formed plans *)

Definition text_ok (s : string) : Prop := s ≠ "" ∧ has_space s = false.

Definition plugin_ok (p : PluginIdentity) : Prop :=
  text_ok (plugin_namespace p) ∧ text_ok (plugin_name p) ∧ text_ok (plugin_version p) ∧
  text_ok (artifact_sha256 p) ∧ is_sha256 (artifact_sha256 p) = true.

Definition host_ok (h : HostCompatibility) : Prop :=
  text_ok (host_runtime h) ∧ text_ok (host_version h) ∧ text_ok (host_provider h) ∧ text_ok (host_abi h).

Definition claim_ok (c : ResourceClaim) : Prop :=
  is_resource_uri (claim_uri c) = true ∧ claim_mode c ∈ claim_modes ∧ text_ok (claim_owner c).

Definition obligation_ok (o : EvidenceObligation) : Prop :=
  text_ok (obligation_id o) ∧ text_ok (ob_role o) ∧ text_ok (ob_event o) ∧
  required_ordinals o ≠ [] ∧ Forall (λ n, 0 ≤ n)%Z (required_ordinals o) ∧
  StronglySorted Z.lt (required_ordinals o).

Definition predecessor_ok (s : PredecessorSnapshot) : Prop :=
  (0 ≤ pred_generation s)%Z ∧ ∀ id, pred_plan_id s = Some id → text_ok id.

Record plan_ok (p : Plan) : Prop := {
  plan_plugins_ok : plugins p ≠ [] ∧ Forall plugin_ok (plugins p) ∧ NoDup (PluginIdentity_id <$> plugins p);
  plan_host_ok : host_ok (plan_host p);
  plan_claims_ok : Forall claim_ok (claims p) ∧ NoDup (claim_uri <$> claims p);
  plan_obligations_ok :
    obligations p ≠ [] ∧ Forall obligation_ok (obligations p) ∧ NoDup (obligation_id <$> obligations p);
  plan_predecessor_ok : predecessor_ok (predecessor p);
}.

(** ** What the validators let through *)

Lemma raise_if_bind {A} b (e : artifact_exn) (r : result artifact_exn A) a :
  (_ ← raise_if b e; r) = Ok a ↔ b = false ∧ r = Ok a.
Proof. destruct b; cbn; naive_solver. Qed.

Lemma _exact_fields_Ok v fields context kv :
  _exact_fields v fields context = Ok kv ↔ v = JObj kv ∧ has_exactly fields kv = true.
Proof. unfold _exact_fields. destruct v; rewrite ?raise_if_bind, ?negb_false_iff; naive_solver. Qed.

Lemma plan_string_Ok v context s : _string v context = Ok s ↔ v = JStr s ∧ text_ok s.
Proof.
  unfold _string, text_ok.
  destruct v; rewrite ?raise_if_bind, ?orb_false_iff, ?bool_decide_eq_false; naive_solver.
Qed.

Lemma _integer_Ok v context z : _integer v context = Ok z ↔ v = JInt z ∧ (0 ≤ z)%Z.
Proof. unfold _integer. destruct v; rewrite ?raise_if_bind, ?Z.ltb_ge; naive_solver. Qed.

Lemma _sha256_Ok v context s :
  _sha256 v context = Ok s ↔ v = JStr s ∧ text_ok s ∧ is_sha256 s = true.
Proof.
  unfold _sha256. rewrite result_bind_Ok. setoid_rewrite plan_string_Ok.
  setoid_rewrite raise_if_bind. setoid_rewrite negb_false_iff. naive_solver.
Qed.

Lemma strictly_sorted_spec l : strictly_sorted l = true ↔ StronglySorted Z.lt l.
Proof.
  induction l as [|x l IH]; simpl; [split; [constructor|done]|]. rewrite andb_true_iff, IH. split.
  - intros [Hx Hl]. constructor; [done|]. destruct l as [|y l]; [done|]. apply Z.ltb_lt in Hx.
    inversion Hl as [|?? _ Hy]; subst. constructor; [done|].
    eapply Forall_impl; [exact Hy|]. simpl. lia.
  - inversion 1 as [|?? Hl Hx]; subst. split; [|done]. destruct l; [done|].
    apply Z.ltb_lt. by inversion Hx.
Qed.

Lemma contract_Ok {A} (r : result EcpaModel.exn A) a : contract r = Ok a ↔ r = Ok a.
Proof. destruct r; simpl; naive_solver. Qed.

Lemma resource_uri_Ok uri kind u : canonical_uri uri kind = Ok u ↔
  u = uri ∧ starts_with ("urn:ecpa:" +:+ kind +:+ ":") uri = true ∧
  is_lowercased uri = true ∧ has_char Ascii.Space uri = false.
Proof.
  unfold canonical_uri. cbv zeta.
  destruct (starts_with _ uri), (is_lowercased uri), (has_char _ uri); simpl; naive_solver.
Qed.

Definition uri_char (a : Ascii.ascii) : bool := resource_char a || (Ascii.N_of_ascii a =? 58)%N.

Lemma uri_char_plain a :
  uri_char a = true → is_upper a = false ∧ (32 < Ascii.N_of_ascii a < 128)%N.
Proof.
  unfold uri_char, resource_char, is_upper, is_lower, is_digit. cbv zeta.
  rewrite !orb_true_iff, !andb_true_iff, andb_false_iff, !N.leb_le, !N.leb_gt, !N.eqb_eq. lia.
Qed.

Lemma whitespace_head w : w ∈ py_whitespace →
  ∃ a w', w = String a w' ∧ ¬ (32 < Ascii.N_of_ascii a < 128)%N.
Proof.
  intros Hw. assert (Forall (λ w, match w with
    | String a _ => negb ((32 <? Ascii.N_of_ascii a) && (Ascii.N_of_ascii a <? 128))%N = true
    | EmptyString => False end) py_whitespace) as Hall by (repeat constructor).
  rewrite Forall_forall in Hall. specialize (Hall w Hw). destruct w as [|a w']; [done|].
  exists a, w'. split; [done|]. apply negb_true_iff, andb_false_iff in Hall.
  rewrite !N.ltb_ge in Hall. lia.
Qed.

(** A resource URI has no capital and no white space. *)
Lemma uri_text s : string_forallb uri_char s = true →
  is_lowercased s = true ∧ has_char Ascii.Space s = false ∧ has_space s = false.
Proof.
  induction s as [|a s IH].
  { intros _. split_and!; [done..|]. vm_compute. reflexivity. }
  cbn [string_forallb has_char has_space]. unfold is_lowercased. cbn [string_forallb].
  intros [Ha (Hl & Hc & Hs)%IH]%andb_true_iff. apply uri_char_plain in Ha as [Hu Hp].
  unfold is_lowercased in Hl. rewrite Hu, Hl, Hc, Hs. split_and!; [done| |].
  - rewrite orb_false_r. apply bool_decide_eq_false. intros ->. vm_compute in Hp. naive_solver.
  - rewrite orb_false_r. apply not_true_is_false.
    rewrite existsb_exists. intros (w & Hw%list_elem_of_In & (t & Ht)%starts_with_spec).
    apply whitespace_head in Hw as (b & w' & -> & Hb). by injection Ht as <- _.
Qed.

Lemma string_forallb_impl (p r : Ascii.ascii → bool) s :
  (∀ a, p a = true → r a = true) → string_forallb p s = true → string_forallb r s = true.
Proof. intros Hpr. induction s as [|a s IH]; simpl; [done|]. rewrite !andb_true_iff. naive_solver. Qed.

Lemma resource_uri_ok uri :
  is_resource_uri uri = true → text_ok uri ∧ canonical_uri uri "resource" = Ok uri.
Proof.
  intros [(t & ->)%starts_with_spec [_ Ht]%andb_true_iff]%andb_true_iff.
  rewrite remove_prefix_app in Ht.
  assert (string_forallb uri_char (resource_prefix +:+ t) = true) as (Hl & Hc & Hs)%uri_text.
  { rewrite string_forallb_app. apply andb_true_iff. split; [done|].
    eapply string_forallb_impl, Ht. unfold uri_char. by intros a ->. }
  split; [by split|]. apply resource_uri_Ok. split_and!; [done| |done..].
  apply (starts_with_app resource_prefix).
Qed.

(** ** An accepted artifact *)

Lemma item_text (v : json) fields context kv kv' :
  _exact_fields v fields context = Ok kv → unique_keys v → NoDup fields →
  Forall2 (λ f p, p.1 = f ∧ same_value (json_get f kv) p.2) fields kv' → same_value v (JObj kv').
Proof. intros H Hu Hf Hall. apply _exact_fields_Ok in H as [-> Hex]. by apply (same_value_fields fields). Qed.

Lemma exact_unique v fields context kv k :
  _exact_fields v fields context = Ok kv → unique_keys v → unique_keys (json_get k kv).
Proof. intros H. apply _exact_fields_Ok in H as [-> _]. apply unique_keys_get. Qed.

(** Read the fields of an object off the run of its parser. *)
Ltac fields_inv :=
  repeat match goal with
  | H : mbind _ _ = Ok _ |- _ => apply result_bind_Ok in H as (? & ? & ?)
  | H : raise_if _ _ = Ok _ |- _ => apply raise_if_Ok in H
  | H : Ok _ = Ok _ |- _ => injection H as ?
  | H : _string _ _ = Ok _ |- _ => apply plan_string_Ok in H as [? ?]
  | H : _sha256 _ _ = Ok _ |- _ => apply _sha256_Ok in H as (? & ? & ?)
  | H : _integer _ _ = Ok _ |- _ => apply _integer_Ok in H as [? ?]
  | H : contract _ = Ok _ |- _ => apply contract_Ok in H
  end.

(** The text of an object is the text of its fields. *)
Ltac same_fields :=
  match goal with
  | H : _exact_fields ?v _ _ = Ok _ |- same_value ?v _ =>
      eapply (item_text _ _ _ _ _ H); [assumption|by apply (bool_decide_unpack _)|]
  end;
  repeat (apply Forall2_cons_2; [split; [reflexivity|cbn [snd]]|]); try apply Forall2_nil_2;
  repeat match goal with H : json_get ?f ?kv = _ |- same_value (json_get ?f ?kv) _ => rewrite H; clear H end;
  try reflexivity; try assumption.

Lemma parse_plugin_text item p :
  unique_keys item.2 → parse_plugin item = Ok p →
  same_value item.2 (PluginIdentity_asdict p) ∧ plugin_ok p.
Proof.
  intros Hu H. unfold parse_plugin in H. fields_inv; subst p. split; [|by split_and!].
  unfold PluginIdentity_asdict. same_fields.
Qed.

Lemma as_array_Ok required v e l :
  as_array required v e = Ok l ↔ v = JArr l ∧ (required = true → l ≠ []).
Proof.
  unfold as_array. destruct v; try naive_solver.
  rewrite raise_if_bind, andb_false_iff, bool_decide_eq_false. destruct required; naive_solver.
Qed.

Lemma parse_host_text v h :
  unique_keys v → parse_host v = Ok h → same_value v (HostCompatibility_asdict h) ∧ host_ok h.
Proof.
  intros Hu H. unfold parse_host in H. fields_inv; subst h. split; [|by split_and!].
  unfold HostCompatibility_asdict. same_fields.
Qed.

Lemma parse_claim_text item c :
  unique_keys item.2 → parse_claim item = Ok c →
  same_value item.2 (ResourceClaim_asdict c) ∧ claim_ok c.
Proof.
  intros Hu H. unfold parse_claim in H. fields_inv; subst c. bool_inv. split; [|by split_and!].
  unfold ResourceClaim_asdict. same_fields.
Qed.

Lemma mapR_integers l zs context :
  mapR (λ v, _integer v context) l = Ok zs → l = JInt <$> zs ∧ Forall (λ n, 0 ≤ n)%Z zs.
Proof.
  rewrite mapR_Ok. induction 1 as [|v z l zs Hv _ [-> IH]]; [done|].
  apply _integer_Ok in Hv as [-> ?]. split; [done|by constructor].
Qed.

Lemma parse_obligation_text item o :
  unique_keys item.2 → parse_obligation item = Ok o →
  same_value item.2 (EvidenceObligation_asdict o) ∧ obligation_ok o.
Proof.
  intros Hu H. unfold parse_obligation in H. fields_inv; subst o. bool_inv.
  match goal with H : mapR _ _ = Ok _ |- _ => apply mapR_integers in H as [Hl Hz] end.
  match goal with H : strictly_sorted _ = true |- _ => apply strictly_sorted_spec in H end.
  match goal with H : as_array _ _ _ = Ok _ |- _ => apply as_array_Ok in H as [Hget Hne] end.
  subst. split.
  - unfold EvidenceObligation_asdict. same_fields.
  - split_and!; cbn; try done. intros ->. by apply Hne.
Qed.

Lemma parse_items {A} (parse : nat * json → result artifact_exn A) (Q : json → A → Prop) l ps :
  (∀ item p, unique_keys item.2 → parse item = Ok p → Q item.2 p) →
  Forall unique_keys l → mapR parse (enumerate l) = Ok ps → Forall2 Q l ps.
Proof.
  intros HQ Hl. rewrite mapR_Ok. unfold enumerate. generalize 0%nat. revert ps.
  induction Hl as [|v l Hv _ IH]; intros ps n H; inversion H; subst; constructor; [by eapply (HQ (_, v))|eauto].
Qed.

Lemma parse_array {A} (parse : nat * json → result artifact_exn A) (asdict : A → json) (ok : A → Prop)
    required v e l ps :
  (∀ item p, unique_keys item.2 → parse item = Ok p → same_value item.2 (asdict p) ∧ ok p) →
  unique_keys v → as_array required v e = Ok l → mapR parse (enumerate l) = Ok ps →
  same_value v (JArr (asdict <$> ps)) ∧ Forall ok ps ∧ (required = true → ps ≠ []).
Proof.
  intros HQ Hu Ha Hps. apply as_array_Ok in Ha as [-> Hr]. apply unique_keys_arr in Hu.
  pose proof (parse_items parse (λ v p, same_value v (asdict p) ∧ ok p) l ps HQ Hu Hps) as Hall.
  split_and!.
  - apply same_value_arr, Forall2_fmap_r. eapply Forall2_impl; [exact Hall|]. by intros ?? [].
  - eapply Forall2_Forall_r; [exact Hall|]. apply Forall_forall. by intros ?? ? [].
  - intros Hreq ->. by apply (Hr Hreq); inversion Hall.
Qed.

Lemma parse_predecessor_id_text v o :
  parse_predecessor_id v = Ok o → v = jstr_opt o ∧ ∀ id, o = Some id → text_ok id.
Proof.
  intros H. destruct v; cbn [parse_predecessor_id] in H; fields_inv; simplify_eq; naive_solver.
Qed.

Lemma as_object_Ok v e kv : as_object v e = Ok kv ↔ v = JObj kv.
Proof. destruct v; naive_solver. Qed.
Lemma as_bool_Ok v e b : as_bool v e = Ok b ↔ v = JBool b.
Proof. destruct v; naive_solver. Qed.

Ltac array_inv text :=
  match goal with
  | Hx : _exact_fields ?v _ _ = Ok ?kv, Hu : unique_keys ?v,
    Ha : as_array _ (json_get ?k ?kv) _ = Ok ?l, H : mapR _ (enumerate ?l) = Ok _ |- _ =>
      destruct (parse_array _ _ _ _ _ _ _ _ text (exact_unique _ _ _ _ k Hx Hu) Ha H) as (? & ? & ?);
      clear Ha H
  end.

Lemma parse_body_text v p :
  unique_keys v → parse_body v = Ok p → same_value v (Plan_asdict p) ∧ plan_ok p.
Proof.
  intros Hu H. unfold parse_body in H. fields_inv; subst p.
  repeat match goal with
  | H : as_object _ _ = Ok _ |- _ => apply as_object_Ok in H
  | H : as_bool _ _ = Ok _ |- _ => apply as_bool_Ok in H
  | H : parse_predecessor_id _ = Ok _ |- _ => apply parse_predecessor_id_text in H as [? ?]
  | H : has_duplicates _ = false |- _ => apply has_duplicates_false in H
  | H : parse_host _ = Ok _ |- _ => apply parse_host_text in H as [? ?]; [|by eapply exact_unique]
  end.
  array_inv parse_plugin_text. array_inv parse_claim_text. array_inv parse_obligation_text.
  split; [|split; cbn; [eauto 6|auto|auto|eauto 6|by split]].
  match goal with |- same_value _ (Plan_asdict (mkPlan _ _ _ _ ?s _)) =>
    assert (same_value (json_get "predecessor" x) (PredecessorSnapshot_asdict s)) end.
  { unfold PredecessorSnapshot_asdict. cbn. assert (unique_keys (json_get "predecessor" x)) by (by eapply exact_unique).
    same_fields. }
  unfold Plan_asdict. cbn [plugins plan_host claims obligations predecessor fallback_proven]. same_fields.
Qed.

Section theorems.
Context {F : FloatText}.

Lemma parsed_artifact_canonical (raw : string) (p : Plan) :
  parse_plan_artifact raw = Ok p → raw = plan_artifact_bytes p ∧ plan_ok p.
Proof.
  unfold parse_plan_artifact. destruct (loads _ _ raw) as [value|e] eqn:Hvalue; [|done].
  apply loads_unique in Hvalue; [|apply plain_hook_unique|done]. intros H. cbn [mbind result_bind] in H. fields_inv. subst.
  unfold encoded in *. case_match; simplify_eq. bool_inv. subst raw.
  match goal with H : parse_body _ = Ok _ |- _ =>
    apply parse_body_text in H as [Hbody Hok]; [|by eapply exact_unique] end.
  split; [|done]. unfold plan_artifact_bytes, canonical_bytes. f_equal.
  match goal with H : _exact_fields _ _ _ = Ok _ |- _ => pose proof H as Hx end.
  apply _exact_fields_Ok in Hx as [-> _].
  repeat match goal with H : json_eqb _ _ = true |- _ => apply json_eqb_str in H end.
  apply same_value_text. unfold plan_artifact_value. change (same_value (JObj x) (JObj [("schema", JStr SCHEMA); ("plan_id", JStr (Plan_plan_id p)); ("plan", Plan_asdict p)])).
  same_fields.
Qed.

Lemma not_writable mode :
  writable_by_others mode = false → Z.testbit mode 1 = false ∧ Z.testbit mode 4 = false.
Proof.
  unfold writable_by_others. intros H%negb_false_iff%Z.eqb_eq.
  assert (∀ n, Z.testbit (Z.land (Z.land mode 4095) 18) n = false) as Hbit
    by (intros; rewrite H; apply Z.testbit_0_l).
  split; [specialize (Hbit 1%Z)|specialize (Hbit 4%Z)]; rewrite !Z.land_spec in Hbit;
    [change (Z.testbit 4095 1) with true in Hbit; change (Z.testbit 18 1) with true in Hbit
    |change (Z.testbit 4095 4) with true in Hbit; change (Z.testbit 18 4) with true in Hbit];
    by rewrite !andb_true_r in Hbit.
Qed.

(** C24: read_plan_artifact returns only for an absolute canonical path to a regular
    file of the effective user that neither group nor others may write, whose bytes are
    the canonical text of the plan it returns; that plan is well formed: its texts,
    digests, resource URIs, modes and ordinals are valid, and plugins, claims and
    obligations are not repeated. *)
Theorem accepted_artifact_is_canonical (euid : Z) (path : string) (r : PathReport) (a : ExecutionPlanArtifact) :
  read_plan_artifact euid path r = Ok a →
  artifact_raw a = plan_artifact_bytes (artifact_plan a) ∧ plan_ok (artifact_plan a) ∧
  is_absolute r = true ∧ resolved r = Some path ∧
  ∃ metadata, opened r = Some metadata ∧ content metadata = Some (artifact_raw a) ∧
    st_uid metadata = euid ∧ S_ISREG (st_mode metadata) = true ∧
    Z.testbit (st_mode metadata) 1 = false ∧ Z.testbit (st_mode metadata) 4 = false.
Proof.
  unfold read_plan_artifact. intros H. method_inv. bool_inv. repeat case_match; simplify_eq. cbn.
  match goal with H : parse_plan_artifact _ = Ok _ |- _ => apply parsed_artifact_canonical in H as [? ?] end.
  match goal with H : writable_by_others _ = false |- _ => apply not_writable in H as [? ?] end.
  split_and!; eauto 10.
Qed.

(** ** The round trip *)

Lemma sort_keys_arr {A} (f : A → json) l : sort_keys (JArr (f <$> l)) = JArr ((λ x, sort_keys (f x)) <$> l).
Proof. cbn [sort_keys]. by rewrite <-list_fmap_compose. Qed.

Lemma _string_ok s context : text_ok s → _string (JStr s) context = Ok s.
Proof. intros. by apply plan_string_Ok. Qed.
Lemma _integer_ok z context : (0 ≤ z)%Z → _integer (JInt z) context = Ok z.
Proof. intros. by apply _integer_Ok. Qed.
Lemma _sha256_ok s context : text_ok s → is_sha256 s = true → _sha256 (JStr s) context = Ok s.
Proof. intros. by apply _sha256_Ok. Qed.

Lemma exact_fields_sorted fields context kv :
  has_exactly fields kv = true →
  _exact_fields (sort_keys (JObj kv)) fields context = Ok (sorted_members kv).
Proof.
  intros H. apply _exact_fields_Ok. split; [done|]. rewrite has_exactly_spec in *. intros k.
  rewrite <-H. unfold sorted_members. by rewrite sort_on_perm, keys_map_snd.
Qed.

(** Run the parser of an object whose fields are known. *)
Ltac run_parser :=
  rewrite exact_fields_sorted by reflexivity; cbn [mbind result_bind];
  rewrite !json_get_sorted by (by apply (bool_decide_unpack _));
  repeat first [rewrite json_get_here|rewrite json_get_later by done];
  cbn [sort_keys].

Lemma parse_plugin_ok n p : plugin_ok p → parse_plugin (n, sort_keys (PluginIdentity_asdict p)) = Ok p.
Proof.
  intros (H1 & H2 & H3 & H4 & H5). destruct p as [a b c d].
  cbn [plugin_namespace plugin_name plugin_version artifact_sha256] in *.
  unfold parse_plugin. cbn [snd]. unfold PluginIdentity_asdict. run_parser.
  rewrite !_string_ok by done. cbn [mbind result_bind]. by rewrite _sha256_ok.
Qed.

Lemma parse_host_ok h : host_ok h → parse_host (sort_keys (HostCompatibility_asdict h)) = Ok h.
Proof.
  intros (H1 & H2 & H3 & H4). destruct h as [a b c d]. cbn [host_runtime host_version host_provider host_abi] in *.
  unfold parse_host, HostCompatibility_asdict. run_parser.
  by rewrite !_string_ok.
Qed.

Lemma parse_claim_ok n c : claim_ok c → parse_claim (n, sort_keys (ResourceClaim_asdict c)) = Ok c.
Proof.
  intros (H1 & H2 & H3). destruct c as [u o m]. cbn [claim_uri claim_mode claim_owner] in *.
  destruct (resource_uri_ok u H1) as [Hu Hc].
  unfold parse_claim, ResourceClaim_asdict. cbn [snd]. run_parser. rewrite (_string_ok u) by done. cbn [mbind result_bind].
  rewrite Hc. cbn [contract]. rewrite H1. cbn [negb raise_if].
  assert (text_ok m) by (by apply elem_of_cons in H2 as [->|[->|[]%elem_of_nil]%elem_of_cons]).
  rewrite (_string_ok m) by done. cbn [mbind result_bind]. rewrite bool_decide_eq_true_2 by done. 
  cbn [negb raise_if]. by rewrite _string_ok.
Qed.

Lemma mapR_ok {A B} (f : A → result artifact_exn B) (g : B → A) l :
  Forall (λ y, f (g y) = Ok y) l → mapR f (g <$> l) = Ok l.
Proof. intros H. apply mapR_Ok, Forall2_fmap_l. by induction H; constructor. Qed.

Lemma as_array_ok required l e : (required = true → l ≠ []) → as_array required (JArr l) e = Ok l.
Proof. intros. by apply as_array_Ok. Qed.

Lemma parse_obligation_ok n o :
  obligation_ok o → parse_obligation (n, sort_keys (EvidenceObligation_asdict o)) = Ok o.
Proof.
  intros (H1 & H2 & H3 & Hne & Hz & Hs). destruct o as [i r e l].
  cbn [obligation_id ob_role ob_event required_ordinals] in *.
  unfold parse_obligation, EvidenceObligation_asdict. cbn [snd]. run_parser.
  cbn [obligation_id ob_role ob_event required_ordinals]. assert (map sort_keys (JInt <$> l) = JInt <$> l) as ->
    by (clear; induction l as [|z l IH]; [done|exact (f_equal (cons (JInt z)) IH)]).
  rewrite as_array_ok by (intros _; by destruct l). cbn [mbind result_bind].
  rewrite mapR_ok by (eapply Forall_impl; [exact Hz|]; intros; by apply _integer_ok).
  cbn [mbind result_bind]. apply strictly_sorted_spec in Hs as ->. cbn [negb raise_if].
  by rewrite !_string_ok.
Qed.

Lemma parse_items_ok {A} (parse : nat * json → result artifact_exn A) (asdict : A → json) (ok : A → Prop) l :
  (∀ n x, ok x → parse (n, sort_keys (asdict x)) = Ok x) → Forall ok l →
  mapR parse (enumerate (map sort_keys (asdict <$> l))) = Ok l.
Proof.
  intros Hp Hl. apply mapR_Ok. unfold enumerate. generalize 0%nat.
  induction Hl as [|x l Hx _ IH]; intros n; [constructor|]. cbn. constructor; [by apply Hp|]. apply IH.
Qed.

Lemma items_not_empty {A} (asdict : A → json) l : l ≠ [] → map sort_keys (asdict <$> l) ≠ [].
Proof. by destruct l. Qed.

Lemma parse_body_ok p :
  plan_ok p → sorted_members (rendered_inputs (predecessor p)) = rendered_inputs (predecessor p) →
  parse_body (sort_keys (Plan_asdict p)) = Ok p.
Proof.
  intros [(Hp1 & Hp2 & Hp3) Hh (Hc1 & Hc2) (Ho1 & Ho2 & Ho3) [Hg Hi]] Hinputs.
  destruct p as [ps h cs os [g i r] f].
  cbn [plugins plan_host claims obligations predecessor fallback_proven
       pred_generation pred_plan_id rendered_inputs] in *.
  unfold parse_body, Plan_asdict. cbn [plugins plan_host claims obligations predecessor fallback_proven].
  run_parser.
  rewrite (as_array_ok true (map sort_keys (PluginIdentity_asdict <$> ps))) by (intros _; by apply items_not_empty). cbn [mbind result_bind].
  rewrite (parse_items_ok parse_plugin PluginIdentity_asdict plugin_ok) by (done || apply parse_plugin_ok). cbn [mbind result_bind].
  rewrite (proj2 (has_duplicates_false _) Hp3), parse_host_ok by done. cbn [raise_if mbind result_bind].
  rewrite (as_array_ok false) by done. cbn [mbind result_bind].
  rewrite (parse_items_ok parse_claim ResourceClaim_asdict claim_ok) by (done || apply parse_claim_ok). cbn [mbind result_bind].
  rewrite (proj2 (has_duplicates_false _) Hc2). cbn [raise_if mbind result_bind].
  rewrite (as_array_ok true) by (intros _; by apply items_not_empty). cbn [mbind result_bind].
  rewrite (parse_items_ok parse_obligation EvidenceObligation_asdict obligation_ok) by (done || apply parse_obligation_ok). cbn [mbind result_bind].
  rewrite (proj2 (has_duplicates_false _) Ho3). cbn [raise_if mbind result_bind].
  unfold PredecessorSnapshot_asdict. cbn [pred_generation pred_plan_id rendered_inputs].
  run_parser.
  assert (parse_predecessor_id (sort_keys (jstr_opt i)) = Ok i) as ->.
  { destruct i as [id|]; [|done]. cbn [jstr_opt sort_keys parse_predecessor_id]. by rewrite _string_ok by auto. }
  cbn [mbind result_bind as_object as_bool]. fold (sorted_members r). rewrite Hinputs.
  cbn [mbind result_bind]. by rewrite _integer_ok.
Qed.

(** C25: The canonical bytes of a well-formed plan (without floats, and with the keys of
    its rendered inputs sorted) are accepted by parse_plan_artifact, which returns that
    plan. *)
Theorem artifact_round_trip (p : Plan) :
  plan_ok p → printable (plan_artifact_value p) →
  sorted_members (rendered_inputs (predecessor p)) = rendered_inputs (predecessor p) →
  has_surrogate (bytes_of_string (canonical_bytes (plan_artifact_value p))) = false →
  parse_plan_artifact (plan_artifact_bytes p) = Ok p.
Proof.
  intros Hok Hprint Hinputs Hencodes. unfold parse_plan_artifact, plan_artifact_bytes, canonical_bytes in *.
  rewrite (loads_dumps plain_hook reject_nonfinite (λ kv, plain_hook_ok kv)) by done.
  cbn [mbind result_bind]. unfold plan_artifact_value. rewrite exact_fields_sorted by reflexivity.
  cbn [mbind result_bind].
  assert (encoded (JObj (sorted_members [("schema", JStr SCHEMA); ("plan_id", JStr (Plan_plan_id p)); ("plan", Plan_asdict p)]))
          = Ok (dumps false (plan_artifact_value p))) as Henc.
  { unfold encoded, canonical_bytes.
    change (JObj (sorted_members [("schema", JStr SCHEMA); ("plan_id", JStr (Plan_plan_id p)); ("plan", Plan_asdict p)])) with (sort_keys (plan_artifact_value p)).
    by rewrite sort_keys_text, Hencodes. }
  rewrite Henc. cbn [mbind result_bind]. rewrite bool_decide_eq_true_2 by done. cbn [negb raise_if].
  rewrite !json_get_sorted by (by apply (bool_decide_unpack _)).
  repeat first [rewrite json_get_here|rewrite json_get_later by done].
  rewrite parse_body_ok by done. cbn [sort_keys mbind result_bind json_eqb].
  by rewrite !bool_decide_eq_true_2.
Qed.

(** ** Errors *)

Definition artifact_error (e : artifact_exn) : Prop :=
  (∃ detail, e = PlanArtifactError detail) ∨ e = UnicodeEncodeError ∨
  ∃ uri, e = ContractExn (ContractError UNKNOWN_RESOURCE uri) ∧ is_resource_uri uri = false.

Lemma artifact_error_plain detail : artifact_error (PlanArtifactError detail).
Proof. left. eauto. Qed.
Lemma artifact_error_unicode : artifact_error UnicodeEncodeError.
Proof. right. by left. Qed.
#[local] Hint Resolve artifact_error_plain artifact_error_unicode : raises.

Lemma contract_errors uri : raises_only artifact_error (contract (canonical_uri uri "resource")).
Proof.
  intros e. destruct (is_resource_uri uri) eqn:Hu.
  { apply resource_uri_ok in Hu as [_ Hc]. by rewrite Hc. }
  unfold canonical_uri. cbv zeta. case_match; [|done]. intros [= <-]. right. right. eauto.
Qed.
#[local] Hint Resolve contract_errors : raises.

Lemma _exact_fields_errors v fields context : raises_only artifact_error (_exact_fields v fields context).
Proof. unfold _exact_fields. solve_raises. Qed.
Lemma _string_errors v context : raises_only artifact_error (_string v context).
Proof. unfold _string. solve_raises. Qed.
Lemma _integer_errors v context : raises_only artifact_error (_integer v context).
Proof. unfold _integer. solve_raises. Qed.
#[local] Hint Resolve _exact_fields_errors _string_errors _integer_errors : raises.
Lemma _sha256_errors v context : raises_only artifact_error (_sha256 v context).
Proof. unfold _sha256. solve_raises. Qed.
Lemma as_array_errors required v detail :
  raises_only artifact_error (as_array required v (PlanArtifactError detail)).
Proof. unfold as_array. solve_raises. Qed.
Lemma as_object_errors v detail : raises_only artifact_error (as_object v (PlanArtifactError detail)).
Proof. unfold as_object. solve_raises. Qed.
Lemma as_bool_errors v detail : raises_only artifact_error (as_bool v (PlanArtifactError detail)).
Proof. unfold as_bool. solve_raises. Qed.
#[local] Hint Resolve _sha256_errors as_array_errors as_object_errors as_bool_errors : raises.
Lemma parse_plugin_errors item : raises_only artifact_error (parse_plugin item).
Proof. unfold parse_plugin. solve_raises. Qed.
Lemma parse_host_errors v : raises_only artifact_error (parse_host v).
Proof. unfold parse_host. solve_raises. Qed.
Lemma parse_claim_errors item : raises_only artifact_error (parse_claim item).
Proof. unfold parse_claim. solve_raises. Qed.
Lemma parse_obligation_errors item : raises_only artifact_error (parse_obligation item).
Proof. unfold parse_obligation. solve_raises. Qed.
Lemma parse_predecessor_id_errors v : raises_only artifact_error (parse_predecessor_id v).
Proof. unfold parse_predecessor_id. solve_raises. Qed.
#[local] Hint Resolve parse_plugin_errors parse_host_errors parse_claim_errors parse_obligation_errors
  parse_predecessor_id_errors : raises.
Lemma parse_body_errors v : raises_only artifact_error (parse_body v).
Proof. unfold parse_body. solve_raises. Qed.
Lemma encoded_errors v : raises_only artifact_error (encoded v).
Proof. unfold encoded. cbv zeta. case_match; [|done]. intros e [= <-]. apply artifact_error_unicode. Qed.
#[local] Hint Resolve parse_body_errors encoded_errors : raises.

(** Whatever bytes it is given, parse_plan_artifact returns or raises PlanArtifactError,
    or UnicodeEncodeError, or the ContractError of canonical_uri on a claim whose URI is
    no resource URI. *)
Theorem artifact_errors (raw : string) (e : artifact_exn) :
  parse_plan_artifact raw = Raise e →
  (∃ detail, e = PlanArtifactError detail) ∨ e = UnicodeEncodeError ∨
  (∃ uri, e = ContractExn (ContractError UNKNOWN_RESOURCE uri) ∧ is_resource_uri uri = false).
Proof.
  revert e. change (raises_only artifact_error (parse_plan_artifact raw)).
  unfold parse_plan_artifact. solve_raises.
Qed.
End theorems.

Module Example.
#[local] Instance float_text : FloatText := id.

Definition digest : string := string_of_bytes (repeat 97%N 64).
Definition a_plan : Plan :=
  mkPlan [mkPlugin "org.vllm" "hust" "1.0" digest] (mkHost "vllm-hust" "0.28" "vllm" "1")
    [mkClaim "urn:ecpa:resource:runtime.entry" "hust" "exclusive"]
    [mkObligation "o1" "worker" "loaded" [0; 2]%Z]
    (mkPredecessor 3 None [("args", JArr [JStr "--x"]); ("env", JObj [])]) true.

Definition a_report : PathReport :=
  mkReport true false (Some "/run/plan.json") (Some (mkStat 33152 1000 (Some (plan_artifact_bytes a_plan)))).

Lemma a_plan_ok : plan_ok a_plan.
Proof.
  split; cbn.
  - split_and!; [done| |apply NoDup_singleton].
    repeat constructor; vm_compute; done.
  - repeat split; vm_compute; done.
  - split; [|apply NoDup_singleton]. repeat constructor; vm_compute; done.
  - split_and!; [done| |apply NoDup_singleton]. repeat constructor; vm_compute; done.
  - split; [done|]. done.
Qed.

Lemma a_plan_read :
  read_plan_artifact 1000 "/run/plan.json" a_report =
  Ok (mkArtifact "/run/plan.json" (plan_artifact_bytes a_plan) a_plan).
Proof. vm_compute. reflexivity. Qed.

Lemma a_plan_printable : printable (plan_artifact_value a_plan).
Proof.
  apply printable_obj. split; [by apply (bool_decide_unpack _)|].
  repeat apply Forall_cons_2; try apply Forall_nil_2; (split; [vm_compute; done|cbn [snd]]).
  1, 2: vm_compute; done.
  cbn -[utf8_string int_ok digest].
  repeat match goal with |- _ ∧ _ => split end;
    first [exact I|by apply (bool_decide_unpack _)|apply Nat.leb_le; vm_compute; reflexivity|vm_compute; reflexivity].
Qed.

Lemma accepted_artifact_is_canonical_witness :
  artifact_raw (mkArtifact "/run/plan.json" (plan_artifact_bytes a_plan) a_plan) = plan_artifact_bytes a_plan ∧
  plan_ok a_plan.
Proof.
  destruct (accepted_artifact_is_canonical 1000 "/run/plan.json" a_report _ a_plan_read) as (H & Hok & _).
  by split.
Defined.

Lemma artifact_round_trip_witness : parse_plan_artifact (plan_artifact_bytes a_plan) = Ok a_plan.
Proof.
  apply artifact_round_trip; [apply a_plan_ok|apply a_plan_printable|vm_compute; reflexivity|].
  vm_compute. reflexivity.
Defined.

(** A claim outside the resource profile: the error of [canonical_uri], not [PlanArtifactError]. *)
Definition foreign_claim : string :=
  plan_artifact_bytes (mkPlan (plugins a_plan) (plan_host a_plan) [mkClaim "runtime.entry" "hust" "exclusive"]
    (obligations a_plan) (predecessor a_plan) true).

Lemma foreign_claim_refused :
  parse_plan_artifact foreign_claim = Raise (ContractExn (ContractError UNKNOWN_RESOURCE "runtime.entry")).
Proof. vm_compute. reflexivity. Qed.

Lemma artifact_errors_witness :
  (∃ detail, ContractExn (ContractError UNKNOWN_RESOURCE "runtime.entry") = PlanArtifactError detail) ∨
  ContractExn (ContractError UNKNOWN_RESOURCE "runtime.entry") = UnicodeEncodeError ∨
  (∃ uri, ContractExn (ContractError UNKNOWN_RESOURCE "runtime.entry") =
            ContractExn (ContractError UNKNOWN_RESOURCE uri) ∧ is_resource_uri uri = false).
Proof. apply (artifact_errors foreign_claim). exact foreign_claim_refused. Defined.
End Example.
