(* ===== verification/SignedAttestation.v ===== *)
(** * Signed attestation statements

    [src/vllm_hust_ext/attestation/model.py] and [profile.py]: the statement of one process,
    its validator, signing and verification of a detached JWS over canonical JSON, the trust
    store, and the verifier the durable coordinator calls.  Ed25519 and the canonicalisation
    of the [jcs] package are the classes [Ed25519] and [Jcs]; an error keeps its code and not
    its message.  The theorems: what is verified is exactly what a trusted key signed, and
    what is signed verifies to the same statement. *)

From S2P Require Import Prelude PyStd JsonText JsonRoundTrip EcpaModel.

Local Open Scope string_scope.
Local Open Scope list_scope.

(** ** [model.py] *)

Definition SCHEMA : string := "ecpa-attestation-statement/0.1".
Definition PROFILE : string := "ecpa-jcs-jws-eddsa/0.1".

Record ProcessStatement : Type := mkProcessStatement {
  ps_host : string; ps_role : string; ps_ordinal : Z; ps_start_identity : string; ps_epoch : Z;
}.

Record AttestationStatement : Type := mkStatement {
  st_schema : string; st_profile : string; st_issuer : string; st_kid : string;
  st_subject : string; st_plan_id : string; st_launch_id : string; st_plugin_id : string;
  st_artifact_digest : string; st_process : ProcessStatement; st_obligation : string;
  st_event : string; st_observed_at : Z; st_issued_at : Z; st_expires_at : Z;
  st_challenge_nonce : string; st_evidence_digest : string; critical_claims : list string;
}.

Definition ProcessStatement_asdict (p : ProcessStatement) : json :=
  JObj [("host", JStr (ps_host p)); ("role", JStr (ps_role p)); ("ordinal", JInt (ps_ordinal p));
        ("start_identity", JStr (ps_start_identity p)); ("epoch", JInt (ps_epoch p))].

Definition to_dict (s : AttestationStatement) : list (string * json) :=
  [("schema", JStr (st_schema s)); ("profile", JStr (st_profile s));
   ("issuer", JStr (st_issuer s)); ("kid", JStr (st_kid s)); ("subject", JStr (st_subject s));
   ("plan_id", JStr (st_plan_id s)); ("launch_id", JStr (st_launch_id s));
   ("plugin_id", JStr (st_plugin_id s)); ("artifact_digest", JStr (st_artifact_digest s));
   ("process", ProcessStatement_asdict (st_process s)); ("obligation", JStr (st_obligation s));
   ("event", JStr (st_event s)); ("observed_at", JInt (st_observed_at s));
   ("issued_at", JInt (st_issued_at s)); ("expires_at", JInt (st_expires_at s));
   ("challenge_nonce", JStr (st_challenge_nonce s));
   ("evidence_digest", JStr (st_evidence_digest s));
   ("critical_claims", JArr (JStr <$> critical_claims s))].

(** ** [profile.py] *)

Definition TYPE : string := "application/ecpa-attestation+jws".
Definition ALGORITHM : string := "EdDSA".
Definition MAX_SAFE_INTEGER : Z := 2 ^ 53 - 1.
Definition DEFAULT_MAX_TTL : Z := 300.
Definition DEFAULT_MAX_OBSERVATION_AGE : Z := 300.

Inductive AttestationErrorCode : Type :=
  | MALFORMED_JSON | DUPLICATE_KEY | UNSUPPORTED_VALUE | NONCANONICAL_PAYLOAD | MALFORMED_JWS
  | WRONG_ALGORITHM | WRONG_TYPE | WRONG_PROFILE | UNKNOWN_CRITICAL_HEADER
  | UNKNOWN_CRITICAL_CLAIM | UNKNOWN_KEY | KEY_MISMATCH | INVALID_SIGNATURE | NOT_YET_VALID
  | EXPIRED | BINDING_MISMATCH | INVALID_STATEMENT | INVALID_TIME | TRUST_POLICY
  | TRUST_STORE_CONFIG.

(** [ValueError]: an integer of more digits than [int] takes; [TypeError]: an unhashable
    value looked up in a set. *)
Inductive att_exn : Type :=
  | AttestationError (code : AttestationErrorCode)
  | ValueError
  | TypeError.

Definition reject {A} (code : AttestationErrorCode) : result att_exn A :=
  Raise (AttestationError code).
Definition reject_if (b : bool) (code : AttestationErrorCode) : result att_exn () :=
  raise_if b (AttestationError code).

(** ** Base64 without padding *)

Definition url_symbol (n : N) : N := if (n =? 43)%N then 45%N else if (n =? 47)%N then 95%N else n.
Definition plain_symbol (n : N) : N := if (n =? 45)%N then 43%N else if (n =? 95)%N then 47%N else n.

Fixpoint rstrip (c : N) (l : list N) : list N :=
  match l with
  | [] => []
  | x :: l => match rstrip c l with
              | [] => if (x =? c)%N then [] else [x]
              | r => x :: r
              end
  end.

Definition _b64url (value : string) : string :=
  string_of_bytes (rstrip Base64.padding (url_symbol <$> Base64.encode (bytes_of_string value))).

(** [BASE64URL], and a length no encoding has *)
Definition base64url_char (n : N) : bool :=
  (((65 <=? n) && (n <=? 90)) || ((97 <=? n) && (n <=? 122)) || ((48 <=? n) && (n <=? 57))
   || (n =? 45) || (n =? 95))%N.

Definition pad (l : list N) : list N :=
  l ++ repeat Base64.padding ((4 - length l mod 4) mod 4).

Definition _b64url_decode (value : string) : result att_exn string :=
  let bs := bytes_of_string value in
  _ ← reject_if (negb (forallb base64url_char bs) || (length bs mod 4 =? 1)%nat) MALFORMED_JWS;
  match Base64.decode (pad (plain_symbol <$> bs)) with
  | None => reject MALFORMED_JWS
  | Some decoded =>
      let decoded := string_of_bytes decoded in
      _ ← reject_if (negb (bool_decide (_b64url decoded = value))) MALFORMED_JWS;
      Ok decoded
  end.

(** ** Strict JSON *)

Definition _pairs (kv : list (string * json)) : result att_exn json :=
  d ← foldR (λ d p, _ ← reject_if (bool_decide (p.1 ∈ d.*1)) DUPLICATE_KEY; Ok (od_set p.1 p.2 d)) [] kv;
  Ok (JObj d).

Definition no_constant (name : string) : result att_exn json := reject UNSUPPORTED_VALUE.

Definition parse_strict {F : FloatText} (raw : string) : result att_exn (list (string * json)) :=
  match loads _pairs no_constant raw with
  | Ok (JObj kv) => Ok kv
  | Ok _ => reject MALFORMED_JSON
  | Raise (HookError e) => Raise e
  | Raise JSONDecodeError => reject MALFORMED_JSON
  | Raise IntegerTooLong => Raise ValueError
  | Raise OutOfFuel => Raise ValueError  (* excluded by [loads_total] *)
  end.

Definition safe_integer (z : Z) : bool := (- MAX_SAFE_INTEGER <=? z)%Z && (z <=? MAX_SAFE_INTEGER)%Z.

Fixpoint value_supported (v : json) : bool :=
  match v with
  | JStr s => negb (has_surrogate (bytes_of_string s))
  | JFloat _ => false
  | JInt z => safe_integer z
  | JArr l => forallb value_supported l
  | JObj kv => forallb (λ '(_, v), value_supported v) kv
  | JNull | JBool _ => true
  end.

(** [_validate_values]: every refusal has the same code. *)
Definition _validate_values (v : json) : result att_exn () :=
  reject_if (negb (value_supported v)) UNSUPPORTED_VALUE.

(** [jcs.canonicalize], [None] where it raises. *)
Class Jcs : Type := jcs_canonicalize : json → option string.

Definition canonicalize {J : Jcs} (value : list (string * json)) : result att_exn string :=
  _ ← _validate_values (JObj value);
  match jcs_canonicalize (JObj value) with
  | Some text => Ok text
  | None => reject UNSUPPORTED_VALUE
  end.

(** ** Keys and trust *)

Class Ed25519 : Type := {
  PrivateKey : Type;
  PublicKey : Type;
  public_key_of : PrivateKey → PublicKey;
  ed_sign : PrivateKey → string → string;
  ed_verify : PublicKey → string → string → bool;  (* false: [InvalidSignature] *)
}.

Record SignedEnvelope : Type := mkEnvelope { payload : string; detached_jws : string }.

Record TrustEntry {K : Ed25519} : Type := mkTrustEntry {
  te_issuer : string; te_kid : string; public_key : PublicKey; subjects : gset string;
  not_before : Z; not_after : Z; enabled : bool;
}.

Definition TrustStore {K : Ed25519} : Type := gmap (string * string) TrustEntry.

Definition add_entry {K : Ed25519} (entries : TrustStore) (item : TrustEntry) : result att_exn TrustStore :=
  _ ← reject_if (bool_decide (te_issuer item = "") || bool_decide (te_kid item = "")
                 || bool_decide (subjects item = ∅) || bool_decide ("" ∈ subjects item)
                 || (not_before item <? 0)%Z || (not_before item >? not_after item)%Z)
        TRUST_STORE_CONFIG;
  let identity := (te_issuer item, te_kid item) in
  _ ← reject_if (bool_decide (is_Some (entries !! identity))) TRUST_STORE_CONFIG;
  Ok (<[identity := item]> entries).

(** [TrustStore.__init__] *)
Definition TrustStore_init {K : Ed25519} (entries : list TrustEntry) : result att_exn TrustStore :=
  foldR add_entry ∅ entries.

Definition lookup_entry {K : Ed25519} (store : TrustStore) (issuer kid subject : string) (now : Z)
    : result att_exn TrustEntry :=
  match store !! (issuer, kid) with
  | None => reject UNKNOWN_KEY
  | Some entry =>
      _ ← reject_if (negb (enabled entry) || negb (bool_decide (subject ∈ subjects entry))
                     || (now <? not_before entry)%Z || (now >? not_after entry)%Z) TRUST_POLICY;
      Ok entry
  end.

(** ** The statement *)

Definition statement_string (v : json) : result att_exn string :=
  match v with
  | JStr s => _ ← reject_if (bool_decide (s = "")) INVALID_STATEMENT; Ok s
  | _ => reject INVALID_STATEMENT
  end.

Definition statement_integer (v : json) : result att_exn Z :=
  match v with
  | JInt z => _ ← reject_if (negb ((0 <=? z)%Z && (z <=? MAX_SAFE_INTEGER)%Z)) INVALID_STATEMENT; Ok z
  | _ => reject INVALID_STATEMENT
  end.

Definition plain_string (v : json) : result att_exn string :=
  match v with JStr s => Ok s | _ => reject INVALID_STATEMENT end.

Definition digest_prefix : string := "sha256:".
(** [DIGEST] *)
Definition is_digest (s : string) : bool :=
  starts_with digest_prefix s &&
  (let rest := remove_prefix digest_prefix s in
   (String.length rest =? 64)%nat && string_forallb is_hex rest).

Definition top_fields : list string :=
  ["schema"; "profile"; "issuer"; "kid"; "subject"; "plan_id"; "launch_id"; "plugin_id";
   "artifact_digest"; "process"; "obligation"; "event"; "observed_at"; "issued_at"; "expires_at";
   "challenge_nonce"; "evidence_digest"; "critical_claims"].
Definition process_fields : list string := ["host"; "role"; "ordinal"; "start_identity"; "epoch"].

Definition process_object (v : json) : result att_exn (list (string * json)) :=
  match v with
  | JObj kv => _ ← reject_if (negb (has_exactly process_fields kv)) INVALID_STATEMENT; Ok kv
  | _ => reject INVALID_STATEMENT
  end.

Definition critical_array (v : json) : result att_exn (list string) :=
  match v with
  | JArr l =>
      critical ← mapR plain_string l;
      _ ← reject_if (has_duplicates critical) INVALID_STATEMENT;
      Ok critical
  | _ => reject INVALID_STATEMENT
  end.

(** [validate_statement]; [from_dict] cannot fail after it. *)
Definition validate_statement (value : list (string * json)) : result att_exn AttestationStatement :=
  _ ← reject_if (negb (has_exactly top_fields value)) INVALID_STATEMENT;
  process ← process_object (json_get "process" value);
  schema ← statement_string (json_get "schema" value);
  profile ← statement_string (json_get "profile" value);
  issuer ← statement_string (json_get "issuer" value);
  kid ← statement_string (json_get "kid" value);
  subject ← statement_string (json_get "subject" value);
  plan_id ← statement_string (json_get "plan_id" value);
  launch_id ← statement_string (json_get "launch_id" value);
  plugin_id ← statement_string (json_get "plugin_id" value);
  artifact_digest ← statement_string (json_get "artifact_digest" value);
  obligation ← statement_string (json_get "obligation" value);
  event ← statement_string (json_get "event" value);
  challenge_nonce ← statement_string (json_get "challenge_nonce" value);
  evidence_digest ← statement_string (json_get "evidence_digest" value);
  host ← statement_string (json_get "host" process);
  role ← statement_string (json_get "role" process);
  start_identity ← statement_string (json_get "start_identity" process);
  ordinal ← statement_integer (json_get "ordinal" process);
  epoch ← statement_integer (json_get "epoch" process);
  observed_at ← statement_integer (json_get "observed_at" value);
  issued_at ← statement_integer (json_get "issued_at" value);
  expires_at ← statement_integer (json_get "expires_at" value);
  critical ← critical_array (json_get "critical_claims" value);
  _ ← reject_if (negb (is_digest artifact_digest) || negb (is_digest evidence_digest)) INVALID_STATEMENT;
  Ok (mkStatement schema profile issuer kid subject plan_id launch_id plugin_id artifact_digest
        (mkProcessStatement host role ordinal start_identity epoch) obligation event
        observed_at issued_at expires_at challenge_nonce evidence_digest critical).

(** ** Signing and verification *)

Definition _protected (kid : string) : list (string * json) :=
  [("alg", JStr ALGORITHM); ("crit", JArr [JStr "ecpa_profile"]); ("ecpa_profile", JStr PROFILE);
   ("kid", JStr kid); ("typ", JStr TYPE)].

Definition signing_input (encoded_header payload : string) : string :=
  encoded_header +:+ "." +:+ _b64url payload.

(** [s.split(".")] *)
Fixpoint split_dots (s : string) : list string :=
  match s with
  | EmptyString => [""]
  | String a s =>
      if (Ascii.N_of_ascii a =? 46)%N then "" :: split_dots s
      else match split_dots s with
           | part :: parts => String a part :: parts
           | [] => [String a ""]
           end
  end.

Definition header_fields : list string := ["alg"; "crit"; "ecpa_profile"; "kid"; "typ"].

Section profile.
Context {F : FloatText} {J : Jcs} {K : Ed25519}.

Definition sign (statement : AttestationStatement) (key : PrivateKey) : result att_exn SignedEnvelope :=
  _ ← reject_if (negb (bool_decide (st_schema statement = SCHEMA))
                 || negb (bool_decide (st_profile statement = PROFILE))) WRONG_PROFILE;
  let value := to_dict statement in
  _ ← validate_statement value;
  payload ← canonicalize value;
  protected ← canonicalize (_protected (st_kid statement));
  let encoded_header := _b64url protected in
  let signature := _b64url (ed_sign key (signing_input encoded_header payload)) in
  Ok (mkEnvelope payload (encoded_header +:+ ".." +:+ signature)).

(** The protected header, for its [kid]. *)
Definition verify_header (encoded : string) : result att_exn string :=
  header_raw ← _b64url_decode encoded;
  header ← parse_strict header_raw;
  _ ← reject_if (negb (has_exactly header_fields header)) UNKNOWN_CRITICAL_HEADER;
  canonical ← canonicalize header;
  _ ← reject_if (negb (bool_decide (header_raw = canonical))) MALFORMED_JWS;
  _ ← reject_if (negb (json_eqb (json_get "alg" header) (JStr ALGORITHM))) WRONG_ALGORITHM;
  _ ← reject_if (negb (json_eqb (json_get "typ" header) (JStr TYPE))) WRONG_TYPE;
  _ ← reject_if (negb (json_eqb (json_get "crit" header) (JArr [JStr "ecpa_profile"]))) UNKNOWN_CRITICAL_HEADER;
  _ ← reject_if (negb (json_eqb (json_get "ecpa_profile" header) (JStr PROFILE))) WRONG_PROFILE;
  match json_get "kid" header with
  | JStr kid => Ok kid
  | _ => reject UNKNOWN_KEY
  end.

Definition verify_payload (kid payload : string) : result att_exn AttestationStatement :=
  payload_value ← parse_strict payload;
  canonical ← canonicalize payload_value;
  _ ← reject_if (negb (bool_decide (payload = canonical))) NONCANONICAL_PAYLOAD;
  statement ← validate_statement payload_value;
  _ ← reject_if (negb (bool_decide (st_schema statement = SCHEMA))
                 || negb (bool_decide (st_profile statement = PROFILE))) WRONG_PROFILE;
  _ ← reject_if (negb (bool_decide (st_kid statement = kid))) KEY_MISMATCH;
  _ ← reject_if (negb (bool_decide (critical_claims statement = []))) UNKNOWN_CRITICAL_CLAIM;
  Ok statement.

Definition verify_times (statement : AttestationStatement) (now clock_skew max_ttl max_observation_age : Z)
    : result att_exn () :=
  _ ← reject_if ((st_issued_at statement >? now + clock_skew)%Z
                 || (st_observed_at statement >? now + clock_skew)%Z) NOT_YET_VALID;
  _ ← reject_if (st_expires_at statement <? now - clock_skew)%Z EXPIRED;
  _ ← reject_if (negb ((st_observed_at statement <=? st_issued_at statement)%Z
                       && (st_issued_at statement <=? st_expires_at statement)%Z)) INVALID_TIME;
  _ ← reject_if (st_expires_at statement - st_issued_at statement >? max_ttl)%Z INVALID_TIME;
  reject_if (now - st_observed_at statement >? max_observation_age + clock_skew)%Z INVALID_TIME.

Definition verify (envelope : SignedEnvelope) (trust_store : TrustStore)
    (now clock_skew max_ttl max_observation_age : Z) : result att_exn AttestationStatement :=
  match split_dots (detached_jws envelope) with
  | [encoded_header; middle; encoded_signature] =>
      _ ← reject_if (negb (bool_decide (middle = ""))) MALFORMED_JWS;
      kid ← verify_header encoded_header;
      statement ← verify_payload kid (payload envelope);
      entry ← lookup_entry trust_store (st_issuer statement) kid (st_subject statement) now;
      signature ← _b64url_decode encoded_signature;
      _ ← reject_if (negb (ed_verify (public_key entry) signature
                             (signing_input encoded_header (payload envelope)))) INVALID_SIGNATURE;
      _ ← verify_times statement now clock_skew max_ttl max_observation_age;
      Ok statement
  | _ => reject MALFORMED_JWS
  end.

(** ** [SignedAttestationVerifier] *)

Record SignedAttestationVerifier : Type := mkVerifier {
  envelopes : gmap string SignedEnvelope; trust_store : TrustStore;
  clock_skew : Z; max_ttl : Z; max_observation_age : Z;
}.

Definition expected_binding (a : Attestation) : list (string * json) :=
  [("subject", JStr (at_authority a)); ("issuer", JStr (at_issuer a)); ("kid", JStr (at_kid a));
   ("plan_id", JStr (at_plan_id a)); ("launch_id", JStr (at_launch_id a));
   ("plugin_id", JStr (at_artifact_id a)); ("host", JStr (p_host (at_process a)));
   ("role", JStr (p_role (at_process a))); ("ordinal", JInt (p_ordinal (at_process a)));
   ("start_identity", JStr (p_start_id (at_process a))); ("epoch", JInt (p_epoch (at_process a)));
   ("obligation", JStr (at_obligation_id a)); ("event", JStr (at_event a));
   ("issued_at", JInt (at_issued_at a)); ("observed_at", JInt (at_observed_at a));
   ("expires_at", JInt (at_expires_at a)); ("challenge_nonce", JStr (at_nonce a));
   ("evidence_digest", JStr (at_evidence_digest a)); ("artifact_digest", JStr (at_artifact_digest a))].

Definition actual_binding (s : AttestationStatement) : list (string * json) :=
  [("subject", JStr (st_subject s)); ("issuer", JStr (st_issuer s)); ("kid", JStr (st_kid s));
   ("plan_id", JStr (st_plan_id s)); ("launch_id", JStr (st_launch_id s));
   ("plugin_id", JStr (st_plugin_id s)); ("host", JStr (ps_host (st_process s)));
   ("role", JStr (ps_role (st_process s))); ("ordinal", JInt (ps_ordinal (st_process s)));
   ("start_identity", JStr (ps_start_identity (st_process s))); ("epoch", JInt (ps_epoch (st_process s)));
   ("obligation", JStr (st_obligation s)); ("event", JStr (st_event s));
   ("issued_at", JInt (st_issued_at s)); ("observed_at", JInt (st_observed_at s));
   ("expires_at", JInt (st_expires_at s)); ("challenge_nonce", JStr (st_challenge_nonce s));
   ("evidence_digest", JStr (st_evidence_digest s)); ("artifact_digest", JStr (st_artifact_digest s))].

Definition SignedAttestationVerifier_verify (v : SignedAttestationVerifier) (a : Attestation) (now : Z)
    (p : Plan) : result att_exn () :=
  match envelopes v !! at_nonce a with
  | None => reject BINDING_MISMATCH
  | Some envelope =>
      statement ← verify envelope (trust_store v) now (clock_skew v) (max_ttl v) (max_observation_age v);
      _ ← match snd <$> list_find (λ item, PluginIdentity_id item = at_artifact_id a) (plugins p) with
          | None => reject BINDING_MISMATCH
          | Some plugin =>
              reject_if (negb (bool_decide (st_artifact_digest statement =
                                            digest_prefix +:+ artifact_sha256 plugin))) BINDING_MISMATCH
          end;
      reject_if (negb (json_eqb (JObj (actual_binding statement)) (JObj (expected_binding a))))
        BINDING_MISMATCH
  end.
End profile.

(** ** Base64 round trip *)

Definition alphabet : list N := Base64.symbol <$> (N.of_nat <$> seq 0 64).

Lemma symbol_alphabet n : (n < 64)%N → Base64.symbol n ∈ alphabet.
Proof.
  intros Hn. apply list_elem_of_fmap_2. apply list_elem_of_fmap. exists (N.to_nat n).
  rewrite N2Nat.id, elem_of_seq. split; [done|lia].
Qed.

Lemma alphabet_symbol x : x ∈ alphabet →
  base64url_char (url_symbol x) = true ∧ plain_symbol (url_symbol x) = x ∧
  (url_symbol x =? Base64.padding)%N = false ∧ (url_symbol x < 256)%N.
Proof.
  revert x. apply Forall_forall. apply (bool_decide_unpack _). vm_compute. exact I.
Qed.

Lemma rstrip_app c l k : rstrip c (l ++ repeat c k) = rstrip c l.
Proof.
  induction l as [|x l IH]; simpl; [|by rewrite IH].
  induction k as [|k IH]; simpl; [done|]. by rewrite IH, N.eqb_refl.
Qed.

Lemma rstrip_none c l : Forall (λ x, (x =? c)%N = false) l → rstrip c l = l.
Proof. induction 1 as [|x l Hx _ IH]; simpl; [done|]. rewrite IH, Hx. by destruct l. Qed.

(** The text of an encoding without its padding. *)
Record unpadded (bs l : list N) : Prop := {
  unpadded_encode : Base64.encode bs = pad l;
  unpadded_alphabet : Forall (.∈ alphabet) l;
  unpadded_length : (length l mod 4 ≠ 1)%nat;
}.

Lemma pad_group w x y z l : pad (w :: x :: y :: z :: l) = w :: x :: y :: z :: pad l.
Proof.
  unfold pad. cbn [length app]. do 5 f_equal.
  change (S (S (S (S (length l))))) with (4 + length l)%nat.
  by rewrite <-(Nat.Div0.add_mod_idemp_l 4).
Qed.

Lemma encode_unpadded bs : Forall (λ b, b < 256)%N bs → ∃ l, unpadded bs l.
Proof.
  assert (∀ a, a < 256 → a / 4 < 64)%N as Hq by (intros; apply N.Div0.div_lt_upper_bound; lia).
  assert (∀ a b, b < 256 → a mod 4 * 16 + b / 16 < 64)%N as Hs.
  { intros a b Hb. pose proof (N.mod_lt a 4 ltac:(done)).
    assert (b / 16 < 16)%N by (apply N.Div0.div_lt_upper_bound; lia). lia. }
  assert (∀ b c, c < 256 → b mod 16 * 4 + c / 64 < 64)%N as Ht.
  { intros b c Hc. pose proof (N.mod_lt b 16 ltac:(done)).
    assert (c / 64 < 4)%N by (apply N.Div0.div_lt_upper_bound; lia). lia. }
  assert (∀ n bs, (length bs ≤ n)%nat → Forall (λ b, b < 256)%N bs → ∃ l, unpadded bs l) as Hall;
    [|by intros; eapply Hall]. clear bs.
  intros n. induction n as [|n IH]; intros bs Hn Hbs.
  { destruct bs; [by exists []; split|simpl in Hn; lia]. }
  destruct bs as [|a [|b [|c bs]]]; [by exists []; split|..];
    repeat match goal with H : Forall _ (_ :: _) |- _ => apply Forall_cons in H as [? H] end.
  - exists [Base64.symbol (a / 4); Base64.symbol (a mod 4 * 16)]. split; [done| |done].
    pose proof (N.mod_lt a 4 ltac:(done)).
    repeat apply Forall_cons_2; [apply symbol_alphabet; auto|apply symbol_alphabet; lia|constructor].
  - exists [Base64.symbol (a / 4); Base64.symbol (a mod 4 * 16 + b / 16); Base64.symbol (b mod 16 * 4)].
    pose proof (N.mod_lt b 16 ltac:(done)).
    split; [done| |done].
    repeat apply Forall_cons_2; [apply symbol_alphabet; auto..|apply symbol_alphabet; lia|constructor].
  - destruct (IH bs) as [l [He Ha Hl]]; [simpl in Hn; lia|done|].
    exists (Base64.symbol (a / 4) :: Base64.symbol (a mod 4 * 16 + b / 16) ::
            Base64.symbol (b mod 16 * 4 + c / 64) :: Base64.symbol (c mod 64) :: l).
    split.
    + rewrite pad_group. cbn [Base64.encode]. by rewrite He.
    + repeat apply Forall_cons_2; [apply symbol_alphabet; auto..| |done].
      apply symbol_alphabet. by apply N.mod_lt.
    + cbn [length]. change (S (S (S (S (length l))))) with (4 + length l)%nat.
      by rewrite <-(Nat.Div0.add_mod_idemp_l 4).
Qed.

Lemma b64url_bytes s : ∃ l, unpadded (bytes_of_string s) l ∧
  bytes_of_string (_b64url s) = url_symbol <$> l.
Proof.
  destruct (encode_unpadded (bytes_of_string s) (bytes_of_string_bound s)) as [l Hl].
  exists l. split; [done|]. destruct Hl as [He Ha _]. unfold _b64url. rewrite He. unfold pad.
  rewrite fmap_app.
  assert (∀ k, url_symbol <$> repeat Base64.padding k = repeat Base64.padding k) as ->
    by (intros k; induction k as [|k IH]; [done|]; exact (f_equal (cons Base64.padding) IH)).
  rewrite rstrip_app, rstrip_none.
  - apply bytes_of_string_of_bytes, Forall_fmap. eapply Forall_impl; [exact Ha|].
    intros x Hx. by apply alphabet_symbol.
  - apply Forall_fmap. eapply Forall_impl; [exact Ha|]. intros x Hx. by apply alphabet_symbol.
Qed.

(** What [_b64url_decode] accepts is what [_b64url] writes. *)
Lemma _b64url_decode_Ok value decoded : _b64url_decode value = Ok decoded ↔ value = _b64url decoded.
Proof.
  split.
  - unfold _b64url_decode. intros H. cbv zeta in H. apply result_bind_Ok in H as ([] & _ & H).
    destruct (Base64.decode _) as [d|]; [|done]. method_inv.
    unfold reject_if in *. method_inv. bool_inv. by simplify_eq.
  - intros ->. destruct (b64url_bytes decoded) as (l & [He Ha Hl] & Hb).
    unfold _b64url_decode. cbv zeta. rewrite Hb, length_fmap.
    assert (forallb base64url_char (url_symbol <$> l) = true) as ->.
    { apply forallb_forall. intros x (y & -> & Hy)%list_elem_of_In%list_elem_of_fmap.
      rewrite Forall_forall in Ha. by apply alphabet_symbol, Ha. }
    apply Nat.eqb_neq in Hl as ->. cbn [negb orb reject_if raise_if mbind result_bind].
    rewrite <-list_fmap_compose.
    assert (plain_symbol ∘ url_symbol <$> l = l) as ->.
    { clear -Ha. induction Ha as [|x l Hx _ IH]; [done|]. rewrite fmap_cons, IH. simpl.
      by destruct (alphabet_symbol x Hx) as (_ & -> & _). }
    rewrite <-He, Base64.decode_encode by apply bytes_of_string_bound.
    rewrite string_of_bytes_of_string. by rewrite bool_decide_eq_true_2.
Qed.

(** ** What a validated statement is *)

Definition process_ok (p : ProcessStatement) : Prop :=
  ps_host p ≠ "" ∧ ps_role p ≠ "" ∧ ps_start_identity p ≠ "" ∧
  (0 ≤ ps_ordinal p ≤ MAX_SAFE_INTEGER)%Z ∧ (0 ≤ ps_epoch p ≤ MAX_SAFE_INTEGER)%Z.

Record statement_ok (s : AttestationStatement) : Prop := {
  statement_strings : Forall (λ t, t ≠ "")
    [st_schema s; st_profile s; st_issuer s; st_kid s; st_subject s; st_plan_id s; st_launch_id s;
     st_plugin_id s; st_artifact_digest s; st_obligation s; st_event s; st_challenge_nonce s;
     st_evidence_digest s];
  statement_process : process_ok (st_process s);
  statement_integers : Forall (λ z, 0 ≤ z ≤ MAX_SAFE_INTEGER)%Z
    [st_observed_at s; st_issued_at s; st_expires_at s];
  statement_digests : is_digest (st_artifact_digest s) = true ∧ is_digest (st_evidence_digest s) = true;
  statement_critical : NoDup (critical_claims s);
}.

Lemma reject_if_bind {A} b code (r : result att_exn A) a :
  (_ ← reject_if b code; r) = Ok a ↔ b = false ∧ r = Ok a.
Proof. destruct b; cbn; naive_solver. Qed.

Lemma statement_string_Ok v s : statement_string v = Ok s ↔ v = JStr s ∧ s ≠ "".
Proof.
  destruct v; try naive_solver. cbn [statement_string].
  rewrite reject_if_bind, bool_decide_eq_false. naive_solver.
Qed.

Lemma statement_integer_Ok v z : statement_integer v = Ok z ↔ v = JInt z ∧ (0 ≤ z ≤ MAX_SAFE_INTEGER)%Z.
Proof.
  destruct v; try naive_solver. cbn [statement_integer].
  rewrite reject_if_bind, negb_false_iff, andb_true_iff, !Z.leb_le. naive_solver.
Qed.

Lemma process_object_Ok v kv : process_object v = Ok kv ↔ v = JObj kv ∧ has_exactly process_fields kv = true.
Proof.
  destruct v; try naive_solver. cbn [process_object]. rewrite reject_if_bind, negb_false_iff. naive_solver.
Qed.

Lemma plain_strings_Ok l ss : mapR plain_string l = Ok ss ↔ l = JStr <$> ss.
Proof.
  rewrite mapR_Ok. split.
  - induction 1 as [|v s l ss Hv _ ->]; [done|]. destruct v; naive_solver.
  - intros ->. induction ss; constructor; done.
Qed.

Lemma critical_array_Ok v ss : critical_array v = Ok ss ↔ v = JArr (JStr <$> ss) ∧ NoDup ss.
Proof.
  destruct v; try naive_solver. cbn [critical_array]. rewrite result_bind_Ok.
  setoid_rewrite plain_strings_Ok. setoid_rewrite reject_if_bind.
  setoid_rewrite has_duplicates_false. naive_solver.
Qed.

(** Read the fields off the run of the validator. *)
Ltac statement_inv :=
  repeat match goal with
  | H : mbind _ _ = Ok _ |- _ => apply result_bind_Ok in H as (? & ? & ?)
  | H : reject_if _ _ = Ok _ |- _ => apply raise_if_Ok in H
  | H : Ok _ = Ok _ |- _ => injection H as ?
  | H : statement_string _ = Ok _ |- _ => apply statement_string_Ok in H as [? ?]
  | H : statement_integer _ = Ok _ |- _ => apply statement_integer_Ok in H as [? ?]
  | H : process_object _ = Ok _ |- _ => apply process_object_Ok in H as [? ?]
  | H : critical_array _ = Ok _ |- _ => apply critical_array_Ok in H as [? ?]
  end; bool_inv.

Ltac same_members fields :=
  eapply (same_value_fields fields); [by apply (bool_decide_unpack _)|assumption|assumption|];
  repeat (apply Forall2_cons_2; [split; [reflexivity|cbn [snd]]|]); try apply Forall2_nil_2;
  repeat match goal with H : json_get ?f ?kv = _ |- same_value (json_get ?f ?kv) _ => rewrite H; clear H end;
  try reflexivity.

Lemma validated_statement kv st :
  unique_keys (JObj kv) → validate_statement kv = Ok st →
  same_value (JObj kv) (JObj (to_dict st)) ∧ statement_ok st.
Proof.
  intros Hu H. unfold validate_statement in H. pose proof (unique_keys_get "process" kv Hu) as Hp.
  statement_inv. subst st.
  match goal with H : json_get "process" kv = _ |- _ => rewrite H in Hp end. split.
  - unfold to_dict. cbn [st_schema st_profile st_issuer st_kid st_subject st_plan_id st_launch_id
      st_plugin_id st_artifact_digest st_process st_obligation st_event st_observed_at st_issued_at
      st_expires_at st_challenge_nonce st_evidence_digest critical_claims].
    same_members top_fields.
    same_members process_fields.
  - split; cbn; [|unfold process_ok; cbn; tauto| |done|done];
      repeat (apply Forall_cons_2; [done|]); apply Forall_nil_2.
Qed.

Lemma statement_string_ok s : s ≠ "" → statement_string (JStr s) = Ok s.
Proof. intros. by apply statement_string_Ok. Qed.
Lemma statement_integer_ok z : (0 ≤ z ≤ MAX_SAFE_INTEGER)%Z → statement_integer (JInt z) = Ok z.
Proof. intros. by apply statement_integer_Ok. Qed.
Lemma critical_array_ok ss : NoDup ss → critical_array (JArr (JStr <$> ss)) = Ok ss.
Proof. intros. by apply critical_array_Ok. Qed.
Lemma process_object_ok kv : has_exactly process_fields kv = true → process_object (JObj kv) = Ok kv.
Proof. intros. by apply process_object_Ok. Qed.

Lemma has_exactly_sorted fields kv : has_exactly fields (sorted_members kv) = has_exactly fields kv.
Proof.
  apply Bool.eq_iff_eq_true. rewrite !has_exactly_spec.
  unfold sorted_members. setoid_rewrite sort_on_perm. by setoid_rewrite keys_map_snd.
Qed.

Lemma sort_strings ss : map sort_keys (JStr <$> ss) = JStr <$> ss.
Proof. induction ss as [|s ss IH]; [done|]. exact (f_equal (cons (JStr s)) IH). Qed.

(** A well-formed statement passes its validator, with its members in either order. *)
Ltac read_member := repeat first [rewrite json_get_here|rewrite json_get_later by done].
Ltac validate :=
  match goal with
  | H : statement_ok ?st |- _ =>
      destruct H as [Hs (Hp1 & Hp2 & Hp3 & Hp4 & Hp5) Hi [Hd1 Hd2] Hc];
      repeat match goal with H : Forall _ (_ :: _) |- _ => apply Forall_cons in H as [? H] end;
      rewrite !statement_string_ok by done; cbn [mbind result_bind];
      rewrite !statement_integer_ok by done; cbn [mbind result_bind];
      rewrite critical_array_ok by done; cbn [mbind result_bind];
      rewrite Hd1, Hd2; by destruct st as [? ? ? ? ? ? ? ? ? [] ? ? ? ? ? ? ? ?]
  end.

Lemma validate_to_dict st : statement_ok st → validate_statement (to_dict st) = Ok st.
Proof.
  intros Hok. unfold validate_statement. change (has_exactly top_fields (to_dict st)) with true.
  cbn [negb reject_if raise_if mbind result_bind]. unfold to_dict. read_member.
  unfold ProcessStatement_asdict. rewrite process_object_ok by done. cbn [mbind result_bind]. read_member.
  validate.
Qed.

Lemma validate_sorted st : statement_ok st → validate_statement (sorted_members (to_dict st)) = Ok st.
Proof.
  intros Hok. unfold validate_statement. rewrite has_exactly_sorted.
  change (has_exactly top_fields (to_dict st)) with true.
  cbn [negb reject_if raise_if mbind result_bind].
  rewrite !json_get_sorted by (by apply (bool_decide_unpack _)). unfold to_dict. read_member.
  unfold ProcessStatement_asdict. cbn [sort_keys]. rewrite sort_strings.
  match goal with |- context [process_object (JObj (sort_on fst (map ?f ?l)))] =>
    change (process_object (JObj (sort_on fst (map f l)))) with (process_object (JObj (sorted_members l))) end.
  rewrite process_object_ok by (by rewrite has_exactly_sorted). cbn [mbind result_bind].
  rewrite !json_get_sorted by (by apply (bool_decide_unpack _)). read_member. cbn [sort_keys].
  validate.
Qed.

(** ** Strict JSON *)

Lemma _pairs_NoDup kv : NoDup kv.*1 → _pairs kv = Ok (JObj kv).
Proof.
  intros Hnd. unfold _pairs.
  assert (∀ (d l : list (string * json)), NoDup (d ++ l).*1 →
    foldR (λ d p, _ ← reject_if (bool_decide (p.1 ∈ d.*1)) DUPLICATE_KEY; Ok (od_set p.1 p.2 d)) d l
    = Ok (d ++ l)) as Hgo; [|by rewrite (Hgo [] kv Hnd)].
  clear. intros d l. revert d. induction l as [|[k v] l IH]; intros d Hnd; simpl.
  { by rewrite app_nil_r. }
  assert (k ∉ d.*1) as Hk.
  { rewrite fmap_app, fmap_cons in Hnd. apply NoDup_app in Hnd as (_ & Hk & _). intros Hin.
    by apply (Hk k Hin), list_elem_of_here. }
  rewrite bool_decide_eq_false_2 by done. cbn [reject_if raise_if mbind result_bind].
  rewrite od_set_new by done. rewrite IH; by rewrite <-app_assoc.
Qed.

Lemma _pairs_unique kv v : Forall (λ p, unique_keys p.2) kv → _pairs kv = Ok v → unique_keys v.
Proof.
  intros Hkv H. unfold _pairs in H. apply result_bind_Ok in H as (d & Hd & [= <-]). apply unique_keys_obj.
  assert (∀ (l d d' : list (string * json)), Forall (λ p, unique_keys p.2) l →
    foldR (λ d p, _ ← reject_if (bool_decide (p.1 ∈ d.*1)) DUPLICATE_KEY; Ok (od_set p.1 p.2 d)) d l = Ok d' →
    NoDup d.*1 ∧ Forall (λ p, unique_keys p.2) d → NoDup d'.*1 ∧ Forall (λ p, unique_keys p.2) d') as Hgo.
  { clear. induction l as [|[k v] l IH]; intros d d' Hl H Hd; simpl in H; [by simplify_eq|].
    apply Forall_cons in Hl as [Hv Hl]. apply result_bind_Ok in H as (d1 & Hd1 & H).
    apply reject_if_bind in Hd1 as [_ [= <-]].
    eapply IH; [done|exact H|]. destruct Hd. split; [by apply od_set_NoDup|by apply od_set_Forall]. }
  eapply Hgo; [exact Hkv|exact Hd|]. split; constructor.
Qed.

Section parsing.
Context {F : FloatText} {J : Jcs} {K : Ed25519}.

Lemma parse_strict_unique raw kv : parse_strict raw = Ok kv → unique_keys (JObj kv).
Proof.
  unfold parse_strict. destruct (loads _ _ raw) as [v|[]] eqn:E; try done.
  apply loads_unique in E; [|apply _pairs_unique|done]. destruct v; try done. by intros [= <-].
Qed.

Lemma parse_strict_dumps kv : printable (JObj kv) → parse_strict (dumps false (JObj kv)) = Ok (sorted_members kv).
Proof.
  intros Hp. unfold parse_strict. rewrite <-(string_app_nil_r (dumps _ _)).
  by rewrite (loads_dumps _pairs no_constant _pairs_NoDup).
Qed.

Lemma value_supported_sort v : value_supported (sort_keys v) = value_supported v.
Proof.
  induction v as [| | | | |l IH|kv IH] using json_nested_ind; try done.
  - cbn [sort_keys value_supported]. induction IH as [|v l Hv _ IHl]; [done|]. simpl. by rewrite Hv, IHl.
  - cbn [sort_keys value_supported].
    transitivity (forallb (λ '(_, v), value_supported v) (map (λ '(k, v), (k, sort_keys v)) kv)).
    + apply Bool.eq_iff_eq_true. rewrite !forallb_forall. setoid_rewrite <-list_elem_of_In.
      by setoid_rewrite elem_of_sort_on.
    + induction IH as [|[k v] kv Hv _ IHkv]; [done|]. simpl in *. by rewrite Hv, IHkv.
Qed.

Lemma same_value_supported v w : same_value v w → value_supported v = value_supported w.
Proof. intros H. by rewrite <-(value_supported_sort v), H, value_supported_sort. Qed.

(** What the profile relies on: [jcs.canonicalize] sees the members of a [dict] in no order. *)
Definition jcs_order : Prop :=
  ∀ v w, unique_keys v → same_value v w → jcs_canonicalize v = jcs_canonicalize w.

Lemma canonicalize_same kv kv' :
  jcs_order → unique_keys (JObj kv) → same_value (JObj kv) (JObj kv') →
  canonicalize kv = canonicalize kv'.
Proof.
  intros Hj Hu Hs. unfold canonicalize, _validate_values.
  by rewrite (same_value_supported _ _ Hs), (Hj _ _ Hu Hs).
Qed.

Lemma split_dots_three s a c : split_dots s = [a; ""; c] → s = a +:+ ".." +:+ c.
Proof.
  assert (∀ s l, split_dots s = l → s = join "." l) as Hjoin.
  { clear. induction s as [|x s IH]; intros l <-; [done|]. cbn [split_dots].
    destruct (N.eqb_spec (Ascii.N_of_ascii x) 46) as [Hx|_].
    - assert (x = Ascii.ascii_of_N 46) as -> by (by rewrite <-Hx, Ascii.ascii_N_embedding).
      specialize (IH _ eq_refl). destruct (split_dots s) as [|p ps] eqn:E; [by destruct s; simpl in E; repeat case_match|].
      exact (f_equal (String (Ascii.ascii_of_N 46)) IH).
    - specialize (IH _ eq_refl). destruct (split_dots s) as [|p ps] eqn:E; [by rewrite IH|].
      rewrite IH. by destruct ps. }
  intros H%Hjoin. exact H.
Qed.

Lemma verified_header encoded kid :
  jcs_order → verify_header encoded = Ok kid →
  ∃ protected, canonicalize (_protected kid) = Ok protected ∧ encoded = _b64url protected.
Proof.
  intros Hj H. unfold verify_header in H.
  apply result_bind_Ok in H as (raw & Hraw & H). apply _b64url_decode_Ok in Hraw.
  apply result_bind_Ok in H as (header & Hheader%parse_strict_unique & H).
  apply reject_if_bind in H as [Hex%negb_false_iff H].
  apply result_bind_Ok in H as (canonical & Hc & H).
  repeat match goal with H : mbind _ _ = Ok _ |- _ => apply reject_if_bind in H as [? H] end.
  bool_inv. subst. exists canonical. split; [|done]. rewrite <-Hc.
  destruct (json_get "kid" header) as [| | | |k| |] eqn:Hkid; try done. injection H as ->.
  repeat match goal with H : json_eqb _ (JStr _) = true |- _ => apply json_eqb_str in H end.
  match goal with H : json_eqb _ (JArr _) = true |- _ => apply json_eqb_singleton in H end.
  symmetry. apply canonicalize_same; [done..|]. unfold _protected. same_members header_fields.
Qed.

Lemma verified_payload kid payload st :
  jcs_order → verify_payload kid payload = Ok st →
  canonicalize (to_dict st) = Ok payload ∧ statement_ok st ∧ st_schema st = SCHEMA ∧
  st_profile st = PROFILE ∧ st_kid st = kid ∧ critical_claims st = [].
Proof.
  intros Hj H. unfold verify_payload in H.
  apply result_bind_Ok in H as (value & Hvalue%parse_strict_unique & H).
  apply result_bind_Ok in H as (canonical & Hc & H). apply reject_if_bind in H as [Hp H].
  apply result_bind_Ok in H as (st' & Hst & H). apply (validated_statement _ _ Hvalue) in Hst as [Hsame Hok].
  repeat match goal with H : mbind _ _ = Ok _ |- _ => apply reject_if_bind in H as [? H] end.
  bool_inv. simplify_eq. split_and!; try done. rewrite <-Hc. symmetry. by apply canonicalize_same.
Qed.

(** The times of a statement at [now]. *)
Definition timely (st : AttestationStatement) (now clock_skew max_ttl max_observation_age : Z) : Prop :=
  (st_observed_at st ≤ st_issued_at st ≤ st_expires_at st)%Z ∧
  (st_issued_at st ≤ now + clock_skew)%Z ∧ (now - clock_skew ≤ st_expires_at st)%Z ∧
  (st_expires_at st - st_issued_at st ≤ max_ttl)%Z ∧
  (now - st_observed_at st ≤ max_observation_age + clock_skew)%Z.

Lemma verify_times_Ok st now skew ttl age :
  verify_times st now skew ttl age = Ok () ↔ timely st now skew ttl age.
Proof.
  unfold verify_times, timely. rewrite !reject_if_bind. unfold reject_if. rewrite raise_if_Ok.
  rewrite !orb_false_iff, !negb_false_iff, !andb_true_iff, !Z.gtb_ltb, !Z.ltb_ge, !Z.leb_le. lia.
Qed.

(** The entry may vouch for the statement at [now]. *)
Definition trusted (store : TrustStore) (st : AttestationStatement) (now : Z) (entry : TrustEntry) : Prop :=
  store !! (st_issuer st, st_kid st) = Some entry ∧ enabled entry = true ∧
  st_subject st ∈ subjects entry ∧ (not_before entry ≤ now ≤ not_after entry)%Z.

Lemma lookup_entry_Ok store st now entry :
  lookup_entry store (st_issuer st) (st_kid st) (st_subject st) now = Ok entry ↔ trusted store st now entry.
Proof.
  unfold lookup_entry, trusted. destruct (store !! _) as [e|]; [|naive_solver].
  rewrite reject_if_bind, !orb_false_iff, !negb_false_iff, bool_decide_eq_true, Z.gtb_ltb, !Z.ltb_ge.
  naive_solver.
Qed.

(** The key of [entry] signed the canonical text of [st] in this envelope. *)
Definition signed_by (entry : TrustEntry) (st : AttestationStatement) (envelope : SignedEnvelope) : Prop :=
  ∃ protected signature,
    canonicalize (_protected (st_kid st)) = Ok protected ∧
    canonicalize (to_dict st) = Ok (payload envelope) ∧
    detached_jws envelope = _b64url protected +:+ ".." +:+ _b64url signature ∧
    ed_verify (public_key entry) signature (signing_input (_b64url protected) (payload envelope)) = true.

Lemma verified_statement envelope store now skew ttl age st :
  jcs_order → verify envelope store now skew ttl age = Ok st →
  statement_ok st ∧ st_schema st = SCHEMA ∧ st_profile st = PROFILE ∧ critical_claims st = [] ∧
  timely st now skew ttl age ∧ ∃ entry, trusted store st now entry ∧ signed_by entry st envelope.
Proof.
  intros Hj H. unfold verify in H.
  destruct (split_dots _) as [|header [|middle [|sig [|]]]] eqn:Hsplit; try done.
  apply reject_if_bind in H as [Hm%negb_false_iff%bool_decide_eq_true H]. subst middle.
  apply split_dots_three in Hsplit.
  apply result_bind_Ok in H as (kid & Hh & H). apply (verified_header _ _ Hj) in Hh as (protected & Hprot & ->).
  apply result_bind_Ok in H as (st' & Hst & H). apply (verified_payload _ _ _ Hj) in Hst as (Hpay & Hok & Hs1 & Hs2 & Hkid & Hcrit).
  apply result_bind_Ok in H as (entry & He & H).
  apply result_bind_Ok in H as (signature & Hsig & H). apply _b64url_decode_Ok in Hsig as ->.
  apply reject_if_bind in H as [Hv%negb_false_iff H].
  apply result_bind_Ok in H as ([] & Ht%verify_times_Ok & [= ->]). subst kid.
  apply lookup_entry_Ok in He. split_and!; try done. exists entry. split; [done|].
  by exists protected, signature.
Qed.
End parsing.

(** ** What a verifier accepts *)

Section theorems.
Context {F : FloatText} {J : Jcs} {K : Ed25519}.

(** The statement an attestation stands for. *)
Definition statement_of (a : Attestation) : AttestationStatement :=
  mkStatement SCHEMA PROFILE (at_issuer a) (at_kid a) (at_authority a) (at_plan_id a)
    (at_launch_id a) (at_artifact_id a) (at_artifact_digest a)
    (mkProcessStatement (p_host (at_process a)) (p_role (at_process a)) (p_ordinal (at_process a))
       (p_start_id (at_process a)) (p_epoch (at_process a)))
    (at_obligation_id a) (at_event a) (at_observed_at a) (at_issued_at a) (at_expires_at a)
    (at_nonce a) (at_evidence_digest a) [].

Lemma json_eqb_members kv kv' :
  json_eqb (JObj kv) (JObj kv') = true → NoDup kv.*1 →
  Forall (λ k, json_eqb (json_get k kv) (json_get k kv') = true) kv.*1.
Proof.
  cbn [json_eqb]. intros [_ H]%andb_true_iff Hnd. rewrite forallb_forall in H.
  apply Forall_fmap, Forall_forall. intros [k v] Hin. cbn.
  specialize (H (k, v) (proj1 (list_elem_of_In _ _) Hin)). cbn in H. unfold json_get.
  rewrite (assoc_NoDup k kv v) by done. by destruct (assoc k kv').
Qed.

Lemma same_binding st a :
  json_eqb (JObj (actual_binding st)) (JObj (expected_binding a)) = true →
  st_schema st = SCHEMA → st_profile st = PROFILE → critical_claims st = [] → st = statement_of a.
Proof.
  intros H H1 H2 H3. apply json_eqb_members in H; [|by apply (bool_decide_unpack _)].
  unfold actual_binding, expected_binding in H. cbn [fmap list_fmap fst] in H.
  repeat match goal with H : Forall _ (_ :: _) |- _ => apply Forall_cons in H as [? H] end.
  repeat match goal with H : json_eqb (json_get _ _) _ = true |- _ =>
    repeat first [rewrite json_get_here in H|rewrite json_get_later in H by done]; cbn [json_eqb] in H end.
  destruct st as [? ? ? ? ? ? ? ? ? [? ? ? ? ?] ? ? ? ? ? ? ? ?].
  cbn [st_schema st_profile st_issuer st_kid st_subject st_plan_id st_launch_id
      st_plugin_id st_artifact_digest st_process st_obligation st_event st_observed_at st_issued_at
      st_expires_at st_challenge_nonce st_evidence_digest critical_claims
      ps_host ps_role ps_ordinal ps_start_identity ps_epoch] in *.
  bool_inv. unfold statement_of. by subst.
Qed.

(** C26: When SignedAttestationVerifier.verify accepts an attestation, the envelope
    stored under its nonce carries, in canonical JSON, exactly the statement made of the
    attestation's fields, under a signature that the key of an enabled trust entry (for
    its issuer, kid and subject, within its dates) verifies; the statement is timely,
    and its digest is that of the plan's plugin with the attested identifier. (jcs is
    assumed to ignore the order of members.) *)
Theorem accepted_attestation_signed (v : SignedAttestationVerifier) (a : Attestation) (now : Z) (p : Plan) :
  jcs_order → SignedAttestationVerifier_verify v a now p = Ok () →
  let st := statement_of a in
  ∃ envelope entry plugin,
    envelopes v !! at_nonce a = Some envelope ∧
    trusted (trust_store v) st now entry ∧ signed_by entry st envelope ∧
    timely st now (clock_skew v) (max_ttl v) (max_observation_age v) ∧
    plugin ∈ plugins p ∧ PluginIdentity_id plugin = at_artifact_id a ∧
    at_artifact_digest a = digest_prefix +:+ artifact_sha256 plugin.
Proof.
  intros Hj H. unfold SignedAttestationVerifier_verify in H.
  destruct (envelopes v !! at_nonce a) as [envelope|] eqn:He; [|done].
  apply result_bind_Ok in H as (st & Hst & H).
  apply (verified_statement _ _ _ _ _ _ _ Hj) in Hst as (Hok & H1 & H2 & H3 & Ht & entry & Htr & Hs).
  apply result_bind_Ok in H as ([] & Hplugin & H). unfold reject_if in H. apply raise_if_Ok in H.
  apply negb_false_iff, same_binding in H as ->; [|done..].
  destruct (list_find _ _) as [[i plugin]|] eqn:Hfind; [|done]. apply list_find_Some in Hfind as (Hi & Hid & _).
  cbn [fmap option_fmap option_map snd] in Hplugin. unfold reject_if in Hplugin. apply raise_if_Ok in Hplugin. bool_inv.
  exists envelope, entry, plugin. split_and!; try done. by eapply list_elem_of_lookup_2.
Qed.

(** ** Signing, then verifying *)

Fixpoint ascii_keys (v : json) : bool :=
  match v with
  | JArr l => forallb ascii_keys l
  | JObj kv => forallb (λ '(k, v), forallb (λ n, n <? 128)%N (bytes_of_string k) && ascii_keys v) kv
  | _ => true
  end.

(** RFC 8785 on values without floats: the compact text with sorted keys. *)
Definition jcs_text : Prop :=
  ∀ v, printable v → value_supported v = true → ascii_keys v = true →
  jcs_canonicalize v = Some (dumps false v).

Definition ed25519_correct : Prop := ∀ key message, ed_verify (public_key_of key) (ed_sign key message) message = true.

Definition no_dots (s : string) : Prop := Forall (λ n, n ≠ 46)%N (bytes_of_string s).

Lemma b64url_no_dots s : no_dots (_b64url s).
Proof.
  unfold no_dots. destruct (b64url_bytes s) as (l & [_ Ha _] & ->). apply Forall_fmap.
  eapply Forall_impl; [exact Ha|]. intros x (Hx & _)%alphabet_symbol H. cbn in H. by rewrite H in Hx.
Qed.

Lemma split_dots_plain s : no_dots s → split_dots s = [s].
Proof.
  unfold no_dots. induction s as [|a s IH]; [done|]. cbn [bytes_of_string]. intros [Ha Hs]%Forall_cons.
  cbn [split_dots]. apply N.eqb_neq in Ha. by rewrite Ha, IH.
Qed.

Lemma split_dots_dot s t : no_dots s → split_dots (s +:+ "." +:+ t) = s :: split_dots t.
Proof.
  unfold no_dots. induction s as [|a s IH]; [done|]. cbn [bytes_of_string]. intros [Ha Hs]%Forall_cons.
  rewrite string_app_cons. cbn [split_dots]. apply N.eqb_neq in Ha. by rewrite Ha, IH.
Qed.

Lemma split_dots_detached a c : no_dots a → no_dots c → split_dots (a +:+ ".." +:+ c) = [a; ""; c].
Proof.
  intros Ha Hc. change (".." +:+ c) with ("." +:+ (String (Ascii.ascii_of_N 46) c)).
  rewrite split_dots_dot by done. f_equal. change (String (Ascii.ascii_of_N 46) c) with ("" +:+ "." +:+ c).
  transitivity ("" :: split_dots c); [|by rewrite split_dots_plain]. apply (split_dots_dot "" c). constructor.
Qed.

Lemma canonicalize_text kv text :
  jcs_text → printable (JObj kv) → ascii_keys (JObj kv) = true → canonicalize kv = Ok text →
  text = dumps false (JObj kv).
Proof.
  intros Hj Hp Hk H. unfold canonicalize, _validate_values in H. apply reject_if_bind in H as [Hv%negb_false_iff H].
  rewrite Hj in H by done. by injection H.
Qed.

Lemma printable_unique v : printable v → unique_keys v.
Proof.
  induction v as [| | | | |l IH|kv IH] using json_nested_ind; try done.
  - intros Hl%printable_arr. apply unique_keys_arr. rewrite Forall_forall in *. auto.
  - intros [Hn Hl]%printable_obj. apply unique_keys_obj. split; [done|]. rewrite Forall_forall in *.
    intros p Hp. apply (IH p Hp), (Hl p Hp).
Qed.

Lemma to_dict_inj st st' : same_value (JObj (to_dict st)) (JObj (to_dict st')) → st' = st.
Proof.
  intros H. assert (∀ k, sort_keys (json_get k (to_dict st)) = sort_keys (json_get k (to_dict st'))) as Hk.
  { apply (f_equal (λ v, match v with JObj l => l | _ => [] end)) in H.
    change (sorted_members (to_dict st) = sorted_members (to_dict st')) in H. intros k.
    by rewrite <-!json_get_sorted, H by (by apply (bool_decide_unpack _)). }
  assert (Forall (λ k, sort_keys (json_get k (to_dict st)) = sort_keys (json_get k (to_dict st'))) top_fields) as Hall
    by (apply Forall_forall; auto). clear H Hk. unfold to_dict, top_fields in Hall.
  repeat match goal with H : Forall _ (_ :: _) |- _ => apply Forall_cons in H as [? H] end. clear Hall.
  repeat match goal with H : sort_keys (json_get _ _) = _ |- _ =>
    repeat first [rewrite !json_get_here in H|rewrite !json_get_later in H by done]; cbn [sort_keys] in H end.
  rewrite !sort_strings in *. destruct st as [? ? ? ? ? ? ? ? ? [? ? ? ? ?] ? ? ? ? ? ? ? ?].
  destruct st' as [? ? ? ? ? ? ? ? ? [? ? ? ? ?] ? ? ? ? ? ? ? ?]. 
  cbn [st_schema st_profile st_issuer st_kid st_subject st_plan_id st_launch_id
      st_plugin_id st_artifact_digest st_process st_obligation st_event st_observed_at st_issued_at
      st_expires_at st_challenge_nonce st_evidence_digest critical_claims] in *.
  match goal with H : sort_keys (ProcessStatement_asdict _) = _ |- _ => vm_compute in H end.
  match goal with H : JArr _ = JArr _ |- _ =>
    injection H as Hc; apply (list_fmap_eq_inj JStr) in Hc; [|by intros ?? [= ->]] end.
  by simplify_eq.
Qed.

Lemma protected_printable st : printable (JObj (to_dict st)) → printable (JObj (_protected (st_kid st))).
Proof.
  intros [_ H]%printable_obj. rewrite Forall_forall in H.
  destruct (H ("kid", JStr (st_kid st))) as [_ Hk].
  { unfold to_dict. do 3 apply list_elem_of_further. apply list_elem_of_here. }
  apply printable_obj. split; [by apply (bool_decide_unpack _)|].
  repeat apply Forall_cons_2; try apply Forall_nil_2; (split; [vm_compute; done|]); try exact Hk;
    try (vm_compute; done).
Qed.

Lemma sign_verify (st : AttestationStatement) (key : PrivateKey) (envelope : SignedEnvelope)
    (store : TrustStore) (entry : TrustEntry) (now skew ttl age : Z) :
  jcs_order → jcs_text → ed25519_correct →
  printable (JObj (to_dict st)) → critical_claims st = [] →
  sign st key = Ok envelope → trusted store st now entry → public_key entry = public_key_of key →
  timely st now skew ttl age →
  verify envelope store now skew ttl age = Ok st.
Proof.
  intros Hj Hjt Hed Hp Hcrit H Htr Hkey Ht. unfold sign in H.
  apply reject_if_bind in H as [Hs H]. bool_inv. cbv zeta in H.
  apply result_bind_Ok in H as (st' & Hst & H).
  apply validated_statement in Hst as [Hsame Hok]; [|by apply printable_unique].
  apply to_dict_inj in Hsame as ->.
  apply result_bind_Ok in H as (pay & Hpay & H). apply result_bind_Ok in H as (prot & Hprot & [= <-]).
  assert (printable (JObj (_protected (st_kid st)))) as Hpp by (by apply protected_printable).
  assert (ascii_keys (JObj (to_dict st)) = true) as Hak by (unfold to_dict; by rewrite Hcrit).
  pose proof (canonicalize_text _ _ Hjt Hp Hak Hpay) as Etext.
  pose proof (canonicalize_text _ _ Hjt Hpp eq_refl Hprot) as Eprot.
  unfold verify. cbn [detached_jws payload].
  rewrite split_dots_detached by apply b64url_no_dots.
  rewrite bool_decide_eq_true_2 by done. cbn [negb reject_if raise_if mbind result_bind].
  assert (verify_header (_b64url prot) = Ok (st_kid st)) as ->.
  { unfold verify_header. rewrite (proj2 (_b64url_decode_Ok _ prot) eq_refl). cbn [mbind result_bind].
    rewrite Eprot at 1. rewrite parse_strict_dumps by done. cbn [mbind result_bind].
    change (sorted_members (_protected (st_kid st))) with (_protected (st_kid st)).
    change (has_exactly header_fields (_protected (st_kid st))) with true. cbn [negb reject_if raise_if mbind result_bind].
    rewrite Hprot. cbn [mbind result_bind]. rewrite bool_decide_eq_true_2 by done. reflexivity. }
  cbn [mbind result_bind].
  assert (verify_payload (st_kid st) pay = Ok st) as ->.
  { unfold verify_payload. rewrite Etext at 1. rewrite parse_strict_dumps by done. cbn [mbind result_bind].
    rewrite <-(canonicalize_same (to_dict st)); [|done|by apply printable_unique|apply same_value_sorted].
    rewrite Hpay. cbn [mbind result_bind]. rewrite bool_decide_eq_true_2 by done.
    cbn [negb reject_if raise_if mbind result_bind]. rewrite validate_sorted by done.
    cbn [mbind result_bind]. rewrite Hcrit. rewrite !bool_decide_eq_true_2 by done. done. }
  cbn [mbind result_bind].
  rewrite (proj2 (lookup_entry_Ok _ _ _ _) Htr). cbn [mbind result_bind].
  rewrite (proj2 (_b64url_decode_Ok _ _) eq_refl). cbn [mbind result_bind].
  rewrite Hkey, Hed. cbn [negb reject_if raise_if mbind result_bind].
  by rewrite (proj2 (verify_times_Ok _ _ _ _ _) Ht).
Qed.

(** An envelope that sign makes of a statement without critical claims verifies to that
    statement, under any trust entry with the signing key that may vouch for it and at
    any time it is timely; base64url, strict JSON and the validator are computed,
    Ed25519 and jcs are assumed correct. *)
Theorem signed_statement_verifies (st : AttestationStatement) (key : PrivateKey) (envelope : SignedEnvelope)
    (store : TrustStore) (entry : TrustEntry) (now skew ttl age : Z) :
  jcs_order → jcs_text → ed25519_correct →
  printable (JObj (to_dict st)) → critical_claims st = [] →
  sign st key = Ok envelope → trusted store st now entry → public_key entry = public_key_of key →
  timely st now skew ttl age →
  verify envelope store now skew ttl age = Ok st.
Proof. intros. by eapply sign_verify. Qed.
End theorems.

(** ** The trust store *)

Section store.
Context {K : Ed25519}.

Lemma add_entry_Ok store item store' :
  add_entry store item = Ok store' →
  store !! (te_issuer item, te_kid item) = None ∧ store' = <[(te_issuer item, te_kid item) := item]> store.
Proof.
  unfold add_entry. intros H. apply reject_if_bind in H as [_ H]. cbv zeta in H.
  apply reject_if_bind in H as [Hn [= <-]]. split; [|done]. apply bool_decide_eq_false in Hn.
  by apply eq_None_not_Some.
Qed.

(** A trust store holds exactly the entries it was made of, each under its issuer and kid. *)
Lemma trust_store_entries entries store identity entry :
  TrustStore_init entries = Ok store →
  store !! identity = Some entry ↔ entry ∈ entries ∧ identity = (te_issuer entry, te_kid entry).
Proof.
  unfold TrustStore_init. revert store. induction entries as [|item entries IH] using rev_ind; intros store.
  - intros [= <-]. pose proof (lookup_empty (M := gmap (string * string)) (A := TrustEntry) identity) as He.
    unfold TrustStore in *. rewrite He. split; [done|]. by intros [?%elem_of_nil _].
  - rewrite foldR_snoc. intros (store0 & H0 & [Hn ->]%add_entry_Ok)%result_bind_Ok.
    specialize (IH store0 H0). rewrite elem_of_app, list_elem_of_singleton.
    unfold TrustStore in *. destruct (decide (identity = (te_issuer item, te_kid item))) as [->|Hne].
    + rewrite lookup_insert_eq. split; [intros [= <-]; auto|]. intros [[Hin| ->] He]; [|done].
      by rewrite (proj2 IH (conj Hin He)) in Hn.
    + rewrite lookup_insert_ne by done. rewrite IH. naive_solver.
Qed.
End store.

Module Example.
#[local] Instance float_text : FloatText := id.
#[local] Instance jcs : Jcs := λ v, Some (dumps false v).
(** A key that signs with a keyed digest. *)
#[local] Instance keyed_digest : Ed25519 :=
  {| PrivateKey := string; PublicKey := string; public_key_of := id;
     ed_sign key message := sha256_hexdigest (key +:+ message);
     ed_verify key signature message := bool_decide (signature = sha256_hexdigest (key +:+ message)) |}.

Lemma jcs_ordered : jcs_order.
Proof. intros v w _ H. unfold jcs_canonicalize, jcs. by rewrite (same_value_text v w H). Qed.
Lemma jcs_texts : jcs_text.
Proof. by intros v _ _ _. Qed.
Lemma keyed_digest_correct : ed25519_correct.
Proof. intros key message. by apply bool_decide_eq_true. Qed.

Definition hex64 : string := string_of_bytes (repeat 97%N 64).
Definition a_plugin : PluginIdentity := mkPlugin "org.vllm" "hust" "1.0" hex64.
Definition a_plugin_id : string := Eval vm_compute in PluginIdentity_id a_plugin.
Definition a_plan : Plan :=
  mkPlan [a_plugin] (mkHost "vllm-hust" "0.28" "vllm" "1") []
    [mkObligation "o1" "worker" "invoked" [0%Z]] (mkPredecessor 0 None []) false.
Definition an_attestation : Attestation :=
  mkAttestation "plan:1" "launch-1" (mkProcess "node" "worker" 0 "pid:7:start_ticks:9" 1) "o1" "invoked"
    "nonce-1" 100 160 a_plugin_id "host-runtime" "issuer" "kid-1" 99
    (digest_prefix +:+ hex64) (digest_prefix +:+ hex64).
Definition an_entry : TrustEntry := mkTrustEntry _ "issuer" "kid-1" "secret" {["host-runtime"]} 0 1000 true.
Definition a_store : TrustStore := {[("issuer", "kid-1") := an_entry]}.
Definition an_envelope : SignedEnvelope :=
  match sign (statement_of an_attestation) "secret" with Ok e => e | Raise _ => mkEnvelope "" "" end.
Definition a_verifier : SignedAttestationVerifier :=
  mkVerifier {["nonce-1" := an_envelope]} a_store 0 DEFAULT_MAX_TTL DEFAULT_MAX_OBSERVATION_AGE.

Lemma an_attestation_accepted : SignedAttestationVerifier_verify a_verifier an_attestation 120 a_plan = Ok ().
Proof. vm_compute. reflexivity. Qed.

Lemma accepted_attestation_signed_witness :
  ∃ entry, trusted a_store (statement_of an_attestation) 120 entry ∧
           signed_by entry (statement_of an_attestation) an_envelope.
Proof.
  destruct (accepted_attestation_signed a_verifier an_attestation 120 a_plan jcs_ordered an_attestation_accepted)
    as (envelope & entry & plugin & He & Htr & Hs & _).
  unfold a_verifier, an_attestation in He. cbn [envelopes at_nonce] in He.
  rewrite lookup_singleton_eq in He. apply Some_inj in He as <-. exists entry. exact (conj Htr Hs).
Defined.

Lemma signed_statement_verifies_witness :
  verify an_envelope a_store 120 0 300 300 = Ok (statement_of an_attestation).
Proof.
  apply (signed_statement_verifies (K := keyed_digest) (statement_of an_attestation) ("secret" : string) an_envelope
           a_store an_entry).
  - apply jcs_ordered.
  - apply jcs_texts.
  - apply keyed_digest_correct.
  - cbn -[utf8_string int_ok hex64 a_plugin_id].
    repeat match goal with |- _ ∧ _ => split end;
      first [exact I|by apply (bool_decide_unpack _)|apply Nat.leb_le; vm_compute; reflexivity
            |vm_compute; reflexivity].
  - reflexivity.
  - vm_compute. reflexivity.
  - split_and!; [exact (lookup_singleton_eq (M := gmap (string * string)) ("issuer", "kid-1") an_entry)|reflexivity|by apply elem_of_singleton|cbn; lia|cbn; lia].
  - reflexivity.
  - unfold timely. cbn. lia.
Defined.
End Example.
