(* ===== verification/HostEvidence.v ===== *)
(** * Host lifecycle events

    [src/vllm_hust_ext/host_evidence.py]: the strict parser of one raw host event, and the
    translation of an observed invocation into the statement a trusted issuer signs.  A parsed
    event stays the [dict] it is in the code.  [int(text)] is computed on ASCII text and is the
    class [UnicodeInt] on other text.  The theorems: what an accepted event satisfies, what a
    translated invocation is bound to, and which exceptions the parser raises. *)

From S2P Require Import Prelude PyStd JsonText JsonRoundTrip EcpaModel SignedAttestation.

Local Open Scope string_scope.
Local Open Scope list_scope.

(** ** [int(text)] *)

(** [int] on text that is not ASCII, [None] where it raises [ValueError]. *)
Class UnicodeInt : Type := unicode_int : string → option Z.

Definition int_space (n : N) : bool :=
  (((9 <=? n) && (n <=? 13)) || ((28 <=? n) && (n <=? 32)))%N.

Fixpoint drop_spaces (l : list N) : list N :=
  match l with
  | x :: l' => if int_space x then drop_spaces l' else l
  | [] => []
  end.
Definition strip_spaces (l : list N) : list N := rev (drop_spaces (rev (drop_spaces l))).

(** Digits, with single underscores between them: their value and their number. *)
Fixpoint int_digits (after_digit : bool) (value : N) (count : nat) (l : list N) : option (N * nat) :=
  match l with
  | [] => if after_digit then Some (value, count) else None
  | x :: l =>
      if ((48 <=? x) && (x <=? 57))%N then int_digits true (value * 10 + (x - 48)) (S count) l
      else if ((x =? 95)%N && after_digit) then int_digits false value count l
      else None
  end.

(** [int] on ASCII text without space around it. *)
Definition int_ascii (l : list N) : option Z :=
  let '(negative, digits) := match l with
                             | 45%N :: l => (true, l)
                             | 43%N :: l => (false, l)
                             | l => (false, l)
                             end in
  '(value, count) ← int_digits false 0 0 digits;
  if (MAX_STR_DIGITS <? count)%nat then None
  else Some (if negative : bool then - Z.of_N value else Z.of_N value)%Z.

Definition py_int {U : UnicodeInt} (text : string) : option Z :=
  let bs := bytes_of_string text in
  if forallb (λ n, n <? 128)%N bs then int_ascii (strip_spaces bs) else unicode_int text.

(** ** Events *)

Definition HOST_SCHEMA : string := "vllm-hust-plugin-evidence/0.1".
Definition EVENTS : list string := ["discovered"; "resolved"; "invoked"; "failed"; "skipped"].
Definition OBSERVATION_KINDS : list string :=
  ["loader_lifecycle"; "scheduler_resolution"; "scheduler_dispatch"].

Record EntryPointBinding : Type := mkBinding {
  b_group : string; b_name : string; b_value : string; b_plugin_id : string; b_obligation : string;
}.

Definition event_dict : Type := list (string * json).

Record HostReceipt : Type := mkReceipt {
  receipt_raw : string; receipt_event : event_dict; receipt_statement : AttestationStatement;
}.

Definition invalid_if (b : bool) : result att_exn () := reject_if b INVALID_STATEMENT.

(** No string or key of [v] has a surrogate. *)
Fixpoint encodable (v : json) : bool :=
  match v with
  | JStr s => negb (has_surrogate (bytes_of_string s))
  | JArr l => forallb encodable l
  | JObj kv => forallb (λ '(k, v), negb (has_surrogate (bytes_of_string k)) && encodable v) kv
  | _ => true
  end.

Definition _validate_unicode (v : json) : result att_exn () :=
  reject_if (negb (encodable v)) UNSUPPORTED_VALUE.

(** [v in names], which hashes [v]. *)
Definition in_set (v : json) (names : list string) : result att_exn bool :=
  match v with
  | JStr s => Ok (bool_decide (s ∈ names))
  | JArr _ | JObj _ => Raise TypeError
  | _ => Ok false
  end.

Definition required_fields : list string :=
  ["schema"; "event_id"; "event"; "observation_kind"; "entry_point"; "process"; "observed_at_ns";
   "delivery_attempt"; "plan_id"; "launch_id"; "binding_status"; "occurrence_id";
   "controller_instance_id"; "invocation_seq"; "dispatch_id"; "plugin_id"; "artifact_digest";
   "identity_status"; "detail"].
Definition legacy_process_fields : list string :=
  ["host"; "role"; "ordinal"; "pid"; "start_identity"; "process_epoch"].

Definition nonempty_string (v : json) : bool :=
  match v with JStr s => negb (bool_decide (s = "")) | _ => false end.
Definition natural (v : json) : bool := match v with JInt z => (0 <=? z)%Z | _ => false end.
Definition is_null (v : json) : bool := match v with JNull => true | _ => false end.
Definition is_string (v : json) : bool := match v with JStr _ => true | _ => false end.
Definition is_integer (v : json) : bool := match v with JInt _ | JBool _ => true | _ => false end.

Definition fields_of (v : json) (ok : event_dict → bool) : result att_exn event_dict :=
  match v with
  | JObj kv => _ ← invalid_if (negb (ok kv)); Ok kv
  | _ => reject INVALID_STATEMENT
  end.

Definition start_prefix (pid : Z) : string := "pid:" +:+ pretty pid +:+ ":start_ticks:".

(** The start identity names the pid and a number of ticks. *)
Definition check_start {U : UnicodeInt} (pid start_identity : json) : result att_exn () :=
  match pid, start_identity with
  | JInt pid, JStr s =>
      _ ← invalid_if (negb (starts_with (start_prefix pid) s));
      match py_int (remove_prefix (start_prefix pid) s) with
      | Some ticks => invalid_if (ticks <? 0)%Z
      | None => reject INVALID_STATEMENT
      end
  | _, _ => reject INVALID_STATEMENT
  end.

Definition occurrence_ok (v : json) : bool :=
  match v with
  | JNull => true
  | JInt z => (1 <=? z)%Z
  | JStr s => negb (bool_decide (s = ""))
  | _ => false
  end.
Definition invocation_ok (v : json) : bool :=
  match v with JNull => true | JInt z => (1 <=? z)%Z | _ => false end.
Definition is_sha256_hex (s : string) : bool := (String.length s =? 64)%nat && string_forallb is_hex s.
Definition dispatch_ok (v : json) : bool :=
  match v with JNull => true | JStr s => is_sha256_hex s | _ => false end.

Definition dispatch_material (process value : event_dict) : json :=
  JArr [json_get "host" process; json_get "start_identity" process; json_get "process_epoch" process;
        json_get "plan_id" value; json_get "launch_id" value;
        json_get "controller_instance_id" value; json_get "occurrence_id" value].

Definition digest_of (material : json) : json := JStr (sha256_hexdigest (dumps true material)).

(** The identity a scheduler event carries, by the kind of observation. *)
Definition check_scheduler (process value : event_dict) : result att_exn () :=
  let occurrence_id := json_get "occurrence_id" value in
  let controller := json_get "controller_instance_id" value in
  let invocation_seq := json_get "invocation_seq" value in
  let dispatch_id := json_get "dispatch_id" value in
  if json_eqb (json_get "observation_kind" value) (JStr "loader_lifecycle") then
    invalid_if (negb (forallb is_null [occurrence_id; controller; invocation_seq; dispatch_id]))
  else if json_eqb (json_get "observation_kind" value) (JStr "scheduler_resolution") then
    invalid_if (negb (json_eqb (json_get "event" value) (JStr "resolved"))
                || match controller with
                   | JStr c => negb (json_eqb occurrence_id (JStr ("controller:" +:+ c)))
                   | _ => true
                   end
                || negb (is_null invocation_seq) || negb (is_null dispatch_id))
  else
    _ ← invalid_if (negb (json_eqb (json_get "event" value) (JStr "invoked"))
                    || negb (is_string controller) || negb (is_integer occurrence_id)
                    || negb (json_eqb invocation_seq occurrence_id));
    invalid_if (negb (json_eqb dispatch_id (digest_of (dispatch_material process value)))).

Definition event_material (process entry value : event_dict) : json :=
  JArr ([json_get "host" process; json_get "pid" process; json_get "start_identity" process;
         json_get "process_epoch" process; json_get "role" process; json_get "ordinal" process;
         json_get "group" entry; json_get "name" entry; json_get "value" entry;
         json_get "event" value; json_get "detail" value; json_get "occurrence_id" value;
         json_get "plan_id" value; json_get "launch_id" value; json_get "observation_kind" value;
         json_get "controller_instance_id" value; json_get "delivery_attempt" value;
         json_get "observed_at_ns" value] ++
        (if is_null (json_get "assignment_source" process) then []
         else [json_get "assignment_source" process])).

(** A member of an object, or [None] where it is absent. *)
Definition has_key (k : string) (kv : event_dict) : bool := bool_decide (k ∈ kv.*1).

Section evidence.
Context {F : FloatText} {U : UnicodeInt}.

(** [parse_host_event] after [parse_strict] *)
Definition check_event (value : event_dict) : result att_exn event_dict :=
  _ ← invalid_if (negb (has_exactly required_fields value));
  _ ← invalid_if (negb (json_eqb (json_get "schema" value) (JStr HOST_SCHEMA)));
  known ← in_set (json_get "event" value) EVENTS;
  _ ← invalid_if (negb known);
  known ← in_set (json_get "observation_kind" value) OBSERVATION_KINDS;
  _ ← invalid_if (negb known);
  _ ← _validate_unicode (JObj value);
  entry ← fields_of (json_get "entry_point" value) (has_exactly ["group"; "name"; "value"]);
  process ← fields_of (json_get "process" value)
              (λ p, has_exactly legacy_process_fields p
                    || has_exactly ("assignment_source" :: legacy_process_fields) p);
  _ ← invalid_if (negb (forallb nonempty_string
        [json_get "event_id" value; json_get "identity_status" value;
         json_get "group" entry; json_get "name" entry; json_get "value" entry;
         json_get "host" process; json_get "role" process; json_get "start_identity" process]));
  _ ← (if has_key "assignment_source" process then
         known ← in_set (json_get "assignment_source" process) ["host"; "environment"];
         invalid_if (negb known)
       else Ok ());
  _ ← invalid_if (negb (forallb natural
        [json_get "ordinal" process; json_get "pid" process; json_get "process_epoch" process;
         json_get "observed_at_ns" value; json_get "delivery_attempt" value]));
  _ ← check_start (json_get "pid" process) (json_get "start_identity" process);
  _ ← invalid_if (match json_get "delivery_attempt" value with JInt z => (z <? 1)%Z | _ => true end);
  _ ← invalid_if (negb (forallb (λ v, is_null v || nonempty_string v)
        [json_get "plan_id" value; json_get "launch_id" value; json_get "detail" value;
         json_get "controller_instance_id" value]));
  known ← in_set (json_get "binding_status" value) ["bound"; "unbound"];
  _ ← invalid_if (negb known);
  let no_plan := is_null (json_get "plan_id" value) in
  let no_launch := is_null (json_get "launch_id" value) in
  _ ← invalid_if (xorb no_plan no_launch);
  _ ← invalid_if (xorb (negb no_plan && negb no_launch)
                    (json_eqb (json_get "binding_status" value) (JStr "bound")));
  _ ← invalid_if (negb (occurrence_ok (json_get "occurrence_id" value)));
  _ ← invalid_if (negb (invocation_ok (json_get "invocation_seq" value)));
  _ ← invalid_if (negb (dispatch_ok (json_get "dispatch_id" value)));
  _ ← check_scheduler process value;
  _ ← invalid_if (negb (json_eqb (json_get "event_id" value) (digest_of (event_material process entry value))));
  _ ← invalid_if (negb (is_null (json_get "plugin_id" value)) || negb (is_null (json_get "artifact_digest" value)));
  Ok value.

Definition parse_host_event (raw : string) : result att_exn event_dict :=
  value ← parse_strict raw;
  check_event value.

(** [event["process"]] and the like, on a parsed event. *)
Definition sub_object (k : string) (event : event_dict) : event_dict :=
  match json_get k event with JObj kv => kv | _ => [] end.
Definition text_of (v : json) : string := match v with JStr s => s | _ => "" end.
Definition integer_of (v : json) : Z := match v with JInt z => z | _ => 0%Z end.

Definition mismatch_if (b : bool) : result att_exn () := reject_if b BINDING_MISMATCH.

Definition translate_invocation (raw : string) (p : Plan) (launch_id : string) (process_epoch : Z)
    (binding : EntryPointBinding) (issuer kid challenge_nonce : string) (issued_at expires_at : Z)
    : result att_exn HostReceipt :=
  event ← parse_host_event raw;
  _ ← invalid_if (negb (json_eqb (json_get "event" event) (JStr "invoked")));
  _ ← mismatch_if (negb (json_eqb (json_get "binding_status" event) (JStr "bound")));
  let process := sub_object "process" event in
  let entry := sub_object "entry_point" event in
  _ ← mismatch_if (negb (json_eqb (json_get "assignment_source" process) (JStr "host")));
  _ ← mismatch_if (negb (json_eqb (json_get "plan_id" event) (JStr (Plan_plan_id p)))
                   || negb (json_eqb (json_get "launch_id" event) (JStr launch_id)));
  _ ← mismatch_if (negb (json_eqb (json_get "process_epoch" process) (JInt process_epoch)));
  _ ← mismatch_if (negb (json_eqb (json_get "group" entry) (JStr (b_group binding))
                         && json_eqb (json_get "name" entry) (JStr (b_name binding))
                         && json_eqb (json_get "value" entry) (JStr (b_value binding))));
  match snd <$> list_find (λ item, PluginIdentity_id item = b_plugin_id binding) (plugins p) with
  | None => reject BINDING_MISMATCH
  | Some plugin =>
      let statement :=
        mkStatement SCHEMA PROFILE issuer kid "host-runtime" (Plan_plan_id p) launch_id
          (PluginIdentity_id plugin) ("sha256:" +:+ artifact_sha256 plugin)
          (mkProcessStatement (text_of (json_get "host" process)) (text_of (json_get "role" process))
             (integer_of (json_get "ordinal" process)) (text_of (json_get "start_identity" process))
             process_epoch)
          (b_obligation binding) "invoked"
          (integer_of (json_get "observed_at_ns" event) / 1000000000) issued_at expires_at
          challenge_nonce ("sha256:" +:+ sha256_hexdigest raw) [] in
      Ok (mkReceipt raw event statement)
  end.
End evidence.

(** ** What an accepted event is *)

Definition string_at (k : string) (kv : event_dict) : Prop := ∃ s, json_get k kv = JStr s ∧ s ≠ "".
Definition natural_at (k : string) (kv : event_dict) : Prop := ∃ z, json_get k kv = JInt z ∧ (0 ≤ z)%Z.
Definition null_or_string_at (k : string) (kv : event_dict) : Prop :=
  json_get k kv = JNull ∨ string_at k kv.

(** The identity the scheduler gave the event. *)
Inductive scheduler_identity (ev process : event_dict) : Prop :=
  | loader :
      json_get "observation_kind" ev = JStr "loader_lifecycle" →
      json_get "occurrence_id" ev = JNull → json_get "controller_instance_id" ev = JNull →
      json_get "invocation_seq" ev = JNull → json_get "dispatch_id" ev = JNull →
      scheduler_identity ev process
  | resolution controller :
      json_get "observation_kind" ev = JStr "scheduler_resolution" →
      json_get "event" ev = JStr "resolved" →
      json_get "controller_instance_id" ev = JStr controller →
      json_get "occurrence_id" ev = JStr ("controller:" +:+ controller) →
      json_get "invocation_seq" ev = JNull → json_get "dispatch_id" ev = JNull →
      scheduler_identity ev process
  | dispatch controller n :
      json_get "observation_kind" ev = JStr "scheduler_dispatch" →
      json_get "event" ev = JStr "invoked" →
      json_get "controller_instance_id" ev = JStr controller →
      json_get "occurrence_id" ev = JInt n → json_get "invocation_seq" ev = JInt n → (1 ≤ n)%Z →
      json_get "dispatch_id" ev = digest_of (dispatch_material process ev) →
      scheduler_identity ev process.

Record event_ok {U : UnicodeInt} (ev : event_dict) : Prop := {
  event_fields : has_exactly required_fields ev = true;
  event_schema : json_get "schema" ev = JStr HOST_SCHEMA;
  event_kind : ∃ s, json_get "event" ev = JStr s ∧ s ∈ EVENTS;
  event_encodable : encodable (JObj ev) = true;
  event_entry : json_get "entry_point" ev = JObj (sub_object "entry_point" ev) ∧
    Forall (λ k, string_at k (sub_object "entry_point" ev)) ["group"; "name"; "value"];
  event_process : json_get "process" ev = JObj (sub_object "process" ev) ∧
    Forall (λ k, string_at k (sub_object "process" ev)) ["host"; "role"; "start_identity"] ∧
    Forall (λ k, natural_at k (sub_object "process" ev)) ["ordinal"; "pid"; "process_epoch"];
  event_assignment : json_get "assignment_source" (sub_object "process" ev) ∈
    [JNull; JStr "host"; JStr "environment"];
  event_start : ∃ pid ticks text,
    json_get "pid" (sub_object "process" ev) = JInt pid ∧
    json_get "start_identity" (sub_object "process" ev) = JStr (start_prefix pid +:+ text) ∧
    py_int text = Some ticks ∧ (0 ≤ ticks)%Z;
  event_attempt : natural_at "observed_at_ns" ev ∧ ∃ z, json_get "delivery_attempt" ev = JInt z ∧ (1 ≤ z)%Z;
  event_binding :
    (json_get "binding_status" ev = JStr "bound" ∧ string_at "plan_id" ev ∧ string_at "launch_id" ev) ∨
    (json_get "binding_status" ev = JStr "unbound" ∧ json_get "plan_id" ev = JNull ∧
     json_get "launch_id" ev = JNull);
  event_scheduler : scheduler_identity ev (sub_object "process" ev);
  event_identity : string_at "event_id" ev ∧
    json_get "event_id" ev =
    digest_of (event_material (sub_object "process" ev) (sub_object "entry_point" ev) ev);
  event_no_plugin : json_get "plugin_id" ev = JNull ∧ json_get "artifact_digest" ev = JNull;
}.

Lemma nonempty_string_spec v : nonempty_string v = true ↔ ∃ s, v = JStr s ∧ s ≠ "".
Proof. destruct v; cbn; rewrite ?negb_true_iff, ?bool_decide_eq_false; naive_solver. Qed.
Lemma natural_spec v : natural v = true ↔ ∃ z, v = JInt z ∧ (0 ≤ z)%Z.
Proof. destruct v; cbn; rewrite ?Z.leb_le; naive_solver. Qed.
Lemma is_null_spec v : is_null v = true ↔ v = JNull.
Proof. destruct v; naive_solver. Qed.

Lemma invalid_if_bind {A} b (r : result att_exn A) a :
  (_ ← invalid_if b; r) = Ok a ↔ b = false ∧ r = Ok a.
Proof. apply reject_if_bind. Qed.

Lemma in_set_Ok v names : in_set v names = Ok true ↔ ∃ s, v = JStr s ∧ s ∈ names.
Proof.
  destruct v; cbn; try naive_solver. split.
  - intros [= H%bool_decide_eq_true]. eauto.
  - intros (t & [= <-] & Ht). by rewrite bool_decide_eq_true_2.
Qed.

Lemma in_set_bind {A} v names (r : result att_exn A) a :
  (known ← in_set v names; _ ← invalid_if (negb known); r) = Ok a ↔
  (∃ s, v = JStr s ∧ s ∈ names) ∧ r = Ok a.
Proof.
  rewrite <-in_set_Ok. destruct (in_set v names) as [[]|e]; cbn [mbind result_bind];
    rewrite ?invalid_if_bind; naive_solver.
Qed.

Lemma fields_of_Ok v ok kv : fields_of v ok = Ok kv ↔ v = JObj kv ∧ ok kv = true.
Proof.
  destruct v; try naive_solver. cbn [fields_of]. rewrite invalid_if_bind, negb_false_iff. naive_solver.
Qed.

Lemma check_start_Ok {U : UnicodeInt} pid start :
  check_start pid start = Ok () → ∃ n ticks text, pid = JInt n ∧ start = JStr (start_prefix n +:+ text) ∧
    py_int text = Some ticks ∧ (0 ≤ ticks)%Z.
Proof.
  destruct pid as [| |n| | | |]; try done. destruct start as [| | | |s| |]; try done. cbn [check_start].
  intros H. apply invalid_if_bind in H as [(text & ->)%negb_false_iff%starts_with_spec H].
  rewrite remove_prefix_app in H. destruct (py_int text) as [ticks|] eqn:Ht; [|done].
  unfold invalid_if, reject_if in H. apply raise_if_Ok in H. apply Z.ltb_ge in H. by exists n, ticks, text.
Qed.

Lemma check_scheduler_Ok process ev :
  (∃ s, json_get "observation_kind" ev = JStr s ∧ s ∈ OBSERVATION_KINDS) →
  occurrence_ok (json_get "occurrence_id" ev) = true →
  invocation_ok (json_get "invocation_seq" ev) = true →
  check_scheduler process ev = Ok () → scheduler_identity ev process.
Proof.
  intros (kind & Hkind & Hin) Hocc Hinv H. unfold check_scheduler in H. cbv zeta in H.
  rewrite Hkind in H. cbn [json_eqb] in H.
  unfold OBSERVATION_KINDS in Hin. rewrite !elem_of_cons, elem_of_nil in Hin.
  destruct Hin as [->|[->|[->|[]]]].
  - change (bool_decide ("loader_lifecycle" = "loader_lifecycle")) with true in H. cbv iota in H.
    unfold invalid_if, reject_if in H. apply raise_if_Ok, negb_false_iff in H. cbn [forallb] in H.
    rewrite !andb_true_iff, !is_null_spec in H. naive_solver eauto using loader.
  - change (bool_decide ("scheduler_resolution" = "loader_lifecycle")) with false in H.
    change (bool_decide ("scheduler_resolution" = "scheduler_resolution")) with true in H. cbv iota in H.
    unfold invalid_if, reject_if in H. apply raise_if_Ok in H.
    rewrite !orb_false_iff, !negb_false_iff, !is_null_spec in H. destruct H as (((He & Hc) & Hs) & Hd).
    apply json_eqb_str in He.
    destruct (json_get "controller_instance_id" ev) as [| | | |c| |] eqn:Hctl; try done.
    apply negb_false_iff, json_eqb_str in Hc. by eapply (resolution _ _ c).
  - change (bool_decide ("scheduler_dispatch" = "loader_lifecycle")) with false in H.
    change (bool_decide ("scheduler_dispatch" = "scheduler_resolution")) with false in H. cbv iota in H.
    apply invalid_if_bind in H as [H Hd].
    rewrite !orb_false_iff, !negb_false_iff in H. destruct H as (((He & Hc) & Hi) & Hs).
    apply json_eqb_str in He. unfold invalid_if, reject_if in Hd. apply raise_if_Ok, negb_false_iff in Hd.
    apply json_eqb_str in Hd.
    destruct (json_get "controller_instance_id" ev) as [| | | |c| |] eqn:Hctl; try done.
    destruct (json_get "occurrence_id" ev) as [| |n| | | |] eqn:Ho; try done.
    cbn in Hocc. apply Z.leb_le in Hocc.
    destruct (json_get "invocation_seq" ev) as [| |m| | | |] eqn:Hq; try done.
    cbn in Hs. apply Z.eqb_eq in Hs as ->. by eapply (dispatch _ _ c n).
Qed.

Lemma json_get_absent k kv : has_key k kv = false → json_get k kv = JNull.
Proof.
  intros Hk%bool_decide_eq_false. unfold json_get. destruct (assoc k kv) eqn:E; [|done].
  exfalso. apply Hk, assoc_is_Some. by rewrite E.
Qed.

Lemma assignment_known process :
  (if has_key "assignment_source" process then
     known ← in_set (json_get "assignment_source" process) ["host"; "environment"];
     invalid_if (negb known)
   else Ok ()) = Ok () →
  json_get "assignment_source" process ∈ [JNull; JStr "host"; JStr "environment"].
Proof.
  destruct (has_key _ _) eqn:Hk; intros H; [|rewrite json_get_absent by done; by left].
  assert (in_set (json_get "assignment_source" process) ["host"; "environment"] = Ok true) as Hin
    by (destruct (in_set _ _) as [[]|]; done).
  apply in_set_Ok in Hin as (s & -> & Hs). rewrite !elem_of_cons, elem_of_nil in Hs.
  destruct Hs as [->|[->|[]]]; set_solver.
Qed.

Lemma binding_known value :
  is_null (json_get "plan_id" value) || nonempty_string (json_get "plan_id" value) = true →
  is_null (json_get "launch_id" value) || nonempty_string (json_get "launch_id" value) = true →
  (∃ s, json_get "binding_status" value = JStr s ∧ s ∈ ["bound"; "unbound"]) →
  xorb (is_null (json_get "plan_id" value)) (is_null (json_get "launch_id" value)) = false →
  xorb (negb (is_null (json_get "plan_id" value)) && negb (is_null (json_get "launch_id" value)))
    (json_eqb (json_get "binding_status" value) (JStr "bound")) = false →
  (json_get "binding_status" value = JStr "bound" ∧ string_at "plan_id" value ∧ string_at "launch_id" value) ∨
  (json_get "binding_status" value = JStr "unbound" ∧ json_get "plan_id" value = JNull ∧
   json_get "launch_id" value = JNull).
Proof.
  intros Hplan Hlaunch (s & -> & Hs) Hx Hb. rewrite !elem_of_cons, elem_of_nil in Hs.
  destruct (is_null (json_get "plan_id" value)) eqn:E1, (is_null (json_get "launch_id" value)) eqn:E2; try done.
  - apply is_null_spec in E1, E2. right. destruct Hs as [->|[->|[]]]; [|done]. done.
  - apply nonempty_string_spec in Hplan, Hlaunch. left. destruct Hs as [->|[->|[]]]; done.
Qed.

Lemma check_event_Ok {U : UnicodeInt} value ev : check_event value = Ok ev → ev = value ∧ event_ok ev.
Proof.
  intros H. unfold check_event in H.
  apply invalid_if_bind in H as [H1%negb_false_iff H].
  apply invalid_if_bind in H as [H2%negb_false_iff%json_eqb_str H].
  apply in_set_bind in H as [H3 H]. apply in_set_bind in H as [H4 H].
  apply reject_if_bind in H as [H5%negb_false_iff H].
  apply result_bind_Ok in H as (entry & [H6 H6']%fields_of_Ok & H).
  apply result_bind_Ok in H as (process & [H7 H7']%fields_of_Ok & H).
  apply invalid_if_bind in H as [H8%negb_false_iff H].
  apply result_bind_Ok in H as ([] & H9 & H).
  apply invalid_if_bind in H as [H10%negb_false_iff H].
  apply result_bind_Ok in H as ([] & H11%check_start_Ok & H).
  apply invalid_if_bind in H as [H12 H]. apply invalid_if_bind in H as [H13%negb_false_iff H].
  apply in_set_bind in H as [H14 H]. cbv zeta in H.
  apply invalid_if_bind in H as [H15 H]. apply invalid_if_bind in H as [H16 H].
  apply invalid_if_bind in H as [H17%negb_false_iff H]. apply invalid_if_bind in H as [H18%negb_false_iff H].
  apply invalid_if_bind in H as [_ H]. apply result_bind_Ok in H as ([] & H19 & H).
  apply invalid_if_bind in H as [H20%negb_false_iff%json_eqb_str H].
  apply invalid_if_bind in H as [H21 [= <-]]. split; [done|].
  assert (sub_object "process" value = process) as Hp by (unfold sub_object; by rewrite H7).
  assert (sub_object "entry_point" value = entry) as He by (unfold sub_object; by rewrite H6).
  cbn [forallb] in H8, H10, H13.
  repeat match goal with H : _ && _ = true |- _ => apply andb_true_iff in H as [? H] end.
  rewrite orb_false_iff, !negb_false_iff, !is_null_spec in H21.
  repeat match goal with
  | H : nonempty_string _ = true |- _ => apply nonempty_string_spec in H
  | H : natural _ = true |- _ => apply natural_spec in H
  end.
  split; rewrite ?Hp, ?He; try done; try by repeat (apply Forall_nil_2 || apply Forall_cons_2 || split).
  - by eapply assignment_known.
  - split; [done|]. destruct (json_get "delivery_attempt" value); try done. apply Z.ltb_ge in H12. eauto.
  - by eapply binding_known.
  - by apply check_scheduler_Ok.
Qed.

(** ** Exceptions of the parser *)

Section errors.
Context {F : FloatText} {U : UnicodeInt}.

Definition unhashable (v : json) : Prop := match v with JArr _ | JObj _ => True | _ => False end.

(** The members [check_event] looks up in a set. *)
Definition hashed_members (value : event_dict) : list json :=
  [json_get "event" value; json_get "observation_kind" value; json_get "binding_status" value;
   json_get "assignment_source" (sub_object "process" value)].

Definition event_error (value : event_dict) (e : att_exn) : Prop :=
  e = AttestationError INVALID_STATEMENT ∨ e = AttestationError UNSUPPORTED_VALUE ∨
  (e = TypeError ∧ Exists unhashable (hashed_members value)).

Lemma event_error_invalid value : event_error value (AttestationError INVALID_STATEMENT).
Proof. by left. Qed.
Lemma event_error_unicode value : event_error value (AttestationError UNSUPPORTED_VALUE).
Proof. right. by left. Qed.
#[local] Hint Resolve event_error_invalid event_error_unicode : raises.

Lemma invalid_if_errors value b : raises_only (event_error value) (invalid_if b).
Proof. unfold invalid_if, reject_if. solve_raises. Qed.
Lemma unicode_errors value v : raises_only (event_error value) (_validate_unicode v).
Proof. unfold _validate_unicode, reject_if. solve_raises. Qed.
#[local] Hint Resolve invalid_if_errors unicode_errors : raises.

Lemma in_set_errors value v names :
  v ∈ hashed_members value → raises_only (event_error value) (in_set v names).
Proof.
  intros Hv e He. right. right. destruct v; try done; (split; [by injection He|]);
    apply Exists_exists; by eexists.
Qed.

Lemma fields_of_errors value v ok : raises_only (event_error value) (fields_of v ok).
Proof. unfold fields_of, reject. solve_raises. Qed.
Lemma check_start_errors value pid start : raises_only (event_error value) (check_start pid start).
Proof. unfold check_start, reject. solve_raises. Qed.
Lemma check_scheduler_errors value process : raises_only (event_error value) (check_scheduler process value).
Proof. unfold check_scheduler. cbv zeta. solve_raises. Qed.
#[local] Hint Resolve fields_of_errors check_start_errors check_scheduler_errors : raises.

Lemma check_event_errors value : raises_only (event_error value) (check_event value).
Proof.
  unfold check_event. cbv zeta.
  repeat first [apply raises_only_Ok|solve [auto with raises]
    |apply in_set_errors; unfold hashed_members; set_solver|apply raises_only_bind; [|intros ? ?]].
  destruct (has_key _ _); [|apply raises_only_Ok]. apply raises_only_bind; [|auto with raises].
  apply in_set_errors. unfold hashed_members.
  match goal with H : fields_of (json_get "process" value) _ = Ok _ |- _ => apply fields_of_Ok in H as [Hp _] end.
  unfold sub_object. rewrite Hp. set_solver.
Qed.

Lemma parse_strict_errors raw e :
  parse_strict raw = Raise e → e = AttestationError MALFORMED_JSON ∨ e = AttestationError DUPLICATE_KEY ∨
  e = AttestationError UNSUPPORTED_VALUE ∨ e = ValueError.
Proof.
  unfold parse_strict. destruct (loads _pairs no_constant raw) as [v|le] eqn:E.
  { destruct v; try done; intros [= <-]; by left. }
  destruct le; try (intros [= <-]; by auto).
  assert (hook_error (λ e, e = AttestationError DUPLICATE_KEY ∨ e = AttestationError UNSUPPORTED_VALUE)
            (HookError e0)) as He.
  { eapply (loads_errors _ _pairs no_constant); [| |exact E].
    - intros kv. unfold _pairs. apply raises_only_bind; [|intros; apply raises_only_Ok].
      apply raises_only_foldR. intros d p _ e' He'. unfold reject_if, raise_if in He'.
      destruct (bool_decide _); [|done]. injection He' as <-. by left.
    - intros name e' [= <-]. by right. }
  intros [= <-]. destruct (He _ eq_refl); auto.
Qed.

(** parse_host_event fails with the attestation errors of the strict parser,
    INVALID_STATEMENT or UNSUPPORTED_VALUE, or the parser's ValueError; it raises
    TypeError only when a member it looks up in a set (event, observation_kind,
    binding_status or assignment_source) is an array or an object. *)
Theorem host_event_errors (raw : string) (e : att_exn) :
  parse_host_event raw = Raise e →
  (∃ code, e = AttestationError code ∧
     code ∈ [MALFORMED_JSON; DUPLICATE_KEY; UNSUPPORTED_VALUE; INVALID_STATEMENT]) ∨
  e = ValueError ∨
  (e = TypeError ∧ ∃ value, parse_strict raw = Ok value ∧ Exists unhashable (hashed_members value)).
Proof.
  unfold parse_host_event. destruct (parse_strict raw) as [value|e0] eqn:E; cbn [mbind result_bind].
  - intros [-> | [-> | [-> H]]]%check_event_errors; [left|left|right; right; eauto];
      eexists; (split; [done|]); set_solver.
  - intros [= ->]. apply parse_strict_errors in E as [-> | [-> | [-> | ->]]]; [left..|auto];
      eexists; (split; [done|]); set_solver.
Qed.
End errors.

(** ** From an observed invocation to an accepted attestation *)

Section pipeline.
Context {F : FloatText} {U : UnicodeInt} {J : Jcs} {K : Ed25519}.

(** The attestation a coordinator is given for a statement. *)
Definition attestation_of (st : AttestationStatement) : Attestation :=
  mkAttestation (st_plan_id st) (st_launch_id st)
    (mkProcess (ps_host (st_process st)) (ps_role (st_process st)) (ps_ordinal (st_process st))
       (ps_start_identity (st_process st)) (ps_epoch (st_process st)))
    (st_obligation st) (st_event st) (st_challenge_nonce st) (st_issued_at st) (st_expires_at st)
    (st_plugin_id st) (st_subject st) (st_issuer st) (st_kid st) (st_observed_at st)
    (st_evidence_digest st) (st_artifact_digest st).

Lemma json_eqb_refl_members kv :
  NoDup kv.*1 → Forall (λ p, json_eqb p.2 p.2 = true) kv → json_eqb (JObj kv) (JObj kv) = true.
Proof.
  intros Hnd Hall. cbn [json_eqb]. rewrite Nat.eqb_refl. cbn [andb].
  apply forallb_forall. intros [k v] Hin%list_elem_of_In.
  rewrite (assoc_NoDup k kv v) by done. rewrite Forall_forall in Hall. exact (Hall _ Hin).
Qed.

Lemma binding_of_statement st :
  json_eqb (JObj (actual_binding st)) (JObj (expected_binding (attestation_of st))) = true.
Proof.
  change (expected_binding (attestation_of st)) with (actual_binding st). apply json_eqb_refl_members.
  - by apply (bool_decide_unpack _).
  - unfold actual_binding. repeat apply Forall_cons_2; try apply Forall_nil_2; cbn;
      first [by apply bool_decide_eq_true|apply Z.eqb_refl].
Qed.

Record translated (raw : string) (p : Plan) (launch_id : string) (process_epoch : Z)
    (binding : EntryPointBinding) (r : HostReceipt) : Prop := {
  translated_event : parse_host_event raw = Ok (receipt_event r);
  translated_plugin : ∃ i plugin,
    list_find (λ item, PluginIdentity_id item = b_plugin_id binding) (plugins p) = Some (i, plugin) ∧
    st_plugin_id (receipt_statement r) = PluginIdentity_id plugin ∧
    st_artifact_digest (receipt_statement r) = digest_prefix +:+ artifact_sha256 plugin;
  translated_binding :
    json_get "event" (receipt_event r) = JStr "invoked" ∧
    json_get "binding_status" (receipt_event r) = JStr "bound" ∧
    json_get "plan_id" (receipt_event r) = JStr (Plan_plan_id p) ∧
    json_get "launch_id" (receipt_event r) = JStr launch_id ∧
    json_get "assignment_source" (sub_object "process" (receipt_event r)) = JStr "host";
  translated_entry_point :
    json_get "group" (sub_object "entry_point" (receipt_event r)) = JStr (b_group binding) ∧
    json_get "name" (sub_object "entry_point" (receipt_event r)) = JStr (b_name binding) ∧
    json_get "value" (sub_object "entry_point" (receipt_event r)) = JStr (b_value binding);
  translated_process :
    json_get "process_epoch" (sub_object "process" (receipt_event r)) = JInt process_epoch ∧
    json_get "host" (sub_object "process" (receipt_event r)) = JStr (ps_host (st_process (receipt_statement r))) ∧
    json_get "role" (sub_object "process" (receipt_event r)) = JStr (ps_role (st_process (receipt_statement r))) ∧
    json_get "ordinal" (sub_object "process" (receipt_event r)) = JInt (ps_ordinal (st_process (receipt_statement r))) ∧
    json_get "start_identity" (sub_object "process" (receipt_event r)) =
      JStr (ps_start_identity (st_process (receipt_statement r)));
  translated_statement :
    st_plan_id (receipt_statement r) = Plan_plan_id p ∧ st_launch_id (receipt_statement r) = launch_id ∧
    ps_epoch (st_process (receipt_statement r)) = process_epoch ∧
    st_obligation (receipt_statement r) = b_obligation binding ∧
    critical_claims (receipt_statement r) = [] ∧
    st_evidence_digest (receipt_statement r) = digest_prefix +:+ sha256_hexdigest raw;
}.

Lemma translate_Ok raw p launch_id epoch binding issuer kid nonce issued expires r :
  translate_invocation raw p launch_id epoch binding issuer kid nonce issued expires = Ok r →
  translated raw p launch_id epoch binding r ∧ st_challenge_nonce (receipt_statement r) = nonce.
Proof.
  intros H. unfold translate_invocation in H. apply result_bind_Ok in H as (ev & Hev & H).
  apply reject_if_bind in H as [H1%negb_false_iff%json_eqb_str H].
  apply reject_if_bind in H as [Hbound%negb_false_iff%json_eqb_str H]. cbv zeta in H.
  apply reject_if_bind in H as [H2%negb_false_iff%json_eqb_str H].
  apply reject_if_bind in H as [H3 H]. apply orb_false_iff in H3 as [H3%negb_false_iff%json_eqb_str H3'%negb_false_iff%json_eqb_str].
  apply reject_if_bind in H as [H4%negb_false_iff H]. apply reject_if_bind in H as [H5%negb_false_iff H].
  apply andb_true_iff in H5 as [[H5%json_eqb_str H6%json_eqb_str]%andb_true_iff H7%json_eqb_str].
  destruct (list_find _ _) as [[i plugin]|] eqn:Hfind; [|done]. cbn [fmap option_fmap option_map snd] in H.
  injection H as <-. split; [|done].
  pose proof Hev as Hok. unfold parse_host_event in Hok. apply result_bind_Ok in Hok as (v & _ & [-> Hok]%check_event_Ok).
  destruct Hok as [_ _ _ _ _ (_ & Hstr & Hnat) _ _ _ _ _ _ _].
  repeat match goal with H : Forall _ (_ :: _) |- _ => apply Forall_cons in H as [? H] end.
  repeat match goal with H : string_at _ _ |- _ => destruct H as (? & ? & _) end.
  repeat match goal with H : natural_at _ _ |- _ => destruct H as (? & ? & _) end.
  assert (json_get "process_epoch" (sub_object "process" v) = JInt epoch) as Hepoch.
  { match goal with H : json_get "process_epoch" _ = JInt _ |- _ => rewrite H in *; cbn [json_eqb] in H4; apply Z.eqb_eq in H4; by subst end. }
  split; cbn [receipt_event receipt_statement st_plugin_id st_artifact_digest st_process ps_host ps_role
    ps_ordinal ps_start_identity ps_epoch st_plan_id st_launch_id st_obligation critical_claims st_evidence_digest].
  - done.
  - by exists i, plugin.
  - done.
  - done.
  - split; [exact Hepoch|]. repeat match goal with H : json_get ?k (sub_object "process" v) = _ |- _ => rewrite H; clear H end. done.
  - done.
Qed.

(** C27: The evidence pipeline: when translate_invocation makes a receipt of a host's
    event, the event was an accepted, bound, host-assigned invocation of the plan,
    launch, process epoch and entry point asked for, the statement names a plugin of the
    plan with its digest, the process of the event and the digest of the event's bytes;
    and the envelope sign makes of that statement is accepted by
    SignedAttestationVerifier while the statement is timely and the trust entry vouches
    for it. *)
Theorem translated_invocation_accepted (raw : string) (p : Plan) (launch_id : string) (process_epoch : Z)
    (binding : EntryPointBinding) (issuer kid challenge_nonce : string) (issued_at expires_at : Z)
    (r : HostReceipt) (key : PrivateKey) (envelope : SignedEnvelope) (entry : TrustEntry)
    (v : SignedAttestationVerifier) (now : Z) :
  jcs_order → jcs_text → ed25519_correct →
  translate_invocation raw p launch_id process_epoch binding issuer kid challenge_nonce issued_at expires_at = Ok r →
  printable (JObj (to_dict (receipt_statement r))) →
  sign (receipt_statement r) key = Ok envelope →
  envelopes v !! challenge_nonce = Some envelope →
  trusted (trust_store v) (receipt_statement r) now entry → public_key entry = public_key_of key →
  timely (receipt_statement r) now (clock_skew v) (max_ttl v) (max_observation_age v) →
  translated raw p launch_id process_epoch binding r ∧
  SignedAttestationVerifier_verify v (attestation_of (receipt_statement r)) now p = Ok ().
Proof.
  intros Hj Hjt Hed Htr Hp Hsign He Htrust Hkey Ht.
  apply translate_Ok in Htr as [Htr Hnonce]. split; [done|].
  destruct Htr as [_ (i & plugin & Hfind & Hid & Hdigest) _ _ _ (_ & _ & _ & _ & Hcrit & _)].
  unfold SignedAttestationVerifier_verify. cbn [at_nonce attestation_of]. rewrite Hnonce, He.
  rewrite (sign_verify (receipt_statement r) key envelope (trust_store v) entry) by done.
  cbn [mbind result_bind]. cbn [at_artifact_id attestation_of]. rewrite Hid.
  pose proof Hfind as (_ & Hb & _)%list_find_Some. rewrite Hb, Hfind. cbn [fmap option_fmap option_map snd].
  rewrite Hdigest, bool_decide_eq_true_2 by done. cbn [negb reject_if raise_if mbind result_bind].
  by rewrite binding_of_statement.
Qed.
End pipeline.

Section well_formed.
Context {F : FloatText} {U : UnicodeInt}.

(** parse_host_event returns only well-formed events: exactly the schema's fields, typed
    process and entry-point identity, a start identity that names the pid, a binding
    status that agrees with plan and launch, the identity its scheduler kind requires,
    and event and dispatch ids that are the digests of their material. *)
Theorem accepted_event_well_formed (raw : string) (ev : event_dict) :
  parse_host_event raw = Ok ev → parse_strict raw = Ok ev ∧ unique_keys (JObj ev) ∧ event_ok ev.
Proof.
  unfold parse_host_event. intros (v & Hv & [-> Hok]%check_event_Ok)%result_bind_Ok.
  pose proof (parse_strict_unique _ _ Hv). done.
Qed.
End well_formed.

Module Example.
#[local] Existing Instance SignedAttestation.Example.float_text.
#[local] Existing Instance SignedAttestation.Example.jcs.
#[local] Existing Instance SignedAttestation.Example.keyed_digest.
#[local] Instance no_unicode : UnicodeInt := λ _, None.

Example int_texts :
  py_int " 1_0 " = Some 10%Z ∧ py_int "-007" = Some (-7)%Z ∧ py_int "1__0" = None ∧ py_int "" = None ∧
  py_int "+" = None.
Proof. vm_compute. by split_and!. Qed.

Definition a_plan : Plan := SignedAttestation.Example.a_plan.
Definition an_entry_point : event_dict :=
  [("group", JStr "vllm.general_plugins"); ("name", JStr "hust"); ("value", JStr "hust:register")].
Definition a_process : event_dict :=
  [("host", JStr "node"); ("role", JStr "worker"); ("ordinal", JInt 0); ("pid", JInt 7);
   ("start_identity", JStr "pid:7:start_ticks:9"); ("process_epoch", JInt 1);
   ("assignment_source", JStr "host")].
Definition a_plan_id : string := Eval vm_compute in Plan_plan_id a_plan.
Definition without_id (event : json) : event_dict :=
  [("schema", JStr HOST_SCHEMA); ("event", event);
   ("observation_kind", JStr "loader_lifecycle"); ("entry_point", JObj an_entry_point);
   ("process", JObj a_process); ("observed_at_ns", JInt 99000000123); ("delivery_attempt", JInt 1);
   ("plan_id", JStr a_plan_id); ("launch_id", JStr "launch-1"); ("binding_status", JStr "bound");
   ("occurrence_id", JNull); ("controller_instance_id", JNull); ("invocation_seq", JNull);
   ("dispatch_id", JNull); ("plugin_id", JNull); ("artifact_digest", JNull);
   ("identity_status", JStr "host-assigned"); ("detail", JNull)].
Definition event_text (event : json) : string :=
  dumps true (JObj (("event_id", digest_of (event_material a_process an_entry_point (without_id event)))
                    :: without_id event)).
Definition a_raw : string := Eval vm_compute in event_text (JStr "invoked").
Definition a_binding : EntryPointBinding :=
  mkBinding "vllm.general_plugins" "hust" "hust:register" SignedAttestation.Example.a_plugin_id "o1".

Definition a_receipt : HostReceipt :=
  Eval vm_compute in
  match translate_invocation a_raw a_plan "launch-1" 1 a_binding "issuer" "kid-1" "nonce-2" 100 160 with
  | Ok r => r
  | Raise _ => mkReceipt "" [] (mkStatement "" "" "" "" "" "" "" "" "" (mkProcessStatement "" "" 0 "" 0) "" "" 0 0 0 "" "" [])
  end.
Definition an_envelope : SignedEnvelope :=
  Eval vm_compute in
  match sign (receipt_statement a_receipt) "secret" with Ok e => e | Raise _ => mkEnvelope "" "" end.
Definition a_verifier : SignedAttestationVerifier :=
  mkVerifier {["nonce-2" := an_envelope]} SignedAttestation.Example.a_store 0 300 300.

Lemma a_raw_translated :
  translate_invocation a_raw a_plan "launch-1" 1 a_binding "issuer" "kid-1" "nonce-2" 100 160 = Ok a_receipt.
Proof. vm_compute. reflexivity. Qed.
Lemma a_receipt_signed : sign (receipt_statement a_receipt) "secret" = Ok an_envelope.
Proof. vm_compute. reflexivity. Qed.
Lemma a_receipt_printable : printable (JObj (to_dict (receipt_statement a_receipt))).
Proof.
  cbn -[utf8_string int_ok].
  repeat match goal with |- _ ∧ _ => split end;
    first [exact I|by apply (bool_decide_unpack _)|apply Nat.leb_le; vm_compute; reflexivity
          |vm_compute; reflexivity].
Qed.

Lemma translated_invocation_accepted_witness :
  translated a_raw a_plan "launch-1" 1 a_binding a_receipt ∧
  SignedAttestationVerifier_verify a_verifier (attestation_of (receipt_statement a_receipt)) 120 a_plan = Ok ().
Proof.
  apply (translated_invocation_accepted (K := SignedAttestation.Example.keyed_digest) a_raw a_plan "launch-1" 1
           a_binding "issuer" "kid-1" "nonce-2" 100 160 a_receipt ("secret" : string) an_envelope
           SignedAttestation.Example.an_entry a_verifier 120).
  - apply SignedAttestation.Example.jcs_ordered.
  - apply SignedAttestation.Example.jcs_texts.
  - apply SignedAttestation.Example.keyed_digest_correct.
  - exact a_raw_translated.
  - exact a_receipt_printable.
  - exact a_receipt_signed.
  - exact (lookup_singleton_eq (M := gmap string) "nonce-2" an_envelope).
  - split_and!; [exact (lookup_singleton_eq (M := gmap (string * string)) ("issuer", "kid-1") SignedAttestation.Example.an_entry)
      |reflexivity|by apply elem_of_singleton|cbn; lia|cbn; lia].
  - reflexivity.
  - unfold timely. cbn. lia.
Defined.

Lemma accepted_event_well_formed_witness : event_ok (receipt_event a_receipt).
Proof.
  apply (accepted_event_well_formed a_raw (receipt_event a_receipt)). vm_compute. reflexivity.
Defined.

(** An event whose kind is an array: [TypeError], not [AttestationError]. *)
Definition array_raw : string := Eval vm_compute in event_text (JArr []).
Lemma array_raw_refused : parse_host_event array_raw = Raise TypeError.
Proof. vm_compute. reflexivity. Qed.

Lemma host_event_errors_witness :
  (∃ code, TypeError = AttestationError code ∧
     code ∈ [MALFORMED_JSON; DUPLICATE_KEY; UNSUPPORTED_VALUE; INVALID_STATEMENT]) ∨
  TypeError = ValueError ∨
  (TypeError = TypeError ∧ ∃ value, parse_strict array_raw = Ok value ∧ Exists unhashable (hashed_members value)).
Proof. apply (host_event_errors array_raw). exact array_raw_refused. Defined.
End Example.
