(* ===== verification/TransactionModel.v ===== *)
(** * The finite exposure-transaction model: [experiments/transaction_model/explore.py]

    The abstract transaction, its invariants, the breadth-first exploration that
    checks them, and the proofs that the exploration is exhaustive and that the
    invariants hold in every reachable state. *)

From stdpp Require Import relations.
From S2P Require Import Prelude PyStd.

Local Open Scope string_scope.
Local Open Scope list_scope.

Inductive Phase : Type :=
  | PREDECESSOR_OPEN | CANDIDATE_STAGED | CANDIDATE_CLOSED | OPENING | CANDIDATE_OPEN
  | DRAINING | RECOVERING | ROLLED_BACK | FAILED_SAFE | SAFETY_UNKNOWN.

Inductive Route : Type := PREDECESSOR | CANDIDATE | CLOSED | UNKNOWN.

#[export] Instance Phase_eq_dec : EqDecision Phase.
Proof. solve_decision. Defined.
#[export] Instance Route_eq_dec : EqDecision Route.
Proof. solve_decision. Defined.

Definition Phase_value (p : Phase) : string :=
  match p with
  | PREDECESSOR_OPEN => "predecessor-open" | CANDIDATE_STAGED => "candidate-staged"
  | CANDIDATE_CLOSED => "candidate-closed" | OPENING => "opening"
  | CANDIDATE_OPEN => "candidate-open" | DRAINING => "draining"
  | RECOVERING => "recovering" | ROLLED_BACK => "rolled-back"
  | FAILED_SAFE => "failed-safe" | SAFETY_UNKNOWN => "safety-unknown"
  end.

Definition Route_value (r : Route) : string :=
  match r with
  | PREDECESSOR => "predecessor" | CANDIDATE => "candidate"
  | CLOSED => "closed" | UNKNOWN => "unknown"
  end.

Record State : Type := mkState {
  phase : Phase;
  route : Route;
  proof_complete : bool;
  lease_valid : bool;
  generation : Z;
  open_intent : bool;
  open_receipt : bool;
}.

#[export] Instance State_eq_dec : EqDecision State.
Proof. solve_decision. Defined.

Inductive Action : Type :=
  | stage | observe_complete | close_candidate | open_intent_action | open_effect
  | open_receipt_action | admit_request | start_drain | finish_drain | lose_lease
  | renew_lease | crash | reconcile | rollback_strong | rollback_failed_closed
  | rollback_failed_unknown.

#[export] Instance Action_eq_dec : EqDecision Action.
Proof. solve_decision. Defined.

Definition Action_value (a : Action) : string :=
  match a with
  | stage => "stage" | observe_complete => "observe-complete"
  | close_candidate => "close-candidate" | open_intent_action => "open-intent"
  | open_effect => "open-effect" | open_receipt_action => "open-receipt"
  | admit_request => "admit-request" | start_drain => "start-drain"
  | finish_drain => "finish-drain" | lose_lease => "lose-lease"
  | renew_lease => "renew-lease" | crash => "crash" | reconcile => "reconcile"
  | rollback_strong => "rollback-strong"
  | rollback_failed_closed => "rollback-failed-closed"
  | rollback_failed_unknown => "rollback-failed-unknown"
  end.

Definition ACTIONS : list Action :=
  [stage; observe_complete; close_candidate; open_intent_action; open_effect;
   open_receipt_action; admit_request; start_drain; finish_drain; lose_lease;
   renew_lease; crash; reconcile; rollback_strong; rollback_failed_closed;
   rollback_failed_unknown].

Definition initial_state : State :=
  mkState PREDECESSOR_OPEN PREDECESSOR false true 0 false false.

(** [replace(state, field=value)], per field the code replaces. *)
Definition with_phase (p : Phase) (s : State) : State :=
  mkState p (route s) (proof_complete s) (lease_valid s) (generation s)
    (open_intent s) (open_receipt s).
Definition with_route (r : Route) (s : State) : State :=
  mkState (phase s) r (proof_complete s) (lease_valid s) (generation s)
    (open_intent s) (open_receipt s).
Definition with_proof (b : bool) (s : State) : State :=
  mkState (phase s) (route s) b (lease_valid s) (generation s)
    (open_intent s) (open_receipt s).
Definition with_lease (b : bool) (s : State) : State :=
  mkState (phase s) (route s) (proof_complete s) b (generation s)
    (open_intent s) (open_receipt s).
Definition with_intent (b : bool) (s : State) : State :=
  mkState (phase s) (route s) (proof_complete s) (lease_valid s) (generation s)
    b (open_receipt s).
(** [replace(state, phase=CANDIDATE_OPEN, generation=1, open_receipt=True)] *)
Definition receipted (s : State) : State :=
  mkState CANDIDATE_OPEN (route s) (proof_complete s) (lease_valid s) 1
    (open_intent s) true.

Definition in_phase (s : State) (ps : list Phase) : bool := bool_decide (phase s ∈ ps).
Definition on_route (s : State) (r : Route) : bool := bool_decide (route s = r).

Definition can_admit (s : State) : bool :=
  if on_route s PREDECESSOR then
    in_phase s [PREDECESSOR_OPEN; CANDIDATE_STAGED; CANDIDATE_CLOSED]
  else
    on_route s CANDIDATE && in_phase s [CANDIDATE_OPEN; DRAINING]
    && proof_complete s && lease_valid s && (generation s =? 1)%Z && open_receipt s.

Definition rollback_phases : list Phase :=
  [CANDIDATE_STAGED; CANDIDATE_CLOSED; OPENING; CANDIDATE_OPEN; DRAINING].

(** [None] is [RejectedTransition]. *)
Definition transition (s : State) (action : Action) : option State :=
  let when (b : bool) (t : State) := if b then Some t else None in
  match action with
  | stage => when (in_phase s [PREDECESSOR_OPEN]) (with_phase CANDIDATE_STAGED s)
  | observe_complete =>
      when (in_phase s [CANDIDATE_STAGED; CANDIDATE_CLOSED] && lease_valid s)
        (with_proof true s)
  | close_candidate =>
      when (in_phase s [CANDIDATE_STAGED]) (with_phase CANDIDATE_CLOSED s)
  | open_intent_action =>
      when (in_phase s [CANDIDATE_CLOSED] && proof_complete s && lease_valid s)
        (with_intent true (with_phase OPENING s))
  | open_effect =>
      when (in_phase s [OPENING] && on_route s PREDECESSOR && open_intent s
            && proof_complete s && lease_valid s) (with_route CANDIDATE s)
  | open_receipt_action =>
      when (in_phase s [OPENING] && on_route s CANDIDATE && proof_complete s
            && lease_valid s && open_intent s) (receipted s)
  | admit_request => when (can_admit s) s
  | start_drain => when (in_phase s [CANDIDATE_OPEN]) (with_phase DRAINING s)
  | finish_drain => when (in_phase s [DRAINING]) (with_phase CANDIDATE_OPEN s)
  | lose_lease =>
      when (lease_valid s)
        (if on_route s CANDIDATE
         then with_lease false (with_route UNKNOWN (with_phase SAFETY_UNKNOWN s))
         else with_lease false s)
  | renew_lease =>
      when (negb (lease_valid s)
            && in_phase s [PREDECESSOR_OPEN; CANDIDATE_STAGED; CANDIDATE_CLOSED])
        (with_proof false (with_lease true s))
  | crash => when (in_phase s [OPENING; CANDIDATE_OPEN; DRAINING]) (with_phase RECOVERING s)
  | reconcile =>
      when (in_phase s [RECOVERING])
        (if on_route s UNKNOWN then with_phase SAFETY_UNKNOWN s
         else if on_route s CANDIDATE && proof_complete s && lease_valid s then receipted s
         else with_route CLOSED (with_phase FAILED_SAFE s))
  | rollback_strong =>
      when (in_phase s rollback_phases)
        (mkState ROLLED_BACK PREDECESSOR (proof_complete s) (lease_valid s) 0 false false)
  | rollback_failed_closed =>
      when (in_phase s rollback_phases) (with_route CLOSED (with_phase FAILED_SAFE s))
  | rollback_failed_unknown =>
      when (in_phase s rollback_phases) (with_route UNKNOWN (with_phase SAFETY_UNKNOWN s))
  end.

Definition invariant_errors (s : State) : list string :=
  let err (b : bool) (e : string) := if b then [e] else [] in
  (err (on_route s CANDIDATE && open_receipt s
        && negb (proof_complete s && (generation s =? 1)%Z && open_intent s))
     "candidate receipt lacks proof, generation, or intent" ++
   err (on_route s CANDIDATE && negb (open_receipt s)
        && (negb (proof_complete s) || negb (lease_valid s)
            || negb (in_phase s [OPENING; RECOVERING]) || can_admit s))
     "candidate side effect before receipt enables admission" ++
   err (in_phase s [PREDECESSOR_OPEN; CANDIDATE_STAGED; CANDIDATE_CLOSED]
        && (negb (on_route s PREDECESSOR) || negb (generation s =? 0)%Z))
     "pre-exposure phase lost predecessor route" ++
   err (in_phase s [FAILED_SAFE] && (negb (on_route s CLOSED) || can_admit s))
     "failed-safe state did not close admissions" ++
   err (in_phase s [SAFETY_UNKNOWN] && can_admit s)
     "safety-unknown state admitted a request" ++
   err (in_phase s [ROLLED_BACK]
        && (negb (on_route s PREDECESSOR) || negb (generation s =? 0)%Z
            || open_intent s || open_receipt s))
     "strong rollback did not restore predecessor identity" ++
   err (can_admit s && on_route s CANDIDATE
        && negb (proof_complete s && lease_valid s && open_receipt s))
     "candidate admission lacks current authority")%list.

Definition state_object (s : State) : json :=
  JObj [("phase", JStr (Phase_value (phase s))); ("route", JStr (Route_value (route s)));
        ("proof_complete", JBool (proof_complete s)); ("lease_valid", JBool (lease_valid s));
        ("generation", JInt (generation s)); ("open_intent", JBool (open_intent s));
        ("open_receipt", JBool (open_receipt s))].

(** ** The exploration *)

Record Search : Type := mkSearch {
  queue : list (State * Z);
  distances : list (State * Z);
  edges : list (State * Action * State);
  rejected : list (State * Action);
  counterexamples : list (Action * list string * State * State);
}.

(** [set.add] *)
Definition set_add {A} `{EqDecision A} (x : A) (l : list A) : list A :=
  if decide (x ∈ l) then l else l ++ [x].

(** The body of [for action in ACTIONS]. *)
Definition visit (state : State) (depth : Z) (w : Search) (action : Action) : Search :=
  match transition state action with
  | None => mkSearch (queue w) (distances w) (edges w)
              (set_add (state, action) (rejected w)) (counterexamples w)
  | Some target =>
      let errors := invariant_errors target in
      let cex := if decide (errors = []) then counterexamples w
                 else counterexamples w ++ [(action, errors, state, target)] in
      let edges' := set_add (state, action, target) (edges w) in
      if decide (target ∈ (distances w).*1)
      then mkSearch (queue w) (distances w) edges' (rejected w) cex
      else mkSearch (queue w ++ [(target, depth + 1)%Z])
             (od_set target (depth + 1)%Z (distances w)) edges' (rejected w) cex
  end.

(** [while queue]; the result says whether the queue ran empty. *)
Fixpoint search (fuel : nat) (w : Search) : bool * Search :=
  match fuel, queue w with
  | _, [] => (true, w)
  | O, _ => (false, w)
  | S fuel, (state, depth) :: q =>
      search fuel (foldl (visit state depth)
        (mkSearch q (distances w) (edges w) (rejected w) (counterexamples w)) ACTIONS)
  end.

Definition explore (fuel : nat) : bool * Search :=
  search fuel (mkSearch [(initial_state, 0%Z)] [(initial_state, 0%Z)] [] [] []).

Definition canonical (v : json) : string := dumps true v +:+ string_of_bytes [10%N].

(** [sorted(rows, key=lambda row: json.dumps(row, ...))] *)
Definition state_rows (w : Search) : list json :=
  sort_on (dumps true) (state_object <$> (distances w).*1).
Definition maximum_shortest_trace_length (w : Search) : Z :=
  foldr Z.max 0%Z (distances w).*2.

(** The breadth-first search visits each state once; 39 dequeues empty the queue. *)
Definition exploration : bool * Search := Eval vm_compute in explore 100.

Lemma exploration_explore : explore 100 = exploration.
Proof. vm_compute. reflexivity. Qed.

(** ** Reachability *)

Definition tstep (s t : State) : Prop := ∃ a, transition s a = Some t.
Definition reachable (s : State) : Prop := rtc tstep initial_state s.

Lemma ACTIONS_complete a : a ∈ ACTIONS.
Proof. destruct a; in_list. Qed.

(** A set that holds the initial state and is closed under the actions. *)
Definition closed_under_actions (l : list State) : bool :=
  forallb (λ s, forallb (λ a, match transition s a with
                              | Some t => bool_decide (t ∈ l)
                              | None => true
                              end) ACTIONS) l.

Lemma closed_contains_reachable l s :
  initial_state ∈ l → closed_under_actions l = true → reachable s → s ∈ l.
Proof.
  intros Hinit Hclosed Hs. unfold closed_under_actions in Hclosed.
  rewrite forallb_forall in Hclosed. setoid_rewrite forallb_forall in Hclosed.
  setoid_rewrite <-list_elem_of_In in Hclosed.
  revert s Hs. apply rtc_ind_r; [done|]. intros s t _ [a Ha] IH.
  specialize (Hclosed s IH a (ACTIONS_complete a)). rewrite Ha in Hclosed.
  by apply bool_decide_eq_true in Hclosed.
Qed.

(** Every dequeued or enqueued state of the search is reachable. *)
Definition search_sound (w : Search) : Prop :=
  (∀ s d, (s, d) ∈ queue w → reachable s) ∧ (∀ s, s ∈ (distances w).*1 → reachable s).

Lemma visit_sound s d w a : reachable s → search_sound w → search_sound (visit s d w a).
Proof.
  intros Hs [Hq Hd]. unfold visit.
  destruct (transition s a) as [t|] eqn:Ht; [|by split].
  assert (reachable t) by (eapply rtc_r; [exact Hs|by exists a]).
  case_decide; [by split|]. split; simpl.
  - intros s' d' [Hin|Hin%list_elem_of_singleton]%elem_of_app; [by eapply Hq|].
    by simplify_eq.
  - intros s' [->|Hin]%od_set_keys; [done|by apply Hd].
Qed.

Lemma visits_sound s d acts w :
  reachable s → search_sound w → search_sound (foldl (visit s d) w acts).
Proof.
  intros Hs. revert w. induction acts as [|a acts IH]; intros w Hw; simpl; [done|].
  by apply IH, visit_sound.
Qed.

Lemma search_sound_run fuel w : search_sound w → search_sound (search fuel w).2.
Proof.
  revert w. induction fuel as [|fuel IH]; intros w Hw; cbn [search].
  - by destruct (queue w) as [|[s d] q].
  - destruct (queue w) as [|[s d] q] eqn:Hq; [done|]. apply IH.
    assert (reachable s) as Hs by (eapply (proj1 Hw); rewrite Hq; by left).
    assert (search_sound (mkSearch q (distances w) (edges w) (rejected w)
              (counterexamples w))) as Hw'.
    { split; [|apply Hw]. simpl. intros s' d' Hin.
      eapply (proj1 Hw). rewrite Hq. by right. }
    by apply (visits_sound _ _ ACTIONS).
Qed.

Definition visited : list State := (distances exploration.2).*1.

Lemma visited_reachable s : s ∈ visited ↔ reachable s.
Proof.
  split.
  - unfold visited. rewrite <-exploration_explore. unfold explore.
    apply search_sound_run. split; simpl.
    + intros s' d [Hin|[]%elem_of_nil]%elem_of_cons. simplify_eq. apply rtc_refl.
    + intros s' [->|[]%elem_of_nil]%elem_of_cons. apply rtc_refl.
  - apply closed_contains_reachable; [in_list|by vm_compute].
Qed.

(** A boolean fact about all reachable states, by evaluation on the visited ones. *)
Lemma reachable_forall (p : State → bool) s :
  forallb p visited = true → reachable s → p s = true.
Proof.
  rewrite forallb_forall. setoid_rewrite <-list_elem_of_In.
  rewrite <-visited_reachable. auto.
Qed.

(** ** Properties *)

(** The breadth-first exploration empties its queue, visits no state twice, and visits
    exactly the states reachable by the transition function. *)
Theorem exploration_exhaustive :
  (explore 100).1 = true ∧ NoDup (distances (explore 100).2).*1 ∧
  ∀ s, s ∈ (distances (explore 100).2).*1 ↔ reachable s.
Proof.
  rewrite exploration_explore. split_and!; [done| |exact visited_reachable].
  by apply (bool_decide_unpack _); vm_compute.
Qed.

(** The exploration has the counts and the state digest of the checked-in artifact. *)
Theorem exploration_reproduces_artifact :
  let w := (explore 100).2 in
  length ACTIONS = 16 ∧ length (distances w) = 39 ∧ length (edges w) = 102 ∧
  length (rejected w) = 522 ∧ maximum_shortest_trace_length w = 8%Z ∧
  counterexamples w = [] ∧
  sha256_hexdigest (canonical (JArr (state_rows w))) =
    "d5daaf8af451cddba5edab04860ccaf5af2029da318fb7845e811bff765eb4dc".
Proof. cbv zeta. rewrite exploration_explore. split_and!; vm_compute; reflexivity. Qed.

(** Every reachable state of the transaction model passes all of invariant_errors; the
    candidate route is only taken under an open intent and a complete proof, and
    admission on it needs a valid lease, generation 1 and the open receipt. *)
Theorem reachable_states_satisfy_invariants s :
  reachable s →
  invariant_errors s = [] ∧
  (can_admit s = true → route s = CANDIDATE →
     proof_complete s = true ∧ lease_valid s = true ∧ generation s = 1%Z ∧
     open_intent s = true ∧ open_receipt s = true) ∧
  (route s = CANDIDATE → open_intent s = true ∧ proof_complete s = true).
Proof.
  intros Hs.
  apply (reachable_forall (λ s, bool_decide (invariant_errors s = []) &&
    (negb (can_admit s) || negb (on_route s CANDIDATE) ||
     (proof_complete s && lease_valid s && (generation s =? 1)%Z &&
      open_intent s && open_receipt s)) &&
    (negb (on_route s CANDIDATE) || (open_intent s && proof_complete s)))) in Hs;
    [|by vm_compute].
  apply andb_true_iff in Hs as [[Herr Hadm]%andb_true_iff Hcand].
  unfold on_route in Hadm, Hcand. split_and!.
  - by apply bool_decide_eq_true in Herr.
  - intros Ha Hr. rewrite Ha, bool_decide_true in Hadm by done. simpl in Hadm.
    bool_inv. by split_and!.
  - intros Hr. rewrite bool_decide_true in Hcand by done. simpl in Hcand. by bool_inv.
Qed.

Definition terminal_phases : list Phase := [ROLLED_BACK; FAILED_SAFE; SAFETY_UNKNOWN].

(** From a reachable state whose phase is terminal, no sequence of actions changes the
    phase or admits traffic. *)
Theorem terminal_phases_absorb s t :
  reachable s → phase s ∈ terminal_phases → rtc tstep s t →
  phase t = phase s ∧ can_admit t = false.
Proof.
  assert (∀ s, reachable s → phase s ∈ terminal_phases →
    can_admit s = false ∧ ∀ a u, transition s a = Some u → phase u = phase s) as Hone.
  { intros v Hv Ht.
    apply (reachable_forall (λ s, bool_decide (phase s ∉ terminal_phases) ||
      (negb (can_admit s) && forallb (λ a, match transition s a with
         Some u => bool_decide (phase u = phase s) | None => true end) ACTIONS))) in Hv;
      [|by vm_compute].
    rewrite bool_decide_false in Hv by tauto. apply andb_true_iff in Hv as [Ha Hall].
    bool_inv. split; [done|]. intros a u Hu. rewrite forallb_forall in Hall.
    specialize (Hall a (proj1 (list_elem_of_In _ _) (ACTIONS_complete a))).
    rewrite Hu in Hall. by bool_inv. }
  intros Hr Hs Hst. induction Hst as [s|s u t [a Ha] _ IH]; [by split; [|apply Hone]|].
  assert (reachable u) as Hu by (eapply rtc_r; [exact Hr|by exists a]).
  destruct (Hone s Hr Hs) as [_ Hp]. specialize (Hp a u Ha). rewrite <-Hp in *. auto.
Qed.

Lemma reachable_states_satisfy_invariants_witness :
  let s := mkState CANDIDATE_OPEN CANDIDATE true true 1 true true in
  can_admit s = true ∧
  invariant_errors s = [] ∧
  (can_admit s = true → route s = CANDIDATE →
     proof_complete s = true ∧ lease_valid s = true ∧ generation s = 1%Z ∧
     open_intent s = true ∧ open_receipt s = true) ∧
  (route s = CANDIDATE → open_intent s = true ∧ proof_complete s = true).
Proof.
  intros s. split; [done|]. apply reachable_states_satisfy_invariants.
  apply visited_reachable. in_list.
Defined.

Lemma terminal_phases_absorb_witness :
  let s := mkState FAILED_SAFE CLOSED true true 1 true true in
  phase (with_lease false s) = FAILED_SAFE ∧ can_admit (with_lease false s) = false.
Proof.
  intros s. apply (terminal_phases_absorb s).
  - apply visited_reachable. in_list.
  - in_list.
  - apply rtc_once. exists lose_lease. reflexivity.
Defined.
