(* ===== verification/ContractParse.v ===== *)
(** * Parsing ECPA contracts: the first half of [contract_compiler.py]

    The contract data model and the validators that turn decoded JSON into an
    [ExtensionContract] or a [ContractTaxonomy].  PEP 440 versions and
    specifiers come from the third-party [packaging] library: the class
    [Pep440] lists the operations the module calls and [Pep440Laws] the
    documented facts it relies on. *)

From S2P Require Import Prelude PyStd.
From S2P Require EcpaModel.

Local Open Scope string_scope.
Local Open Scope list_scope.

(** ** [packaging.version] and [packaging.specifiers] *)

Class Pep440 : Type := {
  version : Type;
  (** [Version(s)]; [None] is [InvalidVersion]. *)
  Version : string → option version;
  version_str : version → string;
  version_local : version → option string;
  specifier_set : Type;
  (** [SpecifierSet(s)]; [None] is [InvalidSpecifier]. *)
  SpecifierSet : string → option specifier_set;
  specifier_str : specifier_set → string;
  (** [specifier.version] of each member, in iteration order. *)
  specifier_versions : specifier_set → list string;
  (** [version in specifier_set] *)
  contains : specifier_set → version → bool;
}.

(** The normalised text of a version or specifier set parses back to it. *)
Class Pep440Laws `{Pep440} : Prop := {
  Version_str v : Version (version_str v) = Some v;
  SpecifierSet_str s : SpecifierSet (specifier_str s) = Some s;
}.

(** ** Errors *)

Inductive PlanningErrorCode : Type :=
  | INVALID_CONTRACT | DUPLICATE_PLUGIN | INCOMPATIBLE_HOST | MISSING_CAPABILITY
  | INCOMPATIBLE_CAPABILITY | AMBIGUOUS_CAPABILITY | DEPENDENCY_CYCLE
  | RESOURCE_CONFLICT | AUTHORITY_VIOLATION | UNKNOWN_RESOURCE | INVALID_RESOURCE_MODE.

#[export] Instance PlanningErrorCode_eq_dec : EqDecision PlanningErrorCode.
Proof. solve_decision. Defined.

Inductive exn : Type :=
  | ContractPlanningError (code : PlanningErrorCode) (detail : string)
  | InvalidVersion
  | InvalidSpecifier
  | KeyError
  | AttributeError.

Definition invalid {A} (detail : string) : result exn A :=
  Raise (ContractPlanningError INVALID_CONTRACT detail).
Definition invalid_if (b : bool) (detail : string) : result exn () :=
  raise_if b (ContractPlanningError INVALID_CONTRACT detail).

(** [repr] of a string free of quotes and escapes, and of a list of those. *)
Definition py_repr (s : string) : string := "'" +:+ s +:+ "'".
Definition py_repr_list (l : list string) : string :=
  "[" +:+ join ", " (py_repr <$> l) +:+ "]".

(** ** Constants *)

Definition _RESOURCE_MODES : list string := ["exclusive"; "shared-read"; "mediated"].
Definition _COMPLETION_MODES : list string := ["all"; "quorum"; "optional"].
Definition _EVENTS : list string := ["loaded"; "invoked"; "health-observed"].
Definition _AUTHORITY_KINDS : list string := ["provider"; "runtime"; "external"].
Definition _CAPABILITY_DIRECTIONS : list string := ["provides"; "requires"].
Definition _TAXONOMY_DECISION_PRECEDENCE : list string :=
  ["unknown-resource"; "invalid-mode"; "capability-cardinality"; "resource-mode";
   "mediator-consistency"; "mediator-presence"].
Definition _TAXONOMY_SCOPE : string := "vLLM-HUST-static-contract-study".

(** ** Contract data *)

Record Capability : Type := mkCapability { cap_name : string; cap_version : string }.

Record ContractResource : Type := mkResource {
  res_name : string; res_mode : string; res_mediator : option string;
}.

Record TaxonomyResource : Type := mkTaxonomyResource {
  canonical : string; aliases : list string; allowed_modes : list string;
}.

Record ContractTaxonomy : Type := mkTaxonomy {
  tax_schema : string; tax_scope : string; decision_precedence : list string;
  tax_capabilities : list string; tax_resources : list TaxonomyResource;
}.

Record ProcessObligationContract : Type := mkObligation {
  po_role : string; po_event : string; po_completion : string; po_authority : string;
  po_direction : string; po_capability : string; po_quorum : option Z;
}.

Record RollbackContract : Type := mkRollback {
  manager_owned : list string; external_operator_owned : list string;
}.

Record AuthorityGrant : Type := mkGrant {
  gr_role : string; gr_event : string; gr_direction : string; gr_capability : string;
}.

#[export] Instance AuthorityGrant_eq_dec : EqDecision AuthorityGrant.
Proof. solve_decision. Defined.

Record AuthorityContract : Type := mkAuthority {
  auth_provider : list AuthorityGrant;
  auth_runtime : list AuthorityGrant;
  auth_external : list AuthorityGrant;
}.

Record ExtensionContract : Type := mkContract {
  extension_id : string; ext_version : string; manifest_sha256 : string;
  host_runtime : string; host_version_range : string;
  provides : list Capability; requires : list Capability;
  resources : list ContractResource;
  process_obligations : list ProcessObligationContract;
  rollback : RollbackContract; authority : AuthorityContract;
}.

(** ** Validators *)

Definition _object (value : json) (location : string) (fields : list string)
    : result exn (list (string * json)) :=
  let error := invalid (location +:+ " requires exactly " +:+
                        py_repr_list (sort_on (λ s : string, s) fields)) in
  match value with
  | JObj kv => if has_exactly fields kv then Ok kv else error
  | _ => error
  end.

Definition _string (value : json) (location : string) : result exn string :=
  match value with
  | JStr s => if bool_decide (s = "") || negb (is_stripped s)
              then invalid (location +:+ " must be a non-empty trimmed string")
              else Ok s
  | _ => invalid (location +:+ " must be a non-empty trimmed string")
  end.

Definition dot : Ascii.ascii := Ascii.ascii_of_N 46.
Definition dash : Ascii.ascii := Ascii.ascii_of_N 45.

(** [[a-z0-9]+(?:[.-][a-z0-9]+)+]: whether a separator was seen, and whether the
    current segment is non-empty. *)
Fixpoint match_identifier (separator segment : bool) (s : string) : bool :=
  match s with
  | EmptyString => separator && segment
  | String c s =>
      if is_lower c || is_digit c then match_identifier separator true s
      else if bool_decide (c = dot) || bool_decide (c = dash)
      then segment && match_identifier true false s
      else false
  end.

Definition _identifier (value : json) (location : string) : result exn string :=
  result ← _string value location;
  _ ← invalid_if (negb (match_identifier false false result))
        (location +:+ " is not a canonical ECPA identifier");
  Ok result.

Definition as_array (value : json) (location : string) : result exn (list json) :=
  match value with
  | JArr l => Ok l
  | _ => invalid (location +:+ " must be an array")
  end.

Definition _string_array (value : json) (location : string) : result exn (list string) :=
  items ← as_array value location;
  result ← mapR (λ item, _string item (location +:+ "[]")) items;
  _ ← invalid_if (has_duplicates result) (location +:+ " contains duplicates");
  Ok (sort_on (λ s : string, s) result).

Definition at_index (location : string) (index : nat) : string :=
  location +:+ "[" +:+ pretty index +:+ "]".

Section parse.
Context {PV : Pep440}.

Definition _public_version (value : json) (location : string) : result exn string :=
  raw ← _string value location;
  match Version raw with
  | None => invalid (location +:+ " is not a PEP 440 version")
  | Some parsed =>
      _ ← invalid_if (bool_decide (is_Some (version_local parsed)))
            (location +:+ " must not contain a PEP 440 local version label");
      Ok (version_str parsed)
  end.

(** [s.removesuffix(".*")] *)
Definition remove_wildcard (s : string) : string :=
  if ends_with ".*" s then String.substring 0 (String.length s - 2) s else s.

(** The loop over the members of a specifier set. *)
Definition check_specifier (location v : string) : result exn () :=
  match Version (remove_wildcard v) with
  | None => invalid (location +:+ " is not a PEP 440 specifier set")
  | Some parsed =>
      invalid_if (bool_decide (is_Some (version_local parsed)))
        (location +:+ " must not contain a PEP 440 local version label")
  end.

Definition _public_specifier (value : json) (location : string) : result exn string :=
  raw ← _string value location;
  match SpecifierSet raw with
  | None => invalid (location +:+ " is not a PEP 440 specifier set")
  | Some parsed =>
      _ ← forR (check_specifier location) (specifier_versions parsed);
      Ok (specifier_str parsed)
  end.

Definition parse_capability (location : string) (requirements : bool)
    (raw : nat * json) : result exn Capability :=
  let here := at_index location raw.1 in
  item ← _object raw.2 here ["name"; "version"];
  name ← _identifier (json_get "name" item) (here +:+ ".name");
  version ← _string (json_get "version" item) (here +:+ ".version");
  version ← (if requirements then _public_specifier (JStr version) (here +:+ ".version")
             else _public_version (JStr version) (here +:+ ".version"));
  Ok (mkCapability name version).

Definition _capabilities (value : json) (location : string) (requirements : bool)
    : result exn (list Capability) :=
  items ← as_array value location;
  result ← mapR (parse_capability location requirements) (enumerate items);
  _ ← invalid_if (has_duplicates (cap_name <$> result))
        (location +:+ " contains duplicate capability names");
  Ok (sort_on cap_name result).
End parse.

Definition is_runtime_event (event : string) : bool :=
  bool_decide (event ∈ ["loaded"; "invoked"]).

Definition parse_grant (location authority_kind : string) (raw : nat * json)
    : result exn AuthorityGrant :=
  let here := at_index location raw.1 in
  item ← _object raw.2 here ["role"; "event"; "capability_direction"; "capability"];
  role ← _string (json_get "role" item) (here +:+ ".role");
  event ← _string (json_get "event" item) (here +:+ ".event");
  _ ← invalid_if (negb (bool_decide (event ∈ _EVENTS))) (here +:+ ".event is unsupported");
  _ ← raise_if (is_runtime_event event && negb (bool_decide (authority_kind = "runtime")))
        (ContractPlanningError AUTHORITY_VIOLATION
           (here +:+ " cannot claim " +:+ event +:+ " outside runtime authority"));
  direction ← _string (json_get "capability_direction" item)
                (here +:+ ".capability_direction");
  _ ← invalid_if (negb (bool_decide (direction ∈ _CAPABILITY_DIRECTIONS)))
        (here +:+ ".capability_direction is unsupported");
  capability ← _identifier (json_get "capability" item) (here +:+ ".capability");
  Ok (mkGrant role event direction capability).

Definition grant_key (g : AuthorityGrant) : string * (string * (string * string)) :=
  (gr_role g, (gr_event g, (gr_direction g, gr_capability g))).

Definition _authority_grants (value : json) (location authority_kind : string)
    : result exn (list AuthorityGrant) :=
  items ← as_array value location;
  grants ← mapR (parse_grant location authority_kind) (enumerate items);
  _ ← invalid_if (has_duplicates grants) (location +:+ " contains duplicates");
  Ok (sort_on grant_key grants).

(** ** Taxonomy *)

Definition parse_taxonomy_capability (raw : nat * json) : result exn string :=
  let here := at_index "taxonomy.capabilities" raw.1 in
  capability ← _object raw.2 here ["name"; "description"];
  name ← _identifier (json_get "name" capability) (here +:+ ".name");
  _ ← _string (json_get "description" capability) (here +:+ ".description");
  Ok name.

Definition parse_taxonomy_resource (raw : nat * json) : result exn TaxonomyResource :=
  let here := at_index "taxonomy.resources" raw.1 in
  resource ← _object raw.2 here ["canonical"; "aliases"; "allowed_modes"; "description"];
  canonical ← _identifier (json_get "canonical" resource) (here +:+ ".canonical");
  aliases ← _string_array (json_get "aliases" resource) (here +:+ ".aliases");
  _ ← mapR (λ ia, _identifier (JStr ia.2) (at_index (here +:+ ".aliases") ia.1))
        (enumerate aliases);
  allowed_modes ← _string_array (json_get "allowed_modes" resource)
                    (here +:+ ".allowed_modes");
  _ ← invalid_if (bool_decide (allowed_modes = [])
                  || negb (forallb (λ m, bool_decide (m ∈ _RESOURCE_MODES)) allowed_modes))
        (here +:+ ".allowed_modes is unsupported");
  _ ← _string (json_get "description" resource) (here +:+ ".description");
  Ok (mkTaxonomyResource canonical aliases allowed_modes).

Definition as_nonempty_array (value : json) (location : string) : result exn (list json) :=
  match value with
  | JArr (x :: l) => Ok (x :: l)
  | _ => invalid (location +:+ " must be a non-empty array")
  end.

Definition resource_names (r : TaxonomyResource) : list string := canonical r :: aliases r.

Definition parse_contract_taxonomy (payload : json) : result exn ContractTaxonomy :=
  item ← _object payload "taxonomy"
           ["schema"; "scope"; "decision_precedence"; "capabilities"; "resources"];
  schema ← _string (json_get "schema" item) "taxonomy.schema";
  _ ← invalid_if (negb (bool_decide (schema = "ecpa-contract-taxonomy/0.1-draft")))
        "taxonomy.schema is unsupported";
  scope ← _string (json_get "scope" item) "taxonomy.scope";
  _ ← invalid_if (negb (bool_decide (scope = _TAXONOMY_SCOPE))) "taxonomy.scope is unsupported";
  raw_precedence ← as_array (json_get "decision_precedence" item)
                     "taxonomy.decision_precedence";
  precedence ← mapR (λ v, _string v "taxonomy.decision_precedence[]") raw_precedence;
  _ ← invalid_if (negb (bool_decide (precedence = _TAXONOMY_DECISION_PRECEDENCE)))
        "taxonomy.decision_precedence is unsupported";
  raw_capabilities ← as_nonempty_array (json_get "capabilities" item) "taxonomy.capabilities";
  capabilities ← mapR parse_taxonomy_capability (enumerate raw_capabilities);
  _ ← invalid_if (has_duplicates capabilities)
        "taxonomy.capabilities contains duplicate names";
  raw_resources ← as_nonempty_array (json_get "resources" item) "taxonomy.resources";
  resources ← mapR parse_taxonomy_resource (enumerate raw_resources);
  _ ← invalid_if (has_duplicates (resources ≫= resource_names))
        "taxonomy resource canonical names and aliases must be globally unique";
  Ok (mkTaxonomy schema scope precedence (sort_on (λ s : string, s) capabilities)
        (sort_on canonical resources)).

(** ** Contracts *)

Definition contract_fields : list string :=
  ["schema"; "id"; "version"; "host"; "capabilities"; "resources";
   "process_obligations"; "rollback"; "authority"].

Definition obligation_fields : list string :=
  ["role"; "event"; "completion"; "authority"; "capability_direction"; "capability"].

(** The top-level shape and schema test of [parse_contract]. *)
Definition contract_payload (payload : json) : result exn (list (string * json)) :=
  match payload with
  | JObj kv =>
      _ ← invalid_if (negb (has_exactly contract_fields kv)
                      && negb (has_exactly ("deprecated" :: contract_fields) kv))
            "contract fields do not match ecpa-manifest/0.1-draft";
      match json_get "schema" kv with
      | JStr s => _ ← invalid_if (negb (bool_decide (s = "ecpa-manifest/0.1-draft")))
                        "unsupported contract schema"; Ok kv
      | _ => invalid "unsupported contract schema"
      end
  | _ => invalid "contract fields do not match ecpa-manifest/0.1-draft"
  end.

Definition parse_resource (raw : nat * json) : result exn ContractResource :=
  let here := at_index "resources" raw.1 in
  item ← match raw.2 with
         | JObj kv => _ ← invalid_if (negb (has_exactly ["name"; "mode"] kv)
                                      && negb (has_exactly ["name"; "mode"; "mediator"] kv))
                            (here +:+ " requires name/mode and optional mediator"); Ok kv
         | _ => invalid (here +:+ " requires name/mode and optional mediator")
         end;
  name ← _identifier (json_get "name" item) (here +:+ ".name");
  mode ← _string (json_get "mode" item) (here +:+ ".mode");
  let mediator := json_get "mediator" item in
  _ ← invalid_if (negb (bool_decide (mode ∈ _RESOURCE_MODES))) (here +:+ ".mode is unsupported");
  if bool_decide (mode = "mediated") then
    m ← _identifier mediator (here +:+ ".mediator");
    Ok (mkResource name mode (Some m))
  else
    match mediator with
    | JNull => Ok (mkResource name mode None)
    | _ => invalid (here +:+ " cannot declare a mediator for " +:+ mode)
    end.

Definition parse_quorum (completion : string) (quorum : json) (here : string)
    : result exn (option Z) :=
  if bool_decide (completion = "quorum") then
    match quorum with
    | JInt q => _ ← invalid_if (q <? 1)%Z (here +:+ ".quorum must be a positive integer");
                Ok (Some q)
    | _ => invalid (here +:+ ".quorum must be a positive integer")
    end
  else Ok None.

Definition declared_capabilities (provides requires : list Capability) (direction : string)
    : list string :=
  cap_name <$> (if bool_decide (direction = "provides") then provides else requires).

Definition parse_obligation (provides requires : list Capability) (raw : nat * json)
    : result exn ProcessObligationContract :=
  let here := at_index "process_obligations" raw.1 in
  kv ← match raw.2 with
       | JObj kv => Ok kv
       | _ => invalid (here +:+ " must be an object")
       end;
  completion ← _string (json_get "completion" kv) (here +:+ ".completion");
  item ← _object raw.2 here
           (if bool_decide (completion = "quorum") then "quorum" :: obligation_fields
            else obligation_fields);
  role ← _string (json_get "role" item) (here +:+ ".role");
  event ← _string (json_get "event" item) (here +:+ ".event");
  _ ← invalid_if (negb (bool_decide (event ∈ _EVENTS))
                  || negb (bool_decide (completion ∈ _COMPLETION_MODES)))
        (here +:+ " has unsupported semantics");
  authority_kind ← _string (json_get "authority" item) (here +:+ ".authority");
  _ ← invalid_if (negb (bool_decide (authority_kind ∈ _AUTHORITY_KINDS)))
        (here +:+ ".authority is unsupported");
  _ ← raise_if (is_runtime_event event && negb (bool_decide (authority_kind = "runtime")))
        (ContractPlanningError AUTHORITY_VIOLATION
           (here +:+ " " +:+ event +:+ " must use runtime authority"));
  direction ← _string (json_get "capability_direction" item)
                (here +:+ ".capability_direction");
  _ ← invalid_if (negb (bool_decide (direction ∈ _CAPABILITY_DIRECTIONS)))
        (here +:+ ".capability_direction is unsupported");
  capability ← _identifier (json_get "capability" item) (here +:+ ".capability");
  _ ← raise_if (negb (bool_decide
          (capability ∈ declared_capabilities provides requires direction)))
        (ContractPlanningError AUTHORITY_VIOLATION
           (here +:+ " references an undeclared capability"));
  quorum ← parse_quorum completion (json_get "quorum" item) here;
  Ok (mkObligation role event completion authority_kind direction capability quorum).

Definition obligation_key (o : ProcessObligationContract)
    : string * (string * (string * string)) :=
  (po_role o, (po_event o, (po_direction o, po_capability o))).

(** The key [parse_contract] sorts obligations with; [item.quorum or 0] last. *)
Definition obligation_sort_key (o : ProcessObligationContract)
    : string * (string * (string * (string * (string * (string * Z))))) :=
  (po_role o, (po_event o, (po_completion o, (po_authority o, (po_direction o,
    (po_capability o, default 0%Z (po_quorum o))))))).

(** [getattr(authority, kind)] *)
Definition authority_grants (a : AuthorityContract) (kind : string)
    : option (list AuthorityGrant) :=
  if bool_decide (kind = "provider") then Some (auth_provider a)
  else if bool_decide (kind = "runtime") then Some (auth_runtime a)
  else if bool_decide (kind = "external") then Some (auth_external a)
  else None.

Definition check_grant_capability (provides requires : list Capability) (kind : string)
    (g : AuthorityGrant) : result exn () :=
  raise_if (negb (bool_decide
      (gr_capability g ∈ declared_capabilities provides requires (gr_direction g))))
    (ContractPlanningError AUTHORITY_VIOLATION
       ("authority." +:+ kind +:+ " grant references an undeclared " +:+
        gr_direction g +:+ " capability " +:+ gr_capability g)).

Section parse_contract.
Context {PV : Pep440}.

Definition parse_contract (payload : json) : result exn ExtensionContract :=
  kv ← contract_payload payload;
  extension_id ← _identifier (json_get "id" kv) "id";
  version ← _public_version (json_get "version" kv) "version";
  host ← _object (json_get "host" kv) "host" ["runtime"; "version"];
  host_runtime ← _string (json_get "runtime" host) "host.runtime";
  host_range ← _public_specifier (json_get "version" host) "host.version";
  capabilities ← _object (json_get "capabilities" kv) "capabilities"
                   ["provides"; "requires"];
  provides ← _capabilities (json_get "provides" capabilities)
               "capabilities.provides" false;
  requires ← _capabilities (json_get "requires" capabilities)
               "capabilities.requires" true;
  raw_resources ← as_array (json_get "resources" kv) "resources";
  resources ← mapR parse_resource (enumerate raw_resources);
  _ ← invalid_if (has_duplicates (res_name <$> resources))
        "resources contains duplicate resource names";
  raw_obligations ← as_nonempty_array (json_get "process_obligations" kv)
                      "process_obligations";
  obligations ← mapR (parse_obligation provides requires) (enumerate raw_obligations);
  _ ← invalid_if (has_duplicates (obligation_key <$> obligations))
        ("process_obligations contains duplicate " +:+
         "role/event/direction/capability keys");
  rollback ← _object (json_get "rollback" kv) "rollback"
               ["manager_owned"; "external_operator_owned"];
  authority ← _object (json_get "authority" kv) "authority"
                ["provider"; "runtime"; "external"];
  _ ← (if bool_decide ("deprecated" ∈ kv.*1) then
         deprecated ← _object (json_get "deprecated" kv) "deprecated"
                        ["since"; "replacement"];
         _ ← _string (json_get "since" deprecated) "deprecated.since";
         _ ← _identifier (json_get "replacement" deprecated) "deprecated.replacement";
         Ok ()
       else Ok ());
  provider ← _authority_grants (json_get "provider" authority) "authority.provider"
               "provider";
  runtime ← _authority_grants (json_get "runtime" authority) "authority.runtime"
              "runtime";
  external ← _authority_grants (json_get "external" authority) "authority.external"
               "external";
  _ ← forR (check_grant_capability provides requires "external") external;
  _ ← forR (check_grant_capability provides requires "provider") provider;
  _ ← forR (check_grant_capability provides requires "runtime") runtime;
  manager_owned ← _string_array (json_get "manager_owned" rollback)
                    "rollback.manager_owned";
  external_owned ← _string_array (json_get "external_operator_owned" rollback)
                     "rollback.external_operator_owned";
  Ok (mkContract extension_id version
        (sha256_hexdigest (EcpaModel.canonical_bytes payload))
        host_runtime host_range provides requires (sort_on res_name resources)
        (sort_on obligation_sort_key obligations)
        (mkRollback manager_owned external_owned)
        (mkAuthority provider runtime external)).
End parse_contract.

(** ** What a parsed contract satisfies *)

(** The grammar of canonical identifiers, as segments joined by separators. *)
Definition segment_char (c : Ascii.ascii) : Prop := is_lower c = true ∨ is_digit c = true.

Inductive identifier_tail : string → Prop :=
  | tail_end : identifier_tail EmptyString
  | tail_char c s : segment_char c → identifier_tail s → identifier_tail (String c s)
  | tail_sep sep c s :
      sep = dot ∨ sep = dash → segment_char c →
      identifier_tail s → identifier_tail (String sep (String c s)).

Definition has_separator (s : string) : Prop :=
  has_char (dot) s = true ∨ has_char (dash) s = true.

Definition identifier (s : string) : Prop :=
  ∃ c t, s = String c t ∧ segment_char c ∧ identifier_tail t ∧ has_separator t.

Section wf.
Context {PV : Pep440}.

Definition wf_version (s : string) : Prop := ∃ v, Version s = Some v.
Definition wf_specifier (s : string) : Prop := ∃ r, SpecifierSet s = Some r.

Record wf_obligation (c : ExtensionContract) (o : ProcessObligationContract) : Prop := {
  wo_event : po_event o ∈ _EVENTS;
  wo_completion : po_completion o ∈ _COMPLETION_MODES;
  wo_authority : po_authority o ∈ _AUTHORITY_KINDS;
  wo_runtime : po_event o ∈ ["loaded"; "invoked"] → po_authority o = "runtime";
  wo_direction : po_direction o ∈ _CAPABILITY_DIRECTIONS;
  wo_declared : po_capability o ∈
    declared_capabilities (provides c) (requires c) (po_direction o);
  wo_quorum : (po_completion o = "quorum" ∧ ∃ q, po_quorum o = Some q ∧ (1 ≤ q)%Z) ∨
              (po_completion o ≠ "quorum" ∧ po_quorum o = None);
}.

Definition wf_grants (c : ExtensionContract) (kind : string) (gs : list AuthorityGrant)
    : Prop :=
  NoDup gs ∧ ∀ g, g ∈ gs →
    gr_event g ∈ _EVENTS ∧
    (gr_event g ∈ ["loaded"; "invoked"] → kind = "runtime") ∧
    gr_direction g ∈ _CAPABILITY_DIRECTIONS ∧
    gr_capability g ∈ declared_capabilities (provides c) (requires c) (gr_direction g).

Definition wf_resource (r : ContractResource) : Prop :=
  identifier (res_name r) ∧ res_mode r ∈ _RESOURCE_MODES ∧
  (res_mode r = "mediated" ↔ ∃ m, res_mediator r = Some m ∧ identifier m) ∧
  (res_mode r ≠ "mediated" → res_mediator r = None).

Record wf_contract (c : ExtensionContract) : Prop := {
  wf_id : identifier (extension_id c);
  wf_ext_version : wf_version (ext_version c);
  wf_host_range : wf_specifier (host_version_range c);
  wf_provides : Forall (λ k, identifier (cap_name k) ∧ wf_version (cap_version k)) (provides c);
  wf_requires : Forall (λ k, identifier (cap_name k) ∧ wf_specifier (cap_version k)) (requires c);
  wf_provides_unique : NoDup (cap_name <$> provides c);
  wf_requires_unique : NoDup (cap_name <$> requires c);
  wf_resources : Forall wf_resource (resources c);
  wf_resources_unique : NoDup (res_name <$> resources c);
  wf_obligations : process_obligations c ≠ [] ∧
                   Forall (wf_obligation c) (process_obligations c);
  wf_obligations_unique : NoDup (obligation_key <$> process_obligations c);
  wf_auth_provider : wf_grants c "provider" (auth_provider (authority c));
  wf_auth_runtime : wf_grants c "runtime" (auth_runtime (authority c));
  wf_auth_external : wf_grants c "external" (auth_external (authority c));
}.
End wf.

Lemma match_identifier_tail s :
  (∀ sep, match_identifier sep true s = true →
     identifier_tail s ∧ (sep = true ∨ has_separator s)) ∧
  (match_identifier true false s = true →
     ∃ c t, s = String c t ∧ segment_char c ∧ identifier_tail t).
Proof.
  unfold has_separator. induction s as [|c s [IH1 IH2]]; simpl; split.
  - intros sep Hm. rewrite andb_true_r in Hm. split; [constructor|by left].
  - done.
  - intros sep. destruct (is_lower c || is_digit c) eqn:Hc.
    + intros [Ht Hs]%IH1. apply orb_true_iff in Hc.
      split; [by constructor|]. rewrite !orb_true_iff. tauto.
    + destruct (bool_decide (c = dot)) eqn:E1; simpl;
        [|destruct (bool_decide (c = dash)) eqn:E2; simpl; [|done]];
        intros (d&t&->&Hd&Ht)%IH2; bool_inv;
        (split; [by apply tail_sep; auto|tauto]).
  - destruct (is_lower c || is_digit c) eqn:Hc.
    + intros [Ht _]%IH1. apply orb_true_iff in Hc. by exists c, s.
    + by repeat case_match.
Qed.

Lemma match_identifier_sound s : match_identifier false false s = true → identifier s.
Proof.
  destruct s as [|c s]; simpl; [done|].
  destruct (is_lower c || is_digit c) eqn:Hc; [|by repeat case_match].
  intros [Ht [?|Hs]]%(proj1 (match_identifier_tail s)); [done|].
  apply orb_true_iff in Hc. by exists c, s.
Qed.

Lemma match_identifier_complete_tail s :
  identifier_tail s → ∀ sep, sep = true ∨ has_separator s → match_identifier sep true s = true.
Proof.
  unfold has_separator, segment_char.
  assert (∀ c, c = dot ∨ c = dash → is_lower c = false ∧ is_digit c = false) as Hsep
    by (by intros c [-> | ->]).
  induction 1 as [|c s Hc Hs IH|p c s Hp Hc Hs IH]; intros sep Hor; simpl in *.
  - destruct Hor as [->|[?|?]]; done.
  - assert (is_lower c || is_digit c = true) as -> by (by apply orb_true_iff).
    apply IH. rewrite !orb_true_iff, !bool_decide_eq_true in Hor.
    assert (¬ (c = dot ∨ c = dash)).
    { intros [? ?]%Hsep. destruct Hc; congruence. }
    tauto.
  - assert (is_lower c || is_digit c = true) as Hc' by (by apply orb_true_iff).
    destruct Hp as [-> | ->]; simpl; rewrite Hc'; by apply IH; left.
Qed.

(** The matcher accepts exactly the grammar of the regular expression. *)
Lemma match_identifier_spec s : match_identifier false false s = true ↔ identifier s.
Proof.
  split; [apply match_identifier_sound|]. intros (c&t&->&Hc&Ht&Hs). simpl.
  assert (is_lower c || is_digit c = true) as -> by (by apply orb_true_iff).
  apply match_identifier_complete_tail; [done|by right].
Qed.

(** ** Reading a successful validation *)

Lemma invalid_if_Ok b d u : invalid_if b d = Ok u ↔ b = false.
Proof. apply raise_if_Ok. Qed.

Lemma _object_Ok v l f kv : _object v l f = Ok kv → v = JObj kv ∧ has_exactly f kv = true.
Proof. unfold _object, invalid. destruct v; try done. case_match; naive_solver. Qed.

Lemma _string_Ok v l s :
  _string v l = Ok s → v = JStr s ∧ s ≠ "" ∧ is_stripped s = true.
Proof.
  unfold _string, invalid. destruct v; try done.
  destruct (_ || _) eqn:E; [done|]. intros [= <-]. bool_inv. done.
Qed.

Ltac parse_inv :=
  repeat (progress (method_inv; unfold invalid in *)
    || match goal with
       | H : invalid_if _ _ = Ok _ |- _ => apply invalid_if_Ok in H
       | H : has_duplicates _ = false |- _ => apply has_duplicates_false in H
       | H : Ok _ = Ok _ |- _ => injection H as H; subst
       | H : Raise _ = Ok _ |- _ => discriminate H
       | H : _string _ _ = Ok _ |- _ => apply _string_Ok in H; destruct H as (? & ? & ?); simplify_eq
       | H : _object _ _ _ = Ok _ |- _ => apply _object_Ok in H; destruct H as [? ?]; subst
       end); bool_inv.

Lemma _identifier_Ok v l s : _identifier v l = Ok s → v = JStr s ∧ identifier s.
Proof. unfold _identifier. intros H. parse_inv. by rewrite match_identifier_spec in *. Qed.

Lemma _string_array_Ok v l r : _string_array v l = Ok r → NoDup r.
Proof.
  unfold _string_array. intros H. parse_inv. by rewrite sort_on_perm.
Qed.

Lemma is_runtime_event_guard event kind :
  is_runtime_event event && negb (bool_decide (kind = "runtime")) = false →
  event ∈ ["loaded"; "invoked"] → kind = "runtime".
Proof.
  unfold is_runtime_event. intros Hb Hin. rewrite bool_decide_true in Hb by done.
  simpl in Hb. by bool_inv.
Qed.

Lemma Forall_sort_on {A K} `{PyOrd K} (f : A → K) (P : A → Prop) l :
  Forall P l → Forall P (sort_on f l).
Proof. by rewrite sort_on_perm. Qed.

Lemma NoDup_fmap_sort_on {A B K} `{PyOrd K} (f : A → K) (g : A → B) l :
  NoDup (g <$> l) → NoDup (g <$> sort_on f l).
Proof. by rewrite sort_on_perm. Qed.

(** Every element a validated array yields comes from a validated item. *)
Section parse_wf.
Context {PV : Pep440} {PL : Pep440Laws}.

Lemma _public_version_Ok v l s : _public_version v l = Ok s → wf_version s.
Proof.
  unfold _public_version. intros H1. parse_inv. case_match; parse_inv.
  eexists. apply Version_str.
Qed.

Lemma _public_specifier_Ok v l s : _public_specifier v l = Ok s → wf_specifier s.
Proof.
  unfold _public_specifier. intros H1. parse_inv. case_match; parse_inv.
  eexists. apply SpecifierSet_str.
Qed.

Definition wf_capability (requirements : bool) (k : Capability) : Prop :=
  identifier (cap_name k) ∧
  if requirements then wf_specifier (cap_version k) else wf_version (cap_version k).

Lemma parse_capability_Ok l r raw k : parse_capability l r raw = Ok k → wf_capability r k.
Proof.
  unfold parse_capability, wf_capability. intros H1. parse_inv. simpl.
  match goal with H : _identifier _ _ = Ok _ |- _ => apply _identifier_Ok in H end.
  destruct r; split; try tauto; eauto using _public_version_Ok, _public_specifier_Ok.
Qed.

Lemma _capabilities_Ok v l r ks :
  _capabilities v l r = Ok ks → Forall (wf_capability r) ks ∧ NoDup (cap_name <$> ks).
Proof.
  unfold _capabilities. intros H1. parse_inv.
  split; [|by apply NoDup_fmap_sort_on].
  apply Forall_sort_on. eapply mapR_Forall; [|eassumption].
  intros. by eapply parse_capability_Ok.
Qed.

Definition wf_grant (kind : string) (g : AuthorityGrant) : Prop :=
  gr_event g ∈ _EVENTS ∧
  (gr_event g ∈ ["loaded"; "invoked"] → kind = "runtime") ∧
  gr_direction g ∈ _CAPABILITY_DIRECTIONS.

Lemma parse_grant_Ok l kind raw g : parse_grant l kind raw = Ok g → wf_grant kind g.
Proof.
  unfold parse_grant. intros H1. parse_inv. split_and!; simpl; [done| |done].
  by apply is_runtime_event_guard.
Qed.

Lemma _authority_grants_Ok v l kind gs :
  _authority_grants v l kind = Ok gs → NoDup gs ∧ Forall (wf_grant kind) gs.
Proof.
  unfold _authority_grants. intros H1. parse_inv. split; [by rewrite sort_on_perm|].
  apply Forall_sort_on. eapply mapR_Forall; [|eassumption].
  intros. by eapply parse_grant_Ok.
Qed.

Lemma parse_resource_Ok raw r : parse_resource raw = Ok r → wf_resource r.
Proof.
  unfold parse_resource, wf_resource. intros H1. parse_inv.
  match goal with H : _identifier _ _ = Ok _ |- _ => apply _identifier_Ok in H as [_ ?] end.
  repeat case_match; parse_inv; simpl;
    try match goal with H : _identifier _ _ = Ok _ |- _ =>
          apply _identifier_Ok in H as [_ ?] end;
    split_and!; try done; naive_solver.
Qed.

Lemma parse_quorum_Ok completion v here q :
  parse_quorum completion v here = Ok q →
  (completion = "quorum" ∧ ∃ n, q = Some n ∧ (1 ≤ n)%Z) ∨
  (completion ≠ "quorum" ∧ q = None).
Proof.
  unfold parse_quorum. case_bool_decide; [|naive_solver].
  destruct v; try done. intros H1. parse_inv. left. eauto.
Qed.

Lemma parse_obligation_Ok c raw o :
  parse_obligation (provides c) (requires c) raw = Ok o → wf_obligation c o.
Proof.
  unfold parse_obligation. intros H1. parse_inv.
  split; simpl; try done; [by apply is_runtime_event_guard|by eapply parse_quorum_Ok].
Qed.

Lemma check_grants_Ok p r kind gs :
  forR (check_grant_capability p r kind) gs = Ok () →
  ∀ g, g ∈ gs → gr_capability g ∈ declared_capabilities p r (gr_direction g).
Proof.
  intros Hf%forR_Ok g Hg. rewrite Forall_forall in Hf. specialize (Hf g Hg).
  unfold check_grant_capability in Hf. parse_inv. done.
Qed.

Lemma grants_wf c kind gs :
  NoDup gs ∧ Forall (wf_grant kind) gs →
  forR (check_grant_capability (provides c) (requires c) kind) gs = Ok () →
  wf_grants c kind gs.
Proof.
  intros [Hnd Hall] Hd. split; [done|]. intros g Hg.
  rewrite Forall_forall in Hall. destruct (Hall g Hg) as (?&?&?).
  split_and!; try done. by eapply check_grants_Ok.
Qed.

Lemma parse_obligations_Ok c raws v l obs :
  as_nonempty_array v l = Ok raws →
  mapR (parse_obligation (provides c) (requires c)) (enumerate raws) = Ok obs →
  sort_on obligation_sort_key obs ≠ [] ∧
  Forall (wf_obligation c) (sort_on obligation_sort_key obs).
Proof.
  intros Harr Hm. split.
  - apply mapR_Ok, Forall2_length in Hm. unfold enumerate in Hm.
    rewrite length_zip_with, length_seq in Hm.
    intros Hnil%(f_equal length). rewrite length_sort_on in Hnil. simpl in Hnil.
    destruct v as [| | | | |[|x l']|]; try done. simpl in Harr. simplify_eq/=. lia.
  - apply Forall_sort_on. eapply mapR_Forall; [|exact Hm].
    intros. by eapply parse_obligation_Ok.
Qed.

Lemma parse_contract_sound payload c : parse_contract payload = Ok c → wf_contract c.
Proof.
  unfold parse_contract. intros H1. parse_inv.
  repeat match goal with
  | H : _identifier _ _ = Ok _ |- _ => apply _identifier_Ok in H as [? ?]
  | H : _public_version _ _ = Ok _ |- _ => apply _public_version_Ok in H
  | H : _public_specifier _ _ = Ok _ |- _ => apply _public_specifier_Ok in H
  | H : _capabilities _ _ _ = Ok _ |- _ => apply _capabilities_Ok in H as [? ?]
  | H : _authority_grants _ _ _ = Ok _ |- _ => apply _authority_grants_Ok in H
  | H : forR _ _ = Ok ?u |- _ => is_var u; destruct u
  end.
  split; simpl; try done.
  - by apply Forall_sort_on; eapply mapR_Forall; [exact parse_resource_Ok|].
  - by apply NoDup_fmap_sort_on.
  - by eapply (parse_obligations_Ok (mkContract _ _ _ _ _ _ _ _ _ _ _)).
  - by apply NoDup_fmap_sort_on.
  - by eapply (grants_wf (mkContract _ _ _ _ _ _ _ _ _ _ _)).
  - by eapply (grants_wf (mkContract _ _ _ _ _ _ _ _ _ _ _)).
  - by eapply (grants_wf (mkContract _ _ _ _ _ _ _ _ _ _ _)).
Qed.
End parse_wf.

(** ** The exceptions parsing raises *)

(** [ContractPlanningError] with one of two codes; nothing else escapes. *)
Definition parse_error (e : exn) : Prop :=
  ∃ d, e = ContractPlanningError INVALID_CONTRACT d ∨
       e = ContractPlanningError AUTHORITY_VIOLATION d.

Lemma parse_error_invalid d : parse_error (ContractPlanningError INVALID_CONTRACT d).
Proof. exists d. by left. Qed.
Lemma parse_error_authority d : parse_error (ContractPlanningError AUTHORITY_VIOLATION d).
Proof. exists d. by right. Qed.
#[export] Hint Resolve parse_error_invalid parse_error_authority : raises.

Lemma invalid_raises {A} d : raises_only parse_error (invalid d : result exn A).
Proof. apply raises_only_Raise, parse_error_invalid. Qed.
Lemma invalid_if_raises b d : raises_only parse_error (invalid_if b d).
Proof. apply raises_only_raise_if, parse_error_invalid. Qed.
#[export] Hint Resolve invalid_raises invalid_if_raises : raises.

Lemma _object_raises v l f : raises_only parse_error (_object v l f).
Proof. unfold _object. solve_raises. Qed.
Lemma _string_raises v l : raises_only parse_error (_string v l).
Proof. unfold _string. solve_raises. Qed.
Lemma as_array_raises v l : raises_only parse_error (as_array v l).
Proof. unfold as_array. solve_raises. Qed.
Lemma as_nonempty_array_raises v l : raises_only parse_error (as_nonempty_array v l).
Proof. unfold as_nonempty_array. solve_raises. Qed.
#[export] Hint Resolve _object_raises _string_raises as_array_raises
  as_nonempty_array_raises : raises.
Lemma _identifier_raises v l : raises_only parse_error (_identifier v l).
Proof. unfold _identifier. solve_raises. Qed.
#[export] Hint Resolve _identifier_raises : raises.
Lemma _string_array_raises v l : raises_only parse_error (_string_array v l).
Proof. unfold _string_array. solve_raises. Qed.
Lemma _authority_grants_raises v l k : raises_only parse_error (_authority_grants v l k).
Proof. unfold _authority_grants, parse_grant. solve_raises. Qed.
Lemma contract_payload_raises v : raises_only parse_error (contract_payload v).
Proof. unfold contract_payload. solve_raises. Qed.
Lemma parse_resource_raises r : raises_only parse_error (parse_resource r).
Proof. unfold parse_resource. solve_raises. Qed.
Lemma parse_obligation_raises p q r : raises_only parse_error (parse_obligation p q r).
Proof. unfold parse_obligation, parse_quorum. solve_raises. Qed.
Lemma check_grant_capability_raises p q k g :
  raises_only parse_error (check_grant_capability p q k g).
Proof. unfold check_grant_capability. solve_raises. Qed.
#[export] Hint Resolve _string_array_raises _authority_grants_raises
  contract_payload_raises parse_resource_raises parse_obligation_raises
  check_grant_capability_raises : raises.

Section parse_raises.
Context {PV : Pep440}.
Lemma _public_version_raises v l : raises_only parse_error (_public_version v l).
Proof. unfold _public_version. solve_raises. Qed.
Lemma _public_specifier_raises v l : raises_only parse_error (_public_specifier v l).
Proof. unfold _public_specifier, check_specifier. solve_raises. Qed.
Hint Resolve _public_version_raises _public_specifier_raises : raises.
Lemma _capabilities_raises v l r : raises_only parse_error (_capabilities v l r).
Proof. unfold _capabilities, parse_capability. solve_raises. Qed.
Hint Resolve _capabilities_raises : raises.
Lemma parse_contract_raises payload : raises_only parse_error (parse_contract payload).
Proof. unfold parse_contract. solve_raises. Qed.
End parse_raises.

(** ** Identifiers are trimmed *)

Definition identifier_char (c : Ascii.ascii) : bool :=
  is_lower c || is_digit c || bool_decide (c = dot) || bool_decide (c = dash).

Lemma identifier_chars s : identifier s → string_forallb identifier_char s = true.
Proof.
  assert (∀ c, segment_char c → identifier_char c = true) as Hseg.
  { intros c [Hc|Hc]; unfold identifier_char; rewrite Hc; by rewrite ?orb_true_r. }
  intros (c&t&->&Hc&Ht&_). simpl. rewrite Hseg by done. simpl.
  induction Ht as [|d s Hd Hs IH|p d s Hp Hd Hs IH]; simpl; [done|by rewrite Hseg|].
  rewrite (Hseg d) by done. by destruct Hp as [-> | ->].
Qed.

Lemma ends_with_forallb p w s :
  ends_with w s = true → string_forallb p s = true → string_forallb p w = true.
Proof.
  induction s as [|c s IH]; simpl.
  - rewrite orb_false_r. intros Hw%bool_decide_eq_true _. by subst.
  - intros [Hw|Hw]%orb_true_iff Hp.
    + apply bool_decide_eq_true in Hw. by subst.
    + apply andb_true_iff in Hp as [_ Hp]. auto.
Qed.

Lemma starts_with_forallb p w s :
  starts_with w s = true → string_forallb p s = true → string_forallb p w = true.
Proof.
  unfold starts_with. revert s. induction w as [|c w IH]; intros [|d s]; simpl; try done.
  destruct (Ascii.ascii_dec c d) as [->|]; [|done].
  intros Hw [Hd Hs]%andb_true_iff. rewrite Hd. simpl. eauto.
Qed.

Lemma identifier_stripped s : identifier s → is_stripped s = true.
Proof.
  intros Hs%identifier_chars. unfold is_stripped. apply forallb_forall.
  intros w Hw%list_elem_of_In.
  assert (string_forallb identifier_char w = false) as Hno.
  { revert w Hw. assert (Forall (λ w, string_forallb identifier_char w = false) py_whitespace)
      as Hall by (apply (bool_decide_unpack _); by vm_compute).
    by apply Forall_forall. }
  apply andb_true_iff. split; apply negb_true_iff, not_true_iff_false; intros Hw'.
  - eapply starts_with_forallb in Hw'; [|exact Hs]. congruence.
  - eapply ends_with_forallb in Hw'; [|exact Hs]. congruence.
Qed.

(** ** Properties *)

(** C21: A contract parse_contract returns is well formed: its identifiers follow the
    grammar, versions and ranges parse, resources, capabilities and obligations are
    unique, modes and mediators are consistent, and every obligation's capability is
    declared. *)
Theorem parsed_contract_well_formed {PV : Pep440} {PL : Pep440Laws} payload c :
  parse_contract payload = Ok c → wf_contract c.
Proof. apply parse_contract_sound. Qed.

(** Whatever JSON value it is given, parse_contract either returns or raises a
    ContractPlanningError whose code is INVALID_CONTRACT or AUTHORITY_VIOLATION. *)
Theorem parse_contract_error_codes {PV : Pep440} payload e :
  parse_contract payload = Raise e →
  ∃ d, e = ContractPlanningError INVALID_CONTRACT d ∨
       e = ContractPlanningError AUTHORITY_VIOLATION d.
Proof. apply parse_contract_raises. Qed.

(** _identifier accepts exactly the JSON strings of the identifier grammar: the hand-
    written matcher and the regular expression's language agree. *)
Theorem identifier_accepts_grammar v location s :
  _identifier v location = Ok s ↔ v = JStr s ∧ identifier s.
Proof.
  split; [apply _identifier_Ok|]. intros [-> Hs]. unfold _identifier, _string.
  rewrite bool_decide_false by (intros ->; by destruct Hs as (?&?&?&_)).
  rewrite identifier_stripped by done. simpl.
  by rewrite (proj2 (match_identifier_spec s)).
Qed.

Lemma parse_taxonomy_resource_Ok raw r :
  parse_taxonomy_resource raw = Ok r →
  allowed_modes r ≠ [] ∧ (∀ m, m ∈ allowed_modes r → m ∈ _RESOURCE_MODES).
Proof.
  unfold parse_taxonomy_resource. intros H. parse_inv. split; [done|].
  intros m Hm%list_elem_of_In. simpl in *.
  match goal with H : forallb _ _ = true |- _ => rewrite forallb_forall in H;
    specialize (H m Hm) end. by bool_inv.
Qed.

(** A parsed taxonomy names every resource and capability once and allows only known
    modes. *)
Theorem taxonomy_names_unambiguous payload t :
  parse_contract_taxonomy payload = Ok t →
  NoDup (tax_resources t ≫= resource_names) ∧ NoDup (tax_capabilities t) ∧
  ∀ r, r ∈ tax_resources t →
    allowed_modes r ≠ [] ∧ ∀ m, m ∈ allowed_modes r → m ∈ _RESOURCE_MODES.
Proof.
  unfold parse_contract_taxonomy. intros H. parse_inv. simpl. split_and!.
  - by rewrite sort_on_perm.
  - by rewrite sort_on_perm.
  - apply Forall_forall, Forall_sort_on. eapply mapR_Forall; [|eassumption].
    apply parse_taxonomy_resource_Ok.
Qed.

(** ** A concrete instance: dotted release numbers

    The release-segment fragment of PEP 440, enough to evaluate the module on
    the repository's own examples: versions [1.2.3], specifiers [==1.2], [>=1.0],
    and comma-separated conjunctions of those. *)

Fixpoint digits_value (acc : N) (s : string) : option N :=
  match s with
  | EmptyString => Some acc
  | String c s =>
      if is_digit c then digits_value (acc * 10 + (Ascii.N_of_ascii c - 48)) s else None
  end.

Fixpoint split_on (sep : Ascii.ascii) (acc s : string) : list string :=
  match s with
  | EmptyString => [acc]
  | String c s => if bool_decide (c = sep) then acc :: split_on sep "" s
                  else split_on sep (acc +:+ String c "") s
  end.

Definition parse_release (s : string) : option (list N) :=
  mapM (λ seg, if bool_decide (seg = "") then None else digits_value 0 seg)
    (split_on dot "" s).

Fixpoint release_leb (u v : list N) : bool :=
  match u, v with
  | [], _ => true
  | a :: u, [] => (a =? 0)%N && release_leb u []
  | a :: u, b :: v => (a <? b)%N || ((a =? b)%N && release_leb u v)
  end.

Definition clause_holds (v : list N) (c : bool * list N) : bool :=
  release_leb c.2 v && (negb c.1 || release_leb v c.2).

Definition parse_clause (s : string) : option (bool * list N) :=
  let body := String.substring 2 (String.length s - 2) s in
  if starts_with "==" s then v ← parse_release body; Some (true, v)
  else if starts_with ">=" s then v ← parse_release body; Some (false, v)
  else None.

Definition comma : Ascii.ascii := Ascii.ascii_of_N 44.

Definition parse_clauses (s : string) : option (list (bool * list N)) :=
  mapM parse_clause (split_on comma "" s).

(** Texts already in normal form, with the proof that they parse. *)
Definition text {A} (parse : string → option A) : Type := { s : string | Is_true (bool_decide (is_Some (parse s))) }.

Definition check_text {A} (parse : string → option A) (s : string) : option (text parse) :=
  match decide (Is_true (bool_decide (is_Some (parse s)))) with
  | left Hs => Some (s ↾ Hs)
  | right _ => None
  end.

Lemma check_text_proj {A} (parse : string → option A) (t : text parse) :
  check_text parse (`t) = Some t.
Proof.
  destruct t as [s Hs]. unfold check_text. simpl.
  case_decide; [|done]. do 2 f_equal. apply proof_irrel.
Qed.

Definition clauses (t : text parse_clauses) : list (bool * list N) :=
  default [] (parse_clauses (`t)).

Definition release_pep440 : Pep440 := {|
  version := text parse_release;
  Version := check_text parse_release;
  version_str v := `v;
  version_local _ := None;
  specifier_set := text parse_clauses;
  SpecifierSet := check_text parse_clauses;
  specifier_str t := `t;
  specifier_versions t :=
    (λ s, String.substring 2 (String.length s - 2) s) <$> split_on comma "" (`t);
  contains t v := forallb (clause_holds (default [] (parse_release (`v)))) (clauses t);
|}.

Lemma release_laws : @Pep440Laws release_pep440.
Proof. split; simpl; apply check_text_proj. Qed.

(** A contract in the shape of [spec/0.1/examples]. *)
Definition example_grant (direction capability : string) : json :=
  JObj [("role", JStr "worker"); ("event", JStr "loaded");
        ("capability_direction", JStr direction); ("capability", JStr capability)].

Definition example_obligation (direction capability : string) : json :=
  JObj [("role", JStr "worker"); ("event", JStr "loaded"); ("completion", JStr "all");
        ("authority", JStr "runtime"); ("capability_direction", JStr direction);
        ("capability", JStr capability)].

Definition capability_object (nv : string * string) : json :=
  JObj [("name", JStr nv.1); ("version", JStr nv.2)].

Definition example_payload (id : string) (provides requires : list (string * string))
    (resources : list json) (direction capability : string) : json :=
  JObj [("schema", JStr "ecpa-manifest/0.1-draft"); ("id", JStr id); ("version", JStr "1.0");
        ("host", JObj [("runtime", JStr "vllm-hust"); ("version", JStr ">=0.23")]);
        ("capabilities", JObj [("provides", JArr (capability_object <$> provides));
                               ("requires", JArr (capability_object <$> requires))]);
        ("resources", JArr resources);
        ("process_obligations", JArr [example_obligation direction capability]);
        ("rollback", JObj [("manager_owned", JArr [JStr "config"]);
                           ("external_operator_owned", JArr [])]);
        ("authority", JObj [("provider", JArr []);
                            ("runtime", JArr [example_grant direction capability]);
                            ("external", JArr [])])].

Definition kv_payload : json :=
  example_payload "org.kv-store" [("kv.connector", "1.2")] []
    [JObj [("name", JStr "kv.cache"); ("mode", JStr "exclusive")]] "provides" "kv.connector".
Definition policy_payload : json :=
  example_payload "org.policy" [] [("kv.connector", ">=1.0")]
    [JObj [("name", JStr "scheduler.policy"); ("mode", JStr "shared-read")]]
    "requires" "kv.connector".

Definition dummy_contract : ExtensionContract :=
  mkContract "" "" "" "" "" [] [] [] [] (mkRollback [] []) (mkAuthority [] [] []).

Definition ok_or {E A} (d : A) (r : result E A) : A :=
  match r with Ok a => a | Raise _ => d end.

Definition kv_contract : ExtensionContract :=
  Eval vm_compute in ok_or dummy_contract (@parse_contract release_pep440 kv_payload).
Definition policy_contract : ExtensionContract :=
  Eval vm_compute in ok_or dummy_contract (@parse_contract release_pep440 policy_payload).

Lemma kv_parses : @parse_contract release_pep440 kv_payload = Ok kv_contract.
Proof. vm_compute. reflexivity. Qed.
Lemma policy_parses : @parse_contract release_pep440 policy_payload = Ok policy_contract.
Proof. vm_compute. reflexivity. Qed.

Lemma parsed_contract_well_formed_witness :
  @parse_contract release_pep440 kv_payload = Ok kv_contract ∧
  @wf_contract release_pep440 kv_contract.
Proof.
  split; [exact kv_parses|].
  exact (@parsed_contract_well_formed release_pep440 release_laws kv_payload kv_contract kv_parses).
Defined.

Definition undeclared_payload : json :=
  example_payload "org.policy" [] [("kv.connector", ">=1.0")] [] "requires" "kv.store".

Lemma parse_contract_error_codes_witness :
  ∃ d, ContractPlanningError AUTHORITY_VIOLATION
         "process_obligations[0] references an undeclared capability" =
         ContractPlanningError INVALID_CONTRACT d ∨
       ContractPlanningError AUTHORITY_VIOLATION
         "process_obligations[0] references an undeclared capability" =
         ContractPlanningError AUTHORITY_VIOLATION d.
Proof.
  apply (@parse_contract_error_codes release_pep440 undeclared_payload).
  vm_compute. reflexivity.
Defined.

Definition taxonomy_payload : json :=
  JObj [("schema", JStr "ecpa-contract-taxonomy/0.1-draft"); ("scope", JStr _TAXONOMY_SCOPE);
        ("decision_precedence", JArr (JStr <$> _TAXONOMY_DECISION_PRECEDENCE));
        ("capabilities", JArr [JObj [("name", JStr "kv.connector"); ("description", JStr "d")]]);
        ("resources",
         JArr [JObj [("canonical", JStr "kv.cache"); ("aliases", JArr [JStr "cache.kv"]);
                     ("allowed_modes", JArr [JStr "exclusive"; JStr "mediated"]);
                     ("description", JStr "d")]])].

Definition example_taxonomy : ContractTaxonomy :=
  mkTaxonomy "ecpa-contract-taxonomy/0.1-draft" _TAXONOMY_SCOPE
    _TAXONOMY_DECISION_PRECEDENCE ["kv.connector"]
    [mkTaxonomyResource "kv.cache" ["cache.kv"] ["exclusive"; "mediated"]].

Lemma taxonomy_names_unambiguous_witness :
  parse_contract_taxonomy taxonomy_payload = Ok example_taxonomy ∧
  NoDup (tax_resources example_taxonomy ≫= resource_names) ∧
  NoDup (tax_capabilities example_taxonomy) ∧
  ∀ r, r ∈ tax_resources example_taxonomy →
    allowed_modes r ≠ [] ∧ ∀ m, m ∈ allowed_modes r → m ∈ _RESOURCE_MODES.
Proof.
  assert (parse_contract_taxonomy taxonomy_payload = Ok example_taxonomy) as H
    by (vm_compute; reflexivity).
  split; [exact H|]. exact (taxonomy_names_unambiguous _ _ H).
Defined.
