(* ===== verification/ContractCompiler.v ===== *)
(** * Compiling contracts into a plan: the second half of [contract_compiler.py]

    Capability resolution, dependency ordering, resource ownership, taxonomy
    normalisation, obligation binding and [compile_contracts]. *)

From stdpp Require Import relations.
From S2P Require Import Prelude PyStd ContractParse.

Local Open Scope string_scope.
Local Open Scope list_scope.

(** ** The plan *)

Record CapabilityBinding : Type := mkBinding {
  b_capability : string; b_required_range : string; b_consumer : string;
  b_provider : string; b_provided_version : string;
}.

Record ResourceOwnership : Type := mkOwnership {
  ro_resource : string; ro_mode : string; ro_owners : list string;
  ro_mediator : option string;
}.

Record ObligationBinding : Type := mkObligationBinding {
  ob_extension_id : string; ob_role : string; ob_event : string; ob_completion : string;
  ob_authority : string; ob_direction : string; ob_capability : string;
  ob_provider : string; ob_quorum : option Z;
}.

Record ContractPlan : Type := mkContractPlan {
  plan_host_runtime : string; plan_host_version : string;
  ordered_contracts : list ExtensionContract;
  capability_bindings : list CapabilityBinding;
  resource_ownership : list ResourceOwnership;
  obligation_bindings : list ObligationBinding;
}.

Definition planning_error {A} (code : PlanningErrorCode) (detail : string) : result exn A :=
  Raise (ContractPlanningError code detail).

(** ** Capability resolution *)

Section resolve.
Context {PV : Pep440}.

(** [providers[name]]: who provides a capability, in contract order. *)
Definition candidates (contracts : list ExtensionContract) (name : string)
    : list (ExtensionContract * Capability) :=
  c ← contracts; k ← filter (λ k, cap_name k = name) (provides c); [(c, k)].

(** [Version(candidate[1].version) in SpecifierSet(requirement.version)] *)
Definition satisfies (requirement : Capability) (candidate : ExtensionContract * Capability)
    : result exn bool :=
  match Version (cap_version candidate.2) with
  | None => Raise InvalidVersion
  | Some v => match SpecifierSet (cap_version requirement) with
              | None => Raise InvalidSpecifier
              | Some s => Ok (contains s v)
              end
  end.

Fixpoint filterR {E A} (p : A → result E bool) (l : list A) : result E (list A) :=
  match l with
  | [] => Ok []
  | x :: l => b ← p x; ys ← filterR p l; Ok (if b : bool then x :: ys else ys)
  end.

Definition resolve_requirement (contracts : list ExtensionContract)
    (consumer : ExtensionContract) (requirement : Capability)
    : result exn CapabilityBinding :=
  let found := candidates contracts (cap_name requirement) in
  compatible ← filterR (satisfies requirement) found;
  match compatible with
  | [] =>
      planning_error (if bool_decide (found = []) then MISSING_CAPABILITY
                      else INCOMPATIBLE_CAPABILITY)
        (extension_id consumer +:+ " requires " +:+ cap_name requirement +:+
         cap_version requirement)
  | [(provider, provision)] =>
      Ok (mkBinding (cap_name requirement) (cap_version requirement)
            (extension_id consumer) (extension_id provider) (cap_version provision))
  | _ =>
      planning_error AMBIGUOUS_CAPABILITY
        (extension_id consumer +:+ " requirement " +:+ cap_name requirement +:+
         " matches " +:+
         py_repr_list (sort_on (λ s : string, s) ((λ c, extension_id c.1) <$> compatible)))
  end.

(** The nested loops over consumers and their requirements. *)
Definition resolve_all (contracts : list ExtensionContract)
    : result exn (list CapabilityBinding) :=
  mapR (λ cr, resolve_requirement contracts cr.1 cr.2)
    (c ← contracts; r ← requires c; [(c, r)]).

Definition binding_key (b : CapabilityBinding) : string * string :=
  (b_consumer b, b_capability b).

(** [dependencies[consumer].add(provider)] for every binding to another contract. *)
Definition dependency_map (contracts : list ExtensionContract)
    (bindings : list CapabilityBinding) : gmap string (gset string) :=
  foldl (λ d b, if decide (b_provider b = b_consumer b) then d
                else alter (union {[b_provider b]}) (b_consumer b) d)
    (list_to_map ((λ c, (extension_id c, ∅)) <$> contracts)) bindings.

Definition _resolve_capabilities (contracts : list ExtensionContract)
    : result exn (list CapabilityBinding * gmap string (gset string)) :=
  bindings ← resolve_all contracts;
  Ok (sort_on binding_key bindings, dependency_map contracts bindings).
End resolve.

(** ** Dependency order *)

(** [heapq] on strings: a heap of names is used through its least element only,
    so it is the sorted list of its members. *)
Definition heappush (x : string) (heap : list string) : list string :=
  insert_on (λ s : string, s) x heap.
Definition heapify (l : list string) : list string := sort_on (λ s : string, s) l.

(** [dependents[provider].add(consumer)] *)
Definition dependents_of (dependencies : gmap string (gset string)) : gmap string (gset string) :=
  foldl (λ d cr, foldl (λ d p, alter (union {[cr.1]}) p d) d (elements cr.2))
    ((λ _, ∅) <$> dependencies) (map_to_list dependencies).

(** The inner loop: one dependent's [indegree] drops; at zero it becomes ready. *)
Definition relax (st : gmap string Z * list string) (dependent : string)
    : gmap string Z * list string :=
  let n := (default 0 (st.1 !! dependent) - 1)%Z in
  (<[dependent := n]> st.1, if (n =? 0)%Z then heappush dependent st.2 else st.2).

(** [while ready]; the result is the order and what is left of [indegree]. *)
Fixpoint kahn (fuel : nat) (dependents : gmap string (gset string))
    (indegree : gmap string Z) (ready ordered : list string)
    : option (gmap string Z * list string) :=
  match ready with
  | [] => Some (indegree, ordered)
  | id :: ready =>
      match fuel with
      | O => None
      | S fuel =>
          let '(indegree, ready) :=
            foldl relax (indegree, ready)
              (sort_on (λ s : string, s) (elements (default ∅ (dependents !! id)))) in
          kahn fuel dependents indegree ready (ordered ++ [id])
      end
  end.

Definition indegree_of (dependencies : gmap string (gset string)) : gmap string Z :=
  (λ required, Z.of_nat (size required)) <$> dependencies.

Definition sources (indegree : gmap string Z) : list string :=
  (filter (λ kn, kn.2 = 0%Z) (map_to_list indegree)).*1.

(** The loop of [_order_contracts] with one unit of fuel per contract. *)
Definition kahn_order (dependencies : gmap string (gset string))
    : option (gmap string Z * list string) :=
  kahn (size dependencies) (dependents_of dependencies) (indegree_of dependencies)
    (heapify (sources (indegree_of dependencies))) [].

Definition by_id (contracts : list ExtensionContract) (id : string)
    : option ExtensionContract :=
  last (filter (λ c, extension_id c = id) contracts).

Definition _order_contracts (contracts : list ExtensionContract)
    (dependencies : gmap string (gset string)) : result exn (list ExtensionContract) :=
  match kahn_order dependencies with
  | None => Raise KeyError
  | Some (indegree, ordered) =>
      if bool_decide (length ordered = length contracts)
      then Ok (omap (by_id contracts) ordered)
      else planning_error DEPENDENCY_CYCLE
             ("capability dependency cycle includes " +:+
              py_repr_list (sort_on (λ s : string, s)
                (filter (λ kn, kn.2 ≠ 0%Z) (map_to_list indegree)).*1))
  end.

(** ** Resource ownership *)

Record Summary : Type := mkSummary {
  sm_name : string;
  sm_claims : list (string * ContractResource);
  sm_owners : list string;
  sm_modes : list string;
  sm_mediators : list (option string);
}.

(** [claims.setdefault(resource.name, []).append((extension_id, resource))] *)
Definition resource_claims (contracts : list ExtensionContract)
    : list (string * list (string * ContractResource)) :=
  foldl (λ d (oc : string * ContractResource),
           od_set (res_name oc.2) (default [] (od_get (res_name oc.2) d) ++ [oc]) d)
    [] (c ← contracts; r ← resources c; [(extension_id c, r)]).

(** Sets of modes and mediators are lists without duplicates. *)
Definition summarize (nc : string * list (string * ContractResource)) : Summary :=
  mkSummary nc.1 nc.2 (sort_on (λ s : string, s) nc.2.*1)
    (remove_dups ((λ oc, res_mode oc.2) <$> nc.2))
    (remove_dups ((λ oc, res_mediator oc.2) <$> nc.2)).

Definition summaries_of (contracts : list ExtensionContract) : list Summary :=
  summarize <$> sort_on fst (resource_claims contracts).

Definition mode_error (s : Summary) : bool :=
  has_duplicates (sm_owners s) ||
  ((1 <? length (sm_claims s))%nat &&
   negb (bool_decide (sm_modes s = ["shared-read"]) || bool_decide (sm_modes s = ["mediated"]))).

Definition is_mediated (s : Summary) : bool := bool_decide (sm_modes s = ["mediated"]).

Definition mediator_inconsistent (s : Summary) : bool :=
  is_mediated s && negb (length (sm_mediators s) =? 1)%nat.

(** [next(iter(mediators))] *)
Definition the_mediator (s : Summary) : option string := default None (head (sm_mediators s)).

Definition mediator_absent (s : Summary) : bool :=
  is_mediated s &&
  negb (match the_mediator s with Some m => bool_decide (m ∈ sm_owners s) | None => false end).

Definition mediator_repr (m : option string) : string :=
  match m with Some s => py_repr s | None => "None" end.

Definition ownership_of (s : Summary) : ResourceOwnership :=
  let '(mode, mediator) :=
    if is_mediated s then ("mediated", the_mediator s)
    else match sm_claims s with
         | [(_, r)] => (res_mode r, res_mediator r)
         | _ => ("shared-read", None)
         end in
  mkOwnership (sm_name s) mode (sm_owners s) mediator.

Definition _resolve_resources (contracts : list ExtensionContract)
    : result exn (list ResourceOwnership) :=
  let summaries := summaries_of contracts in
  _ ← match filter (λ s, mode_error s) summaries with
      | s :: _ => planning_error RESOURCE_CONFLICT
                    (sm_name s +:+ " has incompatible or duplicate claims from " +:+
                     py_repr_list (sm_owners s))
      | [] => Ok ()
      end;
  _ ← match filter (λ s, mediator_inconsistent s) summaries with
      | s :: _ => planning_error RESOURCE_CONFLICT
                    (sm_name s +:+ " has inconsistent mediators from " +:+
                     py_repr_list (sm_owners s))
      | [] => Ok ()
      end;
  _ ← match filter (λ s, mediator_absent s) summaries with
      | s :: _ => planning_error AUTHORITY_VIOLATION
                    (sm_name s +:+ " mediator " +:+ mediator_repr (the_mediator s) +:+
                     " has no selected ownership claim")
      | [] => Ok ()
      end;
  Ok (ownership_of <$> summaries).

(** ** Taxonomy *)

(** [lookup]: later entries of the comprehension win. *)
Definition taxonomy_lookup (t : ContractTaxonomy) (name : string) : option TaxonomyResource :=
  last (filter (λ r, name ∈ resource_names r) (tax_resources t)).

Definition claims_of (contracts : list ExtensionContract) : list (string * ContractResource) :=
  c ← contracts; r ← resources c; [(extension_id c, r)].

Definition unknown_claims (contracts : list ExtensionContract) (t : ContractTaxonomy)
    : list (string * string) :=
  sort_on (λ p : string * string, p)
    (omap (λ oc : string * ContractResource,
             match taxonomy_lookup t (res_name oc.2) with
             | Some _ => None | None => Some (oc.1, res_name oc.2) end)
       (claims_of contracts)).

Definition invalid_modes (contracts : list ExtensionContract) (t : ContractTaxonomy)
    : list (string * (string * string)) :=
  sort_on (λ p : string * (string * string), p)
    (omap (λ oc : string * ContractResource,
             r ← taxonomy_lookup t (res_name oc.2);
             if decide (res_mode oc.2 ∈ allowed_modes r) then None
             else Some (oc.1, (canonical r, res_mode oc.2)))
       (claims_of contracts)).

Definition normalize_resource (t : ContractTaxonomy) (r : ContractResource)
    : result exn ContractResource :=
  match taxonomy_lookup t (res_name r) with
  | Some rule => Ok (mkResource (canonical rule) (res_mode r) (res_mediator r))
  | None => Raise KeyError
  end.

(** [replace(contract, resources=...)] *)
Definition with_resources (rs : list ContractResource) (c : ExtensionContract)
    : ExtensionContract :=
  mkContract (extension_id c) (ext_version c) (manifest_sha256 c) (host_runtime c)
    (host_version_range c) (provides c) (requires c) rs (process_obligations c)
    (rollback c) (authority c).

Definition normalize_contract (t : ContractTaxonomy) (c : ExtensionContract)
    : result exn ExtensionContract :=
  rs ← mapR (normalize_resource t) (resources c);
  Ok (with_resources (sort_on res_name rs) c).

Definition _normalize_taxonomy_resources (contracts : list ExtensionContract)
    (t : ContractTaxonomy) : result exn (list ExtensionContract) :=
  _ ← match unknown_claims contracts t with
      | (id, name) :: _ => planning_error UNKNOWN_RESOURCE
                             (id +:+ " claims unknown resource " +:+ name)
      | [] => Ok ()
      end;
  _ ← match invalid_modes contracts t with
      | (id, (name, mode)) :: _ =>
          planning_error INVALID_RESOURCE_MODE
            (id +:+ " claims " +:+ name +:+ " as " +:+ mode +:+ "; allowed modes are " +:+
             py_repr_list (from_option allowed_modes [] (taxonomy_lookup t name)))
      | [] => Ok ()
      end;
  mapR (normalize_contract t) contracts.

(** ** Obligations *)

Definition check_obligation_authority (c : ExtensionContract) (o : ProcessObligationContract)
    : result exn () :=
  match authority_grants (authority c) (po_authority o) with
  | None => Raise AttributeError
  | Some grants =>
      raise_if (negb (bool_decide (mkGrant (po_role o) (po_event o) (po_direction o)
                                     (po_capability o) ∈ grants)))
        (ContractPlanningError AUTHORITY_VIOLATION
           (extension_id c +:+ " obligation " +:+ po_role o +:+ "/" +:+ po_event o +:+ "/" +:+
            po_direction o +:+ "/" +:+ po_capability o +:+ " has no matching " +:+
            po_authority o +:+ " authority grant"))
  end.

Definition _validate_obligation_authority (contracts : list ExtensionContract)
    : result exn () :=
  forR (λ c, forR (check_obligation_authority c) (process_obligations c)) contracts.

(** [requirement_providers[(consumer, capability)]]: the last binding wins. *)
Definition requirement_provider (bindings : list CapabilityBinding)
    (consumer capability : string) : option string :=
  b_provider <$> last (filter (λ b, b_consumer b = consumer ∧ b_capability b = capability)
                         bindings).

Definition bind_obligation (bindings : list CapabilityBinding)
    (co : ExtensionContract * ProcessObligationContract) : result exn ObligationBinding :=
  let '(c, o) := co in
  provider ← (if bool_decide (po_direction o = "requires") then
                match requirement_provider bindings (extension_id c) (po_capability o) with
                | Some p => Ok p
                | None => Raise KeyError
                end
              else Ok (extension_id c));
  Ok (mkObligationBinding (extension_id c) (po_role o) (po_event o) (po_completion o)
        (po_authority o) (po_direction o) (po_capability o) provider (po_quorum o)).

Definition obligation_binding_key (b : ObligationBinding)
    : string * (string * (string * (string * string))) :=
  (ob_extension_id b, (ob_role b, (ob_event b, (ob_direction b, ob_capability b)))).

Definition _bind_obligations (contracts : list ExtensionContract)
    (bindings : list CapabilityBinding) : result exn (list ObligationBinding) :=
  result ← mapR (bind_obligation bindings)
             (c ← contracts; o ← process_obligations c; [(c, o)]);
  Ok (sort_on obligation_binding_key result).

(** ** [compile_contracts] *)

Section compile.
Context {PV : Pep440}.

Definition check_host (runtime : string) (v : version) (c : ExtensionContract)
    : result exn () :=
  let error := planning_error INCOMPATIBLE_HOST
    (extension_id c +:+ " requires " +:+ host_runtime c +:+ host_version_range c) in
  if negb (bool_decide (host_runtime c = runtime)) then error
  else match SpecifierSet (host_version_range c) with
       | None => Raise InvalidSpecifier
       | Some s => if contains s v then Ok () else error
       end.

Definition compile_contracts (contracts : list ExtensionContract)
    (host_runtime host_version : json) (resource_taxonomy : option ContractTaxonomy)
    : result exn ContractPlan :=
  _ ← invalid_if (bool_decide (contracts = [])) "at least one contract is required";
  runtime ← _string host_runtime "host_runtime";
  host ← _public_version host_version "host_version";
  v ← match Version host with Some v => Ok v | None => Raise InvalidVersion end;
  _ ← raise_if (has_duplicates (extension_id <$> contracts))
        (ContractPlanningError DUPLICATE_PLUGIN "extension ids must be unique");
  _ ← forR (check_host runtime v) contracts;
  let sorted := sort_on extension_id contracts in
  normalized ← match resource_taxonomy with
               | Some t => _normalize_taxonomy_resources sorted t
               | None => Ok sorted
               end;
  _ ← _validate_obligation_authority normalized;
  bd ← _resolve_capabilities normalized;
  ordered ← _order_contracts normalized bd.2;
  resources ← _resolve_resources normalized;
  obligations ← _bind_obligations normalized bd.1;
  Ok (mkContractPlan runtime (version_str v) ordered bd.1 resources obligations).
End compile.
