(* ===== verification/ContractOrder.v ===== *)
(** * [_order_contracts] is Kahn's algorithm: a total topological sort

    The loop of [contract_compiler.py] keeps an in-degree per contract and a
    heap of ready contracts.  The invariant [kahn_inv] ties both to the set of
    contracts already emitted; it gives termination, that the order lists every
    contract after what it depends on, and that the loop stops early only on a
    dependency cycle. *)

From stdpp Require Import relations.
From S2P Require Import Prelude PyStd ContractParse ContractCompiler.

Local Open Scope string_scope.
Local Open Scope list_scope.

(** ** Sets of names *)

Section name_sets.
Implicit Types X Y : gset string.

Lemma size_diff_one X Y x :
  x ∈ X → x ∉ Y → size (X ∖ (Y ∪ {[x]})) = size (X ∖ Y) - 1.
Proof.
  intros HX HY. replace (X ∖ (Y ∪ {[x]})) with ((X ∖ Y) ∖ {[x]}) by set_solver.
  rewrite size_difference by set_solver. by rewrite size_singleton.
Qed.

Lemma size_one_sub X Y x :
  x ∈ X → x ∉ Y → size (X ∖ Y) = 1 ↔ X ⊆ Y ∪ {[x]}.
Proof.
  intros HX HY. assert (x ∈ X ∖ Y) as Hx by set_solver. split.
  - intros [y Hy]%size_1_elem_of. apply Hy, elem_of_singleton in Hx as ->.
    intros z Hz. rewrite elem_of_union, elem_of_singleton.
    destruct (decide (z ∈ Y)); [by left|right].
    assert (z ∈ X ∖ Y) as Hz' by (by apply elem_of_difference).
    by apply Hy, elem_of_singleton in Hz'.
  - intros Hsub. assert (X ∖ Y ≡ {[x]}) as -> by set_solver. apply size_singleton.
Qed.

End name_sets.

(** A finite set in which every element has a successor contains a cycle. *)
Lemma finite_walk_cycle (R : string → string → Prop) (X : gset string) (n : nat) l x :
  (∀ x, x ∈ X → ∃ y, y ∈ X ∧ R x y) →
  x ∈ X → x ∉ l → NoDup l → (∀ z, z ∈ l → z ∈ X ∧ tc R z x) →
  (size X ≤ n + length l)%nat → ∃ c, tc R c c.
Proof.
  intros Hnext. revert l x. induction n as [|n IH]; intros l x Hx Hxl Hnd Hl Hsz.
  - assert (size (list_to_set (x :: l) : gset string) ≤ size X)%nat as Hle.
    { apply subseteq_size. intros z. rewrite elem_of_list_to_set, elem_of_cons.
      intros [->|Hz]; [done|]. by apply Hl. }
    rewrite size_list_to_set in Hle by (by apply NoDup_cons). simpl in *. lia.
  - destruct (Hnext x Hx) as (y&Hy&Hxy).
    destruct (decide (y ∈ x :: l)) as [Hyl|Hyl].
    + exists y. apply elem_of_cons in Hyl as [->|Hyl]; [by apply tc_once|].
      eapply tc_r; [|done]. by apply Hl.
    + apply (IH (x :: l) y); simpl; [done|done|by apply NoDup_cons| |lia].
      intros z [->|Hz]%elem_of_cons; [split; [done|by apply tc_once]|].
      split; [by apply Hl|]. eapply tc_r; [by apply Hl|done].
Qed.

(** ** The order of [_order_contracts]: Kahn's algorithm *)

Section kahn.
Context (deps : gmap string (gset string)).

(** What a contract depends on. *)
Definition deps_of (c : string) : gset string := default ∅ (deps !! c).
Definition depends_on (c p : string) : Prop := p ∈ deps_of c.

Hypothesis deps_closed : ∀ c p, depends_on c p → p ∈ dom deps.

Lemma depends_on_dom c p : depends_on c p → c ∈ dom deps.
Proof.
  unfold depends_on, deps_of. rewrite elem_of_dom.
  destruct (deps !! c); simpl; [eauto|]. by intros ?%not_elem_of_empty.
Qed.

Lemma add_consumer_dom (c : string) ps (d : gmap string (gset string)) :
  dom (foldl (λ d p, alter (union {[c]}) p d) d ps) = dom d.
Proof.
  revert d. induction ps as [|p ps IH]; intros d; simpl; [done|].
  by rewrite IH, dom_alter_L.
Qed.

Lemma add_consumer_spec (c : string) ps (d : gmap string (gset string)) p c' :
  c' ∈ default ∅ (foldl (λ d p, alter (union {[c]}) p d) d ps !! p) ↔
  c' ∈ default ∅ (d !! p) ∨ (c' = c ∧ p ∈ ps ∧ p ∈ dom d).
Proof.
  revert d. induction ps as [|q ps IH]; intros d; simpl.
  - rewrite elem_of_nil. tauto.
  - rewrite IH, dom_alter_L, elem_of_cons, lookup_alter, elem_of_dom.
    case_decide as Hq; subst; destruct (d !! p) as [T|] eqn:Hd; simpl;
      rewrite ?elem_of_union, ?elem_of_singleton, ?elem_of_empty; try naive_solver.
    all: pose proof (mk_is_Some _ _ Hd); naive_solver.
Qed.

Lemma dependents_fold_spec l d p c' :
  c' ∈ default ∅ (foldl (λ (d : gmap string (gset string)) (cr : string * gset string),
    foldl (λ d p, alter (union {[cr.1]}) p d) d (elements cr.2)) d l !! p) ↔
  c' ∈ default ∅ (d !! p) ∨ ∃ S, (c', S) ∈ l ∧ p ∈ S ∧ p ∈ dom d.
Proof.
  revert d. induction l as [|[c S] l IH]; intros d; cbn [foldl fst snd].
  - setoid_rewrite elem_of_nil. naive_solver.
  - rewrite IH, add_consumer_spec, add_consumer_dom. setoid_rewrite elem_of_cons.
    rewrite elem_of_elements. naive_solver.
Qed.

Lemma dependents_spec p c :
  c ∈ default ∅ (dependents_of deps !! p) ↔ depends_on c p.
Proof.
  unfold dependents_of. rewrite dependents_fold_spec, dom_fmap_L, lookup_fmap.
  unfold depends_on, deps_of. setoid_rewrite elem_of_map_to_list. split.
  - intros [Hin|(S&->&HS&_)]; [|done]. destruct (deps !! p); simpl in *; set_solver.
  - intros Hp. pose proof (deps_closed c p Hp). right.
    destruct (deps !! c) as [S|] eqn:Hc; simpl in *; [|by apply not_elem_of_empty in Hp].
    by exists S.
Qed.

Lemma relax_all_spec L indeg ready :
  NoDup L →
  (∀ c, (foldl relax (indeg, ready) L).1 !! c =
     if decide (c ∈ L) then Some (default 0 (indeg !! c) - 1)%Z else indeg !! c) ∧
  (foldl relax (indeg, ready) L).2 ≡ₚ
    filter (λ c, default 0 (indeg !! c) = 1)%Z L ++ ready.
Proof.
  revert indeg ready. induction L as [|x L IH]; intros indeg ready Hnd.
  - split; [|done]. intros c. by rewrite decide_False by (by intros ?%elem_of_nil).
  - apply NoDup_cons in Hnd as [Hx Hnd]. cbn [foldl].
    unfold relax at 2 4. cbn [fst snd].
    set (n := (default 0 (indeg !! x) - 1)%Z).
    destruct (IH (<[x:=n]> indeg) (if (n =? 0)%Z then heappush x ready else ready) Hnd)
      as [IH1 IH2]. split.
    + intros c. rewrite IH1, lookup_insert. clear IH1 IH2.
      destruct (decide (c ∈ x :: L)) as [Hc|Hc]; rewrite elem_of_cons in Hc;
        repeat case_decide; subst; naive_solver.
    + rewrite IH2. rewrite filter_cons.
      assert (filter (λ c, default 0 (<[x:=n]> indeg !! c) = 1)%Z L =
              filter (λ c, default 0 (indeg !! c) = 1)%Z L) as ->.
      { apply filter_ext_in. intros c Hc. rewrite lookup_insert_ne; [done|].
        by intros ->. }
      unfold heappush. destruct (n =? 0)%Z eqn:Hn; unfold n in Hn.
      * apply Z.eqb_eq in Hn. rewrite decide_True by lia.
        rewrite insert_on_perm. by rewrite <-Permutation_middle.
      * apply Z.eqb_neq in Hn. by rewrite decide_False by lia.
Qed.

Record kahn_inv (indeg : gmap string Z) (ready done : list string) : Prop := {
  ki_nodup : NoDup (done ++ ready);
  ki_dom : ∀ c, c ∈ done ++ ready → c ∈ dom deps;
  ki_indeg : ∀ c, c ∈ dom deps →
    indeg !! c = Some (Z.of_nat (size (deps_of c ∖ list_to_set done)));
  ki_ready : ∀ c, c ∈ dom deps → c ∈ done ++ ready ↔ deps_of c ⊆ list_to_set done;
  ki_order : ∀ pre c post, done = pre ++ c :: post → deps_of c ⊆ list_to_set pre;
}.

Lemma kahn_inv_perm indeg ready ready' done :
  ready ≡ₚ ready' → kahn_inv indeg ready done → kahn_inv indeg ready' done.
Proof.
  intros Hp [H1 H2 H3 H4 H5]. split; [by rewrite <-Hp| |done| |done].
  - intros c. rewrite <-Hp. apply H2.
  - intros c. rewrite <-Hp. apply H4.
Qed.

Lemma kahn_inv_step indeg id ready done :
  kahn_inv indeg (id :: ready) done →
  let st := foldl relax (indeg, ready)
    (sort_on (λ s : string, s) (elements (default ∅ (dependents_of deps !! id)))) in
  kahn_inv st.1 st.2 (done ++ [id]).
Proof.
  intros [Hnd Hdom Hin Hready Horder] st.
  set (L := sort_on (λ s : string, s) (elements (default ∅ (dependents_of deps !! id)))) in *.
  set (D := list_to_set done : gset string) in *.
  assert (∀ c, c ∈ L ↔ depends_on c id) as HL.
  { intros c. unfold L. by rewrite elem_of_sort_on, elem_of_elements, dependents_spec. }
  assert (NoDup L) as HndL by (unfold L; rewrite sort_on_perm; apply NoDup_elements).
  destruct (relax_all_spec L indeg ready HndL) as [Hst1 Hst2]. fold st in Hst1, Hst2.
  assert (id ∈ done ++ id :: ready) as Hidr by (rewrite elem_of_app, elem_of_cons; auto).
  assert (id ∈ dom deps) as Hid by auto.
  assert (id ∉ D) as Hidd.
  { unfold D. rewrite elem_of_list_to_set. apply NoDup_app in Hnd as (_&Hnd&_).
    intros Hd. apply (Hnd id Hd). by left. }
  assert (list_to_set (done ++ [id]) = D ∪ {[id]}) as Hset
    by (unfold D; rewrite list_to_set_app_L; simpl; by rewrite (right_id_L ∅ (∪))).
  assert (∀ c, c ∈ L → c ∉ done ++ id :: ready) as HLnew.
  { intros c Hc%HL Hc'. apply Hready in Hc'; [|by eapply depends_on_dom].
    apply Hidd. by apply Hc'. }
  assert (∀ c, c ∈ L → default 0%Z (indeg !! c) = 1%Z ↔ deps_of c ⊆ D ∪ {[id]}) as Hone.
  { intros c Hc%HL. rewrite Hin by (by eapply depends_on_dom).
    simpl. rewrite <-(size_one_sub (deps_of c) D id Hc Hidd). lia. }
  set (fresh := filter (λ c, default 0 (indeg !! c) = 1)%Z L) in *.
  assert (∀ c, c ∈ fresh ↔ depends_on c id ∧ deps_of c ⊆ D ∪ {[id]}) as Hfresh.
  { intros c. unfold fresh. rewrite list_elem_of_filter, <-HL. split.
    - intros [Hc HcL]. split; [done|]. by apply Hone.
    - intros [HcL Hsub]. split; [|done]. by apply Hone. }
  apply (kahn_inv_perm _ (fresh ++ ready)); [by symmetry|].
  assert ((done ++ [id]) ++ fresh ++ ready ≡ₚ fresh ++ (done ++ id :: ready)) as Hperm by
    solve_Permutation.
  split.
  - rewrite Hperm. apply NoDup_app. split; [by apply NoDup_filter|]. split; [|done].
    intros c [_ Hc]%list_elem_of_filter. by apply HLnew.
  - intros c. rewrite Hperm, elem_of_app, Hfresh. intros [[Hc _]|Hc]; [|auto].
    by eapply depends_on_dom.
  - intros c Hc. rewrite Hst1, Hset. case_decide as HcL.
    + rewrite Hin by done. simpl. apply HL in HcL.
      rewrite size_diff_one by done.
      assert (size (deps_of c ∖ D) ≠ 0); [|f_equal; fold D; lia].
      assert (id ∈ deps_of c ∖ D) as Hm by (by apply elem_of_difference).
      intros Hz. rewrite (size_empty_inv _ Hz) in Hm. by apply not_elem_of_empty in Hm.
    + rewrite Hin by done. do 3 f_equal. rewrite HL in HcL.
      apply set_eq. intros x. rewrite !elem_of_difference, elem_of_union, elem_of_singleton.
      split; [|tauto]. intros [Hx HxD]. split; [done|]. intros [?| ->]; tauto.
  - intros c Hc. rewrite Hperm, elem_of_app, Hfresh, Hset, (Hready c Hc). fold D. split.
    + intros [[_ ?]|?]; [done|]. by apply union_subseteq_l'.
    + intros Hsub. destruct (decide (id ∈ deps_of c)) as [Hdep|Hdep]; [by left|right].
      intros x Hx. pose proof (Hsub x Hx) as Hx'. rewrite elem_of_union, elem_of_singleton in Hx'.
      destruct Hx' as [?| ->]; [done|]. by destruct Hdep.
  - apply every_split_snoc. split; [done|].
    by apply (Hready id Hid).
Qed.

Lemma sources_spec indeg c : c ∈ sources indeg ↔ indeg !! c = Some 0%Z.
Proof.
  unfold sources. rewrite list_elem_of_fmap. split.
  - intros ([c' n]&->&[Hn Hc]%list_elem_of_filter). apply elem_of_map_to_list in Hc.
    simpl in *. by subst.
  - intros Hc. exists (c, 0%Z). split; [done|]. apply list_elem_of_filter.
    by rewrite elem_of_map_to_list.
Qed.

Lemma sources_NoDup indeg : NoDup (sources indeg).
Proof.
  unfold sources. apply NoDup_fmap_fst.
  - intros c n n' [_ H]%list_elem_of_filter [_ H']%list_elem_of_filter.
    apply elem_of_map_to_list in H, H'. congruence.
  - apply NoDup_filter, NoDup_map_to_list.
Qed.

Lemma indegree_of_spec c :
  c ∈ dom deps → indegree_of deps !! c = Some (Z.of_nat (size (deps_of c))).
Proof.
  intros [S HS]%elem_of_dom. unfold indegree_of, deps_of. by rewrite lookup_fmap, HS.
Qed.

Lemma kahn_inv_init :
  kahn_inv (indegree_of deps) (heapify (sources (indegree_of deps))) [].
Proof.
  assert (∀ c, c ∈ heapify (sources (indegree_of deps)) ↔
               indegree_of deps !! c = Some 0%Z) as Hsrc.
  { intros c. unfold heapify. by rewrite elem_of_sort_on, sources_spec. }
  split; cbn [app list_to_set].
  - unfold heapify. rewrite sort_on_perm. apply sources_NoDup.
  - intros c. rewrite Hsrc. unfold indegree_of. rewrite lookup_fmap.
    rewrite elem_of_dom. destruct (deps !! c); [eauto|done].
  - intros c Hc. rewrite indegree_of_spec by done. do 3 f_equal. by rewrite difference_empty_L.
  - intros c Hc. rewrite Hsrc, indegree_of_spec by done. split.
    + intros [= Hz]. assert (size (deps_of c) = 0) as Hz' by lia.
      by rewrite (size_empty_inv _ Hz').
    + intros Hsub. assert (deps_of c ≡ ∅) as -> by (by apply equiv_empty).
      by rewrite size_empty.
  - by intros [|] c post.
Qed.

Lemma kahn_inv_bound indeg ready done :
  kahn_inv indeg ready done → (length done + length ready ≤ size deps)%nat.
Proof.
  intros H. rewrite <-length_app, <-size_dom.
  rewrite <-(size_list_to_set (C:=gset string)) by apply H.
  apply subseteq_size. intros c. rewrite elem_of_list_to_set. apply H.
Qed.

Lemma kahn_inv_order_NoDup indeg order : kahn_inv indeg [] order → NoDup order.
Proof. intros H. rewrite <-(app_nil_r order). apply H. Qed.

Lemma kahn_total fuel indeg ready done :
  kahn_inv indeg ready done → (size deps ≤ fuel + length done)%nat →
  ∃ indeg' order, kahn fuel (dependents_of deps) indeg ready done = Some (indeg', order) ∧
    kahn_inv indeg' [] order.
Proof.
  revert indeg ready done. induction fuel as [|fuel IH]; intros indeg [|id ready] done Hinv Hf;
    [by eexists _, _| |by eexists _, _|].
  - apply kahn_inv_bound in Hinv. simpl in *. lia.
  - apply kahn_inv_step in Hinv. cbn [kahn].
    destruct (foldl relax _ _) as [indeg' ready']. apply IH; [done|].
    rewrite length_app. simpl. lia.
Qed.

Lemma kahn_order_inv :
  ∃ indeg order, kahn_order deps = Some (indeg, order) ∧ kahn_inv indeg [] order.
Proof. apply kahn_total; [apply kahn_inv_init|simpl; lia]. Qed.

(** Everything a contract transitively depends on comes before it. *)
Lemma kahn_inv_tc indeg order c p :
  kahn_inv indeg [] order → tc depends_on c p →
  ∀ pre post, order = pre ++ c :: post → p ∈ pre.
Proof.
  intros Hinv. induction 1 as [c p Hd|c q p Hd _ IH]; intros pre post Heq.
  - eapply ki_order in Heq; [|done]. apply Heq in Hd. by apply elem_of_list_to_set in Hd.
  - eapply ki_order in Heq as Hq; [|done]. apply Hq in Hd.
    apply elem_of_list_to_set, list_elem_of_split in Hd as (pre1&pre2&->).
    apply elem_of_app. left. apply (IH pre1 (pre2 ++ c :: post)).
    by rewrite Heq, <-app_assoc.
Qed.

Lemma kahn_inv_full_acyclic indeg order c :
  kahn_inv indeg [] order → length order = size deps → ¬ tc depends_on c c.
Proof.
  intros Hinv Hlen Hcc.
  assert (c ∈ dom deps) as Hc by (inversion Hcc; by eapply depends_on_dom).
  assert (c ∈ order) as (pre&post&Heq)%list_elem_of_split.
  { assert (list_to_set order = dom deps) as Hset; [|by rewrite <-Hset in Hc; apply elem_of_list_to_set in Hc].
    apply set_subseteq_size_eq.
    - intros x. rewrite elem_of_list_to_set. intros Hx. eapply ki_dom; [done|]. by rewrite app_nil_r.
    - rewrite size_dom, size_list_to_set; [lia|].
      by apply (kahn_inv_order_NoDup indeg). }
  pose proof (kahn_inv_tc _ _ _ _ Hinv Hcc pre post Heq) as Hin.
  pose proof (ki_nodup _ _ _ Hinv) as Hnd. rewrite app_nil_r, Heq in Hnd.
  apply NoDup_app in Hnd as (_&Hnd&_). apply (Hnd c Hin). by left.
Qed.

(** Contracts the loop never emits wait for each other. *)
Lemma kahn_inv_stuck indeg order c :
  kahn_inv indeg [] order → c ∈ dom deps ∖ list_to_set order →
  ∃ p, p ∈ dom deps ∖ list_to_set order ∧ depends_on c p.
Proof.
  intros Hinv [Hc Hco]%elem_of_difference.
  assert (¬ deps_of c ⊆ list_to_set order) as Hn.
  { intros Hsub. apply (ki_ready _ _ _ Hinv c Hc) in Hsub.
    rewrite app_nil_r in Hsub. by apply Hco, elem_of_list_to_set. }
  destruct (decide (deps_of c ∖ list_to_set order ≡ ∅)) as [He|He].
  - destruct Hn. intros p Hp. destruct (decide (p ∈ (list_to_set order : gset string))); [done|].
    exfalso. apply (not_elem_of_empty (C:=gset string) p). rewrite <-He.
    by apply elem_of_difference.
  - apply set_choose in He as [p [Hp Hpo]%elem_of_difference].
    exists p. split; [|done]. apply elem_of_difference. eauto.
Qed.

Lemma kahn_inv_stops indeg order :
  kahn_inv indeg [] order → length order = size deps ∨ ∃ c, tc depends_on c c.
Proof.
  intros Hinv. pose proof (kahn_inv_bound _ _ _ Hinv) as Hle. simpl in Hle.
  destruct (decide (length order = size deps)) as [?|Hne]; [by left|right].
  set (X := dom deps ∖ list_to_set order).
  assert (∃ x, x ∈ X) as [x Hx].
  { apply set_choose. intros He. apply size_empty_iff in He.
    assert (NoDup order) as Hnd by (by apply (kahn_inv_order_NoDup indeg)).
    unfold X in He. rewrite size_difference, size_dom, size_list_to_set in He; [lia|done|].
    intros c. rewrite elem_of_list_to_set. intros Hc. eapply ki_dom; [done|]. by rewrite app_nil_r. }
  apply (finite_walk_cycle _ X (size X) [] x); [| |by apply not_elem_of_nil|constructor| |].
  - intros c Hc. by eapply kahn_inv_stuck.
  - done.
  - by intros z ?%elem_of_nil.
  - simpl. lia.
Qed.
End kahn.
