(* ===== verification/PlanTheorems.v ===== *)
(** * What [compile_contracts] guarantees

    The theorems of the compiler half of [contract_compiler.py]: the order is a
    topological sort of the bindings, a cycle is reported exactly when there is
    one, bindings pick the unique compatible provider, resource ownership is
    exclusive, shared or mediated consistently, and the plan does not depend on
    the order of the input. *)

From stdpp Require Import relations.
From S2P Require Import Prelude PyStd ContractParse ContractCompiler ContractOrder.

Local Open Scope string_scope.
Local Open Scope list_scope.

(** ** The dependency map of a list of bindings *)

(** [c] needs [p]: a binding makes another contract its provider. *)
Definition needs (bindings : list CapabilityBinding) (c p : string) : Prop :=
  ∃ b, b ∈ bindings ∧ b_consumer b = c ∧ b_provider b = p ∧ p ≠ c.

Definition bindings_among (ids : list string) (bindings : list CapabilityBinding) : Prop :=
  ∀ b, b ∈ bindings → b_consumer b ∈ ids ∧ b_provider b ∈ ids.

Section dependency_map.
Context (contracts : list ExtensionContract).
Let ids := extension_id <$> contracts.

Definition add_dependency (d : gmap string (gset string)) (b : CapabilityBinding) :=
  if decide (b_provider b = b_consumer b) then d
  else alter (union {[b_provider b]}) (b_consumer b) d.

Lemma dom_add_dependency bindings d : dom (foldl add_dependency d bindings) = dom d.
Proof.
  revert d. induction bindings as [|b bs IH]; intros d; [done|]. cbn [foldl].
  rewrite IH. unfold add_dependency. case_decide; [done|]. by rewrite dom_alter_L.
Qed.

Lemma add_dependency_spec bindings d c p :
  p ∈ deps_of (foldl add_dependency d bindings) c ↔
  p ∈ deps_of d c ∨ needs bindings c p ∧ c ∈ dom d.
Proof.
  revert d. induction bindings as [|b bs IH]; intros d; cbn [foldl].
  - split; [by left|]. intros [?|[(b&?%elem_of_nil&_) _]]; done.
  - rewrite IH. replace (dom (add_dependency d b)) with (dom d)
      by (symmetry; apply (dom_add_dependency [b])).
    assert (p ∈ deps_of (add_dependency d b) c ↔
            p ∈ deps_of d c ∨ needs [b] c p ∧ c ∈ dom d) as ->.
    { unfold needs, add_dependency, deps_of. setoid_rewrite list_elem_of_singleton.
      rewrite elem_of_dom. case_decide as Hb; [naive_solver|].
      rewrite lookup_alter. case_decide as Hc; subst; [|naive_solver].
      destruct (d !! b_consumer b) as [S|]; simpl.
      - rewrite elem_of_union, elem_of_singleton. split; [|naive_solver].
        intros [->|?]; [right; eauto 10|by left].
      - rewrite elem_of_empty. split; [done|]. by intros [?|[_ [? ?]]]. }
    unfold needs. setoid_rewrite elem_of_cons. setoid_rewrite elem_of_nil. naive_solver.
Qed.

Lemma dom_dependency_map bindings :
  dom (dependency_map contracts bindings) = list_to_set ids.
Proof.
  unfold dependency_map. fold add_dependency. rewrite (dom_add_dependency bindings).
  rewrite dom_list_to_map_L. f_equal. unfold ids. rewrite <-list_fmap_compose.
  by apply list_fmap_ext.
Qed.

Lemma dependency_map_spec bindings c p :
  bindings_among ids bindings →
  depends_on (dependency_map contracts bindings) c p ↔ needs bindings c p.
Proof.
  intros Hb. unfold depends_on, dependency_map. fold add_dependency.
  rewrite (add_dependency_spec bindings).
  assert (deps_of (list_to_map ((λ c, (extension_id c, ∅)) <$> contracts)) c = ∅) as ->.
  { unfold deps_of. destruct (_ !! c) as [S|] eqn:HS; [|done]. simpl.
    apply elem_of_list_to_map_2, list_elem_of_fmap in HS as (?&?&_). congruence. }
  rewrite elem_of_empty. split; [naive_solver|]. intros Hn. right. split; [done|].
  rewrite dom_list_to_map_L, elem_of_list_to_set.
  destruct Hn as (b&Hin&<-&_). apply Hb in Hin as [Hin _]. unfold ids in Hin.
  apply list_elem_of_fmap in Hin as (k&->&Hk). rewrite <-list_fmap_compose.
  by apply list_elem_of_fmap_2.
Qed.
End dependency_map.

(** ** Capability resolution *)

Section resolution.
Context {PV : Pep440}.

Lemma filterR_Ok {E A} (p : A → result E bool) l ys :
  filterR p l = Ok ys → ∀ x, x ∈ ys ↔ x ∈ l ∧ p x = Ok true.
Proof.
  revert ys. induction l as [|x l IH]; intros ys; cbn [filterR].
  - intros [= <-] y. rewrite elem_of_nil. tauto.
  - intros H. method_inv. rename x0 into b, x1 into zs. simplify_eq.
    intros y. destruct b; rewrite ?elem_of_cons, (IH zs H0); clear -H.
    + split; [intros [->|[? ?]]; auto|]. intros [[->|?] ?]; auto.
    + split; [intros [? ?]; auto|]. intros [[->|?] ?]; [congruence|auto].
Qed.

Lemma elem_of_candidates contracts name c k :
  (c, k) ∈ candidates contracts name ↔ c ∈ contracts ∧ k ∈ provides c ∧ cap_name k = name.
Proof.
  unfold candidates. rewrite list_elem_of_bind. setoid_rewrite list_elem_of_bind.
  setoid_rewrite list_elem_of_filter. setoid_rewrite list_elem_of_singleton. naive_solver.
Qed.

(** [p] offers [k], which satisfies the requirement [r]. *)
Definition offers (contracts : list ExtensionContract) (r : Capability)
    (p : ExtensionContract) (k : Capability) : Prop :=
  p ∈ contracts ∧ k ∈ provides p ∧ cap_name k = cap_name r ∧ satisfies r (p, k) = Ok true.

(** What a binding records: the one compatible offer for the requirement [r] of [c]. *)
Record binds (contracts : list ExtensionContract) (c : ExtensionContract)
    (r : Capability) (b : CapabilityBinding) (p : ExtensionContract) (k : Capability)
    : Prop := {
  bd_offer : offers contracts r p k;
  bd_only : ∀ p' k', offers contracts r p' k' → p' = p ∧ k' = k;
  bd_value : b = mkBinding (cap_name r) (cap_version r) (extension_id c) (extension_id p)
                   (cap_version k);
}.

Lemma resolve_requirement_Ok contracts c r b :
  resolve_requirement contracts c r = Ok b → ∃ p k, binds contracts c r b p k.
Proof.
  unfold resolve_requirement. intros H. method_inv. rename x into found.
  assert (∀ p k, (p, k) ∈ found ↔ offers contracts r p k) as Hf.
  { intros p k. eapply filterR_Ok in H as ->. rewrite elem_of_candidates.
    unfold offers. tauto. }
  destruct found as [|[p k] [|]]; [done| |by destruct p]. simplify_eq.
  exists p, k. split; [|intros p' k'|done]; rewrite <-Hf, list_elem_of_singleton;
    [done|by intros [= -> ->]].
Qed.

Definition requirements_of (contracts : list ExtensionContract)
    : list (ExtensionContract * Capability) :=
  c ← contracts; r ← requires c; [(c, r)].

Lemma elem_of_requirements contracts c r :
  (c, r) ∈ requirements_of contracts ↔ c ∈ contracts ∧ r ∈ requires c.
Proof.
  unfold requirements_of. rewrite list_elem_of_bind. setoid_rewrite list_elem_of_bind.
  setoid_rewrite list_elem_of_singleton. naive_solver.
Qed.

Lemma resolve_all_Ok contracts bs :
  resolve_all contracts = Ok bs →
  Forall2 (λ cr b, ∃ p k, binds contracts cr.1 cr.2 b p k) (requirements_of contracts) bs.
Proof.
  intros H%mapR_Ok. eapply Forall2_impl; [exact H|].
  intros [c r] b Hb. by apply resolve_requirement_Ok.
Qed.

Lemma resolve_capabilities_Ok contracts bs deps :
  _resolve_capabilities contracts = Ok (bs, deps) →
  ∃ raw, resolve_all contracts = Ok raw ∧ bs = sort_on binding_key raw ∧
    deps = dependency_map contracts raw.
Proof. unfold _resolve_capabilities. intros H. method_inv. naive_solver. Qed.

Lemma resolved_among contracts raw :
  resolve_all contracts = Ok raw → bindings_among (extension_id <$> contracts) raw.
Proof.
  intros H%resolve_all_Ok b Hb.
  apply list_elem_of_lookup in Hb as [i Hi].
  eapply Forall2_lookup_r in H as ([c r]&Hcr&p&k&Hbd); [|done].
  apply list_elem_of_lookup_2, elem_of_requirements in Hcr as [Hc _].
  destruct Hbd as [(Hp&_) _ ->]. simpl. split; by apply list_elem_of_fmap_2.
Qed.
End resolution.

(** ** Ordering *)

Lemma needs_perm bs bs' c p : bs ≡ₚ bs' → needs bs c p ↔ needs bs' c p.
Proof. intros Hp. unfold needs. by setoid_rewrite Hp. Qed.

Lemma by_id_elem contracts c :
  NoDup (extension_id <$> contracts) → c ∈ contracts → by_id contracts (extension_id c) = Some c.
Proof.
  intros Hnd Hc. unfold by_id.
  destruct (last _) as [c'|] eqn:Hl.
  - apply last_Some_elem_of, list_elem_of_filter in Hl as [Hid Hc'].
    f_equal. by eapply NoDup_fmap_elem.
  - apply last_None in Hl. exfalso. apply (not_elem_of_nil c). rewrite <-Hl.
    by apply list_elem_of_filter.
Qed.

Lemma omap_by_id contracts (order : list string) :
  NoDup (extension_id <$> contracts) → (∀ i, i ∈ order → i ∈ extension_id <$> contracts) →
  extension_id <$> omap (by_id contracts) order = order ∧
  ∀ c, c ∈ omap (by_id contracts) order → c ∈ contracts.
Proof.
  intros Hnd. induction order as [|i order IH]; intros Hin; simpl.
  - split; [done|]. by intros c ?%elem_of_nil.
  - destruct (proj1 (list_elem_of_fmap _ _ _) (Hin i ltac:(by left))) as (c&->&Hc).
    rewrite by_id_elem by done. destruct IH as [IH1 IH2]; [intros; apply Hin; by right|].
    split; [by f_equal/=|]. intros c' [->|?]%elem_of_cons; auto.
Qed.

Section ordering.
Context {PV : Pep440} (contracts : list ExtensionContract).
Context (bs : list CapabilityBinding) (deps : gmap string (gset string)).
Hypothesis ids_unique : NoDup (extension_id <$> contracts).
Hypothesis resolved : _resolve_capabilities contracts = Ok (bs, deps).

Lemma resolved_depends c p : depends_on deps c p ↔ needs bs c p.
Proof.
  destruct (resolve_capabilities_Ok _ _ _ resolved) as (raw&Hraw&->&->).
  rewrite (needs_perm _ raw) by apply sort_on_perm.
  apply dependency_map_spec. by apply resolved_among.
Qed.

Lemma resolved_dom : dom deps = list_to_set (extension_id <$> contracts).
Proof.
  destruct (resolve_capabilities_Ok _ _ _ resolved) as (raw&_&_&->).
  apply dom_dependency_map.
Qed.

Lemma resolved_closed c p : depends_on deps c p → p ∈ dom deps.
Proof.
  rewrite resolved_depends, resolved_dom, elem_of_list_to_set.
  intros (b&Hb&_&<-&_).
  destruct (resolve_capabilities_Ok _ _ _ resolved) as (raw&Hraw&->&_).
  rewrite elem_of_sort_on in Hb. by eapply resolved_among.
Qed.

Lemma resolved_tc c p : tc (depends_on deps) c p ↔ tc (needs bs) c p.
Proof.
  split; induction 1 as [c p H|c q p H _ IH]; apply resolved_depends in H;
    by econstructor; eauto.
Qed.

Lemma resolved_size : size deps = length contracts.
Proof.
  rewrite <-size_dom, resolved_dom, size_list_to_set by done. by rewrite length_fmap.
Qed.

(** The loop always finishes, with either a full order or a cycle left over. *)
Lemma order_contracts_cases :
  (∃ order, _order_contracts contracts deps = Ok (omap (by_id contracts) order) ∧
     order ≡ₚ extension_id <$> contracts ∧
     (∀ pre c post, order = pre ++ c :: post → deps_of deps c ⊆ list_to_set pre) ∧
     ∀ c, ¬ tc (needs bs) c c) ∨
  (∃ d, _order_contracts contracts deps = planning_error DEPENDENCY_CYCLE d) ∧
     ∃ c, tc (needs bs) c c.
Proof.
  destruct (kahn_order_inv deps resolved_closed) as (indeg&order&Hk&Hinv).
  unfold _order_contracts. rewrite Hk, <-resolved_size.
  destruct (decide (length order = size deps)) as [Hlen|Hlen].
  - left. exists order. rewrite bool_decide_true by done. split_and!; [done| |by eapply ki_order|].
    + apply submseteq_length_Permutation.
      * apply NoDup_submseteq; [by eapply kahn_inv_order_NoDup|].
        intros c Hc. apply (elem_of_list_to_set (C:=gset string)). rewrite <-resolved_dom.
        eapply ki_dom; [done|]. by rewrite app_nil_r.
      * rewrite length_fmap, <-resolved_size. lia.
    + intros c. rewrite <-resolved_tc. by eapply kahn_inv_full_acyclic.
  - right. rewrite bool_decide_false by done. split; [by eexists|].
    destruct (kahn_inv_stops deps resolved_closed _ _ Hinv) as [?|[c Hc]]; [done|].
    exists c. by apply resolved_tc.
Qed.
End ordering.

(** ** Taxonomy normalisation touches resources only *)

Definition same_contract (c c' : ExtensionContract) : Prop :=
  c' = with_resources (resources c') c.

Lemma same_contract_refl c : same_contract c c.
Proof. by destruct c. Qed.

Lemma normalize_contract_Ok t c c' :
  normalize_contract t c = Ok c' →
  same_contract c c' ∧ ∃ rs, mapR (normalize_resource t) (resources c) = Ok rs ∧
    resources c' = sort_on res_name rs.
Proof. unfold normalize_contract. intros H. method_inv. simplify_eq. split; [done|eauto]. Qed.

Lemma normalize_taxonomy_Ok t cs cs' :
  _normalize_taxonomy_resources cs t = Ok cs' →
  unknown_claims cs t = [] ∧ invalid_modes cs t = [] ∧
  Forall2 (λ c c', normalize_contract t c = Ok c') cs cs'.
Proof.
  unfold _normalize_taxonomy_resources. intros H. method_inv.
  destruct (unknown_claims cs t) as [|[]]; [|done].
  destruct (invalid_modes cs t) as [|[? []]]; [|done].
  split_and!; [done..|]. by apply mapR_Ok.
Qed.

Definition normalize (tax : option ContractTaxonomy) (cs : list ExtensionContract)
    : result exn (list ExtensionContract) :=
  match tax with Some t => _normalize_taxonomy_resources cs t | None => Ok cs end.

Lemma normalize_same tax cs cs' :
  normalize tax cs = Ok cs' → Forall2 same_contract cs cs'.
Proof.
  destruct tax as [t|]; cbn [normalize].
  - intros (_&_&H)%normalize_taxonomy_Ok. eapply Forall2_impl; [exact H|].
    intros c c' (?&_)%normalize_contract_Ok. done.
  - intros [= ->]. apply Forall_Forall2_diag, Forall_forall. intros c _. apply same_contract_refl.
Qed.

Lemma same_contract_field {B} (f : ExtensionContract → B) cs cs' :
  (∀ rs c, f (with_resources rs c) = f c) → Forall2 same_contract cs cs' → f <$> cs' = f <$> cs.
Proof.
  intros Hf H. induction H as [|c c' cs cs' Hc _ IH]; [done|].
  rewrite !fmap_cons, IH, Hc. by rewrite Hf.
Qed.

Lemma same_contract_elem_l cs cs' c :
  Forall2 same_contract cs cs' → c ∈ cs → ∃ c', c' ∈ cs' ∧ same_contract c c'.
Proof.
  intros H [i Hi]%list_elem_of_lookup.
  eapply Forall2_lookup_l in H as (c'&Hc'&?); [|done].
  eauto using list_elem_of_lookup_2.
Qed.

Lemma same_contract_elem_r cs cs' c' :
  Forall2 same_contract cs cs' → c' ∈ cs' → ∃ c, c ∈ cs ∧ same_contract c c'.
Proof.
  intros H [i Hi]%list_elem_of_lookup.
  eapply Forall2_lookup_r in H as (c&Hc&?); [|done].
  eauto using list_elem_of_lookup_2.
Qed.

(** ** What a successful compilation went through *)

Section compilation.
Context {PV : Pep440}.

Record compilation (contracts : list ExtensionContract) (rt hv : json)
    (tax : option ContractTaxonomy) (runtime : string) (v : version)
    (normalized : list ExtensionContract) (deps : gmap string (gset string))
    (plan : ContractPlan) : Prop := {
  cp_nonempty : contracts ≠ [];
  cp_runtime : _string rt "host_runtime" = Ok runtime;
  cp_version : ∃ host, _public_version hv "host_version" = Ok host ∧ Version host = Some v;
  cp_unique : NoDup (extension_id <$> contracts);
  cp_host : Forall (λ c, check_host runtime v c = Ok tt) contracts;
  cp_normalized : normalize tax (sort_on extension_id contracts) = Ok normalized;
  cp_authority : _validate_obligation_authority normalized = Ok tt;
  cp_bindings : _resolve_capabilities normalized = Ok (capability_bindings plan, deps);
  cp_order : _order_contracts normalized deps = Ok (ordered_contracts plan);
  cp_resources : _resolve_resources normalized = Ok (resource_ownership plan);
  cp_obligations : _bind_obligations normalized (capability_bindings plan) =
                   Ok (obligation_bindings plan);
  cp_plan_host : plan_host_runtime plan = runtime ∧ plan_host_version plan = version_str v;
}.

Lemma compile_contracts_Ok contracts rt hv tax plan :
  compile_contracts contracts rt hv tax = Ok plan ↔
  ∃ runtime v normalized deps,
    compilation contracts rt hv tax runtime v normalized deps plan.
Proof.
  unfold compile_contracts. split.
  - intros H. method_inv.
    repeat match goal with
    | H : invalid_if _ _ = Ok _ |- _ => apply invalid_if_Ok in H
    | H : match Version ?h with _ => _ end = Ok _ |- _ =>
        destruct (Version h) eqn:?; simplify_eq
    | x : prod _ _ |- _ => destruct x
    | x : unit |- _ => destruct x
    end.
    simplify_eq/=. bool_inv.
    do 4 eexists. split; try done; eauto.
    + by apply has_duplicates_false.
    + by apply forR_Ok.
  - intros (runtime&v&normalized&deps&[Hne Hr (h&Hh&Hv) Hnd Hhost Hn Ha Hb Ho Hres Hob [<- Hpv]]).
    unfold normalize in Hn. unfold mbind, result_bind, invalid_if, raise_if.
    rewrite bool_decide_false by done. rewrite Hr, Hh, Hv.
    rewrite (proj2 (has_duplicates_false _)) by done.
    rewrite (proj2 (forR_Ok _ _)) by done.
    rewrite Hn, Ha, Hb. cbn [fst snd]. rewrite Ho, Hres, Hob, <-Hpv. by destruct plan.
Qed.

Context {contracts : list ExtensionContract} {rt hv : json} {tax : option ContractTaxonomy}.
Context {runtime : string} {v : version} {normalized : list ExtensionContract}.
Context {deps : gmap string (gset string)} {plan : ContractPlan}.
Hypothesis compiled : compilation contracts rt hv tax runtime v normalized deps plan.

Lemma cp_same : Forall2 same_contract (sort_on extension_id contracts) normalized.
Proof. eapply normalize_same, cp_normalized, compiled. Qed.

Lemma cp_ids : extension_id <$> normalized ≡ₚ extension_id <$> contracts.
Proof.
  rewrite (same_contract_field extension_id _ _ (λ _ _, eq_refl) cp_same).
  by rewrite sort_on_perm.
Qed.

Lemma cp_ids_NoDup : NoDup (extension_id <$> normalized).
Proof. rewrite cp_ids. eapply cp_unique, compiled. Qed.

Lemma cp_original c' : c' ∈ normalized → ∃ c, c ∈ contracts ∧ same_contract c c'.
Proof.
  intros Hc. destruct (same_contract_elem_r _ _ _ cp_same Hc) as (c&Hc'&?).
  rewrite elem_of_sort_on in Hc'. eauto.
Qed.

Lemma cp_image c : c ∈ contracts → ∃ c', c' ∈ normalized ∧ same_contract c c'.
Proof.
  intros Hc. apply (same_contract_elem_l _ _ _ cp_same). by rewrite elem_of_sort_on.
Qed.

Lemma cp_ordered :
  (extension_id <$> ordered_contracts plan) ≡ₚ extension_id <$> normalized ∧
  (∀ c, c ∈ ordered_contracts plan → c ∈ normalized) ∧
  (∀ pre c post, ordered_contracts plan = pre ++ c :: post →
     deps_of deps (extension_id c) ⊆ list_to_set (extension_id <$> pre)) ∧
  ∀ c, ¬ tc (needs (capability_bindings plan)) c c.
Proof.
  destruct (order_contracts_cases _ _ _ cp_ids_NoDup (cp_bindings _ _ _ _ _ _ _ _ _ compiled))
    as [(order&Hord&Hp&Htopo&Hac)|[[d Hd] _]]; rewrite (cp_order _ _ _ _ _ _ _ _ _ compiled) in *;
    [|done].
  simplify_eq.
  destruct (omap_by_id normalized order cp_ids_NoDup) as [Hid Hin].
  { intros i. by rewrite Hp. }
  rewrite Hord, Hid. split_and!; [done|done| |done].
  intros pre c post Heq. apply (Htopo _ _ (extension_id <$> post)).
  by rewrite <-Hid, Heq, fmap_app.
Qed.
End compilation.

(** ** Resource claims *)

Definition holders (contracts : list ExtensionContract) (name : string)
    : list (string * ContractResource) :=
  filter (λ oc, res_name oc.2 = name) (claims_of contracts).

(** Claims that can be owned together. *)
Definition coherent (hs : list (string * ContractResource)) : Prop :=
  NoDup hs.*1 ∧
  ((length hs = 1 ∧ Forall (λ oc, res_mode oc.2 ≠ "mediated") hs) ∨
   Forall (λ oc, res_mode oc.2 = "shared-read") hs ∨
   ∃ m, m ∈ hs.*1 ∧
     Forall (λ oc, res_mode oc.2 = "mediated" ∧ res_mediator oc.2 = Some m) hs).

Section grouping.
Definition group_claim (d : list (string * list (string * ContractResource)))
    (oc : string * ContractResource) :=
  od_set (res_name oc.2) (default [] (od_get (res_name oc.2) d) ++ [oc]) d.

Lemma group_claim_get l d n :
  default [] (od_get n (foldl group_claim d l)) =
  default [] (od_get n d) ++ filter (λ oc, res_name oc.2 = n) l.
Proof.
  revert d. induction l as [|oc l IH]; intros d; cbn [foldl].
  - by rewrite filter_nil, app_nil_r.
  - rewrite IH, filter_cons. unfold group_claim. rewrite od_get_set.
    repeat case_decide; subst; try done. simpl. by rewrite <-app_assoc.
Qed.

Lemma group_claim_keys l d n :
  n ∈ (foldl group_claim d l).*1 ↔ n ∈ d.*1 ∨ n ∈ (λ oc, res_name oc.2) <$> l.
Proof.
  revert d. induction l as [|oc l IH]; intros d; cbn [foldl].
  - rewrite fmap_nil, elem_of_nil. tauto.
  - rewrite IH, fmap_cons, elem_of_cons. unfold group_claim. rewrite od_set_keys. tauto.
Qed.

Lemma group_claim_NoDup l d : NoDup d.*1 → NoDup (foldl group_claim d l).*1.
Proof.
  revert d. induction l as [|oc l IH]; intros d Hd; [done|].
  apply IH. by apply od_set_NoDup.
Qed.

Context (contracts : list ExtensionContract).

Definition claimed : list string := (λ oc, res_name oc.2) <$> claims_of contracts.

Lemma resource_claims_elem n hs :
  (n, hs) ∈ resource_claims contracts ↔ n ∈ claimed ∧ hs = holders contracts n.
Proof.
  unfold resource_claims. fold (claims_of contracts). fold group_claim.
  assert (NoDup (foldl group_claim [] (claims_of contracts)).*1) as Hnd
    by (apply group_claim_NoDup; constructor).
  pose proof (group_claim_get (claims_of contracts) [] n) as Hget. simpl in Hget.
  pose proof (group_claim_keys (claims_of contracts) [] n) as Hkeys.
  rewrite elem_of_nil in Hkeys. split.
  - intros Hin. pose proof (od_get_NoDup _ _ _ Hnd Hin) as Hg. rewrite Hg in Hget.
    split; [|done]. destruct Hkeys as [Hk _]. destruct Hk as [[]|?]; [|done].
    apply list_elem_of_fmap. by exists (n, hs).
  - intros [Hn ->]. destruct (od_get n _) as [hs|] eqn:Hg.
    + simpl in Hget. unfold holders. rewrite <-Hget. by apply od_get_elem_of.
    + apply od_get_None in Hg. destruct Hg. apply Hkeys. by right.
Qed.

Lemma summaries_elem s :
  s ∈ summaries_of contracts ↔
  sm_name s ∈ claimed ∧ s = summarize (sm_name s, holders contracts (sm_name s)).
Proof.
  unfold summaries_of. rewrite list_elem_of_fmap. split.
  - intros ([n hs]&->&Hin). rewrite elem_of_sort_on, resource_claims_elem in Hin.
    destruct Hin as [? ->]. done.
  - intros [Hn Heq]. exists (sm_name s, holders contracts (sm_name s)). split; [done|].
    by rewrite elem_of_sort_on, resource_claims_elem.
Qed.

Lemma summaries_names :
  sm_name <$> summaries_of contracts = (sort_on fst (resource_claims contracts)).*1.
Proof. unfold summaries_of. rewrite <-list_fmap_compose. by apply list_fmap_ext. Qed.

Lemma summaries_names_NoDup : NoDup (sm_name <$> summaries_of contracts).
Proof.
  rewrite summaries_names, sort_on_perm. unfold resource_claims.
  apply group_claim_NoDup. constructor.
Qed.

Lemma holders_nonempty n : n ∈ claimed → holders contracts n ≠ [].
Proof.
  intros (oc&->&Hoc)%list_elem_of_fmap He.
  apply (not_elem_of_nil oc). rewrite <-He. by apply list_elem_of_filter.
Qed.
End grouping.

(** A set with one element, as the code tests it. *)
Lemma remove_dups_singleton {A B} `{EqDecision B} (f : A → B) l m :
  l ≠ [] → remove_dups (f <$> l) = [m] ↔ Forall (λ x, f x = m) l.
Proof.
  intros Hl. rewrite Forall_forall. split.
  - intros Hd x Hx. apply list_elem_of_singleton. rewrite <-Hd, elem_of_remove_dups.
    by apply list_elem_of_fmap_2.
  - intros Hall. pose proof (NoDup_remove_dups (f <$> l)) as Hnd.
    assert (∀ y, y ∈ remove_dups (f <$> l) ↔ y = m) as Hm.
    { intros y. rewrite elem_of_remove_dups, list_elem_of_fmap. split.
      - intros (x&->&Hx). by apply Hall.
      - intros ->. destruct l as [|x l]; [done|]. exists x.
        rewrite (Hall x) by (by left). split; [done|by left]. }
    destruct (remove_dups (f <$> l)) as [|y [|z k]].
    + exfalso. apply (not_elem_of_nil m). by apply Hm.
    + f_equal. apply Hm. by left.
    + assert (y = z) as ->; [|apply NoDup_cons in Hnd as [[] _]; by left].
      trans m; [|symmetry]; apply Hm; [by left|right; by left].
Qed.

Section coherence.
Context (n : string) (hs : list (string * ContractResource)).
Hypothesis hs_nonempty : hs ≠ [].
Let s := summarize (n, hs).

Lemma modes_singleton m :
  sm_modes s = [m] ↔ Forall (λ oc, res_mode oc.2 = m) hs.
Proof. by apply (remove_dups_singleton (λ oc, res_mode oc.2)). Qed.

Lemma mediators_singleton m :
  sm_mediators s = [m] ↔ Forall (λ oc, res_mediator oc.2 = m) hs.
Proof. by apply (remove_dups_singleton (λ oc, res_mediator oc.2)). Qed.

Lemma owners_NoDup : has_duplicates (sm_owners s) = false ↔ NoDup hs.*1.
Proof. rewrite has_duplicates_false. unfold s. simpl. by rewrite sort_on_perm. Qed.

Lemma mediated_Forall : is_mediated s = true ↔ Forall (λ oc, res_mode oc.2 = "mediated") hs.
Proof. unfold is_mediated. rewrite bool_decide_eq_true. apply modes_singleton. Qed.

End coherence.

Lemma checks_coherent n hs :
  let s := summarize (n, hs) in
  hs ≠ [] →
  (mode_error s = false ∧ mediator_inconsistent s = false ∧ mediator_absent s = false) ↔
  coherent hs.
Proof.
  intros s Hne.
  pose proof (modes_singleton n hs Hne) as modes_singleton.
  pose proof (mediators_singleton n hs Hne) as mediators_singleton.
  pose proof (mediated_Forall n hs Hne) as mediated_Forall.
  pose proof (owners_NoDup n hs) as owners_NoDup. fold s in modes_singleton,
    mediators_singleton, mediated_Forall, owners_NoDup.
  assert (∀ m, m ∈ sm_owners s ↔ m ∈ hs.*1) as Hown by (intros m; apply elem_of_sort_on).
  assert (sm_claims s = hs) as Hclaims by done. clearbody s.
  unfold coherent, mode_error. rewrite orb_false_iff, owners_NoDup, Hclaims.
  split.
  - intros ([Hnd Hmode]&Hincon&Habs). split; [done|].
    remember (is_mediated s) as im eqn:Hmed in |-; destruct im; symmetry in Hmed.
    + unfold mediator_inconsistent, mediator_absent in *. rewrite Hmed in Hincon, Habs. bool_inv.
      apply mediated_Forall in Hmed. right; right.
      destruct (sm_mediators s) as [|m [|]] eqn:Hms; try done.
      unfold the_mediator in Habs. rewrite Hms in Habs. cbn [length head default] in *.
      destruct m as [m|]; [|done]. cbn [id andb] in Habs. bool_inv. exists m. split; [by apply Hown|].
      pose proof (proj1 (mediators_singleton (Some m)) eq_refl).
      apply Forall_and. by split.
    + apply andb_false_iff in Hmode as [Hlen|Hmode].
      * left. assert (length hs = 1) as Hlen'.
        { apply Nat.ltb_ge in Hlen.
          destruct hs as [|? [|]]; simpl in *; [done|done|lia]. }
        split; [done|]. destruct hs as [|oc [|]]; try done. constructor; [|done].
        intros Hm. assert (is_mediated s = true); [|congruence].
        apply mediated_Forall. by repeat constructor.
      * right; left. apply negb_false_iff, orb_true_iff in Hmode as [Hmode|Hmode].
        -- apply modes_singleton. by apply bool_decide_eq_true in Hmode.
        -- unfold is_mediated in Hmed. congruence.
  - intros (Hnd&Hcases).
    destruct Hcases as [[Hlen Hmode]|[Hmode|(m&Hm&Hall)]].
    + assert (is_mediated s = false) as Hmed.
      { apply not_true_is_false. intros Hmed%mediated_Forall.
        destruct hs as [|oc l]; [done|]. inversion Hmed; inversion Hmode; subst. done. }
      unfold mediator_inconsistent, mediator_absent. rewrite Hmed.
      split_and!; [done| |done|done]. by rewrite Hlen.
    + assert (sm_modes s = ["shared-read"]) as Hms by (by apply modes_singleton).
      unfold mediator_inconsistent, mediator_absent, is_mediated. rewrite Hms.
      split_and!; [done| |done|done]. by rewrite andb_comm.
    + apply Forall_and in Hall as [Hmode Hmed].
      assert (sm_modes s = ["mediated"]) as Hms by (by apply modes_singleton).
      assert (sm_mediators s = [Some m]) as Hme by (by apply mediators_singleton).
      unfold mediator_inconsistent, mediator_absent, is_mediated, the_mediator.
      rewrite Hms, Hme. cbn [length head default id].
      rewrite !(bool_decide_true (m ∈ _)) by (by apply Hown).
      split; [split; [done|]|done]. by rewrite andb_comm.
Qed.

(** What the plan records for coherent claims. *)
Lemma ownership_coherent n hs :
  let s := summarize (n, hs) in
  hs ≠ [] → coherent hs →
  let ro := ownership_of s in
  ro_resource ro = n ∧ ro_owners ro = sort_on (λ s : string, s) hs.*1 ∧
  Forall (λ oc, res_mode oc.2 = ro_mode ro) hs ∧
  (ro_mode ro = "mediated" → ∃ m, ro_mediator ro = Some m ∧ m ∈ ro_owners ro ∧
     Forall (λ oc, res_mediator oc.2 = Some m) hs) ∧
  (ro_mode ro ≠ "mediated" → ro_mode ro ≠ "shared-read" → ∃ o, ro_owners ro = [o]).
Proof.
  intros s Hne (Hnd&Hcases).
  pose proof (mediators_singleton n hs Hne) as mediators_singleton.
  unfold ownership_of. destruct (is_mediated s) eqn:Hmed.
  - pose proof (proj1 (mediated_Forall n hs Hne) Hmed) as Hall.
    cbn. split_and!; [done|done|done| |done].
    intros _. destruct Hcases as [[Hlen Hmode]|[Hmode|(m&Hm&Hm')]].
    1,2: destruct hs as [|oc l]; [done|]; exfalso; inversion Hall; inversion Hmode; congruence.
    apply Forall_and in Hm' as [_ Hm']. exists m.
    assert (sm_mediators s = [Some m]) as Hme by (by apply mediators_singleton).
    split_and!; [|by apply (elem_of_sort_on (λ s : string, s))|done].
    change (the_mediator s = Some m). unfold the_mediator. by rewrite Hme.
  - assert (¬ Forall (λ oc, res_mode oc.2 = "mediated") hs) as Hnm
      by (rewrite <-(mediated_Forall n hs Hne); fold s; by rewrite Hmed).
    change (sm_claims s) with hs.
    destruct Hcases as [[Hlen Hmode]|[Hmode|(m&_&[Hm _]%Forall_and)]]; [| |done].
    + destruct hs as [|[o r] [|]] eqn:Hhs; try done. cbn.
      apply Forall_cons in Hmode as [Hmode _].
      split_and!; [done|done|by apply Forall_singleton|done|].
      intros _ _. by exists o.
    + destruct hs as [|[o r] [|]] eqn:Hhs; [done| |]; cbn.
      * apply Forall_cons in Hmode as [Hmode _]. simpl in Hmode. rewrite Hmode.
        split_and!; [done|done|by apply Forall_singleton|done|done].
      * by split_and!.
Qed.

Lemma resolve_resources_Ok contracts rs :
  _resolve_resources contracts = Ok rs ↔
  (∀ n, n ∈ claimed contracts → coherent (holders contracts n)) ∧
  rs = ownership_of <$> summaries_of contracts.
Proof.
  assert (∀ p : Summary → bool, filter (λ s, p s) (summaries_of contracts) = [] ↔
    ∀ n, n ∈ claimed contracts → p (summarize (n, holders contracts n)) = false) as Hnil.
  { intros p. split.
    - intros He n Hn. apply not_true_is_false. intros Hp.
      apply (not_elem_of_nil (summarize (n, holders contracts n))). rewrite <-He.
      apply list_elem_of_filter. split; [by apply Is_true_true|]. by apply summaries_elem.
    - intros Hall. apply elem_of_nil_inv. intros s [Hs Hin]%list_elem_of_filter.
      apply summaries_elem in Hin as [Hn Heq]. apply Is_true_true in Hs.
      rewrite Heq, Hall in Hs; done. }
  unfold _resolve_resources. split.
  - intros H. method_inv.
    destruct (filter (λ s, mode_error s) _) eqn:Hc1; [|done].
    destruct (filter (λ s, mediator_inconsistent s) _) eqn:Hc2; [|done].
    destruct (filter (λ s, mediator_absent s) _) eqn:Hc3; [|done].
    simplify_eq. split; [|done]. intros n Hn.
    pose proof (proj1 (Hnil _) Hc1 n Hn). pose proof (proj1 (Hnil _) Hc2 n Hn).
    pose proof (proj1 (Hnil _) Hc3 n Hn).
    apply (checks_coherent n); [by apply holders_nonempty|done].
  - intros [Hall ->].
    assert (∀ p, (∀ n, n ∈ claimed contracts → p (summarize (n, holders contracts n)) = false) →
      filter (λ s : Summary, Is_true (p s)) (summaries_of contracts) = []) as Hnil'
      by (intros p; apply Hnil).
    rewrite !Hnil'; [done|..]; intros n Hn;
      by apply (proj2 (checks_coherent n _ (holders_nonempty _ _ Hn)) (Hall n Hn)).
Qed.

(** ** Errors of the compiler *)

Definition is_planning_error (e : exn) : Prop := ∃ code d, e = ContractPlanningError code d.

Lemma planning_error_is code d : is_planning_error (ContractPlanningError code d).
Proof. by eexists _, _. Qed.
#[local] Hint Resolve planning_error_is : raises.

Lemma parse_raises_planning {A} (r : result exn A) :
  raises_only parse_error r → raises_only is_planning_error r.
Proof.
  intros H e He. apply H in He as [d [->| ->]]; by eexists _, _.
Qed.

Section compile_errors.
Context {PV : Pep440} {PL : Pep440Laws}.

Lemma raises_only_filterR {E A} (P : E → Prop) (p : A → result E bool) l :
  (∀ x, x ∈ l → raises_only P (p x)) → raises_only P (filterR p l).
Proof.
  induction l as [|x l IH]; intros Hf; simpl; [by apply raises_only_Ok|].
  apply raises_only_bind; [apply Hf; by left|intros b _].
  apply raises_only_bind; [|intros ? _; by apply raises_only_Ok].
  apply IH. intros z Hz. apply Hf. by right.
Qed.

(** What the compiler needs of parsed contracts, and normalisation keeps. *)
Record plannable (c : ExtensionContract) : Prop := {
  pl_provides : Forall (λ k, wf_version (cap_version k)) (provides c);
  pl_requires : Forall (λ k, wf_specifier (cap_version k)) (requires c);
  pl_obligations : Forall (wf_obligation c) (process_obligations c);
}.

Lemma wf_plannable c : wf_contract c → plannable c.
Proof.
  intros [? ? ? Hp Hr ? ? ? ? [_ Ho] ? ? ? ?]. split; [..|done].
  - eapply Forall_impl; [exact Hp|]. by intros ? [].
  - eapply Forall_impl; [exact Hr|]. by intros ? [].
Qed.

Lemma same_plannable c c' : same_contract c c' → plannable c → plannable c'.
Proof.
  intros -> [Hp Hr Ho]. destruct c. split; [done|done|].
  eapply Forall_impl; [exact Ho|]. intros o []. by split.
Qed.

Lemma check_host_raises runtime v c :
  wf_specifier (host_version_range c) → raises_only is_planning_error (check_host runtime v c).
Proof. intros [s Hs]. unfold check_host. rewrite Hs. solve_raises. Qed.

Lemma normalize_resource_raises t cs c r :
  unknown_claims cs t = [] → c ∈ cs → r ∈ resources c →
  raises_only is_planning_error (normalize_resource t r).
Proof.
  intros Hu Hc Hr. unfold normalize_resource.
  destruct (taxonomy_lookup t (res_name r)) eqn:Hl; [solve_raises|].
  exfalso. apply (not_elem_of_nil (extension_id c, res_name r)). rewrite <-Hu.
  unfold unknown_claims. rewrite elem_of_sort_on. apply list_elem_of_omap.
  exists (extension_id c, r). split; [|by cbn; rewrite Hl].
  unfold claims_of. apply list_elem_of_bind. exists c. split; [|done].
  apply list_elem_of_bind. exists r. split; [|done]. by apply list_elem_of_singleton.
Qed.

Lemma normalize_raises tax cs : raises_only is_planning_error (normalize tax cs).
Proof.
  destruct tax as [t|]; [|by apply raises_only_Ok]. cbn [normalize].
  unfold _normalize_taxonomy_resources.
  destruct (unknown_claims cs t) as [|[]] eqn:Hu; [|by solve_raises].
  destruct (invalid_modes cs t) as [|[? []]]; [|by solve_raises].
  apply (raises_only_bind _ (Ok tt)); [by apply raises_only_Ok|intros _ _].
  apply (raises_only_bind _ (Ok tt)); [by apply raises_only_Ok|intros _ _].
  apply raises_only_mapR. intros c Hc. unfold normalize_contract.
  apply raises_only_bind; [|intros; by apply raises_only_Ok].
  apply raises_only_mapR. intros r Hr. by eapply normalize_resource_raises.
Qed.

Lemma check_obligation_raises c o :
  wf_obligation c o → raises_only is_planning_error (check_obligation_authority c o).
Proof.
  intros [_ _ Ha _ _ _ _]. unfold check_obligation_authority.
  destruct (authority_grants (authority c) (po_authority o)) eqn:Hg; [solve_raises|].
  unfold _AUTHORITY_KINDS in Ha. rewrite !elem_of_cons, elem_of_nil in Ha.
  by destruct Ha as [Ha|[Ha|[Ha|[]]]]; rewrite Ha in Hg.
Qed.

Lemma resolve_requirement_raises cs c r :
  Forall plannable cs → wf_specifier (cap_version r) →
  raises_only is_planning_error (resolve_requirement cs c r).
Proof.
  intros Hcs [s Hs]. unfold resolve_requirement.
  apply raises_only_bind.
  - apply raises_only_filterR. intros [p k] (Hp&Hk&_)%elem_of_candidates.
    rewrite Forall_forall in Hcs. destruct (Hcs p Hp) as [Hv _ _].
    rewrite Forall_forall in Hv. destruct (Hv k Hk) as [v Hv'].
    unfold satisfies. simpl. rewrite Hv', Hs. by apply raises_only_Ok.
  - intros l _. destruct l as [|[p k] [|]]; solve_raises.
Qed.

Lemma resolve_capabilities_raises cs :
  Forall plannable cs → raises_only is_planning_error (_resolve_capabilities cs).
Proof.
  intros Hcs. unfold _resolve_capabilities, resolve_all.
  apply raises_only_bind; [|intros; by apply raises_only_Ok].
  apply raises_only_mapR. intros [c r] [Hc Hr]%elem_of_requirements.
  apply resolve_requirement_raises; [done|].
  rewrite Forall_forall in Hcs. destruct (Hcs c Hc) as [_ Hq _].
  rewrite Forall_forall in Hq. by apply Hq.
Qed.

Lemma resolved_requirement cs bs deps c r :
  _resolve_capabilities cs = Ok (bs, deps) → c ∈ cs → r ∈ requires c →
  ∃ b p k, b ∈ bs ∧ binds cs c r b p k.
Proof.
  intros (raw&Hraw&->&_)%resolve_capabilities_Ok Hc Hr.
  apply resolve_all_Ok in Hraw.
  destruct (proj1 (list_elem_of_lookup (requirements_of cs) (c, r))) as [i Hi].
  { by apply elem_of_requirements. }
  eapply Forall2_lookup_l in Hraw as (b&Hb&p&k&Hbd); [|exact Hi].
  exists b, p, k. split; [|done]. rewrite elem_of_sort_on. by eapply list_elem_of_lookup_2.
Qed.

Lemma requirement_provider_Some bs b :
  b ∈ bs → ∃ b', b' ∈ bs ∧ b_consumer b' = b_consumer b ∧ b_capability b' = b_capability b ∧
    requirement_provider bs (b_consumer b) (b_capability b) = Some (b_provider b').
Proof.
  intros Hb. unfold requirement_provider.
  destruct (last _) as [b'|] eqn:Hl.
  - apply last_Some_elem_of, list_elem_of_filter in Hl as [[? ?] ?]. by exists b'.
  - apply last_None in Hl. exfalso. apply (not_elem_of_nil b). rewrite <-Hl.
    by apply list_elem_of_filter.
Qed.

Lemma bind_obligation_raises cs bs deps c o :
  _resolve_capabilities cs = Ok (bs, deps) → c ∈ cs → wf_obligation c o →
  raises_only is_planning_error (bind_obligation bs (c, o)).
Proof.
  intros Hres Hc [_ _ _ _ _ Hdecl _]. unfold bind_obligation.
  apply raises_only_bind; [|intros; by apply raises_only_Ok].
  destruct (bool_decide_reflect (po_direction o = "requires")) as [Hd|_];
    [|by apply raises_only_Ok].
  rewrite Hd in Hdecl. change (po_capability o ∈ cap_name <$> requires c) in Hdecl.
  apply list_elem_of_fmap in Hdecl as (r&Hr&Hin).
  destruct (resolved_requirement _ _ _ _ _ Hres Hc Hin) as (b&p&k&Hb&[_ _ ->]).
  destruct (requirement_provider_Some _ _ Hb) as (b'&_&_&_&Hp). simpl in Hp.
  rewrite Hr, Hp. by apply raises_only_Ok.
Qed.
End compile_errors.

(** ** Properties of [compile_contracts] *)

Section properties.
Context {PV : Pep440}.

(** C17: The contracts of a compiled plan are the input contracts (up to taxonomy
    normalisation of their resources), each once, and a contract comes after every other
    contract that provides a capability bound to it. *)
Theorem plan_order_topological contracts rt hv tax plan :
compile_contracts contracts rt hv tax = Ok plan →
(extension_id <$> ordered_contracts plan) ≡ₚ (extension_id <$> contracts) ∧
(∀ c', c' ∈ ordered_contracts plan → ∃ c, c ∈ contracts ∧ same_contract c c') ∧
∀ pre c post b, ordered_contracts plan = pre ++ c :: post →
  b ∈ capability_bindings plan → b_consumer b = extension_id c →
  b_provider b = extension_id c ∨ b_provider b ∈ extension_id <$> pre.
Proof.
intros (runtime&v&normalized&deps&Hc)%compile_contracts_Ok.
destruct (cp_ordered Hc) as (Hids&Hin&Htopo&_). split_and!.
- by rewrite Hids, (cp_ids Hc).
- intros c' Hc'. by apply (cp_original Hc), Hin.
- intros pre c post b Heq Hb Hcons.
  destruct (decide (b_provider b = extension_id c)) as [?|Hne]; [by left|right].
  apply (elem_of_list_to_set (C:=gset string)), (Htopo _ _ _ Heq).
  apply (resolved_depends _ _ _ (cp_bindings _ _ _ _ _ _ _ _ _ Hc)).
  by exists b.
Qed.

(** The ordering loop ends on every input: it orders the contracts when no contract
    transitively needs itself, and raises DEPENDENCY_CYCLE only when some contract does. *)
Theorem cycle_reported_exactly contracts bs deps :
NoDup (extension_id <$> contracts) →
_resolve_capabilities contracts = Ok (bs, deps) →
(∃ ordered, _order_contracts contracts deps = Ok ordered ∧ ∀ c, ¬ tc (needs bs) c c) ∨
(∃ d c, _order_contracts contracts deps = Raise (ContractPlanningError DEPENDENCY_CYCLE d) ∧
        tc (needs bs) c c).
Proof.
intros Hnd Hres.
destruct (order_contracts_cases _ _ _ Hnd Hres) as [(order&?&_&_&?)|[[d ?] [c ?]]];
  [left|right]; eauto.
Qed.

(** In a compiled plan every required capability has a binding to a provided capability
    of the same name whose version lies in the required range, and that provider and
    capability are the only compatible ones. *)
Theorem requirements_bound_uniquely contracts rt hv tax plan c r :
compile_contracts contracts rt hv tax = Ok plan →
c ∈ contracts → r ∈ requires c →
∃ b p k, b ∈ capability_bindings plan ∧ p ∈ contracts ∧ k ∈ provides p ∧
  cap_name k = cap_name r ∧
  (∃ ver range, Version (cap_version k) = Some ver ∧
     SpecifierSet (cap_version r) = Some range ∧ contains range ver = true) ∧
  b = mkBinding (cap_name r) (cap_version r) (extension_id c) (extension_id p)
        (cap_version k) ∧
  ∀ p' k' ver range, p' ∈ contracts → k' ∈ provides p' → cap_name k' = cap_name r →
    Version (cap_version k') = Some ver → SpecifierSet (cap_version r) = Some range →
    contains range ver = true → extension_id p' = extension_id p ∧ k' = k.
Proof.
intros (runtime&v&normalized&deps&Hc)%compile_contracts_Ok Hcin Hr.
destruct (cp_image Hc c Hcin) as (c'&Hc'&Hsame).
assert (r ∈ requires c') as Hr' by (by rewrite Hsame).
destruct (resolved_requirement _ _ _ _ _ (cp_bindings _ _ _ _ _ _ _ _ _ Hc) Hc' Hr')
  as (b&p&k&Hb&[(Hp&Hk&Hname&Hsat) Honly ->]).
destruct (cp_original Hc p Hp) as (p0&Hp0&Hsp).
assert (k ∈ provides p0) as Hk0 by (rewrite Hsp in Hk; done).
assert (extension_id c' = extension_id c) as Hidc by (by rewrite Hsame).
assert (extension_id p = extension_id p0) as Hidp by (by rewrite Hsp).
rewrite Hidc, Hidp in *. eexists _, p0, k. split_and!; [done..| |done|].
- unfold satisfies in Hsat. simpl in Hsat.
  destruct (Version (cap_version k)) as [ver|]; [|done].
  destruct (SpecifierSet (cap_version r)) as [range|]; [|done].
  exists ver, range. by simplify_eq.
- intros q k' ver range Hq Hk' Hn' Hv' Hs' Hcont.
  destruct (cp_image Hc q Hq) as (q'&Hq'&Hsq).
  destruct (Honly q' k') as [-> ->].
  { split_and!; [done|by rewrite Hsq|done|]. unfold satisfies. simpl.
    by rewrite Hv', Hs', Hcont. }
  split; [|done]. by rewrite <-Hidp, Hsq.
Qed.

(** C16: compile_contracts returns the same plan for every permutation of its input
    contracts. *)
Theorem plan_independent_of_input_order contracts contracts' rt hv tax plan :
contracts ≡ₚ contracts' →
compile_contracts contracts rt hv tax = Ok plan →
compile_contracts contracts' rt hv tax = Ok plan.
Proof.
intros Hp (runtime&v&normalized&deps&Hc)%compile_contracts_Ok.
apply compile_contracts_Ok. exists runtime, v, normalized, deps.
destruct Hc as [Hne ? ? Hnd Hhost Hnorm ? ? ? ? ? ?]. split; try done.
- intros ->. by apply Permutation_nil_r in Hp.
- by rewrite <-Hp.
- by rewrite <-Hp.
- by rewrite <-(sort_on_unique extension_id _ _ Hnd Hp).
Qed.

(** Resource resolution succeeds exactly when, for every claimed resource, its claims
    are coherent (one owner, or all shared-read, or all mediated by one named claimant);
    the ownerships then list each claimed resource once with all its claimants, the
    common mode and the mediator. *)
Theorem ownership_granted_iff_coherent contracts :
((∃ rs, _resolve_resources contracts = Ok rs) ↔
 ∀ n, n ∈ claimed contracts → coherent (holders contracts n)) ∧
∀ rs, _resolve_resources contracts = Ok rs →
  NoDup (ro_resource <$> rs) ∧
  (∀ n, n ∈ claimed contracts ↔ n ∈ ro_resource <$> rs) ∧
  ∀ ro, ro ∈ rs →
    let hs := holders contracts (ro_resource ro) in
    ro_owners ro ≡ₚ hs.*1 ∧ NoDup (ro_owners ro) ∧
    Forall (λ oc, res_mode oc.2 = ro_mode ro) hs ∧
    (ro_mode ro = "mediated" → ∃ m, ro_mediator ro = Some m ∧ m ∈ ro_owners ro ∧
       Forall (λ oc, res_mediator oc.2 = Some m) hs) ∧
    (ro_mode ro ≠ "mediated" → ro_mode ro ≠ "shared-read" → ∃ o, ro_owners ro = [o]).
Proof.
split.
{ split; [intros [rs [H _]%resolve_resources_Ok]; done|].
  intros H. eexists. by apply resolve_resources_Ok. }
intros rs [Hcoh ->]%resolve_resources_Ok.
assert (ro_resource <$> (ownership_of <$> summaries_of contracts) =
        sm_name <$> summaries_of contracts) as Hnames.
{ rewrite <-list_fmap_compose. apply list_fmap_ext. intros _ s _. unfold compose, ownership_of.
  by repeat case_match. }
rewrite Hnames. split_and!.
- apply summaries_names_NoDup.
- intros n. rewrite list_elem_of_fmap. split.
  + intros Hn. exists (summarize (n, holders contracts n)). split; [done|].
    by apply summaries_elem.
  + intros (s&->&Hs). by apply summaries_elem in Hs as [? _].
- intros ro (s&->&[Hn Heq]%summaries_elem)%list_elem_of_fmap.
  rewrite Heq. pose proof (Hcoh _ Hn) as Hch. pose proof (holders_nonempty _ _ Hn) as Hhs.
  destruct (ownership_coherent (sm_name s) _ Hhs Hch) as (Hres&Hown&Hmode&Hmed&Hex).
  rewrite Hres. split_and!; [|rewrite Hown, sort_on_perm; apply Hch|done..].
  by rewrite Hown, sort_on_perm.
Qed.

(** In a compiled plan every process obligation of an input contract matches a grant of
    its authority, and has an obligation binding whose provider is the contract itself,
    or, for a required capability, the provider that capability is bound to. *)
Theorem obligations_authorised_and_bound contracts rt hv tax plan c o :
compile_contracts contracts rt hv tax = Ok plan →
c ∈ contracts → o ∈ process_obligations c →
(∃ grants, authority_grants (authority c) (po_authority o) = Some grants ∧
   mkGrant (po_role o) (po_event o) (po_direction o) (po_capability o) ∈ grants) ∧
∃ provider,
  mkObligationBinding (extension_id c) (po_role o) (po_event o) (po_completion o)
    (po_authority o) (po_direction o) (po_capability o) provider (po_quorum o)
    ∈ obligation_bindings plan ∧
  (po_direction o ≠ "requires" → provider = extension_id c) ∧
  (po_direction o = "requires" → ∃ b, b ∈ capability_bindings plan ∧
     b_consumer b = extension_id c ∧ b_capability b = po_capability o ∧
     b_provider b = provider).
Proof.
intros (runtime&v&normalized&deps&Hc)%compile_contracts_Ok Hcin Ho.
destruct (cp_image Hc c Hcin) as (c'&Hc'&Hsame).
assert (o ∈ process_obligations c') as Ho' by (by rewrite Hsame).
assert (extension_id c' = extension_id c) as Hidc by (by rewrite Hsame).
split.
- pose proof (cp_authority _ _ _ _ _ _ _ _ _ Hc) as Hauth.
  unfold _validate_obligation_authority in Hauth. rewrite forR_Ok, Forall_forall in Hauth.
  specialize (Hauth c' Hc'). rewrite forR_Ok, Forall_forall in Hauth.
  specialize (Hauth o Ho'). unfold check_obligation_authority in Hauth.
  assert (authority c' = authority c) as Hac by (by rewrite Hsame). rewrite Hac in Hauth.
  destruct (authority_grants _ _) as [grants|]; [|done]. apply raise_if_Ok in Hauth.
  bool_inv. by exists grants.
- pose proof (cp_obligations _ _ _ _ _ _ _ _ _ Hc) as Hob. unfold _bind_obligations in Hob.
  method_inv. rename x into raw. injection H0 as <-.
  apply mapR_Ok in H.
  destruct (proj1 (list_elem_of_lookup (c ← normalized; o ← process_obligations c; [(c, o)])
              (c', o))) as [i Hi].
  { apply list_elem_of_bind. exists c'. split; [|done]. apply list_elem_of_bind. exists o.
    split; [by apply list_elem_of_singleton|done]. }
  eapply Forall2_lookup_l in H as (ob&Hob&Hbind); [|exact Hi].
  unfold bind_obligation in Hbind. method_inv. rename x into provider. simplify_eq.
  rewrite Hidc in *. exists provider. split_and!.
    rewrite elem_of_sort_on. by eapply list_elem_of_lookup_2.
  + intros Hd. rewrite bool_decide_false in * by done. by simplify_eq.
  + intros Hd. rewrite bool_decide_true in * by done.
    unfold requirement_provider in *. destruct (last _) as [b|] eqn:Hl; [|done].
    apply last_Some_elem_of, list_elem_of_filter in Hl as [[Hcons Hcap] Hb].
    simplify_eq/=. by exists b.
Qed.

(** On parsed contracts compile_contracts raises nothing but ContractPlanningError. *)
Theorem compile_raises_planning_errors_only {PL : Pep440Laws} contracts rt hv tax e :
Forall wf_contract contracts →
compile_contracts contracts rt hv tax = Raise e →
∃ code d, e = ContractPlanningError code d.
Proof.
intros Hwf. revert e. change (raises_only is_planning_error (compile_contracts contracts rt hv tax)).
unfold compile_contracts. fold (normalize tax (sort_on extension_id contracts)).
apply raises_only_bind; [solve_raises|intros _ _].
apply raises_only_bind; [apply parse_raises_planning, _string_raises|intros runtime _].
apply raises_only_bind; [apply parse_raises_planning, _public_version_raises|intros host Hh].
apply _public_version_Ok in Hh as [v Hv]. rewrite Hv.
apply (raises_only_bind _ (Ok v)); [by apply raises_only_Ok|intros v0 _].
apply raises_only_bind; [solve_raises|intros u Hnd].
apply raise_if_Ok, has_duplicates_false in Hnd.
rewrite Forall_forall in Hwf.
apply raises_only_bind.
{ apply raises_only_forR. intros c Hc. apply check_host_raises. by apply Hwf. }
intros _ _. apply raises_only_bind; [apply normalize_raises|intros normalized Hn].
apply normalize_same in Hn.
assert (Forall plannable normalized) as Hpl.
{ apply Forall_forall. intros c' Hc'.
  destruct (same_contract_elem_r _ _ _ Hn Hc') as (c&Hc&Hsame).
  rewrite elem_of_sort_on in Hc. by eapply same_plannable, wf_plannable, Hwf. }
pose proof Hpl as Hpl'. rewrite Forall_forall in Hpl'.
assert (NoDup (extension_id <$> normalized)) as Hnd'.
{ rewrite (same_contract_field extension_id _ _ (λ _ _, eq_refl) Hn).
  by rewrite sort_on_perm. }
apply raises_only_bind.
{ apply raises_only_forR. intros c Hc. apply raises_only_forR. intros o Ho.
  apply check_obligation_raises. destruct (Hpl' c Hc) as [_ _ Hob].
  rewrite Forall_forall in Hob. by apply Hob. }
intros _ _. apply raises_only_bind; [by apply resolve_capabilities_raises|].
intros [bs deps] Hres. cbn [fst snd]. apply raises_only_bind.
{ destruct (order_contracts_cases _ _ _ Hnd' Hres) as [(order&->&_)|[[d ->] _]];
    [by apply raises_only_Ok|solve_raises]. }
intros ordered _. apply raises_only_bind.
{ unfold _resolve_resources. solve_raises. }
intros rs _. apply raises_only_bind; [|intros; by apply raises_only_Ok].
unfold _bind_obligations. apply raises_only_bind; [|intros; by apply raises_only_Ok].
apply raises_only_mapR. intros [c o] Hco.
apply list_elem_of_bind in Hco as (c0&Hco&Hc0). apply list_elem_of_bind in Hco as (o0&Hco&Ho0).
apply list_elem_of_singleton in Hco. simplify_eq.
eapply bind_obligation_raises; [done|done|]. destruct (Hpl' c0 Hc0) as [_ _ Hob].
rewrite Forall_forall in Hob. by apply Hob.
Qed.

(** With a taxonomy, a plan's resources carry canonical names and allowed modes. *)
Theorem plan_resources_follow_taxonomy contracts rt hv t plan :
compile_contracts contracts rt hv (Some t) = Ok plan →
∀ c' r', c' ∈ ordered_contracts plan → r' ∈ resources c' →
∃ c r rule, c ∈ contracts ∧ extension_id c = extension_id c' ∧ r ∈ resources c ∧
  rule ∈ tax_resources t ∧ res_name r ∈ resource_names rule ∧
  r' = mkResource (canonical rule) (res_mode r) (res_mediator r) ∧
  res_mode r' ∈ allowed_modes rule.
Proof.
intros (runtime&v&normalized&deps&Hc)%compile_contracts_Ok c' r' Hc' Hr'.
apply (cp_ordered Hc) in Hc'.
pose proof (cp_normalized _ _ _ _ _ _ _ _ _ Hc) as Hnorm.
apply normalize_taxonomy_Ok in Hnorm as (_&Hmodes&Hall).
apply list_elem_of_lookup in Hc' as [i Hi].
eapply Forall2_lookup_r in Hall as (c&Hci&Hn); [|exact Hi].
apply list_elem_of_lookup_2 in Hci.
apply normalize_contract_Ok in Hn as (Hsame&rs&Hrs&Hres).
rewrite Hres, elem_of_sort_on in Hr'. apply mapR_Ok in Hrs.
apply list_elem_of_lookup in Hr' as [j Hj].
eapply Forall2_lookup_r in Hrs as (r&Hrj&Hnr); [|exact Hj].
apply list_elem_of_lookup_2 in Hrj. unfold normalize_resource in Hnr.
destruct (taxonomy_lookup t (res_name r)) as [rule|] eqn:Hl; [|done]. simplify_eq.
pose proof Hl as Hl'. unfold taxonomy_lookup in Hl'.
apply last_Some_elem_of, list_elem_of_filter in Hl' as [Hname Hrule].
exists c, r, rule. split_and!; [by rewrite elem_of_sort_on in Hci|by rewrite Hsame|done..|].
cbn [res_mode]. destruct (decide (res_mode r ∈ allowed_modes rule)) as [?|Hm]; [done|].
exfalso. apply (not_elem_of_nil (extension_id c, (canonical rule, res_mode r))).
rewrite <-Hmodes. unfold invalid_modes. rewrite elem_of_sort_on. apply list_elem_of_omap.
exists (extension_id c, r). split; [|by cbn; rewrite Hl; cbn; rewrite decide_False].
unfold claims_of. apply list_elem_of_bind. exists c. split; [|done].
apply list_elem_of_bind. exists r. split; [by apply list_elem_of_singleton|done].
Qed.
End properties.

(** ** The theorems at work: a provider, a consumer and a cycle *)

Section witnesses.
#[local] Existing Instance release_pep440.

Definition example_contracts : list ExtensionContract := [policy_contract; kv_contract].

Definition empty_plan : ContractPlan := mkContractPlan "" "" [] [] [] [].

Definition example_plan : ContractPlan :=
  Eval vm_compute in ok_or empty_plan
    (compile_contracts example_contracts (JStr "vllm-hust") (JStr "0.23.0") None).

Lemma example_compiles :
  compile_contracts example_contracts (JStr "vllm-hust") (JStr "0.23.0") None = Ok example_plan.
Proof. vm_compute. reflexivity. Qed.

Lemma plan_order_topological_witness :
  (extension_id <$> ordered_contracts example_plan) = ["org.kv-store"; "org.policy"] ∧
  (extension_id <$> ordered_contracts example_plan) ≡ₚ (extension_id <$> example_contracts).
Proof.
  split; [reflexivity|].
  exact (proj1 (plan_order_topological _ _ _ _ _ example_compiles)).
Defined.

Definition with_needs (provided required : string) (c : ExtensionContract) : ExtensionContract :=
  mkContract (extension_id c) (ext_version c) (manifest_sha256 c) (host_runtime c)
    (host_version_range c) [mkCapability provided "1.0"] [mkCapability required ">=1.0"]
    (resources c) [] (rollback c) (authority c).

Definition cyclic_contracts : list ExtensionContract :=
  [with_needs "kv.connector" "policy.route" kv_contract;
   with_needs "policy.route" "kv.connector" policy_contract].

Definition cyclic_bindings : list CapabilityBinding :=
  [mkBinding "policy.route" ">=1.0" "org.kv-store" "org.policy" "1.0";
   mkBinding "kv.connector" ">=1.0" "org.policy" "org.kv-store" "1.0"].

Lemma cycle_reported_exactly_witness :
  _order_contracts cyclic_contracts (dependency_map cyclic_contracts cyclic_bindings) =
    Raise (ContractPlanningError DEPENDENCY_CYCLE
      "capability dependency cycle includes ['org.kv-store', 'org.policy']") ∧
  ((∃ ordered, _order_contracts cyclic_contracts
      (dependency_map cyclic_contracts cyclic_bindings) = Ok ordered ∧
      ∀ c, ¬ tc (needs cyclic_bindings) c c) ∨
   (∃ d c, _order_contracts cyclic_contracts
      (dependency_map cyclic_contracts cyclic_bindings) =
        Raise (ContractPlanningError DEPENDENCY_CYCLE d) ∧ tc (needs cyclic_bindings) c c)).
Proof.
  split; [vm_compute; reflexivity|].
  apply (cycle_reported_exactly cyclic_contracts cyclic_bindings).
  - apply (bool_decide_unpack _). vm_compute. exact I.
  - vm_compute. reflexivity.
Defined.

Lemma requirements_bound_uniquely_witness :
  ∃ b p, b ∈ capability_bindings example_plan ∧ p ∈ example_contracts ∧
    b_consumer b = "org.policy" ∧ b_provider b = extension_id p.
Proof.
  destruct (requirements_bound_uniquely _ _ _ _ _ policy_contract
    (mkCapability "kv.connector" ">=1.0") example_compiles) as (b&p&k&Hb&Hp&_&_&_&->&_);
    [left|left|].
  eexists _, p. split; [exact Hb|]. split; [exact Hp|]. split; reflexivity.
Defined.

Lemma plan_independent_of_input_order_witness :
  compile_contracts [kv_contract; policy_contract] (JStr "vllm-hust") (JStr "0.23.0") None =
  Ok example_plan.
Proof.
  exact (plan_independent_of_input_order example_contracts [kv_contract; policy_contract]
    _ _ _ _ (perm_swap _ _ _) example_compiles).
Defined.

Lemma ownership_granted_iff_coherent_witness :
  _resolve_resources example_contracts = Ok (resource_ownership example_plan) ∧
  NoDup (ro_resource <$> resource_ownership example_plan).
Proof.
  assert (_resolve_resources example_contracts = Ok (resource_ownership example_plan)) as H
    by (vm_compute; reflexivity).
  split; [exact H|].
  exact (proj1 (proj2 (ownership_granted_iff_coherent example_contracts) _ H)).
Defined.

Definition loading : ProcessObligationContract :=
  mkObligation "worker" "loaded" "all" "runtime" "requires" "kv.connector" None.

Lemma obligations_authorised_and_bound_witness :
  ∃ provider,
    mkObligationBinding "org.policy" "worker" "loaded" "all" "runtime" "requires"
      "kv.connector" provider None ∈ obligation_bindings example_plan.
Proof.
  destruct (obligations_authorised_and_bound _ _ _ _ _ policy_contract loading
    example_compiles) as [_ (provider&H&_)]; [left|left|].
  exists provider. exact H.
Defined.

Lemma compile_raises_planning_errors_only_witness :
  compile_contracts [kv_contract] (JStr "vllm") (JStr "0.23.0") None =
    Raise (ContractPlanningError INCOMPATIBLE_HOST "org.kv-store requires vllm-hust>=0.23") ∧
  ∃ code d, ContractPlanningError INCOMPATIBLE_HOST "org.kv-store requires vllm-hust>=0.23" =
    ContractPlanningError code d.
Proof.
  assert (compile_contracts [kv_contract] (JStr "vllm") (JStr "0.23.0") None =
    Raise (ContractPlanningError INCOMPATIBLE_HOST "org.kv-store requires vllm-hust>=0.23"))
    as H by (vm_compute; reflexivity).
  split; [exact H|].
  refine (compile_raises_planning_errors_only (PL:=release_laws) _ _ _ _ _ _ H).
  apply Forall_singleton. exact (parse_contract_sound (PL:=release_laws) _ _ kv_parses).
Defined.

Definition taxonomy_plan : ContractPlan :=
  Eval vm_compute in ok_or empty_plan
    (compile_contracts [kv_contract] (JStr "vllm-hust") (JStr "0.23.0")
       (Some example_taxonomy)).

Lemma plan_resources_follow_taxonomy_witness :
  ∃ rule, rule ∈ tax_resources example_taxonomy ∧ canonical rule = "kv.cache".
Proof.
  assert (compile_contracts [kv_contract] (JStr "vllm-hust") (JStr "0.23.0")
    (Some example_taxonomy) = Ok taxonomy_plan) as H by (vm_compute; reflexivity).
  destruct (plan_resources_follow_taxonomy _ _ _ _ _ H kv_contract
    (mkResource "kv.cache" "exclusive" None)) as (c&r&rule&_&_&_&Hrule&_&Hr&_);
    [left|left|].
  exists rule. split; [exact Hrule|]. injection Hr as Hn _ _. symmetry. exact Hn.
Defined.
End witnesses.
