(* ===== verification/ExposureGate.v ===== *)
(** * The durable exposure gate: [exposure_gate.py]

    The gate row, the transition log, the admissions and the traffic adapter
    are one [World].  A method of [ReferenceExposureGate] is a state-passing
    computation over it that may raise; [with self.connection] restores the
    store when its body raises, while the adapter keeps what it did.  Injected
    faults, clock readings and failing adapter calls are part of the state, so
    every crash point of the code is a run of the model.

    Columns holding JSON text keep the value the text encodes; [json.loads] of
    [json.dumps] is the identity on those values.  Arguments the code accepts as
    dataclasses or dictionaries are the JSON values [asdict] gives. *)

From S2P Require Import Prelude PyStd.

Local Open Scope string_scope.
Local Open Scope list_scope.

(** ** Enumerations, errors and value objects *)

Inductive GateState : Type :=
  | PREDECESSOR_OPEN | CANDIDATE_STAGED | CANDIDATE_CLOSED | OPENING | CANDIDATE_OPEN
  | DRAINING | ROLLED_BACK | FAILED_SAFE | SAFETY_UNKNOWN.

#[export] Instance GateState_eq_dec : EqDecision GateState.
Proof. solve_decision. Defined.

Definition GateState_value (s : GateState) : string :=
  match s with
  | PREDECESSOR_OPEN => "PREDECESSOR_OPEN" | CANDIDATE_STAGED => "CANDIDATE_STAGED"
  | CANDIDATE_CLOSED => "CANDIDATE_CLOSED" | OPENING => "OPENING"
  | CANDIDATE_OPEN => "CANDIDATE_OPEN" | DRAINING => "DRAINING"
  | ROLLED_BACK => "ROLLED_BACK" | FAILED_SAFE => "FAILED_SAFE"
  | SAFETY_UNKNOWN => "SAFETY_UNKNOWN"
  end.

Inductive RollbackClass : Type :=
  | Restored_strong | Behavioral | Failed_safe | Safety_unknown.

Definition RollbackClass_value (c : RollbackClass) : string :=
  match c with
  | Restored_strong => "RESTORED_STRONG" | Behavioral => "BEHAVIORAL"
  | Failed_safe => "FAILED_SAFE" | Safety_unknown => "SAFETY_UNKNOWN"
  end.

Inductive exn : Type :=
  | GateError (message : string)
  | InjectedCrash (point : string)
  | KeyError (key : string)
  | TypeError.

Definition str_exn (e : exn) : string :=
  match e with
  | GateError m => m
  | InjectedCrash p => p
  | KeyError k => "'" +:+ k +:+ "'"
  | TypeError => "type error"
  end.

Record AdmissionRequest : Type := mkRequest { request_id : string; rq_admitted_at : Z }.

Record AdmissionResult : Type := mkResult {
  rs_finished_at : Z; rs_result : option string; rs_abort : option string;
}.

Record RouteState : Type := mkRoute {
  rt_generation : option Z; rt_fence : string; rt_snapshot : json;
}.

Definition RouteState_asdict (r : RouteState) : json :=
  JObj [("generation", jint_opt (rt_generation r)); ("fence", JStr (rt_fence r));
        ("snapshot", rt_snapshot r)].

Definition optional_route (r : option RouteState) : json :=
  match r with Some r => RouteState_asdict r | None => JNull end.

Record LeaseGrant : Type := mkLease { holder : string; fencing_token : Z; expires_at : Z }.

#[export] Instance LeaseGrant_eq_dec : EqDecision LeaseGrant.
Proof. solve_decision. Defined.

Definition LeaseGrant_asdict (g : LeaseGrant) : json :=
  JObj [("holder", JStr (holder g)); ("fencing_token", JInt (fencing_token g));
        ("expires_at", JInt (expires_at g))].

Record OpenProof : Type := mkProof {
  pf_plan_id : string; pf_generation : Z; evidence_count : Z; evidence_digest : string;
  coverage_digest : string; pf_lease : LeaseGrant; pf_candidate_digest : string;
}.

Definition OpenProof_fields (p : OpenProof) : list (string * json) :=
  [("plan_id", JStr (pf_plan_id p)); ("generation", JInt (pf_generation p));
   ("evidence_count", JInt (evidence_count p)); ("evidence_digest", JStr (evidence_digest p));
   ("coverage_digest", JStr (coverage_digest p)); ("lease", LeaseGrant_asdict (pf_lease p));
   ("candidate_digest", JStr (pf_candidate_digest p))].

Definition _json (value : json) : string := dumps true value.
Definition _digest (value : json) : string := "sha256:" +:+ sha256_hexdigest (_json value).

Definition OpenProof_digest (p : OpenProof) : string := _digest (JObj (OpenProof_fields p)).

Record BehavioralOracleResult : Type := mkOracle {
  equivalent : bool; observations_digest : string; oracle : string;
}.

Definition Oracle_asdict (o : option BehavioralOracleResult) : json :=
  match o with
  | None => JNull
  | Some o => JObj [("equivalent", JBool (equivalent o));
                    ("observations_digest", JStr (observations_digest o));
                    ("oracle", JStr (oracle o))]
  end.

Record FailCloseResult : Type := mkFailClose {
  fc_classification : RollbackClass; fc_actual_route : option RouteState;
  fc_error : option string;
}.

(** ** The traffic adapter and the store *)

Record Traffic : Type := mkTraffic {
  route : RouteState;
  t_authority : LeaseGrant;
  t_faults : gset string;
  behavioral_restore : bool;
  rollback_fails : bool;
}.

Record gate_row : Type := mkRow {
  gs_state : GateState;
  predecessor_generation : Z; candidate_generation : Z;
  predecessor_json : json; candidate_json : json;
  route_generation : option Z; route_fence : string;
  lease_json : LeaseGrant;
  gs_transition_seq : Z; revision : Z; schema_version : Z;
  proof_digest : option string;
  candidate_digest : string; observed_candidate_digest : option string;
  predecessor_digest : string; observed_predecessor_digest : option string;
}.

Record transition_row : Type := mkTransition {
  tr_seq : Z; tr_generation : Z; tr_kind : string; tr_operation : string;
  operation_id : string; from_state : option GateState; to_state : option GateState;
  tr_fence : option string; tr_at : Z; detail_json : json;
}.

Record admission_row : Type := mkAdmission {
  ad_request_id : string; route_epoch : string; chosen_generation : Z; admitted_at : Z;
  finished_at : option Z; ad_result : option string; ad_abort : option string;
  ad_transition_seq : Z;
}.

Record event_row : Type := mkEvent {
  ev_seq : Z; ev_request_id : string; ev_kind : string; ev_generation : Z;
  ev_epoch : string; ev_at : Z; ev_transition_seq : Z; ev_detail : json;
}.

Record Db : Type := mkDb {
  gate_state : option gate_row;
  gate_transition : list transition_row;
  admission : list admission_row;
  admission_event : list event_row;
}.

Record World : Type := mkWorld {
  store : Db;
  traffic : Traffic;
  authority : LeaseGrant;
  faults : gset string;
  ticks : nat;
}.

Definition op (A : Type) : Type := method World exn A.

Definition set_store (f : Db → Db) : op () :=
  modify (λ w, mkWorld (f (store w)) (traffic w) (authority w) (faults w) (ticks w)).
Definition set_traffic (f : Traffic → Traffic) : op () :=
  modify (λ w, mkWorld (store w) (f (traffic w)) (authority w) (faults w) (ticks w)).
Definition set_route (r : RouteState) : op () :=
  set_traffic (λ t, mkTraffic r (t_authority t) (t_faults t) (behavioral_restore t)
                      (rollback_fails t)).

(** [with self.connection as db]: commit, or roll the store back on a raise. *)
Definition transaction {A} (body : op A) : op A := λ w,
  match body w with
  | (Ok a, w') => (Ok a, w')
  | (Raise e, w') => (Raise e, mkWorld (store w) (traffic w') (authority w') (faults w') (ticks w'))
  end.

(** [with suppress(Exception)] *)
Definition suppress (m : op ()) : op () := catch m (λ _, mret ()).

(** [DeterministicTrafficAdapter] *)
Definition traffic_hit (point : string) : op () :=
  w ← get;
  if decide (point ∈ t_faults (traffic w)) then
    _ ← set_traffic (λ t, mkTraffic (route t) (t_authority t) (t_faults t ∖ {[point]})
                            (behavioral_restore t) (rollback_fails t));
    raise (InjectedCrash point)
  else mret ().

Definition traffic_close (generation : Z) : op () := traffic_hit "close".

Definition lease_valid (t : Traffic) (grant : LeaseGrant) (now : Z) : bool :=
  bool_decide (t_authority t = grant) && (now <=? expires_at grant)%Z.

Definition traffic_open (generation : Z) (fence : string) (snapshot : json)
    (grant : LeaseGrant) (now : Z) : op () :=
  _ ← traffic_hit "open.before";
  w ← get;
  _ ← guard_raise (negb (bool_decide (t_authority (traffic w) = grant))
                   || (expires_at grant <? now)%Z)
        (GateError "lease changed or expired before traffic open");
  _ ← set_route (mkRoute (Some generation) fence snapshot);
  traffic_hit "open.after".

Definition close_all : op () :=
  _ ← traffic_hit "close_all";
  set_route (mkRoute None "closed" JNull).

Definition restore (generation : Z) (fence : string) (snapshot : list (string * json))
    : op RouteState :=
  w ← get;
  _ ← guard_raise (rollback_fails (traffic w)) (GateError "rollback failed");
  let restored := if behavioral_restore (traffic w)
                  then JObj [("behaviorally_equivalent", JBool true)] else JObj snapshot in
  let r := mkRoute (Some generation) fence restored in
  _ ← set_route r;
  mret r.

Definition query_route : op RouteState :=
  _ ← traffic_hit "route.query";
  w ← get;
  mret (route (traffic w)).

(** ** [ReferenceExposureGate]: rows and transitions *)

Definition gate_schema_version : Z := 2.

Definition _ALLOWED (s : GateState) : list GateState :=
  match s with
  | PREDECESSOR_OPEN => [CANDIDATE_STAGED; FAILED_SAFE; SAFETY_UNKNOWN]
  | CANDIDATE_STAGED => [CANDIDATE_CLOSED; ROLLED_BACK; FAILED_SAFE; SAFETY_UNKNOWN]
  | CANDIDATE_CLOSED => [OPENING; ROLLED_BACK; FAILED_SAFE; SAFETY_UNKNOWN]
  | OPENING => [CANDIDATE_OPEN; FAILED_SAFE; SAFETY_UNKNOWN]
  | CANDIDATE_OPEN => [DRAINING; ROLLED_BACK; FAILED_SAFE; SAFETY_UNKNOWN]
  | DRAINING => [CANDIDATE_OPEN; ROLLED_BACK; FAILED_SAFE; SAFETY_UNKNOWN]
  | ROLLED_BACK | FAILED_SAFE | SAFETY_UNKNOWN => []
  end.

(** Column updates. *)
Definition set_row (f : gate_row → gate_row) (d : Db) : Db :=
  mkDb (f <$> gate_state d) (gate_transition d) (admission d) (admission_event d).

Definition with_state (s : GateState) (seq : Z) (r : gate_row) : gate_row :=
  mkRow s (predecessor_generation r) (candidate_generation r) (predecessor_json r)
    (candidate_json r) (route_generation r) (route_fence r) (lease_json r) seq
    (revision r + 1) (schema_version r) (proof_digest r) (candidate_digest r)
    (observed_candidate_digest r) (predecessor_digest r) (observed_predecessor_digest r).

Definition with_route (generation : option Z) (fence : string) (r : gate_row) : gate_row :=
  mkRow (gs_state r) (predecessor_generation r) (candidate_generation r) (predecessor_json r)
    (candidate_json r) generation fence (lease_json r) (gs_transition_seq r)
    (revision r) (schema_version r) (proof_digest r) (candidate_digest r)
    (observed_candidate_digest r) (predecessor_digest r) (observed_predecessor_digest r).

Definition with_opened (generation : Z) (fence : string) (seq : Z) (observed : string)
    (r : gate_row) : gate_row :=
  mkRow (gs_state r) (predecessor_generation r) (candidate_generation r) (predecessor_json r)
    (candidate_json r) (Some generation) fence (lease_json r) seq
    (revision r) (schema_version r) (proof_digest r) (candidate_digest r)
    (Some observed) (predecessor_digest r) (observed_predecessor_digest r).

Definition with_proof (digest : string) (r : gate_row) : gate_row :=
  mkRow (gs_state r) (predecessor_generation r) (candidate_generation r) (predecessor_json r)
    (candidate_json r) (route_generation r) (route_fence r) (lease_json r)
    (gs_transition_seq r) (revision r) (schema_version r) (Some digest) (candidate_digest r)
    (observed_candidate_digest r) (predecessor_digest r) (observed_predecessor_digest r).

Definition with_observed_predecessor (digest : string) (r : gate_row) : gate_row :=
  mkRow (gs_state r) (predecessor_generation r) (candidate_generation r) (predecessor_json r)
    (candidate_json r) (route_generation r) (route_fence r) (lease_json r)
    (gs_transition_seq r) (revision r) (schema_version r) (proof_digest r) (candidate_digest r)
    (observed_candidate_digest r) (predecessor_digest r) (Some digest).

(** [INTEGER PRIMARY KEY AUTOINCREMENT]; rows are never deleted. *)
Definition next_seq (log : list transition_row) : Z := from_option tr_seq 0%Z (last log) + 1.
Definition next_event_seq (log : list event_row) : Z := from_option ev_seq 0%Z (last log) + 1.

(** [operation.split('.')[0]] *)
Definition close_id (generation : Z) : string := "close:" +:+ pretty generation.
Definition open_id (generation : Z) : string := "open:" +:+ pretty generation.
Definition reconcile_close_id (generation : Z) : string :=
  "open-reconcile-close:" +:+ pretty generation.
Definition predecessor_fence (generation : Z) : string := "fence-" +:+ pretty generation.

Section gate.
Context (clock : nat → Z).

(** [self.clock()] *)
Definition read_clock : op Z := λ w,
  (Ok (clock (ticks w)), mkWorld (store w) (traffic w) (authority w) (faults w) (S (ticks w))).

Definition _hit (point : string) : op () :=
  w ← get;
  if decide (point ∈ faults w) then
    _ ← modify (λ w, mkWorld (store w) (traffic w) (authority w) (faults w ∖ {[point]}) (ticks w));
    raise (InjectedCrash point)
  else mret ().

Definition _row : op gate_row :=
  w ← get;
  match gate_state (store w) with
  | None => raise (GateError "gate is not initialized")
  | Some row =>
      _ ← guard_raise (negb (schema_version row =? gate_schema_version)%Z)
            (GateError "unknown gate schema version");
      mret row
  end.

Definition _append (generation : Z) (kind operation : string)
    (from_state to_state : option GateState) (fence : option string)
    (detail : list (string * json)) (operation_id : option string) : op Z :=
  let correlation := match operation_id with
                     | Some id => id
                     | None => before_dot operation +:+ ":" +:+ pretty generation
                     end in
  at_ ← read_clock;
  w ← get;
  let seq := next_seq (gate_transition (store w)) in
  _ ← set_store (λ d,
        mkDb (gate_state d)
          (gate_transition d ++
             [mkTransition seq generation kind operation correlation from_state to_state
                fence at_ (JObj detail)])
          (admission d) (admission_event d));
  mret seq.

(** [UPDATE gate_state SET ... WHERE singleton=1 AND revision=?], the row count. *)
Definition update_state (target : GateState) (seq expected : Z) : op Z :=
  w ← get;
  match gate_state (store w) with
  | Some row =>
      if (revision row =? expected)%Z
      then _ ← set_store (set_row (with_state target seq)); mret 1%Z
      else mret 0%Z
  | None => mret 0%Z
  end.

Definition _transition (generation : Z) (target : GateState) (operation kind : string)
    (detail : list (string * json)) (fence operation_id : option string) : op Z :=
  row ← _row;
  let current := gs_state row in
  _ ← guard_raise (negb (bool_decide (target = current))
                   && negb (bool_decide (target ∈ _ALLOWED current)))
        (GateError ("invalid gate transition " +:+ GateState_value current +:+ "->" +:+
                    GateState_value target));
  seq ← _append generation kind operation (Some current) (Some target) fence detail
          operation_id;
  changed ← update_state target seq (revision row);
  _ ← guard_raise (negb (changed =? 1)%Z) (GateError "gate revision CAS mismatch");
  mret seq.

(** ** Staging *)

(** [int(value["generation"])] on the values generations have; [int] of a JSON
    string or float is outside the model. *)
Definition generation_of (value : json) : result exn Z :=
  match value with
  | JObj kv => match assoc "generation" kv with
               | Some (JInt z) => Ok z
               | Some (JBool b) => Ok (Z_of_bool b)
               | Some _ => Raise TypeError
               | None => Raise (KeyError "generation")
               end
  | _ => Raise TypeError
  end.

Definition already_staged (row : gate_row) (candidate predecessor : json)
    (predecessor_generation : Z) : bool :=
  (candidate_generation row =? predecessor_generation + 1)%Z &&
  json_eqb (candidate_json row) candidate &&
  json_eqb (predecessor_json row) predecessor &&
  bool_decide (route_fence row = predecessor_fence predecessor_generation).

Definition staged_row (candidate predecessor : json) (predecessor_generation : Z)
    (r : RouteState) (lease : LeaseGrant) : gate_row :=
  mkRow PREDECESSOR_OPEN predecessor_generation (predecessor_generation + 1) predecessor
    candidate (rt_generation r) (rt_fence r) lease 0 0 gate_schema_version None
    (_digest candidate) None (_digest predecessor) (Some (_digest predecessor)).

Definition stage (candidate predecessor : json) : op Z :=
  predecessor_generation ← lift (generation_of predecessor);
  let candidate_generation := (predecessor_generation + 1)%Z in
  w ← get;
  match gate_state (store w) with
  | Some existing =>
      if already_staged existing candidate predecessor predecessor_generation
      then mret candidate_generation
      else raise (GateError "another candidate is already staged")
  | None =>
      let r := route (traffic w) in
      _ ← guard_raise
            (negb (bool_decide (rt_generation r = Some predecessor_generation))
             || negb (bool_decide (rt_fence r = predecessor_fence predecessor_generation))
             || negb (bool_decide (_json (rt_snapshot r) = _json predecessor)))
            (GateError "actual predecessor generation/fence/snapshot mismatch");
      _ ← transaction (
        _ ← set_store (λ d,
              mkDb (Some (staged_row candidate predecessor predecessor_generation r
                            (authority w)))
                (gate_transition d) (admission d) (admission_event d));
        _transition candidate_generation CANDIDATE_STAGED "stage" "receipt"
          [("candidate", candidate); ("candidate_digest", JStr (_digest candidate));
           ("predecessor_digest", JStr (_digest predecessor))] None None);
      mret candidate_generation
  end.

(** ** Fail-close *)

Definition route_closed (actual : option RouteState) : bool :=
  match actual with
  | Some r => bool_decide (rt_generation r = None) && bool_decide (rt_fence r = "closed")
  | None => false
  end.

Definition fail_class (closed : bool) : RollbackClass :=
  if closed then Failed_safe else Safety_unknown.
Definition fail_target (closed : bool) : GateState :=
  if closed then FAILED_SAFE else SAFETY_UNKNOWN.

(** [UPDATE gate_state SET route_generation=?,route_fence=?] with an observed route. *)
Definition record_route (actual : option RouteState) : op () :=
  set_store (set_row (with_route (actual ≫= rt_generation)
                                 (from_option rt_fence "unknown" actual))).

(** [f"{error}; {prefix}{exc}" if error else str(exc)] *)
Definition combine_error (error : option string) (prefix : string) (e : exn) : string :=
  match error with
  | Some err => if bool_decide (err = "") then str_exn e
                else err +:+ "; " +:+ prefix +:+ str_exn e
  | None => str_exn e
  end.

Definition error_of {A} (r : result exn A) : option string :=
  match r with Ok _ => None | Raise e => Some (str_exn e) end.
Definition value_of {A} (r : result exn A) : option A :=
  match r with Ok a => Some a | Raise _ => None end.

Definition fail_close (generation : Z) (reason : string) : op FailCloseResult :=
  row ← _row;
  _ ← guard_raise (negb (candidate_generation row =? generation)%Z)
        (GateError "stale generation fail-close");
  _ ← transaction (_append generation "intent" "fail_close" (Some (gs_state row)) None
                     (Some "closed") [("reason", JStr reason)] None);
  _ ← _hit "fail_close.before_effect";
  closing ← attempt close_all;
  _ ← _hit "fail_close.after_effect";
  queried ← attempt query_route;
  let actual := value_of queried in
  let error := match queried with
               | Ok _ => error_of closing
               | Raise e => Some (combine_error (error_of closing) "route query: " e)
               end in
  let closed := route_closed actual in
  _ ← transaction (
    _ ← _transition generation (fail_target closed) "fail_close" "receipt"
          [("classification", JStr (RollbackClass_value (fail_class closed)));
           ("actual_route", optional_route actual); ("error", jstr_opt error)] None None;
    record_route actual);
  mret (mkFailClose (fail_class closed) actual error).

(** ** Closing the candidate *)

(** The intent of [operation_id] has no receipt yet. *)
Definition intent_pending (log : list transition_row) (id : string) : bool :=
  existsb (λ t, bool_decide (operation_id t = id) && bool_decide (tr_kind t = "intent")) log &&
  negb (existsb (λ t, bool_decide (operation_id t = id) && bool_decide (tr_kind t = "receipt"))
          log).

Definition predecessor_kept (row : gate_row) (actual : RouteState) : bool :=
  bool_decide (rt_generation actual = Some (predecessor_generation row)) &&
  bool_decide (rt_fence actual = route_fence row) &&
  bool_decide (_digest (rt_snapshot actual) = predecessor_digest row).

Definition close (generation : Z) : op () :=
  row ← _row;
  let state := gs_state row in
  _ ← guard_raise (negb (candidate_generation row =? generation)%Z)
        (GateError "stale generation close");
  if bool_decide (state = CANDIDATE_CLOSED) then mret () else
  let id := close_id generation in
  w ← get;
  _ ← (if intent_pending (gate_transition (store w)) id then mret 0%Z
       else transaction (_append generation "intent" "close" (Some state) None None []
                           (Some id)));
  _ ← _hit "close.before_effect";
  _ ← traffic_close generation;
  _ ← _hit "close.after_effect";
  actual ← query_route;
  _ ← _hit "close.after_query";
  let observed := _digest (rt_snapshot actual) in
  if negb (predecessor_kept row actual) then
    _ ← transaction (_append generation "receipt" "close" (Some state) None
                       (Some (rt_fence actual))
                       [("cancelled", JStr "predecessor continuity mismatch");
                        ("observed_predecessor_digest", JStr observed)] (Some id));
    _ ← fail_close generation "predecessor continuity mismatch";
    raise (GateError "close changed predecessor route identity")
  else
    transaction (
      _ ← _transition generation CANDIDATE_CLOSED "close" "receipt"
            [("actual_route", RouteState_asdict actual);
             ("observed_predecessor_digest", JStr observed)] None (Some id);
      set_store (set_row (with_observed_predecessor observed))).

(** ** Opening the candidate *)

(** [_SHA256.fullmatch] *)
Definition sha256_match (s : string) : bool :=
  starts_with "sha256:" s && (String.length s =? 71)%nat &&
  string_forallb is_hex (String.substring 7 64 s).

Definition expected_plan (candidate : json) : result exn json :=
  match candidate with
  | JStr s => Ok (JStr s)
  | JObj kv => match assoc "plan_id" kv with
               | Some v => Ok v
               | None => Raise (KeyError "plan_id")
               end
  | _ => Raise TypeError
  end.

Definition evidence_covered (proof : OpenProof) : bool :=
  (1 <=? evidence_count proof)%Z && sha256_match (evidence_digest proof)
  && sha256_match (coverage_digest proof).

Definition open_fence (generation : Z) (proof : OpenProof) (row : gate_row) : string :=
  "gate-" +:+ pretty generation +:+ "-lease-" +:+ pretty (fencing_token (pf_lease proof)) +:+
  "-" +:+ String.substring 7 12 (pf_candidate_digest proof) +:+ "-" +:+
  pretty (gs_transition_seq row + 1)%Z.

Definition proof_detail (proof : OpenProof) : list (string * json) :=
  OpenProof_fields proof ++ [("proof_digest", JStr (OpenProof_digest proof))].

Definition candidate_routed (generation : Z) (fence digest : string) (actual : RouteState)
    : bool :=
  bool_decide (rt_generation actual = Some generation) &&
  bool_decide (rt_fence actual = fence) &&
  bool_decide (_digest (rt_snapshot actual) = digest).

(** The tests [open] makes before it writes. *)
Definition check_open (generation : Z) (proof : OpenProof) (row : gate_row) : op () :=
  _ ← guard_raise (negb (pf_generation proof =? generation)%Z
                   || negb (candidate_generation row =? generation)%Z)
        (GateError "stale generation open");
  plan ← lift (expected_plan (candidate_json row));
  _ ← guard_raise (negb (json_eqb (JStr (pf_plan_id proof)) plan))
        (GateError "open proof plan mismatch");
  _ ← guard_raise (negb (bool_decide (pf_candidate_digest proof = candidate_digest row)))
        (GateError "open proof candidate snapshot mismatch");
  _ ← guard_raise (negb (evidence_covered proof))
        (GateError "open proof has no durable evidence coverage");
  if bool_decide (pf_lease proof = lease_json row) then
    now ← read_clock;
    w ← get;
    guard_raise (negb (lease_valid (traffic w) (pf_lease proof) now)) (GateError "lease lost")
  else raise (GateError "lease lost").

(** Intent, traffic, query and receipt of [open]. *)
Definition perform_open (generation : Z) (proof : OpenProof) (row : gate_row) : op string :=
  let fence := open_fence generation proof row in
  _ ← _hit "open.before_intent";
  _ ← transaction (
    _ ← _transition generation OPENING "open" "intent" (proof_detail proof) (Some fence) None;
    set_store (set_row (with_proof (OpenProof_digest proof))));
  _ ← _hit "open.after_intent";
  now ← read_clock;
  _ ← traffic_open generation fence (candidate_json row) (pf_lease proof) now;
  _ ← _hit "open.after_side_effect";
  actual ← query_route;
  _ ← _hit "open.after_query";
  let actual_digest := _digest (rt_snapshot actual) in
  if negb (candidate_routed generation fence (pf_candidate_digest proof) actual) then
    _ ← transaction (_append generation "receipt" "open" (Some OPENING) None (Some fence)
                       [("cancelled", JStr "actual candidate route mismatch")]
                       (Some (open_id generation)));
    _ ← fail_close generation "actual candidate route mismatch";
    raise (GateError "actual candidate route mismatch")
  else
    _ ← transaction (
      seq ← _transition generation CANDIDATE_OPEN "open" "receipt"
              [("actual_route", JInt generation);
               ("lease_fencing_token", JInt (fencing_token (pf_lease proof)));
               ("proof_digest", JStr (OpenProof_digest proof));
               ("observed_candidate_digest", JStr actual_digest)] (Some fence) None;
      set_store (set_row (with_opened generation fence seq actual_digest)));
    mret fence.

Definition open (generation : Z) (proof : OpenProof) : op string :=
  row ← _row;
  _ ← check_open generation proof row;
  match gs_state row with
  | CANDIDATE_OPEN =>
      _ ← guard_raise (negb (bool_decide (proof_digest row = Some (OpenProof_digest proof))))
            (GateError "idempotent open proof mismatch");
      mret (route_fence row)
  | OPENING => raise (GateError "opening outcome requires reconcile")
  | _ => perform_open generation proof row
  end.

(** ** Draining and admissions *)

Definition unfinished (generation : Z) (rows : list admission_row) : nat :=
  length (filter (λ a, chosen_generation a = generation ∧ finished_at a = None) rows).

Definition drain (generation : Z) : op bool :=
  row ← _row;
  _ ← guard_raise (negb (candidate_generation row =? generation)%Z)
        (GateError "stale generation drain");
  _ ← (if bool_decide (gs_state row = DRAINING) then mret 0%Z
       else transaction (_transition generation DRAINING "drain" "intent" [] None None));
  w ← get;
  if (0 <? unfinished (predecessor_generation row) (admission (store w)))%nat then mret false
  else
    _ ← transaction (_transition generation CANDIDATE_OPEN "drain" "receipt"
                       [("unfinished_predecessor", JInt 0)] None None);
    mret true.

Definition find_admission (id : string) (rows : list admission_row) : option admission_row :=
  head (filter (λ a, ad_request_id a = id) rows).

Definition admission_blocked (s : GateState) : bool :=
  bool_decide (s ∈ [OPENING; ROLLED_BACK; FAILED_SAFE; SAFETY_UNKNOWN]).

Definition before_open (s : GateState) : bool :=
  bool_decide (s ∈ [PREDECESSOR_OPEN; CANDIDATE_STAGED; CANDIDATE_CLOSED]).

Definition predecessor_mismatch (row : gate_row) (actual : RouteState) : bool :=
  before_open (gs_state row) &&
  (negb (bool_decide (rt_generation actual = Some (predecessor_generation row)))
   || negb (bool_decide (rt_fence actual = predecessor_fence (predecessor_generation row)))
   || negb (bool_decide (_digest (rt_snapshot actual) = predecessor_digest row))).

Definition unknown_route (row : gate_row) (actual : RouteState) : bool :=
  negb (bool_decide (rt_generation actual = route_generation row))
  || negb (bool_decide (rt_fence actual = route_fence row))
  || (bool_decide (rt_generation actual = Some (candidate_generation row)) &&
      negb (bool_decide (Some (_digest (rt_snapshot actual)) = observed_candidate_digest row))).

Definition append_event (id kind : string) (generation : Z) (epoch : string) (at_ seq : Z)
    (detail : json) (d : Db) : Db :=
  mkDb (gate_state d) (gate_transition d) (admission d)
    (admission_event d ++
       [mkEvent (next_event_seq (admission_event d)) id kind generation epoch at_ seq detail]).

Definition add_admission (a : admission_row) (d : Db) : Db :=
  mkDb (gate_state d) (gate_transition d) (admission d ++ [a]) (admission_event d).

Definition admit_new (request : AdmissionRequest) : op admission_row :=
  row ← _row;
  _ ← guard_raise (admission_blocked (gs_state row))
        (GateError ("admission blocked in " +:+ GateState_value (gs_state row)));
  w ← get;
  let actual := route (traffic w) in
  match rt_generation actual with
  | None => raise (GateError "traffic is failed safe")
  | Some chosen =>
      _ ← guard_raise (bool_decide (rt_fence actual = "closed"))
            (GateError "traffic is failed safe");
      if predecessor_mismatch row actual then
        _ ← fail_close (candidate_generation row) "pre-open predecessor continuity mismatch";
        raise (GateError "predecessor route identity changed")
      else
        _ ← guard_raise (unknown_route row actual) (GateError "unknown route state");
        let a := mkAdmission (request_id request) (rt_fence actual) chosen
                   (rq_admitted_at request) None None None (gs_transition_seq row) in
        _ ← transaction (
          _ ← set_store (add_admission a);
          set_store (append_event (request_id request) "admit" chosen (rt_fence actual)
                       (rq_admitted_at request) (gs_transition_seq row) (JObj [])));
        mret a
  end.

Definition finish_row (id : string) (r : AdmissionResult) (a : admission_row) : admission_row :=
  if decide (ad_request_id a = id ∧ finished_at a = None)
  then mkAdmission (ad_request_id a) (route_epoch a) (chosen_generation a) (admitted_at a)
         (Some (rs_finished_at r)) (rs_result r) (rs_abort r) (ad_transition_seq a)
  else a.

Definition finish_admissions (id : string) (r : AdmissionResult) (d : Db) : Db :=
  mkDb (gate_state d) (gate_transition d) (finish_row id r <$> admission d)
    (admission_event d).

Definition finish (existing : admission_row) (request : AdmissionRequest)
    (r : AdmissionResult) : op () :=
  _ ← guard_raise (bool_decide (is_Some (rs_result r) ↔ is_Some (rs_abort r)))
        (GateError "finish requires exactly one of result or abort");
  _ ← guard_raise (rs_finished_at r <? admitted_at existing)%Z
        (GateError "finish precedes admission");
  _ ← guard_raise (bool_decide (is_Some (finished_at existing)))
        (GateError "request finish is immutable");
  transaction (
    w ← get;
    _ ← guard_raise
          (negb (length (filter (λ a, ad_request_id a = request_id request ∧
                                      finished_at a = None) (admission (store w))) =? 1)%nat)
          (GateError "concurrent request finish");
    _ ← set_store (finish_admissions (request_id request) r);
    set_store (append_event (request_id request) "finish" (chosen_generation existing)
                 (route_epoch existing) (rs_finished_at r) (ad_transition_seq existing)
                 (JObj [("result", jstr_opt (rs_result r)); ("abort", jstr_opt (rs_abort r))]))).

Definition observe (request : AdmissionRequest) (r : option AdmissionResult) : op Z :=
  w ← get;
  existing ← match find_admission (request_id request) (admission (store w)) with
             | Some a => mret a
             | None => admit_new request
             end;
  _ ← match r with Some r => finish existing request r | None => mret () end;
  mret (chosen_generation existing).

(** ** Reconciliation after a crash *)

(** [... WHERE operation=? AND kind=? ORDER BY seq DESC LIMIT 1] *)
Definition last_row (operation kind : string) (log : list transition_row)
    : option transition_row :=
  last (filter (λ t, tr_operation t = operation ∧ tr_kind t = kind) log).

(** The newest intent of the operation has no later receipt. *)
Definition pending_intent (operation : string) (log : list transition_row)
    : option transition_row :=
  match last_row operation "intent" log, last_row operation "receipt" log with
  | Some i, Some r => if (tr_seq r <? tr_seq i)%Z then Some i else None
  | Some i, None => Some i
  | None, _ => None
  end.

(** The newest close-all intent of a recovery whose operation has no receipt. *)
Definition pending_recovery_close (log : list transition_row) : option transition_row :=
  last (filter (λ t, tr_operation t = "open.reconcile.close_all" ∧ tr_kind t = "intent" ∧
                     Forall (λ r, ¬ (operation_id r = operation_id t ∧ tr_kind r = "receipt"))
                       log)
          log).

Definition reconcile_fail_close (row : gate_row) (intent : transition_row) : op GateState :=
  queried ← attempt query_route;
  let actual := value_of queried in
  let closed := route_closed actual in
  _ ← transaction (
    _ ← _transition (candidate_generation row) (fail_target closed) "fail_close" "receipt"
          [("classification", JStr (RollbackClass_value (fail_class closed)));
           ("reconciled", JBool true); ("actual_route", optional_route actual);
           ("error", jstr_opt (error_of queried))] None (Some (operation_id intent));
    record_route actual);
  mret (fail_target closed).

Definition reconcile_recovery_close (row : gate_row) (intent : transition_row)
    : op GateState :=
  let generation := candidate_generation row in
  _ ← _hit "open_recovery_close.before_effect";
  _ ← suppress close_all;
  _ ← _hit "open_recovery_close.after_effect";
  queried ← attempt query_route;
  _ ← _hit "open_recovery_close.after_query";
  let actual := value_of queried in
  let closed := route_closed actual in
  w ← get;
  let open_intent := last_row "open" "intent" (gate_transition (store w)) in
  _ ← transaction (
    _ ← _append generation "receipt" "open.reconcile.close_all" (Some OPENING) None
          (Some "closed") [("actual_route", optional_route actual)]
          (Some (operation_id intent));
    match open_intent with
    | None => raise TypeError
    | Some i =>
        _transition generation (fail_target closed) "open" "receipt"
          [("cancelled", JStr "recovery close"); ("closed", JBool closed)] None
          (Some (operation_id i))
    end);
  mret (fail_target closed).

Definition rollback_observed (row : gate_row) (actual : option RouteState)
    : GateState * RollbackClass :=
  match actual with
  | Some r =>
      if bool_decide (rt_generation r = Some (predecessor_generation row)) &&
         bool_decide (rt_fence r = predecessor_fence (predecessor_generation row)) &&
         bool_decide (_json (rt_snapshot r) = _json (predecessor_json row))
      then (ROLLED_BACK, Restored_strong)
      else if route_closed actual then (FAILED_SAFE, Failed_safe)
      else (SAFETY_UNKNOWN, Safety_unknown)
  | None => (SAFETY_UNKNOWN, Safety_unknown)
  end.

Definition reconcile_rollback (row : gate_row) (intent : transition_row) : op GateState :=
  queried ← attempt query_route;
  let actual := value_of queried in
  let '(target, classification) := rollback_observed row actual in
  _ ← transaction (
    _transition (candidate_generation row) target "rollback" "receipt"
      [("classification", JStr (RollbackClass_value classification));
       ("reconciled", JBool true); ("actual_route", optional_route actual)] None
      (Some (operation_id intent)));
  mret target.

(** [OpenProof(detail["plan_id"], ..., LeaseGrant(... detail["lease"]), ...)] *)
Definition json_field (kv : list (string * json)) (key : string) : result exn json :=
  match assoc key kv with Some v => Ok v | None => Raise (KeyError key) end.
Definition json_int (v : json) : result exn Z :=
  match v with JInt z => Ok z | _ => Raise TypeError end.
Definition json_str (v : json) : result exn string :=
  match v with JStr s => Ok s | _ => Raise TypeError end.

Definition lease_of_json (v : json) : result exn LeaseGrant :=
  match v with
  | JObj kv =>
      h ← json_field kv "holder" ≫= json_str;
      t ← json_field kv "fencing_token" ≫= json_int;
      e ← json_field kv "expires_at" ≫= json_int;
      Ok (mkLease h t e)
  | _ => Raise TypeError
  end.

Definition proof_of_json (v : json) : result exn (OpenProof * string) :=
  match v with
  | JObj kv =>
      plan ← json_field kv "plan_id" ≫= json_str;
      generation ← json_field kv "generation" ≫= json_int;
      count ← json_field kv "evidence_count" ≫= json_int;
      evidence ← json_field kv "evidence_digest" ≫= json_str;
      coverage ← json_field kv "coverage_digest" ≫= json_str;
      lease ← json_field kv "lease" ≫= lease_of_json;
      candidate ← json_field kv "candidate_digest" ≫= json_str;
      digest ← json_field kv "proof_digest" ≫= json_str;
      Ok (mkProof plan generation count evidence coverage lease candidate, digest)
  | _ => Raise TypeError
  end.

(** The receipt that cancels the pending open, then a fail-close. *)
Definition cancel_open (generation : Z) (intent : transition_row) (reason : string)
    : op GateState :=
  _ ← transaction (_append generation "receipt" "open" (Some OPENING) None (tr_fence intent)
                     [("cancelled", JStr reason)] (Some (operation_id intent)));
  outcome ← fail_close generation reason;
  mret (match fc_classification outcome with
        | Failed_safe => FAILED_SAFE
        | _ => SAFETY_UNKNOWN
        end).

Definition accept_open (generation : Z) (intent : transition_row) (actual : RouteState)
    : op GateState :=
  let actual_digest := _digest (rt_snapshot actual) in
  _ ← transaction (
    seq ← _transition generation CANDIDATE_OPEN "open.reconcile" "receipt"
            [("queried_actual_route", JInt generation);
             ("observed_candidate_digest", JStr actual_digest)]
            (Some (rt_fence actual)) (Some (operation_id intent));
    set_store (set_row (with_opened generation (rt_fence actual) seq actual_digest)));
  mret CANDIDATE_OPEN.

(** The route is not the candidate's: close everything and record what happened. *)
Definition close_unproven (generation : Z) (intent : transition_row) (actual : RouteState)
    : op GateState :=
  let id := reconcile_close_id generation in
  _ ← transaction (_append generation "intent" "open.reconcile.close_all" (Some OPENING) None
                     (Some "closed")
                     [("queried_actual_generation", jint_opt (rt_generation actual))]
                     (Some id));
  _ ← _hit "open_recovery_close.before_effect";
  closing ← attempt close_all;
  _ ← _hit "open_recovery_close.after_effect";
  queried ← attempt query_route;
  let close_error := match queried with
                     | Ok _ => error_of closing
                     | Raise e => Some (combine_error (error_of closing) "" e)
                     end in
  _ ← _hit "open_recovery_close.after_query";
  _ ← transaction (_append generation "receipt" "open.reconcile.close_all" (Some OPENING) None
                     (Some "closed")
                     [("actual_generation", jint_opt (rt_generation actual));
                      ("actual_route", optional_route (value_of queried));
                      ("error", jstr_opt close_error)] (Some id));
  match close_error with
  | Some _ => cancel_open generation intent "open recovery close failed"
  | None =>
      _ ← transaction (
        _ ← _transition generation FAILED_SAFE "open" "receipt"
              [("actual_generation", jint_opt (rt_generation actual));
               ("action", JStr "close_all")] None (Some (operation_id intent));
        set_store (set_row (with_route None "closed")));
      mret FAILED_SAFE
  end.

Definition reconcile_opening (row : gate_row) : op GateState :=
  let generation := candidate_generation row in
  w ← get;
  match last_row "open" "intent" (gate_transition (store w)) with
  | None => raise TypeError
  | Some intent =>
      pd ← lift (proof_of_json (detail_json intent));
      let '(proof, digest) := pd in
      stale ← (if negb (bool_decide (OpenProof_digest proof = digest))
                  || negb (bool_decide (pf_lease proof = lease_json row)) then mret true
               else now ← read_clock; w ← get;
                    mret (negb (lease_valid (traffic w) (pf_lease proof) now)));
      if stale : bool then cancel_open generation intent "persisted open lease is stale" else
      queried ← attempt query_route;
      match queried with
      | Raise _ => cancel_open generation intent "open recovery route query failed"
      | Ok actual =>
          if bool_decide (rt_generation actual = Some generation) &&
             bool_decide (Some (rt_fence actual) = tr_fence intent) &&
             bool_decide (_digest (rt_snapshot actual) = pf_candidate_digest proof)
          then accept_open generation intent actual
          else close_unproven generation intent actual
      end
  end.

Definition reconcile : op GateState :=
  row ← _row;
  w ← get;
  let log := gate_transition (store w) in
  match pending_intent "fail_close" log with
  | Some intent => reconcile_fail_close row intent
  | None =>
      match pending_recovery_close log with
      | Some intent => reconcile_recovery_close row intent
      | None =>
          match pending_intent "rollback" log with
          | Some intent => reconcile_rollback row intent
          | None => if bool_decide (gs_state row = OPENING) then reconcile_opening row
                    else mret (gs_state row)
          end
      end
  end.

(** ** Rollback *)

Definition oracle_accepts (o : option BehavioralOracleResult) (t : Traffic) : bool :=
  match o with
  | Some o => equivalent o && starts_with "sha256:" (observations_digest o) &&
              negb (bool_decide (oracle o = "")) && behavioral_restore t
  | None => false
  end.

(** [close_all] with its errors suppressed, and the class the route then has. *)
Definition close_and_classify : op RollbackClass :=
  _ ← suppress close_all;
  w ← get;
  mret (fail_class (route_closed (Some (route (traffic w))))).

(** [dict(snapshot)] of a value that is no object raises inside the adapter. *)
Definition restore_json (generation : Z) (fence : string) (snapshot : json) : op RouteState :=
  match snapshot with
  | JObj kv => restore generation fence kv
  | _ => w ← get;
         _ ← guard_raise (rollback_fails (traffic w)) (GateError "rollback failed");
         raise TypeError
  end.

Definition restore_predecessor (row : gate_row) (o : option BehavioralOracleResult)
    : op RollbackClass :=
  let generation := predecessor_generation row in
  let fence := predecessor_fence generation in
  restored ← attempt (restore_json generation fence (predecessor_json row));
  match restored with
  | Raise _ => close_and_classify
  | Ok actual =>
      w ← get;
      if bool_decide (rt_generation actual = Some generation) &&
         json_eqb (rt_snapshot actual) (predecessor_json row) &&
         bool_decide (rt_fence actual = fence)
      then mret Restored_strong
      else if oracle_accepts o (traffic w) then mret Behavioral
      else close_and_classify
  end.

Definition rollback_target (c : RollbackClass) : GateState :=
  match c with
  | Restored_strong | Behavioral => ROLLED_BACK
  | Failed_safe => FAILED_SAFE
  | Safety_unknown => SAFETY_UNKNOWN
  end.

Definition rollback (generation : Z) (o : option BehavioralOracleResult)
    : op RollbackClass :=
  row ← _row;
  _ ← guard_raise (negb (candidate_generation row =? generation)%Z)
        (GateError "stale generation rollback");
  _ ← transaction (_append generation "intent" "rollback" (Some (gs_state row)) None
                     (Some (predecessor_fence (predecessor_generation row)))
                     [("behavioral_oracle", Oracle_asdict o)] None);
  _ ← _hit "rollback.after_intent";
  outcome ← restore_predecessor row o;
  _ ← _hit "rollback.after_effect";
  _ ← transaction (
    w ← get;
    _ ← _transition generation (rollback_target outcome) "rollback" "receipt"
          [("classification", JStr (RollbackClass_value outcome));
           ("behavioral_oracle", Oracle_asdict o);
           ("actual_route", RouteState_asdict (route (traffic w)))] None None;
    record_route (Some (route (traffic w))));
  mret outcome.
End gate.

(** ** A world before staging, and the calls of a run *)

Definition empty_db : Db := mkDb None [] [] [].

(** A gate on a new store, beside an adapter that serves some route. *)
Definition fresh (r : RouteState) (grant t_grant : LeaseGrant) (gate_faults traffic_faults : gset string)
    (behavioral fails : bool) : World :=
  mkWorld empty_db (mkTraffic r t_grant traffic_faults behavioral fails) grant gate_faults 0.

Inductive call : Type :=
  | Call_stage (candidate predecessor : json)
  | Call_close (generation : Z)
  | Call_open (generation : Z) (proof : OpenProof)
  | Call_drain (generation : Z)
  | Call_observe (request : AdmissionRequest) (r : option AdmissionResult)
  | Call_reconcile
  | Call_rollback (generation : Z) (o : option BehavioralOracleResult)
  | Call_fail_close (generation : Z) (reason : string).

Definition perform (clock : nat → Z) (c : call) : op () :=
  match c with
  | Call_stage candidate predecessor => _ ← stage clock candidate predecessor; mret ()
  | Call_close generation => close clock generation
  | Call_open generation proof => _ ← open clock generation proof; mret ()
  | Call_drain generation => _ ← drain clock generation; mret ()
  | Call_observe request r => _ ← observe clock request r; mret ()
  | Call_reconcile => _ ← reconcile clock; mret ()
  | Call_rollback generation o => _ ← rollback clock generation o; mret ()
  | Call_fail_close generation reason => _ ← fail_close clock generation reason; mret ()
  end.

Definition run (clock : nat → Z) (c : call) (w : World) : World := exec (perform clock c) w.
Definition run_all (clock : nat → Z) (cs : list call) (w : World) : World :=
  foldl (λ w c, run clock c w) w cs.

(** The outside world: grants are reassigned, faults armed, the route moved by
    something other than the gate. *)
Definition outside (t : Traffic) (grant : LeaseGrant) (gate_faults : gset string) (w : World)
    : World :=
  mkWorld (store w) t grant gate_faults (ticks w).

(** Any sequence of calls and outside events; a call may raise, be killed at any
    armed fault point, and be followed by anything. *)
Inductive reachable (clock : nat → Z) : World → Prop :=
  | reachable_fresh r g tg gf tf b f : reachable clock (fresh r g tg gf tf b f)
  | reachable_call c w : reachable clock w → reachable clock (run clock c w)
  | reachable_outside t g gf w : reachable clock w → reachable clock (outside t g gf w).
