(* ===== verification/GateInvariants.v ===== *)
(** * Invariants of the gate's durable store

    [gate_inv] describes a store every public method of [ReferenceExposureGate]
    leaves behind, whether it returns, raises or is killed at a fault point and
    whatever happens to the traffic between calls: the log replays to the
    durable state along [_ALLOWED], a candidate is opened at most once and only
    after an intent carrying a checked proof, and admissions name the generation
    and the fence that were being served.  [evolves] says what a call can never
    undo. *)

From S2P Require Import Prelude PyStd ExposureGate.

Local Open Scope string_scope.
Local Open Scope list_scope.

(** ** Hoare triples over the store *)

(** Triples over the durable store; the methods that never assign it. *)
Notation triple P m Q E := (triple_of (X := exn) store P m Q E).
Notation store_pure m := (keeps (X := exn) store m).

Section store_triples.
Context {E : Db → Prop}.

Lemma triple_pure {A} (P : Db → Prop) (m : op A) :
  store_pure m → (∀ d, P d → E d) → triple P m (λ _, P) E.
Proof. apply triple_keeps. Qed.

Lemma triple_transaction {A} P (m : op A) Q :
  triple P m Q (λ _, True) → (∀ d, P d → E d) → triple P (transaction m) Q E.
Proof.
  intros Hm HE w Hw. specialize (Hm w Hw). unfold transaction.
  destruct (m w) as [[a|e] w']; [done|]. by apply HE.
Qed.

Lemma triple_set_store (P : Db → Prop) f (Q : () → Db → Prop) :
  (∀ d, P d → Q tt (f d)) → triple P (set_store f) Q E.
Proof. intros HQ w Hw. by apply HQ. Qed.
End store_triples.

Section store_pure.
Lemma store_pure_set_traffic f : store_pure (set_traffic f).
Proof. done. Qed.
Lemma store_pure_suppress m : store_pure m → store_pure (suppress m).
Proof.
  intros Hm w. specialize (Hm w). unfold suppress, catch. by destruct (m w) as [[[]|] ?].
Qed.
Lemma store_pure_clock clock : store_pure (read_clock clock).
Proof. done. Qed.
Lemma store_pure_faults (f : World → gset string) :
  store_pure (modify (λ w, mkWorld (store w) (traffic w) (authority w) (f w) (ticks w)) : op ()).
Proof. done. Qed.
End store_pure.

Ltac solve_pure :=
  repeat first
    [ apply keeps_get | apply keeps_ret | apply keeps_raise
    | apply keeps_guard | apply keeps_lift | apply store_pure_set_traffic
    | apply store_pure_clock | apply store_pure_faults
    | apply keeps_attempt | apply store_pure_suppress
    | apply keeps_bind; [|intros ?]
    | progress case_match
    | progress (unfold _hit, traffic_hit, traffic_close, traffic_open, close_all, restore,
        query_route, set_route, restore_json, close_and_classify, restore_predecessor,
        check_open) ].

(** ** Facts about the log *)

Definition replay_step (s : GateState) (t : transition_row) : option GateState :=
  match to_state t with
  | None => Some s
  | Some s' => if decide (from_state t = Some s ∧ (s' = s ∨ s' ∈ _ALLOWED s))
               then Some s' else None
  end.

Definition replay (log : list transition_row) : option GateState :=
  foldl (λ o t, o ≫= λ s, replay_step s t) (Some PREDECESSOR_OPEN) log.

Definition open_receipt (t : transition_row) : Prop :=
  tr_kind t = "receipt" ∧ to_state t = Some CANDIDATE_OPEN ∧
  starts_with "open" (tr_operation t) = true.

#[export] Instance open_receipt_dec t : Decision (open_receipt t).
Proof. unfold open_receipt. apply _. Defined.

Definition open_receipts (log : list transition_row) : list transition_row :=
  filter open_receipt log.

Definition open_intent (t : transition_row) : Prop :=
  tr_kind t = "intent" ∧ tr_operation t = "open".

(** The identity of a staged candidate: what no later call changes. *)
Record identity : Type := mkIdentity {
  id_predecessor : Z; id_candidate : Z; id_digest : string; id_predecessor_digest : string;
  id_lease : LeaseGrant; id_candidate_json : json; id_predecessor_json : json;
}.

Definition identity_of (r : gate_row) : identity :=
  mkIdentity (predecessor_generation r) (candidate_generation r) (candidate_digest r)
    (predecessor_digest r) (lease_json r) (candidate_json r) (predecessor_json r).

Definition proof_checked (i : identity) (p : OpenProof) : Prop :=
  pf_generation p = id_candidate i ∧ pf_candidate_digest p = id_digest i ∧
  pf_lease p = id_lease i ∧ evidence_covered p = true.

(** An open intent carries the checked proof and a fence. *)
Definition intent_ok (i : identity) (t : transition_row) : Prop :=
  ∃ p, detail_json t = JObj (proof_detail p) ∧ proof_checked i p ∧
    ∃ f, tr_fence t = Some f ∧ f ≠ "".

(** The receipt records that the candidate's own snapshot was served. *)
Definition observes (i : identity) (t : transition_row) : Prop :=
  ∃ kv, detail_json t = JObj kv ∧
    assoc "observed_candidate_digest" kv = Some (JStr (id_digest i)).

(** A close receipt is cancelled or records the predecessor's own snapshot. *)
Definition close_recorded (i : identity) (operation kind : string) (kv : list (string * json))
    : Prop :=
  operation = "close" → kind = "receipt" →
  is_Some (assoc "cancelled" kv) ∨
  assoc "observed_predecessor_digest" kv = Some (JStr (id_predecessor_digest i)).

Lemma close_recorded_other i operation kind kv :
  operation ≠ "close" → close_recorded i operation kind kv.
Proof. by intros Hop ->. Qed.

Definition detail_ok (i : identity) (t : transition_row) : Prop :=
  ∃ kv, detail_json t = JObj kv ∧ close_recorded i (tr_operation t) (tr_kind t) kv.

Record log_ok (i : identity) (log : list transition_row) : Prop := {
  lo_seq : ∀ k t, log !! k = Some t → tr_seq t = (Z.of_nat k + 1)%Z;
  lo_generation : ∀ t, t ∈ log → tr_generation t = id_candidate i;
  lo_intents : ∀ t, t ∈ log → open_intent t →
    intent_ok i t;
  lo_once : (length (open_receipts log) ≤ 1)%nat;
  lo_backed : ∀ t, t ∈ open_receipts log →
    ∃ t', t' ∈ log ∧ open_intent t' ∧ (tr_seq t' < tr_seq t)%Z ∧ tr_fence t' = tr_fence t;
  lo_observed : ∀ t, t ∈ open_receipts log → observes i t;
  lo_detail : ∀ t, t ∈ log → detail_ok i t;
}.

Lemma next_seq_length i log : log_ok i log → next_seq log = (Z.of_nat (length log) + 1)%Z.
Proof.
  intros Hlog. unfold next_seq. destruct log as [|t log _] using rev_ind; [done|].
  rewrite last_snoc. simpl. rewrite (lo_seq _ _ Hlog (length log) t).
  - rewrite length_app. simpl. lia.
  - by apply list_lookup_middle.
Qed.

Lemma lo_seq_bound i log t : log_ok i log → t ∈ log → (1 ≤ tr_seq t ≤ Z.of_nat (length log))%Z.
Proof.
  intros Hlog [k Hk]%list_elem_of_lookup. rewrite (lo_seq _ _ Hlog _ _ Hk).
  apply lookup_lt_Some in Hk. lia.
Qed.

Lemma open_receipts_snoc log t :
  open_receipts (log ++ [t]) =
  if decide (open_receipt t) then open_receipts log ++ [t] else open_receipts log.
Proof.
  unfold open_receipts. rewrite filter_app, filter_cons, filter_nil.
  case_decide; [done|]. by rewrite app_nil_r.
Qed.

Lemma replay_snoc log t : replay (log ++ [t]) = replay log ≫= λ s, replay_step s t.
Proof. unfold replay. by rewrite foldl_app. Qed.

Lemma log_ok_snoc i log t :
  log_ok i log →
  tr_seq t = next_seq log → tr_generation t = id_candidate i →
  (open_intent t → intent_ok i t) →
  (open_receipt t → open_receipts log = [] ∧
     observes i t ∧ ∃ t', t' ∈ log ∧ open_intent t' ∧ tr_fence t' = tr_fence t) →
  detail_ok i t →
  log_ok i (log ++ [t]).
Proof.
  intros Hlog Hseq Hgen Hint Hrec Hdet.
  rewrite (next_seq_length _ _ Hlog) in Hseq.
  assert (∀ t', t' ∈ open_receipts (log ++ [t]) → t' ∈ open_receipts log ∨ (t' = t ∧ open_receipt t))
    as Hmem.
  { intros t' Ht'. rewrite open_receipts_snoc in Ht'. case_decide; [|by left].
    apply elem_of_app in Ht' as [?| ->%list_elem_of_singleton]; [by left|by right]. }
  split.
  - intros k t' [Hk|(Hk&Hk')]%lookup_app_Some; [by eapply lo_seq|].
    destruct (k - length log)%nat eqn:Hd; simplify_eq/=. rewrite Hseq. lia.
  - intros t' [?| ->%list_elem_of_singleton]%elem_of_app; [by eapply lo_generation|done].
  - intros t' [?| ->%list_elem_of_singleton]%elem_of_app; [by eapply lo_intents|done].
  - rewrite open_receipts_snoc. case_decide as Hr; [|by eapply lo_once].
    destruct (Hrec Hr) as [-> _]. simpl. lia.
  - intros t' [Hin|[-> Hr]]%Hmem.
    + destruct (lo_backed _ _ Hlog t' Hin) as (t''&?&?&?&?).
      exists t''. split_and!; try done. apply elem_of_app. by left.
    + destruct (Hrec Hr) as (_&_&t''&Hin&?&?). exists t''.
      split_and!; try done; [apply elem_of_app; by left|].
      apply (lo_seq_bound i) in Hin; [lia|done].
  - intros t' [Hin|[-> Hr]]%Hmem; [by eapply lo_observed|]. by apply Hrec.
  - intros t' [?| ->%list_elem_of_singleton]%elem_of_app; [by eapply lo_detail|done].
Qed.

(** ** The invariant *)

Definition unopened (s : GateState) : Prop :=
  s ∈ [PREDECESSOR_OPEN; CANDIDATE_STAGED; CANDIDATE_CLOSED; OPENING].
Definition serving (s : GateState) : Prop := s ∈ [CANDIDATE_OPEN; DRAINING].
Definition terminal (s : GateState) : Prop := s ∈ [ROLLED_BACK; FAILED_SAFE; SAFETY_UNKNOWN].

Lemma terminal_not_unopened s : terminal s → ¬ unopened s.
Proof.
  unfold terminal, unopened. rewrite !elem_of_cons, !elem_of_nil. naive_solver.
Qed.

Lemma terminal_not_serving s : terminal s → ¬ serving s.
Proof.
  unfold terminal, serving. rewrite !elem_of_cons, !elem_of_nil. naive_solver.
Qed.

Record row_ok (r : gate_row) (log : list transition_row) : Prop := {
  ro_schema : schema_version r = gate_schema_version;
  ro_generation : candidate_generation r = (predecessor_generation r + 1)%Z;
  ro_digest : candidate_digest r = _digest (candidate_json r);
  ro_predecessor : predecessor_digest r = _digest (predecessor_json r);
  ro_replay : replay log = Some (gs_state r);
  ro_seq : (0 ≤ gs_transition_seq r ≤ Z.of_nat (length log))%Z;
  ro_unopened : unopened (gs_state r) →
    open_receipts log = [] ∧ route_generation r = Some (predecessor_generation r) ∧
    route_fence r = predecessor_fence (predecessor_generation r);
  ro_serving : serving (gs_state r) →
    route_generation r = Some (candidate_generation r) ∧
    observed_candidate_digest r = Some (candidate_digest r) ∧
    ∃ t, t ∈ open_receipts log ∧ tr_fence t = Some (route_fence r) ∧
      (tr_seq t ≤ gs_transition_seq r)%Z;
}.

(** An admission names the generation and the fence that were being served. *)
Definition admission_routed (i : identity) (log : list transition_row) (a : admission_row)
    : Prop :=
  (chosen_generation a = id_predecessor i ∧
   route_epoch a = predecessor_fence (id_predecessor i) ∧
   ∀ t, t ∈ open_receipts log → (ad_transition_seq a < tr_seq t)%Z) ∨
  (chosen_generation a = id_candidate i ∧
   ∃ t, t ∈ open_receipts log ∧ tr_fence t = Some (route_epoch a) ∧
     (tr_seq t ≤ ad_transition_seq a)%Z).

Definition finish_ok (a : admission_row) : Prop :=
  match finished_at a with
  | None => ad_result a = None ∧ ad_abort a = None
  | Some f => (admitted_at a ≤ f)%Z ∧ ¬ (is_Some (ad_result a) ↔ is_Some (ad_abort a))
  end.

Record admission_ok (i : identity) (log : list transition_row) (a : admission_row) : Prop := {
  ao_routed : admission_routed i log a;
  ao_seq : (ad_transition_seq a ≤ Z.of_nat (length log))%Z;
  ao_finish : finish_ok a;
}.

Definition event_of (a : admission_row) (e : event_row) : Prop :=
  ev_request_id e = ad_request_id a ∧ ev_generation e = chosen_generation a ∧
  ev_epoch e = route_epoch a ∧ ev_transition_seq e = ad_transition_seq a.

Record staged_ok (r : gate_row) (d : Db) : Prop := {
  so_row : row_ok r (gate_transition d);
  so_log : log_ok (identity_of r) (gate_transition d);
  so_admissions : Forall (admission_ok (identity_of r) (gate_transition d)) (admission d);
  so_requests : NoDup (ad_request_id <$> admission d);
  so_events : ∀ e, e ∈ admission_event d → ∃ a, a ∈ admission d ∧ event_of a e;
}.

Definition gate_inv (d : Db) : Prop :=
  match gate_state d with
  | None => d = empty_db
  | Some r => staged_ok r d
  end.

(** ** What no call undoes *)

(** [a'] is the admission [a], possibly finished since. *)
Definition continues (a a' : admission_row) : Prop :=
  ad_request_id a' = ad_request_id a ∧ route_epoch a' = route_epoch a ∧
  chosen_generation a' = chosen_generation a ∧ admitted_at a' = admitted_at a ∧
  ad_transition_seq a' = ad_transition_seq a ∧ (is_Some (finished_at a) → a' = a).

Record evolves (d d' : Db) : Prop := {
  ev_log : gate_transition d `prefix_of` gate_transition d';
  ev_events : admission_event d `prefix_of` admission_event d';
  ev_row : ∀ r, gate_state d = Some r →
    ∃ r', gate_state d' = Some r' ∧ identity_of r' = identity_of r;
  ev_admissions : ∀ a, a ∈ admission d → ∃ a', a' ∈ admission d' ∧ continues a a';
}.

Lemma continues_refl a : continues a a.
Proof. by split_and!. Qed.

Lemma continues_trans a b c : continues a b → continues b c → continues a c.
Proof.
  intros (?&?&?&?&?&Hab) (?&?&?&?&?&Hbc). split_and!; try congruence.
  intros Hf. pose proof (Hab Hf) as ->. by apply Hbc.
Qed.

#[export] Instance evolves_preorder : PreOrder evolves.
Proof.
  split.
  - intros d. split; [done|done|eauto|]. intros a Ha. exists a. by auto using continues_refl.
  - intros d1 d2 d3 [L1 E1 R1 A1] [L2 E2 R2 A2]. split; [by etrans|by etrans| |].
    + intros r Hr. destruct (R1 r Hr) as (r2&Hr2&Hi2). destruct (R2 r2 Hr2) as (r3&?&?).
      exists r3. split; [done|congruence].
    + intros a Ha. destruct (A1 a Ha) as (a2&Ha2&?). destruct (A2 a2 Ha2) as (a3&?&?).
      exists a3. eauto using continues_trans.
Qed.

(** ** The two ways the log grows *)

Definition moved (d : Db) (r : gate_row) (t : transition_row) : Db :=
  mkDb (Some r) (gate_transition d ++ [t]) (admission d) (admission_event d).

Lemma set_row_moved f d r t : set_row f (moved d r t) = moved d (f r) t.
Proof. done. Qed.

Lemma open_receipts_mono log t t' :
  t ∈ open_receipts log → t ∈ open_receipts (log ++ [t']).
Proof.
  intros Ht. rewrite open_receipts_snoc. case_decide; [|done]. apply elem_of_app. by left.
Qed.

Lemma admission_ok_snoc i log t a :
  log_ok i log → tr_seq t = next_seq log → admission_ok i log a → admission_ok i (log ++ [t]) a.
Proof.
  intros Hlog Hseq [Hr Hs Hf]. rewrite (next_seq_length _ _ Hlog) in Hseq.
  split; [|rewrite length_app; simpl; lia|done].
  destruct Hr as [(Hg&He&Hall)|(Hg&t'&Ht'&?&?)]; [left|right].
  - split_and!; [done..|]. intros t' Ht'. rewrite open_receipts_snoc in Ht'.
    case_decide; [|by apply Hall].
    apply elem_of_app in Ht' as [?| ->%list_elem_of_singleton]; [by apply Hall|lia].
  - split; [done|]. exists t'. split_and!; try done. by apply open_receipts_mono.
Qed.

Lemma moved_ok d r r' t :
  staged_ok r d → identity_of r' = identity_of r →
  tr_seq t = next_seq (gate_transition d) → tr_generation t = candidate_generation r →
  (open_intent t → intent_ok (identity_of r) t) →
  (open_receipt t → open_receipts (gate_transition d) = [] ∧ observes (identity_of r) t ∧
     ∃ t', t' ∈ gate_transition d ∧ open_intent t' ∧ tr_fence t' = tr_fence t) →
  detail_ok (identity_of r) t →
  row_ok r' (gate_transition d ++ [t]) →
  staged_ok r' (moved d r' t).
Proof.
  intros [Hrow Hlog Hads Hreq Hev] Hid Hseq Hgen Hint Hrec Hdet Hrow'.
  split; rewrite ?Hid; cbn [moved gate_transition admission admission_event]; [done| | |done|done].
  - by apply log_ok_snoc.
  - eapply Forall_impl; [exact Hads|]. intros a. by apply admission_ok_snoc.
Qed.

(** A row that only records: the state stays. *)
Lemma row_ok_record r log t :
  row_ok r log → to_state t = None → row_ok r (log ++ [t]).
Proof.
  intros [H1 H2 H3 H4 Hrep Hseq Hun Hserv] Hto.
  assert (open_receipts (log ++ [t]) = open_receipts log) as Hopen.
  { rewrite open_receipts_snoc. case_decide as Ho; [|done].
    destruct Ho as (_&Ho&_). congruence. }
  split; rewrite ?Hopen; try done.
  - rewrite replay_snoc, Hrep. simpl. unfold replay_step. by rewrite Hto.
  - rewrite length_app. simpl. lia.
Qed.

(** A row that moves the state. *)
Lemma row_ok_move i r r' log t :
  row_ok r log → log_ok i log → tr_seq t = next_seq log →
  from_state t = Some (gs_state r) → to_state t = Some (gs_state r') →
  gs_state r' = gs_state r ∨ gs_state r' ∈ _ALLOWED (gs_state r) →
  identity_of r' = identity_of r → schema_version r' = schema_version r →
  gs_transition_seq r' = tr_seq t →
  (unopened (gs_state r') → ¬ open_receipt t ∧ unopened (gs_state r) ∧
     route_generation r' = route_generation r ∧ route_fence r' = route_fence r) →
  (serving (gs_state r') →
     (serving (gs_state r) ∧ route_generation r' = route_generation r ∧
      route_fence r' = route_fence r ∧
      observed_candidate_digest r' = observed_candidate_digest r) ∨
     (open_receipt t ∧ tr_fence t = Some (route_fence r') ∧
      route_generation r' = Some (candidate_generation r') ∧
      observed_candidate_digest r' = Some (candidate_digest r'))) →
  row_ok r' (log ++ [t]).
Proof.
  intros [H1 H2 H3 H4 Hrep Hseq Hun Hserv] Hlog Hnext Hfrom Hto Hmove Hid Hsch Htseq Hun' Hserv'.
  unfold identity_of in Hid. injection Hid as Hp Hc Hd Hpd Hl Hcj Hpj.
  pose proof (next_seq_length _ _ Hlog) as Hlen. split.
  - by rewrite Hsch.
  - by rewrite Hc, Hp.
  - by rewrite Hd, Hcj.
  - by rewrite Hpd, Hpj.
  - rewrite replay_snoc, Hrep. simpl. unfold replay_step. rewrite Hto, Hfrom.
    by rewrite decide_True.
  - rewrite length_app. simpl. lia.
  - intros Hu. destruct (Hun' Hu) as (Hno&Hu0&Hg&Hf). destruct (Hun Hu0) as (?&?&?).
    rewrite open_receipts_snoc, decide_False by done. split_and!; congruence.
  - intros Hs. destruct (Hserv' Hs) as [(Hs0&Hg&Hf&Ho)|(Hr&Hfence&Hg&Ho)].
    + destruct (Hserv Hs0) as (?&?&t0&Ht0&?&?). split_and!; [congruence..|].
      exists t0. split_and!; [by apply open_receipts_mono|congruence|].
      pose proof (lo_seq_bound i log t0 Hlog) as Hb.
      apply list_elem_of_filter in Ht0 as [_ Ht0]. specialize (Hb Ht0). lia.
    + split_and!; [done..|]. exists t. split_and!; [|done|lia].
      rewrite open_receipts_snoc, decide_True by done.
      apply elem_of_app. right. by apply list_elem_of_singleton.
Qed.

Lemma evolves_moved d r r' t :
  gate_state d = Some r → identity_of r' = identity_of r → evolves d (moved d r' t).
Proof.
  intros Hr Hid. split; cbn [moved gate_state gate_transition admission admission_event].
  - by apply prefix_app_r.
  - done.
  - intros r0 Hr0. exists r'. split; [done|congruence].
  - intros a Ha. exists a. by auto using continues_refl.
Qed.

(** ** The invariant is kept by every method *)

Section preservation.
Context (clock : nat → Z) (D0 : Db).

Definition Inv (d : Db) : Prop := gate_inv d ∧ evolves D0 d.
Definition at_row (r : gate_row) (d : Db) : Prop :=
  staged_ok r d ∧ evolves D0 d ∧ gate_state d = Some r.

Lemma at_row_Inv r d : at_row r d → Inv d.
Proof. intros (Hs&He&Hr). split; [|done]. unfold gate_inv. by rewrite Hr. Qed.

Lemma Inv_at_row r d : Inv d → gate_state d = Some r → at_row r d.
Proof. intros [Hi He] Hr. unfold gate_inv in Hi. rewrite Hr in Hi. by split_and!. Qed.

Hint Resolve at_row_Inv : core.

Lemma store_pure_row : store_pure _row.
Proof. unfold _row. solve_pure. Qed.

Lemma row_triple : triple Inv _row at_row Inv.
Proof.
  apply triple_get. intros w0.
  destruct (gate_state (store w0)) as [r|] eqn:Hr; [|apply triple_raise; by intros d [_ ?]].
  eapply triple_bind; [apply triple_guard; by intros d [_ ?]|intros u].
  apply triple_ret. intros d [[-> HI] _]. by apply Inv_at_row.
Qed.

(** The row a method read is the row of the store it started in. *)
Lemma get_triple {B} r (f : World → op B) Q E :
  (∀ w0, gate_state (store w0) = Some r → at_row r (store w0) → triple (at_row r) (f w0) Q E) →
  triple (at_row r) (get ≫= f) Q E.
Proof.
  intros Hf. apply triple_get. intros w0 w [Hw Hat].
  rewrite Hw in Hat. apply (Hf w0); [apply Hat|done|]. by rewrite Hw.
Qed.

Lemma pure_triple {A} r (m : op A) : store_pure m → triple (at_row r) m (λ _, at_row r) Inv.
Proof. intros Hm. apply triple_pure; eauto. Qed.

Lemma append_triple r g kind operation from fence detail id E :
  g = candidate_generation r → ¬ (kind = "intent" ∧ operation = "open") →
  close_recorded (identity_of r) operation kind detail →
  triple (at_row r) (_append clock g kind operation from None fence detail id)
    (λ _, at_row r) E.
Proof.
  intros -> Hno Hclose w (Hok&Hev&Hr).
  set (d := store w) in *.
  assert (∀ cid, let t := mkTransition (next_seq (gate_transition d)) (candidate_generation r)
      kind operation cid from None fence (clock (ticks w)) (JObj detail) in
    at_row r (mkDb (gate_state d) (gate_transition d ++ [t]) (admission d) (admission_event d)))
    as Hat.
  { intros cid t. rewrite Hr. fold (moved d r t). split_and!; [| |done].
    - eapply moved_ok; try done.
      + by intros (_&?&_).
      + by exists detail.
      + apply row_ok_record; [apply Hok|done].
    - etrans; [exact Hev|]. by eapply evolves_moved. }
  apply Hat.
Qed.

Definition moved_row (g : Z) (tgt : GateState) (operation kind : string)
    (detail : list (string * json)) (fence : option string) (r : gate_row) (d : Db)
    (cid : string) (at_ : Z) : transition_row :=
  mkTransition (next_seq (gate_transition d)) g kind operation cid (Some (gs_state r))
    (Some tgt) fence at_ (JObj detail).

Lemma transition_triple P r g tgt operation kind detail fence id :
  (∀ d, P d → at_row r d) →
  triple P (_transition clock g tgt operation kind detail fence id)
    (λ seq d', ∃ d cid at_, P d ∧ seq = next_seq (gate_transition d) ∧
       d' = moved d (with_state tgt seq r)
              (moved_row g tgt operation kind detail fence r d cid at_) ∧
       (tgt = gs_state r ∨ tgt ∈ _ALLOWED (gs_state r)))
    (λ _, True).
Proof.
  intros HP w HPw. pose proof (HP _ HPw) as (Hok&Hev&Hr).
  unfold _transition, _row. unfold_method. rewrite Hr.
  rewrite (ro_schema _ _ (so_row _ _ Hok)).
  change (negb (gate_schema_version =? gate_schema_version)%Z) with false.
  unfold_method. cbv beta iota.
  destruct (negb (bool_decide (tgt = gs_state r)) && negb (bool_decide (tgt ∈ _ALLOWED (gs_state r))))
    eqn:Hg; cbv beta iota; [exact I|].
  unfold _append, read_clock, set_store, update_state. unfold_method.
  cbn [store gate_state gate_transition]. rewrite Hr, Z.eqb_refl.
  cbn [negb Z.eqb Pos.eqb store set_row fmap option_fmap option_map gate_state gate_transition
       admission admission_event].
  exists (store w). eexists _, _. split_and!; [done|done|..].
  - unfold moved, moved_row. by rewrite ?Hr.
  - apply andb_false_iff in Hg as [Hg|Hg]; apply negb_false_iff, bool_decide_eq_true in Hg; auto.
Qed.

(** The obligations of a row [t] that moves the gate row from [r] to [r']. *)
Record lawful (r r' : gate_row) (log : list transition_row) (t : transition_row) : Prop := {
  lw_identity : identity_of r' = identity_of r;
  lw_schema : schema_version r' = schema_version r;
  lw_seq : gs_transition_seq r' = tr_seq t;
  lw_intent : open_intent t → intent_ok (identity_of r) t;
  lw_receipt : open_receipt t → open_receipts log = [] ∧ observes (identity_of r) t ∧
    ∃ t', t' ∈ log ∧ open_intent t' ∧ tr_fence t' = tr_fence t;
  lw_detail : detail_ok (identity_of r) t;
  lw_unopened : unopened (gs_state r') → ¬ open_receipt t ∧ unopened (gs_state r) ∧
    route_generation r' = route_generation r ∧ route_fence r' = route_fence r;
  lw_serving : serving (gs_state r') →
    (serving (gs_state r) ∧ route_generation r' = route_generation r ∧
     route_fence r' = route_fence r ∧
     observed_candidate_digest r' = observed_candidate_digest r) ∨
    (open_receipt t ∧ tr_fence t = Some (route_fence r') ∧
     route_generation r' = Some (candidate_generation r') ∧
     observed_candidate_digest r' = Some (candidate_digest r'));
}.

Lemma at_row_moved r r' d g tgt operation kind detail fence cid at_ :
  at_row r d → g = candidate_generation r →
  let t := moved_row g tgt operation kind detail fence r d cid at_ in
  gs_state r' = tgt → tgt = gs_state r ∨ tgt ∈ _ALLOWED (gs_state r) →
  lawful r r' (gate_transition d) t →
  at_row r' (moved d r' t).
Proof.
  intros (Hok&Hev&Hr) -> t Hst Hmove [? ? ? ? ? ? ? ?].
  split_and!; [| |done].
  - eapply moved_ok; try done. eapply row_ok_move; try done; try apply Hok.
    + cbn. by rewrite Hst.
    + by rewrite Hst.
  - etrans; [exact Hev|]. by eapply evolves_moved.
Qed.

Lemma bare_move_triple r g tgt operation kind detail fence id :
  g = candidate_generation r →
  (∀ d cid at_, at_row r d → tgt = gs_state r ∨ tgt ∈ _ALLOWED (gs_state r) →
     lawful r (with_state tgt (next_seq (gate_transition d)) r) (gate_transition d)
       (moved_row g tgt operation kind detail fence r d cid at_)) →
  triple (at_row r) (_transition clock g tgt operation kind detail fence id)
    (λ seq, at_row (with_state tgt seq r)) (λ _, True).
Proof.
  intros Hg Hlaw. eapply triple_weaken; [by apply (transition_triple (at_row r))|].
  intros seq d' (d&cid&at_&Hat&->&->&Hmove). by eapply at_row_moved; eauto.
Qed.

Lemma move_triple P r g tgt operation kind detail fence id (upd : Z → gate_row → gate_row) :
  (∀ d, P d → at_row r d) →
  g = candidate_generation r →
  (∀ seq, gs_state (upd seq (with_state tgt seq r)) = tgt) →
  (∀ d cid at_, P d → tgt = gs_state r ∨ tgt ∈ _ALLOWED (gs_state r) →
     let seq := next_seq (gate_transition d) in
     lawful r (upd seq (with_state tgt seq r)) (gate_transition d)
       (moved_row g tgt operation kind detail fence r d cid at_)) →
  triple P
    (seq ← _transition clock g tgt operation kind detail fence id;
     set_store (set_row (upd seq)))
    (λ _ d', ∃ d seq cid at_, P d ∧
       at_row (upd seq (with_state tgt seq r)) d' ∧
       moved_row g tgt operation kind detail fence r d cid at_ ∈ gate_transition d')
    (λ _, True).
Proof.
  intros HP Hg Hst Hlaw. eapply triple_bind; [by apply transition_triple|intros seq].
  apply triple_set_store. intros d' (d&cid&at_&HPd&->&->&Hmove).
  rewrite set_row_moved. exists d. eexists _, cid, at_. split_and!; [done| |].
  - eapply at_row_moved; eauto.
  - cbn. apply elem_of_app. right. by apply list_elem_of_singleton.
Qed.

Lemma lawful_final r r' d g tgt operation kind detail fence cid at_ :
  terminal tgt → kind = "receipt" → operation ≠ "close" → identity_of r' = identity_of r →
  schema_version r' = schema_version r → gs_state r' = tgt →
  gs_transition_seq r' = next_seq (gate_transition d) →
  lawful r r' (gate_transition d) (moved_row g tgt operation kind detail fence r d cid at_).
Proof.
  intros Ht -> Hop Hid Hsch Hst Hseq.
  split; try done.
  - by intros [? _].
  - intros (_&Ho&_). simpl in Ho. injection Ho as Ho. exfalso.
    apply (terminal_not_serving tgt Ht). rewrite Ho. in_list.
  - exists detail. split; [done|]. by apply close_recorded_other.
  - rewrite Hst. intros Hu. by destruct (terminal_not_unopened tgt).
  - rewrite Hst. intros Hu. by destruct (terminal_not_serving tgt).
Qed.

(** Closing down: a terminal target, then the route columns. *)
Lemma final_triple r g tgt operation detail fence id f :
  g = candidate_generation r → terminal tgt → operation ≠ "close" →
  (∀ r0, identity_of (f r0) = identity_of r0 ∧ schema_version (f r0) = schema_version r0 ∧
         gs_state (f r0) = gs_state r0 ∧ gs_transition_seq (f r0) = gs_transition_seq r0) →
  triple (at_row r)
    (transaction (_ ← _transition clock g tgt operation "receipt" detail fence id;
                  set_store (set_row f)))
    (λ _ d, ∃ seq, at_row (f (with_state tgt seq r)) d) Inv.
Proof.
  intros Hg Ht Hop Hf. apply triple_transaction; [|eauto].
  eapply triple_weaken.
  1: apply (move_triple (at_row r) r g tgt operation "receipt" detail fence id (λ _, f));
       [done|done| |].
  - intros seq. destruct (Hf (with_state tgt seq r)) as (_&_&->&_). done.
  - intros d cid at_ Hat Hmove. destruct (Hf (with_state tgt (next_seq (gate_transition d)) r))
      as (?&?&?&?). by apply lawful_final.
  - intros [] d' (d&seq&_&_&_&Hat&_). eauto.
Qed.

Lemma bare_final_triple r g tgt operation detail fence id :
  g = candidate_generation r → terminal tgt → operation ≠ "close" →
  triple (at_row r) (_transition clock g tgt operation "receipt" detail fence id)
    (λ seq, at_row (with_state tgt seq r)) (λ _, True).
Proof. intros Hg Ht Hop. apply bare_move_triple; [done|]. intros. by apply lawful_final. Qed.

Lemma fail_target_terminal closed : terminal (fail_target closed).
Proof. unfold terminal, fail_target. destruct closed; in_list. Qed.

Lemma rollback_target_terminal c : terminal (rollback_target c).
Proof. unfold terminal. destruct c; in_list. Qed.

Lemma guard_triple r b e : triple (at_row r) (guard_raise b e) (λ _ d, at_row r d ∧ b = false) Inv.
Proof. apply triple_guard. eauto. Qed.

Lemma current_triple {B} r b g e (f : () → op B) Q :
  b = negb (candidate_generation r =? g)%Z →
  (g = candidate_generation r → triple (at_row r) (f tt) Q Inv) →
  triple (at_row r) (guard_raise b e ≫= f) Q Inv.
Proof.
  intros -> Hf. eapply triple_bind; [apply guard_triple|intros []].
  eapply triple_fact; [by intros d [_ ?]|]. intros Hb. bool_inv.
  eapply triple_conseq; [by apply Hf|by intros d [? _]|done].
Qed.

Lemma recorded_triple {B} r g kind operation from fence detail id (f : Z → op B) Q :
  g = candidate_generation r → ¬ (kind = "intent" ∧ operation = "open") →
  close_recorded (identity_of r) operation kind detail →
  (∀ seq, triple (at_row r) (f seq) Q Inv) →
  triple (at_row r)
    (transaction (_append clock g kind operation from None fence detail id) ≫= f) Q Inv.
Proof.
  intros Hg Hno Hclose Hf. eapply triple_bind; [|exact Hf].
  apply triple_transaction; [|eauto]. by apply append_triple.
Qed.

Lemma pure_bind_triple {A B} r (m : op A) (f : A → op B) Q :
  store_pure m → (∀ a, triple (at_row r) (f a) Q Inv) → triple (at_row r) (m ≫= f) Q Inv.
Proof. intros Hm Hf. eapply triple_bind; [by apply pure_triple|exact Hf]. Qed.

Ltac solve_close := solve [by intros ? ?|intros ? ?; left; by eexists].

(** One step at a time: the row, a guard, a recorded row, anything that leaves the store. *)
Ltac row_step :=
  first
    [ eapply current_triple; [reflexivity|intros ?]
    | apply recorded_triple; [done|by intros [? ?]|solve_close|intros ?]
    | apply pure_bind_triple; [solve [solve_pure]|intros ?] ].

Definition failed (res : FailCloseResult) (d : Db) : Prop :=
  ∃ r, at_row r d ∧
    gs_state r = fail_target (route_closed (fc_actual_route res)) ∧
    fc_classification res = fail_class (route_closed (fc_actual_route res)) ∧
    route_generation r = (fc_actual_route res ≫= rt_generation) ∧
    route_fence r = from_option rt_fence "unknown" (fc_actual_route res).

Lemma fail_close_triple g reason : triple Inv (fail_close clock g reason) failed Inv.
Proof.
  eapply triple_bind; [apply row_triple|intros r]. repeat row_step.
  eapply triple_bind.
  { apply final_triple; [done|apply fail_target_terminal|done|done]. }
  intros []. apply triple_ret. intros d [n Hat]. eexists. by split_and!.
Qed.

Lemma fail_close_raise_triple {A} r g reason e (Q : A → Db → Prop) :
  triple (at_row r) (_ ← fail_close clock g reason; raise e : op A) Q Inv.
Proof.
  eapply triple_bind.
  - eapply triple_conseq; [apply fail_close_triple|eauto|done].
  - intros res. apply triple_raise. intros d (r'&?&_). eauto.
Qed.

Lemma lawful_plain r r' d g tgt operation kind detail fence cid at_ :
  ¬ (kind = "intent" ∧ operation = "open") →
  starts_with "open" operation = false →
  close_recorded (identity_of r) operation kind detail →
  identity_of r' = identity_of r → schema_version r' = schema_version r →
  gs_state r' = tgt → gs_transition_seq r' = next_seq (gate_transition d) →
  (unopened tgt → unopened (gs_state r) ∧ route_generation r' = route_generation r ∧
     route_fence r' = route_fence r) →
  (serving tgt → serving (gs_state r) ∧ route_generation r' = route_generation r ∧
     route_fence r' = route_fence r ∧
     observed_candidate_digest r' = observed_candidate_digest r) →
  lawful r r' (gate_transition d) (moved_row g tgt operation kind detail fence r d cid at_).
Proof.
  intros Hno Hop Hclose Hid Hsch Hst Hseq Hun Hserv.
  set (t := moved_row g tgt operation kind detail fence r d cid at_).
  assert (¬ open_receipt t) as Hnr by (intros (_&_&Ho); simpl in Ho; congruence).
  split; try done.
  - by exists detail.
  - rewrite Hst. naive_solver.
  - rewrite Hst. naive_solver.
Qed.

(** The predecessors of the states that are entered by name. *)
Lemma to_staged s : CANDIDATE_STAGED = s ∨ CANDIDATE_STAGED ∈ _ALLOWED s → unopened s.
Proof. intros [<-|H]; [in_list|]. destruct s; try in_list; revert H; not_in_list. Qed.
Lemma to_closed s : CANDIDATE_CLOSED = s ∨ CANDIDATE_CLOSED ∈ _ALLOWED s → unopened s.
Proof. intros [<-|H]; [in_list|]. destruct s; try in_list; revert H; not_in_list. Qed.
Lemma to_opening s : OPENING = s ∨ OPENING ∈ _ALLOWED s → unopened s.
Proof. intros [<-|H]; [in_list|]. destruct s; try in_list; revert H; not_in_list. Qed.
Lemma to_draining s : DRAINING = s ∨ DRAINING ∈ _ALLOWED s → serving s.
Proof. intros [<-|H]; [in_list|]. destruct s; try in_list; revert H; not_in_list. Qed.

Lemma close_triple g : triple Inv (close clock g) (λ _, Inv) Inv.
Proof.
  eapply triple_bind; [apply row_triple|intros r]. unfold close. row_step.
  case_match; [apply triple_ret; eauto|].
  apply get_triple. intros w0 _ _.
  eapply (triple_bind _ _ _ (λ _, at_row r)).
  { case_match; [by apply triple_ret|].
    apply triple_transaction; [|eauto]. apply append_triple; [done|by intros [_ ?]|solve_close]. }
  intros _. repeat row_step. case_match.
  - row_step. apply fail_close_raise_triple.
  - apply triple_transaction; [|eauto]. eapply triple_weaken.
    + apply (move_triple (at_row r) r g CANDIDATE_CLOSED "close" "receipt" _ None _
               (λ _, with_observed_predecessor _)); [done|done|done|].
      intros d cid at_ Hat Hmove. apply lawful_plain; try done.
      * by intros [? _].
      * intros _ _. right. cbn. unfold predecessor_kept in *. bool_inv. by do 2 f_equal.
      * intros _. split_and!; [by apply to_closed|done|done].
      * intros Hs. exfalso. revert Hs. not_in_list.
    + intros [] d' (d&n&_&_&_&Hat&_). eauto.
Qed.

Lemma drain_triple g : triple Inv (drain clock g) (λ _, Inv) Inv.
Proof.
  eapply triple_bind; [apply row_triple|intros r]. unfold drain. row_step.
  eapply (triple_bind _ _ _ (λ _ d, ∃ r', at_row r' d ∧ gs_state r' = DRAINING ∧
            candidate_generation r' = g)).
  { case_bool_decide.
    - apply triple_ret. intros d Hat. by exists r.
    - eapply triple_weaken.
      + apply triple_transaction; [|eauto]. apply bare_move_triple; [done|].
        intros d cid at_ Hat Hmove. apply lawful_plain; try done.
        * by intros [_ ?].
        * intros Hu. exfalso. revert Hu. not_in_list.
        * intros _. split_and!; [by apply to_draining|done..].
      + intros seq d Hat. eexists. split_and!; [exact Hat|done|done]. }
  intros _. apply triple_get. intros w0.
  eapply triple_pre. intros d0 [_ (r'&Hat'&Hst&Hg)].
  apply (triple_strengthen _ (at_row r')); [|by intros d (->&_)].
  case_match; [apply triple_ret; eauto|].
  eapply triple_bind.
  - apply triple_transaction; [|eauto]. apply bare_move_triple; [done|].
    intros d cid at_ Hat Hmove. apply lawful_plain; try done.
    + by intros [_ ?].
    + intros Hu. exfalso. revert Hu. not_in_list.
    + intros _. split_and!; [|done..]. rewrite Hst. in_list.
  - intros seq. apply triple_ret. eauto.
Qed.

(** *** Admissions *)

Lemma Inv_at_row_Some d : Inv d → admission d ≠ [] → ∃ r, gate_state d = Some r.
Proof.
  intros [Hi _] Hne. unfold gate_inv in Hi. destruct (gate_state d) as [r|]; [eauto|].
  by rewrite Hi in Hne.
Qed.

Definition admission_of (request : AdmissionRequest) (actual : RouteState) (chosen : Z)
    (r : gate_row) : admission_row :=
  mkAdmission (request_id request) (rt_fence actual) chosen (rq_admitted_at request) None
    None None (gs_transition_seq r).

Lemma admitted_routed r d actual chosen request :
  at_row r d → admission_blocked (gs_state r) = false →
  rt_generation actual = Some chosen → unknown_route r actual = false →
  admission_ok (identity_of r) (gate_transition d) (admission_of request actual chosen r).
Proof.
  intros (Hok&_&_) Hblock Hgen Hroute.
  unfold unknown_route in Hroute. apply orb_false_iff in Hroute as [Hroute _]. bool_inv.
  destruct (so_row _ _ Hok) as [_ _ _ _ _ Hseq Hun Hserv].
  split; cbn; [|lia|done].
  assert (unopened (gs_state r) ∨ serving (gs_state r)) as [Hs|Hs].
  { unfold admission_blocked in Hblock. bool_inv.
    destruct (gs_state r); try (left; in_list); try (right; in_list); destruct Hblock; in_list. }
  - destruct (Hun Hs) as (Hopen&Hg&Hf). left. cbn. rewrite Hopen.
    split_and!; [congruence|congruence|]. by intros t ?%elem_of_nil.
  - destruct (Hserv Hs) as (Hg&_&t&Ht&Hf&Hle). right. cbn.
    split; [congruence|]. exists t. split_and!; [done|congruence|done].
Qed.

Lemma at_row_admit r d a kind at_ detail :
  at_row r d → admission_ok (identity_of r) (gate_transition d) a →
  ad_request_id a ∉ (ad_request_id <$> admission d) →
  at_row r (append_event (ad_request_id a) kind (chosen_generation a) (route_epoch a) at_
              (ad_transition_seq a) detail (add_admission a d)).
Proof.
  intros ([Hrow Hlog Hads Hreq Hev]&Hevo&Hr) Ha Hfresh. split_and!; [| |done].
  - split; cbn; [done|done| | |].
    + apply Forall_app. split; [done|by apply Forall_singleton].
    + rewrite fmap_app. apply NoDup_app. split; [done|]. split.
      * intros x Hx Hx'. cbn in Hx'. apply list_elem_of_singleton in Hx' as ->. done.
      * apply NoDup_singleton.
    + intros e [He| ->%list_elem_of_singleton]%elem_of_app.
      * destruct (Hev e He) as (a0&?&?). exists a0. split; [apply elem_of_app; by left|done].
      * exists a. split; [apply elem_of_app; right; by apply list_elem_of_singleton|done].
  - etrans; [exact Hevo|]. split; cbn; [done|by apply prefix_app_r|naive_solver|].
    intros a0 Ha0. exists a0. split; [apply elem_of_app; by left|apply continues_refl].
Qed.

Lemma admit_triple request d0 :
  Inv d0 → request_id request ∉ (ad_request_id <$> admission d0) →
  triple (λ d, d = d0) (admit_new clock request) (λ a d, Inv d ∧ a ∈ admission d) Inv.
Proof.
  intros HI Hfresh. unfold admit_new.
  assert (∀ d, d = d0 → Inv d) as HE by (by intros d ->).
  eapply (triple_bind _ _ _ (λ r d, d = d0 ∧ gate_state d0 = Some r)).
  { intros w Hw. pose proof (row_triple w) as Ht. pose proof (store_pure_row w) as Hp.
    rewrite Hw in Ht. specialize (Ht HI).
    destruct (_row w) as [[r|e] w'']; simpl in Hp; rewrite Hp, Hw in *; [|done].
    split; [done|]. apply Ht. }
  intros r. eapply triple_pre. intros d1 [-> Hr].
  pose proof (Inv_at_row _ _ HI Hr) as Hat.
  apply (triple_strengthen _ (λ d, d = d0)); [|by intros d [-> _]].
  eapply triple_bind; [by apply triple_guard|intros []].
  eapply (triple_fact _ _ _); [by intros d [_ Hb]; exact Hb|intros Hblock].
  apply (triple_strengthen _ (λ d, d = d0)); [|by intros d [-> _]].
  apply triple_get. intros w0.
  apply (triple_strengthen _ (λ d, d = d0)); [|by intros d [_ ->]].
  destruct (rt_generation (route (traffic w0))) as [chosen|] eqn:Hgen;
    [|by apply triple_raise].
  eapply triple_bind; [by apply triple_guard|intros []].
  apply (triple_strengthen _ (λ d, d = d0)); [|by intros d [-> _]].
  case_match.
  { apply (triple_strengthen _ (at_row r)); [|by intros d ->].
    apply fail_close_raise_triple. }
  eapply triple_bind; [by apply triple_guard|intros []].
  eapply (triple_fact _ _ _); [by intros d [_ Hb]; exact Hb|intros Hroute].
  apply (triple_strengthen _ (λ d, d = d0)); [|by intros d [-> _]].
  eapply triple_bind; [|intros ?; apply triple_ret; intros d Hd; exact Hd].
  apply triple_transaction; [|done].
  eapply (triple_bind _ _ _ (λ _ d, d = add_admission
            (admission_of request (route (traffic w0)) chosen r) d0));
    [apply triple_set_store; by intros d ->|].
  intros []. apply triple_set_store. intros d ->.
  pose proof (admitted_routed r d0 (route (traffic w0)) chosen request Hat Hblock Hgen Hroute)
    as Ha.
  split.
  - eapply at_row_Inv. by apply (at_row_admit r d0 (admission_of request _ chosen r)).
  - cbn. apply elem_of_app. right. by apply list_elem_of_singleton.
Qed.

Lemma finish_row_continues id res a :
  continues a (finish_row id res a).
Proof.
  unfold finish_row. case_decide as H; [|apply continues_refl].
  destruct H as [_ H]. split_and!; try done. intros Hf. rewrite H in Hf. by destruct Hf.
Qed.

Lemma finish_row_id id res a : ad_request_id (finish_row id res a) = ad_request_id a.
Proof. apply finish_row_continues. Qed.

Lemma at_row_finish r d a res id :
  at_row r d → a ∈ admission d → ad_request_id a = id →
  (admitted_at a ≤ rs_finished_at res)%Z →
  ¬ (is_Some (rs_result res) ↔ is_Some (rs_abort res)) →
  at_row r (append_event id "finish" (chosen_generation a) (route_epoch a)
              (rs_finished_at res) (ad_transition_seq a)
              (JObj [("result", jstr_opt (rs_result res)); ("abort", jstr_opt (rs_abort res))])
              (finish_admissions id res d)).
Proof.
  intros ([Hrow Hlog Hads Hreq Hev]&Hevo&Hr) Ha Hid Hle Hone. split_and!; [| |done].
  - split; cbn; [done|done| | |].
    + apply Forall_fmap, Forall_forall. intros b Hb. cbn.
      rewrite Forall_forall in Hads. pose proof (Hads b Hb) as [Hrt Hs Hf].
      unfold finish_row. case_decide as Hdec; [|by split].
      destruct Hdec as [Hb1 Hb2]. split; cbn; [done|done|]. split; [|done].
      assert (b = a) as ->; [|done].
      eapply NoDup_fmap_elem; [exact Hreq|done|done|congruence].
    + rewrite <-list_fmap_compose.
      rewrite (list_fmap_ext _ ad_request_id) by (intros; apply finish_row_id). done.
    + intros e [He| ->%list_elem_of_singleton]%elem_of_app.
      * destruct (Hev e He) as (b&Hb&He1&He2&He3&He4). exists (finish_row id res b).
        split; [by apply list_elem_of_fmap_2|].
        destruct (finish_row_continues id res b) as (C1&C2&C3&C4&C5&_).
        split_and!; congruence.
      * exists (finish_row id res a). split; [by apply list_elem_of_fmap_2|].
        destruct (finish_row_continues id res a) as (C1&C2&C3&C4&C5&_).
        split_and!; cbn; congruence.
  - etrans; [exact Hevo|]. split; cbn; [done|by apply prefix_app_r|naive_solver|].
    intros b Hb. exists (finish_row id res b). split; [by apply list_elem_of_fmap_2|].
    apply finish_row_continues.
Qed.

Lemma finish_triple a request res :
  ad_request_id a = request_id request →
  triple (λ d, Inv d ∧ a ∈ admission d) (finish a request res) (λ _, Inv) Inv.
Proof.
  intros Hid. unfold finish.
  eapply triple_bind; [apply triple_guard; by intros d [? _]|intros []].
  eapply triple_fact; [by intros d [_ Hb]; exact Hb|intros Hone].
  apply (triple_strengthen _ (λ d, Inv d ∧ a ∈ admission d)); [|by intros d [? _]].
  eapply triple_bind; [apply triple_guard; by intros d [? _]|intros []].
  eapply triple_fact; [by intros d [_ Hb]; exact Hb|intros Hle].
  apply (triple_strengthen _ (λ d, Inv d ∧ a ∈ admission d)); [|by intros d [? _]].
  eapply triple_bind; [apply triple_guard; by intros d [? _]|intros []].
  apply (triple_strengthen _ (λ d, Inv d ∧ a ∈ admission d)); [|by intros d [? _]].
  apply triple_transaction; [|by intros d [? _]].
  apply triple_get. intros w0.
  apply (triple_strengthen _ (λ d, Inv d ∧ a ∈ admission d)); [|by intros d [_ ?]].
  eapply triple_bind; [by apply triple_guard|intros []].
  apply (triple_strengthen _ (λ d, Inv d ∧ a ∈ admission d)); [|by intros d [? _]].
  eapply (triple_bind _ _ _ (λ _ d, ∃ d0, (Inv d0 ∧ a ∈ admission d0) ∧
            d = finish_admissions (request_id request) res d0)).
  { apply triple_set_store. eauto. }
  intros []. apply triple_set_store. intros d (d0&[HI Ha]&->).
  destruct (Inv_at_row_Some d0 HI) as [r Hr]; [by intros He; rewrite He in Ha; apply elem_of_nil in Ha|].
  eapply at_row_Inv, at_row_finish; [by apply Inv_at_row|done|done| |].
  - apply Z.ltb_ge in Hle. done.
  - by apply bool_decide_eq_false in Hone.
Qed.

Lemma find_admission_Some id rows a :
  find_admission id rows = Some a → a ∈ rows ∧ ad_request_id a = id.
Proof.
  unfold find_admission. intros H%head_Some_elem_of.
  apply list_elem_of_filter in H as [? ?]. done.
Qed.

Lemma find_admission_None id rows :
  find_admission id rows = None → id ∉ (ad_request_id <$> rows).
Proof.
  unfold find_admission. intros H (a&->&Ha)%list_elem_of_fmap.
  apply head_None in H. apply (not_elem_of_nil a). rewrite <-H.
  by apply list_elem_of_filter.
Qed.

Lemma admit_id clock' request w a w' :
  admit_new clock' request w = (Ok a, w') → ad_request_id a = request_id request.
Proof.
  unfold admit_new. intros H. apply bind_Ok in H as (r&w1&_&H).
  apply bind_Ok in H as (?&w2&_&H). apply bind_Ok in H as (w3&w4&_&H).
  destruct (rt_generation _); [|by apply mret_Ok in H || discriminate H].
  apply bind_Ok in H as (?&w5&_&H). case_match.
  - by apply bind_Ok in H as (?&?&_&?).
  - apply bind_Ok in H as (?&?&_&H). apply bind_Ok in H as (?&?&_&H).
    by apply mret_Ok in H as [-> _].
Qed.

Lemma observe_triple request res : triple Inv (observe clock request res) (λ _, Inv) Inv.
Proof.
  apply triple_get. intros w0.
  eapply (triple_bind _ _ _ (λ a d, (Inv d ∧ a ∈ admission d) ∧
            ad_request_id a = request_id request)).
  - destruct (find_admission _ _) as [a|] eqn:Hf.
    + apply triple_ret. intros d [-> HI]. by apply find_admission_Some in Hf as [? ?].
    + eapply triple_pre. intros d [-> HI]. apply find_admission_None in Hf.
      intros w [Hw _]. pose proof (admit_triple request (store w0) HI Hf w Hw) as Ht.
      destruct (admit_new clock request w) as [[a|e] w'] eqn:Ha; [|done].
      split; [done|]. by eapply admit_id.
  - intros a. eapply triple_fact; [by intros d [_ Hid]; exact Hid|intros Hid].
    apply (triple_strengthen _ (λ d, Inv d ∧ a ∈ admission d)); [|by intros d [? _]].
    eapply (triple_bind _ _ _ (λ _, Inv)).
    + destruct res as [res|]; [by apply finish_triple|]. apply triple_ret. by intros d [? _].
    + intros _. by apply triple_ret.
Qed.

(** *** Opening *)

Lemma check_open_Ok g proof r w u w' :
  check_open clock g proof r w = (Ok u, w') →
  g = candidate_generation r ∧ proof_checked (identity_of r) proof.
Proof.
  unfold check_open. intros H. method_inv. bool_inv.
  case_match; [|discriminate]. bool_inv. unfold proof_checked. cbn. split_and!; congruence.
Qed.

Lemma check_open_triple g proof r :
  triple (at_row r) (check_open clock g proof r)
    (λ _ d, at_row r d ∧ g = candidate_generation r ∧ proof_checked (identity_of r) proof) Inv.
Proof.
  intros w Hw. assert (store_pure (check_open clock g proof r)) as Hp by solve_pure.
  specialize (Hp w). destruct (check_open clock g proof r w) as [[u|e] w'] eqn:Hc;
    simpl in Hp; rewrite Hp; [|eauto].
  apply check_open_Ok in Hc as [? ?]. by split_and!.
Qed.

(** The open intent of this fence is on record. *)
Definition intended (r : gate_row) (fence : string) (d : Db) : Prop :=
  at_row r d ∧ ∃ t, t ∈ gate_transition d ∧ open_intent t ∧ tr_fence t = Some fence.

Lemma opened_triple r g operation detail fence observed id :
  g = candidate_generation r → gs_state r = OPENING →
  starts_with "open" operation = true →
  observed = candidate_digest r →
  assoc "observed_candidate_digest" detail = Some (JStr observed) →
  triple (intended r fence)
    (transaction (seq ← _transition clock g CANDIDATE_OPEN operation "receipt" detail
                          (Some fence) id;
                  set_store (set_row (with_opened g fence seq observed))))
    (λ _, Inv) Inv.
Proof.
  intros Hg Hst Hop Hobs Hdet. apply triple_transaction; [|intros d [? _]; eauto].
  eapply triple_weaken.
  - apply (move_triple _ r g CANDIDATE_OPEN operation "receipt" detail (Some fence) id
             (λ seq, with_opened g fence seq observed)); [by intros d [? _]|done|done|].
    intros d cid at_ [(Hok&_&_) (t&Ht&Hint&Hf)] Hmove seq.
    destruct (ro_unopened _ _ (so_row _ _ Hok)) as (Hnone&_&_); [rewrite Hst; in_list|].
    assert (open_receipt (moved_row g CANDIDATE_OPEN operation "receipt" detail (Some fence)
      r d cid at_)) as Hrec by (by split_and!).
    split; try done.
    + by intros [? _].
    + intros _. split_and!; [done| |by exists t]. exists detail. split; [done|].
      by rewrite Hdet, Hobs.
    + exists detail. split; [done|]. apply close_recorded_other. cbn. by intros ->.
    + intros Hu. exfalso. revert Hu. not_in_list.
    + intros _. right. split_and!; [done|done|by rewrite Hg|by rewrite Hobs].
  - intros [] d' (d&n&_&_&_&Hat&_). eauto.
Qed.

Lemma intended_pure {A B} r fence (m : op A) (f : A → op B) Q :
  store_pure m → (∀ a, triple (intended r fence) (f a) Q Inv) →
  triple (intended r fence) (m ≫= f) Q Inv.
Proof.
  intros Hm Hf. eapply triple_bind; [|exact Hf].
  apply triple_pure; [done|]. intros d [? _]. eauto.
Qed.

Lemma perform_open_triple g proof r :
  g = candidate_generation r → proof_checked (identity_of r) proof →
  triple (at_row r) (perform_open clock g proof r) (λ _, Inv) Inv.
Proof.
  intros Hg Hproof. unfold perform_open. set (fence := open_fence g proof r). row_step.
  eapply (triple_bind _ _ _ (λ _ d, ∃ seq,
    intended (with_proof (OpenProof_digest proof) (with_state OPENING seq r)) fence d)).
  { apply triple_transaction; [|eauto]. eapply triple_weaken.
    - apply (move_triple (at_row r) r g OPENING "open" "intent" _ _ _
               (λ _, with_proof (OpenProof_digest proof))); [done|done|done|].
      intros d cid at_ Hat Hmove seq. split; try done.
      + intros _. exists proof. split_and!; [done|done|]. by exists fence.
      + by intros (?&_&_).
      + by eexists.
      + intros _. split_and!; [by intros (?&_&_)|by apply to_opening|done|done].
      + intros Hu. exfalso. revert Hu. not_in_list.
    - intros [] d' (d&seq&cid&at_&_&Hat&Hin). exists seq. split; [done|].
      eexists. by split; [exact Hin|]. }
  intros []. eapply triple_pre. intros d0 [seq Hint0].
  apply (triple_strengthen _ (intended (with_proof (OpenProof_digest proof)
           (with_state OPENING seq r)) fence)); [|by intros d (->&_)].
  set (r1 := with_proof (OpenProof_digest proof) (with_state OPENING seq r)) in *.
  do 6 (apply intended_pure; [solve [solve_pure]|intros ?]).
  destruct (candidate_routed g fence (pf_candidate_digest proof) _) eqn:Hrouted; cbn [negb].
  - eapply triple_bind; [|intros ?; apply triple_ret; intros d Hd; exact Hd].
    unfold candidate_routed in Hrouted. bool_inv. destruct Hproof as (_&Hd&_&_).
    apply opened_triple; [done|done|done|etrans; [eassumption|exact Hd]|done].
  - apply (triple_strengthen _ (at_row r1)); [|by intros d [? _]].
    row_step. apply fail_close_raise_triple.
Qed.

Lemma open_triple g proof : triple Inv (open clock g proof) (λ _, Inv) Inv.
Proof.
  eapply triple_bind; [apply row_triple|intros r].
  eapply triple_bind; [apply check_open_triple|intros []].
  eapply triple_fact; [by intros d [_ H]; exact H|intros [Hg Hp]].
  apply (triple_strengthen _ (at_row r)); [|by intros d [? _]].
  destruct (gs_state r); try by apply perform_open_triple.
  - apply triple_raise. eauto.
  - row_step. apply triple_ret. eauto.
Qed.

(** *** Rollback *)

Lemma rollback_triple g o : triple Inv (rollback clock g o) (λ _, Inv) Inv.
Proof.
  eapply triple_bind; [apply row_triple|intros r]. unfold rollback. row_step.
  do 4 row_step.
  eapply triple_bind; [|intros ?; apply triple_ret; intros d Hd; exact Hd].
  apply triple_transaction; [|eauto]. apply get_triple. intros w0 _ _.
  eapply triple_weaken.
  - apply (move_triple (at_row r) r g (rollback_target _) "rollback" "receipt" _ None None
             (λ _, with_route (rt_generation _) (rt_fence _))); [done|done|done|].
    intros d cid at_ Hat Hmove n. apply lawful_final; try done.
    apply rollback_target_terminal.
  - intros [] d' (d&n&_&_&_&Hat&_). eauto.
Qed.

(** *** Reconciliation *)

Lemma proof_of_json_fields p dg :
  proof_of_json (JObj (OpenProof_fields p ++ [("proof_digest", JStr dg)])) = Ok (p, dg).
Proof. destruct p as [? ? ? ? ? [] ?]. reflexivity. Qed.

Lemma last_row_Some operation kind log t :
  last_row operation kind log = Some t →
  t ∈ log ∧ tr_operation t = operation ∧ tr_kind t = kind.
Proof.
  unfold last_row. intros H%last_Some_elem_of.
  apply list_elem_of_filter in H as [[? ?] ?]. done.
Qed.

Lemma reconcile_fail_close_triple r t :
  triple (at_row r) (reconcile_fail_close clock r t) (λ _, Inv) Inv.
Proof.
  unfold reconcile_fail_close. row_step. eapply triple_bind.
  - apply final_triple; [done|apply fail_target_terminal|done|done].
  - intros []. apply triple_ret. intros d [n Hat]. eauto.
Qed.

Lemma reconcile_rollback_triple r t :
  triple (at_row r) (reconcile_rollback clock r t) (λ _, Inv) Inv.
Proof.
  unfold reconcile_rollback. row_step.
  destruct (rollback_observed r (value_of a)) as [tgt c] eqn:Ho.
  assert (terminal tgt) as Ht.
  { unfold rollback_observed in Ho. repeat case_match; simplify_eq; unfold terminal; in_list. }
  eapply triple_bind.
  - apply triple_transaction; [|eauto]. by apply bare_final_triple.
  - intros n. apply triple_ret. eauto.
Qed.

Lemma reconcile_recovery_close_triple r t :
  triple (at_row r) (reconcile_recovery_close clock r t) (λ _, Inv) Inv.
Proof.
  unfold reconcile_recovery_close. do 5 row_step. apply get_triple. intros w0 _ _.
  eapply triple_bind; [|intros ?; apply triple_ret; intros d Hd; exact Hd].
  apply triple_transaction; [|eauto].
  eapply triple_bind; [apply append_triple; [done|by intros [? _]|solve_close]|intros n].
  case_match; [|by apply triple_raise].
  eapply triple_weaken; [apply bare_final_triple; [done|apply fail_target_terminal|done]|].
  intros n' d Hd. exact (at_row_Inv _ _ Hd).
Qed.

Lemma cancel_open_triple r g t reason :
  g = candidate_generation r →
  triple (at_row r) (cancel_open clock g t reason) (λ _, Inv) Inv.
Proof.
  intros Hg. unfold cancel_open. row_step. eapply triple_bind.
  - eapply triple_conseq; [apply fail_close_triple|eauto|done].
  - intros res. apply triple_ret. intros d (r'&?&_). eauto.
Qed.

Lemma close_unproven_triple r g t actual :
  g = candidate_generation r →
  triple (at_row r) (close_unproven clock g t actual) (λ _, Inv) Inv.
Proof.
  intros Hg. unfold close_unproven. repeat row_step.
  case_match; [by apply cancel_open_triple|].
  eapply triple_bind.
  - apply final_triple; [done|unfold terminal; in_list|done|done].
  - intros []. apply triple_ret. intros d [n Hat]. eauto.
Qed.

Lemma reconcile_opening_triple r :
  gs_state r = OPENING → triple (at_row r) (reconcile_opening clock r) (λ _, Inv) Inv.
Proof.
  intros Hst. unfold reconcile_opening. apply triple_get. intros w0.
  eapply triple_pre. intros d0 [-> Hat0].
  apply (triple_strengthen _ (λ d, d = store w0)); [|by intros d [-> _]].
  destruct (last_row "open" "intent" _) as [t|] eqn:Ht; [|apply triple_raise; intros d ->; eauto].
  apply last_row_Some in Ht as (Htin&Hop&Hkind).
  destruct (lo_intents _ _ (so_log _ _ (proj1 Hat0)) t Htin) as (p&Hdet&Hchecked&_); [done|].
  rewrite Hdet. unfold proof_detail. rewrite proof_of_json_fields.
  set (dg := OpenProof_digest p). clearbody dg.
  apply (triple_strengthen _ (λ d, at_row r d ∧ t ∈ gate_transition d));
    [|by intros d ->].
  assert (∀ d, at_row r d ∧ t ∈ gate_transition d → Inv d) as HE by (intros d [? _]; eauto).
  eapply (triple_bind _ _ _ (λ pd d, (at_row r d ∧ t ∈ gate_transition d) ∧ pd = (p, dg)));
    [by intros w Hw|intros pd].
  eapply triple_fact; [by intros d [_ H]; exact H|intros ->].
  apply (triple_strengthen _ (λ d, at_row r d ∧ t ∈ gate_transition d)); [|by intros d [? _]].
  eapply triple_bind; [apply triple_pure; [solve_pure|done]|intros stale].
  destruct stale; [apply (triple_strengthen _ (at_row r)); [|by intros d [? _]];
                   by apply cancel_open_triple|].
  eapply triple_bind; [apply triple_pure; [solve_pure|done]|intros [actual|e]];
    [|apply (triple_strengthen _ (at_row r)); [|by intros d [? _]]; by apply cancel_open_triple].
  case_match eqn:Hroute; [|apply (triple_strengthen _ (at_row r)); [|by intros d [? _]];
                           by apply close_unproven_triple].
  bool_inv. unfold accept_open.
  eapply triple_bind; [|intros ?; apply triple_ret; intros d Hd; exact Hd].
  apply (triple_strengthen _ (intended r (rt_fence actual))).
  - destruct Hchecked as (_&Hd&_).
    apply opened_triple; [done|done|done|etrans; [eassumption|exact Hd]|done].
  - intros d [? ?]. split; [done|]. exists t. by split_and!.
Qed.

Lemma reconcile_triple : triple Inv (reconcile clock) (λ _, Inv) Inv.
Proof.
  eapply triple_bind; [apply row_triple|intros r]. apply get_triple. intros w0 _ _.
  cbv beta zeta.
  destruct (pending_intent "fail_close" _); [apply reconcile_fail_close_triple|].
  destruct (pending_recovery_close _); [apply reconcile_recovery_close_triple|].
  destruct (pending_intent "rollback" _); [apply reconcile_rollback_triple|].
  case_bool_decide; [by apply reconcile_opening_triple|].
  apply triple_ret. eauto.
Qed.

(** *** Staging *)

Lemma stage_fresh_ok d candidate predecessor pg r lease :
  gate_state d = None → Inv d →
  rt_generation r = Some pg → rt_fence r = predecessor_fence pg →
  at_row (staged_row candidate predecessor pg r lease)
    (mkDb (Some (staged_row candidate predecessor pg r lease)) (gate_transition d)
       (admission d) (admission_event d)).
Proof.
  intros Hd [Hi He] Hg Hf. unfold gate_inv in Hi. rewrite Hd in Hi. subst d.
  split_and!; [| |done].
  - split; cbn; [|split|constructor|constructor|by intros e ?%elem_of_nil].
    + split; try done. intros Hs. exfalso. revert Hs. not_in_list.
    + done.
    + by intros t ?%elem_of_nil.
    + by intros t ?%elem_of_nil.
    + change (0 ≤ 1)%nat. lia.
    + by intros t ?%elem_of_nil.
    + by intros t ?%elem_of_nil.
    + by intros t ?%elem_of_nil.
  - etrans; [exact He|]. split; cbn; [done|done|done|by intros a ?%elem_of_nil].
Qed.

Lemma stage_triple candidate predecessor :
  triple Inv (stage clock candidate predecessor) (λ _, Inv) Inv.
Proof.
  unfold stage. eapply triple_bind; [apply triple_pure; [solve_pure|done]|intros pg].
  apply triple_get. intros w0.
  destruct (gate_state (store w0)) as [r|] eqn:Hr.
  { case_match; [apply triple_ret|apply triple_raise]; by intros d [_ ?]. }
  eapply triple_bind; [apply triple_guard; by intros d [_ ?]|intros []].
  eapply triple_fact; [by intros d [_ H]; exact H|intros Hcheck]. bool_inv.
  eapply triple_bind; [|intros ?; apply triple_ret; intros d Hd; exact Hd].
  apply triple_transaction; [|by intros d [[_ ?] _]].
  set (row := staged_row candidate predecessor pg (route (traffic w0)) (authority w0)).
  eapply (triple_bind _ _ _ (λ _, at_row row)).
  { apply triple_set_store. intros d [[-> HI] _]. by apply stage_fresh_ok. }
  intros []. eapply triple_weaken.
  - apply bare_move_triple; [done|]. intros d cid at_ Hat Hmove. apply lawful_plain; try done.
    + by intros [? _].
    + intros _. split_and!; [|done|done]. in_list.
    + intros Hs. exfalso. revert Hs. not_in_list.
  - intros n d Hd. exact (at_row_Inv _ _ Hd).
Qed.

Lemma perform_triple c : triple Inv (perform clock c) (λ _, Inv) Inv.
Proof.
  destruct c; cbn [perform]; try apply close_triple;
    (eapply triple_bind; [|intros ?; apply triple_ret; intros d Hd; exact Hd]).
  - apply stage_triple.
  - apply open_triple.
  - apply drain_triple.
  - apply observe_triple.
  - apply reconcile_triple.
  - apply rollback_triple.
  - eapply triple_weaken; [apply fail_close_triple|]. intros res d (r&Hat&_). eauto.
Qed.
End preservation.

(** ** Every reachable store *)

(** A staged gate has a log. *)
Definition begun (d : Db) : Prop := gate_state d ≠ None → gate_transition d ≠ [].

Lemma row_missing w : gate_state (store w) = None → ∃ e, _row w = (Raise e, w).
Proof. intros Hr. unfold _row. unfold_method. rewrite Hr. by eexists. Qed.

Lemma stage_begun clock candidate predecessor :
  triple (λ d, d = empty_db) (stage clock candidate predecessor) (λ _, begun) begun.
Proof.
  assert (∀ d, d = empty_db → begun d) as HE by (by intros d -> []).
  unfold stage. eapply triple_bind; [apply triple_pure; [solve_pure|done]|intros pg].
  apply triple_get. intros w0.
  destruct (gate_state (store w0)) as [r|] eqn:Hr.
  { case_match; [apply triple_ret|apply triple_raise]; intros d [_ ->]; by apply HE. }
  apply (triple_strengthen _ (λ d, d = empty_db)); [|by intros d [_ ->]].
  eapply triple_bind; [by apply triple_guard|intros []].
  eapply triple_fact; [by intros d [_ H]; exact H|intros Hcheck]. bool_inv.
  eapply triple_bind; [|intros ?; apply triple_ret; intros d Hd; exact Hd].
  apply triple_transaction; [|intros d [-> _]; by apply HE].
  set (row := staged_row candidate predecessor pg (route (traffic w0)) (authority w0)).
  eapply (triple_bind _ _ _ (λ _, at_row empty_db row)).
  { apply triple_set_store. intros d [-> _]. apply stage_fresh_ok; try done. }
  intros []. eapply triple_weaken; [by apply (transition_triple clock empty_db (at_row empty_db row))|].
  intros n d' (d&cid&at_&_&_&->&_) _. cbn. intros Hnil. by apply app_eq_nil in Hnil as [_ ?].
Qed.


Lemma run_inv clock c w :
  gate_inv (store w) → gate_inv (store (run clock c w)) ∧ evolves (store w) (store (run clock c w)).
Proof.
  intros Hi. unfold run, exec.
  pose proof (perform_triple clock (store w) c w) as Ht.
  destruct (perform clock c w) as [[u|e] w']; apply Ht; by split.
Qed.

Lemma run_begun clock c w :
  gate_inv (store w) → begun (store w) → begun (store (run clock c w)).
Proof.
  intros Hi Hb. destruct (gate_state (store w)) as [r|] eqn:Hr.
  - intros _. pose proof (run_inv clock c w Hi) as [_ [[l Hl] _ _ _]]. rewrite Hl.
    intros Hnil%app_eq_nil. apply Hb; [by rewrite Hr|apply Hnil].
  - destruct (row_missing w Hr) as [e He].
    assert (store w = empty_db) as Hempty by (unfold gate_inv in Hi; by rewrite Hr in Hi).
    destruct c as [candidate predecessor| | | |request res| | |].
    1: { unfold run, exec. pose proof (stage_begun clock candidate predecessor w Hempty) as Ht.
         cbn [perform]. unfold mbind, method_bind.
         by destruct (stage clock candidate predecessor w) as [[z|e'] w']. }
    all: enough (run clock _ w = w) as -> by done; unfold run, exec; cbn [perform];
      unfold close, open, drain, observe, reconcile, rollback, fail_close, get;
      unfold mbind, method_bind; cbv beta iota.
    4: rewrite Hempty; change (find_admission _ (admission empty_db)) with (@None admission_row);
       cbv beta iota; unfold admit_new, mbind, method_bind; cbv beta iota.
    all: by rewrite He.
Qed.

Lemma reachable_inv clock w : reachable clock w → gate_inv (store w).
Proof.
  induction 1 as [|c w _ IH|t g gf w _ IH]; [done| |done]. by apply run_inv.
Qed.

Lemma reachable_begun clock w : reachable clock w → begun (store w).
Proof.
  induction 1 as [|c w Hw IH|t g gf w _ IH]; [by intros []| |done].
  apply run_begun; [by eapply reachable_inv|done].
Qed.

Lemma reachable_staged clock w r :
  reachable clock w → gate_state (store w) = Some r → staged_ok r (store w).
Proof.
  intros Hw Hr. apply reachable_inv in Hw. unfold gate_inv in Hw. by rewrite Hr in Hw.
Qed.
