(* ===== verification/ExposureOracle.v ===== *)
(** * The independent trace oracle: [evaluate_trace] and [export_trace]

    [evaluate_trace] reads the raw rows of a gate store and lists what is wrong
    with them; it shares no code with the gate.  The theorems compare it with
    the gate: which of its complaints a reachable store can never draw, and
    which it draws although the gate allowed the move. *)

From S2P Require Import Prelude PyStd ExposureGate GateInvariants.

Local Open Scope string_scope.
Local Open Scope list_scope.

(** ** The replay of the transition rows *)

Definition oracle_allowed (s : GateState) : list GateState :=
  match s with
  | PREDECESSOR_OPEN => [CANDIDATE_STAGED; FAILED_SAFE; SAFETY_UNKNOWN]
  | CANDIDATE_STAGED => [CANDIDATE_CLOSED; ROLLED_BACK; FAILED_SAFE; SAFETY_UNKNOWN]
  | CANDIDATE_CLOSED => [OPENING; ROLLED_BACK; FAILED_SAFE; SAFETY_UNKNOWN]
  | OPENING => [CANDIDATE_OPEN; FAILED_SAFE; SAFETY_UNKNOWN]
  | CANDIDATE_OPEN => [DRAINING; ROLLED_BACK; FAILED_SAFE; SAFETY_UNKNOWN]
  | DRAINING => [CANDIDATE_OPEN]
  | ROLLED_BACK | FAILED_SAFE | SAFETY_UNKNOWN => []
  end.

Record Replay : Type := mkReplay {
  expected_seq : Z; replay_state : GateState; pending : list (string * Z);
  replay_errors : list string;
}.

Definition replay_init : Replay := mkReplay 1 PREDECESSOR_OPEN [] [].

Definition err_if (b : bool) (message : string) : list string := if b then [message] else [].

Definition od_pop (k : string) (d : list (string * Z)) : list (string * Z) :=
  filter (λ kv, kv.1 ≠ k) d.

(** The [intent] and [receipt] branches. *)
Definition pair_row (p : list (string * Z)) (t : transition_row)
    : list (string * Z) * list string :=
  let id := operation_id t in
  let known := bool_decide (is_Some (od_get id p)) in
  if bool_decide (tr_kind t = "intent") then
    (od_set id (tr_seq t) p, err_if known ("duplicate pending intent: " +:+ id))
  else if bool_decide (tr_kind t = "receipt") && negb (bool_decide (tr_operation t = "stage")) then
    (if known then (od_pop id p, []) else (p, ["receipt without intent: " +:+ id]))
  else (p, []).

Definition target_errors (s : GateState) (t : transition_row) : list string :=
  match to_state t with
  | Some tgt =>
      err_if (negb (bool_decide (tgt = s)) && negb (bool_decide (tgt ∈ oracle_allowed s)))
        ("unknown transition: " +:+ GateState_value s +:+ "->" +:+ GateState_value tgt)
  | None => []
  end.

Definition source_errors (s : GateState) (t : transition_row) : list string :=
  err_if (negb (bool_decide (from_state t = Some s)))
    ("transition source mismatch at " +:+ pretty (tr_seq t) +:+ ": " +:+
     from_option GateState_value "None" (from_state t) +:+ " != " +:+ GateState_value s).

Definition oracle_step (candidate : option Z) (st : Replay) (t : transition_row) : Replay :=
  let gap := negb (tr_seq t =? expected_seq st)%Z in
  let '(p, pair_errors) := pair_row (pending st) t in
  mkReplay
    ((if gap then tr_seq t else expected_seq st) + 1)
    (default (replay_state st) (to_state t)) p
    (replay_errors st ++
     err_if gap ("transition sequence gap at " +:+ pretty (expected_seq st)) ++
     source_errors (replay_state st) t ++ pair_errors ++
     target_errors (replay_state st) t ++
     err_if (match candidate with Some c => negb (tr_generation t =? c)%Z | None => false end)
       ("transition generation mismatch at " +:+ pretty (tr_seq t))).

(** ** The other checks *)

Definition is_open_receipt (t : transition_row) : bool :=
  bool_decide (tr_kind t = "receipt") && bool_decide (to_state t = Some CANDIDATE_OPEN) &&
  starts_with "open" (tr_operation t).

Definition detail_get (key : string) (v : json) : result exn json :=
  match v with JObj kv => Ok (json_get key kv) | _ => Raise TypeError end.

Definition check_open_detail (state : option gate_row) (t : transition_row)
    : result exn (list string) :=
  observed ← detail_get "observed_candidate_digest" (detail_json t);
  match state with
  | None => Raise TypeError
  | Some r => Ok (err_if (negb (json_eqb observed (JStr (candidate_digest r))))
                    "open receipt candidate snapshot mismatch")
  end.

Definition check_close_detail (state : option gate_row) (t : transition_row)
    : result exn (list string) :=
  match detail_json t with
  | JObj kv =>
      let observed := json_get "observed_predecessor_digest" kv in
      if bool_decide (is_Some (assoc "cancelled" kv)) || json_eqb observed JNull then Ok []
      else match state with
           | None => Raise TypeError
           | Some r => Ok (err_if (negb (json_eqb observed (JStr (predecessor_digest r))))
                             "close receipt predecessor snapshot mismatch")
           end
  | _ => Raise TypeError
  end.

Definition check_event (st : list (string * Z) * list string) (e : event_row)
    : list (string * Z) * list string :=
  let '(seen, errors) := st in
  match od_get (ev_request_id e) seen with
  | Some prior =>
      (seen, errors ++ err_if (negb (prior =? ev_generation e)%Z)
                         ("request " +:+ ev_request_id e +:+ " crossed generation"))
  | None => (od_set (ev_request_id e) (ev_generation e) seen, errors)
  end.

Definition eq_generation (g : option Z) (z : Z) : bool := bool_decide (g = Some z).

Definition predecessor_text (predecessor : option Z) : string :=
  match predecessor with Some p => predecessor_fence p | None => "fence-None" end.

Definition check_admission (candidate predecessor first_open : option Z)
    (open_fence : option string) (a : admission_row) : list string :=
  let id := ad_request_id a in
  let g := chosen_generation a in
  err_if (eq_generation candidate g &&
          match first_open with Some s => (ad_transition_seq a <? s)%Z | None => true end)
    ("candidate admitted before open: " +:+ id) ++
  err_if (eq_generation predecessor g &&
          match first_open with Some s => (s <=? ad_transition_seq a)%Z | None => false end)
    ("predecessor admitted after open: " +:+ id) ++
  err_if (negb (eq_generation candidate g) && negb (eq_generation predecessor g))
    ("unknown generation: " +:+ id) ++
  err_if (bool_decide (route_epoch a = "")) ("missing route fence: " +:+ id) ++
  err_if (eq_generation candidate g && negb (bool_decide (Some (route_epoch a) = open_fence)))
    ("candidate fence mismatch: " +:+ id) ++
  err_if (eq_generation predecessor g &&
          negb (bool_decide (route_epoch a = predecessor_text predecessor)))
    ("predecessor fence mismatch: " +:+ id).

Definition check_final (r : gate_row) (open_fence : option string) : list string :=
  err_if (bool_decide (gs_state r = CANDIDATE_OPEN) &&
          (negb (bool_decide (route_generation r = Some (candidate_generation r)))
           || negb (bool_decide (Some (route_fence r) = open_fence))
           || negb (bool_decide (observed_candidate_digest r = Some (candidate_digest r)))))
    "final route observation does not match open receipt".

Record Verdict : Type := mkVerdict {
  verdict : string; errors : list string;
  transition_count : option Z; admission_count : option Z;
  verdict_candidate : option Z; verdict_predecessor : option Z;
  first_candidate_open_seq : option Z;
}.

(** [len(rows) if rows else None] *)
Definition count {A} (rows : list A) : option Z :=
  match rows with [] => None | _ => Some (Z.of_nat (length rows)) end.

Definition replay_all (candidate : option Z) (log : list transition_row) : Replay :=
  foldl (oracle_step candidate) replay_init log.

(** The errors of the transition rows, in the order the oracle reports them. *)
Definition transition_errors (state : option gate_row) (log opens : list transition_row)
    : list string :=
  let candidate := candidate_generation <$> state in
  let st := replay_all candidate log in
  err_if (bool_decide (state = None ∨ log = [])) "missing gate state or transitions" ++
  replay_errors st ++
  err_if (negb (bool_decide (pending st = [])))
    ("unpaired intents: [" +:+
     join ", " ((λ id, "'" +:+ id +:+ "'") <$> sort_on (λ s : string, s) (pending st).*1) +:+ "]") ++
  err_if (match state with Some r => negb (bool_decide (replay_state st = gs_state r))
                         | None => false end)
    "replayed final state does not match durable state" ++
  err_if (1 <? length (remove_dups (tr_generation <$> opens)))%nat "multiple open generations" ++
  from_option (λ r, check_final r (head opens ≫= tr_fence)) [] state.

Definition admission_errors (state : option gate_row) (opens : list transition_row)
    (rows : list admission_row) : list string :=
  rows ≫= check_admission (candidate_generation <$> state) (predecessor_generation <$> state)
            (tr_seq <$> head opens) (head opens ≫= tr_fence).

Definition evaluate_trace (db : Db) : result exn Verdict :=
  let log := gate_transition db in
  let state := gate_state db in
  let admissions := sort_on admitted_at (admission db) in
  let opens := filter (λ t, is_open_receipt t) log in
  let closes := filter (λ t, tr_operation t = "close" ∧ tr_kind t = "receipt") log in
  open_errors ← mapR (check_open_detail state) opens;
  close_errors ← mapR (check_close_detail state) closes;
  let errors :=
    transition_errors state log opens ++ concat open_errors ++ concat close_errors ++
    (foldl check_event ([], []) (admission_event db)).2 ++
    admission_errors state opens admissions in
  Ok (mkVerdict (if bool_decide (errors = []) then "PASS" else "FAIL") errors
        (count log) (count admissions) (candidate_generation <$> state)
        (predecessor_generation <$> state) (tr_seq <$> head opens)).

(** ** [export_trace] *)

Definition jstate (s : option GateState) : json := jstr_opt (GateState_value <$> s).

Definition export_transition (t : transition_row) : json :=
  JObj [("seq", JInt (tr_seq t)); ("generation", JInt (tr_generation t));
        ("kind", JStr (tr_kind t)); ("operation", JStr (tr_operation t));
        ("operation_id", JStr (operation_id t)); ("from_state", jstate (from_state t));
        ("to_state", jstate (to_state t)); ("fence", jstr_opt (tr_fence t));
        ("at", JInt (tr_at t)); ("detail", detail_json t);
        ("classification", JStr "synthetic/reference")].

Definition export_admission (a : admission_row) : json :=
  JObj [("request_id", JStr (ad_request_id a)); ("route_epoch", JStr (route_epoch a));
        ("chosen_generation", JInt (chosen_generation a)); ("admitted_at", JInt (admitted_at a));
        ("finished_at", jint_opt (finished_at a)); ("result", jstr_opt (ad_result a));
        ("abort", jstr_opt (ad_abort a)); ("transition_seq", JInt (ad_transition_seq a));
        ("type", JStr "admission"); ("classification", JStr "synthetic/reference")].

Definition export_event (e : event_row) : json :=
  JObj [("seq", JInt (ev_seq e)); ("request_id", JStr (ev_request_id e));
        ("kind", JStr (ev_kind e)); ("chosen_generation", JInt (ev_generation e));
        ("route_epoch", JStr (ev_epoch e)); ("at", JInt (ev_at e));
        ("transition_seq", JInt (ev_transition_seq e)); ("detail", ev_detail e);
        ("type", JStr "admission_event"); ("classification", JStr "synthetic/reference")].

Definition export_trace (db : Db) : list json :=
  (export_transition <$> gate_transition db) ++
  (export_admission <$> sort_on admitted_at (admission db)) ++
  (export_event <$> admission_event db).

(** ** What the oracle can say of a reachable store *)

(** The complaints a store of the gate can draw: intents and receipts that do not
    pair up, a record whose source is not the state it was written in, and a drain
    left for a terminal state. *)
Inductive explained (log : list transition_row) : string → Prop :=
  | ex_duplicate id : explained log ("duplicate pending intent: " +:+ id)
  | ex_orphan id : explained log ("receipt without intent: " +:+ id)
  | ex_unpaired ids : explained log ("unpaired intents: [" +:+ ids)
  | ex_source t s e : t ∈ log → to_state t = None → e ∈ source_errors s t → explained log e
  | ex_drain tgt : tgt ∈ _ALLOWED DRAINING → tgt ≠ CANDIDATE_OPEN →
      explained log ("unknown transition: DRAINING->" +:+ GateState_value tgt).

Lemma explained_mono log log' e :
  (∀ t, t ∈ log → t ∈ log') → explained log e → explained log' e.
Proof. intros Hsub [ | | |t s e' Ht Hto He| ]; try by constructor. eapply ex_source; eauto. Qed.

Lemma elem_of_err_if b m e : e ∈ err_if b m ↔ b = true ∧ e = m.
Proof.
  unfold err_if. destruct b; [rewrite list_elem_of_singleton; naive_solver|].
  rewrite elem_of_nil. naive_solver.
Qed.

Lemma err_if_false b m : b = false → err_if b m = [].
Proof. by intros ->. Qed.

(** The two tables differ on the exits of a drain only. *)
Lemma oracle_allowed_spec s tgt :
  tgt ∈ _ALLOWED s → tgt ∈ oracle_allowed s ∨ (s = DRAINING ∧ tgt ≠ CANDIDATE_OPEN).
Proof.
  destruct s; try (by left); intros H. destruct tgt; try (left; in_list); by right.
Qed.

Lemma pair_row_explained log p t e : e ∈ (pair_row p t).2 → explained log e.
Proof.
  unfold pair_row. intros He. repeat case_match; simpl in He.
  - apply elem_of_err_if in He as [_ ->]. constructor.
  - by apply elem_of_nil in He.
  - apply list_elem_of_singleton in He as ->. constructor.
  - by apply elem_of_nil in He.
Qed.

Lemma moving_row_explained log s t s' e :
  t ∈ log → replay_step s t = Some s' → e ∈ source_errors s t ++ target_errors s t →
  explained log e.
Proof.
  unfold replay_step. intros Ht Hstep He. unfold target_errors in He.
  destruct (to_state t) as [tgt|] eqn:Hto.
  - case_decide as Hd; [|done]. destruct Hd as [Hfrom Hmove]. simplify_eq.
    unfold source_errors in He. rewrite Hfrom, bool_decide_true in He by done. cbn [negb err_if app] in He.
    apply elem_of_err_if in He as [Hb ->]. bool_inv.
    destruct Hmove as [?|Hall]; [done|]. destruct (oracle_allowed_spec s s' Hall) as [?|[-> Hne]]; [done|].
    by apply ex_drain.
  - rewrite app_nil_r in He. by eapply ex_source.
Qed.

Record replays (c : Z) (log : list transition_row) (s : GateState) : Prop := {
  rp_state : replay_state (replay_all (Some c) log) = s;
  rp_seq : expected_seq (replay_all (Some c) log) = (Z.of_nat (length log) + 1)%Z;
  rp_errors : ∀ e, e ∈ replay_errors (replay_all (Some c) log) → explained log e;
}.

Lemma replay_all_snoc c log t :
  replay_all c (log ++ [t]) = oracle_step c (replay_all c log) t.
Proof. unfold replay_all. by rewrite foldl_app. Qed.

Lemma oracle_replays c log s :
  (∀ k t, log !! k = Some t → tr_seq t = (Z.of_nat k + 1)%Z) →
  (∀ t, t ∈ log → tr_generation t = c) →
  replay log = Some s → replays c log s.
Proof.
  revert s. induction log as [|t log IH] using rev_ind; intros s Hseq Hgen Hrep.
  { injection Hrep as <-. split; [done|done|]. by intros e ?%elem_of_nil. }
  rewrite replay_snoc in Hrep. destruct (replay log) as [s0|] eqn:Hlog; [|done]. cbn in Hrep.
  destruct (IH s0) as [Hs He Herr]; [| |done|].
  { intros k t' Hk. apply Hseq. by apply lookup_app_l_Some. }
  { intros t' Ht'. apply Hgen. apply elem_of_app. by left. }
  assert (t ∈ log ++ [t]) as Htin by (apply elem_of_app; right; by apply list_elem_of_singleton).
  assert (tr_seq t = (Z.of_nat (length log) + 1)%Z) as Htseq
    by (apply Hseq; by apply list_lookup_middle).
  set (st := replay_all (Some c) log) in *.
  pose proof (pair_row_explained (log ++ [t]) (pending st) t) as Hpair.
  split; rewrite replay_all_snoc; fold st; unfold oracle_step;
    destruct (pair_row (pending st) t) as [p pe]; cbn [replay_state expected_seq replay_errors snd] in *.
  - rewrite Hs. unfold replay_step in Hrep. destruct (to_state t); [|by simplify_eq].
    case_decide; by simplify_eq.
  - rewrite He, Htseq, Z.eqb_refl, length_app. simpl. lia.
  - rewrite He, Htseq, Z.eqb_refl. cbn [negb err_if app]. rewrite (Hgen t Htin), Z.eqb_refl. cbn [negb err_if]. rewrite app_nil_r.
    intros e Hein. rewrite !elem_of_app in Hein.
    destruct Hein as [Hein|[Hein|[Hein|Hein]]].
    + eapply explained_mono; [|by apply Herr]. intros t' ?. apply elem_of_app. by left.
    + rewrite Hs in Hein. eapply moving_row_explained; [done|done|]. apply elem_of_app. by left.
    + by apply Hpair.
    + rewrite Hs in Hein. eapply moving_row_explained; [done|done|]. apply elem_of_app. by right.
Qed.

Section reachable_store.
Context {r : gate_row} {d : Db}.
Hypothesis staged : staged_ok r d.
Hypothesis has_row : gate_state d = Some r.
Let log := gate_transition d.

Lemma opens_eq : filter (λ t, is_open_receipt t) log = open_receipts log.
Proof.
  apply list_filter_iff. intros t. unfold is_open_receipt, open_receipt.
  rewrite Is_true_true, !andb_true_iff, !bool_decide_eq_true. tauto.
Qed.

Lemma mapR_nil_errors {A} (f : A → result exn (list string)) l :
  (∀ x, x ∈ l → f x = Ok []) → ∃ es, mapR f l = Ok es ∧ concat es = [].
Proof.
  induction l as [|x l IH]; intros Hf; [by exists []|].
  destruct IH as (es&Hes&Hnil); [intros; apply Hf; by right|].
  exists ([] :: es). cbn [mapR]. rewrite Hf by (by left). cbn. by rewrite Hes.
Qed.

Lemma json_str_eqb s : json_eqb (JStr s) (JStr s) = true.
Proof. cbn. by rewrite bool_decide_true. Qed.

Lemma open_details_clean t :
  t ∈ open_receipts log → check_open_detail (Some r) t = Ok [].
Proof.
  intros Ht. destruct (lo_observed _ _ (so_log _ _ staged) t Ht) as (kv&Hkv&Hobs).
  unfold check_open_detail. rewrite Hkv. cbn [detail_get]. unfold json_get. rewrite Hobs.
  unfold mbind, result_bind. cbn [default from_option id]. by rewrite json_str_eqb.
Qed.

Lemma close_details_clean t :
  t ∈ filter (λ t, tr_operation t = "close" ∧ tr_kind t = "receipt") log →
  check_close_detail (Some r) t = Ok [].
Proof.
  intros [[Hop Hkind] Ht]%list_elem_of_filter.
  destruct (lo_detail _ _ (so_log _ _ staged) t Ht) as (kv&Hkv&Hclose).
  unfold check_close_detail. rewrite Hkv.
  destruct (Hclose Hop Hkind) as [Hc|Hobs].
  - by rewrite bool_decide_true.
  - case_match; [done|]. unfold json_get. rewrite Hobs. cbn [default from_option id].
    by rewrite json_str_eqb.
Qed.

Lemma events_clean : (foldl check_event ([], []) (admission_event d)).2 = [].
Proof.
  assert (∀ es seen, (∀ e, e ∈ es → e ∈ admission_event d) →
    (∀ id g, od_get id seen = Some g → ∃ a, a ∈ admission d ∧ ad_request_id a = id ∧
       chosen_generation a = g) →
    (foldl check_event (seen, []) es).2 = []) as Hgen.
  { induction es as [|e es IH]; intros seen Hes Hseen; [done|]. cbn [foldl].
    destruct (so_events _ _ staged e) as (a&Ha&Hid&Hg&_); [apply Hes; by left|].
    assert (∀ e', e' ∈ es → e' ∈ admission_event d) as Hes' by (intros; apply Hes; by right).
    unfold check_event at 2. destruct (od_get (ev_request_id e) seen) as [g|] eqn:Hget.
    - destruct (Hseen _ _ Hget) as (a'&Ha'&Hid'&Hg').
      assert (a' = a) as -> by (eapply NoDup_fmap_elem; [apply staged|done|done|congruence]).
      rewrite <-Hg', Hg, Z.eqb_refl. cbn [negb err_if app]. by apply IH.
    - apply IH; [done|]. intros id g. rewrite od_get_set. case_decide; [|by apply Hseen].
      intros [= <-]. exists a. split_and!; [done|congruence|congruence]. }
  apply Hgen; [done|]. by intros id g [=].
Qed.

Lemma predecessor_fence_nonempty z : predecessor_fence z ≠ "".
Proof. done. Qed.

Lemma admission_clean a :
  a ∈ admission d →
  check_admission (Some (candidate_generation r)) (Some (predecessor_generation r))
    (tr_seq <$> head (open_receipts log)) (head (open_receipts log) ≫= tr_fence) a = [].
Proof.
  intros Ha. pose proof (so_admissions _ _ staged) as Hads. rewrite Forall_forall in Hads.
  pose proof (ao_routed _ _ _ (Hads a Ha)) as Hroute.
  pose proof (ro_generation _ _ (so_row _ _ staged)) as Hcand.
  unfold check_admission, eq_generation.
  destruct Hroute as [(Hg&He&Hbefore)|(Hg&t&Ht&Hf&Hle)]; cbn in Hg.
  - assert (bool_decide (Some (candidate_generation r) = Some (chosen_generation a)) = false)
      as -> by (apply bool_decide_eq_false; rewrite Hg, Hcand; intros [=]; lia).
    rewrite (bool_decide_true (Some (predecessor_generation r) = _)) by congruence.
    rewrite He, (bool_decide_false (predecessor_fence _ = "")) by done.
    rewrite (bool_decide_true (predecessor_fence _ = _)) by done.
    cbn [andb negb err_if app]. rewrite !app_nil_r. apply err_if_false.
    destruct (head (open_receipts log)) as [t|] eqn:Hh; [|done]. cbn.
    apply Z.leb_gt, Hbefore. by apply head_Some_elem_of.
  - assert (bool_decide (Some (predecessor_generation r) = Some (chosen_generation a)) = false)
      as -> by (apply bool_decide_eq_false; rewrite Hg, Hcand; intros [=]; lia).
    rewrite (bool_decide_true (Some (candidate_generation r) = _)) by congruence.
    pose proof (lo_once _ _ (so_log _ _ staged)) as Hone.
    fold log in Ht, Hone. destruct (open_receipts log) as [|t' [|]] eqn:Hopen;
      [by apply elem_of_nil in Ht| |simpl in Hone; lia].
    apply list_elem_of_singleton in Ht as <-. cbn [head fmap option_fmap option_map].
    assert (route_epoch a ≠ "") as Hne.
    { destruct (lo_backed _ _ (so_log _ _ staged) t) as (i&Hi&Hint&_&Hfi).
      { fold log. rewrite Hopen. by apply list_elem_of_singleton. }
      destruct (lo_intents _ _ (so_log _ _ staged) i Hi Hint) as (_&_&_&f&Hf'&Hfn). congruence. }
    rewrite (bool_decide_false (route_epoch a = "")) by done.
    change (Some t ≫= tr_fence) with (tr_fence t).
    rewrite (bool_decide_true (Some (route_epoch a) = _)) by congruence.
    cbn [andb negb err_if app]. rewrite !app_nil_r. apply err_if_false.
    by apply Z.ltb_ge.
Qed.

Lemma final_clean : check_final r (head (open_receipts log) ≫= tr_fence) = [].
Proof.
  unfold check_final. apply err_if_false.
  destruct (bool_decide_reflect (gs_state r = CANDIDATE_OPEN)) as [Hst|_]; [|done].
  destruct (ro_serving _ _ (so_row _ _ staged)) as (Hg&Ho&t&Ht&Hf&_); [rewrite Hst; in_list|].
  pose proof (lo_once _ _ (so_log _ _ staged)) as Hone. fold log in Ht, Hone.
  destruct (open_receipts log) as [|t' [|]]; [by apply elem_of_nil in Ht| |simpl in Hone; lia].
  apply list_elem_of_singleton in Ht as <-. change (head [t] ≫= tr_fence) with (tr_fence t).
  rewrite Hf, !bool_decide_true by done. done.
Qed.

Lemma transition_errors_explained e :
  log ≠ [] → e ∈ transition_errors (Some r) log (open_receipts log) → explained log e.
Proof.
  intros Hne. unfold transition_errors. cbn [fmap option_fmap option_map].
  destruct (oracle_replays (candidate_generation r) log (gs_state r)) as [Hs _ Herr].
  { apply staged. }
  { intros t Ht. by apply (lo_generation _ _ (so_log _ _ staged)). }
  { apply staged. }
  set (st := replay_all (Some (candidate_generation r)) log) in *.
  rewrite (bool_decide_false (Some r = None ∨ log = [])) by (by intros [?|?]).
  rewrite Hs, (bool_decide_true (gs_state r = gs_state r)) by done.
  cbn [from_option]. rewrite final_clean.
  rewrite (err_if_false (1 <? _)%nat).
  - cbn [negb err_if app]. rewrite !app_nil_r. intros [He|He]%elem_of_app; [by apply Herr|].
    apply elem_of_err_if in He as [_ ->]. apply ex_unpaired.
  - pose proof (lo_once _ _ (so_log _ _ staged)) as Hone. fold log in Hone.
    destruct (open_receipts log) as [|t [|]]; simpl in *; [done|done|lia].
Qed.
End reachable_store.

