(* ===== verification/GateTheorems.v ===== *)
(** * What the exposure gate guarantees

    Properties of every reachable world of [ExposureGate], the reference trace
    the repository checks in, and three places where the gate, its recovery and
    its oracle disagree. *)

From S2P Require Import Prelude PyStd ExposureGate GateInvariants ExposureOracle.

Local Open Scope string_scope.
Local Open Scope list_scope.

(** ** The reference scenario of [tests/test_exposure_gate.py] *)

Definition NOW : Z := 1800000000.
Definition test_clock : nat → Z := λ _, NOW.
Definition PREDECESSOR : json :=
  JObj [("generation", JInt 0); ("plan_id", JStr "old");
        ("rendered_inputs", JObj [("route", JStr "old")])].
Definition CANDIDATE : json := JObj [("plan_id", JStr "candidate")].
Definition GRANT : LeaseGrant := mkLease "manager" 1 (NOW + 60).
Definition digest_of_digit (c : string) : string :=
  "sha256:" +:+ join "" (replicate 64 c).
Definition PROOF : OpenProof :=
  mkProof "candidate" 1 1 (digest_of_digit "1") (digest_of_digit "2") GRANT
    "sha256:33c9a268940fae266a8d90ed2aedbdc43846684ba2bd327fc452fdb5c0ff171b".

Definition make_gate (behavioral fails : bool) (gate_faults : gset string) : World :=
  fresh (mkRoute (Some 0%Z) "fence-0" PREDECESSOR) GRANT GRANT gate_faults ∅ behavioral fails.

Definition reference_calls : list call :=
  [Call_stage CANDIDATE PREDECESSOR;
   Call_observe (mkRequest "request-old" NOW) None;
   Call_close 1;
   Call_open 1 PROOF;
   Call_observe (mkRequest "request-new" (NOW + 1)) (Some (mkResult (NOW + 2) (Some "ok") None));
   Call_observe (mkRequest "request-old" NOW) (Some (mkResult (NOW + 3) (Some "ok") None));
   Call_drain 1].

Definition reference_world : World :=
  run_all test_clock reference_calls (make_gate false false ∅).

(** The lines of [artifacts/reference-trace.jsonl]. *)
Definition trace_text (db : Db) : string :=
  join "" ((λ row, dumps true row +:+ string_of_bytes [10%N]) <$> export_trace db).

(** The calls of the reference run give, byte for byte (by SHA-256 of the exported JSON
    lines), the trace the repository checks in; the oracle passes it and the gate ends
    CANDIDATE_OPEN. *)
Theorem reference_trace_reproduced :
  sha256_hexdigest (trace_text (store reference_world)) =
    "0ca2c70692f740caa8e44f66b6dbe2f5a627bac3c39629f23df00c122dd2d693" ∧
  (verdict <$> value_of (evaluate_trace (store reference_world))) = Some "PASS" ∧
  (gs_state <$> gate_state (store reference_world)) = Some CANDIDATE_OPEN.
Proof. vm_compute. split_and!; reflexivity. Qed.

(** ** Every reachable store *)

(** The transition log of every reachable gate, replayed along the allowed edges from
    UNSTAGED, ends in the durable state; its sequence numbers are 1, 2, 3, ..., its rows
    all name the candidate generation, and that is the predecessor's plus one. *)
Theorem gate_log_replays clock w r :
  reachable clock w → gate_state (store w) = Some r →
  let log := gate_transition (store w) in
  replay log = Some (gs_state r) ∧
  (∀ k t, log !! k = Some t → tr_seq t = (Z.of_nat k + 1)%Z) ∧
  (∀ t, t ∈ log → tr_generation t = candidate_generation r) ∧
  candidate_generation r = (predecessor_generation r + 1)%Z.
Proof.
  intros Hw Hr. pose proof (reachable_staged _ _ _ Hw Hr) as [Hrow Hlog _ _ _].
  split_and!; [apply Hrow|apply Hlog|apply (lo_generation _ _ Hlog)|apply Hrow].
Qed.

Lemma replay_terminal s l s' :
  terminal s → foldl (λ o t, o ≫= λ s, replay_step s t) (Some s) l = Some s' → s' = s.
Proof.
  intros Hs. induction l as [|t l IH]; cbn [foldl]; [by intros [=]|].
  change (Some s ≫= λ s, replay_step s t) with (replay_step s t).
  destruct (replay_step s t) as [s1|] eqn:Ht.
  - assert (s1 = s) as ->; [|done]. unfold replay_step in Ht. destruct (to_state t); [|by simplify_eq].
    case_decide as Hd; [|done]. simplify_eq. destruct Hd as [_ [?|Hall]]; [done|].
    exfalso. revert Hall Hs. unfold terminal.
    destruct s; intros Hall Hs; (revert Hs; not_in_list) || (revert Hall; not_in_list).
  - intros Hn. exfalso. clear -Hn. induction l as [|t' l IH]; [done|]. by apply IH.
Qed.

(** Once a reachable gate is in a terminal state, no public call changes its state or
    the identity of the staged candidate. *)
Theorem terminal_gate_absorbs clock c w r :
  reachable clock w → gate_state (store w) = Some r → terminal (gs_state r) →
  ∃ r', gate_state (store (run clock c w)) = Some r' ∧ gs_state r' = gs_state r ∧
    identity_of r' = identity_of r.
Proof.
  intros Hw Hr Ht. pose proof (reachable_inv _ _ Hw) as Hi.
  destruct (run_inv clock c w Hi) as [Hi' [[l Hl] _ Hrow _]].
  destruct (Hrow r Hr) as (r'&Hr'&Hid). exists r'. split_and!; [done| |done].
  unfold gate_inv in Hi, Hi'. rewrite Hr in Hi. rewrite Hr' in Hi'.
  pose proof (ro_replay _ _ (so_row _ _ Hi)) as H1. pose proof (ro_replay _ _ (so_row _ _ Hi')) as H2.
  rewrite Hl in H2. unfold replay in H1, H2. rewrite foldl_app, H1 in H2.
  by eapply replay_terminal.
Qed.

(** No public call of the gate, however it ends, removes or rewrites a transition or an
    admission event, or undoes an admission: both logs only grow at the end, and every
    admission row keeps its request, route and sequence number. *)
Theorem gate_history_append_only clock c w :
  reachable clock w →
  gate_transition (store w) `prefix_of` gate_transition (store (run clock c w)) ∧
  admission_event (store w) `prefix_of` admission_event (store (run clock c w)) ∧
  ∀ a, a ∈ admission (store w) →
    ∃ a', a' ∈ admission (store (run clock c w)) ∧ continues a a'.
Proof.
  intros Hw. pose proof (reachable_inv _ _ Hw) as Hi.
  destruct (run_inv clock c w Hi) as [_ [? ? _ ?]]. done.
Qed.

(** C1: In every reachable world of the exposure gate, whatever calls, crashes, lease
    losses and outside route changes led there, the log holds at most one receipt that
    opened the candidate; it records the fence of an earlier open intent, that intent
    carries the proof, and the proof names the staged candidate's digest, generation and
    lease and covers its evidence. *)
Theorem candidate_opened_once_under_proof clock w r :
  reachable clock w → gate_state (store w) = Some r →
  (length (open_receipts (gate_transition (store w))) ≤ 1)%nat ∧
  ∀ t, t ∈ open_receipts (gate_transition (store w)) →
    observes (identity_of r) t ∧
    ∃ i p, i ∈ gate_transition (store w) ∧ open_intent i ∧ (tr_seq i < tr_seq t)%Z ∧
      tr_fence i = tr_fence t ∧ detail_json i = JObj (proof_detail p) ∧
      pf_candidate_digest p = _digest (candidate_json r) ∧
      pf_generation p = candidate_generation r ∧ pf_lease p = lease_json r ∧
      evidence_covered p = true.
Proof.
  intros Hw Hr. pose proof (reachable_staged _ _ _ Hw Hr) as [Hrow Hlog _ _ _].
  split; [apply Hlog|]. intros t Ht. split; [by apply Hlog|].
  destruct (lo_backed _ _ Hlog t Ht) as (i&Hi&Hint&Hlt&Hf).
  destruct (lo_intents _ _ Hlog i Hi Hint) as (p&Hp&(Hg&Hd&Hl&He)&_). cbn in Hg, Hd, Hl.
  exists i, p. split_and!; try done. by rewrite Hd, (ro_digest _ _ Hrow).
Qed.

(** In every reachable gate world an admitted request names the generation and fence its
    route was serving according to the log, a finished request was admitted, request ids
    are unique, and every admission event belongs to an admission row. *)
Theorem admissions_follow_route clock w r :
  reachable clock w → gate_state (store w) = Some r →
  (∀ a, a ∈ admission (store w) →
     admission_routed (identity_of r) (gate_transition (store w)) a ∧ finish_ok a) ∧
  NoDup (ad_request_id <$> admission (store w)) ∧
  ∀ e, e ∈ admission_event (store w) → ∃ a, a ∈ admission (store w) ∧ event_of a e.
Proof.
  intros Hw Hr. pose proof (reachable_staged _ _ _ Hw Hr) as [_ _ Hads Hreq Hev].
  split_and!; [|done|done]. intros a Ha. rewrite Forall_forall in Hads.
  by destruct (Hads a Ha).
Qed.

(** ** Runs with no fault armed *)

Lemma bind_step {A B} (m : op A) (f : A → op B) w a w' :
  m w = (Ok a, w') → (m ≫= f) w = f a w'.
Proof. intros H. unfold mbind, method_bind. by rewrite H. Qed.

Lemma bind_raise {A B} (m : op A) (f : A → op B) w e w' :
  m w = (Raise e, w') → (m ≫= f) w = (Raise e, w').
Proof. intros H. unfold mbind, method_bind. by rewrite H. Qed.

Lemma hit_unarmed point w : point ∉ faults w → _hit point w = (Ok tt, w).
Proof. intros H. unfold _hit. unfold_method. by rewrite decide_False. Qed.

Lemma row_found w r :
  gate_state (store w) = Some r → schema_version r = gate_schema_version → _row w = (Ok r, w).
Proof. intros Hr Hs. unfold _row. unfold_method. by rewrite Hr, Hs. Qed.

Definition with_store (d : Db) (w : World) : World :=
  mkWorld d (traffic w) (authority w) (faults w) (S (ticks w)).

Lemma append_runs clock g kind operation from to fence detail id w :
  ∃ n t, _append clock g kind operation from to fence detail id w =
    (Ok n, with_store (mkDb (gate_state (store w)) (gate_transition (store w) ++ [t])
                         (admission (store w)) (admission_event (store w))) w).
Proof.
  unfold _append, read_clock, set_store. unfold_method. eexists _, _. reflexivity.
Qed.

Definition closed_route : RouteState := mkRoute None "closed" JNull.

Definition close_traffic (w : World) : World :=
  mkWorld (store w)
    (mkTraffic closed_route (t_authority (traffic w)) (t_faults (traffic w))
       (behavioral_restore (traffic w)) (rollback_fails (traffic w)))
    (authority w) (faults w) (ticks w).

Lemma close_all_unarmed w :
  "close_all" ∉ t_faults (traffic w) → close_all w = (Ok tt, close_traffic w).
Proof.
  intros H. unfold close_all, traffic_hit. unfold_method. by rewrite decide_False.
Qed.

Lemma query_unarmed w :
  "route.query" ∉ t_faults (traffic w) → query_route w = (Ok (route (traffic w)), w).
Proof.
  intros H. unfold query_route, traffic_hit. unfold_method. by rewrite decide_False.
Qed.

Lemma attempt_Ok {A} (m : op A) w a w' : m w = (Ok a, w') → attempt m w = (Ok (Ok a), w').
Proof. intros H. unfold attempt. by rewrite H. Qed.

Lemma transition_allowed clock g tgt operation kind detail fence id w r :
  gate_state (store w) = Some r → schema_version r = gate_schema_version →
  tgt = gs_state r ∨ tgt ∈ _ALLOWED (gs_state r) →
  ∃ n t, _transition clock g tgt operation kind detail fence id w =
    (Ok n, with_store (mkDb (Some (with_state tgt n r)) (gate_transition (store w) ++ [t])
                         (admission (store w)) (admission_event (store w))) w).
Proof.
  intros Hr Hs Hmove. unfold _transition.
  rewrite (bind_step _ _ _ _ _ (row_found w r Hr Hs)).
  assert (negb (bool_decide (tgt = gs_state r)) && negb (bool_decide (tgt ∈ _ALLOWED (gs_state r)))
          = false) as Hg.
  { apply andb_false_iff. rewrite !negb_false_iff, !bool_decide_eq_true. done. }
  rewrite (bind_step _ _ w tt w) by (by rewrite Hg).
  destruct (append_runs clock g kind operation (Some (gs_state r)) (Some tgt) fence detail id w)
    as (n&t&Happ).
  rewrite (bind_step _ _ _ _ _ Happ), Hr. exists n, t.
  unfold update_state, set_store. unfold_method. cbn [with_store store gate_state].
  by rewrite Z.eqb_refl.
Qed.

Lemma transition_refused clock g tgt operation kind detail fence id w r :
  gate_state (store w) = Some r → schema_version r = gate_schema_version →
  tgt ≠ gs_state r → tgt ∉ _ALLOWED (gs_state r) →
  _transition clock g tgt operation kind detail fence id w =
    (Raise (GateError ("invalid gate transition " +:+ GateState_value (gs_state r) +:+ "->" +:+
                       GateState_value tgt)), w).
Proof.
  intros Hr Hs Hne Hno. unfold _transition.
  rewrite (bind_step _ _ _ _ _ (row_found w r Hr Hs)).
  rewrite !bool_decide_false by done. done.
Qed.

Definition unarmed_close (w : World) : Prop :=
  "fail_close.before_effect" ∉ faults w ∧ "fail_close.after_effect" ∉ faults w ∧
  "close_all" ∉ t_faults (traffic w) ∧ "route.query" ∉ t_faults (traffic w).

(** Up to the receipt a fail-close always runs, and leaves the route closed. *)
Lemma fail_close_runs clock g reason w r :
  gate_state (store w) = Some r → schema_version r = gate_schema_version →
  candidate_generation r = g → unarmed_close w →
  ∃ w1, gate_state (store w1) = Some r ∧ route (traffic w1) = closed_route ∧
    fail_close clock g reason w =
      (_ ← transaction (
             _ ← _transition clock g FAILED_SAFE "fail_close" "receipt"
                   [("classification", JStr "FAILED_SAFE");
                    ("actual_route", optional_route (Some closed_route)); ("error", JNull)]
                   None None;
             record_route (Some closed_route));
       mret (mkFailClose Failed_safe (Some closed_route) None)) w1.
Proof.
  intros Hr Hs Hg (Hb&Ha&Hc&Hq). unfold fail_close.
  rewrite (bind_step _ _ _ _ _ (row_found w r Hr Hs)).
  rewrite Hg, Z.eqb_refl. cbn [negb]. rewrite (bind_step _ _ _ tt w) by done.
  destruct (append_runs clock g "intent" "fail_close" (Some (gs_state r)) None (Some "closed")
    [("reason", JStr reason)] None w) as (n&t&Happ).
  set (w0 := with_store _ w) in Happ.
  rewrite (bind_step _ _ _ n w0) by (unfold transaction; by rewrite Happ).
  rewrite (bind_step _ _ _ tt w0) by (by apply hit_unarmed).
  rewrite (bind_step _ _ _ (Ok tt) (close_traffic w0))
    by (by apply attempt_Ok, close_all_unarmed).
  rewrite (bind_step _ _ _ tt (close_traffic w0)) by (by apply hit_unarmed).
  rewrite (bind_step _ _ _ (Ok closed_route) (close_traffic w0))
    by (by apply attempt_Ok, (query_unarmed (close_traffic w0))).
  exists (close_traffic w0). split_and!; done.
Qed.

(** fail_close on a reachable gate whose close path is not made to fail leaves the
    adapter closed. From every state but ROLLED_BACK and SAFETY_UNKNOWN it reports
    FAILED_SAFE and records it; from those two it closes live traffic and then raises an
    invalid-transition error with the durable row unchanged. *)
Theorem fail_close_always_closes clock reason w r :
  reachable clock w → gate_state (store w) = Some r → unarmed_close w →
  let '(result, w') := fail_close clock (candidate_generation r) reason w in
  route (traffic w') = closed_route ∧
  (gs_state r ∉ [ROLLED_BACK; SAFETY_UNKNOWN] →
     result = Ok (mkFailClose Failed_safe (Some closed_route) None) ∧
     ∃ r', gate_state (store w') = Some r' ∧ gs_state r' = FAILED_SAFE ∧
       route_generation r' = None ∧ route_fence r' = "closed") ∧
  (gs_state r ∈ [ROLLED_BACK; SAFETY_UNKNOWN] →
     result = Raise (GateError ("invalid gate transition " +:+ GateState_value (gs_state r) +:+
                                "->FAILED_SAFE")) ∧
     gate_state (store w') = Some r).
Proof.
  intros Hw Hr Hun. pose proof (reachable_staged _ _ _ Hw Hr) as [Hrow _ _ _ _].
  pose proof (ro_schema _ _ Hrow) as Hs.
  destruct (fail_close_runs clock _ reason w r Hr Hs eq_refl Hun) as (w1&Hr1&Hroute&->).
  destruct (decide (gs_state r ∈ [ROLLED_BACK; SAFETY_UNKNOWN])) as [Hin|Hnin].
  - assert (FAILED_SAFE ≠ gs_state r ∧ FAILED_SAFE ∉ _ALLOWED (gs_state r)) as [Hne Hno].
    { pose proof Hin as Hin'. rewrite !elem_of_cons, elem_of_nil in Hin'.
      destruct Hin' as [H|[H|[]]]; rewrite H; (split; [done|in_list]). }
    pose proof (λ op kind detail fence id, transition_refused clock (candidate_generation r)
      FAILED_SAFE op kind detail fence id w1 r Hr1 Hs Hne Hno) as Hrefused.
    rewrite (bind_raise _ _ w1
      (GateError ("invalid gate transition " +:+ GateState_value (gs_state r) +:+ "->FAILED_SAFE"))
      w1); [by split_and!|].
    unfold transaction. rewrite (bind_raise _ _ _ _ _ (Hrefused _ _ _ _ _)).
    by destruct w1, (gs_state r).
  - destruct (transition_allowed clock (candidate_generation r) FAILED_SAFE "fail_close" "receipt"
      [("classification", JStr "FAILED_SAFE");
       ("actual_route", optional_route (Some closed_route)); ("error", JNull)] None None w1 r Hr1 Hs)
      as (n&t&Ht).
    { destruct (gs_state r); try (right; in_list); try (left; done); exfalso; apply Hnin; in_list. }
    set (d := mkDb _ _ _ _) in Ht.
    set (w2 := mkWorld (set_row (with_route None "closed") d) (traffic w1) (authority w1)
                 (faults w1) (S (ticks w1))).
    rewrite (bind_step _ _ w1 tt w2).
    + split_and!; [done| |done]. intros _. split; [done|]. by eexists.
    + unfold transaction. rewrite (bind_step _ _ _ _ _ Ht). reflexivity.
Qed.

(** ** Successful calls, read backwards *)

Lemma row_Ok w r w' : _row w = (Ok r, w') → w' = w ∧ gate_state (store w) = Some r.
Proof.
  unfold _row. unfold_method. destruct (gate_state (store w)) as [r0|]; [|done].
  destruct (negb _); [done|]. by intros [= -> ->].
Qed.

Lemma transaction_Ok {A} (m : op A) w a w' : transaction m w = (Ok a, w') → m w = (Ok a, w').
Proof. unfold transaction. destruct (m w) as [[?|?] ?]; naive_solver. Qed.

Lemma append_Ok clock g kind operation from to fence detail id w n w' :
  _append clock g kind operation from to fence detail id w = (Ok n, w') →
  gate_state (store w') = gate_state (store w) ∧ traffic w' = traffic w.
Proof.
  destruct (append_runs clock g kind operation from to fence detail id w) as (n'&t&->).
  by intros [= _ <-].
Qed.

Lemma transition_Ok clock g tgt operation kind detail fence id w n w' :
  _transition clock g tgt operation kind detail fence id w = (Ok n, w') →
  ∃ r, gate_state (store w) = Some r ∧ gate_state (store w') = Some (with_state tgt n r) ∧
    traffic w' = traffic w.
Proof.
  unfold _transition. intros H. apply bind_Ok in H as (r&w1&[-> Hr]%row_Ok&H).
  apply bind_Ok in H as (?&w2&[_ ->]%guard_raise_Ok&H).
  apply bind_Ok in H as (n'&w3&[Hg Ht]%append_Ok&H).
  apply bind_Ok in H as (c&w4&Hu&H). apply bind_Ok in H as (?&w5&[Hc ->]%guard_raise_Ok&H).
  apply mret_Ok in H as [-> ->]. exists r. split; [done|].
  unfold update_state, set_store in Hu. revert Hu. unfold_method. rewrite Hg, Hr.
  destruct (revision r =? revision r)%Z; intros [= <- <-]; [|done].
  cbn. by rewrite Hg, Hr, Ht.
Qed.

Lemma hit_Ok point w u w' : _hit point w = (Ok u, w') → w' = w.
Proof. unfold _hit. unfold_method. by case_decide; intros [=]. Qed.

Lemma query_Ok w r w' : query_route w = (Ok r, w') → w' = w ∧ r = route (traffic w).
Proof.
  unfold query_route, traffic_hit. unfold_method. by case_decide; intros [= <- <-].
Qed.

Lemma check_open_valid clock g proof r w u w' :
  check_open clock g proof r w = (Ok u, w') →
  (∃ plan, expected_plan (candidate_json r) = Ok plan ∧
     json_eqb (JStr (pf_plan_id proof)) plan = true) ∧
  ∃ k, lease_valid (traffic w) (pf_lease proof) (clock k) = true.
Proof.
  unfold check_open. intros H. apply bind_Ok in H as (?&w1&[_ ->]%guard_raise_Ok&H).
  apply bind_Ok in H as (plan&w2&[Hp ->]%lift_Ok&H).
  apply bind_Ok in H as (?&w3&[Heq ->]%guard_raise_Ok&H).
  apply bind_Ok in H as (?&w4&[_ ->]%guard_raise_Ok&H).
  apply bind_Ok in H as (?&w5&[_ ->]%guard_raise_Ok&H).
  apply negb_false_iff in Heq. split; [by exists plan|].
  case_match; [|done]. apply bind_Ok in H as (now&w6&Hnow&H). unfold read_clock in Hnow.
  injection Hnow as <- <-. apply bind_Ok in H as (w7&w8&[-> ->]%get_Ok&H).
  apply guard_raise_Ok in H as [Hl _]. exists (ticks w). by apply negb_false_iff in Hl.
Qed.

Lemma perform_open_Ok clock g proof r w fence w' :
  perform_open clock g proof r w = (Ok fence, w') →
  candidate_routed g fence (pf_candidate_digest proof) (route (traffic w')) = true ∧
  ∃ r', gate_state (store w') = Some r' ∧ gs_state r' = CANDIDATE_OPEN ∧
    route_generation r' = Some g ∧ route_fence r' = fence ∧
    observed_candidate_digest r' = Some (pf_candidate_digest proof).
Proof.
  unfold perform_open. cbv zeta. intros H.
  do 6 (apply bind_Ok in H as (?&?&_&H)).
  apply bind_Ok in H as (actual&w8&[-> Hactual]%query_Ok&H).
  apply bind_Ok in H as (?&w9&->%hit_Ok&H).
  destruct (candidate_routed _ _ _ actual) eqn:Hrouted; cbn [negb] in H.
  - apply bind_Ok in H as (?&w10&Htx%transaction_Ok&H). apply mret_Ok in H as [-> ->].
    apply bind_Ok in Htx as (n&w11&(r1&_&Hr1&Ht)%transition_Ok&Hset).
    apply modify_Ok in Hset as ->. cbn [traffic store]. rewrite Ht, <-Hactual.
    split; [done|]. cbn [set_row gate_state]. rewrite Hr1. eexists. split; [done|].
    unfold candidate_routed in Hrouted. bool_inv. cbn. by split_and!; f_equal.
  - exfalso. apply bind_Ok in H as (?&?&_&H). by apply bind_Ok in H as (?&?&_&H).
Qed.

(** When open returns a fence (and the candidate was not already open), the proof named
    the current candidate generation, digest, plan and lease and covered the evidence,
    the lease was valid, and afterwards the adapter routes exactly that candidate under
    that fence and the row is CANDIDATE_OPEN with it. *)
Theorem open_serves_checked_candidate clock w g proof fence w' r :
  reachable clock w → gate_state (store w) = Some r → gs_state r ≠ CANDIDATE_OPEN →
  open clock g proof w = (Ok fence, w') →
  g = candidate_generation r ∧ pf_candidate_digest proof = _digest (candidate_json r) ∧
  (∃ plan, expected_plan (candidate_json r) = Ok plan ∧
     json_eqb (JStr (pf_plan_id proof)) plan = true) ∧
  evidence_covered proof = true ∧ pf_lease proof = lease_json r ∧
  (∃ k, lease_valid (traffic w) (lease_json r) (clock k) = true) ∧
  candidate_routed g fence (_digest (candidate_json r)) (route (traffic w')) = true ∧
  ∃ r', gate_state (store w') = Some r' ∧ gs_state r' = CANDIDATE_OPEN ∧
    route_generation r' = Some g ∧ route_fence r' = fence.
Proof.
  intros Hw Hr Hst H. pose proof (reachable_staged _ _ _ Hw Hr) as [Hrow _ _ _ _].
  unfold open in H. apply bind_Ok in H as (r0&w1&[-> Hr0]%row_Ok&H). simplify_eq.
  apply bind_Ok in H as (?&w2&Hc&H).
  destruct (check_open_Ok clock g proof r w _ _ Hc) as [-> (_&Hd&Hl&He)]. cbn in Hd, Hl.
  apply check_open_valid in Hc as (Hplan&k&Hk).
  rewrite (ro_digest _ _ Hrow) in Hd.
  assert (perform_open clock (candidate_generation r) proof r w2 = (Ok fence, w')) as Hp
    by (destruct (gs_state r); done).
  apply perform_open_Ok in Hp as (Hrouted&r'&Hr'&?&?&?&_).
  rewrite Hd in Hrouted. rewrite Hl in Hk. split_and!; try done; eauto.
Qed.

(** ** Where the gate, its recovery and its oracle disagree *)

(** A drain left for a rollback: the gate allows it, the oracle does not. *)
Definition drained_calls : list call :=
  [Call_stage CANDIDATE PREDECESSOR; Call_observe (mkRequest "request-old" NOW) None;
   Call_close 1; Call_open 1 PROOF; Call_drain 1; Call_rollback 1 None].

(** A gate run that rolls back out of DRAINING is allowed by the gate's transition table
    and rejected by the oracle's, so the oracle reports a valid run as failed. *)
Theorem oracle_rejects_rollback_from_drain :
  let w := run_all test_clock drained_calls (make_gate false false ∅) in
  (gs_state <$> gate_state (store w)) = Some ROLLED_BACK ∧
  ROLLED_BACK ∈ _ALLOWED DRAINING ∧ ROLLED_BACK ∉ oracle_allowed DRAINING ∧
  (errors <$> value_of (evaluate_trace (store w))) =
    Some ["unknown transition: DRAINING->ROLLED_BACK"; "unpaired intents: ['drain:1']"].
Proof. split_and!; [vm_compute; reflexivity|in_list|not_in_list|vm_compute; reflexivity]. Qed.

(** A crash between the open intent and the traffic change, then a rollback. *)
Definition interrupted_open : World :=
  run_all test_clock [Call_stage CANDIDATE PREDECESSOR; Call_close 1; Call_open 1 PROOF]
    (make_gate false false {["open.after_intent"]}).

(** After a crash while opening, rollback restores the predecessor's route and then
    raises an invalid-transition error; every later reconcile raises the same error and
    the gate stays OPENING. *)
Theorem rollback_from_opening_sticks :
  let w := run test_clock (Call_rollback 1 None) interrupted_open in
  let refused := GateError "invalid gate transition OPENING->ROLLED_BACK" in
  (rollback test_clock 1 None interrupted_open).1 = Raise refused ∧
  route (traffic w) = mkRoute (Some 0%Z) "fence-0" PREDECESSOR ∧
  (gs_state <$> gate_state (store w)) = Some OPENING ∧
  (reconcile test_clock w).1 = Raise refused ∧
  (reconcile test_clock (run test_clock Call_reconcile w)).1 = Raise refused ∧
  (gs_state <$> gate_state (store (run test_clock Call_reconcile w))) = Some OPENING.
Proof. vm_compute. split_and!; reflexivity. Qed.

(** A recovery killed before its close, an operator's fail-close, a second recovery. *)
Definition twice_recovered : World :=
  run_all test_clock
    [Call_stage CANDIDATE PREDECESSOR; Call_close 1; Call_open 1 PROOF; Call_reconcile;
     Call_fail_close 1 "operator"; Call_reconcile]
    (make_gate false false {["open.after_intent"; "open_recovery_close.before_effect"]}).

(** A recovery interrupted after it failed the gate safe, then run again, writes a
    receipt whose source is OPENING although the state is already FAILED_SAFE, which the
    oracle reports as a source mismatch. *)
Theorem recovery_receipt_misstates_source :
  (gs_state <$> gate_state (store twice_recovered)) = Some FAILED_SAFE ∧
  (errors <$> value_of (evaluate_trace (store twice_recovered))) =
    Some ["transition source mismatch at 8: OPENING != FAILED_SAFE"].
Proof. vm_compute. split; reflexivity. Qed.

(** ** The theorems at work on the reference run *)

Lemma gate_run_all_reachable clock cs w : reachable clock w → reachable clock (run_all clock cs w).
Proof.
  revert w. induction cs as [|c cs IH]; intros w Hw; [done|].
  apply IH. by apply reachable_call.
Qed.

Definition reference_row : gate_row :=
  Eval vm_compute in
    default (staged_row JNull JNull 0 closed_route GRANT) (gate_state (store reference_world)).

Lemma reference_reachable : reachable test_clock reference_world.
Proof. apply gate_run_all_reachable. apply reachable_fresh. Qed.

Lemma reference_staged : gate_state (store reference_world) = Some reference_row.
Proof. vm_compute. reflexivity. Qed.

Lemma gate_log_replays_witness :
  replay (gate_transition (store reference_world)) = Some (gs_state reference_row).
Proof. exact (proj1 (gate_log_replays _ _ _ reference_reachable reference_staged)). Defined.

Definition closed_world : World := run test_clock (Call_fail_close 1 "operator") reference_world.
Definition closed_row : gate_row :=
  Eval vm_compute in
    default (staged_row JNull JNull 0 closed_route GRANT) (gate_state (store closed_world)).

Lemma terminal_gate_absorbs_witness :
  gs_state closed_row = FAILED_SAFE ∧
  ∃ r', gate_state (store (run test_clock (Call_rollback 1 None) closed_world)) = Some r' ∧
    gs_state r' = FAILED_SAFE.
Proof.
  split; [reflexivity|].
  destruct (terminal_gate_absorbs test_clock (Call_rollback 1 None) closed_world closed_row)
    as (r'&Hr'&Hst&_).
  - apply reachable_call, reference_reachable.
  - vm_compute. reflexivity.
  - apply (bool_decide_unpack _). vm_compute. exact I.
  - exists r'. split; [exact Hr'|exact Hst].
Defined.

Lemma gate_history_append_only_witness :
  gate_transition (store reference_world) `prefix_of` gate_transition (store closed_world).
Proof.
  exact (proj1 (gate_history_append_only test_clock (Call_fail_close 1 "operator") _
                  reference_reachable)).
Defined.

Lemma candidate_opened_once_under_proof_witness :
  (tr_seq <$> open_receipts (gate_transition (store reference_world))) = [5%Z] ∧
  (length (open_receipts (gate_transition (store reference_world))) ≤ 1)%nat.
Proof.
  split; [vm_compute; reflexivity|].
  exact (proj1 (candidate_opened_once_under_proof _ _ _ reference_reachable reference_staged)).
Defined.

Lemma admissions_follow_route_witness :
  (chosen_generation <$> admission (store reference_world)) = [0; 1]%Z ∧
  NoDup (ad_request_id <$> admission (store reference_world)).
Proof.
  split; [vm_compute; reflexivity|].
  exact (proj1 (proj2 (admissions_follow_route _ _ _ reference_reachable reference_staged))).
Defined.

Lemma fail_close_always_closes_witness :
  (fail_close test_clock 1 "operator" reference_world).1 =
    Ok (mkFailClose Failed_safe (Some closed_route) None).
Proof.
  assert (unarmed_close reference_world) as Hun.
  { split_and!; apply (bool_decide_unpack _); vm_compute; exact I. }
  pose proof (fail_close_always_closes test_clock "operator" _ _ reference_reachable
                reference_staged Hun) as H.
  change (candidate_generation reference_row) with 1%Z in H.
  destruct (fail_close test_clock 1 "operator" reference_world) as [result w'].
  destruct H as (_&H&_). apply H. apply (bool_decide_unpack _). vm_compute. exact I.
Defined.

Definition before_open_world : World :=
  run_all test_clock [Call_stage CANDIDATE PREDECESSOR; Call_close 1] (make_gate false false ∅).
Definition before_open_row : gate_row :=
  Eval vm_compute in
    default (staged_row JNull JNull 0 closed_route GRANT) (gate_state (store before_open_world)).

Lemma open_serves_checked_candidate_witness :
  evidence_covered PROOF = true ∧ pf_lease PROOF = lease_json before_open_row.
Proof.
  destruct (open_serves_checked_candidate test_clock before_open_world 1 PROOF
    "gate-1-lease-1-33c9a268940f-4" (run test_clock (Call_open 1 PROOF) before_open_world)
    before_open_row) as (_&_&_&He&Hl&_).
  - apply gate_run_all_reachable. apply reachable_fresh.
  - vm_compute. reflexivity.
  - discriminate.
  - vm_compute. reflexivity.
  - split; [exact He|exact Hl].
Defined.

