(* ===== verification/DurableCoordinator.v ===== *)
(** * The durable activation coordinator: [durable_coordinator.py]

    [ActivationCoordinator] over its SQLite store.  The adapters the coordinator
    is given are Python [Protocol]s, here type classes over an adapter's own
    state; the [Fake*] adapters of the module are instances.  The traffic side is
    a [TrafficGate] or a [ReferenceExposureGate], which the code tells apart with
    [isinstance]; the second is a [World] of [ExposureGate], driven through the
    methods modelled there.

    A method is a state-passing computation over the manager process and its
    store.  [with self.store.connection] restores the store when its body raises;
    adapters and the gate keep what they did.  Every call of [self.faults.hit] is
    a crash point that can be armed.  A column that holds an enumeration's value
    keeps the enumeration, one that holds JSON text the value it encodes.  Python's
    [int(self.clock())] is [clock n] at the [n]-th reading. *)

From S2P Require Import Prelude PyStd.
From S2P Require Export EcpaModel.
From S2P Require ExposureGate.

Local Open Scope string_scope.
Local Open Scope list_scope.

(** ** Transitions and exceptions *)

(** [TRANSITIONS]; [RESOLVED] is not a key of the dictionary. *)
Definition TRANSITIONS (s : State) : option (list State) :=
  match s with
  | INTENT => Some [PLANNED]
  | RESOLVED => None
  | PLANNED => Some [PREPARING]
  | PREPARING => Some [PREPARED; RECONCILE]
  | PREPARED => Some [LAUNCHING; ROLLBACK]
  | LAUNCHING => Some [OBSERVING; RECONCILE]
  | OBSERVING => Some [COMMIT_READY; DEGRADED; RECONCILE; ROLLBACK]
  | COMMIT_READY => Some [EFFECTIVE; RECONCILE; FAILED_SAFE]
  | EFFECTIVE => Some [DEGRADED; ROLLBACK]
  | DEGRADED => Some [RECONCILE; ROLLBACK]
  | RECONCILE => Some [OBSERVING; ROLLBACK; FAILED_SAFE]
  | ROLLBACK => Some [ROLLED_BACK; FAILED_SAFE; SAFETY_UNKNOWN]
  | ROLLED_BACK | FAILED_SAFE | SAFETY_UNKNOWN => Some []
  end.

(** What a call raises: its own [ContractError]s, what SQLite and the language
    raise, the gate's errors, and whatever an adapter raises. *)
Inductive exn : Type :=
  | ContractError (code : ErrorCode) (detail : string)
  | RuntimeError (message : string)
  | IntegrityError (message : string)
  | AssertionError
  | KeyError (key : string)
  | TypeError (message : string)
  | AttributeError (message : string)
  | IndexError
  | GateExn (e : ExposureGate.exn)
  | AdapterError (message : string).

Definition ErrorCode_value (c : ErrorCode) : string :=
  match c with
  | UNKNOWN_RESOURCE => "UNKNOWN_RESOURCE" | AMBIGUOUS_RESOURCE => "AMBIGUOUS_RESOURCE"
  | RESOURCE_CONFLICT => "RESOURCE_CONFLICT" | INCOMPATIBLE_HOST => "INCOMPATIBLE_HOST"
  | MISSING_PROCESS_EVIDENCE => "MISSING_PROCESS_EVIDENCE"
  | STALE_EVIDENCE => "STALE_EVIDENCE" | REPLAYED_NONCE => "REPLAYED_NONCE"
  | CAS_MISMATCH => "CAS_MISMATCH" | EXTERNAL_LEASE_INVALID => "EXTERNAL_LEASE_INVALID"
  | AUTHORITY_VIOLATION => "AUTHORITY_VIOLATION" | INVALID_TRANSITION => "INVALID_TRANSITION"
  | ROLLBACK_FAILED => "ROLLBACK_FAILED"
  end.

(** [str(exc)] *)
Definition str_exn (e : exn) : string :=
  match e with
  | ContractError c d => ErrorCode_value c +:+ ": " +:+ d
  | RuntimeError m | IntegrityError m | TypeError m | AttributeError m | AdapterError m => m
  | AssertionError => ""
  | KeyError k => "'" +:+ k +:+ "'"
  | IndexError => "tuple index out of range"
  | GateExn e => ExposureGate.str_exn e
  end.

(** ** The adapters *)

Class HostAdapter (H : Type) : Type := {
  host_prepare : Plan → method H exn json;
  host_launch : Plan → string → method H exn (list ProcessIdentity);
  host_rollback : PredecessorSnapshot → method H exn json;
}.

(** [signed]: the object is a [SignedAttestationVerifier]. *)
Class EvidenceVerifier (V : Type) : Type := {
  verify : Attestation → Z → Plan → method V exn ();
  signed : V → bool;
}.

Class EvidenceIssuer (I : Type) : Type := {
  issue : Plan → string → ProcessIdentity → EvidenceObligation → string → Z →
    method I exn Attestation;
}.

Class TrafficGate (T : Type) : Type := {
  hold_predecessor : PredecessorSnapshot → method T exn ();
  activate : Plan → method T exn ();
  restore : PredecessorSnapshot → method T exn ();
}.

Class ExternalServiceAdapter (X : Type) : Type := {
  lease_valid : Plan → method X exn bool;
}.

(** *** [FakeHostAdapter] *)
Record FakeHost : Type := mkFakeHost {
  fh_inventory : list ProcessIdentity; fh_prepared : bool; fh_launched : bool;
  rollback_succeeds : bool;
}.

Definition FakeHost_prepare (p : Plan) : method FakeHost exn json :=
  _ ← modify (λ h, mkFakeHost (fh_inventory h) true (fh_launched h) (rollback_succeeds h));
  mret (JObj [("prepared", JBool true); ("plan_id", JStr (Plan_plan_id p))]).
Definition FakeHost_launch (p : Plan) (launch_id : string)
    : method FakeHost exn (list ProcessIdentity) :=
  _ ← modify (λ h, mkFakeHost (fh_inventory h) (fh_prepared h) true (rollback_succeeds h));
  h ← get;
  mret (fh_inventory h).
Definition FakeHost_rollback (p : PredecessorSnapshot) : method FakeHost exn json :=
  h ← get;
  _ ← guard_raise (negb (rollback_succeeds h)) (RuntimeError "deterministic rollback failure");
  _ ← modify (λ h, mkFakeHost (fh_inventory h) (fh_prepared h) false (rollback_succeeds h));
  mret (JObj [("restored_generation", JInt (pred_generation p))]).

#[export] Instance FakeHostAdapter : HostAdapter FakeHost :=
  {| host_prepare := FakeHost_prepare; host_launch := FakeHost_launch;
     host_rollback := FakeHost_rollback |}.

(** *** [FakeTrafficGate] *)
Record FakeTraffic : Type := mkFakeTraffic {
  active_plan_id : option string; predecessor_plan_id : option string;
}.

#[export] Instance FakeTrafficGate : TrafficGate FakeTraffic :=
  {| hold_predecessor p := modify (λ _, mkFakeTraffic (pred_plan_id p) (pred_plan_id p));
     activate p := modify (λ t, mkFakeTraffic (Some (Plan_plan_id p)) (predecessor_plan_id t));
     restore p := modify (λ t, mkFakeTraffic (pred_plan_id p) (predecessor_plan_id t)) |}.

(** *** [FakeEvidenceVerifier], an object without state *)
Inductive FakeVerifier : Type := mkFakeVerifier.

Definition FakeVerifier_verify (a : Attestation) (now : Z) (p : Plan)
    : method FakeVerifier exn () :=
  _ ← guard_raise (negb (bool_decide (at_authority a = "host-runtime")))
        (ContractError AUTHORITY_VIOLATION (at_authority a));
  guard_raise ((now <? at_issued_at a)%Z || (at_expires_at a <? now)%Z)
    (ContractError STALE_EVIDENCE (at_nonce a)).

#[export] Instance FakeEvidenceVerifier : EvidenceVerifier FakeVerifier :=
  {| verify := FakeVerifier_verify; signed _ := false |}.

(** *** [FakeEvidenceIssuer] *)
Definition FakeIssuer_issue (p : Plan) (launch_id : string) (process : ProcessIdentity)
    (o : EvidenceObligation) (nonce : string) (now : Z) : method FakeVerifier exn Attestation :=
  match plugins p with
  | [] => raise IndexError
  | plugin :: _ =>
      mret (mkAttestation (Plan_plan_id p) launch_id process (obligation_id o) (ob_event o)
              nonce now (now + 60) (PluginIdentity_id plugin) "host-runtime" "" "" 0 "" "")
  end.

#[export] Instance FakeEvidenceIssuer : EvidenceIssuer FakeVerifier :=
  {| issue := FakeIssuer_issue |}.

(** *** [FakeExternalServiceAdapter]: [valid] *)
#[export] Instance FakeExternalServiceAdapter : ExternalServiceAdapter bool :=
  {| lease_valid _ := get |}.

(** ** [_plan_from_json]

    [Class( **item )] needs exactly the class's fields.  Python does not look at
    the types of the values; here a value of another type is a [TypeError]. *)

Definition field (kv : list (string * json)) (key : string) : result exn json :=
  match assoc key kv with Some v => Ok v | None => Raise (KeyError key) end.
Definition as_string (v : json) : result exn string :=
  match v with JStr s => Ok s | _ => Raise (TypeError "not a str") end.
Definition as_int (v : json) : result exn Z :=
  match v with JInt z => Ok z | _ => Raise (TypeError "not an int") end.
Definition as_bool (v : json) : result exn bool :=
  match v with JBool b => Ok b | _ => Raise (TypeError "not a bool") end.
Definition as_list (v : json) : result exn (list json) :=
  match v with JArr l => Ok l | _ => Raise (TypeError "not a list") end.
Definition as_dict (v : json) : result exn (list (string * json)) :=
  match v with JObj kv => Ok kv | _ => Raise (TypeError "not a dict") end.
Definition as_optional_string (v : json) : result exn (option string) :=
  match v with
  | JNull => Ok None
  | JStr s => Ok (Some s)
  | _ => Raise (TypeError "not a str")
  end.
Definition str_field (kv : list (string * json)) (key : string) : result exn string :=
  field kv key ≫= as_string.
(** [tuple(f(item) for item in value[key])] *)
Definition list_field {A} (kv : list (string * json)) (key : string) (f : json → result exn A)
    : result exn (list A) :=
  items ← field kv key ≫= as_list;
  mapR f items.

(** The keyword arguments of [Class( **v )]. *)
Definition keywords (fields : list string) (v : json) : result exn (list (string * json)) :=
  kv ← as_dict v;
  _ ← raise_if (negb (has_exactly fields kv)) (TypeError "unexpected or missing argument");
  Ok kv.

Definition plugin_of_json (v : json) : result exn PluginIdentity :=
  kv ← keywords ["namespace"; "name"; "version"; "artifact_sha256"] v;
  namespace ← str_field kv "namespace";
  name ← str_field kv "name";
  version ← str_field kv "version";
  artifact ← str_field kv "artifact_sha256";
  Ok (mkPlugin namespace name version artifact).

Definition host_of_json (v : json) : result exn HostCompatibility :=
  kv ← keywords ["runtime"; "version"; "provider"; "abi"] v;
  runtime ← str_field kv "runtime";
  version ← str_field kv "version";
  provider ← str_field kv "provider";
  abi ← str_field kv "abi";
  Ok (mkHost runtime version provider abi).

(** [mode] has the default ["exclusive"]. *)
Definition claim_of_json (v : json) : result exn ResourceClaim :=
  kv ← as_dict v;
  _ ← raise_if (negb (has_exactly ["uri"; "owner"; "mode"] kv)
                && negb (has_exactly ["uri"; "owner"] kv))
        (TypeError "unexpected or missing argument");
  uri ← str_field kv "uri";
  owner ← str_field kv "owner";
  mode ← match assoc "mode" kv with Some m => as_string m | None => Ok "exclusive" end;
  Ok (mkClaim uri owner mode).

Definition obligation_of_json (v : json) : result exn EvidenceObligation :=
  kv ← as_dict v;
  id ← str_field kv "obligation_id";
  role ← str_field kv "role";
  event ← str_field kv "event";
  ordinals ← list_field kv "required_ordinals" as_int;
  Ok (mkObligation id role event ordinals).

Definition predecessor_of_json (v : json) : result exn PredecessorSnapshot :=
  kv ← keywords ["generation"; "plan_id"; "rendered_inputs"] v;
  generation ← field kv "generation" ≫= as_int;
  plan_id ← field kv "plan_id" ≫= as_optional_string;
  inputs ← field kv "rendered_inputs" ≫= as_dict;
  Ok (mkPredecessor generation plan_id inputs).

Definition _plan_from_json (value : json) : result exn Plan :=
  kv ← as_dict value;
  plugins ← list_field kv "plugins" plugin_of_json;
  host ← field kv "host" ≫= host_of_json;
  claims ← list_field kv "claims" claim_of_json;
  obligations ← list_field kv "obligations" obligation_of_json;
  predecessor ← field kv "predecessor" ≫= predecessor_of_json;
  fallback ← match assoc "fallback_proven" kv with Some v => as_bool v | None => Ok false end;
  Ok (mkPlan plugins host claims obligations predecessor fallback).

(** ** The store *)

Record activation_row : Type := mkActivation {
  act_plan_json : json; act_state : State; act_launch_id : option string;
  act_predecessor_json : json; act_created_at : Z;
}.

Record journal_row : Type := mkJournal {
  j_sequence : Z; j_plan_id : string; j_kind : string; j_operation : string;
  j_detail : json; j_created_at : Z;
}.

Record inventory_row : Type := mkInventory {
  in_plan_id : string; in_host : string; in_role : string; in_ordinal : Z;
  in_start_id : string; in_epoch : Z;
}.

Record evidence_row : Type := mkEvidence {
  ev_nonce : string; ev_plan_id : string; ev_launch_id : string; ev_process_key : string;
  ev_role : string; ev_ordinal : Z; ev_epoch : Z; ev_obligation_id : string;
  ev_event : string; ev_issued_at : Z; ev_expires_at : Z; ev_artifact_id : string;
  ev_authority : string; ev_manager_epoch : Z; ev_valid : bool; ev_issuer : string;
  ev_kid : string; ev_observed_at : Z; ev_evidence_digest : string;
  ev_artifact_digest : string;
}.

Record outcome_row : Type := mkOutcome {
  ro_sequence : Z; ro_plan_id : string; ro_success : bool; ro_detail : json;
  ro_created_at : Z;
}.

(** The tables; [journal_sequence] and [outcome_sequence] are what SQLite keeps for
    the AUTOINCREMENT columns, so a deleted row's number is not given again. *)
Record Db : Type := mkDb {
  meta_generation : Z; meta_manager_epoch : Z;
  activation : gmap string activation_row;
  journal : list journal_row; journal_sequence : Z;
  inventory : list inventory_row;
  evidence : list evidence_row;
  rollback_outcome : list outcome_row; outcome_sequence : Z;
}.

(** [_schema] on a new file *)
Definition _schema : Db := mkDb 0 0 ∅ [] 0 [] [] [] 0.

Definition set_generation (g : Z) (d : Db) : Db :=
  mkDb g (meta_manager_epoch d) (activation d) (journal d) (journal_sequence d)
    (inventory d) (evidence d) (rollback_outcome d) (outcome_sequence d).
Definition set_manager_epoch (e : Z) (d : Db) : Db :=
  mkDb (meta_generation d) e (activation d) (journal d) (journal_sequence d)
    (inventory d) (evidence d) (rollback_outcome d) (outcome_sequence d).
Definition set_activation (m : gmap string activation_row) (d : Db) : Db :=
  mkDb (meta_generation d) (meta_manager_epoch d) m (journal d) (journal_sequence d)
    (inventory d) (evidence d) (rollback_outcome d) (outcome_sequence d).
Definition set_journal (j : list journal_row) (n : Z) (d : Db) : Db :=
  mkDb (meta_generation d) (meta_manager_epoch d) (activation d) j n
    (inventory d) (evidence d) (rollback_outcome d) (outcome_sequence d).
Definition set_inventory (i : list inventory_row) (d : Db) : Db :=
  mkDb (meta_generation d) (meta_manager_epoch d) (activation d) (journal d)
    (journal_sequence d) i (evidence d) (rollback_outcome d) (outcome_sequence d).
Definition set_evidence (e : list evidence_row) (d : Db) : Db :=
  mkDb (meta_generation d) (meta_manager_epoch d) (activation d) (journal d)
    (journal_sequence d) (inventory d) e (rollback_outcome d) (outcome_sequence d).
Definition set_outcome (o : list outcome_row) (n : Z) (d : Db) : Db :=
  mkDb (meta_generation d) (meta_manager_epoch d) (activation d) (journal d)
    (journal_sequence d) (inventory d) (evidence d) o n.

(** [INSERT INTO journal] *)
Definition append_journal (plan_id kind operation : string) (detail : json) (at_ : Z)
    (d : Db) : Db :=
  let n := (journal_sequence d + 1)%Z in
  set_journal (journal d ++ [mkJournal n plan_id kind operation detail at_]) n d.

(** [INSERT INTO rollback_outcome] *)
Definition append_outcome (plan_id : string) (success : bool) (detail : json) (at_ : Z)
    (d : Db) : Db :=
  let n := (outcome_sequence d + 1)%Z in
  set_outcome (rollback_outcome d ++ [mkOutcome n plan_id success detail at_]) n d.

Definition with_act_state (s : State) (r : activation_row) : activation_row :=
  mkActivation (act_plan_json r) s (act_launch_id r) (act_predecessor_json r)
    (act_created_at r).
Definition with_act_launch (l : string) (r : activation_row) : activation_row :=
  mkActivation (act_plan_json r) (act_state r) (Some l) (act_predecessor_json r)
    (act_created_at r).

(** [UPDATE evidence SET valid=0] *)
Definition invalidate (e : evidence_row) : evidence_row :=
  mkEvidence (ev_nonce e) (ev_plan_id e) (ev_launch_id e) (ev_process_key e) (ev_role e)
    (ev_ordinal e) (ev_epoch e) (ev_obligation_id e) (ev_event e) (ev_issued_at e)
    (ev_expires_at e) (ev_artifact_id e) (ev_authority e) (ev_manager_epoch e) false
    (ev_issuer e) (ev_kid e) (ev_observed_at e) (ev_evidence_digest e)
    (ev_artifact_digest e).

(** [SQLiteActivationStore.boot] *)
Definition boot_db (d : Db) : Db :=
  set_evidence (invalidate <$> evidence d) (set_manager_epoch (meta_manager_epoch d + 1) d).

Definition inventory_row_of (plan_id : string) (p : ProcessIdentity) : inventory_row :=
  mkInventory plan_id (p_host p) (p_role p) (p_ordinal p) (p_start_id p) (p_epoch p).

Definition evidence_row_of (plan_id : string) (epoch : Z) (a : Attestation) : evidence_row :=
  mkEvidence (at_nonce a) plan_id (at_launch_id a) (ProcessIdentity_key (at_process a))
    (p_role (at_process a)) (p_ordinal (at_process a)) (p_epoch (at_process a))
    (at_obligation_id a) (at_event a) (at_issued_at a) (at_expires_at a) (at_artifact_id a)
    (at_authority a) epoch true (at_issuer a) (at_kid a) (at_observed_at a)
    (at_evidence_digest a) (at_artifact_digest a).

(** ** The manager process *)

(** [self.traffic]: a [TrafficGate], or a [ReferenceExposureGate]. *)
Inductive TrafficSide (T : Type) : Type :=
  | PlainTraffic (t : T)
  | ExposureTraffic (w : ExposureGate.World).
Arguments PlainTraffic {T} t.
Arguments ExposureTraffic {T} w.

Record Manager (H V T X : Type) : Type := mkManager {
  db : Db;
  host : H;
  verifier : V;
  traffic : TrafficSide T;
  external : X;
  faults : gset string;
  ticks : nat;
  manager_epoch : Z;
}.
Arguments mkManager {H V T X}.
Arguments db {H V T X}.
Arguments host {H V T X}.
Arguments verifier {H V T X}.
Arguments traffic {H V T X}.
Arguments external {H V T X}.
Arguments faults {H V T X}.
Arguments ticks {H V T X}.
Arguments manager_epoch {H V T X}.

(** The plan has no obligation, or one that no process is required to meet. *)
Definition lacks_targets (p : Plan) : bool :=
  bool_decide (obligations p = []) ||
  existsb (λ o, bool_decide (required_ordinals o = [])) (obligations p).

(** [{(row["role"], row["ordinal"]): row["epoch"] for row in inventory}.get(key)] *)
Definition by_process (rows : list inventory_row) (role : string) (ordinal : Z) : option Z :=
  foldl (λ acc r, if bool_decide (in_role r = role) && (in_ordinal r =? ordinal)%Z
                  then Some (in_epoch r) else acc) None rows.

(** The evidence rows the query of [_evidence_complete] selects. *)
Definition current_evidence (plan_id : string) (epoch now : Z) (rows : list evidence_row)
    : list evidence_row :=
  filter (λ e, ev_plan_id e = plan_id ∧ ev_valid e = true ∧ ev_manager_epoch e = epoch ∧
               (now ≤ ev_expires_at e)%Z) rows.

(** [(role, ordinal, epoch, obligation_id, event) in observed] *)
Definition observed (rows : list evidence_row) (o : EvidenceObligation) (ordinal epoch : Z)
    : bool :=
  existsb (λ e, bool_decide (ev_role e = ob_role o) && (ev_ordinal e =? ordinal)%Z &&
                (ev_epoch e =? epoch)%Z && bool_decide (ev_obligation_id e = obligation_id o) &&
                bool_decide (ev_event e = ob_event o)) rows.

Definition obligation_observed (inv : list inventory_row) (rows : list evidence_row)
    (o : EvidenceObligation) : bool :=
  forallb (λ ordinal, match by_process inv (ob_role o) ordinal with
                      | Some epoch => observed rows o ordinal epoch
                      | None => false
                      end) (required_ordinals o).

Definition inventory_of (plan_id : string) (d : Db) : list inventory_row :=
  filter (λ r, in_plan_id r = plan_id) (inventory d).

(** [_evidence_complete] at manager epoch [epoch] *)
Definition _evidence_complete (p : Plan) (epoch now : Z) (d : Db) : bool :=
  negb (lacks_targets p) &&
  forallb (obligation_observed (inventory_of (Plan_plan_id p) d)
             (current_evidence (Plan_plan_id p) epoch now (evidence d))) (obligations p).

(** [SELECT * FROM inventory WHERE plan_id=? AND role=? AND ordinal=?] *)
Definition find_process (plan_id : string) (p : ProcessIdentity) (rows : list inventory_row)
    : option inventory_row :=
  head (filter (λ r, in_plan_id r = plan_id ∧ in_role r = p_role p ∧
                     in_ordinal r = p_ordinal p) rows).

(** The staleness test of [observe]. *)
Definition stale_evidence (plan_id : string) (launch : option string) (p : Plan)
    (found : option inventory_row) (item : Attestation) : bool :=
  negb (bool_decide (at_plan_id item = plan_id)) ||
  negb (bool_decide (Some (at_launch_id item) = launch)) ||
  negb (bool_decide (at_artifact_id item ∈ PluginIdentity_id <$> plugins p)) ||
  match found with
  | None => true
  | Some r => negb (bool_decide (in_start_id r = p_start_id (at_process item))) ||
              negb (in_epoch r =? p_epoch (at_process item))%Z
  end.

(** One [INSERT INTO inventory] of [executemany]. *)
Definition insert_process (rows : list inventory_row) (r : inventory_row)
    : result exn (list inventory_row) :=
  _ ← raise_if (existsb (λ r', bool_decide (in_plan_id r' = in_plan_id r) &&
                               bool_decide (in_role r' = in_role r) &&
                               (in_ordinal r' =? in_ordinal r)%Z) rows)
        (IntegrityError
           "UNIQUE constraint failed: inventory.plan_id, inventory.role, inventory.ordinal");
  Ok (rows ++ [r]).

(** [dict(row)] of a row [_open_proof] selects. *)
Definition proof_row (e : evidence_row) : json :=
  JObj [("nonce", JStr (ev_nonce e)); ("evidence_digest", JStr (ev_evidence_digest e));
        ("process_key", JStr (ev_process_key e)); ("obligation_id", JStr (ev_obligation_id e));
        ("event", JStr (ev_event e))].

Definition proof_evidence (plan_id : string) (epoch : Z) (rows : list evidence_row)
    : list json :=
  proof_row <$> sort_on ev_nonce
    (filter (λ e, ev_plan_id e = plan_id ∧ ev_valid e = true ∧ ev_manager_epoch e = epoch) rows).

(** [digest] inside [_open_proof] *)
Definition proof_digest (value : json) : string :=
  "sha256:" +:+ sha256_hexdigest (canonical_bytes value).

Definition is_None (v : json) : bool := match v with JNull => true | _ => false end.

(** The newest ["rollback.host"] row of the plan. *)
Definition host_receipt (plan_id : string) (rows : list journal_row) : option json :=
  j_detail <$> last (filter (λ r, j_plan_id r = plan_id ∧ j_operation r = "rollback.host") rows).

(** The coordinator state a gate's recovery and the host's answer lead to, when the
    gate's state is one [recover] knows. *)
Definition recovered_target (gate_state : ExposureGate.GateState) (host_detail : list (string * json))
    : option State :=
  match gate_state with
  | ExposureGate.SAFETY_UNKNOWN => Some SAFETY_UNKNOWN
  | _ =>
      if match gate_state with ExposureGate.FAILED_SAFE => true | _ => false end ||
         negb (is_None (json_get "error" host_detail)) ||
         is_None (json_get "outcome" host_detail)
      then Some FAILED_SAFE
      else match gate_state with
           | ExposureGate.ROLLED_BACK => Some ROLLED_BACK
           | _ => None
           end
  end.

(** The coordinator state [rollback] ends in. *)
Definition rollback_target (host_error : option string) (c : ExposureGate.RollbackClass) : State :=
  match c, host_error with
  | ExposureGate.Safety_unknown, _ => SAFETY_UNKNOWN
  | ExposureGate.Failed_safe, _ => FAILED_SAFE
  | _, Some _ => FAILED_SAFE
  | _, None => ROLLED_BACK
  end.

(** [GateState] of a fail-close's classification: the dictionary of [recover]. *)
Definition gate_state_of (c : ExposureGate.RollbackClass) : result exn ExposureGate.GateState :=
  match c with
  | ExposureGate.Failed_safe => Ok ExposureGate.FAILED_SAFE
  | ExposureGate.Safety_unknown => Ok ExposureGate.SAFETY_UNKNOWN
  | _ => Raise (KeyError (ExposureGate.RollbackClass_value c))
  end.

Definition fail_closed_target (c : ExposureGate.RollbackClass) : State :=
  match c with ExposureGate.Failed_safe => FAILED_SAFE | _ => SAFETY_UNKNOWN end.

(** ** [ActivationCoordinator] *)

Section coordinator.
Context {H V T X : Type} `{HostAdapter H} `{EvidenceVerifier V} `{TrafficGate T}
  `{ExternalServiceAdapter X}.
(** [clock] of the coordinator, and of the gate. *)
Context (clock gate_clock : nat → Z).

Definition op (A : Type) : Type := method (Manager H V T X) exn A.

Definition set_db (f : Db → Db) : op () :=
  modify (λ m, mkManager (f (db m)) (host m) (verifier m) (traffic m) (external m)
                 (faults m) (ticks m) (manager_epoch m)).

(** [with self.store.connection as db] *)
Definition transaction {A} (body : op A) : op A := λ m,
  match body m with
  | (Ok a, m') => (Ok a, m')
  | (Raise e, m') =>
      (Raise e, mkManager (db m) (host m') (verifier m') (traffic m') (external m')
                  (faults m') (ticks m') (manager_epoch m'))
  end.

(** Calls of the adapters. *)
Definition on_host {A} (call : method H exn A) : op A := λ m,
  let '(r, h) := call (host m) in
  (r, mkManager (db m) h (verifier m) (traffic m) (external m) (faults m) (ticks m)
        (manager_epoch m)).
Definition on_verifier {A} (call : method V exn A) : op A := λ m,
  let '(r, v) := call (verifier m) in
  (r, mkManager (db m) (host m) v (traffic m) (external m) (faults m) (ticks m)
        (manager_epoch m)).
Definition on_external {A} (call : method X exn A) : op A := λ m,
  let '(r, x) := call (external m) in
  (r, mkManager (db m) (host m) (verifier m) (traffic m) x (faults m) (ticks m)
        (manager_epoch m)).
Definition set_traffic (t : TrafficSide T) : op () :=
  modify (λ m, mkManager (db m) (host m) (verifier m) t (external m) (faults m) (ticks m)
                 (manager_epoch m)).
(** A method of [TrafficGate]; a [ReferenceExposureGate] has none of them. *)
Definition on_traffic {A} (call : method T exn A) : op A :=
  m ← get;
  match traffic m with
  | PlainTraffic t =>
      let '(r, t') := call t in
      _ ← set_traffic (PlainTraffic t');
      lift r
  | ExposureTraffic _ => raise (AttributeError "no such method of ReferenceExposureGate")
  end.
Definition gate_result {A} (r : result ExposureGate.exn A) : result exn A :=
  match r with Ok a => Ok a | Raise e => Raise (GateExn e) end.
(** A method of the exposure gate. *)
Definition on_gate {A} (call : ExposureGate.op A) : op A :=
  m ← get;
  match traffic m with
  | ExposureTraffic w =>
      let '(r, w') := call w in
      _ ← set_traffic (ExposureTraffic w');
      lift (gate_result r)
  | PlainTraffic _ => raise AssertionError
  end.
(** [self._exposure_gate() is not None] *)
Definition _exposure_gate : op bool :=
  m ← get;
  mret match traffic m with ExposureTraffic _ => true | PlainTraffic _ => false end.

(** [FaultInjector.hit] *)
Definition hit (point : string) : op () :=
  m ← get;
  if decide (point ∈ faults m) then
    _ ← modify (λ m, mkManager (db m) (host m) (verifier m) (traffic m) (external m)
                       (faults m ∖ {[point]}) (ticks m) (manager_epoch m));
    raise (RuntimeError ("injected fault: " +:+ point))
  else mret ().

Definition _now : op Z := λ m,
  (Ok (clock (ticks m)),
   mkManager (db m) (host m) (verifier m) (traffic m) (external m) (faults m) (S (ticks m))
     (manager_epoch m)).

Definition _row (plan_id : string) : op activation_row :=
  m ← get;
  match activation (db m) !! plan_id with
  | Some row => mret row
  | None => raise (ContractError UNKNOWN_RESOURCE plan_id)
  end.

Definition _journal (plan_id kind operation : string) (detail : json) : op () :=
  at_ ← _now;
  set_db (append_journal plan_id kind operation detail at_).

(** [UPDATE activation SET ... WHERE plan_id=?] *)
Definition update_activation (plan_id : string) (f : activation_row → activation_row) : op () :=
  set_db (λ d, set_activation (alter f plan_id (activation d)) d).

Definition _transition (plan_id : string) (target : State) : op () :=
  row ← _row plan_id;
  let current := act_state row in
  match TRANSITIONS current with
  | None => raise (KeyError (State_value current))
  | Some targets =>
      _ ← guard_raise (negb (bool_decide (target ∈ targets)))
            (ContractError INVALID_TRANSITION
               (State_value current +:+ " -> " +:+ State_value target));
      _ ← update_activation plan_id (with_act_state target);
      _journal plan_id "transition" (State_value target)
        (JObj [("from", JStr (State_value current))])
  end.

(** The stored plan. *)
Definition stored_plan (plan_id : string) : op Plan :=
  row ← _row plan_id;
  lift (_plan_from_json (act_plan_json row)).

Definition insert_activation (p : Plan) : op () :=
  at_ ← _now;
  m ← get;
  match activation (db m) !! Plan_plan_id p with
  | Some _ => raise (IntegrityError "UNIQUE constraint failed: activation.plan_id")
  | None =>
      set_db (λ d, set_activation
        (<[Plan_plan_id p :=
             mkActivation (Plan_asdict p) PLANNED None
               (PredecessorSnapshot_asdict (predecessor p)) at_]> (activation d)) d)
  end.

(** [DELETE FROM journal], [DELETE FROM activation] *)
Definition delete_plan (plan_id : string) (d : Db) : Db :=
  set_activation (delete plan_id (activation d))
    (set_journal (filter (λ r, j_plan_id r ≠ plan_id) (journal d)) (journal_sequence d) d).

Definition plan (p : Plan) : op string :=
  _ ← guard_raise (lacks_targets p)
        (ContractError MISSING_PROCESS_EVIDENCE
           "activation Plan requires non-empty evidence obligations and targets");
  _ ← transaction (
    _ ← insert_activation p;
    _journal (Plan_plan_id p) "transition" "plan" (JObj [("state", JStr "Planned")]));
  gated ← _exposure_gate;
  _ ← (if gated : bool then
         catch (_ ← on_gate (ExposureGate.stage gate_clock (JStr (Plan_plan_id p))
                               (PredecessorSnapshot_asdict (predecessor p)));
                mret ())
           (λ e, _ ← transaction (set_db (delete_plan (Plan_plan_id p))); raise e)
       else on_traffic (hold_predecessor (predecessor p)));
  mret (Plan_plan_id p).

(** The candidate's generation. *)
Definition next_generation (p : Plan) : Z := (pred_generation (predecessor p) + 1)%Z.

Definition prepare (plan_id : string) : op () :=
  p ← stored_plan plan_id;
  _ ← transaction (
    _ ← _transition plan_id PREPARING;
    _journal plan_id "wal" "prepare" (JObj []));
  _ ← hit "prepare.after_wal";
  receipt ← on_host (host_prepare p);
  _ ← hit "prepare.after_side_effect";
  _ ← transaction (
    _ ← _journal plan_id "receipt" "prepare" receipt;
    _transition plan_id PREPARED);
  gated ← _exposure_gate;
  if gated : bool then on_gate (ExposureGate.close gate_clock (next_generation p)) else mret ().

(** [DELETE FROM inventory], then [executemany] of the insertions. *)
Definition replace_inventory (plan_id : string) (processes : list ProcessIdentity) : op () :=
  _ ← set_db (λ d, set_inventory (filter (λ r, in_plan_id r ≠ plan_id) (inventory d)) d);
  m ← get;
  rows ← lift (foldR insert_process (inventory (db m))
                 (inventory_row_of plan_id <$> processes));
  set_db (set_inventory rows).

Definition launch (plan_id launch_id : string) : op () :=
  p ← stored_plan plan_id;
  _ ← transaction (
    _ ← _transition plan_id LAUNCHING;
    _ ← update_activation plan_id (with_act_launch launch_id);
    _journal plan_id "wal" "launch" (JObj [("launch_id", JStr launch_id)]));
  _ ← hit "launch.after_wal";
  processes ← on_host (host_launch p launch_id);
  _ ← hit "launch.after_side_effect";
  transaction (
    _ ← replace_inventory plan_id processes;
    _ ← _journal plan_id "receipt" "launch"
          (JObj [("count", JInt (Z.of_nat (length processes)))]);
    _transition plan_id OBSERVING).

(** [INSERT INTO evidence] *)
Definition insert_evidence (plan_id : string) (item : Attestation) : op () :=
  m ← get;
  _ ← guard_raise (existsb (λ e, bool_decide (ev_nonce e = at_nonce item)) (evidence (db m)))
        (IntegrityError "UNIQUE constraint failed: evidence.nonce");
  set_db (λ d, set_evidence (evidence d ++ [evidence_row_of plan_id (manager_epoch m) item]) d).

(** [state not in {State.OBSERVING, State.RECONCILE}] *)
Definition require_observing (row : activation_row) (what : string) : op () :=
  guard_raise (negb (bool_decide (act_state row ∈ [OBSERVING; RECONCILE])))
    (ContractError INVALID_TRANSITION (what +:+ " from " +:+ State_value (act_state row))).

Definition observe (plan_id : string) (item : Attestation) (now : option Z) : op () :=
  row ← _row plan_id;
  _ ← require_observing row "observe";
  p ← lift (_plan_from_json (act_plan_json row));
  observed_at ← match now with Some t => mret t | None => _now end;
  _ ← on_verifier (verify item observed_at p);
  m ← get;
  let found := find_process plan_id (at_process item) (inventory (db m)) in
  _ ← guard_raise (stale_evidence plan_id (act_launch_id row) p found item)
        (ContractError STALE_EVIDENCE (at_nonce item));
  catch (transaction (
           _ ← insert_evidence plan_id item;
           _journal plan_id "evidence" (at_event item) (Attestation_asdict item)))
    (λ e, match e with
          | IntegrityError _ => raise (ContractError REPLAYED_NONCE (at_nonce item))
          | _ => raise e
          end).

Definition refresh_inventory (plan_id : string) (processes : list ProcessIdentity) : op () :=
  row ← _row plan_id;
  _ ← require_observing row "refresh inventory";
  transaction (
    _ ← replace_inventory plan_id processes;
    _ ← set_db (λ d, set_evidence
          ((λ e, if bool_decide (ev_plan_id e = plan_id) then invalidate e else e) <$> evidence d)
          d);
    _journal plan_id "inventory" "refresh"
      (JObj [("processes", JArr (ProcessIdentity_asdict <$> processes))])).

(** *** Rolling back *)

Definition record_outcome (plan_id : string) (success : bool) (detail : json) : op () :=
  at_ ← _now;
  set_db (append_outcome plan_id success detail at_).

Definition error_of {A} (r : result exn A) : option string :=
  match r with Ok _ => None | Raise e => Some (str_exn e) end.
Definition outcome_of (r : result exn json) : json :=
  match r with Ok v => v | Raise _ => JNull end.

(** The class the gate ends in and the error met on the way: [rollback], or
    [fail_close] when the host failed or the rollback raises. *)
Definition rollback_gate (generation : Z) (host_error : option string)
    : op (ExposureGate.RollbackClass * option string) :=
  first ← attempt
    match host_error with
    | None => on_gate (ExposureGate.rollback gate_clock generation None)
    | Some _ =>
        r ← on_gate (ExposureGate.fail_close gate_clock generation "host rollback failed");
        mret (ExposureGate.fc_classification r)
    end;
  match first with
  | Ok c => mret (c, None)
  | Raise e =>
      second ← attempt
        (on_gate (ExposureGate.fail_close gate_clock generation "traffic rollback failed"));
      mret match second with
           | Ok r => (ExposureGate.fc_classification r, Some (str_exn e))
           | Raise e' => (ExposureGate.Safety_unknown,
                          Some (str_exn e +:+ "; fail-close: " +:+ str_exn e'))
           end
  end.

(** The part of [rollback] after the host's receipt, with an exposure gate. *)
Definition rollback_exposed (plan_id : string) (p : Plan) (host_outcome : json)
    (host_error : option string) : op State :=
  outcome ← rollback_gate (next_generation p) host_error;
  let '(gate_outcome, gate_error) := outcome in
  let class := JStr (ExposureGate.RollbackClass_value gate_outcome) in
  _ ← hit "rollback.after_traffic_side_effect";
  _ ← transaction (_journal plan_id "receipt" "rollback.traffic"
                     (JObj [("outcome", class); ("error", jstr_opt gate_error)]));
  let target := rollback_target host_error gate_outcome in
  _ ← transaction (
    _ ← record_outcome plan_id (bool_decide (target = ROLLED_BACK))
          (JObj [("host_outcome", host_outcome); ("host_error", jstr_opt host_error);
                 ("traffic_outcome", class); ("traffic_error", jstr_opt gate_error)]);
    _transition plan_id target);
  mret target.

(** The same part with a [TrafficGate]. *)
Definition rollback_plain (plan_id : string) (p : Plan) (host_outcome : json)
    (host_error : option string) : op State :=
  restored ← attempt
    (_ ← match host_error with
         | Some e => raise (RuntimeError e)
         | None => guard_raise (is_None host_outcome) AssertionError
         end;
     on_traffic (restore (predecessor p)));
  match restored with
  | Raise e =>
      _ ← transaction (
        _ ← record_outcome plan_id false (JObj [("error", JStr (str_exn e))]);
        _transition plan_id FAILED_SAFE);
      raise (ContractError ROLLBACK_FAILED (str_exn e))
  | Ok _ =>
      _ ← transaction (
        _ ← record_outcome plan_id true host_outcome;
        _ ← _journal plan_id "receipt" "rollback" host_outcome;
        _transition plan_id ROLLED_BACK);
      mret ROLLED_BACK
  end.

Definition rollback (plan_id reason : string) : op State :=
  p ← stored_plan plan_id;
  _ ← transaction (
    _ ← _transition plan_id ROLLBACK;
    _journal plan_id "wal" "rollback" (JObj [("reason", JStr reason)]));
  answer ← attempt (on_host (host_rollback (predecessor p)));
  let host_outcome := outcome_of answer in
  let host_error := error_of answer in
  _ ← transaction (_journal plan_id "receipt" "rollback.host"
                     (JObj [("outcome", host_outcome); ("error", jstr_opt host_error)]));
  gated ← _exposure_gate;
  if gated : bool then rollback_exposed plan_id p host_outcome host_error
  else rollback_plain plan_id p host_outcome host_error.

Definition external_lease_lost (plan_id : string) : op State :=
  p ← stored_plan plan_id;
  _ ← transaction (_transition plan_id DEGRADED);
  if fallback_proven p then
    _ ← transaction (_transition plan_id RECONCILE);
    mret RECONCILE
  else rollback plan_id "external lease invalid".

(** *** Committing *)

Definition _open_proof (p : Plan) (generation : Z) : op ExposureGate.OpenProof :=
  m ← get;
  let rows := proof_evidence (Plan_plan_id p) (manager_epoch m) (evidence (db m)) in
  lease ← on_gate (w ← get; mret (ExposureGate.authority w));
  row ← on_gate ExposureGate._row;
  mret (ExposureGate.mkProof (Plan_plan_id p) generation (Z.of_nat (length rows))
          (proof_digest (JArr rows))
          (proof_digest (JArr (EvidenceObligation_asdict <$> obligations p)))
          lease (ExposureGate.candidate_digest row)).

(** [UPDATE meta SET generation=generation+1 WHERE generation=?], and the test
    on its row count. *)
Definition cas_generation (p : Plan) (expected : Z) : op () :=
  m ← get;
  let changed := (meta_generation (db m) =? expected)%Z in
  _ ← (if changed then set_db (set_generation (meta_generation (db m) + 1)%Z) else mret ());
  guard_raise (negb changed || negb (pred_generation (predecessor p) =? expected)%Z)
    (ContractError CAS_MISMATCH (pretty expected)).

(** The side effect of [commit]. *)
Definition expose (p : Plan) (generation : Z) : op () :=
  gated ← _exposure_gate;
  if gated : bool then
    m ← get;
    _ ← guard_raise (negb (signed (verifier m)))
          (ContractError MISSING_PROCESS_EVIDENCE
             "ExposureGate requires signed receipt verification");
    proof ← _open_proof p generation;
    _ ← on_gate (ExposureGate.open gate_clock generation proof);
    mret ()
  else on_traffic (activate p).

Definition commit (plan_id : string) (expected_generation : Z) : op Z :=
  p ← stored_plan plan_id;
  valid ← on_external (lease_valid p);
  _ ← (if valid : bool then mret ()
       else _ ← external_lease_lost plan_id;
            raise (ContractError EXTERNAL_LEASE_INVALID plan_id));
  now ← _now;
  m ← get;
  _ ← guard_raise (negb (_evidence_complete p (manager_epoch m) now (db m)))
        (ContractError MISSING_PROCESS_EVIDENCE plan_id);
  _ ← transaction (
    _ ← _transition plan_id COMMIT_READY;
    _ ← _journal plan_id "wal" "commit" (JObj [("from", JInt expected_generation)]);
    cas_generation p expected_generation);
  _ ← hit "commit.after_wal";
  _ ← expose p (expected_generation + 1);
  _ ← hit "commit.after_side_effect";
  transaction (
    m ← get;
    let generation := meta_generation (db m) in
    _ ← _journal plan_id "receipt" "commit" (JObj [("generation", JInt generation)]);
    _ ← _transition plan_id EFFECTIVE;
    mret generation).

(** *** Recovering *)

(** The gate's recovery, then a fail-close when the host never answered. *)
Definition recover_gate (plan_id : string) (p : Plan)
    : op (ExposureGate.GateState * list (string * json)) :=
  m ← get;
  let receipt := host_receipt plan_id (journal (db m)) in
  gate_state ← on_gate (ExposureGate.reconcile gate_clock);
  match receipt with
  | None =>
      closed ← on_gate (ExposureGate.fail_close gate_clock (next_generation p)
                          "host rollback outcome missing during recovery");
      gate_state ← lift (gate_state_of (ExposureGate.fc_classification closed));
      mret (gate_state, [("outcome", JNull); ("error", JStr "missing host receipt")])
  | Some detail =>
      match detail with
      | JObj kv => mret (gate_state, kv)
      | _ => raise (AttributeError "no attribute 'get'")
      end
  end.

Definition recover_rollback (plan_id : string) (p : Plan) : op State :=
  recovered ← recover_gate plan_id p;
  let '(gate_state, host_detail) := recovered in
  target ← match recovered_target gate_state host_detail with
           | Some target => mret target
           | None =>
               closed ← on_gate (ExposureGate.fail_close gate_clock (next_generation p)
                                   ("unexpected gate recovery state " +:+
                                    ExposureGate.GateState_value gate_state));
               mret (fail_closed_target (ExposureGate.fc_classification closed))
           end;
  let detail := JObj [("recovered", JBool true); ("host", JObj host_detail);
                      ("gate_state", JStr (ExposureGate.GateState_value gate_state))] in
  _ ← transaction (
    _ ← record_outcome plan_id (bool_decide (target = ROLLED_BACK)) detail;
    _ ← _journal plan_id "receipt" "rollback.recover" detail;
    _transition plan_id target);
  mret target.

(** [recover] from [COMMIT_READY] with an exposure gate; [true] when the
    candidate turns out to be exposed. *)
Definition recover_commit (plan_id : string) (p : Plan) : op bool :=
  gate_state ← on_gate (ExposureGate.reconcile gate_clock);
  match gate_state with
  | ExposureGate.CANDIDATE_OPEN =>
      _ ← transaction (
        _ ← _journal plan_id "receipt" "commit.reconcile" (JObj [("queried", JBool true)]);
        _transition plan_id EFFECTIVE);
      mret true
  | _ =>
      _ ← (match gate_state with
           | ExposureGate.CANDIDATE_CLOSED =>
               _ ← on_gate (ExposureGate.rollback gate_clock (next_generation p) None);
               mret ()
           | _ => mret ()
           end);
      _ ← transaction (
        _ ← _transition plan_id RECONCILE;
        _journal plan_id "recovery" "gate-not-open"
          (JObj [("gate_state", JStr (ExposureGate.GateState_value gate_state))]));
      mret false
  end.

Definition recover (plan_id : string) : op State :=
  row ← _row plan_id;
  let state := act_state row in
  p ← lift (_plan_from_json (act_plan_json row));
  gated ← _exposure_gate;
  if bool_decide (state = ROLLBACK) then
    if gated : bool then recover_rollback plan_id p
    else _ ← transaction (_transition plan_id FAILED_SAFE); mret FAILED_SAFE
  else if bool_decide (state = COMMIT_READY) && gated then
    exposed ← recover_commit plan_id p;
    if exposed : bool then mret EFFECTIVE
    else row ← _row plan_id; mret (act_state row)
  else
    _ ← (if bool_decide (state ∈ [PREPARING; LAUNCHING; OBSERVING]) && gated then
           _ ← on_gate (ExposureGate.rollback gate_clock (next_generation p) None);
           transaction (
             _ ← _transition plan_id RECONCILE;
             _journal plan_id "recovery" "pre-open-rollback"
               (JObj [("state", JStr (State_value state))]))
         else if bool_decide (state ∈ [PREPARING; LAUNCHING; COMMIT_READY]) then
           _ ← on_traffic (restore (predecessor p));
           transaction (
             _ ← _transition plan_id RECONCILE;
             _journal plan_id "recovery" "reobserve" (JObj []))
         else if bool_decide (state = OBSERVING) then
           _ ← on_traffic (restore (predecessor p));
           transaction (_transition plan_id RECONCILE)
         else mret ());
    row ← _row plan_id;
    mret (act_state row).

Definition resume_observing (plan_id : string) : op () :=
  transaction (_transition plan_id OBSERVING).

Definition status (plan_id : string) : op json :=
  row ← _row plan_id;
  m ← get;
  mret (JObj [("plan_id", JStr plan_id); ("state", JStr (State_value (act_state row)));
              ("launch_id", jstr_opt (act_launch_id row));
              ("generation", JInt (meta_generation (db m)));
              ("manager_epoch", JInt (manager_epoch m))]).

(** [ActivationCoordinator.__init__] on a store: it boots it. *)
Definition start (d : Db) (h : H) (v : V) (t : TrafficSide T) (x : X) (armed : gset string)
    (n : nat) : Manager H V T X :=
  let d' := boot_db d in
  mkManager d' h v t x armed n (meta_manager_epoch d').

(** *** Runs *)

Inductive call : Type :=
  | Call_plan (p : Plan)
  | Call_prepare (plan_id : string)
  | Call_launch (plan_id launch_id : string)
  | Call_observe (plan_id : string) (item : Attestation) (now : option Z)
  | Call_refresh_inventory (plan_id : string) (processes : list ProcessIdentity)
  | Call_commit (plan_id : string) (expected_generation : Z)
  | Call_recover (plan_id : string)
  | Call_resume_observing (plan_id : string)
  | Call_rollback (plan_id reason : string)
  | Call_external_lease_lost (plan_id : string).

Definition perform (c : call) : op () :=
  match c with
  | Call_plan p => _ ← plan p; mret ()
  | Call_prepare i => prepare i
  | Call_launch i l => launch i l
  | Call_observe i a now => observe i a now
  | Call_refresh_inventory i ps => refresh_inventory i ps
  | Call_commit i g => _ ← commit i g; mret ()
  | Call_recover i => _ ← recover i; mret ()
  | Call_resume_observing i => resume_observing i
  | Call_rollback i reason => _ ← rollback i reason; mret ()
  | Call_external_lease_lost i => _ ← external_lease_lost i; mret ()
  end.

Definition run (c : call) (m : Manager H V T X) : Manager H V T X := exec (perform c) m.
Definition run_all (cs : list call) (m : Manager H V T X) : Manager H V T X :=
  foldl (λ m c, run c m) m cs.

(** Calls that may raise or be cut short at an armed fault point; another
    manager, booted on the store earlier, that takes its turn with adapters in
    any state; and a restart, which boots the store again. *)
Inductive step (m : Manager H V T X) : Manager H V T X → Prop :=
  | step_call c : step m (run c m)
  | step_switch h v t x armed n epoch :
      (1 ≤ epoch ≤ meta_manager_epoch (db m))%Z →
      step m (mkManager (db m) h v t x armed n epoch)
  | step_restart h v t x armed n : step m (start (db m) h v t x armed n).

Definition reachable (m : Manager H V T X) : Prop :=
  ∃ h v t x armed n, rtc step (start _schema h v t x armed n) m.
End coordinator.
