(* ===== verification/CoordinatorInvariants.v ===== *)
(** * Invariants of the coordinator's durable store

    The journal of a plan is a word of a protocol: [dstep] lists what one database
    transaction of the coordinator may append, with the state it starts from and
    the state it leaves.  [coord_inv] says that every stored plan's journal is such
    a history ending in the stored state, that evidence names processes of the
    current inventory, and that a plan past its commit intent has consumed its
    predecessor's generation.  Every call preserves it, whether it returns, raises
    or is cut short at a fault point, and whatever the adapters do. *)

From S2P Require Import Prelude PyStd DurableCoordinator.
From S2P Require ExposureGate.

Local Open Scope string_scope.
Local Open Scope list_scope.

(** ** The protocol of a plan's journal *)

(** Kind, operation and detail of a journal row. *)
Definition entry : Type := string * string * json.
Definition entry_of (r : journal_row) : entry := (j_kind r, j_operation r, j_detail r).

Definition entries (plan_id : string) (d : Db) : list entry :=
  entry_of <$> filter (λ r, j_plan_id r = plan_id) (journal d).

Definition allowed (s t : State) : bool :=
  match TRANSITIONS s with Some l => bool_decide (t ∈ l) | None => false end.

Definition planned : entry := ("transition", "plan", JObj [("state", JStr "Planned")]).
Definition move (s t : State) : entry :=
  ("transition", State_value t, JObj [("from", JStr (State_value s))]).
Definition wal (operation : string) (detail : list (string * json)) : entry :=
  ("wal", operation, JObj detail).
Definition receipt (operation : string) (detail : json) : entry := ("receipt", operation, detail).
Definition recovery (operation : string) (detail : list (string * json)) : entry :=
  ("recovery", operation, JObj detail).

Definition ended : list State := [ROLLED_BACK; FAILED_SAFE; SAFETY_UNKNOWN].

(** One transaction: intents are journalled with the transition they announce,
    receipts with the transition they justify. *)
Inductive dstep : State → list entry → State → Prop :=
  | d_prepare : dstep PLANNED [move PLANNED PREPARING; wal "prepare" []] PREPARING
  | d_prepared r : dstep PREPARING [receipt "prepare" r; move PREPARING PREPARED] PREPARED
  | d_launch l :
      dstep PREPARED [move PREPARED LAUNCHING; wal "launch" [("launch_id", JStr l)]] LAUNCHING
  | d_launched n :
      dstep LAUNCHING [receipt "launch" (JObj [("count", JInt n)]); move LAUNCHING OBSERVING]
        OBSERVING
  | d_evidence s a :
      s ∈ [OBSERVING; RECONCILE] → dstep s [("evidence", at_event a, Attestation_asdict a)] s
  | d_refresh s ps :
      s ∈ [OBSERVING; RECONCILE] → dstep s [("inventory", "refresh", JObj ps)] s
  | d_commit g :
      dstep OBSERVING [move OBSERVING COMMIT_READY; wal "commit" [("from", JInt g)]] COMMIT_READY
  | d_committed g :
      dstep COMMIT_READY
        [receipt "commit" (JObj [("generation", JInt g)]); move COMMIT_READY EFFECTIVE] EFFECTIVE
  | d_commit_found :
      dstep COMMIT_READY
        [receipt "commit.reconcile" (JObj [("queried", JBool true)]); move COMMIT_READY EFFECTIVE]
        EFFECTIVE
  | d_lease_lost s : allowed s DEGRADED = true → dstep s [move s DEGRADED] DEGRADED
  | d_fallback : dstep DEGRADED [move DEGRADED RECONCILE] RECONCILE
  | d_interrupted s operation detail :
      s ∈ [PREPARING; LAUNCHING; OBSERVING; COMMIT_READY] →
      operation ∈ ["gate-not-open"; "pre-open-rollback"; "reobserve"] →
      dstep s [move s RECONCILE; recovery operation detail] RECONCILE
  | d_reobserve : dstep OBSERVING [move OBSERVING RECONCILE] RECONCILE
  | d_resume s : allowed s OBSERVING = true → dstep s [move s OBSERVING] OBSERVING
  | d_rollback s reason :
      allowed s ROLLBACK = true →
      dstep s [move s ROLLBACK; wal "rollback" [("reason", JStr reason)]] ROLLBACK
  | d_rollback_receipt operation detail :
      operation ∈ ["rollback.host"; "rollback.traffic"] →
      dstep ROLLBACK [receipt operation detail] ROLLBACK
  | d_rolled_back detail :
      dstep ROLLBACK [receipt "rollback" detail; move ROLLBACK ROLLED_BACK] ROLLED_BACK
  | d_rollback_recovered detail t :
      t ∈ ended → dstep ROLLBACK [receipt "rollback.recover" detail; move ROLLBACK t] t
  | d_rollback_ended t : t ∈ ended → dstep ROLLBACK [move ROLLBACK t] t.

(** The journal of a plan that has reached a state. *)
Inductive history : list entry → State → Prop :=
  | history_planned : history [planned] PLANNED
  | history_step l s rows s' : history l s → dstep s rows s' → history (l ++ rows) s'.

(** What is appended while the state moves on. *)
Inductive evolution (s : State) : list entry → State → Prop :=
  | evolution_refl : evolution s [] s
  | evolution_step l s1 rows s2 :
      evolution s l s1 → dstep s1 rows s2 → evolution s (l ++ rows) s2.

Lemma evolution_once s rows s' : dstep s rows s' → evolution s rows s'.
Proof. intros Hd. change rows with ([] ++ rows). eapply evolution_step; [constructor|done]. Qed.

Lemma evolution_trans s l s1 l' s2 :
  evolution s l s1 → evolution s1 l' s2 → evolution s (l ++ l') s2.
Proof.
  intros H1 H2. induction H2 as [|l' s2 rows s3 _ IH Hd]; [by rewrite app_nil_r|].
  rewrite app_assoc. by eapply evolution_step.
Qed.

(** Case analysis on membership in a list of constants. *)
Ltac cases_in H :=
  repeat (apply elem_of_cons in H as [->|H]); try (by apply not_elem_of_nil in H).

(** Every change of state is an edge of [TRANSITIONS]. *)
Lemma dstep_allowed s rows s' : dstep s rows s' → s' = s ∨ allowed s s' = true.
Proof.
  destruct 1; try (by left); try (by right);
    match goal with H : ?s ∈ _, H' : _ |- _ ∨ allowed ?s _ = true => cases_in H
    | H : ?s ∈ _ |- _ ∨ allowed _ ?s = true => unfold ended in H; cases_in H end; auto.
Qed.

(** States before a process has been observed. *)
Definition early : list State := [INTENT; PLANNED; PREPARING; PREPARED; LAUNCHING].

Lemma allowed_not_early s t : allowed s t = true → s ∉ early → t ∉ early.
Proof.
  intros Ha He Ht. unfold early in *.
  destruct s, t; try (vm_compute in Ha; discriminate Ha); try (by destruct He; in_list);
    revert Ht; not_in_list.
Qed.

Lemma dstep_not_early s rows s' : dstep s rows s' → s ∉ early → s' ∉ early.
Proof.
  intros Hd He. destruct (dstep_allowed _ _ _ Hd) as [->|Ha]; [done|].
  by eapply allowed_not_early.
Qed.

Lemma ended_final s t : s ∈ ended → allowed s t = false.
Proof. unfold ended. intros Hs. cases_in Hs; done. Qed.

Lemma dstep_ended s rows s' : dstep s rows s' → s ∉ ended.
Proof.
  intros Hd Hs. pose proof (ended_final s s' Hs) as Hno.
  destruct Hd; try congruence; try (revert Hs; not_in_list);
    match goal with H : ?s ∈ [_; _] |- _ => cases_in H | H : ?s ∈ [_; _; _; _] |- _ => cases_in H end;
    revert Hs; not_in_list.
Qed.

Lemma evolution_ended s l s' : evolution s l s' → s ∈ ended → s' = s ∧ l = [].
Proof.
  induction 1 as [|l s1 rows s2 _ IH Hd]; [done|]. intros Hs.
  destruct (IH Hs) as [-> _]. by destruct (dstep_ended _ _ _ Hd).
Qed.

(** ** Stored plans read back *)

Lemma mapR_asdict {A} (f : A → json) (g : json → result exn A) l :
  (∀ x, g (f x) = Ok x) → mapR g (f <$> l) = Ok l.
Proof.
  intros Hg. induction l as [|x l IH]; [done|].
  rewrite fmap_cons. cbn [mapR]. rewrite Hg. unfold mbind, result_bind. by rewrite IH.
Qed.

Lemma list_field_asdict {A} (f : A → json) (g : json → result exn A) kv key l :
  assoc key kv = Some (JArr (f <$> l)) → (∀ x, g (f x) = Ok x) → list_field kv key g = Ok l.
Proof.
  intros Hkv Hg. unfold list_field, field. rewrite Hkv. by apply (mapR_asdict f g).
Qed.

Lemma obligation_round_trip o : obligation_of_json (EvidenceObligation_asdict o) = Ok o.
Proof.
  unfold obligation_of_json, EvidenceObligation_asdict, as_dict, mbind, result_bind.
  rewrite (list_field_asdict JInt as_int _ _ (required_ordinals o)) by done. by destruct o.
Qed.

Lemma predecessor_round_trip p : predecessor_of_json (PredecessorSnapshot_asdict p) = Ok p.
Proof. by destruct p as [g [i|] kv]. Qed.

Lemma plan_round_trip p : _plan_from_json (Plan_asdict p) = Ok p.
Proof.
  unfold _plan_from_json, Plan_asdict, as_dict, mbind, result_bind.
  rewrite (list_field_asdict PluginIdentity_asdict plugin_of_json _ _ (plugins p)),
    (list_field_asdict ResourceClaim_asdict claim_of_json _ _ (claims p)),
    (list_field_asdict EvidenceObligation_asdict obligation_of_json _ _ (obligations p))
    by (done || apply obligation_round_trip || by intros []).
  unfold field. simpl. rewrite predecessor_round_trip. by destruct p as [? [] ? ? ? ?].
Qed.

(** ** The invariant *)

(** The evidence names the plan's launch, one of its artifacts, and a process of
    the current inventory: its role, ordinal, start and epoch. *)
Record bound (d : Db) (row : activation_row) (e : evidence_row) : Prop := {
  bound_launch : act_launch_id row = Some (ev_launch_id e);
  bound_artifact : ∃ p, act_plan_json row = Plan_asdict p ∧
    ev_artifact_id e ∈ PluginIdentity_id <$> plugins p;
  bound_process : ∃ i h, i ∈ inventory d ∧ in_plan_id i = ev_plan_id e ∧
    in_role i = ev_role e ∧ in_ordinal i = ev_ordinal e ∧ in_epoch i = ev_epoch e ∧
    ev_process_key e =
      ProcessIdentity_key (mkProcess h (in_role i) (in_ordinal i) (in_start_id i) (in_epoch i));
}.

Definition evidence_ok (d : Db) (e : evidence_row) : Prop :=
  ∃ row, activation d !! ev_plan_id e = Some row ∧ act_state row ∉ early ∧
         (ev_valid e = true → bound d row e).

(** What a stored plan promises; [plan_id] is its key. *)
Record plan_ok (d : Db) (plan_id : string) (row : activation_row) : Prop := {
  ok_history : history (entries plan_id d) (act_state row);
  ok_plan : ∃ p, act_plan_json row = Plan_asdict p ∧ plan_id = Plan_plan_id p ∧
    lacks_targets p = false ∧
    (act_state row ∈ [COMMIT_READY; EFFECTIVE] →
     (pred_generation (predecessor p) < meta_generation d)%Z);
}.

Record coord_inv (d : Db) : Prop := {
  inv_plan plan_id row : activation d !! plan_id = Some row → plan_ok d plan_id row;
  inv_absent plan_id : activation d !! plan_id = None → entries plan_id d = [];
  inv_nonces : NoDup (ev_nonce <$> evidence d);
  inv_evidence e : e ∈ evidence d → evidence_ok d e;
}.

(** ** What a call can never undo *)

(** The row a plan has later: same plan, a journal that went on by the protocol. *)
Definition plan_continues (d d' : Db) (plan_id : string) (row row' : activation_row) : Prop :=
  act_plan_json row' = act_plan_json row ∧
  act_predecessor_json row' = act_predecessor_json row ∧
  ∃ rows, entries plan_id d' = entries plan_id d ++ rows ∧
          evolution (act_state row) rows (act_state row').

(** A row is only ever invalidated. *)
Definition continues (e e' : evidence_row) : Prop := e' = e ∨ e' = invalidate e.

Record evolves (d d' : Db) : Prop := {
  ev_generation : (meta_generation d ≤ meta_generation d')%Z;
  ev_epochs : (meta_manager_epoch d ≤ meta_manager_epoch d')%Z;
  ev_plans plan_id row : activation d !! plan_id = Some row →
    ∃ row', activation d' !! plan_id = Some row' ∧ plan_continues d d' plan_id row row';
  ev_evidence e : e ∈ evidence d → ∃ e', e' ∈ evidence d' ∧ continues e e';
}.

Lemma invalidate_idemp e : invalidate (invalidate e) = invalidate e.
Proof. done. Qed.

#[export] Instance continues_preorder : PreOrder continues.
Proof.
  split; [by left|]. intros e e' e'' [->| ->] [->| ->]; unfold continues;
    rewrite ?invalidate_idemp; auto.
Qed.

#[export] Instance evolves_preorder : PreOrder evolves.
Proof.
  split.
  - intros d. split; try done.
    + intros i row Hr. exists row. split; [done|]. split; [done|]. split; [done|].
      exists []. by rewrite app_nil_r; split; [|constructor].
    + intros e He. exists e. split; [done|]. by left.
  - intros d d1 d2 [G1 E1 P1 V1] [G2 E2 P2 V2]. split; [lia|lia| |].
    + intros i row Hr. destruct (P1 _ _ Hr) as (r1 & H1 & Hj1 & Hp1 & l1 & Hl1 & Hs1).
      destruct (P2 _ _ H1) as (r2 & H2 & Hj2 & Hp2 & l2 & Hl2 & Hs2).
      exists r2. split; [done|]. split; [congruence|]. split; [congruence|].
      exists (l1 ++ l2). rewrite Hl2, Hl1, app_assoc. split; [done|].
      by eapply evolution_trans.
    + intros e He. destruct (V1 _ He) as (e1 & He1 & C1).
      destruct (V2 _ He1) as (e2 & He2 & C2). exists e2. split; [done|]. by etrans.
Qed.

(** ** Journal rows by plan *)

Lemma entries_append i k o dt at_ d j :
  entries j (append_journal i k o dt at_ d) =
  entries j d ++ (if bool_decide (i = j) then [(k, o, dt)] else []).
Proof.
  unfold entries, append_journal, set_journal. simpl.
  rewrite filter_app, fmap_app. f_equal. rewrite filter_cons, filter_nil. simpl.
  case_bool_decide; by case_decide.
Qed.

Lemma entries_append_same i k o dt at_ d :
  entries i (append_journal i k o dt at_ d) = entries i d ++ [(k, o, dt)].
Proof. rewrite entries_append. by rewrite bool_decide_eq_true_2. Qed.

Lemma entries_append_ne i k o dt at_ d j :
  i ≠ j → entries j (append_journal i k o dt at_ d) = entries j d.
Proof. intros Hij. rewrite entries_append, bool_decide_eq_false_2 by done. apply app_nil_r. Qed.

Lemma entries_same i d d' : journal d' = journal d → entries i d' = entries i d.
Proof. unfold entries. by intros ->. Qed.

(** ** One transaction about one plan *)

Definition past_intent (r : activation_row) (g : Z) : Prop :=
  ∃ p, act_plan_json r = Plan_asdict p ∧ (pred_generation (predecessor p) < g)%Z.

Record stepped (i : string) (r r' : activation_row) (rows : list entry) (d d' : Db) : Prop := {
  st_before : activation d !! i = Some r;
  st_after : activation d' = <[i := r']> (activation d);
  st_json : act_plan_json r' = act_plan_json r;
  st_predecessor : act_predecessor_json r' = act_predecessor_json r;
  st_dstep : dstep (act_state r) rows (act_state r');
  st_entries : entries i d' = entries i d ++ rows;
  st_others j : j ≠ i → entries j d' = entries j d;
  st_generation : (meta_generation d ≤ meta_generation d')%Z;
  st_epoch : meta_manager_epoch d' = meta_manager_epoch d;
  st_cas : act_state r = OBSERVING → act_state r' = COMMIT_READY →
    past_intent r (meta_generation d');
}.

(** [COMMIT_READY] is entered from [OBSERVING], [EFFECTIVE] from [COMMIT_READY]. *)
Lemma dstep_committing s rows s' :
  dstep s rows s' → s' ∈ [COMMIT_READY; EFFECTIVE] →
  s ∈ [COMMIT_READY; EFFECTIVE] ∨ s = OBSERVING ∧ s' = COMMIT_READY.
Proof.
  intros Hd Hs'. destruct (dstep_allowed _ _ _ Hd) as [->|Ha]; [by left|].
  cases_in Hs'; destruct s; try discriminate Ha; [by right|left; in_list].
Qed.

Lemma stepped_plan i r r' rows d d' :
  coord_inv d → stepped i r r' rows d d' →
  ∀ j row, activation d' !! j = Some row → plan_ok d' j row.
Proof.
  intros Hd [Hr Hact Hj Hp Hs He Ho Hg _ Hcas] j row. rewrite Hact.
  destruct (decide (i = j)) as [<-|Hij].
  - rewrite lookup_insert_eq. intros [= <-].
    destruct (inv_plan _ Hd _ _ Hr) as [Hh (p & Hpj & Hid & Hl & Hcm)]. split.
    + rewrite He. by eapply history_step.
    + exists p. split; [congruence|]. split; [done|]. split; [done|]. intros Hin.
      destruct (dstep_committing _ _ _ Hs Hin) as [Hin'|[H1 H2]].
      * specialize (Hcm Hin'). lia.
      * destruct (Hcas H1 H2) as (p' & Hp' & Hlt).
        rewrite Hpj in Hp'. pose proof (plan_round_trip p) as E1.
        rewrite Hp', plan_round_trip in E1. by injection E1 as ->.
  - rewrite lookup_insert_ne by done. intros Hrow.
    destruct (inv_plan _ Hd _ _ Hrow) as [Hh (p & Hpj & Hid & Hl & Hcm)]. split.
    + by rewrite Ho.
    + exists p. repeat (split; [done|]). intros Hin. specialize (Hcm Hin). lia.
Qed.

Lemma stepped_inv i r r' rows d d' :
  coord_inv d → stepped i r r' rows d d' →
  NoDup (ev_nonce <$> evidence d') → (∀ e, e ∈ evidence d' → evidence_ok d' e) →
  (∀ e, e ∈ evidence d → ∃ e', e' ∈ evidence d' ∧ continues e e') →
  coord_inv d' ∧ evolves d d'.
Proof.
  intros Hd Hst Hnd Hok Hev. pose proof (stepped_plan _ _ _ _ _ _ Hd Hst) as Hplan.
  destruct Hst as [Hr Hact Hj Hp Hs He Ho Hg Hep Hcas].
  split; split; try done; [|lia|].
  - intros j. rewrite Hact. intros [Hj' Hij]%lookup_insert_None.
    rewrite Ho by done. by apply (inv_absent _ Hd).
  - intros j row Hrow. rewrite Hact. destruct (decide (i = j)) as [<-|Hij].
    + rewrite lookup_insert_eq. exists r'. simplify_eq. split; [done|].
      split; [done|]. split; [done|]. exists rows. split; [done|]. by apply evolution_once.
    + rewrite lookup_insert_ne by done. exists row. split; [done|].
      split; [done|]. split; [done|]. exists []. rewrite app_nil_r. split; [auto|constructor].
Qed.

(** Transactions that touch neither evidence, inventory nor the launch. *)
Lemma stepped_quiet i r r' rows d d' :
  coord_inv d → stepped i r r' rows d d' →
  evidence d' = evidence d → inventory d' = inventory d →
  act_launch_id r' = act_launch_id r →
  coord_inv d' ∧ evolves d d'.
Proof.
  intros Hd Hst Hev Hinv Hl. eapply stepped_inv; try done; rewrite ?Hev.
  - apply (inv_nonces _ Hd).
  - intros e He. destruct (inv_evidence _ Hd _ He) as (row & Hrow & Hne & Hb).
    destruct Hst as [Hr Hact Hj Hp Hs _ _ _ _ _].
    unfold evidence_ok. rewrite Hact. destruct (decide (i = ev_plan_id e)) as [->|Hij].
    + rewrite lookup_insert_eq. simplify_eq. exists r'. split; [done|].
      split; [by eapply dstep_not_early|]. intros Hv. destruct (Hb Hv) as [B1 B2 B3].
      split; rewrite ?Hl, ?Hj, ?Hinv; done.
    + rewrite lookup_insert_ne by done. exists row. split; [done|]. split; [done|].
      intros Hv. destruct (Hb Hv) as [B1 B2 B3]. split; rewrite ?Hinv; done.
  - intros e He. exists e. split; [done|]. by left.
Qed.

(** ** Triples over the store *)

Notation triple P m Q E := (triple_of (X := exn) db P m Q E).

Lemma alter_insert_found {A} (f : A → A) (m : gmap string A) i x :
  m !! i = Some x → alter f i m = <[i := f x]> m.
Proof.
  intros Hx. apply map_eq. intros j. destruct (decide (i = j)) as [<-|Hij].
  - by rewrite lookup_alter_eq, Hx, lookup_insert_eq.
  - by rewrite lookup_alter_ne, lookup_insert_ne.
Qed.

Lemma allowed_targets s t targets :
  TRANSITIONS s = Some targets → negb (bool_decide (t ∈ targets)) = false → allowed s t = true.
Proof. intros Hs Ht. unfold allowed. rewrite Hs. by apply negb_false_iff. Qed.

(** The store after [_transition i t] journalled at time [at_]. *)
Definition moved (i : string) (t : State) (row : activation_row) (at_ : Z) (d : Db) : Db :=
  append_journal i "transition" (State_value t)
    (JObj [("from", JStr (State_value (act_state row)))]) at_
    (set_activation (<[i := with_act_state t row]> (activation d)) d).

Section primitives.
Context {H V T X : Type}.
Context (clock : nat → Z).
Notation op := (@op H V T X).

Lemma coord_triple_transaction {A} P (m : op A) Q (E : Db → Prop) :
  triple P m Q (λ _, True) → (∀ d, P d → E d) → triple P (transaction m) Q E.
Proof.
  intros Hm HE s Hs. specialize (Hm s Hs). unfold transaction.
  destruct (m s) as [[a|e] s']; [done|]. by apply HE.
Qed.

Lemma triple_set_db P f (Q : () → Db → Prop) (E : Db → Prop) :
  (∀ d, P d → Q tt (f d)) → triple P (set_db f : op ()) Q E.
Proof. intros HQ s Hs. by apply HQ. Qed.

Lemma set_db_triple P f (E : Db → Prop) :
  triple P (set_db f : op ()) (λ _ d', ∃ d, P d ∧ d' = f d) E.
Proof. apply triple_set_db. eauto. Qed.

Lemma keeps_now : keeps db (_now clock : op Z).
Proof. done. Qed.
Lemma keeps_faults (f : Manager H V T X → gset string) :
  keeps db (modify (λ m, mkManager (db m) (host m) (verifier m) (traffic m) (external m)
                           (f m) (ticks m) (manager_epoch m)) : op ()).
Proof. done. Qed.
Lemma keeps_set_traffic t : keeps db (set_traffic t : op ()).
Proof. done. Qed.
Lemma keeps_hit point : keeps db (hit point : op ()).
Proof. intros m. unfold hit, mbind, method_bind, get. by case_decide. Qed.
Lemma keeps_on_host {A} (c : method H exn A) : keeps db (on_host c : op A).
Proof. intros m. unfold on_host. by destruct (c (host m)). Qed.
Lemma keeps_on_verifier {A} (c : method V exn A) : keeps db (on_verifier c : op A).
Proof. intros m. unfold on_verifier. by destruct (c (verifier m)). Qed.
Lemma keeps_on_external {A} (c : method X exn A) : keeps db (on_external c : op A).
Proof. intros m. unfold on_external. by destruct (c (external m)). Qed.
Lemma keeps_on_traffic {A} (c : method T exn A) : keeps db (on_traffic c : op A).
Proof.
  intros m. unfold on_traffic, mbind, method_bind, get.
  destruct (traffic m) as [t|w]; [|done]. by destruct (c t) as [[a|e] t'].
Qed.
Lemma keeps_on_gate {A} (c : ExposureGate.op A) : keeps db (on_gate c : op A).
Proof.
  intros m. unfold on_gate, mbind, method_bind, get.
  destruct (traffic m) as [t|w]; [done|]. by destruct (c w) as [[a|e] w'].
Qed.
Lemma keeps_exposure_gate : keeps db (_exposure_gate : op bool).
Proof. done. Qed.
Lemma keeps_row i : keeps db (_row i : op activation_row).
Proof. intros m. unfold _row, mbind, method_bind, get. by destruct (activation (db m) !! i). Qed.

Lemma journal_triple P i k o dt (E : Db → Prop) :
  triple P (_journal clock i k o dt : op ())
    (λ _ d', ∃ d at_, P d ∧ d' = append_journal i k o dt at_ d) E.
Proof. intros m Hm. simpl. eauto. Qed.

Lemma outcome_triple P i b dt (E : Db → Prop) :
  triple P (record_outcome clock i b dt : op ())
    (λ _ d', ∃ d at_, P d ∧ d' = append_outcome i b dt at_ d) E.
Proof. intros m Hm. simpl. eauto. Qed.

Lemma coord_row_triple P i (E : Db → Prop) :
  (∀ d, P d → E d) →
  triple P (_row i : op activation_row) (λ row d, P d ∧ activation d !! i = Some row) E.
Proof.
  intros HE m Hm. unfold _row, mbind, method_bind, get.
  destruct (activation (db m) !! i) eqn:Hrow; [by split|by apply HE].
Qed.

Lemma coord_transition_triple P i t :
  triple P (_transition clock i t : op ())
    (λ _ d', ∃ d row at_, P d ∧ activation d !! i = Some row ∧
                          allowed (act_state row) t = true ∧ d' = moved i t row at_ d)
    (λ _, True).
Proof.
  unfold _transition. eapply triple_bind; [by apply coord_row_triple|]. intros row.
  destruct (TRANSITIONS (act_state row)) as [targets|] eqn:Ht; [|by apply triple_raise].
  eapply triple_bind; [by apply triple_guard|]. intros [].
  eapply triple_bind; [|intros []; eapply triple_weaken; [apply journal_triple|]].
  - apply (triple_set_db _ _ (λ _ d', ∃ d, P d ∧ activation d !! i = Some row ∧
      allowed (act_state row) t = true ∧
      d' = set_activation (<[i := with_act_state t row]> (activation d)) d)).
    intros d [[Hd Hrow] Ha]. exists d. split; [done|]. split; [done|].
    split; [by eapply allowed_targets|]. by erewrite alter_insert_found.
  - intros [] d' (d1 & at_ & (d & Hd & Hrow & Ha & ->) & ->). eauto 10.
Qed.
End primitives.

Ltac keep_db :=
  repeat first
    [ apply keeps_get | apply keeps_ret | apply keeps_raise | apply keeps_guard
    | apply keeps_lift | apply keeps_attempt | apply keeps_now | apply keeps_hit
    | apply keeps_on_host | apply keeps_on_verifier | apply keeps_on_external
    | apply keeps_on_traffic | apply keeps_on_gate | apply keeps_exposure_gate
    | apply keeps_row | apply keeps_bind; [|intros ?]
    | progress case_match ].

(** ** The transactions *)

(** From a store that evolved from [d0]. *)
Definition I (d0 d : Db) : Prop := coord_inv d ∧ evolves d0 d.
Definition in_state (i : string) (s : State) (d : Db) : Prop :=
  ∃ row, activation d !! i = Some row ∧ act_state row = s.
Definition at_state (d0 : Db) (i : string) (s : State) (d : Db) : Prop :=
  I d0 d ∧ in_state i s d.

Lemma at_state_I d0 i s d : at_state d0 i s d → I d0 d.
Proof. by intros []. Qed.
#[export] Hint Resolve at_state_I : core.

Lemma quiet_step d0 d d' i r r' rows :
  I d0 d → stepped i r r' rows d d' →
  evidence d' = evidence d → inventory d' = inventory d → act_launch_id r' = act_launch_id r →
  at_state d0 i (act_state r') d'.
Proof.
  intros [Hd Hev] Hst He Hi Hl. destruct (stepped_quiet _ _ _ _ _ _ Hd Hst He Hi Hl) as [Hd' Hev'].
  split; [split; [done|by etrans]|]. exists r'. split; [|done].
  by rewrite (st_after _ _ _ _ _ _ Hst), lookup_insert_eq.
Qed.

Lemma entries_moved i t row at_ d :
  entries i (moved i t row at_ d) = entries i d ++ [move (act_state row) t].
Proof. unfold moved. by rewrite entries_append_same. Qed.
Lemma entries_moved_ne i t row at_ d j :
  j ≠ i → entries j (moved i t row at_ d) = entries j d.
Proof. intros Hj. unfold moved. by rewrite entries_append_ne. Qed.
Lemma entries_outcome i b dt at_ d j : entries j (append_outcome i b dt at_ d) = entries j d.
Proof. done. Qed.

Lemma entries_set_generation g d j : entries j (set_generation g d) = entries j d.
Proof. done. Qed.

(** Destruct what the primitives' postconditions say. *)
Ltac open_posts :=
  repeat match goal with
  | H : ∃ _, _ |- _ => destruct H
  | H : _ ∧ _ |- _ => destruct H
  | H : at_state _ _ _ _ |- _ => destruct H
  | H : in_state _ _ _ |- _ => destruct H
  end; simplify_eq/=.

(** Which states a target can be entered from. *)
Ltac sources_of :=
  repeat match goal with
  | H : allowed (act_state ?r) _ = true |- _ =>
      first [ match goal with E : act_state r = _ |- _ => rewrite E in * end
            | destruct (act_state r) eqn:?; try discriminate H; clear H ]
  end.

Ltac simplify_entries :=
  rewrite ?entries_append_same, ?entries_outcome, ?entries_moved, ?entries_outcome,
    ?entries_append_same, ?entries_outcome, <-?app_assoc;
  try done.

(** [stepped] for a store built by journal rows, outcomes and one transition. *)
Ltac solve_stepped :=
  split; simpl; try done;
  [ .. | simplify_entries
  | intros ? ?; rewrite ?entries_append_ne, ?entries_outcome, ?entries_moved_ne,
      ?entries_append_ne, ?entries_outcome by done; done ].

(** The steps of a transaction body. *)
Ltac walk :=
  repeat first
    [ apply journal_triple | apply outcome_triple | apply coord_transition_triple
    | eapply triple_bind;
        [ first [apply journal_triple | apply outcome_triple | apply coord_transition_triple]
        | intros ?; cbn beta ] ].

Section transactions.
Context {H V T X : Type}.
Context (clock : nat → Z) (d0 : Db).
Notation op := (@op H V T X).
Notation _transition := (@_transition H V T X clock).
Notation _journal := (@_journal H V T X clock).
Notation record_outcome := (@record_outcome H V T X clock).

(** What a body that moves the plan to [t] and journals [rows] has to show. *)
Definition steps_to (P : Db → Prop) (i : string) (t : State) (rows : State → list entry) : Prop :=
  t ≠ COMMIT_READY ∧ (∀ d, P d → I d0 d) ∧
  ∀ d row, P d → activation d !! i = Some row → allowed (act_state row) t = true →
    dstep (act_state row) (rows (act_state row)) t.

Ltac solve_tx :=
  intros (Ht & HP & Hstep); apply coord_triple_transaction; [|auto];
  eapply triple_weaken; [walk|]; intros [] d'; intros; open_posts;
  match goal with Hr : activation ?d !! ?i = Some ?r |- at_state _ ?i ?t _ =>
    eapply (quiet_step d0 d _ i r (with_act_state t r)); [auto| |done..]
  end; solve_stepped; by eapply Hstep.

Lemma move_tx P i t :
  steps_to P i t (λ s, [move s t]) →
  triple P (transaction (_transition i t) : op ()) (λ _, at_state d0 i t) (I d0).
Proof. solve_tx. Qed.

Lemma move_journal_tx P i t k o dt :
  steps_to P i t (λ s, [move s t; (k, o, dt)]) →
  triple P (transaction (_ ← _transition i t; _journal i k o dt) : op ())
    (λ _, at_state d0 i t) (I d0).
Proof. solve_tx. Qed.

Lemma journal_move_tx P i t k o dt :
  steps_to P i t (λ s, [(k, o, dt); move s t]) →
  triple P (transaction (_ ← _journal i k o dt; _transition i t) : op ())
    (λ _, at_state d0 i t) (I d0).
Proof. solve_tx. Qed.

Lemma outcome_move_tx P i t b dt :
  steps_to P i t (λ s, [move s t]) →
  triple P (transaction (_ ← record_outcome i b dt; _transition i t) : op ())
    (λ _, at_state d0 i t) (I d0).
Proof. solve_tx. Qed.

Lemma outcome_journal_move_tx P i t b dt k o dt' :
  steps_to P i t (λ s, [(k, o, dt'); move s t]) →
  triple P (transaction (_ ← record_outcome i b dt; _ ← _journal i k o dt'; _transition i t)
            : op ())
    (λ _, at_state d0 i t) (I d0).
Proof. solve_tx. Qed.

(** A receipt that moves nothing. *)
Lemma journal_tx i s k o dt :
  dstep s [(k, o, dt)] s →
  triple (at_state d0 i s) (transaction (_journal i k o dt) : op ())
    (λ _, at_state d0 i s) (I d0).
Proof.
  intros Hstep. apply coord_triple_transaction; [|eauto].
  eapply triple_weaken; [walk|]. intros [] d' (d & at_ & [HI (row & Hrow & <-)] & ->).
  eapply (quiet_step d0 d _ i row row); [done| |done..].
  split; simpl; try done.
  - by rewrite insert_id.
  - simplify_entries.
  - intros j Hj. by rewrite entries_append_ne.
  - congruence.
Qed.
End transactions.

(** *** Transactions that touch evidence, inventory or the launch *)

Lemma foldR_insert_process l rows rows' :
  foldR insert_process rows l = Ok rows' → rows' = rows ++ l.
Proof.
  revert rows. induction l as [|r l IH]; intros rows; cbn [foldR].
  - intros [= ->]. by rewrite app_nil_r.
  - intros (rows1 & H1 & H2)%result_bind_Ok. unfold insert_process in H1.
    apply result_bind_Ok in H1 as (? & _ & [= <-]). by rewrite (IH _ H2), <-app_assoc.
Qed.

(** Evidence about other plans stays bound. *)
Lemma evidence_ok_other i r r' rows d d' e :
  stepped i r r' rows d d' → ev_plan_id e ≠ i →
  (∀ x, x ∈ inventory d → in_plan_id x ≠ i → x ∈ inventory d') →
  evidence_ok d e → evidence_ok d' e.
Proof.
  intros Hst Hi Hinv (row & Hrow & Hne & Hb). exists row.
  rewrite (st_after _ _ _ _ _ _ Hst), lookup_insert_ne by done.
  split; [done|]. split; [done|]. intros Hv. destruct (Hb Hv) as [B1 B2 (x & h & Hx & Hpl & B)].
  split; [done|done|]. exists x, h. split; [|by split]. apply Hinv; congruence.
Qed.

(** Before a launch is observed there is no evidence, so its tables may change. *)
Lemma stepped_early i r r' rows d d' :
  coord_inv d → stepped i r r' rows d d' → act_state r ∈ early →
  evidence d' = evidence d →
  (∀ x, x ∈ inventory d → in_plan_id x ≠ i → x ∈ inventory d') →
  coord_inv d' ∧ evolves d d'.
Proof.
  intros Hd Hst Hearly Hev Hinv. eapply stepped_inv; try done; rewrite ?Hev.
  - apply (inv_nonces _ Hd).
  - intros e He. pose proof (inv_evidence _ Hd _ He) as Hok.
    eapply evidence_ok_other; try done. intros <-.
    destruct Hok as (row & Hrow & Hne & _). pose proof (st_before _ _ _ _ _ _ Hst). by simplify_eq.
  - intros e He. exists e. split; [done|]. by left.
Qed.

Lemma early_step d0 d d' i r r' rows :
  I d0 d → stepped i r r' rows d d' → act_state r ∈ early →
  evidence d' = evidence d →
  (∀ x, x ∈ inventory d → in_plan_id x ≠ i → x ∈ inventory d') →
  at_state d0 i (act_state r') d'.
Proof.
  intros [Hd Hev] Hst He Hi Hl. destruct (stepped_early _ _ _ _ _ _ Hd Hst He Hi Hl) as [Hd' Hev'].
  split; [split; [done|by etrans]|]. exists r'. split; [|done].
  by rewrite (st_after _ _ _ _ _ _ Hst), lookup_insert_eq.
Qed.

(** One more evidence row, with a new nonce, about a process the inventory lists. *)
Lemma observed_step d0 d d' i r rows e :
  I d0 d → stepped i r r rows d d' →
  evidence d' = evidence d ++ [e] → inventory d' = inventory d →
  ev_nonce e ∉ ev_nonce <$> evidence d → evidence_ok d e →
  I d0 d'.
Proof.
  intros [Hd Hevo] Hst Hev Hinv Hnew Hok.
  cut (coord_inv d' ∧ evolves d d'); [intros []; split; [done|by etrans]|].
  assert (∀ e', evidence_ok d e' → evidence_ok d' e') as Hmono.
  { intros e' (row & Hrow & Hne & Hb). exists row.
    rewrite (st_after _ _ _ _ _ _ Hst), insert_id by apply (st_before _ _ _ _ _ _ Hst).
    split; [done|]. split; [done|]. intros Hv. destruct (Hb Hv). by split; rewrite ?Hinv. }
  eapply stepped_inv; try done; rewrite ?Hev.
  - rewrite fmap_app. apply NoDup_app. split; [apply (inv_nonces _ Hd)|].
    split; [|apply NoDup_singleton]. intros n Hn ->%list_elem_of_singleton. done.
  - intros e' [He'| ->%list_elem_of_singleton]%elem_of_app; [|by apply Hmono].
    by apply Hmono, (inv_evidence _ Hd).
  - intros e' He'. exists e'. split; [apply elem_of_app; by left|by left].
Qed.

Definition invalidate_plan (i : string) (e : evidence_row) : evidence_row :=
  if bool_decide (ev_plan_id e = i) then invalidate e else e.

Lemma invalidate_plan_nonce i (l : list evidence_row) : ev_nonce <$> (invalidate_plan i <$> l) = ev_nonce <$> l.
Proof.
  rewrite <-list_fmap_compose. apply list_fmap_ext. intros _ e _. simpl.
  unfold invalidate_plan. by case_bool_decide.
Qed.

(** A new inventory for the plan, and all its evidence invalidated. *)
Lemma refreshed_step d0 d d' i r rows :
  I d0 d → stepped i r r rows d d' →
  evidence d' = invalidate_plan i <$> evidence d →
  (∀ x, x ∈ inventory d → in_plan_id x ≠ i → x ∈ inventory d') →
  I d0 d'.
Proof.
  intros [Hd Hevo] Hst Hev Hinv.
  cut (coord_inv d' ∧ evolves d d'); [intros []; split; [done|by etrans]|].
  eapply stepped_inv; try done; rewrite ?Hev.
  - rewrite invalidate_plan_nonce. apply (inv_nonces _ Hd).
  - intros e' (e & -> & He)%list_elem_of_fmap.
    pose proof (inv_evidence _ Hd _ He) as Hok. unfold invalidate_plan.
    case_bool_decide as Hi; [|by eapply evidence_ok_other].
    destruct Hok as (row & Hrow & Hne & _). exists row. simpl.
    rewrite (st_after _ _ _ _ _ _ Hst), insert_id by apply (st_before _ _ _ _ _ _ Hst).
    done.
  - intros e He. exists (invalidate_plan i e). split; [by apply list_elem_of_fmap_2|].
    unfold invalidate_plan. case_bool_decide; [by right|by left].
Qed.

(** The plan was just stored and journalled on a store that did not know it. *)
Definition just_planned (d0 : Db) (p : Plan) (d' : Db) : Prop :=
  ∃ d at1 at2, I d0 d ∧ activation d !! Plan_plan_id p = None ∧
    d' = append_journal (Plan_plan_id p) "transition" "plan"
           (JObj [("state", JStr "Planned")]) at2
           (set_activation
              (<[Plan_plan_id p := mkActivation (Plan_asdict p) PLANNED None
                   (PredecessorSnapshot_asdict (predecessor p)) at1]> (activation d)) d).

Lemma plan_continues_same d d' i row :
  entries i d' = entries i d → plan_continues d d' i row row.
Proof.
  intros He. split; [done|]. split; [done|]. exists []. rewrite app_nil_r.
  split; [done|constructor].
Qed.

Lemma plan_ok_same d d' i row :
  entries i d' = entries i d → meta_generation d' = meta_generation d →
  plan_ok d i row → plan_ok d' i row.
Proof. intros He Hg [Hh Hp]. by split; rewrite ?He, ?Hg. Qed.

Lemma just_planned_inv d0 p d' :
  lacks_targets p = false → just_planned d0 p d' → at_state d0 (Plan_plan_id p) PLANNED d'.
Proof.
  intros Hl (d & at1 & at2 & [Hd Hev] & Hnone & ->).
  set (i := Plan_plan_id p) in *. set (r := mkActivation _ _ _ _ _).
  assert (∀ j, j ≠ i → entries j (append_journal i "transition" "plan"
    (JObj [("state", JStr "Planned")]) at2 (set_activation (<[i := r]> (activation d)) d)) =
    entries j d) as Hother by (intros j Hj; by rewrite entries_append_ne).
  split; [split|]; [| |exists r; split; [apply lookup_insert_eq|done]].
  - split; simpl.
    + intros j row. destruct (decide (i = j)) as [<-|Hij].
      * rewrite lookup_insert_eq. intros [= <-]. split.
        -- rewrite entries_append_same. change (entries i _) with (entries i d).
           rewrite (inv_absent _ Hd _ Hnone). constructor.
        -- exists p. repeat (split; [done|]). simpl. not_in_list.
      * rewrite lookup_insert_ne by done. intros Hrow.
        eapply plan_ok_same; [by apply Hother|done|by apply (inv_plan _ Hd)].
    + intros j [Hj Hij]%lookup_insert_None. rewrite Hother by done. by apply (inv_absent _ Hd).
    + apply (inv_nonces _ Hd).
    + intros e He. destruct (inv_evidence _ Hd _ He) as (row & Hrow & Hne & Hb).
      exists row. simpl. rewrite lookup_insert_ne by congruence. split; [done|]. split; [done|].
      intros Hv. by destruct (Hb Hv).
  - etrans; [done|]. split; simpl; try done.
    + intros j row Hrow. exists row. rewrite lookup_insert_ne by congruence.
      split; [done|]. apply plan_continues_same, Hother. congruence.
    + intros e He. exists e. split; [done|]. by left.
Qed.

Lemma entries_delete_plan i d j :
  entries j (delete_plan i d) = if decide (j = i) then [] else entries j d.
Proof.
  unfold entries, delete_plan, set_activation, set_journal. simpl. case_decide as Hj.
  - subst. induction (journal d) as [|r l IH]; [done|]. rewrite filter_cons.
    case_decide; [|done]. rewrite filter_cons. by case_decide.
  - f_equal. rewrite list_filter_filter. apply filter_ext_in. naive_solver.
Qed.

(** When staging fails, the plan disappears without a trace. *)
Lemma unplanned_inv d0 p d' : just_planned d0 p d' → I d0 (delete_plan (Plan_plan_id p) d').
Proof.
  intros (d & at1 & at2 & [Hd Hev] & Hnone & ->). set (i := Plan_plan_id p) in *.
  match goal with |- I _ (delete_plan _ (append_journal _ _ _ _ _ ?d1)) => set (d2 := d1) end.
  set (d3 := delete_plan _ _).
  assert (activation d3 = activation d) as Hact by (simpl; by rewrite delete_insert_id).
  assert (∀ j, entries j d3 = entries j d) as Hent.
  { intros j. unfold d3. rewrite entries_delete_plan. case_decide as Hj.
    - subst j. by rewrite (inv_absent _ Hd _ Hnone).
    - by rewrite entries_append_ne. }
  split.
  - split; rewrite ?Hact.
    + intros j row Hrow. apply (plan_ok_same d); [done|done|by apply (inv_plan _ Hd)].
    + intros j Hj. rewrite Hent. by apply (inv_absent _ Hd).
    + apply (inv_nonces _ Hd).
    + intros e He. destruct (inv_evidence _ Hd _ He) as (row & Hrow & Hne & Hb).
      exists row. rewrite Hact. split; [done|]. split; [done|]. intros Hv. by destruct (Hb Hv).
  - etrans; [done|]. split; try done; rewrite ?Hact.
    + intros j row Hrow. exists row. split; [done|]. by apply plan_continues_same.
    + intros e He. exists e. split; [done|]. by left.
Qed.

Definition stored (i : string) (p : Plan) (d : Db) : Prop :=
  ∃ row, activation d !! i = Some row ∧ act_plan_json row = Plan_asdict p.

(** What [observe] has checked when it writes. *)
Definition accepted (i : string) (p : Plan) (row : activation_row) (item : Attestation) (d : Db)
    : Prop :=
  activation d !! i = Some row ∧ act_state row ∈ [OBSERVING; RECONCILE] ∧
  act_plan_json row = Plan_asdict p ∧
  stale_evidence i (act_launch_id row) p (find_process i (at_process item) (inventory d)) item = false.

Lemma find_process_spec i p rows r :
  find_process i p rows = Some r →
  r ∈ rows ∧ in_plan_id r = i ∧ in_role r = p_role p ∧ in_ordinal r = p_ordinal p.
Proof.
  unfold find_process. intros Hr%head_Some_elem_of.
  apply list_elem_of_filter in Hr as [(? & ? & ?) ?]. done.
Qed.

Lemma accepted_ok i p row item epoch d :
  accepted i p row item d → evidence_ok d (evidence_row_of i epoch item).
Proof.
  intros (Hrow & Hs & Hp & Hstale). exists row. split; [done|]. split.
  { revert Hs. generalize (act_state row). intros s Hs. cases_in Hs; not_in_list. }
  intros _. unfold stale_evidence in Hstale. bool_inv.
  destruct (find_process _ _ _) as [r|] eqn:Hf; [|done]. bool_inv.
  apply find_process_spec in Hf as (Hin & Hpl & Hro & Hor).
  split; simpl; [done|by exists p|].
  exists r, (p_host (at_process item)). repeat (split; [done|]).
  destruct (at_process item); simpl in *. by subst.
Qed.

Section special_transactions.
Context {H V T X : Type}.
Context (clock : nat → Z) (d0 : Db).
Notation op := (@op H V T X).
Notation _transition := (@_transition H V T X clock).
Notation _journal := (@_journal H V T X clock).

Lemma replace_inventory_triple P i ps :
  triple P (replace_inventory i ps : op ())
    (λ _ d', ∃ d rows, P d ∧ d' = set_inventory rows d ∧
       ∀ x, x ∈ inventory d → in_plan_id x ≠ i → x ∈ rows) (λ _, True).
Proof.
  intros m Hm. unfold replace_inventory, mbind, method_bind, set_db, modify, get, lift. simpl.
  destruct (foldR insert_process _ _) as [rows|e] eqn:Hf; [|done]. simpl.
  apply foldR_insert_process in Hf. exists (db m), rows. split; [done|]. split; [done|].
  intros x Hx Hi. rewrite Hf. apply elem_of_app. left. by apply list_elem_of_filter.
Qed.

Lemma plan_tx p :
  triple (I d0) (transaction (_ ← insert_activation clock p;
                              _journal (Plan_plan_id p) "transition" "plan"
                                (JObj [("state", JStr "Planned")])) : op ())
    (λ _, just_planned d0 p) (I d0).
Proof.
  apply coord_triple_transaction; [|auto]. intros m Hm.
  unfold insert_activation, DurableCoordinator._journal, _now, set_db, modify, get, raise,
    mbind, method_bind. simpl.
  destruct (activation (db m) !! Plan_plan_id p) eqn:Hrow; [done|]. simpl.
  exists (db m). eauto 10.
Qed.

Lemma launch_intent_tx i l :
  triple (I d0)
    (transaction (_ ← _transition i LAUNCHING;
                  _ ← update_activation i (with_act_launch l);
                  _journal i "wal" "launch" (JObj [("launch_id", JStr l)])) : op ())
    (λ _, at_state d0 i LAUNCHING) (I d0).
Proof.
  apply coord_triple_transaction; [|auto].
  eapply triple_bind; [apply coord_transition_triple|intros []].
  eapply triple_bind; [|intros []; eapply triple_weaken; [apply journal_triple|]].
  - apply (triple_set_db _ _ (λ _ d', ∃ d row at_, I d0 d ∧ activation d !! i = Some row ∧
      allowed (act_state row) LAUNCHING = true ∧
      d' = set_activation (<[i := with_act_launch l (with_act_state LAUNCHING row)]> (activation d))
             (moved i LAUNCHING row at_ d))).
    intros d' (d & row & at_ & Hd & Hrow & Ha & ->). exists d, row, at_.
    split; [done|]. split; [done|]. split; [done|]. simpl.
    by rewrite (alter_insert_found _ _ _ _ (lookup_insert_eq _ _ _)), insert_insert_eq.
  - intros [] d' (d2 & at2 & (d & row & at_ & Hd & Hrow & Ha & ->) & ->).
    assert (act_state row = PREPARED) as Hs by (destruct (act_state row); done).
    eapply (early_step d0 d _ i row (with_act_launch l (with_act_state LAUNCHING row))
              [move PREPARED LAUNCHING; wal "launch" [("launch_id", JStr l)]]);
      [done| |by rewrite Hs; in_list|done|done].
    split; simpl; try done.
    + rewrite Hs. constructor.
    + rewrite entries_append_same. change (entries i (set_activation _ ?d)) with (entries i d).
      rewrite entries_moved, Hs. by rewrite <-app_assoc.
    + intros j Hj. rewrite entries_append_ne by done. by apply entries_moved_ne.
Qed.

Lemma launch_receipt_tx i ps :
  triple (at_state d0 i LAUNCHING)
    (transaction (_ ← replace_inventory i ps;
                  _ ← _journal i "receipt" "launch"
                        (JObj [("count", JInt (Z.of_nat (length ps)))]);
                  _transition i OBSERVING) : op ())
    (λ _, at_state d0 i OBSERVING) (I d0).
Proof.
  apply coord_triple_transaction; [|eauto].
  eapply triple_bind; [apply replace_inventory_triple|intros []].
  eapply triple_weaken; [walk|].
  intros [] d'. intros (d3 & row & at2 & (d2 & at1 & (d & rows & [Hd (r & Hr & Hs)] & -> & Hin) & ->)
                         & Hrow & Ha & ->).
  simpl in Hrow. simplify_eq.
  eapply (early_step d0 d _ i r (with_act_state OBSERVING r)
            [receipt "launch" (JObj [("count", JInt (Z.of_nat (length ps)))]);
             move LAUNCHING OBSERVING]); [done| |by rewrite Hs; in_list|done|done].
  split; simpl; try done.
  - rewrite Hs. constructor.
  - rewrite entries_moved, entries_append_same, Hs. by rewrite <-app_assoc.
  - intros j Hj. by rewrite entries_moved_ne, entries_append_ne.
Qed.

Lemma same_row_stepped d d' i row rows :
  activation d !! i = Some row → activation d' = activation d →
  meta_generation d' = meta_generation d → meta_manager_epoch d' = meta_manager_epoch d →
  dstep (act_state row) rows (act_state row) →
  entries i d' = entries i d ++ rows → (∀ j, j ≠ i → entries j d' = entries j d) →
  stepped i row row rows d d'.
Proof.
  intros Hr Ha Hg He Hs Hi Hj. split; try done.
  - by rewrite Ha, insert_id.
  - by rewrite Hg.
  - congruence.
Qed.

Lemma observe_tx i p row item :
  triple (λ d, I d0 d ∧ accepted i p row item d)
    (transaction (_ ← insert_evidence i item;
                  _journal i "evidence" (at_event item) (Attestation_asdict item)) : op ())
    (λ _, I d0) (I d0).
Proof.
  apply coord_triple_transaction; [|by intros ? []].
  eapply triple_bind; [|intros []; eapply triple_weaken; [apply journal_triple|]].
  - apply triple_get. intros m. eapply triple_bind; [by apply triple_guard|]. intros [].
    apply (triple_set_db _ _ (λ _ d', ∃ d epoch, I d0 d ∧ accepted i p row item d ∧
      at_nonce item ∉ ev_nonce <$> evidence d ∧
      d' = set_evidence (evidence d ++ [evidence_row_of i epoch item]) d)).
    intros d [(-> & Hd & Hok) Hnew]. exists (db m), (manager_epoch m).
    split; [done|]. split; [done|]. split; [|done].
    intros (e & He & Hin)%list_elem_of_fmap.
    apply not_true_iff_false in Hnew. apply Hnew, existsb_exists. exists e.
    split; [by apply list_elem_of_In|]. by apply bool_decide_eq_true.
  - intros [] d' (d2 & at_ & (d & epoch & Hd & Hok & Hnew & ->) & ->).
    eapply (observed_step d0 d _ i row
      [("evidence", at_event item, Attestation_asdict item)] (evidence_row_of i epoch item));
      [done| |done|done|exact Hnew|by eapply accepted_ok].
    destruct Hok as (Hrow & Hs & _).
    apply same_row_stepped; try done.
    + by constructor.
    + by rewrite entries_append_same.
    + intros j Hj. by rewrite entries_append_ne.
Qed.

Lemma refresh_tx i row ps :
  triple (λ d, I d0 d ∧ activation d !! i = Some row ∧ act_state row ∈ [OBSERVING; RECONCILE])
    (transaction (
       _ ← replace_inventory i ps;
       _ ← set_db (λ d, set_evidence
             ((λ e, if bool_decide (ev_plan_id e = i) then invalidate e else e) <$> evidence d) d);
       _journal i "inventory" "refresh"
         (JObj [("processes", JArr (ProcessIdentity_asdict <$> ps))])) : op ())
    (λ _, I d0) (I d0).
Proof.
  apply coord_triple_transaction; [|by intros ? []].
  eapply triple_bind; [apply replace_inventory_triple|intros []].
  eapply triple_bind; [|intros []; eapply triple_weaken; [apply journal_triple|]].
  - apply set_db_triple.
  - intros [] d' (d3 & at_ & (d2 & (d & rows & (Hd & Hrow & Hs) & -> & Hin) & ->) & ->).
    eapply (refreshed_step d0 d _ i row
      [("inventory", "refresh", JObj [("processes", JArr (ProcessIdentity_asdict <$> ps))])]);
      [done| |done|exact Hin].
    apply same_row_stepped; try done.
    + by constructor.
    + by rewrite entries_append_same.
    + intros j Hj. by rewrite entries_append_ne.
Qed.

Lemma cas_triple P p g :
  triple P (cas_generation p g : op ())
    (λ _ d', ∃ d, P d ∧ meta_generation d = g ∧ pred_generation (predecessor p) = g ∧
                  d' = set_generation (g + 1) d) (λ _, True).
Proof.
  intros m Hm. unfold cas_generation, mbind, method_bind, get.
  destruct (meta_generation (db m) =? g)%Z eqn:Hg; simpl; [|done].
  destruct (pred_generation (predecessor p) =? g)%Z eqn:Hp; simpl; [|done].
  apply Z.eqb_eq in Hg, Hp. subst g. eauto.
Qed.

Lemma commit_intent_tx i p g :
  triple (λ d, I d0 d ∧ stored i p d)
    (transaction (_ ← _transition i COMMIT_READY;
                  _ ← _journal i "wal" "commit" (JObj [("from", JInt g)]);
                  cas_generation p g) : op ())
    (λ _ d, at_state d0 i COMMIT_READY d ∧ stored i p d) (I d0).
Proof.
  apply coord_triple_transaction; [|by intros ? []].
  eapply triple_bind; [apply coord_transition_triple|intros []].
  eapply triple_bind; [apply journal_triple|intros []].
  eapply triple_weaken; [apply cas_triple|].
  intros [] d' (d3 & (d2 & at2 & (d & row & at1 & [Hd (r & Hr & Hp)] & Hrow & Ha & ->) & ->)
                & Hg & Hpg & ->). rewrite Hr in Hrow. injection Hrow as ->.
  assert (act_state row = OBSERVING) as Hs by (destruct (act_state row); done).
  split; [|by exists (with_act_state COMMIT_READY row); split; [apply lookup_insert_eq|]].
  eapply (quiet_step d0 d _ i row (with_act_state COMMIT_READY row)
            [move OBSERVING COMMIT_READY; wal "commit" [("from", JInt g)]]);
    [done| |done..].
  split; simpl; try done.
  - rewrite Hs. constructor.
  - by rewrite entries_set_generation, entries_append_same, entries_moved, Hs, <-app_assoc.
  - intros j Hj. by rewrite entries_set_generation, entries_append_ne, entries_moved_ne.
  - simpl in Hg. lia.
  - intros _ _. exists p. split; [done|]. simpl in *. lia.
Qed.

Lemma commit_receipt_tx i :
  triple (I d0)
    (transaction (
       m ← get;
       let generation := meta_generation (db m) in
       _ ← _journal i "receipt" "commit" (JObj [("generation", JInt generation)]);
       _ ← _transition i EFFECTIVE;
       mret generation) : op Z)
    (λ _, at_state d0 i EFFECTIVE) (I d0).
Proof.
  apply coord_triple_transaction; [|auto]. apply triple_get. intros m. cbn zeta.
  eapply triple_bind; [apply journal_triple|intros []].
  eapply triple_bind; [apply coord_transition_triple|intros []].
  apply triple_ret.
  intros d' (d2 & row & at2 & (d & at1 & [-> Hd] & ->) & Hrow & Ha & ->). simpl in Hrow.
  assert (act_state row = COMMIT_READY) as Hs by (destruct (act_state row); done).
  eapply (quiet_step d0 (db m) _ i row (with_act_state EFFECTIVE row)
            [receipt "commit" (JObj [("generation", JInt (meta_generation (db m)))]);
             move COMMIT_READY EFFECTIVE]); [done| |done..].
  split; simpl; try done.
  - rewrite Hs. constructor.
  - rewrite entries_moved, entries_append_same, Hs. by rewrite <-app_assoc.
  - intros j Hj. by rewrite entries_moved_ne, entries_append_ne.
Qed.
End special_transactions.

(** ** The calls *)

(** The precondition implies the invariant. *)
Ltac to_I :=
  solve [intros; cbv beta in *; repeat match goal with H : _ ∧ _ |- _ => destruct H end; eauto].

(** [steps_to] when the target determines the step. *)
Ltac solve_steps :=
  split; [done|split; [to_I|]];
  intros; open_posts;
  repeat match goal with
  | E : act_state ?r = _, Ha : allowed (act_state ?r) _ = true |- _ => rewrite E in *; clear E
  | Ha : allowed (act_state ?r) _ = true |- _ => destruct (act_state r); try discriminate Ha
  end; solve [constructor; done || in_list].

(** Skip a step that keeps the store. *)
Tactic Notation "keep" simple_intropattern(p) :=
  eapply triple_bind; [apply triple_keeps; [solve [keep_db]|to_I]|intros p].
(** The last step keeps the store. *)
Ltac keep_last := eapply triple_weaken; [apply triple_keeps; [solve [keep_db]|to_I]|to_I].

Section calls.
Context {H V T X : Type} `{HostAdapter H} `{EvidenceVerifier V} `{TrafficGate T}
  `{ExternalServiceAdapter X}.
Context (clock gate_clock : nat → Z) (d0 : Db).
Notation op := (@op H V T X).

Lemma stored_plan_triple i :
  triple (I d0) (stored_plan i : op Plan) (λ p d, I d0 d ∧ stored i p d) (I d0).
Proof.
  intros m Hm. unfold stored_plan, _row, mbind, method_bind, get, lift.
  destruct (activation (db m) !! i) as [row|] eqn:Hrow; [|done]. simpl.
  destruct (inv_plan _ (proj1 Hm) _ _ Hrow) as [_ (p & Hp & _)].
  rewrite Hp, plan_round_trip. split; [done|]. by exists row.
Qed.

Lemma plan_triple p : triple (I d0) (plan clock gate_clock p : op string) (λ _, I d0) (I d0).
Proof.
  unfold plan. eapply triple_bind; [by apply triple_guard|intros []].
  apply (triple_fact _ (lacks_targets p = false)); [by intros ? []|intros Hl].
  eapply triple_bind; [eapply triple_strengthen; [apply plan_tx|by intros ? []]|intros []].
  assert (∀ d, just_planned d0 p d → I d0 d) as HI
    by (intros d Hd; eapply at_state_I; by apply just_planned_inv).
  keep gated. eapply (triple_bind _ _ _ (λ _, I d0)); [|intros []; by apply triple_ret].
  destruct gated; [|keep_last].
  apply (triple_catch _ _ _ _ (just_planned d0 p)).
  - keep generation. by apply triple_ret.
  - intros e. eapply (triple_bind _ _ _ (λ _, I d0)); [|intros []; by apply triple_raise].
    apply coord_triple_transaction; [|done]. apply triple_set_db. apply unplanned_inv.
Qed.

Lemma prepare_triple i : triple (I d0) (prepare clock gate_clock i : op ()) (λ _, I d0) (I d0).
Proof.
  unfold prepare. eapply triple_bind; [apply stored_plan_triple|intros p].
  eapply triple_bind.
  { apply (move_journal_tx clock d0 _ i PREPARING "wal" "prepare"). solve_steps. }
  intros []. keep []. keep answer. keep []. eapply triple_bind.
  { apply (journal_move_tx clock d0 (at_state d0 i PREPARING)). solve_steps. }
  intros []. keep gated. destruct gated; keep_last.
Qed.

Lemma launch_triple i l : triple (I d0) (launch clock i l : op ()) (λ _, I d0) (I d0).
Proof.
  unfold launch. eapply triple_bind; [apply stored_plan_triple|intros p].
  eapply triple_bind; [eapply triple_strengthen; [apply launch_intent_tx|by intros ? []]|].
  intros []. keep []. keep ps. keep [].
  eapply triple_weaken; [apply launch_receipt_tx|to_I].
Qed.

Lemma row_observing_triple P i row what :
  (∀ d, P d → I d0 d) →
  triple (λ d, P d ∧ activation d !! i = Some row) (require_observing row what : op ())
    (λ _ d, (P d ∧ activation d !! i = Some row) ∧ act_state row ∈ [OBSERVING; RECONCILE]) (I d0).
Proof.
  intros HP. eapply triple_weaken; [apply triple_guard; intros ? []; auto|].
  intros [] d [Hd Hs]. split; [done|]. by apply negb_false_iff, bool_decide_eq_true in Hs.
Qed.

Lemma coord_observe_triple i item now :
  triple (I d0) (observe clock i item now : op ()) (λ _, I d0) (I d0).
Proof.
  unfold observe. eapply triple_bind; [by apply coord_row_triple|intros row].
  eapply triple_bind; [by apply row_observing_triple|intros []].
  apply triple_pre. intros d ((Hd & Hrow) & Hs).
  destruct (inv_plan _ (proj1 Hd) _ _ Hrow) as [_ (p & Hp & _)].
  rewrite Hp, plan_round_trip. apply triple_lift_Ok.
  apply (triple_strengthen _ (λ d', d' = d ∧ I d0 d')); [|by intros d' [-> _]].
  keep observed_at. keep []. apply triple_get. intros m.
  eapply triple_bind; [apply triple_guard; by intros ? (_ & _ & ?)|intros []].
  eapply (triple_catch _ _ _ _ (I d0)).
  - eapply triple_strengthen; [apply (observe_tx clock d0 i p row)|].
    intros d' [(-> & -> & _) Hstale]. done.
  - intros []; by apply triple_raise.
Qed.

Lemma refresh_triple i ps :
  triple (I d0) (refresh_inventory clock i ps : op ()) (λ _, I d0) (I d0).
Proof.
  unfold refresh_inventory. eapply triple_bind; [by apply coord_row_triple|intros row].
  eapply triple_bind; [by apply row_observing_triple|intros []].
  eapply triple_strengthen; [apply (refresh_tx clock d0 i row)|by intros d [[]]].
Qed.

Lemma resume_triple i : triple (I d0) (resume_observing clock i : op ()) (λ _, I d0) (I d0).
Proof.
  eapply triple_weaken; [apply (move_tx clock d0 (I d0)); solve_steps|to_I].
Qed.

(** *** Rollback *)

Lemma keeps_rollback_gate g e : keeps db (rollback_gate gate_clock g e : op _).
Proof. unfold rollback_gate. keep_db. Qed.

Lemma rollback_target_ended e c : rollback_target e c ∈ ended.
Proof. destruct c, e; in_list. Qed.

Lemma rollback_exposed_triple i p v e :
  triple (at_state d0 i ROLLBACK) (rollback_exposed clock gate_clock i p v e : op State)
    (λ s d, at_state d0 i s d ∧ s ∈ ended) (I d0).
Proof.
  unfold rollback_exposed.
  eapply triple_bind; [apply triple_keeps; [apply keeps_rollback_gate|to_I]|].
  intros [c err]. keep [].
  eapply triple_bind; [apply journal_tx; constructor; in_list|intros []].
  pose proof (rollback_target_ended e c) as Hend.
  eapply (triple_bind _ _ _ (λ _, at_state d0 i (rollback_target e c))); [|intros []; by apply triple_ret].
  apply (outcome_move_tx clock d0 (at_state d0 i ROLLBACK)).
  split; [intros Heq; rewrite Heq in Hend; revert Hend; not_in_list|split; [to_I|]].
  intros d r [_ (r' & Hr' & Hs)] Hr _. simplify_eq. rewrite Hs. by constructor.
Qed.

Lemma rollback_plain_triple i p v e :
  triple (at_state d0 i ROLLBACK) (rollback_plain clock i p v e : op State)
    (λ s d, at_state d0 i s d ∧ s ∈ ended) (I d0).
Proof.
  unfold rollback_plain. keep restored. destruct restored as [[]|err].
  - eapply (triple_bind _ _ _ (λ _, at_state d0 i ROLLED_BACK));
      [|intros []; apply triple_ret; intros d Hd; split; [done|in_list]].
    apply (outcome_journal_move_tx clock d0 (at_state d0 i ROLLBACK)). solve_steps.
  - eapply (triple_bind _ _ _ (λ _, at_state d0 i FAILED_SAFE)); [|intros []; apply triple_raise; to_I].
    apply (outcome_move_tx clock d0 (at_state d0 i ROLLBACK)). solve_steps.
Qed.

Lemma coord_rollback_triple i reason :
  triple (I d0) (rollback clock gate_clock i reason : op State)
    (λ s d, at_state d0 i s d ∧ s ∈ ended) (I d0).
Proof.
  unfold rollback. eapply triple_bind; [apply stored_plan_triple|intros p].
  eapply triple_bind.
  { apply (move_journal_tx clock d0 _ i ROLLBACK "wal" "rollback"). solve_steps. }
  intros []. keep answer. cbn zeta.
  eapply triple_bind; [apply journal_tx; constructor; in_list|intros []].
  keep gated. destruct gated; [apply rollback_exposed_triple|apply rollback_plain_triple].
Qed.

Lemma lease_lost_triple i :
  triple (I d0) (external_lease_lost clock gate_clock i : op State) (λ _, I d0) (I d0).
Proof.
  unfold external_lease_lost. eapply triple_bind; [apply stored_plan_triple|intros p].
  eapply triple_bind.
  { apply (move_tx clock d0 _ i DEGRADED). solve_steps. }
  intros []. destruct (fallback_proven p).
  - eapply (triple_bind _ _ _ (λ _, at_state d0 i RECONCILE)); [|intros []; apply triple_ret; to_I].
    apply (move_tx clock d0 (at_state d0 i DEGRADED) i RECONCILE). solve_steps.
  - eapply triple_conseq; [apply coord_rollback_triple|to_I|to_I].
Qed.

(** *** Commit and recovery *)

Lemma keeps_expose p g : keeps db (expose gate_clock p g : op ()).
Proof. unfold expose, _open_proof. keep_db. Qed.

Lemma commit_triple i g :
  triple (I d0) (commit clock gate_clock i g : op Z)
    (λ _, at_state d0 i EFFECTIVE) (I d0).
Proof.
  unfold commit. eapply triple_bind; [apply stored_plan_triple|intros p].
  keep valid. eapply (triple_bind _ _ _ (λ _ d, I d0 d ∧ stored i p d)).
  { destruct valid; [by apply triple_ret|].
    eapply triple_bind; [eapply triple_strengthen; [apply lease_lost_triple|to_I]|].
    intros s. by apply triple_raise. }
  intros []. keep now. apply triple_get. intros m.
  eapply triple_bind; [apply triple_guard; to_I|intros []].
  eapply triple_bind.
  { eapply triple_strengthen; [apply (commit_intent_tx clock d0 i p g)|by intros d [[]]]. }
  intros []. keep [].
  eapply triple_bind; [apply triple_keeps; [apply keeps_expose|to_I]|intros []].
  keep []. eapply triple_strengthen; [apply commit_receipt_tx|to_I].
Qed.

Lemma recovered_target_ended s kv t : recovered_target s kv = Some t → t ∈ ended.
Proof.
  unfold recovered_target. destruct s; simpl; repeat case_match; intros; simplify_eq; in_list.
Qed.

Lemma recover_rollback_triple i p :
  triple (at_state d0 i ROLLBACK) (recover_rollback clock gate_clock i p : op State)
    (λ t d, at_state d0 i t d ∧ t ∈ ended) (I d0).
Proof.
  unfold recover_rollback.
  eapply triple_bind; [apply triple_keeps; [unfold recover_gate; keep_db|to_I]|].
  intros [gs kv]. eapply (triple_bind _ _ _ (λ t d, at_state d0 i ROLLBACK d ∧ t ∈ ended)).
  { destruct (recovered_target gs kv) as [t|] eqn:Ht.
    - apply triple_ret. intros d Hd. split; [done|by eapply recovered_target_ended].
    - keep closed. apply triple_ret. intros d Hd. split; [done|].
      destruct (ExposureGate.fc_classification closed); in_list. }
  intros t. apply (triple_fact _ (t ∈ ended)); [by intros d []|intros Ht].
  eapply (triple_bind _ _ _ (λ _, at_state d0 i t)); [|intros []; by apply triple_ret].
  apply (outcome_journal_move_tx clock d0 _ i t).
  split; [intros ->; revert Ht; not_in_list|split; [to_I|]].
  intros d r [[_ (r' & Hr' & Hs)] _] Hr _. simplify_eq. rewrite Hs. by constructor.
Qed.

Lemma recover_commit_triple i p :
  triple (at_state d0 i COMMIT_READY) (recover_commit clock gate_clock i p : op bool)
    (λ b d, at_state d0 i (if b then EFFECTIVE else RECONCILE) d) (I d0).
Proof.
  unfold recover_commit. keep gs.
  assert (triple (at_state d0 i COMMIT_READY)
    (_ ← match gs with
         | ExposureGate.CANDIDATE_CLOSED =>
             _ ← on_gate (ExposureGate.rollback gate_clock (next_generation p) None); mret ()
         | _ => mret ()
         end;
     _ ← transaction (
       _ ← _transition clock i RECONCILE;
       _journal clock i "recovery" "gate-not-open"
         (JObj [("gate_state", JStr (ExposureGate.GateState_value gs))]));
     mret false : op bool) (λ b d, at_state d0 i (if b then EFFECTIVE else RECONCILE) d)
    (I d0)) as Hrest.
  { keep []. eapply (triple_bind _ _ _ (λ _, at_state d0 i RECONCILE));
      [|intros []; by apply triple_ret].
    apply (move_journal_tx clock d0 (at_state d0 i COMMIT_READY) i RECONCILE). solve_steps. }
  destruct gs; try exact Hrest.
  eapply (triple_bind _ _ _ (λ _, at_state d0 i EFFECTIVE)); [|intros []; by apply triple_ret].
  apply (journal_move_tx clock d0 (at_state d0 i COMMIT_READY) i EFFECTIVE). solve_steps.
Qed.

Lemma recover_triple i :
  triple (I d0) (recover clock gate_clock i : op State) (λ _, I d0) (I d0).
Proof.
  unfold recover. eapply triple_bind; [by apply coord_row_triple|intros row]. cbn zeta.
  apply triple_pre. intros d (Hd & Hrow).
  destruct (inv_plan _ (proj1 Hd) _ _ Hrow) as [_ (p & Hp & _)].
  rewrite Hp, plan_round_trip. apply triple_lift_Ok.
  apply (triple_strengthen _ (at_state d0 i (act_state row))).
  2: { intros d' [-> _]. split; [done|by exists row]. }
  generalize (act_state row). intros s. keep gated.
  destruct (decide (s = ROLLBACK)) as [->|Hs].
  { rewrite bool_decide_eq_true_2 by done. destruct gated.
    - eapply triple_weaken; [apply recover_rollback_triple|to_I].
    - eapply (triple_bind _ _ _ (λ _, at_state d0 i FAILED_SAFE)); [|intros []; apply triple_ret; to_I].
      apply (move_tx clock d0 (at_state d0 i ROLLBACK)). solve_steps. }
  rewrite (bool_decide_eq_false_2 (s = ROLLBACK)) by done.
  destruct (bool_decide (s = COMMIT_READY) && gated) eqn:Hc.
  { bool_inv. subst. eapply triple_bind; [apply recover_commit_triple|intros b].
    destruct b; [apply triple_ret; to_I|].
    eapply triple_bind; [apply coord_row_triple; to_I|intros r]. apply triple_ret. to_I. }
  eapply (triple_bind _ _ _ (λ _, I d0));
    [|intros []; eapply triple_bind; [by apply coord_row_triple|intros r; apply triple_ret; to_I]].
  destruct (bool_decide (s ∈ [PREPARING; LAUNCHING; OBSERVING]) && gated) eqn:H1'.
  { bool_inv. keep cls. eapply triple_weaken.
    - apply (move_journal_tx clock d0 (at_state d0 i s) i RECONCILE).
      cases_in H4; solve_steps.
    - to_I. }
  destruct (bool_decide (s ∈ [PREPARING; LAUNCHING; COMMIT_READY])) eqn:H2'.
  { bool_inv. keep []. eapply triple_weaken.
    - apply (move_journal_tx clock d0 (at_state d0 i s) i RECONCILE).
      cases_in H2'; solve_steps.
    - to_I. }
  destruct (bool_decide (s = OBSERVING)) eqn:H3'; [|apply triple_ret; to_I].
  bool_inv. subst. keep []. eapply triple_weaken.
  - apply (move_tx clock d0 (at_state d0 i OBSERVING) i RECONCILE). solve_steps.
  - to_I.
Qed.

Lemma coord_perform_triple c :
  triple (I d0) (perform clock gate_clock c : op ()) (λ _, I d0) (I d0).
Proof.
  destruct c; simpl.
  - eapply triple_bind; [apply plan_triple|intros s; by apply triple_ret].
  - apply prepare_triple.
  - apply launch_triple.
  - apply coord_observe_triple.
  - apply refresh_triple.
  - eapply triple_bind; [apply commit_triple|intros s; apply triple_ret; to_I].
  - eapply triple_bind; [apply recover_triple|intros s; by apply triple_ret].
  - apply resume_triple.
  - eapply triple_bind; [apply coord_rollback_triple|intros s; apply triple_ret; to_I].
  - eapply triple_bind; [apply lease_lost_triple|intros s; by apply triple_ret].
Qed.
End calls.

(** ** Runs *)

Lemma boot_inv d : coord_inv d → coord_inv (boot_db d) ∧ evolves d (boot_db d).
Proof.
  intros Hd. split; split; simpl; try done; try lia.
  - intros i row Hrow. by apply (plan_ok_same d), (inv_plan _ Hd).
  - intros i Hi. by apply (inv_absent _ Hd).
  - rewrite <-list_fmap_compose. apply (inv_nonces _ Hd).
  - intros e' (e & -> & He)%list_elem_of_fmap.
    destruct (inv_evidence _ Hd _ He) as (row & Hrow & Hne & _). by exists row.
  - intros i row Hrow. exists row. split; [done|]. by apply plan_continues_same.
  - intros e He. exists (invalidate e). split; [by apply list_elem_of_fmap_2|by right].
Qed.

Lemma schema_inv : coord_inv _schema.
Proof.
  split; simpl; [done|done|apply NoDup_nil_2|]. intros e He. by apply not_elem_of_nil in He.
Qed.

Section runs.
Context {H V T X : Type} `{HostAdapter H} `{EvidenceVerifier V} `{TrafficGate T}
  `{ExternalServiceAdapter X}.
Context (clock gate_clock : nat → Z).
Notation step := (@step H V T X _ _ _ _ clock gate_clock).

Lemma triple_exec {A} P (m : @op H V T X A) (Q : Db → Prop) s :
  triple P m (λ _, Q) Q → P (db s) → Q (db (exec m s)).
Proof. intros Hm Hs. specialize (Hm s Hs). unfold exec. by destruct (m s) as [[a|e] s']. Qed.

Lemma step_inv m m' : step m m' → coord_inv (db m) → I (db m) (db m').
Proof.
  intros Hs Hm. destruct Hs as [c|h v t x armed n e _|h v t x armed n]; simpl.
  - unfold run. apply (triple_exec (I (db m)) (perform clock gate_clock c) (I (db m)));
      [apply coord_perform_triple|by split].
  - by split.
  - by apply boot_inv.
Qed.

Lemma steps_inv m m' : rtc step m m' → coord_inv (db m) → I (db m) (db m').
Proof.
  induction 1 as [m|m m1 m' Hs _ IH]; intros Hm; [by split|].
  destruct (step_inv _ _ Hs Hm) as [H1' E1]. destruct (IH H1') as [H2' E2].
  split; [done|by etrans].
Qed.

Lemma coord_reachable_inv m : reachable clock gate_clock m → coord_inv (db m).
Proof.
  intros (h & v & t & x & armed & n & Hm). eapply steps_inv; [done|].
  apply boot_inv, schema_inv.
Qed.
End runs.
