(* ===== verification/CoordinatorTheorems.v ===== *)
(** * What the activation coordinator guarantees

    Properties of every reachable manager of [DurableCoordinator]: its store
    refines the journal protocol, effects are announced before they are recorded,
    a commit rests on the evidence, the lease and the generation it checks, nonces
    are spent once, a rollback ends where it says; and two places where the
    coordinator and its contract part. *)

From S2P Require Import Prelude PyStd DurableCoordinator CoordinatorInvariants.
From S2P Require EcpaModel ExposureGate.

Local Open Scope string_scope.
Local Open Scope list_scope.

(** ** Intents come before receipts *)

(** The intent a receipt answers. *)
Definition intent_of (operation : string) : string :=
  if bool_decide (operation ∈ ["commit"; "commit.reconcile"]) then "commit"
  else if bool_decide (operation ∈ ["rollback"; "rollback.host"; "rollback.traffic";
                                    "rollback.recover"]) then "rollback"
  else operation.

Definition announced (operation : string) (l : list entry) : Prop :=
  ∃ detail, wal operation detail ∈ l.

Definition receipt_announced (l : list entry) (x : entry) : Prop :=
  x.1.1 = "receipt" → announced (intent_of x.1.2) l.

(** The intent whose effect a state waits for. *)
Definition waits_for (s : State) : option string :=
  match s with
  | PREPARING => Some "prepare"
  | LAUNCHING => Some "launch"
  | COMMIT_READY => Some "commit"
  | ROLLBACK => Some "rollback"
  | _ => None
  end.

Lemma announced_app operation l l' : announced operation l → announced operation (l ++ l').
Proof. intros [dt H]. exists dt. apply elem_of_app. by left. Qed.

Lemma history_waits l s op :
  history l s → waits_for s = Some op → announced op l.
Proof.
  induction 1 as [|l s rows s' Hh IH Hd]; [done|]. intros Hw.
  destruct Hd; try discriminate Hw; try (by apply announced_app, IH);
    try (match goal with H : _ ∈ _ |- _ => by (unfold ended in H; cases_in H) end);
    injection Hw as <-; eexists; apply elem_of_app; right; right; by left.
Qed.

Lemma dstep_receipt s rows s' x :
  dstep s rows s' → x ∈ rows → x.1.1 = "receipt" → waits_for s = Some (intent_of x.1.2).
Proof.
  intros Hd Hx Hk.
  destruct Hd; cases_in Hx; try discriminate Hk; try done;
    match goal with H : _ ∈ _ |- _ => cases_in H end; done.
Qed.

Lemma announced_rows l rows :
  (∀ pre x post, l = pre ++ x :: post → receipt_announced pre x) →
  (∀ x, x ∈ rows → receipt_announced l x) →
  ∀ pre x post, l ++ rows = pre ++ x :: post → receipt_announced pre x.
Proof.
  intros Hl. induction rows as [|y rows IH] using rev_ind; intros Hrows; [by rewrite app_nil_r|].
  rewrite app_assoc. apply every_split_snoc. split.
  - apply IH. intros x Hx. apply Hrows, elem_of_app. by left.
  - intros Hy. apply announced_app, (Hrows y); [apply elem_of_app; right; by left|done].
Qed.

Lemma history_announced l s :
  history l s → ∀ pre x post, l = pre ++ x :: post → receipt_announced pre x.
Proof.
  induction 1 as [|l s rows s' Hh IH Hd].
  - intros pre x post Heq. destruct pre as [|? []]; simplify_eq/=. by intros ?.
  - apply announced_rows; [done|]. intros x Hx Hk.
    by eapply history_waits, dstep_receipt.
Qed.

(** ** The calls, inverted *)

Lemma triple_Ok {S D E A} (proj : S → D) P (m : method S E A) Q F s a s' :
  triple_of proj P m Q F → P (proj s) → m s = (Ok a, s') → Q a (proj s').
Proof. intros Hm HP Heq. specialize (Hm s HP). by rewrite Heq in Hm. Qed.

Lemma keeps_Ok {S D E A} (proj : S → D) (m : method S E A) s r s' :
  keeps proj m → m s = (r, s') → proj s' = proj s.
Proof. intros Hm Heq. specialize (Hm s). by rewrite Heq in Hm. Qed.

Section inversion.
Context {H V T X : Type} `{HostAdapter H} `{EvidenceVerifier V} `{TrafficGate T}
  `{ExternalServiceAdapter X}.
Context (clock gate_clock : nat → Z).
Notation op := (@op H V T X).
Notation Manager := (Manager H V T X).

Lemma coord_transaction_Ok {A} (body : op A) m a m' :
  transaction body m = (Ok a, m') → body m = (Ok a, m').
Proof. unfold transaction. by destruct (body m) as [[b|e] m1]; intros; simplify_eq. Qed.

Lemma stored_plan_Ok i (m : Manager) p m' :
  coord_inv (db m) → stored_plan i m = (Ok p, m') →
  m' = m ∧ ∃ row, activation (db m) !! i = Some row ∧ act_plan_json row = Plan_asdict p ∧
                  i = Plan_plan_id p ∧ lacks_targets p = false ∧
                  (act_state row ∈ [COMMIT_READY; EFFECTIVE] →
                   (pred_generation (predecessor p) < meta_generation (db m))%Z).
Proof.
  intros Hm. unfold stored_plan, _row, mbind, method_bind, get, lift.
  destruct (activation (db m) !! i) as [row|] eqn:Hrow; [|done]. simpl.
  destruct (inv_plan _ Hm _ _ Hrow) as [_ (q & Hq & Hid & Hl & Hc)].
  rewrite Hq, plan_round_trip. intros; simplify_eq. split; [done|]. by exists row.
Qed.

(** What the intent transaction of a commit checks and writes. *)
Lemma commit_intent i p g (d : Db) :
  triple_of (X := exn) db (λ d', d' = d)
    (_ ← _transition clock i COMMIT_READY;
     _ ← _journal clock i "wal" "commit" (JObj [("from", JInt g)]);
     cas_generation p g : op ())
    (λ _ d', ∃ row, activation d !! i = Some row ∧ act_state row = OBSERVING ∧
       meta_generation d = g ∧ pred_generation (predecessor p) = g ∧
       meta_generation d' = (g + 1)%Z) (λ _, True).
Proof.
  eapply triple_bind; [apply coord_transition_triple|intros []].
  eapply triple_bind; [apply journal_triple|intros []].
  eapply triple_weaken; [apply cas_triple|].
  intros [] d' (d3 & (d2 & at2 & (d1 & row & at1 & -> & Hrow & Ha & ->) & ->) & Hg & Hp & ->).
  exists row. split; [done|]. split; [by destruct (act_state row)|]. done.
Qed.

(** The receipt transaction returns the stored generation and leaves it. *)
Lemma commit_receipt i :
  ∀ d : Db, triple_of (X := exn) db (λ d', d' = d)
    (m ← get;
     let generation := meta_generation (db m) in
     _ ← _journal clock i "receipt" "commit" (JObj [("generation", JInt generation)]);
     _ ← _transition clock i EFFECTIVE;
     mret generation : op Z)
    (λ n d', n = meta_generation d ∧ meta_generation d' = meta_generation d) (λ _, True).
Proof.
  intros d. apply triple_get. intros m. cbn zeta.
  eapply triple_bind; [apply journal_triple|intros []].
  eapply triple_bind; [apply coord_transition_triple|intros []]. apply triple_ret.
  intros d' (d2 & row & at2 & (d1 & at1 & [-> ->] & ->) & Hrow & Ha & ->). done.
Qed.

Lemma on_external_Ok {A} (c : method X exn A) (m : Manager) a m' :
  on_external c m = (Ok a, m') →
  (c (external m)).1 = Ok a ∧ db m' = db m ∧ manager_epoch m' = manager_epoch m ∧ ticks m' = ticks m.
Proof. unfold on_external. destruct (c (external m)). by intros; simplify_eq. Qed.

Lemma commit_Ok i g (m : Manager) n m' :
  coord_inv (db m) → commit clock gate_clock i g m = (Ok n, m') →
  ∃ p row, activation (db m) !! i = Some row ∧ act_plan_json row = Plan_asdict p ∧
    i = Plan_plan_id p ∧ act_state row = OBSERVING ∧
    (lease_valid p (external m)).1 = Ok true ∧
    _evidence_complete p (manager_epoch m) (clock (ticks m)) (db m) = true ∧
    meta_generation (db m) = g ∧ pred_generation (predecessor p) = g ∧
    n = (g + 1)%Z ∧ meta_generation (db m') = (g + 1)%Z.
Proof.
  intros Hm Hc. unfold commit in Hc.
  apply bind_Ok in Hc as (p & m1 & Hp & Hc).
  apply stored_plan_Ok in Hp as (-> & row & Hrow & Hpj & Hid & _); [|done].
  apply bind_Ok in Hc as (valid & m2 & Hx & Hc).
  apply on_external_Ok in Hx as (Hlease & Hdb2 & Hep2 & Ht2).
  apply bind_Ok in Hc as ([] & m3 & Hv & Hc).
  destruct valid; [|by apply bind_Ok in Hv as (? & ? & _ & ?)].
  apply mret_Ok in Hv as [_ ->].
  apply bind_Ok in Hc as (now & m4 & Hnow & Hc). unfold _now in Hnow.
  injection Hnow as <- <-. rewrite Hdb2, Hep2, Ht2 in Hc.
  apply bind_Ok in Hc as (m5 & ? & Hm5 & Hc). apply get_Ok in Hm5 as [-> ->].
  apply bind_Ok in Hc as ([] & ? & Hev & Hc). apply guard_raise_Ok in Hev as [Hev ->].
  apply negb_false_iff in Hev.
  apply bind_Ok in Hc as ([] & m6 & Hint & Hc). apply coord_transaction_Ok in Hint.
  eapply (triple_Ok db) in Hint; [|apply (commit_intent i p g (db m))|done].
  destruct Hint as (row' & Hrow' & Hs & Hg & Hpg & Hg6). simplify_eq.
  apply bind_Ok in Hc as ([] & m7 & Hhit & Hc). apply (keeps_Ok db) in Hhit; [|apply keeps_hit].
  apply bind_Ok in Hc as ([] & m8 & Hexp & Hc).
  apply (keeps_Ok db) in Hexp; [|apply keeps_expose].
  apply bind_Ok in Hc as ([] & m9 & Hhit' & Hc).
  apply (keeps_Ok db) in Hhit'; [|apply keeps_hit].
  apply coord_transaction_Ok in Hc.
  eapply (triple_Ok db) in Hc; [|apply (commit_receipt _ (db m9))|done].
  destruct Hc as [-> Hg']. rewrite Hhit', Hexp, Hhit, Hg6 in *. eauto 15.
Qed.
End inversion.

(** ** What a rollback leaves to the adapters *)

Definition sides {H V T X} (m : Manager H V T X) : H * TrafficSide T := (host m, traffic m).

Section sides.
Context {H V T X : Type} `{HostAdapter H} `{EvidenceVerifier V} `{TrafficGate T}
  `{ExternalServiceAdapter X}.
Context (clock gate_clock : nat → Z).
Notation op := (@op H V T X).
Notation Manager := (Manager H V T X).

Lemma sides_transaction {A} (body : op A) : keeps sides body → keeps sides (transaction body).
Proof.
  intros Hb m. specialize (Hb m). unfold transaction. by destruct (body m) as [[a|e] m'].
Qed.
Lemma sides_journal i k o dt : keeps sides (_journal clock i k o dt : op ()).
Proof. done. Qed.
Lemma sides_transition i t : keeps sides (_transition clock i t : op ()).
Proof.
  intros m. unfold _transition, _row, mbind, method_bind, get.
  destruct (activation (db m) !! i) as [row|]; [|done]. simpl.
  destruct (TRANSITIONS (act_state row)); [|done]. by destruct (negb _).
Qed.

Lemma fail_close_class g reason w r w' :
  ExposureGate.fail_close gate_clock g reason w = (Ok r, w') →
  ExposureGate.fc_classification r = ExposureGate.Failed_safe ∨
  ExposureGate.fc_classification r = ExposureGate.Safety_unknown.
Proof.
  unfold ExposureGate.fail_close. intros Hf. cbn zeta in Hf. method_inv. subst. simpl.
  destruct (ExposureGate.route_closed _); auto.
Qed.

Lemma on_gate_Ok {A} (c : ExposureGate.op A) (m : Manager) a m' :
  on_gate c m = (Ok a, m') →
  ∃ w, traffic m = ExposureTraffic w ∧ (c w).1 = Ok a.
Proof.
  unfold on_gate, mbind, method_bind, get. destruct (traffic m) as [t|w]; [done|].
  intros Hc. exists w. split; [done|].
  destruct (c w) as [[b|e] w']; unfold set_traffic, modify, lift in Hc; by simplify_eq/=.
Qed.

(** The gate restored the predecessor. *)
Definition gate_restored (p : Plan) (w : ExposureGate.World) : Prop :=
  ∃ c, (ExposureGate.rollback gate_clock (next_generation p) None w).1 = Ok c ∧
       (c = ExposureGate.Restored_strong ∨ c = ExposureGate.Behavioral).

Lemma rollback_gate_restored p (m : Manager) c err m' w :
  traffic m = ExposureTraffic w →
  rollback_gate gate_clock (next_generation p) None m = (Ok (c, err), m') →
  rollback_target None c = ROLLED_BACK → gate_restored p w.
Proof.
  intros Hw Hr Hc. unfold rollback_gate in Hr.
  apply bind_Ok in Hr as (first & m1 & Hf & Hr). unfold attempt in Hf.
  destruct (on_gate _ m) as [r m2] eqn:Hg. simplify_eq.
  destruct first as [c1|e].
  - apply mret_Ok in Hr as [? ->]. simplify_eq.
    apply on_gate_Ok in Hg as (w' & Hw' & Hc1).
    rewrite Hw in Hw'. injection Hw' as <-. exists c1. split; [done|]. destruct c1; try discriminate Hc; auto.
  - apply bind_Ok in Hr as (second & m3 & Hs & Hr). apply mret_Ok in Hr as [Heq ->].
    unfold attempt in Hs. destruct (on_gate _ m1) as [r m4] eqn:Hg2. simplify_eq/=.
    destruct second as [r|e']; simplify_eq/=.
    apply on_gate_Ok in Hg2 as (w' & _ & Hfc).
    destruct (ExposureGate.fail_close _ _ _ w') as [r' w''] eqn:Hfe. simpl in Hfc. subst r'.
    apply fail_close_class in Hfe as [E|E]; rewrite E in Hc; discriminate Hc.
Qed.

(** [TrafficGate.restore] returned, or the gate restored the predecessor. *)
Definition traffic_restored (p : Plan) (t : TrafficSide T) : Prop :=
  match t with
  | PlainTraffic t => (restore (predecessor p) t).1 = Ok tt
  | ExposureTraffic w => gate_restored p w
  end.

Lemma rollback_exposed_Ok i p v e (m : Manager) m' w :
  traffic m = ExposureTraffic w →
  rollback_exposed clock gate_clock i p v e m = (Ok ROLLED_BACK, m') →
  e = None ∧ gate_restored p w.
Proof.
  intros Hw Hr. unfold rollback_exposed in Hr.
  apply bind_Ok in Hr as ([c err] & m1 & Hg & Hr). cbn zeta in Hr. method_inv.
  assert (e = None) as -> by (destruct e, c; done). split; [done|].
  by eapply rollback_gate_restored.
Qed.

Lemma rollback_plain_Ok i p v e (m : Manager) m' t :
  traffic m = PlainTraffic t →
  rollback_plain clock i p v e m = (Ok ROLLED_BACK, m') →
  e = None ∧ (restore (predecessor p) t).1 = Ok tt.
Proof.
  intros Ht Hr. unfold rollback_plain in Hr.
  apply bind_Ok in Hr as (restored & m1 & Ha & Hr).
  destruct restored as [[]|ex]; [|method_inv; done].
  unfold attempt in Ha.
  match type of Ha with (let '(_, _) := ?c m in _) = _ =>
    destruct (c m) as [r m2] eqn:Hb; injection Ha as -> ->
  end.
  apply bind_Ok in Hb as ([] & m3 & He & Hb).
  destruct e as [msg|]; [by method_inv|]. split; [done|]. method_inv.
  unfold on_traffic, mbind, method_bind, get in Hb. rewrite Ht in Hb.
  destruct (restore _ t) as [[[]|ex] t'] eqn:Hrt; [done|].
  unfold set_traffic, modify, lift in Hb. by simplify_eq/=.
Qed.

Lemma rollback_Ok i reason (m : Manager) m' :
  coord_inv (db m) → rollback clock gate_clock i reason m = (Ok ROLLED_BACK, m') →
  ∃ p v, stored i p (db m) ∧ (host_rollback (predecessor p) (host m)).1 = Ok v ∧
         traffic_restored p (traffic m).
Proof.
  intros Hm Hr. unfold rollback in Hr.
  apply bind_Ok in Hr as (p & m1 & Hp & Hr).
  apply stored_plan_Ok in Hp as (-> & row & Hrow & Hpj & _); [|done].
  apply bind_Ok in Hr as ([] & m2 & Hw & Hr).
  apply (keeps_Ok sides) in Hw.
  2: { apply sides_transaction, keeps_bind; [apply sides_transition|]. intros []. apply sides_journal. }
  apply bind_Ok in Hr as (answer & m3 & Ha & Hr). cbn zeta in Hr.
  unfold attempt, on_host in Ha.
  destruct (host_rollback (predecessor p) (host m2)) as [r h] eqn:Hh. injection Ha as -> <-.
  apply bind_Ok in Hr as ([] & m4 & Hj & Hr).
  apply (keeps_Ok sides) in Hj; [|apply sides_transaction, sides_journal].
  pose proof (f_equal fst Hw) as Hh2. pose proof (f_equal snd Hw) as Ht2.
  pose proof (f_equal snd Hj) as Ht4. simpl in Hh2, Ht2, Ht4.
  rewrite Ht2 in Ht4. rewrite Hh2 in Hh.
  apply bind_Ok in Hr as (gated & m5 & Hg & Hr).
  unfold _exposure_gate, mbind, method_bind, get, mret, method_ret in Hg. injection Hg as <- <-.
  rewrite Ht4 in Hr.
  destruct (traffic m) as [t|w] eqn:Htr.
  - apply (rollback_plain_Ok _ _ _ _ _ _ t) in Hr as [He Hres]; [|done].
    destruct answer as [v|ex]; [|done]. exists p, v.
    split; [by exists row|]. by rewrite Hh.
  - apply (rollback_exposed_Ok _ _ _ _ _ _ w) in Hr as [He Hres]; [|done].
    destruct answer as [v|ex]; [|done]. exists p, v.
    split; [by exists row|]. by rewrite Hh.
Qed.
End sides.

(** ** Complete evidence *)

(** [e] shows at [now] that process [n] met [o]: a valid observation of this
    manager, about the process the inventory lists now. *)
Record attests (d : Db) (p : Plan) (epoch now : Z) (o : EvidenceObligation) (n : Z)
    (e : evidence_row) : Prop := {
  at_row : e ∈ evidence d;
  at_plan : ev_plan_id e = Plan_plan_id p;
  at_valid : ev_valid e = true;
  at_manager : ev_manager_epoch e = epoch;
  at_fresh : (now ≤ ev_expires_at e)%Z;
  at_obligation : ev_obligation_id e = obligation_id o ∧ ev_event e = ob_event o;
  at_process_of : ev_role e = ob_role o ∧ ev_ordinal e = n;
  at_current : ∃ i, i ∈ inventory d ∧ in_plan_id i = Plan_plan_id p ∧ in_role i = ob_role o ∧
    in_ordinal i = n ∧ in_epoch i = ev_epoch e;
}.

Lemma by_process_spec rows role n epoch :
  by_process rows role n = Some epoch →
  ∃ r, r ∈ rows ∧ in_role r = role ∧ in_ordinal r = n ∧ in_epoch r = epoch.
Proof.
  unfold by_process. induction rows as [|r rows IH] using rev_ind; [done|].
  rewrite foldl_app. simpl.
  destruct (bool_decide (in_role r = role) && (in_ordinal r =? n)%Z) eqn:Hr.
  - bool_inv. intros [= <-]. exists r. split; [apply elem_of_app; right; by left|done].
  - intros H. destruct (IH H) as (r' & Hin & Hr'). exists r'.
    split; [apply elem_of_app; by left|done].
Qed.

Lemma evidence_complete_attests p epoch now d o n :
  _evidence_complete p epoch now d = true → o ∈ obligations p → n ∈ required_ordinals o →
  ∃ e, attests d p epoch now o n e.
Proof.
  unfold _evidence_complete. intros Hc Ho Hn. bool_inv.
  match goal with H : forallb _ (obligations p) = true |- _ =>
    rewrite forallb_forall in H; specialize (H o (proj1 (list_elem_of_In _ _) Ho)) end.
  unfold obligation_observed in *.
  match goal with H : forallb _ (required_ordinals o) = true |- _ =>
    rewrite forallb_forall in H; specialize (H n (proj1 (list_elem_of_In _ _) Hn)) end.
  destruct (by_process _ _ _) as [ep|] eqn:Hb; [|done].
  apply by_process_spec in Hb as (r & Hr & Hrole & Hord & Hep).
  apply list_elem_of_filter in Hr as [Hpl Hr].
  unfold observed in *.
  match goal with H : existsb _ _ = true |- _ => apply existsb_exists in H as (e & He & Hm) end.
  apply list_elem_of_In, list_elem_of_filter in He as [(? & ? & ? & ?) He]. bool_inv.
  exists e. split; try done. exists r. repeat split; congruence.
Qed.

(** ** Spent nonces *)

Lemma NoDup_fmap_key {A B} (f : A → B) l x y :
  NoDup (f <$> l) → x ∈ l → y ∈ l → f x = f y → x = y.
Proof.
  intros Hnd (i & Hx)%list_elem_of_lookup (j & Hy)%list_elem_of_lookup Hf.
  assert (i = j) as ->; [|congruence].
  eapply (NoDup_lookup _ _ _ (f x)); [done|by rewrite list_lookup_fmap, Hx|].
  by rewrite list_lookup_fmap, Hy, Hf.
Qed.

Section spent.
Context {H V T X : Type} `{EvidenceVerifier V}.
Context (clock : nat → Z).
Notation op := (@op H V T X).

(** A nonce that is in the store is refused, and the store stays as it is. *)
Lemma observe_spent i item now (d : Db) :
  at_nonce item ∈ ev_nonce <$> evidence d →
  triple_of (X := exn) db (λ d', d' = d) (observe clock i item now : op ())
    (λ _ _, False) (λ d', d' = d).
Proof.
  intros Hin. unfold observe. eapply triple_bind; [by apply coord_row_triple|intros row].
  eapply triple_bind; [apply triple_guard; by intros ? []|intros []].
  apply (triple_strengthen _ (λ d', d' = d)); [|by intros ? [[]]].
  eapply triple_bind; [apply triple_keeps; [keep_db|done]|intros p].
  eapply triple_bind; [apply triple_keeps; [keep_db|done]|intros observed_at].
  eapply triple_bind; [apply triple_keeps; [keep_db|done]|intros []].
  apply triple_get. intros m. eapply triple_bind; [apply triple_guard; by intros ? []|intros []].
  eapply (triple_catch _ _ _ _ (λ d', d' = d)); [|intros []; by apply triple_raise].
  apply coord_triple_transaction; [|by intros ? [[]]].
  eapply (triple_bind _ _ _ (λ _ _, False)); [|by intros [] m' []].
  apply triple_get. intros m2.
  apply (triple_fact _ (db m2 = d)); [by intros d' (-> & [_ ->] & _)|intros Hd].
  assert (existsb (λ e, bool_decide (ev_nonce e = at_nonce item)) (evidence (db m2)) = true)
    as ->; [|by intros m3 _].
  rewrite Hd. apply existsb_exists. apply list_elem_of_fmap in Hin as (e & He & Hin).
  exists e. split; [by apply list_elem_of_In|]. by apply bool_decide_eq_true.
Qed.
End spent.

(** ** Properties *)

Section properties.
Context {H V T X : Type} `{HostAdapter H} `{EvidenceVerifier V} `{TrafficGate T}
  `{ExternalServiceAdapter X}.
Context (clock gate_clock : nat → Z).
Notation Manager := (Manager H V T X).
Notation reachable := (@reachable H V T X _ _ _ _ clock gate_clock).
Notation step := (@step H V T X _ _ _ _ clock gate_clock).

(** C3: From every reachable manager, the journal of every stored plan is a history of
    the activation protocol that ends in its stored state; any later calls, crashes and
    adapter behaviour keep the plan, extend the journal along the protocol, and never
    move a plan whose state has ended. *)
Theorem coordinator_refines_protocol (m m' : Manager) i row :
reachable m → rtc step m m' → activation (db m) !! i = Some row →
history (entries i (db m)) (act_state row) ∧
∃ row', activation (db m') !! i = Some row' ∧
        plan_continues (db m) (db m') i row row' ∧
        (act_state row ∈ ended →
         act_state row' = act_state row ∧ entries i (db m') = entries i (db m)).
Proof.
intros Hm Hs Hrow. pose proof (coord_reachable_inv _ _ _ Hm) as Hinv.
split; [by apply (inv_plan _ Hinv)|].
destruct (steps_inv _ _ _ _ Hs Hinv) as [_ Hev].
destruct (ev_plans _ _ Hev _ _ Hrow) as (row' & Hrow' & Hc).
exists row'. split; [done|]. split; [done|]. intros Hend.
destruct Hc as (_ & _ & l & Hl & He). apply evolution_ended in He as [Hst ->]; [|done].
by rewrite Hl, app_nil_r.
Qed.

(** In every journal of a reachable store, a receipt record is preceded by the intent
    record that announces its operation. *)
Theorem receipts_follow_intents (m : Manager) i pre x post :
reachable m → entries i (db m) = pre ++ x :: post → receipt_announced pre x.
Proof.
intros Hm Hx. pose proof (coord_reachable_inv _ _ _ Hm) as Hinv.
destruct (activation (db m) !! i) as [row|] eqn:Hrow.
- eapply history_announced; [|done]. by apply (inv_plan _ Hinv).
- rewrite (inv_absent _ Hinv _ Hrow) in Hx. by destruct pre.
Qed.

(** In every reachable store the JSON of a plan row decodes with _plan_from_json to a
    plan whose asdict is that JSON and whose plan id is the row's key, with targets for
    all its obligations. *)
Theorem stored_plan_round_trip (m : Manager) i row :
reachable m → activation (db m) !! i = Some row →
∃ p, _plan_from_json (act_plan_json row) = Ok p ∧ Plan_asdict p = act_plan_json row ∧
     Plan_plan_id p = i ∧ lacks_targets p = false.
Proof.
intros Hm Hrow. pose proof (coord_reachable_inv _ _ _ Hm) as Hinv.
destruct (inv_plan _ Hinv _ _ Hrow) as [_ (p & Hp & Hid & Hl & _)].
exists p. rewrite Hp, plan_round_trip. done.
Qed.

(** C2: When commit returns a generation on a reachable coordinator, the plan was
    OBSERVING, its external leases were valid, every required ordinal of every
    obligation had an attestation of this manager epoch that had not expired at the time
    commit read from its clock and that names a process of the current launch, the
    stored generation, the caller's and the predecessor's agreed, and the store then
    holds the next generation and EFFECTIVE. *)
Theorem commit_requires_current_evidence (m : Manager) i g n :
reachable m → (commit clock gate_clock i g m).1 = Ok n →
∃ p row, activation (db m) !! i = Some row ∧ act_plan_json row = Plan_asdict p ∧
  i = Plan_plan_id p ∧ act_state row = OBSERVING ∧
  (lease_valid p (external m)).1 = Ok true ∧
  (∀ o k, o ∈ obligations p → k ∈ required_ordinals o →
     ∃ e, attests (db m) p (manager_epoch m) (clock (ticks m)) o k e ∧ bound (db m) row e) ∧
  meta_generation (db m) = g ∧ pred_generation (predecessor p) = g ∧ n = (g + 1)%Z ∧
  let d' := db (exec (commit clock gate_clock i g) m) in
  meta_generation d' = n ∧ in_state i EFFECTIVE d'.
Proof.
intros Hm Hn. pose proof (coord_reachable_inv _ _ _ Hm) as Hinv.
destruct (commit clock gate_clock i g m) as [r m'] eqn:Hc. simpl in Hn. subst r.
unfold exec. rewrite Hc. simpl.
destruct (commit_Ok _ _ _ _ _ _ _ Hinv Hc)
  as (p & row & Hrow & Hp & Hid & Hs & Hl & He & Hg & Hpg & Hn & Hg').
exists p, row. repeat (split; [done|]). split; [|repeat (split; [congruence|])].
- intros o k Ho Hk. destruct (evidence_complete_attests _ _ _ _ _ _ He Ho Hk) as [e Hat].
  exists e. split; [done|].
  destruct (inv_evidence _ Hinv e (at_row _ _ _ _ _ _ _ Hat)) as (row' & Hrow' & _ & Hb).
  rewrite (at_plan _ _ _ _ _ _ _ Hat), <-Hid in Hrow'. simplify_eq.
  apply Hb, (at_valid _ _ _ _ _ _ _ Hat).
- eapply (triple_Ok db (I (db m)) _ _ _ m _ m') in Hc; [|apply commit_triple|by split].
  by destruct Hc.
Qed.

(** C18: A nonce of a reachable coordinator's store names one evidence row; once
    invalidated it is never valid again; and observing an attestation that reuses it
    fails, at that time or after any later steps, and leaves the evidence unchanged. *)
Theorem evidence_spent_once (m m' : Manager) e i item now :
reachable m → e ∈ evidence (db m) → rtc step m m' → at_nonce item = ev_nonce e →
(∀ e', e' ∈ evidence (db m) → ev_nonce e' = ev_nonce e → e' = e) ∧
(ev_valid e = false → ∀ e', e' ∈ evidence (db m') → ev_nonce e' = ev_nonce e →
   ev_valid e' = false) ∧
(observe clock i item now m').1 ≠ Ok tt ∧
evidence (db (exec (observe clock i item now) m')) = evidence (db m').
Proof.
intros Hm He Hs Hn. pose proof (coord_reachable_inv _ _ _ Hm) as Hinv.
destruct (steps_inv _ _ _ _ Hs Hinv) as [Hinv' Hev].
destruct (ev_evidence _ _ Hev _ He) as (e2 & He2 & Hc).
assert (ev_nonce e2 = ev_nonce e) as Hn2 by (destruct Hc; by subst).
split; [|split; [|]].
- intros e' He' Hne. by eapply (NoDup_fmap_key ev_nonce); [apply (inv_nonces _ Hinv)| | |].
- intros Hv e' He' Hne.
  assert (e' = e2) as ->
    by (eapply (NoDup_fmap_key ev_nonce); [apply (inv_nonces _ Hinv')| | |]; congruence || done).
  by destruct Hc; subst.
- pose proof (observe_spent (H:=H) (T:=T) (X:=X) clock i item now (db m')) as Hspent.
  rewrite Hn, <-Hn2 in Hspent. specialize (Hspent (list_elem_of_fmap_2 _ _ _ He2) m' eq_refl).
  unfold exec. destruct (observe clock i item now m') as [[[]|ex] m2]; [done|].
  simpl in *. by rewrite Hspent.
Qed.

(** A manager process started on the store of a reachable one cannot commit before it
    observes again: commit fails for every plan and expected generation, whatever the
    adapters are. *)
Theorem restart_voids_evidence (m : Manager) h v t x armed n i g :
reachable m →
∀ k, (commit clock gate_clock i g (start (db m) h v t x armed n : Manager)).1 ≠ Ok k.
Proof.
intros Hm k Hc. pose proof (coord_reachable_inv _ _ _ Hm) as Hinv.
destruct (commit clock gate_clock i g _) as [r m'] eqn:Heq. simpl in Hc. subst r.
apply commit_Ok in Heq as (p & row & Hrow & Hp & Hid & Hs & _ & He & _);
  [|by apply boot_inv].
assert (lacks_targets p = false) as Hl
  by (unfold _evidence_complete in He; by bool_inv).
unfold lacks_targets in Hl. bool_inv.
destruct (obligations p) as [|o os] eqn:Hos; [done|]. simpl in *. bool_inv.
destruct (required_ordinals o) as [|z zs] eqn:Hz; [done|].
edestruct (evidence_complete_attests p _ _ _ o z He) as [e Hat].
- rewrite Hos. by left.
- rewrite Hz. by left.
- pose proof (at_row _ _ _ _ _ _ _ Hat) as Hin. simpl in Hin.
  apply list_elem_of_fmap in Hin as (e' & -> & _). by destruct Hat.
Qed.

(** C19: A negative liveness result: once a commit has recorded its intent and not
    finished (COMMIT_READY), no later sequence of calls, restarts, recoveries and
    observations makes commit of that plan succeed with any expected generation, since
    the intent transaction already advanced the stored generation past the plan's
    predecessor. *)
Theorem interrupted_commit_never_succeeds (m m' : Manager) i g :
reachable m → in_state i COMMIT_READY (db m) → rtc step m m' →
∀ k, (commit clock gate_clock i g m').1 ≠ Ok k.
Proof.
intros Hm (row & Hrow & Hs) Hsteps k Hc. pose proof (coord_reachable_inv _ _ _ Hm) as Hinv.
destruct (inv_plan _ Hinv _ _ Hrow) as [_ (p & Hp & Hid & _ & Hcas)].
destruct (steps_inv _ _ _ _ Hsteps Hinv) as [Hinv' Hev].
destruct (ev_plans _ _ Hev _ _ Hrow) as (row' & Hrow' & Hj & _).
destruct (commit clock gate_clock i g m') as [r m2] eqn:Heq. simpl in Hc. subst r.
apply commit_Ok in Heq as (p' & row2 & Hrow2 & Hp2 & _ & _ & _ & _ & Hg & Hpg & _);
  [|done].
simplify_eq. rewrite Hj, Hp in Hp2.
assert (p' = p) as ->.
{ pose proof (plan_round_trip p) as E. rewrite Hp2, plan_round_trip in E. by simplify_eq. }
pose proof (ev_generation _ _ Hev). rewrite Hs in Hcas. specialize (Hcas ltac:(in_list)). lia.
Qed.

(** When rollback returns a state on a reachable coordinator, the store records that
    state for the plan and it is an ended one; when it is ROLLED_BACK, the host's
    rollback to the stored predecessor returned and the traffic side was restored to the
    predecessor. *)
Theorem rollback_settles (m : Manager) i reason s :
reachable m → (rollback clock gate_clock i reason m).1 = Ok s →
in_state i s (db (exec (rollback clock gate_clock i reason) m)) ∧ s ∈ ended ∧
(s = ROLLED_BACK →
 ∃ p v, stored i p (db m) ∧ (host_rollback (predecessor p) (host m)).1 = Ok v ∧
        traffic_restored gate_clock p (traffic m)).
Proof.
intros Hm Hs. pose proof (coord_reachable_inv _ _ _ Hm) as Hinv.
destruct (rollback clock gate_clock i reason m) as [r m'] eqn:Hr. simpl in Hs. subst r.
unfold exec. rewrite Hr. simpl.
pose proof (triple_Ok db (I (db m)) _ _ _ m _ m' (coord_rollback_triple clock gate_clock (db m) i reason)
  ltac:(by split) Hr) as [[_ Hst] Hend].
split; [done|]. split; [done|]. intros ->. by eapply rollback_Ok.
Qed.
End properties.

(** ** A run with the fake adapters *)

Section scenario.
Local Notation FakeManager := (Manager FakeHost FakeVerifier FakeTraffic bool).

Definition scenario_clock (n : nat) : Z := 100.
Definition scenario_id : string := Eval vm_compute in Plan_plan_id example_plan.
Definition fresh_manager (armed : gset string) : FakeManager :=
  start _schema (mkFakeHost [example_process 0; example_process 1] false false true)
    mkFakeVerifier (PlainTraffic (mkFakeTraffic None None)) true armed 0.

Definition to_launch : list call :=
  [Call_plan example_plan; Call_prepare scenario_id; Call_launch scenario_id "launch-1"].
Definition to_commit : list call :=
  to_launch ++ [Call_observe scenario_id (example_attestation 0 "n0") None;
                Call_observe scenario_id (example_attestation 1 "n1") None].

Definition drive (cs : list call) (m : FakeManager) : FakeManager :=
  run_all scenario_clock scenario_clock cs m.

Definition launched : FakeManager := Eval vm_compute in drive to_launch (fresh_manager ∅).
Definition observed_all : FakeManager := Eval vm_compute in drive to_commit (fresh_manager ∅).
Definition interrupted : FakeManager :=
  Eval vm_compute in
    drive (to_commit ++ [Call_commit scenario_id 0]) (fresh_manager {["commit.after_side_effect"]}).
(** Recovered and observed again. *)
Definition retried : FakeManager :=
  Eval vm_compute in
    drive [Call_recover scenario_id; Call_resume_observing scenario_id;
           Call_observe scenario_id (example_attestation 0 "n2") None;
           Call_observe scenario_id (example_attestation 1 "n3") None] interrupted.

Lemma run_all_steps cs (m : FakeManager) :
  rtc (step scenario_clock scenario_clock) m (drive cs m).
Proof.
  revert m. induction cs as [|c cs IH]; intros m; [done|].
  eapply rtc_l; [apply (step_call _ _ _ c)|apply IH].
Qed.

Lemma drive_reachable cs armed m :
  drive cs (fresh_manager armed) = m → reachable scenario_clock scenario_clock m.
Proof. intros <-. unfold reachable. repeat eexists. apply run_all_steps. Qed.

Lemma observed_all_reachable : reachable scenario_clock scenario_clock observed_all.
Proof. apply (drive_reachable to_commit ∅). vm_compute. reflexivity. Qed.

Lemma interrupted_reachable : reachable scenario_clock scenario_clock interrupted.
Proof.
  apply (drive_reachable (to_commit ++ [Call_commit scenario_id 0])
           {["commit.after_side_effect"]}).
  vm_compute. reflexivity.
Qed.

Lemma interrupted_retried : rtc (step scenario_clock scenario_clock) interrupted retried.
Proof.
  assert (drive [Call_recover scenario_id; Call_resume_observing scenario_id;
    Call_observe scenario_id (example_attestation 0 "n2") None;
    Call_observe scenario_id (example_attestation 1 "n3") None] interrupted = retried) as <-
    by (vm_compute; reflexivity).
  apply run_all_steps.
Qed.

(** An attestation from another host than the inventory's. *)
Definition foreign_process : ProcessIdentity := mkProcess "elsewhere" "worker" 0 "s" 1.
Definition foreign_attestation : Attestation :=
  mkAttestation scenario_id "launch-1" foreign_process "o1" "loaded" "n0" 100 160
    (PluginIdentity_id example_plugin) "host-runtime" "" "" 0 "" "".
Definition reference_launched : EcpaModel.ReferenceModel :=
  EcpaModel.run_all
    [EcpaModel.Call_resolve ["org.vllm-hust"] "org.vllm-hust";
     EcpaModel.Call_make_plan (plugins example_plan) (plan_host example_plan)
       (claims example_plan) (obligations example_plan) (predecessor example_plan) false;
     EcpaModel.Call_prepare;
     EcpaModel.Call_launch "launch-1" [example_process 0; example_process 1]]
    (EcpaModel.ReferenceModel_init 0).

End scenario.

(** On the same attestation from a process on a foreign host the durable coordinator and
    the reference model differ: the coordinator accepts it and goes on to commit, the
    reference model raises STALE_EVIDENCE. *)
Theorem coordinator_ignores_attested_host :
  p_host foreign_process ∉ in_host <$> inventory (db launched) ∧
  (observe scenario_clock scenario_id foreign_attestation None launched).1 = Ok tt ∧
  (commit scenario_clock scenario_clock scenario_id 0
     (drive [Call_observe scenario_id foreign_attestation None;
             Call_observe scenario_id (example_attestation 1 "n1") None] launched)).1 = Ok 1%Z ∧
  (EcpaModel.attest foreign_attestation 100 reference_launched).1 =
    Raise (EcpaModel.ContractError STALE_EVIDENCE "elsewhere/worker/0/s/1").
Proof.
  split; [not_in_list|]. split; [vm_compute; reflexivity|].
  split; vm_compute; reflexivity.
Qed.

(** ** The theorems at the scenario *)

Lemma coordinator_refines_protocol_witness :
  in_state scenario_id COMMIT_READY (db interrupted) ∧
  ∃ row, activation (db interrupted) !! scenario_id = Some row ∧
    history (entries scenario_id (db interrupted)) (act_state row) ∧
    ∃ row', activation (db retried) !! scenario_id = Some row' ∧
            plan_continues (db interrupted) (db retried) scenario_id row row' ∧
            (act_state row ∈ ended →
             act_state row' = act_state row ∧
             entries scenario_id (db retried) = entries scenario_id (db interrupted)).
Proof.
  destruct (activation (db interrupted) !! scenario_id) as [row|] eqn:Hrow.
  - split; [exists row; split; [exact Hrow|vm_compute in Hrow; by simplify_eq]|].
    exists row. split; [done|].
    exact (coordinator_refines_protocol scenario_clock scenario_clock interrupted retried
             scenario_id row interrupted_reachable interrupted_retried Hrow).
  - vm_compute in Hrow. discriminate Hrow.
Defined.

Lemma stored_plan_round_trip_witness :
  ∃ row, activation (db observed_all) !! scenario_id = Some row ∧
    ∃ p, _plan_from_json (act_plan_json row) = Ok p ∧ Plan_asdict p = act_plan_json row ∧
         Plan_plan_id p = scenario_id ∧ lacks_targets p = false.
Proof.
  destruct (activation (db observed_all) !! scenario_id) as [row|] eqn:Hrow.
  - exists row. split; [done|].
    exact (stored_plan_round_trip scenario_clock scenario_clock observed_all scenario_id row
             observed_all_reachable Hrow).
  - vm_compute in Hrow. discriminate Hrow.
Defined.

Lemma receipts_follow_intents_witness :
  (λ x : entry, x.1) <$> take 4 (entries scenario_id (db observed_all)) =
    [("transition", "plan"); ("transition", "Preparing"); ("wal", "prepare");
     ("receipt", "prepare")] ∧
  receipt_announced (take 3 (entries scenario_id (db observed_all)))
    (receipt "prepare" (JObj [("prepared", JBool true); ("plan_id", JStr scenario_id)])).
Proof.
  split; [vm_compute; reflexivity|].
  apply (receipts_follow_intents scenario_clock scenario_clock observed_all scenario_id _ _
           (drop 4 (entries scenario_id (db observed_all)))).
  - exact observed_all_reachable.
  - vm_compute. reflexivity.
Defined.

Lemma commit_requires_current_evidence_witness :
  ∃ p row, activation (db observed_all) !! scenario_id = Some row ∧
    act_plan_json row = Plan_asdict p ∧
    scenario_id = Plan_plan_id p ∧ act_state row = OBSERVING ∧
    (lease_valid p (external observed_all)).1 = Ok true ∧
    (∀ o k, o ∈ obligations p → k ∈ required_ordinals o →
       ∃ e, attests (db observed_all) p (manager_epoch observed_all) (scenario_clock (ticks observed_all)) o k e ∧
            bound (db observed_all) row e) ∧
    meta_generation (db observed_all) = 0%Z ∧ pred_generation (predecessor p) = 0%Z ∧
    1%Z = (0 + 1)%Z ∧
    let d' := db (exec (commit scenario_clock scenario_clock scenario_id 0) observed_all) in
    meta_generation d' = 1%Z ∧ in_state scenario_id EFFECTIVE d'.
Proof.
  apply (commit_requires_current_evidence scenario_clock scenario_clock observed_all
           scenario_id 0 1).
  - exact observed_all_reachable.
  - vm_compute. reflexivity.
Defined.

(** The first evidence row of the scenario. *)
Definition first_evidence : evidence_row :=
  evidence_row_of scenario_id 1 (example_attestation 0 "n0").

Lemma evidence_spent_once_witness :
  first_evidence ∈ evidence (db observed_all) ∧
  (observe scenario_clock scenario_id (example_attestation 1 "n0") None observed_all).1 ≠ Ok tt.
Proof.
  assert (first_evidence ∈ evidence (db observed_all)) as Hin
    by (apply list_elem_of_lookup; exists 0; vm_compute; reflexivity).
  split; [exact Hin|].
  apply (evidence_spent_once scenario_clock scenario_clock observed_all observed_all
           first_evidence scenario_id (example_attestation 1 "n0") None).
  - exact observed_all_reachable.
  - exact Hin.
  - apply rtc_refl.
  - vm_compute. reflexivity.
Defined.

Lemma restart_voids_evidence_witness :
  (commit scenario_clock scenario_clock scenario_id 0 observed_all).1 = Ok 1%Z ∧
  ∀ k, (commit scenario_clock scenario_clock scenario_id 0
          (start (db observed_all) (host observed_all) mkFakeVerifier (traffic observed_all)
             true ∅ 0)).1 ≠ Ok k.
Proof.
  split; [vm_compute; reflexivity|].
  apply (restart_voids_evidence scenario_clock scenario_clock observed_all).
  exact observed_all_reachable.
Defined.

(** The crash after the side effect of the first commit leaves the plan observed,
    attested and refused for ever. *)
Lemma interrupted_commit_never_succeeds_witness :
  (commit scenario_clock scenario_clock scenario_id 0 retried).1 =
    Raise (ContractError CAS_MISMATCH "0") ∧
  in_state scenario_id OBSERVING (db retried) ∧
  ∀ k, (commit scenario_clock scenario_clock scenario_id 1 retried).1 ≠ Ok k.
Proof.
  split; [vm_compute; reflexivity|]. split; [vm_compute; eauto|].
  apply (interrupted_commit_never_succeeds scenario_clock scenario_clock interrupted retried).
  - exact interrupted_reachable.
  - vm_compute. eauto.
  - exact interrupted_retried.
Defined.

Lemma rollback_settles_witness :
  in_state scenario_id ROLLED_BACK
    (db (exec (rollback scenario_clock scenario_clock scenario_id "why") observed_all)) ∧
  ROLLED_BACK ∈ ended ∧
  (ROLLED_BACK = ROLLED_BACK →
   ∃ p v, stored scenario_id p (db observed_all) ∧
     (host_rollback (predecessor p) (host observed_all)).1 = Ok v ∧
     traffic_restored scenario_clock p (traffic observed_all)).
Proof.
  apply (rollback_settles scenario_clock scenario_clock observed_all scenario_id "why").
  - exact observed_all_reachable.
  - vm_compute. reflexivity.
Defined.
