(* ===== verification/HostEventSink.v ===== *)
(** * Host event journals and the directories that hold them: [host_event_sink.py]

    Two directories are involved, the one host processes write their journals to
    and the quarantine.  A file keeps its inode, what [fstat] says of it and its
    bytes; the files a canonical JSON record was written to keep the record.  Every
    system call of the code consumes an outcome of the [script]: it may work, fail
    with an [OSError], write fewer bytes than asked, or be the last thing the process
    does.  [Killed] is that last case: no handler and no [finally] of the code runs
    after it.  A process's locks end with it.

    The events themselves are those of [HostJournal].  Not modelled: loss of unsynced
    data ([os.fsync] may fail and does nothing else); changes of a file between two system calls of one call. *)

From S2P Require Import Prelude PyStd.
From S2P Require EcpaModel.

Local Open Scope string_scope.
Local Open Scope list_scope.

Inductive exn : Type :=
  | Killed
  | OSError | FileNotFoundError | FileExistsError
  | Waiting | AssertionError
  | HostEventSinkError (detail : string)
  | QuarantineTransactionError (detail : string)
  | LifecycleSourceError (detail : string).

#[export] Instance exn_eq_dec : EqDecision exn.
Proof. solve_decision. Defined.

(** [except OSError] *)
Definition is_os_error (e : exn) : bool :=
  match e with OSError | FileNotFoundError | FileExistsError => true | _ => false end.

(** ** Files and directories *)

Definition newline : string := String (Ascii.ascii_of_N 10) "".

(** A canonical JSON document with its newline, or other bytes and whether
    [json.loads] accepts them. *)
Inductive Content : Type :=
  | Document (v : json)
  | Bytes (raw : string) (is_json : bool).

Definition document_bytes (v : json) : string := EcpaModel.canonical_bytes v +:+ newline.

Definition bytes_of (c : Content) : string :=
  match c with Document v => document_bytes v | Bytes raw _ => raw end.

(** The document [v] with its first [n] bytes written; without its newline alone it
    is valid JSON. *)
Definition written (v : json) (n : nat) : Content :=
  let size := String.length (document_bytes v) in
  if (size <=? n)%nat then Document v
  else Bytes (String.substring 0 n (document_bytes v)) (S n =? size)%nat.

Inductive Kind : Type := Regular | Link | Special.

#[export] Instance Kind_eq_dec : EqDecision Kind.
Proof. solve_decision. Defined.

Record File : Type := mkFile {
  f_inode : Z; f_kind : Kind; f_owned : bool; f_mode : Z; f_content : Content;
}.

(** What [root] names: a canonical path, or what [_open_journal_root] refuses. *)
Inductive PathState : Type := Canonical | Relative_or_link | Missing | Indirect.

#[export] Instance PathState_eq_dec : EqDecision PathState.
Proof. solve_decision. Defined.

Record Directory : Type := mkDirectory {
  d_path : PathState; d_private : bool; d_device : Z; d_inode : Z;
  files : gmap string File;
}.

Inductive Root : Type := Source | Quarantine.

#[export] Instance Root_eq_dec : EqDecision Root.
Proof. solve_decision. Defined.

Inductive outcome : Type := Works | Writes (n : nat) | Fails | Dies.

Record World : Type := mkWorld {
  source : Directory; quarantine : Directory;
  locked : bool;
  script : list outcome;
  (** the process's pid, the random tokens drawn, the inodes handed out *)
  pid : Z; tokens : nat; inodes : nat;
}.

Definition op (A : Type) : Type := method World exn A.

Definition dir (r : Root) (w : World) : Directory :=
  match r with Source => source w | Quarantine => quarantine w end.

Definition with_files (m : gmap string File) (d : Directory) : Directory :=
  mkDirectory (d_path d) (d_private d) (d_device d) (d_inode d) m.

Definition set_files (r : Root) (f : gmap string File → gmap string File) (w : World) : World :=
  match r with
  | Source => mkWorld (with_files (f (files (source w))) (source w)) (quarantine w)
                (locked w) (script w) (pid w) (tokens w) (inodes w)
  | Quarantine => mkWorld (source w) (with_files (f (files (quarantine w))) (quarantine w))
                    (locked w) (script w) (pid w) (tokens w) (inodes w)
  end.

Definition set_locked (b : bool) (w : World) : World :=
  mkWorld (source w) (quarantine w) b (script w) (pid w) (tokens w) (inodes w).
Definition set_script (s : list outcome) (w : World) : World :=
  mkWorld (source w) (quarantine w) (locked w) s (pid w) (tokens w) (inodes w).
Definition bump_tokens (w : World) : World :=
  mkWorld (source w) (quarantine w) (locked w) (script w) (pid w) (S (tokens w)) (inodes w).
Definition bump_inodes (w : World) : World :=
  mkWorld (source w) (quarantine w) (locked w) (script w) (pid w) (tokens w) (S (inodes w)).

Definition identity_of (d : Directory) : Z * Z := (d_device d, d_inode d).

(** ** System calls *)

(** The call runs [f] with the number of bytes a short write is cut to. *)
Definition syscall {A} (f : option nat → World → result exn A * World) : op A := λ w,
  match script w with
  | [] => f None w
  | Works :: s => f None (set_script s w)
  | Writes n :: s => f (Some n) (set_script s w)
  | Fails :: s => (Raise OSError, set_script s w)
  | Dies :: s => (Raise Killed, set_script s w)
  end.

(** A call that reads the world: [Ok] or an error, and no effect. *)
Definition sys_read {A} (f : World → result exn A) : op A :=
  syscall (λ _ w, (f w, w)).

(** A call without a result the model needs: [fsync], opening a directory. *)
Definition sys_nop : op () := sys_read (λ _, Ok ()).

Definition entry (r : Root) (name : string) (w : World) : option File := files (dir r w) !! name.

(** [os.stat(name, dir_fd, follow_symlinks=False)] *)
Definition os_stat (r : Root) (name : string) : op File :=
  sys_read (λ w, match entry r name w with Some f => Ok f | None => Raise FileNotFoundError end).

(** [os.open(name, O_NOFOLLOW, dir_fd)] of an existing entry *)
Definition os_open (r : Root) (name : string) : op File :=
  sys_read (λ w, match entry r name w with
                 | Some f => if decide (f_kind f = Link) then Raise OSError else Ok f
                 | None => Raise FileNotFoundError
                 end).

(** [os.fstat], [stream.read] on an open file *)
Definition os_fstat (f : File) : op File := sys_read (λ _, Ok f).
Definition os_read (f : File) : op string := sys_read (λ _, Ok (bytes_of (f_content f))).

Definition os_listdir (r : Root) : op (list string) :=
  sys_read (λ w, Ok (map_to_list (files (dir r w))).*1).

Definition os_unlink (r : Root) (name : string) : op () :=
  syscall (λ _ w, match entry r name w with
                  | Some _ => (Ok (), set_files r (delete name) w)
                  | None => (Raise FileNotFoundError, w)
                  end).

Definition os_fsync (r : Root) : op () := sys_nop.

(** Inode numbers are the kernel's choice. *)
Class Kernel : Type := { inode_of : nat → Z; token_hex : nat → string }.

Section sink.
Context {K : Kernel}.

(** [os.open(name, O_CREAT | O_EXCL, 0o600, dir_fd)] *)
Definition os_create (r : Root) (name : string) : op () :=
  syscall (λ _ w,
    match entry r name w with
    | Some _ => (Raise FileExistsError, w)
    | None =>
        (Ok (), bump_inodes (set_files r
           (insert name (mkFile (inode_of (inodes w)) Regular true 384 (Bytes "" false))) w))
    end).

(** [secrets.token_hex(16)] *)
Definition draw_token : op string := λ w, (Ok (token_hex (tokens w)), bump_tokens w).

Definition set_content (c : Content) (f : File) : File :=
  mkFile (f_inode f) (f_kind f) (f_owned f) (f_mode f) c.

(** One [os.write]: how many of the [left] bytes it wrote. *)
Definition os_write (r : Root) (name : string) (left : nat) (c : nat → Content → Content) : op nat :=
  syscall (λ limit w,
    let n := match limit with Some n => Nat.min n left | None => left end in
    (Ok n, set_files r (alter (λ f, set_content (c n (f_content f)) f) name) w)).

(** [while view: written = os.write(...)], with one turn per byte at most. *)
Fixpoint write_loop (fuel : nat) (r : Root) (name : string) (stalled : exn)
    (c : nat → nat → Content → Content) (done left : nat) : op () :=
  match fuel, left with
  | _, O => mret ()
  | O, _ => raise stalled
  | S fuel, _ =>
      n ← os_write r name left (c done);
      _ ← guard_raise (n =? 0)%nat stalled;
      write_loop fuel r name stalled c (done + n) (left - n)
  end.

(** Write the document [v] to the new file [name]. *)
Definition write_document (r : Root) (name : string) (v : json) (stalled : exn) : op () :=
  let size := String.length (document_bytes v) in
  write_loop size r name stalled (λ done n _, written v (done + n)) 0 size.

(** Append the bytes [raw] to [name], opened with [O_APPEND]. *)
Definition append_bytes (r : Root) (name raw : string) (stalled : exn) : op () :=
  write_loop (String.length raw) r name stalled
    (λ done n c, Bytes (bytes_of c +:+ String.substring done n raw) false) 0 (String.length raw).

(** [renameat2(..., RENAME_NOREPLACE)] *)
Definition _rename_noreplace (r : Root) (name : string) (r' : Root) (name' : string) : op () :=
  syscall (λ _ w,
    match entry r name w with
    | None => (Raise FileNotFoundError, w)
    | Some f =>
        match entry r' name' w with
        | Some _ => (Raise FileExistsError, w)
        | None =>
            if decide (d_device (dir r w) = d_device (dir r' w))
            then (Ok (), set_files r' (insert name' f) (set_files r (delete name) w))
            else (Raise OSError, w)
        end
    end).

(** ** Handlers *)

(** [except OSError as exc: raise e from exc] *)
Definition os_error_as {A} (e : exn) (m : op A) : op A :=
  catch m (λ e', if is_os_error e' then raise e else raise e').

(** [except BaseException] *)
Definition catch_all {A} (m : op A) (h : exn → op A) : op A :=
  catch m (λ e, if decide (e = Killed) then raise e else h e).

(** [try: m finally: c] *)
Definition finally {A} (m : op A) (c : op ()) : op A := λ w,
  match m w with
  | (Raise Killed, w') => (Raise Killed, w')
  | (r, w') => (_ ← c; lift r) w'
  end.

(** The outcome of [m] as a value, unless the process died. *)
Definition try_op {A} (m : op A) : op (result exn A) :=
  catch_all (a ← m; mret (Ok a)) (λ e, mret (Raise e)).

(** ** Journal directories *)

Definition _open_journal_root (root : Root) (expected : option (Z * Z)) : op () :=
  w ← get;
  let d := dir root w in
  _ ← guard_raise (bool_decide (d_path d = Relative_or_link))
        (HostEventSinkError "host event directory must be an existing real path");
  _ ← os_error_as (HostEventSinkError "host event directory is unavailable")
        (sys_read (λ _, if decide (d_path d = Missing) then Raise FileNotFoundError else Ok ()));
  _ ← guard_raise (bool_decide (d_path d = Indirect))
        (HostEventSinkError "host event directory must be canonical");
  _ ← os_error_as (HostEventSinkError "cannot open host event directory") sys_nop;
  _ ← os_error_as (HostEventSinkError "cannot inspect host event directory") sys_nop;
  _ ← guard_raise (negb (d_private d))
        (HostEventSinkError "host event directory must be private and owned");
  guard_raise (match expected with
               | Some i => negb (bool_decide (identity_of d = i))
               | None => false
               end)
    (HostEventSinkError "host event directory identity changed").

Definition _quarantine_fence_name (journal : string) : string :=
  ".ecpa-quarantine-" +:+ sha256_hexdigest journal +:+ ".fence".

Definition QUARANTINE_LOCK : string := ".ecpa-quarantine.lock".

Definition private_file (f : File) : bool :=
  bool_decide (f_kind f = Regular) && f_owned f && (f_mode f =? 384)%Z.

(** [os.open(..., O_CREAT, 0o600)] without [O_EXCL] *)
Definition os_open_or_create (r : Root) (name : string) : op File :=
  syscall (λ _ w,
    match entry r name w with
    | Some f => (if decide (f_kind f = Link) then Raise OSError else Ok f, w)
    | None =>
        let f := mkFile (inode_of (inodes w)) Regular true 384 (Bytes "" false) in
        (Ok f, bump_inodes (set_files r (insert name f) w))
    end).

Definition cannot_lock : exn := HostEventSinkError "cannot acquire host event quarantine lock".

(** A shared lock is given back before the call ends, so only an exclusive one marks
    the world; a writer that must wait for one is stopped there. *)
Definition _acquire_quarantine_lock (root : Root) (exclusive nonblocking : bool) : op () :=
  f ← os_error_as cannot_lock (os_open_or_create root QUARANTINE_LOCK);
  f ← os_error_as cannot_lock (os_fstat f);
  _ ← guard_raise (negb (private_file f))
        (HostEventSinkError "host event quarantine lock is unsafe");
  w ← get;
  _ ← guard_raise (locked w)
        (if nonblocking then HostEventSinkError "host event journal is fenced for quarantine"
         else Waiting);
  os_error_as cannot_lock
    (syscall (λ _ w, (Ok (), if exclusive then set_locked true w else w))).

(** [append_event] from the opened directory on: [raw] is the canonical event with its
    newline, [name] its journal. *)
Definition append_event (fsync name raw : string) : op () :=
  _ ← _acquire_quarantine_lock Source false false;
  _ ← guard_raise (negb (bool_decide (fsync ∈ ["0"; "1"])))
        (HostEventSinkError "ECPA_HOST_EVENT_FSYNC must be 0 or 1");
  fenced ← try_op (os_stat Source (_quarantine_fence_name name));
  _ ← match fenced with
      | Ok _ => raise (HostEventSinkError "host event journal is durably quarantined")
      | Raise FileNotFoundError => mret ()
      | Raise _ => raise (HostEventSinkError "cannot inspect journal quarantine fence")
      end;
  let cannot_open := HostEventSinkError "cannot open host event journal" in
  created ← try_op (os_create Source name);
  created ← match created with
            | Ok _ => mret true
            | Raise FileExistsError => _ ← os_error_as cannot_open (os_open Source name); mret false
            | Raise _ => raise cannot_open
            end;
  let cannot_write := HostEventSinkError "cannot write or sync host event journal" in
  _ ← os_error_as cannot_write (
    f ← os_stat Source name;
    _ ← guard_raise (negb (bool_decide (f_kind f = Regular)) || negb (f_owned f))
          (HostEventSinkError "host event journal is not an owned regular file");
    _ ← (if (f_mode f =? 384)%Z then mret ()
         else
           _ ← syscall (λ _ w, (Ok (), set_files Source
                 (alter (λ f, mkFile (f_inode f) (f_kind f) (f_owned f) 384 (f_content f)) name) w));
           f ← os_stat Source name;
           guard_raise (negb (f_mode f =? 384)%Z)
             (HostEventSinkError "host event journal mode is not 0600"));
    _ ← append_bytes Source name raw
          (HostEventSinkError "host event journal append made no progress");
    if decide (fsync = "1") then os_fsync Source else mret ());
  if decide (fsync = "1") then
    if created : bool
    then os_error_as (HostEventSinkError "cannot sync host event directory") (os_fsync Source)
    else mret ()
  else mret ().

(** ** Moving a journal *)

Record QuarantinedJournal : Type := mkJournal {
  journal : string; raw : string; device : Z; inode : Z;
}.

#[export] Instance QuarantinedJournal_eq_dec : EqDecision QuarantinedJournal.
Proof. solve_decision. Defined.

Definition bad_request (name : string) (max_bytes : Z) : bool :=
  negb (is_path_name name) || negb (ends_with ".jsonl" name) || (max_bytes <=? 0)%Z.

Definition partial (s : string) : bool :=
  negb (bool_decide (s = "")) && negb (ends_with newline s).

Definition size_of (f : File) : nat := String.length (bytes_of (f_content f)).

(** The identity and size of a file did not change since [f]. *)
Definition same_file (d : Directory) (f f' : File) : bool :=
  (f_inode f =? f_inode f')%Z && (size_of f =? size_of f')%nat.

Definition oversized (s : string) (max_bytes : Z) : bool :=
  (max_bytes <? Z.of_nat (String.length s))%Z.

Definition snapshot_journal (root : Root) (name : string) (expected : Z * Z) (max_bytes : Z)
    : op QuarantinedJournal :=
  _ ← guard_raise (bad_request name max_bytes)
        (HostEventSinkError "journal snapshot request is invalid");
  _ ← _open_journal_root root (Some expected);
  before ← os_error_as (HostEventSinkError "cannot open journal for snapshot")
             (os_open root name);
  before ← os_fstat before;
  _ ← guard_raise (negb (bool_decide (f_kind before = Regular)) || negb (f_owned before))
        (HostEventSinkError "journal snapshot source is not an owned regular file");
  s ← os_read before;
  _ ← guard_raise (oversized s max_bytes)
        (HostEventSinkError "journal snapshot source exceeds the limit");
  _ ← guard_raise (partial s) (HostEventSinkError "journal snapshot source is partial");
  after ← os_error_as (HostEventSinkError "journal snapshot source disappeared")
            (os_stat root name);
  w ← get;
  _ ← guard_raise (negb (same_file (dir root w) before after))
        (HostEventSinkError "journal snapshot source identity changed");
  mret (mkJournal name s (d_device (dir root w)) (f_inode before)).

(** The checks after the rename. *)
Definition check_moved (root target : Root) (name s : string) (moved : File) : op () :=
  _ ← os_fsync root;
  _ ← os_fsync target;
  destination ← os_stat target name;
  _ ← guard_raise (negb (f_inode destination =? f_inode moved)%Z)
        (HostEventSinkError "quarantined journal identity changed");
  retained ← os_error_as (HostEventSinkError "cannot open quarantined journal")
               (os_open target name);
  retained ← os_fstat retained;
  _ ← guard_raise (negb (f_inode retained =? f_inode moved)%Z)
        (HostEventSinkError "quarantined journal changed before validation");
  s' ← os_read retained;
  _ ← guard_raise (negb (bool_decide (s' = s)))
        (HostEventSinkError "quarantined journal bytes changed");
  visible ← try_op (os_stat root name);
  match visible with
  | Ok _ => raise (HostEventSinkError "quarantined journal remains visible")
  | Raise FileNotFoundError => mret ()
  | Raise e => raise e
  end.

(** [except BaseException] after the rename: move the journal back, then re-raise. *)
Definition undo_move (root target : Root) (name : string) (original : exn) : op () :=
  visible ← try_op (os_stat root name);
  match visible with
  | Raise FileNotFoundError =>
      _ ← os_error_as (HostEventSinkError "journal quarantine failed and rollback failed") (
            _ ← _rename_noreplace target name root name;
            _ ← os_fsync root;
            os_fsync target);
      raise original
  | Raise e =>
      raise (if is_os_error e
             then HostEventSinkError "journal quarantine failed and rollback target is unsafe"
             else e)
  | Ok _ => raise (HostEventSinkError "journal quarantine failed and rollback target exists")
  end.

Definition unexpected (expected : option QuarantinedJournal) (name s : string) (device inode : Z)
    : bool :=
  match expected with
  | Some e => negb (bool_decide (e = mkJournal name s device inode))
  | None => false
  end.

Definition quarantine_journal (root target : Root) (name : string)
    (expected_root expected_target : Z * Z) (max_bytes : Z)
    (expected : option QuarantinedJournal) : op QuarantinedJournal :=
  _ ← guard_raise (bad_request name max_bytes)
        (HostEventSinkError "journal quarantine request is invalid");
  _ ← _open_journal_root root (Some expected_root);
  _ ← _open_journal_root target (Some expected_target);
  _ ← sys_nop;
  _ ← sys_nop;
  _ ← guard_raise (bool_decide (root = target))
        (HostEventSinkError "journal quarantine must use another directory");
  w ← get;
  let device := d_device (dir root w) in
  _ ← guard_raise (negb (device =? d_device (dir target w))%Z)
        (HostEventSinkError "journal quarantine must share a filesystem");
  present ← try_op (os_stat target name);
  _ ← match present with
      | Ok _ => raise (HostEventSinkError "journal quarantine target already exists")
      | Raise FileNotFoundError => mret ()
      | Raise _ => raise (HostEventSinkError "cannot inspect journal quarantine target")
      end;
  f ← os_error_as (HostEventSinkError "cannot open journal for quarantine") (os_open root name);
  f ← os_fstat f;
  _ ← guard_raise (negb (bool_decide (f_kind f = Regular)) || negb (f_owned f))
        (HostEventSinkError "journal quarantine source is not an owned regular file");
  s ← os_read f;
  _ ← guard_raise (oversized s max_bytes)
        (HostEventSinkError "journal quarantine source exceeds the limit");
  _ ← guard_raise (partial s) (HostEventSinkError "journal quarantine source is partial");
  _ ← guard_raise (unexpected expected name s device (f_inode f))
        (HostEventSinkError "journal quarantine source differs from the expected receipt");
  current ← os_error_as (HostEventSinkError "journal quarantine source disappeared")
              (os_stat root name);
  _ ← guard_raise (negb (same_file (dir root w) f current))
        (HostEventSinkError "journal quarantine source identity changed");
  let not_atomic := HostEventSinkError "cannot atomically quarantine journal" in
  _ ← os_error_as not_atomic (_rename_noreplace root name target name);
  _ ← catch_all (os_error_as not_atomic (check_moved root target name s f))
        (undo_move root target name);
  mret (mkJournal name s device (f_inode f)).

Definition restore_quarantined_journal (root target : Root) (quarantined : QuarantinedJournal)
    (expected_root expected_target : Z * Z) (max_bytes : Z) : op () :=
  restored ← quarantine_journal target root (journal quarantined) expected_target expected_root
               max_bytes (Some quarantined);
  guard_raise (negb (bool_decide (raw restored = raw quarantined))
               || negb (device restored =? device quarantined)%Z
               || negb (inode restored =? inode quarantined)%Z)
    (HostEventSinkError "restored journal differs from quarantine receipt").
End sink.
