(* ===== verification/HostJournal.v ===== *)
(** * Reading and writing host event journals

    The parts of [src/vllm_hust_ext/host_event_sink.py] that handle the events themselves:
    [canonical_event], [_journal_name], the configured directory, [append_event] as a whole,
    and [read_events].  The directories, the system calls and the locked append are those of
    [HostEventSink]; the events are those of [HostEvidence].  The theorems: [read_events]
    returns exactly the lines of the journals, each parsed, under distinct event ids. *)

From S2P Require Import Prelude PyStd JsonText JsonRoundTrip SignedAttestation HostEvidence HostEventSink.

Local Open Scope string_scope.
Local Open Scope list_scope.

(** What the sink raises: an error of its own or of a system call, or the parser's. *)
Inductive journal_exn : Type :=
  | SinkExn (e : exn)
  | EvidenceExn (e : att_exn).

Definition sink_error (detail : string) : journal_exn := SinkExn (HostEventSinkError detail).

Definition jop (A : Type) : Type := method World journal_exn A.

Definition sink {A} (m : op A) : jop A := λ w,
  let '(r, w') := m w in (match r with Ok a => Ok a | Raise e => Raise (SinkExn e) end, w').

Definition evidence {A} (r : result att_exn A) : result journal_exn A :=
  match r with Ok a => Ok a | Raise e => Raise (EvidenceExn e) end.

Record JournalEvent : Type := mkJournalEvent {
  je_journal : string; je_line : nat; je_raw : string; je_event : event_dict;
}.

(** ** Canonical events *)

(** [json.dumps(..., allow_nan=False)] accepts: floats are finite, [str(int)] has at most
    [MAX_STR_DIGITS] digits. *)
Fixpoint serializable (v : json) : bool :=
  match v with
  | JInt z => bool_decide (int_ok z)
  | JFloat r => negb (bool_decide (r ∈ ["NaN"; "Infinity"; "-Infinity"]))
  | JArr l => forallb serializable l
  | JObj kv => forallb (λ '(_, v), serializable v) kv
  | _ => true
  end.

Section journal.
Context {F : FloatText} {U : UnicodeInt}.

Definition canonical_event (event : event_dict) : result journal_exn string :=
  _ ← raise_if (negb (serializable (JObj event))) (sink_error "host event is not canonicalizable");
  let raw := dumps true (JObj event) in
  _ ← evidence (parse_host_event raw);
  Ok raw.

Definition _journal_name (event : event_dict) : string :=
  let process := sub_object "process" event in
  sha256_hexdigest (dumps true (JArr
    [json_get "plan_id" event; json_get "launch_id" event; json_get "host" process;
     json_get "role" process; json_get "ordinal" process; json_get "pid" process;
     json_get "start_identity" process; json_get "process_epoch" process])) +:+ ".jsonl".

(** ** The configured directory *)

(** The environment variables, [None] where one is not set. *)
Record Environment : Type := mkEnvironment {
  env_dir : option string; env_fsync : option string; env_device : option string; env_inode : option string;
}.

Definition identity_invalid : journal_exn := sink_error "host event directory identity is invalid".

Definition identity_part (text : string) : result journal_exn Z :=
  match py_int text with Some z => Ok z | None => Raise identity_invalid end.

Definition _expected_directory_identity (env : Environment) : result journal_exn (option (Z * Z)) :=
  match env_device env, env_inode env with
  | None, None => Ok None
  | Some device, Some inode =>
      device ← identity_part device;
      inode ← identity_part inode;
      _ ← raise_if ((device <? 0)%Z || (inode <? 0)%Z) identity_invalid;
      Ok (Some (device, inode))
  | _, _ => Raise identity_invalid
  end.

(** [_configured_journal_root]: the source directory is the one the variable names. *)
Definition _configured_journal_root (env : Environment) : jop () :=
  _ ← guard_raise (match env_dir env with Some d => bool_decide (d = "") | None => true end)
        (sink_error "ECPA_HOST_EVENT_DIR is required");
  expected ← lift (_expected_directory_identity env);
  sink (_open_journal_root Source expected).

(** [append_event] *)
Definition append_host_event {K : Kernel} (env : Environment) (event : event_dict) : jop () :=
  raw ← lift (canonical_event event);
  _ ← _configured_journal_root env;
  sink (append_event (default "0" (env_fsync env)) (_journal_name event) (raw +:+ newline)).

(** ** [read_events] *)

(** [bytes.splitlines()] *)
Fixpoint split_lines (s : string) : list string :=
  match s with
  | EmptyString => []
  | String a s' =>
      if (code a =? 10)%N then "" :: split_lines s'
      else if (code a =? 13)%N then
        match s' with
        | String b s'' => if (code b =? 10)%N then "" :: split_lines s'' else "" :: split_lines s'
        | EmptyString => [""]
        end
      else match split_lines s' with
           | line :: lines => String a line :: lines
           | [] => [String a ""]
           end
  end.

Definition event_id (event : event_dict) : string := text_of (json_get "event_id" event).

(** The lines of one journal from line [n] on, added to the records read so far. *)
Fixpoint read_lines (name : string) (n : nat) (lines : list string) (records : list JournalEvent)
    (event_ids : gset string) : result journal_exn (list JournalEvent * gset string) :=
  match lines with
  | [] => Ok (records, event_ids)
  | raw :: lines =>
      _ ← raise_if (bool_decide (raw = "")) (sink_error "host event journal contains an empty record");
      event ← evidence (parse_host_event raw);
      _ ← raise_if (bool_decide (event_id event ∈ event_ids))
            (sink_error "duplicate host event id across journals");
      read_lines name (S n) lines (records ++ [mkJournalEvent name n raw event])
        ({[event_id event]} ∪ event_ids)
  end.

Definition read_journal (root : Root) (name : string) (limit : option Z) (total : Z) : op string :=
  f ← os_error_as (HostEventSinkError "cannot open host event journal") (os_open root name);
  f ← os_fstat f;
  _ ← guard_raise (negb (bool_decide (f_kind f = Regular)) || negb (f_owned f))
        (HostEventSinkError "host event journal is not an owned regular file");
  journal_bytes ← os_read f;
  _ ← guard_raise (match limit with
                   | Some limit => (limit - total <? Z.of_nat (String.length journal_bytes))%Z
                   | None => false
                   end) (HostEventSinkError "host event journals exceed the read limit");
  _ ← guard_raise (partial journal_bytes)
        (HostEventSinkError "host event journal has a partial final record");
  mret journal_bytes.

Fixpoint read_journals (root : Root) (limit : option Z) (names : list string) (records : list JournalEvent)
    (event_ids : gset string) (total : Z) : jop (list JournalEvent) :=
  match names with
  | [] => mret records
  | name :: names =>
      if ends_with ".jsonl" name then
        journal_bytes ← sink (read_journal root name limit total);
        '(records, event_ids) ← lift (read_lines name 1 (split_lines journal_bytes) records event_ids);
        read_journals root limit names records event_ids (total + Z.of_nat (String.length journal_bytes))
      else read_journals root limit names records event_ids total
  end.

(** [configured]: [ECPA_HOST_EVENT_DIR] names the directory that is read. *)
Definition read_identity (env : Environment) (configured : bool) (expected : option (Z * Z))
    : result journal_exn (option (Z * Z)) :=
  match expected with
  | Some _ => Ok expected
  | None => if configured then _expected_directory_identity env else Ok None
  end.

Definition read_events (env : Environment) (configured : bool) (root : Root) (expected : option (Z * Z))
    (max_total_bytes : option Z) : jop (list JournalEvent) :=
  _ ← guard_raise (match max_total_bytes with Some limit => (limit <=? 0)%Z | None => false end)
        (sink_error "host event read limit must be a positive integer");
  expected ← lift (read_identity env configured expected);
  _ ← sink (_open_journal_root root expected);
  names ← sink (os_listdir root);
  read_journals root max_total_bytes (sort_on id names) [] ∅ 0.
End journal.

(** ** Lines *)

Section lines.
Context {F : FloatText} {U : UnicodeInt}.

Definition record_id (r : JournalEvent) : string := event_id (je_event r).
Definition place (r : JournalEvent) : string * nat * string := (je_journal r, je_line r, je_raw r).

(** The lines of a journal with their numbers. *)
Fixpoint numbered (name : string) (n : nat) (lines : list string) : list (string * nat * string) :=
  match lines with
  | [] => []
  | line :: lines => (name, n, line) :: numbered name (S n) lines
  end.

Definition record_ok (r : JournalEvent) : Prop :=
  je_raw r ≠ "" ∧ parse_host_event (je_raw r) = Ok (je_event r).

(** [new] holds one record for each of [places], under ids that are new too. *)
Record records_of (places : list (string * nat * string)) (old : gset string) (new : list JournalEvent) : Prop := {
  records_places : place <$> new = places;
  records_ok : Forall record_ok new;
  records_ids : NoDup (record_id <$> new);
  records_fresh : Forall (λ r, record_id r ∉ old) new;
}.

Lemma records_of_nil old : records_of [] old [].
Proof. split; constructor. Qed.

Lemma records_of_cons p ps old r new :
  records_of (p :: ps) old (r :: new) ↔
  place r = p ∧ record_ok r ∧ record_id r ∉ old ∧ records_of ps ({[record_id r]} ∪ old) new.
Proof.
  split.
  - intros [Hp Hok Hid Hf]. apply Forall_cons in Hok as [? ?], Hf as [? Hf]. rewrite fmap_cons in *.
    apply NoDup_cons in Hid as [Hr ?]. injection Hp as ??. split_and!; try done. split; try done.
    rewrite Forall_forall in *. intros x Hx. rewrite not_elem_of_union, not_elem_of_singleton. split; [|by apply Hf].
    intros E. apply Hr. rewrite <-E. by apply list_elem_of_fmap_2.
  - intros (<- & Hr & Hid & [Hp Hok Hids Hf]). split.
    + by rewrite fmap_cons, Hp.
    + by constructor.
    + rewrite fmap_cons. apply NoDup_cons. split; [|done]. intros (x & E & Hx)%list_elem_of_fmap.
      rewrite Forall_forall in Hf. apply (Hf x Hx). rewrite <-E. set_solver.
    + constructor; [done|]. eapply Forall_impl; [exact Hf|]. set_solver.
Qed.

Lemma records_of_app ps qs old new :
  records_of (ps ++ qs) old new ↔
  ∃ a b, new = a ++ b ∧ records_of ps old a ∧ records_of qs (list_to_set (record_id <$> a) ∪ old) b.
Proof.
  revert old new. induction ps as [|p ps IH]; intros old new.
  - split.
    + intros H. exists [], new. split_and!; [done|apply records_of_nil|]. by rewrite fmap_nil, list_to_set_nil, left_id_L by apply _.
    + intros (a & b & -> & [Ha _ _ _] & Hb). apply fmap_nil_inv in Ha as ->.
      by rewrite fmap_nil, list_to_set_nil, left_id_L in Hb by apply _.
  - destruct new as [|r new].
    { split; [by intros []|]. intros (a & b & E & [Ha _ _ _] & _). destruct a; simplify_eq. }
    cbn [app]. rewrite records_of_cons, IH. split.
    + intros (Hp & Hr & Hid & a & b & -> & Ha & Hb). exists (r :: a), b. split_and!; [done|by apply records_of_cons|].
      rewrite fmap_cons, list_to_set_cons.
      by replace ({[record_id r]} ∪ list_to_set (record_id <$> a) ∪ old)
        with (list_to_set (record_id <$> a) ∪ ({[record_id r]} ∪ old) : gset string) by set_solver.
    + intros (a & b & E & Ha & Hb). destruct a as [|r' a]; [by destruct Ha|]. injection E as <- ->.
      apply records_of_cons in Ha as (? & ? & ? & ?). split_and!; [done..|]. exists a, b. split_and!; [done..|].
      rewrite fmap_cons, list_to_set_cons in Hb.
      by replace (list_to_set (record_id <$> a) ∪ ({[record_id r]} ∪ old))
        with ({[record_id r]} ∪ list_to_set (record_id <$> a) ∪ old : gset string) by set_solver.
Qed.

Lemma evidence_Ok {A} (r : result att_exn A) a : evidence r = Ok a ↔ r = Ok a.
Proof. destruct r; naive_solver. Qed.

Lemma read_lines_Ok name n lines rs ids rs' ids' :
  read_lines name n lines rs ids = Ok (rs', ids') ↔
  ∃ new, rs' = rs ++ new ∧ records_of (numbered name n lines) ids new ∧
    ids' = list_to_set (record_id <$> new) ∪ ids.
Proof.
  revert n rs ids. induction lines as [|raw lines IH]; intros n rs ids; cbn [read_lines numbered].
  - split.
    + intros [= <- <-]. exists []. rewrite app_nil_r. split_and!; [done|apply records_of_nil|]. set_solver.
    + intros (new & -> & [H _ _ _] & ->). apply fmap_nil_inv in H as ->. rewrite app_nil_r. f_equal. f_equal. set_solver.
  - split.
    + intros H. apply result_bind_Ok in H as (? & Hne%raise_if_Ok & H). apply bool_decide_eq_false in Hne.
      apply result_bind_Ok in H as (ev & Hev%evidence_Ok & H).
      apply result_bind_Ok in H as (? & Hid%raise_if_Ok & H). apply bool_decide_eq_false in Hid.
      apply IH in H as (new & -> & Hnew & ->).
      exists (mkJournalEvent name n raw ev :: new). split_and!; [by rewrite <-app_assoc|by apply records_of_cons|].
      rewrite fmap_cons, list_to_set_cons. set_solver.
    + intros ([|r new] & -> & Hnew & ->); [by destruct Hnew|].
      apply records_of_cons in Hnew as (Hp & [Hne Hok] & Hid & Hnew). destruct r as [j l w ev]. injection Hp as -> -> ->.
      cbn [je_raw je_event record_id] in *. rewrite bool_decide_eq_false_2 by done. cbn [raise_if mbind result_bind].
      rewrite Hok. cbn [evidence mbind result_bind]. unfold record_id in Hid. cbn [je_event] in Hid.
      rewrite bool_decide_eq_false_2 by done. cbn [raise_if mbind result_bind].
      apply IH. exists new. split_and!; [by rewrite <-app_assoc|done|].
      rewrite fmap_cons, list_to_set_cons. set_solver.
Qed.
End lines.

(** ** Reading the directory *)

Definition same_dirs (w w' : World) : Prop := ∀ r, dir r w' = dir r w.

Lemma sys_read_Ok {A} (f : World → result exn A) w a w' :
  sys_read f w = (Ok a, w') → f w' = Ok a ∧ same_dirs w w'.
Proof.
  unfold sys_read, syscall. destruct (script w) as [|[] s]; intros H; simplify_eq;
    (split; [done|by intros []]).
Qed.

Lemma sys_read_quiet {A} (f : World → result exn A) w : script w = [] → sys_read f w = (f w, w).
Proof. intros Hs. unfold sys_read, syscall. by rewrite Hs. Qed.

Lemma os_error_as_Ok {A} e (m : op A) w a w' : os_error_as e m w = (Ok a, w') → m w = (Ok a, w').
Proof.
  unfold os_error_as, catch. destruct (m w) as [[x|e0] w1]; [done|]. by destruct (is_os_error e0).
Qed.

Lemma os_error_as_quiet {A} e (m : op A) w a w' : m w = (Ok a, w') → os_error_as e m w = (Ok a, w').
Proof. unfold os_error_as, catch. by intros ->. Qed.

Lemma sink_Ok {A} (m : op A) w a w' : sink m w = (Ok a, w') ↔ m w = (Ok a, w').
Proof. unfold sink. destruct (m w) as [[x|e] w1]; naive_solver. Qed.

Definition within (limit : option Z) (total : Z) (s : string) : Prop :=
  match limit with Some limit => (total + Z.of_nat (String.length s) ≤ limit)%Z | None => True end.

Definition contents (f : File) : string := bytes_of (f_content f).

Definition readable (f : File) : Prop :=
  f_kind f = Regular ∧ f_owned f = true ∧ partial (contents f) = false.

Lemma over_limit limit total s :
  match limit with
  | Some limit => (limit - total <? Z.of_nat (String.length s))%Z
  | None => false
  end = false ↔ within limit total s.
Proof. destruct limit; cbn; [rewrite Z.ltb_ge; lia|done]. Qed.

Lemma read_journal_Ok root name limit total w s w' :
  read_journal root name limit total w = (Ok s, w') →
  same_dirs w w' ∧ ∃ f, entry root name w = Some f ∧ s = contents f ∧ readable f ∧ within limit total s.
Proof.
  unfold read_journal, os_open, os_fstat, os_read. intros H.
  apply bind_Ok in H as (f & w1 & H1%os_error_as_Ok%sys_read_Ok & H). destruct H1 as [Hf D1].
  apply bind_Ok in H as (f' & w2 & [[= <-] D2]%sys_read_Ok & H).
  apply bind_Ok in H as ([] & w3 & [Hk ->]%guard_raise_Ok & H). apply orb_false_iff in Hk as [Hk Ho]. bool_inv.
  apply bind_Ok in H as (s' & w4 & Hs & H). apply sys_read_Ok in Hs as [[= Es] D4].
  apply bind_Ok in H as ([] & w5 & [Hl Ew]%guard_raise_Ok & H). apply over_limit in Hl.
  apply bind_Ok in H as ([] & w6 & [Hp Ew']%guard_raise_Ok & H). apply mret_Ok in H as [Er Ew''].
  subst.
  split; [by intros r; rewrite D4, D2, D1|].
  unfold entry in *. rewrite (D1 root) in Hf.
  destruct (files (dir root w) !! name) as [g|]; [|done]. destruct (decide _); [done|]. injection Hf as ->.
  exists f. done.
Qed.

Lemma read_journal_quiet root name limit total w f :
  script w = [] → entry root name w = Some f → readable f → within limit total (contents f) →
  read_journal root name limit total w = (Ok (contents f), w).
Proof.
  intros Hs Hf (Hk & Ho & Hp) Hl%over_limit. unfold read_journal.
  assert (os_open root name w = (Ok f, w)) as Hopen.
  { unfold os_open. rewrite sys_read_quiet by done. rewrite Hf, Hk. by rewrite decide_False. }
  assert (os_fstat f w = (Ok f, w)) as Hstat by exact (sys_read_quiet (λ _, Ok f) w Hs).
  assert (os_read f w = (Ok (contents f), w)) as Hread by exact (sys_read_quiet (λ _, Ok (contents f)) w Hs).
  unfold mbind, method_bind. rewrite (os_error_as_quiet _ _ _ _ _ Hopen), Hstat, Hk, Ho.
  rewrite bool_decide_eq_true_2 by done. cbn [negb orb guard_raise mret method_ret].
  rewrite Hread, Hl. cbn [guard_raise mret method_ret]. by rewrite Hp.
Qed.

Section reading.
Context {F : FloatText} {U : UnicodeInt}.

(** The journals among the names of a directory. *)
Definition journals (names : list string) : list string := filter (λ n, Is_true (ends_with ".jsonl" n)) names.

Definition text_in (d : Directory) (name : string) : string :=
  match files d !! name with Some f => contents f | None => "" end.

Definition places_in (d : Directory) (names : list string) : list (string * nat * string) :=
  concat ((λ n, numbered n 1 (split_lines (text_in d n))) <$> journals names).

Definition total_size (d : Directory) (names : list string) : Z :=
  foldr (λ n z, Z.of_nat (String.length (text_in d n)) + z)%Z 0%Z (journals names).

Definition all_readable (d : Directory) (names : list string) : Prop :=
  ∀ n, n ∈ journals names → ∃ f, files d !! n = Some f ∧ readable f.

Lemma journals_cons n names :
  journals (n :: names) = if ends_with ".jsonl" n then n :: journals names else journals names.
Proof.
  unfold journals. rewrite filter_cons. destruct (ends_with ".jsonl" n); by case_decide.
Qed.

Lemma read_journals_Ok root limit names rs ids total w rs' w' :
  read_journals root limit names rs ids total w = (Ok rs', w') →
  same_dirs w w' ∧ all_readable (dir root w) names ∧
  ∃ new, rs' = rs ++ new ∧ records_of (places_in (dir root w) names) ids new.
Proof.
  revert rs ids total w. induction names as [|n names IH]; intros rs ids total w H; cbn [read_journals] in H.
  - apply mret_Ok in H as [<- <-]. split; [done|]. split; [by intros ? ?%elem_of_nil|].
    exists []. by rewrite app_nil_r; split; [|apply records_of_nil].
  - unfold all_readable, places_in. rewrite journals_cons. destruct (ends_with ".jsonl" n) eqn:En.
    + apply bind_Ok in H as (s & w1 & Hs%sink_Ok%read_journal_Ok & H).
      destruct Hs as (D1 & f & Hf & -> & Hr & _).
      apply bind_Ok in H as ([rs1 ids1] & w2 & [Hl ->]%lift_Ok & H).
      apply read_lines_Ok in Hl as (new1 & -> & Hnew1 & ->).
      apply IH in H as (D2 & Hall & new2 & -> & Hnew2).
      rewrite (D1 root) in Hall, Hnew2.
      split; [by intros r; rewrite D2, D1|]. split.
      * intros m [->|Hm]%elem_of_cons; [by exists f|by apply Hall].
      * exists (new1 ++ new2). split; [by rewrite app_assoc|]. rewrite fmap_cons. cbn [concat].
        apply records_of_app. exists new1, new2. split_and!; [done| |done].
        unfold text_in. unfold entry in Hf. by rewrite Hf.
    + by apply IH in H.
Qed.

Lemma read_journals_quiet root limit names rs ids total w new :
  script w = [] → all_readable (dir root w) names →
  match limit with Some limit => (total + total_size (dir root w) names ≤ limit)%Z | None => True end →
  records_of (places_in (dir root w) names) ids new →
  read_journals root limit names rs ids total w = (Ok (rs ++ new), w).
Proof.
  intros Hs. revert rs ids total new. induction names as [|n names IH]; intros rs ids total new Hall Hlimit Hnew;
    cbn [read_journals].
  - destruct Hnew as [H _ _ _]. apply fmap_nil_inv in H as ->. by rewrite app_nil_r.
  - unfold all_readable, places_in, total_size in *. rewrite journals_cons in *.
    destruct (ends_with ".jsonl" n) eqn:En; [|by apply IH].
    destruct (Hall n (list_elem_of_here _ _)) as (f & Hf & Hr).
    rewrite fmap_cons in Hnew. cbn [concat] in Hnew. apply records_of_app in Hnew as (a & b & -> & Ha & Hb).
    assert (text_in (dir root w) n = contents f) as Ht by (unfold text_in; by rewrite Hf).
    cbn [foldr] in Hlimit. rewrite Ht in *.
    assert (0 ≤ total_size (dir root w) names)%Z as Hpos.
    { unfold total_size. clear. induction (journals names) as [|m l IHl]; cbn [foldr]; [done|]. lia. }
    unfold total_size in Hpos.
    unfold mbind, method_bind.
    rewrite (proj2 (sink_Ok _ w (contents f) w)).
    2:{ apply read_journal_quiet; [done|done|done|]. destruct limit; cbn in *; lia. }
    unfold lift. rewrite (proj2 (read_lines_Ok n 1 _ rs ids _ _) (ex_intro _ a (conj eq_refl (conj Ha eq_refl)))).
    rewrite IH with (new := b); [by rewrite app_assoc| | |done].
    + intros m Hm. apply Hall. by right.
    + destruct limit; cbn in *; [lia|done].
Qed.
End reading.

(** ** What [read_events] returns *)

Section theorems.
Context {F : FloatText} {U : UnicodeInt}.

Definition names_of (d : Directory) : list string := sort_on id (map_to_list (files d)).*1.

(** The records of a directory: one per line of its journals, journal by journal. *)
Record listing (d : Directory) (records : list JournalEvent) : Prop := {
  listing_readable : ∀ name f, files d !! name = Some f → ends_with ".jsonl" name = true → readable f;
  listing_records : records_of (places_in d (names_of d)) ∅ records;
}.

Lemma elem_of_names d name : name ∈ names_of d ↔ is_Some (files d !! name).
Proof.
  unfold names_of. rewrite elem_of_sort_on, list_elem_of_fmap. split.
  - intros ([n f] & -> & Hin%elem_of_map_to_list). by exists f.
  - intros [f Hf]. exists (name, f). split; [done|]. by apply elem_of_map_to_list.
Qed.

Lemma elem_of_journals names name : name ∈ journals names ↔ ends_with ".jsonl" name = true ∧ name ∈ names.
Proof. unfold journals. rewrite list_elem_of_filter. by rewrite Is_true_true. Qed.

Lemma all_readable_spec d :
  all_readable d (names_of d) ↔
  ∀ name f, files d !! name = Some f → ends_with ".jsonl" name = true → readable f.
Proof.
  unfold all_readable. setoid_rewrite elem_of_journals. setoid_rewrite elem_of_names. split.
  - intros H name f Hf He. destruct (H name) as (g & Hg & Hr); [by rewrite Hf|]. by simplify_eq.
  - intros H name [He [f Hf]]. exists f. split; [done|]. by apply (H name f).
Qed.

Lemma _open_journal_root_dirs root expected w r w' :
  _open_journal_root root expected w = (r, w') → same_dirs w w'.
Proof.
  assert (∀ r, keeps (λ w, dir r w) (_open_journal_root root expected)) as Hk.
  { intros r0. unfold _open_journal_root, sys_nop, sys_read.
    assert (∀ A (f : option nat → World → result exn A * World),
              (∀ n, keeps (λ w, dir r0 w) (f n)) → keeps (λ w, dir r0 w) (syscall f)) as Hsys.
    { intros A f Hf w0. unfold syscall. destruct (script w0) as [|[] s]; rewrite ?Hf; by destruct r0. }
    assert (∀ A e (m : op A), keeps (λ w, dir r0 w) m → keeps (λ w, dir r0 w) (os_error_as e m)) as Herr.
    { intros A e m Hm w0. unfold os_error_as, catch. specialize (Hm w0). destruct (m w0) as [[a|e0] w1]; [done|].
      by destruct (is_os_error e0). }
    repeat first [apply keeps_guard|apply keeps_get|apply Herr|apply Hsys; intros ? ?; done
                 |apply keeps_bind; [|intros ?]]. }
  intros E r0. specialize (Hk r0 w). by rewrite E in Hk.
Qed.

(** The directory is a canonical, private one of the expected identity. *)
Definition opens (env : Environment) (configured : bool) (root : Root) (expected : option (Z * Z)) (w : World) : Prop :=
  d_path (dir root w) = Canonical ∧ d_private (dir root w) = true ∧
  ∃ identity, read_identity env configured expected = Ok identity ∧
    ∀ i, identity = Some i → identity_of (dir root w) = i.

Definition fits (limit : option Z) (d : Directory) : Prop :=
  match limit with Some limit => (0 < limit ∧ total_size d (names_of d) ≤ limit)%Z | None => True end.

Lemma bind_run {E A B} (m : method World E A) (f : A → method World E B) w a w' :
  m w = (Ok a, w') → (m ≫= f) w = f a w'.
Proof. unfold mbind, method_bind. by intros ->. Qed.

Lemma open_quiet root expected w :
  script w = [] → d_path (dir root w) = Canonical → d_private (dir root w) = true →
  (∀ i, expected = Some i → identity_of (dir root w) = i) →
  _open_journal_root root expected w = (Ok (), w).
Proof.
  intros Hs Hp Hpr Hi. unfold _open_journal_root.
  rewrite (bind_run _ _ _ w w) by done. cbv zeta. rewrite Hp, Hpr.
  rewrite (bind_run _ _ _ () w) by done.
  rewrite (bind_run _ _ _ () w) by (apply os_error_as_quiet; rewrite sys_read_quiet by done; done).
  rewrite (bind_run _ _ _ () w) by done.
  do 2 rewrite (bind_run _ _ _ () w) by (apply os_error_as_quiet; unfold sys_nop; rewrite sys_read_quiet by done; done).
  rewrite (bind_run _ _ _ () w) by done.
  destruct expected as [i|]; [|done]. by rewrite bool_decide_eq_true_2 by auto.
Qed.

Lemma read_events_sound env configured root expected limit w records w' :
  read_events env configured root expected limit w = (Ok records, w') →
  same_dirs w w' ∧ listing (dir root w) records.
Proof.
  intros H. unfold read_events in H.
  apply bind_Ok in H as ([] & w1 & [_ ->]%guard_raise_Ok & H).
  apply bind_Ok in H as (i & w2 & [_ ->]%lift_Ok & H).
  apply bind_Ok in H as ([] & w3 & D1%sink_Ok & H). apply _open_journal_root_dirs in D1.
  apply bind_Ok in H as (names & w4 & [[= <-] D2]%sink_Ok%sys_read_Ok & H).
  apply read_journals_Ok in H as (D3 & Hall & new & -> & Hnew).
  rewrite (D2 root), (D1 root) in Hall, Hnew.
  split; [by intros r; rewrite D3, D2, D1|]. split; [by apply all_readable_spec|done].
Qed.

Lemma read_events_quiet env configured root expected limit w records :
  script w = [] → opens env configured root expected w → fits limit (dir root w) →
  listing (dir root w) records →
  read_events env configured root expected limit w = (Ok records, w).
Proof.
  intros Hs (Hp & Hpr & i & Hi & Hid) Hfit [Hr Hrec]. unfold read_events, jop.
  rewrite (bind_run _ _ _ () w) by (destruct limit as [l|]; [|done]; cbn in Hfit; by rewrite (proj2 (Z.leb_gt l 0)) by lia).
  rewrite (bind_run _ _ _ i w) by (unfold lift; by rewrite Hi).
  rewrite (bind_run _ _ _ () w) by (by apply sink_Ok, open_quiet).
  rewrite (bind_run _ _ _ (map_to_list (files (dir root w))).*1 w)
    by (apply sink_Ok; unfold os_listdir; by rewrite sys_read_quiet).
  change records with ([] ++ records). apply read_journals_quiet; [done|by apply all_readable_spec| |done].
  unfold fits in Hfit. destruct limit; [|done]. fold (names_of (dir root w)). lia.
Qed.

(** C28: read_events, when it returns, returns one record for each line of each journal
    of the directory, journals in the order of their names, each with its line number,
    its bytes and the event they parse to, under event ids that are all distinct, and
    leaves the directories alone; when system calls do not fail and the directory, its
    identity and the read limit are right, it returns every such list. *)
Theorem read_events_exact (env : Environment) (configured : bool) (root : Root)
    (expected : option (Z * Z)) (limit : option Z) (w : World) (records : list JournalEvent) :
  (∀ w', read_events env configured root expected limit w = (Ok records, w') →
     same_dirs w w' ∧ listing (dir root w) records) ∧
  (script w = [] → opens env configured root expected w → fits limit (dir root w) →
   listing (dir root w) records →
   read_events env configured root expected limit w = (Ok records, w)).
Proof.
  split; [|apply read_events_quiet]. intros w'. apply read_events_sound.
Qed.
End theorems.

(** ** A directory with one journal *)

Module Example.
#[local] Existing Instance SignedAttestation.Example.float_text.
#[local] Existing Instance HostEvidence.Example.no_unicode.

Definition a_raw : string := HostEvidence.Example.a_raw.
Definition b_raw : string := Eval vm_compute in HostEvidence.Example.event_text (JStr "resolved").
Definition event_of (raw : string) : event_dict :=
  match parse_host_event raw with Ok event => event | Raise _ => [] end.
Definition a_record (n : nat) (raw : string) : JournalEvent := mkJournalEvent "w.jsonl" n raw (event_of raw).
Definition owned (s : string) : File := mkFile 7 Regular true 384 (Bytes s false).
Definition lines : string := Eval vm_compute in a_raw +:+ newline +:+ b_raw +:+ newline.
Definition a_directory (m : gmap string File) : Directory := mkDirectory Canonical true 1 10 m.
Definition a_source : Directory := a_directory {["w.jsonl" := owned lines; "notes" := owned "x"]}.
Definition a_world (d : Directory) : World := mkWorld d (a_directory ∅) false [] 42 0 0.
Definition an_environment : Environment := mkEnvironment (Some "/events") None (Some "1") (Some "10").

Example runs :
  read_events an_environment true Source None (Some 4096%Z) (a_world a_source) =
  (Ok [a_record 1 a_raw; a_record 2 b_raw], a_world a_source).
Proof. vm_compute. reflexivity. Qed.

(** The same event twice, a cut line, an empty line. *)
Example refused :
  (read_events an_environment true Source None None
     (a_world (a_directory {["w.jsonl" := owned (a_raw +:+ newline +:+ a_raw +:+ newline)]}))).1 =
    Raise (sink_error "duplicate host event id across journals") ∧
  (read_events an_environment true Source None None (a_world (a_directory {["w.jsonl" := owned a_raw]}))).1 =
    Raise (sink_error "host event journal has a partial final record") ∧
  (read_events an_environment true Source None None
     (a_world (a_directory {["w.jsonl" := owned (newline +:+ a_raw +:+ newline)]}))).1 =
    Raise (sink_error "host event journal contains an empty record") ∧
  (read_events an_environment true Source (Some (1, 11)%Z) None (a_world a_source)).1 =
    Raise (SinkExn (HostEventSinkError "host event directory identity changed")).
Proof. vm_compute. by split_and!. Qed.

Lemma fits_example : fits (Some 4096%Z) a_source.
Proof. vm_compute. done. Qed.
Lemma opens_example : opens an_environment true Source None (a_world a_source).
Proof. split_and!; [done..|]. exists (Some (1, 10)%Z). split; [by vm_compute|]. by intros i [= <-]. Qed.

Lemma read_events_exact_witness :
  script (a_world a_source) = [] ∧ opens an_environment true Source None (a_world a_source) ∧
  fits (Some 4096%Z) a_source ∧ listing a_source [a_record 1 a_raw; a_record 2 b_raw] ∧
  read_events an_environment true Source None (Some 4096%Z) (a_world a_source) =
  (Ok [a_record 1 a_raw; a_record 2 b_raw], a_world a_source).
Proof.
  destruct (read_events_exact an_environment true Source None (Some 4096%Z) (a_world a_source)
              [a_record 1 a_raw; a_record 2 b_raw]) as [Hsound Hquiet].
  destruct (Hsound _ runs) as [_ Hlisting].
  split_and!; [done|apply opens_example|apply fits_example|exact Hlisting|].
  apply Hquiet; [done|apply opens_example|apply fits_example|exact Hlisting].
Defined.
End Example.
