(* ===== verification/JournalTheorems.v ===== *)
(** * What a writer appends is what a reader reads

    [append_event] and [read_events] of [src/vllm_hust_ext/host_event_sink.py] together: when
    system calls do not fail, an event that is appended is one more record of the directory,
    and the other records stay as they were. *)

From S2P Require Import Prelude PyStd JsonText JsonRoundTrip SignedAttestation HostEvidence HostEventSink HostJournal.

Local Open Scope string_scope.
Local Open Scope list_scope.

(** ** [append_event] when no system call fails *)

Definition meta (d : Directory) : PathState * bool * (Z * Z) := (d_path d, d_private d, identity_of d).

(** A run without failures that touched only the entries [names] of the source directory. *)
Record quiet_step (names : list string) (w w' : World) : Prop := {
  step_script : script w' = [];
  step_locked : locked w' = locked w;
  step_meta : meta (source w') = meta (source w);
  step_others : ∀ k, k ∉ names → files (source w') !! k = files (source w) !! k;
}.

Lemma quiet_step_refl l w : script w = [] → quiet_step l w w.
Proof. by split. Qed.

Lemma quiet_step_trans l l' w w' w'' : quiet_step l w w' → quiet_step l' w' w'' → quiet_step (l ++ l') w w''.
Proof.
  intros [_ H1 H2 H3] [H4 H5 H6 H7]. split; [done|congruence|congruence|]. intros k [? ?]%not_elem_of_app.
  by rewrite H7, H3.
Qed.

Lemma quiet_step_weaken l l' w w' : quiet_step l w w' → l ⊆ l' → quiet_step l' w w'.
Proof. intros [H1 H2 H3 H4] Hl. split; [done..|]. intros k Hk. apply H4. set_solver. Qed.

Lemma syscall_quiet {A} (f : option nat → World → result exn A * World) w :
  script w = [] → syscall f w = f None w.
Proof. intros Hs. unfold syscall. by rewrite Hs. Qed.

Section append.
Context {K : Kernel}.

Lemma lock_quiet w :
  script w = [] → locked w = false →
  (∀ f, files (source w) !! QUARANTINE_LOCK = Some f → private_file f = true) →
  ∃ w', _acquire_quarantine_lock Source false false w = (Ok (), w') ∧ quiet_step [QUARANTINE_LOCK] w w'.
Proof.
  intros Hs Hl Hlock.
  assert (∃ f w1, os_open_or_create Source QUARANTINE_LOCK w = (Ok f, w1) ∧ private_file f = true ∧
            quiet_step [QUARANTINE_LOCK] w w1) as (f & w1 & Hopen & Hf & Hstep).
  { unfold os_open_or_create. rewrite syscall_quiet by done. unfold entry. cbn [dir].
    destruct (files (source w) !! QUARANTINE_LOCK) as [f|] eqn:E.
    - specialize (Hlock f eq_refl). exists f, w. split_and!; [|done|].
      + case_decide as Hk; [|done]. unfold private_file in Hlock. by rewrite Hk in Hlock.
      + by apply quiet_step_refl.
    - eexists _, _. split_and!; [done|done|]. split; [done..|]. intros k Hk. cbn.
      rewrite lookup_insert_ne; [done|]. set_solver. }
  destruct Hstep as [S1 S2 S3 S4].
  exists w1. split; [|by split]. unfold _acquire_quarantine_lock, op.
  rewrite (bind_run _ _ _ f w1) by (by apply os_error_as_quiet).
  rewrite (bind_run _ _ _ f w1) by (apply os_error_as_quiet; unfold os_fstat; by rewrite sys_read_quiet).
  rewrite (bind_run _ _ _ () w1) by (by rewrite Hf).
  rewrite (bind_run _ _ _ w1 w1) by done.
  rewrite (bind_run _ _ _ () w1) by (by rewrite S2, Hl).
  apply os_error_as_quiet. by rewrite syscall_quiet.
Qed.

Lemma try_quiet {A} (m : op A) w r w' : m w = (r, w') → r ≠ Raise Killed → try_op m w = (Ok r, w').
Proof.
  intros Hm Hr. unfold try_op, catch_all, catch, mbind, method_bind. rewrite Hm. destruct r as [a|e]; [done|].
  rewrite decide_False by congruence. done.
Qed.

(** The journal is there or is created, private, with the bytes it had. *)
Lemma journal_quiet n w :
  script w = [] → (∀ f, files (source w) !! n = Some f → private_file f = true) →
  ∃ r w', os_create Source n w = (r, w') ∧ (r = Ok () ∨ r = Raise FileExistsError) ∧ quiet_step [n] w w' ∧
    ∃ f, files (source w') !! n = Some f ∧ private_file f = true ∧ contents f = text_in (source w) n.
Proof.
  intros Hs Hn. unfold os_create. rewrite syscall_quiet by done. unfold entry, text_in. cbn [dir].
  destruct (files (source w) !! n) as [f|] eqn:E.
  - eexists _, _. split_and!; [done|by right|by apply quiet_step_refl|].
    exists f. by rewrite E; auto.
  - eexists _, _. split_and!; [done|by left| |].
    + split; [done..|]. intros k Hk. cbn. rewrite lookup_insert_ne; [done|]. set_solver.
    + eexists. split; [apply lookup_insert_eq|done].
Qed.

Lemma substring_all s : String.substring 0 (String.length s) s = s.
Proof. induction s as [|c s IH]; [done|]. simpl. by rewrite IH. Qed.

Lemma append_bytes_quiet n s stalled w f :
  script w = [] → files (source w) !! n = Some f → s ≠ "" →
  ∃ w', append_bytes Source n s stalled w = (Ok (), w') ∧ quiet_step [n] w w' ∧
    files (source w') !! n = Some (set_content (Bytes (contents f +:+ s) false) f).
Proof.
  intros Hs Hf Hne. unfold append_bytes.
  destruct (String.length s) as [|k] eqn:Hlen; [by destruct s|]. cbn [write_loop]. unfold op.
  eexists. split_and!.
  - erewrite (bind_run _ _ w (S k) _); [|unfold os_write; rewrite syscall_quiet by done; done].
    cbn [Nat.eqb guard_raise].
    erewrite bind_run by done. rewrite Nat.sub_diag. by destruct k.
  - split; [done..|]. intros m Hm. cbn. apply lookup_alter_ne. set_solver.
  - cbn. rewrite lookup_alter_eq, Hf. cbn. rewrite <-Hlen, substring_all. done.
Qed.

Lemma append_quiet fsync n s w :
  script w = [] → locked w = false → n ≠ QUARANTINE_LOCK → fsync ∈ ["0"; "1"] → s ≠ "" →
  files (source w) !! _quarantine_fence_name n = None →
  (∀ k f, k = QUARANTINE_LOCK ∨ k = n → files (source w) !! k = Some f → private_file f = true) →
  ∃ w' f, append_event fsync n s w = (Ok (), w') ∧ quiet_step [QUARANTINE_LOCK; n] w w' ∧
    files (source w') !! n = Some f ∧ private_file f = true ∧
    contents f = text_in (source w) n +:+ s.
Proof.
  intros Hs Hl Hn Hfs Hne Hfence Hpriv.
  destruct (lock_quiet w) as (w1 & Hlock & St1); [done|done|by intros f; apply Hpriv; left|].
  pose proof St1 as [Hs1 Hl1 Hm1 Ho1].
  assert (files (source w1) !! n = files (source w) !! n) as Hn1 by (apply Ho1; set_solver).
  assert (_quarantine_fence_name n ≠ QUARANTINE_LOCK) as Hfl by done.
  destruct (journal_quiet n w1) as (r & w2 & Hcreate & Hr & St2 & f & Hf & Hpf & Hc);
    [done|intros f; rewrite Hn1; apply Hpriv; by right|].
  pose proof St2 as [Hs2 Hl2 Hm2 Ho2].
  destruct (append_bytes_quiet n s (HostEventSinkError "host event journal append made no progress") w2 f)
    as (w3 & Happ & St3 & Hf3); [done..|]. pose proof St3 as [Hs3 Hl3 Hm3 Ho3].
  exists w3, (set_content (Bytes (contents f +:+ s) false) f). split_and!; [|  |done|done|].
  - unfold append_event, op. rewrite (bind_run _ _ _ () w1) by done.
    rewrite (bind_run _ _ _ () w1) by (by rewrite bool_decide_eq_true_2).
    rewrite (bind_run _ _ _ (Raise FileNotFoundError) w1).
    2:{ apply try_quiet; [|done]. unfold os_stat. rewrite sys_read_quiet by done. unfold entry. cbn [dir].
        rewrite Ho1 by set_solver. by rewrite Hfence. }
    rewrite (bind_run _ _ _ () w1) by done. cbv zeta.
    rewrite (bind_run _ _ _ r w2) by (apply try_quiet; [done|by destruct Hr as [->| ->]]).
    assert (∃ created, (match r with
              | Ok _ => mret true
              | Raise FileExistsError =>
                  _ ← os_error_as (HostEventSinkError "cannot open host event journal") (os_open Source n); mret false
              | Raise _ => raise (HostEventSinkError "cannot open host event journal")
              end : op bool) w2 = (Ok created, w2)) as [created Hcreated].
    { destruct Hr as [->| ->]; [by exists true|]. exists false. unfold op.
      rewrite (bind_run _ _ _ f w2); [done|]. apply os_error_as_quiet. unfold os_open.
      rewrite sys_read_quiet by done. unfold entry. cbn [dir]. rewrite Hf, decide_False; [done|].
      intros Hk. unfold private_file in Hpf. by rewrite Hk in Hpf. }
    rewrite (bind_run _ _ _ created w2) by done.
    unfold private_file in Hpf. apply andb_true_iff in Hpf as [[Hk%bool_decide_eq_true Ho]%andb_true_iff Hmode].
    rewrite (bind_run _ _ _ () w3).
    2:{ apply os_error_as_quiet.
        rewrite (bind_run _ _ _ f w2).
        2:{ unfold os_stat. rewrite sys_read_quiet by done. unfold entry. cbn [dir]. by rewrite Hf. }
        rewrite (bind_run _ _ _ () w2) by (by rewrite Hk, Ho, bool_decide_eq_true_2).
        rewrite (bind_run _ _ _ () w2) by (by rewrite Hmode).
        rewrite (bind_run _ _ _ () w3) by done.
        destruct (decide (fsync = "1")); [|done]. unfold os_fsync, sys_nop. by rewrite sys_read_quiet. }
    destruct (decide (fsync = "1")); [|done]. destruct created; [|done].
    apply os_error_as_quiet. unfold os_fsync, sys_nop. by rewrite sys_read_quiet.
  - eapply quiet_step_weaken; [exact (quiet_step_trans _ _ _ _ _ (quiet_step_trans _ _ _ _ _ St1 St2) St3)|].
    set_solver.
  - cbn. rewrite Hc. unfold text_in. by rewrite Hn1.
Qed.
End append.

(** ** Lines *)

(** Empty, or ending with a newline. *)
Fixpoint closed (t : string) : bool :=
  match t with
  | EmptyString => true
  | String a EmptyString => (code a =? 10)%N
  | String _ t => closed t
  end.

Lemma closed_whole t : partial t = false → closed t = true.
Proof.
  unfold partial. destruct t as [|a t]; [done|]. rewrite bool_decide_eq_false_2 by done. cbn [negb andb].
  intros (p & ->)%negb_false_iff%ends_with_spec. induction p as [|b p IH]; [done|].
  rewrite string_app_cons. cbn [closed]. destruct (p +:+ newline) eqn:E; [|done].
  by destruct p.
Qed.

Lemma whole_app t s : partial (t +:+ s +:+ newline) = false.
Proof.
  unfold partial. rewrite <-string_app_assoc. rewrite (ends_with_app newline (t +:+ s)). apply andb_false_r.
Qed.

Lemma split_lines_closed t u : closed t = true → split_lines (t +:+ u) = split_lines t ++ split_lines u.
Proof.
  remember (String.length t) as n eqn:Hn. revert t Hn.
  induction (lt_wf n) as [n _ IH]; intros t Hn Ht. destruct t as [|a t]; [done|].
  assert (t ≠ "" → closed t = true) as Htail by (intros Hne; by destruct t).
  assert (t ≠ "" → split_lines (t +:+ u) = split_lines t ++ split_lines u) as IHt.
  { intros Hne. eapply IH; [|reflexivity|by apply Htail]. subst n. simpl. lia. }
  rewrite string_app_cons. cbn [split_lines]. destruct (code a =? 10)%N eqn:E10.
  - destruct t as [|b t]; [done|]. by rewrite IHt.
  - destruct t as [|b t]; [cbn in Ht; congruence|]. destruct (code a =? 13)%N eqn:E13.
    + rewrite string_app_cons. destruct (code b =? 10)%N eqn:Eb.
      * destruct t as [|c t]; [done|]. erewrite (IH _ _ (String c t)); [done|reflexivity|].
        apply (Htail ltac:(done)).
        Unshelve. subst n. simpl. lia.
      * rewrite <-string_app_cons, IHt by done. done.
    + rewrite IHt by done. destruct (split_lines (String b t)) as [|l ls] eqn:El; [|done].
      exfalso. revert El. cbn [split_lines]. repeat case_match; done.
Qed.

Lemma split_lines_line line : unbroken line → line ≠ "" → split_lines (line +:+ newline) = [line].
Proof.
  unfold unbroken. induction line as [|a line IH]; [done|]. cbn [bytes_of_string].
  intros [[H10 H13] Hl]%Forall_cons _. rewrite string_app_cons. cbn [split_lines].
  apply N.eqb_neq in H10, H13. unfold code. rewrite H10, H13.
  destruct line as [|b line]; [done|]. by rewrite IH.
Qed.

Lemma numbered_app name k l x : numbered name k (l ++ [x]) = numbered name k l ++ [(name, (k + length l)%nat, x)].
Proof.
  revert k. induction l as [|y l IH]; intros k; cbn; [by rewrite Nat.add_0_r|]. rewrite IH. by rewrite Nat.add_succ_r.
Qed.

Lemma dumps_nonempty kv : dumps true (JObj kv) ≠ "".
Proof. done. Qed.

(** ** The directory after an append *)

Section append_read.
Context {F : FloatText} {U : UnicodeInt}.

Lemma records_of_perm places places' rs :
  records_of places ∅ rs → places ≡ₚ places' → ∃ rs', rs' ≡ₚ rs ∧ records_of places' ∅ rs'.
Proof.
  intros [Hp Hok Hid _] Hperm. rewrite <-Hp in Hperm. symmetry in Hperm.
  apply Permutation_map_inv in Hperm as (rs' & -> & Hrs). exists rs'. split; [by rewrite Hrs|].
  split; [done|by rewrite <-Hrs|by rewrite <-Hrs|]. apply Forall_true. set_solver.
Qed.

Lemma concat_perm {A} (l l' : list (list A)) : l ≡ₚ l' → concat l ≡ₚ concat l'.
Proof.
  induction 1 as [|x l l' _ IH|x y l|l l' l'' _ IH1 _ IH2]; cbn [concat]; [done|by rewrite IH| |by rewrite IH1].
  by rewrite !app_assoc, (Permutation_app_comm x y).
Qed.

Lemma NoDup_names d : NoDup (journals (names_of d)).
Proof.
  unfold journals, names_of. apply NoDup_filter. rewrite sort_on_perm. apply NoDup_fst_map_to_list.
Qed.

Lemma elem_of_journal_names d name :
  name ∈ journals (names_of d) ↔ ends_with ".jsonl" name = true ∧ is_Some (files d !! name).
Proof. by rewrite elem_of_journals, elem_of_names. Qed.

Definition lines_in (d : Directory) (n : string) : list (string * nat * string) :=
  numbered n 1 (split_lines (text_in d n)).

Definition other_journals (n : string) (d : Directory) : list string := filter (.≠ n) (journals (names_of d)).

Lemma lines_split n d :
  ends_with ".jsonl" n = true →
  places_in d (names_of d) ≡ₚ lines_in d n ++ concat (lines_in d <$> other_journals n d).
Proof.
  intros He. unfold places_in, other_journals. fold (lines_in d). pose proof (NoDup_names d) as Hnd.
  destruct (decide (n ∈ journals (names_of d))) as [Hn|Hn].
  - change (lines_in d n ++ concat (lines_in d <$> ?l)) with (concat (lines_in d <$> n :: l)).
    apply concat_perm, Permutation_map, NoDup_Permutation; [done| |].
    + constructor; [|by apply NoDup_filter]. rewrite list_elem_of_filter. tauto.
    + intros x. rewrite elem_of_cons, list_elem_of_filter. destruct (decide (x = n)); naive_solver.
  - assert (lines_in d n = []) as ->.
    { unfold lines_in, text_in. destruct (files d !! n) as [f|] eqn:E; [|done].
      destruct Hn. apply elem_of_journal_names. by rewrite E. }
    apply concat_perm, Permutation_map, NoDup_Permutation; [done|by apply NoDup_filter|].
    intros x. rewrite list_elem_of_filter. naive_solver.
Qed.

Lemma closed_split_line t raw :
  partial t = false → unbroken raw → raw ≠ "" →
  split_lines (t +:+ raw +:+ newline) = split_lines t ++ [raw].
Proof. intros Ht%closed_whole Hr Hne. by rewrite split_lines_closed, split_lines_line. Qed.

(** One more line in the journal [n], every other journal as it was. *)
Lemma lines_appended n d d' raw :
  ends_with ".jsonl" n = true → partial (text_in d n) = false → unbroken raw → raw ≠ "" →
  (∀ k, k ≠ n → ends_with ".jsonl" k = true → files d' !! k = files d !! k) →
  is_Some (files d' !! n) → text_in d' n = text_in d n +:+ raw +:+ newline →
  places_in d' (names_of d') ≡ₚ
  places_in d (names_of d) ++ [(n, S (length (split_lines (text_in d n))), raw)].
Proof.
  intros He Ht Hr Hne Hothers Hn Htext. rewrite !(lines_split n) by done.
  assert (other_journals n d' ≡ₚ other_journals n d) as Hj.
  { unfold other_journals. apply NoDup_Permutation; [apply NoDup_filter, NoDup_names..|].
    intros x. rewrite !list_elem_of_filter, !elem_of_journal_names.
    split; intros (Hx & Hex & Hfx); (split_and!; [done..|]); [rewrite <-Hothers|rewrite Hothers]; done. }
  assert (lines_in d' <$> other_journals n d = lines_in d <$> other_journals n d) as Hl.
  { apply list_fmap_ext. intros i x Hx%list_elem_of_lookup_2. unfold other_journals in Hx.
    rewrite list_elem_of_filter, elem_of_journals in Hx. destruct Hx as (Hx & Hex & _).
    unfold lines_in, text_in. by rewrite Hothers. }
  rewrite (concat_perm _ _ (Permutation_map (lines_in d') Hj)).
  change (map (lines_in d')) with (fmap (M := list) (lines_in d')). rewrite Hl.
  unfold lines_in at 1. rewrite Htext, closed_split_line by done. rewrite numbered_app. fold (lines_in d n).
  rewrite <-!app_assoc. apply Permutation_app_head. rewrite Permutation_app_comm. done.
Qed.

Lemma whole_text d n rs : listing d rs → ends_with ".jsonl" n = true → partial (text_in d n) = false.
Proof.
  intros [Hr _] He. unfold text_in. destruct (files d !! n) as [f|] eqn:E; [|done].
  by destruct (Hr n f E He) as (_ & _ & ?).
Qed.

Lemma listing_appended n d d' rs raw ev f :
  listing d rs → ends_with ".jsonl" n = true → unbroken raw → raw ≠ "" → parse_host_event raw = Ok ev →
  event_id ev ∉ record_id <$> rs →
  (∀ k, k ≠ n → ends_with ".jsonl" k = true → files d' !! k = files d !! k) →
  files d' !! n = Some f → private_file f = true → contents f = text_in d n +:+ raw +:+ newline →
  ∃ rs', listing d' rs' ∧
    rs' ≡ₚ rs ++ [mkJournalEvent n (S (length (split_lines (text_in d n)))) raw ev].
Proof.
  intros Hl He Hu Hne Hev Hid Hothers Hf Hpf Hc. pose proof (whole_text _ _ _ Hl He) as Hw.
  destruct Hl as [Hr Hrec].
  destruct (records_of_perm (places_in d (names_of d) ++ [(n, S (length (split_lines (text_in d n))), raw)])
    (places_in d' (names_of d'))
    (rs ++ [mkJournalEvent n (S (length (split_lines (text_in d n)))) raw ev])) as (rs' & Hperm & Hrs').
  - apply records_of_app. eexists _, _. split_and!; [done|done|]. apply records_of_cons.
    split_and!; [done|done| |apply records_of_nil]. rewrite right_id_L by apply _. by rewrite elem_of_list_to_set.
  - symmetry. apply lines_appended; [done..|by exists f|]. unfold text_in at 1. by rewrite Hf.
  - exists rs'. split; [|done]. split; [|done]. intros k g Hg Hk. destruct (decide (k = n)) as [->|Hkn].
    + simplify_eq. unfold private_file in Hpf. apply andb_true_iff in Hpf as [[Hk1 Ho]%andb_true_iff _].
      apply bool_decide_eq_true in Hk1. split_and!; [done..|]. rewrite Hc. apply whole_app.
    + rewrite Hothers in Hg by done. by eapply Hr.
Qed.

Lemma canonical_event_Ok event raw :
  canonical_event event = Ok raw ↔
  serializable (JObj event) = true ∧ raw = dumps true (JObj event) ∧ ∃ ev, parse_host_event raw = Ok ev.
Proof.
  unfold canonical_event. destruct (serializable (JObj event)); [|naive_solver].
  destruct (parse_host_event (dumps true (JObj event))) as [ev|e] eqn:E; [naive_solver|].
  split; [done|]. intros (_ & -> & ev & H). congruence.
Qed.

Lemma journal_suffix event : ends_with ".jsonl" (_journal_name event) = true.
Proof. apply ends_with_app. Qed.

(** C29: An event that append_event writes is read back: let no system call fail, the
    lock be free, the directory be canonical, private and of the configured identity,
    without a fence for the journal, with a private lock file and journal if they exist,
    and readable as a list of records. Appending a canonical event whose id is none of
    those records' (and whose floats, if any, print without a line break) returns, and
    read_events then returns those records and one more, the event under its process's
    journal name and the next line number. *)
Theorem appended_event_read_back {K : Kernel} (env : Environment) (event : event_dict) (raw : string)
    (w : World) (records : list JournalEvent) :
  let n := _journal_name event in
  script w = [] → locked w = false →
  (∃ d, env_dir env = Some d ∧ d ≠ "") → default "0" (env_fsync env) ∈ ["0"; "1"] →
  opens env true Source None w →
  canonical_event event = Ok raw → floats_unbroken (JObj event) →
  (∀ ev, parse_host_event raw = Ok ev → event_id ev ∉ record_id <$> records) →
  files (source w) !! _quarantine_fence_name n = None →
  (∀ k f, k = QUARANTINE_LOCK ∨ k = n → files (source w) !! k = Some f → private_file f = true) →
  listing (source w) records →
  ∃ w' ev records',
    append_host_event env event w = (Ok (), w') ∧
    read_events env true Source None None w' = (Ok records', w') ∧
    parse_host_event raw = Ok ev ∧
    records' ≡ₚ records ++ [mkJournalEvent n (S (length (split_lines (text_in (source w) n)))) raw ev].
Proof.
  intros n Hs Hl (d & Hd & Hdne) Hfs Hopens Hraw Hfl Hfresh Hfence Hpriv Hlist.
  pose proof (proj1 (canonical_event_Ok _ _) Hraw) as (_ & Er & ev & Hev).
  assert (raw ≠ "") as Hne by (by rewrite Er).
  assert (ends_with ".jsonl" QUARANTINE_LOCK = false) as Hlock by done.
  destruct (append_quiet (default "0" (env_fsync env)) n (raw +:+ newline) w) as (w' & f & Happ & St & Hf & Hpf & Hc);
    [done..| |done|by destruct raw|done|done|].
  { intros E. pose proof (journal_suffix event) as Hj. fold n in Hj. congruence. }
  destruct St as [Hs' _ Hm Ho].
  destruct (listing_appended n (source w) (source w') records raw ev f) as (records' & Hlist' & Hperm);
    [done|apply journal_suffix|rewrite Er; by apply unbroken_dumps|done|done|by apply Hfresh| |done|done|done|].
  { intros k Hk He. apply Ho. rewrite !not_elem_of_cons. split_and!; [|done|apply not_elem_of_nil].
    intros ->. congruence. }
  destruct Hopens as (Hp & Hpr & i & Hi & Hid). injection Hm as Hm1 Hm2 Hm3 Hm4.
  exists w', ev, records'. split_and!; [|  |done|done].
  - unfold append_host_event, jop. rewrite (bind_run _ _ _ raw w) by (unfold lift; by rewrite Hraw).
    rewrite (bind_run _ _ _ () w); [by apply sink_Ok|].
    unfold _configured_journal_root, jop. rewrite (bind_run _ _ _ () w) by (by rewrite Hd, bool_decide_eq_false_2).
    rewrite (bind_run _ _ _ i w) by (unfold lift; unfold read_identity in Hi; by rewrite Hi).
    by apply sink_Ok, open_quiet.
  - apply read_events_quiet; [done| |done|done]. split_and!; [by rewrite <-Hp|by rewrite <-Hpr|].
    exists i. split; [done|]. intros j Hj. rewrite <-(Hid j Hj). unfold identity_of. cbn [dir]. congruence.
Qed.
End append_read.

(** ** A second event in a journal *)

Module Example.
#[local] Existing Instance SignedAttestation.Example.float_text.
#[local] Existing Instance HostEvidence.Example.no_unicode.
#[local] Instance a_kernel : Kernel := {|
  inode_of n := (Z.of_nat n + 1000)%Z; token_hex n := hex_fixed 32 (N.of_nat n) "" |}.

Definition an_event : event_dict := Eval vm_compute in HostJournal.Example.event_of HostJournal.Example.b_raw.
Definition a_name : string := Eval vm_compute in _journal_name an_event.
Definition a_line : string := Eval vm_compute in HostJournal.Example.a_raw +:+ newline.
Definition a_world : World :=
  HostJournal.Example.a_world (HostJournal.Example.a_directory {[a_name := HostJournal.Example.owned a_line]}).
Definition a_record : JournalEvent :=
  mkJournalEvent a_name 1 HostJournal.Example.a_raw (HostJournal.Example.event_of HostJournal.Example.a_raw).
Definition an_environment : Environment := HostJournal.Example.an_environment.

Lemma a_listing : listing (source a_world) [a_record].
Proof.
  apply (read_events_sound an_environment true Source None None a_world [a_record] a_world).
  vm_compute. reflexivity.
Qed.

Lemma an_event_unbroken : floats_unbroken (JObj an_event).
Proof. cbn -[unbroken]. by repeat split. Qed.

Lemma an_event_canonical : canonical_event an_event = Ok HostJournal.Example.b_raw.
Proof. vm_compute. reflexivity. Qed.

Lemma a_world_private k f : files (source a_world) !! k = Some f → private_file f = true.
Proof.
  change (files (source a_world)) with ({[a_name := HostJournal.Example.owned a_line]} : gmap string File).
  intros (_ & <-)%lookup_singleton_Some. done.
Qed.

Lemma an_event_fresh ev :
  parse_host_event HostJournal.Example.b_raw = Ok ev → event_id ev ∉ record_id <$> [a_record].
Proof.
  intros H. assert (ev = an_event) as ->.
  { assert (parse_host_event HostJournal.Example.b_raw = Ok an_event) as H' by (vm_compute; reflexivity). congruence. }
  apply (bool_decide_unpack _). vm_compute. done.
Qed.

(** The same event appended twice is written twice, and no journal of the directory can be
    read any more. *)
Example appended_twice_unreadable :
  let '(r, w) := (_ ← append_host_event an_environment an_event; append_host_event an_environment an_event) a_world in
  r = Ok () ∧ (read_events an_environment true Source None None w).1 = Raise (sink_error "duplicate host event id across journals").
Proof. vm_compute. by split. Qed.

Lemma appended_event_read_back_witness :
  listing (source a_world) [a_record] ∧ canonical_event an_event = Ok HostJournal.Example.b_raw ∧
  ∃ w' ev records',
    append_host_event an_environment an_event a_world = (Ok (), w') ∧
    read_events an_environment true Source None None w' = (Ok records', w') ∧
    parse_host_event HostJournal.Example.b_raw = Ok ev ∧
    records' ≡ₚ [a_record] ++
      [mkJournalEvent (_journal_name an_event)
         (S (length (split_lines (text_in (source a_world) (_journal_name an_event)))))
         HostJournal.Example.b_raw ev].
Proof.
  split_and!; [apply a_listing|apply an_event_canonical|].
  apply (appended_event_read_back an_environment an_event HostJournal.Example.b_raw a_world [a_record]).
  - reflexivity.
  - reflexivity.
  - by exists "/events".
  - by left.
  - split_and!; [done..|]. exists (Some (1, 10)%Z). split; [by vm_compute|]. by intros i [= <-].
  - apply an_event_canonical.
  - apply an_event_unbroken.
  - apply an_event_fresh.
  - vm_compute. reflexivity.
  - intros k f _. apply a_world_private.
  - apply a_listing.
Defined.
End Example.
