(* ===== verification/HostObserver.v ===== *)
(** * Observing the invocations of a plan

    [src/vllm_hust_ext/host_observer.py]: [observe_bound_invocations] derives from the host
    journals ([HostJournal]) and the live processes of [/proc] which obligations of a plan
    were met, by which processes.  The reads of [/proc] are the class [ProcFs], any of which
    may fail or return different bytes than the last one did.  [root.stat()] finds a
    directory or nothing; whether it is a directory is part of the [World].  A coverage is
    the pair of the two lengths the code divides.  The theorems are in [ObserverTheorems]. *)

From S2P Require Import Prelude PyStd JsonText JsonRoundTrip EcpaModel SignedAttestation HostEvidence HostEventSink HostJournal.

Local Open Scope string_scope.
Local Open Scope list_scope.

Inductive observer_exn : Type :=
  | HostObservationError (detail : string)
  | JournalExn (e : journal_exn)
  | ZeroDivisionError
  | KeyError.

Inductive ProcFile : Type := Stat | Cmdline.

(** The bytes the [n]-th read of a run gets from a file of [/proc/pid], [None] for an
    [OSError]. *)
Class ProcFs : Type := proc_read : nat → Z → ProcFile → option string.

Record Observer : Type := mkObserver { ob_world : World; ob_reads : nat }.

Definition obs (A : Type) : Type := method Observer observer_exn A.

Definition from_journal {A} (m : jop A) : obs A := λ o,
  let '(r, w) := m (ob_world o) in
  (match r with Ok a => Ok a | Raise e => Raise (JournalExn e) end, mkObserver w (ob_reads o)).

Definition fail_if (b : bool) (detail : string) : result observer_exn () :=
  raise_if b (HostObservationError detail).

(** ** [/proc/pid/stat] *)

(** [raw.rfind(b")")] *)
Definition closing (n : N) : bool := (n =? 41)%N.
Fixpoint rfind (p : N → bool) (i : nat) (l : list N) : option nat :=
  match l with
  | [] => None
  | x :: l => match rfind p (S i) l with
              | Some k => Some k
              | None => if p x then Some i else None
              end
  end.

Definition byte_space (n : N) : bool := (((9 <=? n) && (n <=? 13)) || (n =? 32))%N.

(** [bytes.split()] and [bytes.split(b"\0")], without the empty parts *)
Fixpoint split_parts (separator : N → bool) (l : list N) : list (list N) :=
  match l with
  | [] => []
  | x :: l' =>
      if separator x then split_parts separator l'
      else match l' with
           | [] => [[x]]
           | y :: _ => if separator y then [x] :: split_parts separator l'
                       else match split_parts separator l' with
                            | part :: parts => (x :: part) :: parts
                            | [] => [[x]]
                            end
           end
  end.

Definition parse_linux_start_ticks (raw : string) : result observer_exn Z :=
  let bs := bytes_of_string raw in
  close ← match rfind closing 0 bs with
          | Some close =>
              if (close <? 2)%nat || (length bs <=? close + 2)%nat ||
                 negb (bool_decide (bs !! S close = Some 32%N))
              then Raise (HostObservationError "process stat has no complete comm field") else Ok close
          | None => Raise (HostObservationError "process stat has no complete comm field")
          end;
  match split_parts byte_space (drop (close + 2) bs) !! 19%nat with
  | None => Raise (HostObservationError "process stat is missing start ticks")
  | Some field =>
      match int_ascii field with
      | None => Raise (HostObservationError "process start ticks are not an integer")
      | Some ticks =>
          _ ← fail_if (ticks <=? 0)%Z "process start ticks must be positive";
          Ok ticks
      end
  end.

(** [bytes.decode(errors="surrogateescape")] *)
Definition escape_invalid (b : N) : list N := utf8_encode (56320 + b).
Fixpoint decode_escape (bs : list N) : list N :=
  match bs with
  | [] => []
  | a :: bs =>
      if (a <? 128)%N then a :: decode_escape bs
      else if ((194 <=? a) && (a <? 224))%N then
        match bs with
        | b :: bs' => if continuation b then a :: b :: decode_escape bs'
                      else escape_invalid a ++ decode_escape bs
        | [] => escape_invalid a
        end
      else if ((224 <=? a) && (a <? 240))%N then
        match bs with
        | b :: c :: bs' =>
            if continuation b && continuation c && (negb (a =? 224) || (160 <=? b))%N &&
               (negb (a =? 237) || (b <? 160))%N
            then a :: b :: c :: decode_escape bs' else escape_invalid a ++ decode_escape bs
        | _ => escape_invalid a ++ decode_escape bs
        end
      else if ((240 <=? a) && (a <? 245))%N then
        match bs with
        | b :: c :: d :: bs' =>
            if continuation b && continuation c && continuation d &&
               (negb (a =? 240) || (144 <=? b))%N && (negb (a =? 244) || (b <? 144))%N
            then a :: b :: c :: d :: decode_escape bs' else escape_invalid a ++ decode_escape bs
        | _ => escape_invalid a ++ decode_escape bs
        end
      else escape_invalid a ++ decode_escape bs
  end.

Record LinuxProcess : Type := mkLinuxProcess {
  lp_pid : Z; lp_start_ticks : Z; lp_start_identity : string; lp_argv : list string;
}.
#[export] Instance LinuxProcess_eq_dec : EqDecision LinuxProcess.
Proof. solve_decision. Defined.

Section observer.
Context {F : FloatText} {U : UnicodeInt} {PF : ProcFs}.

Definition read_proc (pid : Z) (file : ProcFile) : obs string := λ o,
  (match proc_read (ob_reads o) pid file with
   | Some raw => Ok raw
   | None => Raise (HostObservationError "effect process is not independently observable")
   end, mkObserver (ob_world o) (S (ob_reads o))).

Definition argv_of (raw : string) : list string :=
  (λ part, string_of_bytes (decode_escape part)) <$> split_parts (λ n, n =? 0)%N (bytes_of_string raw).

Definition read_linux_process_identity (pid : Z) (expected_start_identity : string) : obs LinuxProcess :=
  _ ← lift (fail_if (pid <=? 0)%Z "process pid must be positive");
  raw ← read_proc pid Stat;
  before ← lift (parse_linux_start_ticks raw);
  argv_raw ← read_proc pid Cmdline;
  raw ← read_proc pid Stat;
  after ← lift (parse_linux_start_ticks raw);
  _ ← lift (fail_if (negb (before =? after)%Z) "effect process identity changed while reading");
  let start_identity := start_prefix pid +:+ pretty before in
  _ ← lift (fail_if (negb (bool_decide (expected_start_identity = start_identity)))
              "effect process start identity differs from host event");
  let argv := argv_of argv_raw in
  _ ← lift (fail_if (bool_decide (argv = [])) "effect process argv is unavailable");
  mret (mkLinuxProcess pid before start_identity argv).

(** ** The required processes *)

Definition Slot : Type := string * string * Z.
(** host, role, ordinal and process epoch *)
Definition Required : Type := Slot * Z.
Definition slot_host (s : Slot) : string := s.1.1.
Definition slot_role (s : Slot) : string := s.1.2.
Definition slot_ordinal (s : Slot) : Z := s.2.

Definition name_ok (v : json) : bool :=
  match v with JStr s => negb (bool_decide (s = "")) && is_stripped s | _ => false end.

Definition required_process (value : json) : result observer_exn Required :=
  match value with
  | JObj kv =>
      _ ← fail_if (negb (has_exactly ["host"; "role"; "ordinal"; "process_epoch"] kv))
            "required process fields do not match schema";
      _ ← fail_if (negb (name_ok (json_get "host" kv) && name_ok (json_get "role" kv) &&
                         natural (json_get "ordinal" kv) && natural (json_get "process_epoch" kv)))
            "required process identity is malformed";
      Ok (text_of (json_get "host" kv), text_of (json_get "role" kv), integer_of (json_get "ordinal" kv),
          integer_of (json_get "process_epoch" kv))
  | _ => Raise (HostObservationError "required process fields do not match schema")
  end.

Definition _required_processes (values : list json) : result observer_exn (list Required) :=
  parsed ← mapR required_process values;
  _ ← fail_if (bool_decide (parsed = []) || negb (bool_decide (parsed = sort_on id parsed)) ||
               negb (bool_decide (NoDup parsed))) "required process snapshot is not canonical";
  _ ← fail_if (negb (bool_decide (NoDup (fst <$> parsed)))) "required process snapshot repeats a logical slot";
  Ok parsed.

(** ** Evidence *)

Record EvidenceRecord : Type := mkEvidenceRecord {
  er_event_id : string; er_journal : string; er_line_number : nat;
  er_raw_base64 : string; er_raw_sha256 : string;
}.

Definition _evidence_record (record : JournalEvent) : EvidenceRecord :=
  mkEvidenceRecord (event_id (je_event record)) (je_journal record) (je_line record)
    (b64encode (je_raw record)) ("sha256:" +:+ sha256_hexdigest (je_raw record)).

Record Observed : Type := mkObserved { ob_slot : Slot; ob_epoch : Z; ob_linux : LinuxProcess }.
#[export] Instance Observed_eq_dec : EqDecision Observed.
Proof. solve_decision. Defined.

Definition EntryKey : Type := string * string * string.
Definition binding_entry (b : EntryPointBinding) : EntryKey := (b_group b, b_name b, b_value b).

(** [{key(item): item for item in l}] *)
Definition dict_by {K V} `{EqDecision K} (key : V → K) (l : list V) : list (K * V) :=
  foldl (λ d item, od_set (key item) item d) [] l.

Definition bind_entry (plugins : list (string * PluginIdentity)) (obligations : list (string * EvidenceObligation))
    (d : list (EntryKey * EntryPointBinding) * list (string * EntryPointBinding)) (binding : EntryPointBinding)
    : result observer_exn (list (EntryKey * EntryPointBinding) * list (string * EntryPointBinding)) :=
  let '(by_entry, by_obligation) := d in
  _ ← fail_if (bool_decide (binding_entry binding ∈ by_entry.*1) ||
               bool_decide (b_obligation binding ∈ by_obligation.*1)) "entry-point bindings are ambiguous";
  _ ← fail_if (negb (bool_decide (b_plugin_id binding ∈ plugins.*1)))
        "entry-point binding plugin is absent from Plan";
  _ ← fail_if (match od_get (b_obligation binding) obligations with
               | Some obligation => negb (bool_decide (ob_event obligation = "invoked"))
               | None => true
               end) "entry-point binding invocation obligation is absent";
  Ok (od_set (binding_entry binding) binding by_entry, od_set (b_obligation binding) binding by_obligation).

(** What one pass over the records has gathered. *)
Record Tally : Type := mkTally {
  effects : gmap string (gmap Slot Observed);
  effect_records : gmap string (list EvidenceRecord);
  stale_records : gmap string (list EvidenceRecord);
  controller_bound : gset string;
  linux_slots : gmap (string * Z * Z) Slot;
  other_records : list EvidenceRecord;
}.
Definition no_tally : Tally := mkTally ∅ ∅ ∅ ∅ ∅ [].

Definition append_to (k : string) (e : EvidenceRecord) (m : gmap string (list EvidenceRecord))
    : gmap string (list EvidenceRecord) :=
  <[k := default [] (m !! k) ++ [e]]> m.

Definition slots_of (t : Tally) (k : string) : gmap Slot Observed := default ∅ (effects t !! k).

Definition is_scheduler (v : json) : bool :=
  json_eqb v (JStr "scheduler_resolution") || json_eqb v (JStr "scheduler_dispatch").

Section pass.
Context (plan : Plan) (launch_id controller_instance : string)
  (obligations : list (string * EvidenceObligation))
  (by_entry : list (EntryKey * EntryPointBinding)) (required : list Required).

(** A live process takes the slot of its event. *)
Definition take_slot (t : Tally) (obligation : string) (record : JournalEvent) (observed : Observed)
    : result observer_exn Tally :=
  let slot := ob_slot observed in
  let linux := ob_linux observed in
  _ ← fail_if (match slots_of t obligation !! slot with
               | Some existing => negb (bool_decide (existing = observed))
               | None => false
               end) "one target slot has multiple live identities";
  let linux_key := (slot_host slot, lp_pid linux, lp_start_ticks linux) in
  let prior_slot := default slot (linux_slots t !! linux_key) in
  _ ← fail_if (negb (bool_decide (prior_slot = slot))) "one Linux identity covers multiple target slots";
  Ok (mkTally (<[obligation := <[slot := observed]> (slots_of t obligation)]> (effects t))
        (append_to obligation (_evidence_record record) (effect_records t)) (stale_records t)
        (if json_eqb (json_get "observation_kind" (je_event record)) (JStr "scheduler_dispatch")
         then {[obligation]} ∪ controller_bound t else controller_bound t)
        (<[linux_key := prior_slot]> (linux_slots t)) (other_records t)).

Definition entry_key (entry : event_dict) : EntryKey :=
  (text_of (json_get "group" entry), text_of (json_get "name" entry), text_of (json_get "value" entry)).
Definition process_slot (process : event_dict) : Slot :=
  (text_of (json_get "host" process), text_of (json_get "role" process), integer_of (json_get "ordinal" process)).

Definition audit_record (t : Tally) (record : JournalEvent) : obs Tally :=
  let event := je_event record in
  let process := sub_object "process" event in
  _ ← lift (fail_if (negb (json_eqb (json_get "binding_status" event) (JStr "bound")) ||
                     negb (json_eqb (json_get "plan_id" event) (JStr (Plan_plan_id plan))) ||
                     negb (json_eqb (json_get "launch_id" event) (JStr launch_id)) ||
                     negb (json_eqb (json_get "assignment_source" process) (JStr "host")))
              "journal contains unbound or cross-launch evidence");
  _ ← lift (fail_if (is_scheduler (json_get "observation_kind" event) &&
                     negb (json_eqb (json_get "controller_instance_id" event) (JStr controller_instance)))
              "scheduler evidence has another controller identity");
  match od_get (entry_key (sub_object "entry_point" event)) by_entry with
  | Some binding =>
      if json_eqb (json_get "event" event) (JStr "invoked") then
        match od_get (b_obligation binding) obligations with
        | None => raise KeyError
        | Some obligation =>
            let slot := process_slot process in
            match od_get slot required with
            | None => raise (HostObservationError "effect evidence is outside its bound obligation target set")
            | Some expected_epoch =>
                _ ← lift (fail_if (negb (bool_decide (slot_role slot = ob_role obligation)) ||
                                   negb (bool_decide (slot_ordinal slot ∈ required_ordinals obligation)))
                            "effect evidence is outside its bound obligation target set");
                if (integer_of (json_get "process_epoch" process) =? expected_epoch)%Z then
                  linux ← read_linux_process_identity (integer_of (json_get "pid" process))
                            (text_of (json_get "start_identity" process));
                  lift (take_slot t (b_obligation binding) record (mkObserved slot expected_epoch linux))
                else
                  mret (mkTally (effects t) (effect_records t)
                          (append_to (b_obligation binding) (_evidence_record record) (stale_records t))
                          (controller_bound t) (linux_slots t) (other_records t))
            end
        end
      else
        mret (mkTally (effects t) (effect_records t) (stale_records t) (controller_bound t)
                (linux_slots t) (other_records t ++ [_evidence_record record]))
  | None =>
      mret (mkTally (effects t) (effect_records t) (stale_records t) (controller_bound t)
              (linux_slots t) (other_records t ++ [_evidence_record record]))
  end.

Fixpoint audit_records (t : Tally) (records : list JournalEvent) : obs Tally :=
  match records with
  | [] => mret t
  | record :: records => t ← audit_record t record; audit_records t records
  end.
End pass.

(** ** The snapshot *)

Record ObligationResult : Type := mkObligationResult {
  or_plugin_id : string; or_artifact_digest : string; or_entry_point : EntryKey;
  or_controller : option string;
  or_effect_records : list EvidenceRecord; or_stale_records : list EvidenceRecord;
  or_processes : list Observed;
  (** the processes observed out of the targets; the code divides the two as floats *)
  or_coverage : nat * nat;
}.
Definition plugin_invoked (r : ObligationResult) : bool := negb (bool_decide (or_processes r = [])).
Definition complete_coverage (r : ObligationResult) : bool := ((or_coverage r).1 =? (or_coverage r).2)%nat.

Record Snapshot : Type := mkSnapshot {
  sn_plan_id : string; sn_launch_id : string; sn_directory : Z * Z;
  sn_audited : nat; sn_other_records : list EvidenceRecord;
  sn_obligations : list (string * ObligationResult);
  sn_processes : list Observed;
}.
Definition snapshot_complete (s : Snapshot) : bool := forallb (λ p, complete_coverage p.2) (sn_obligations s).

(** [[d[key] for key in sorted(d)]] *)
Definition by_slot (d : gmap Slot Observed) : list Observed := (sort_on fst (map_to_list d)).*2.

Definition targets (required : list Required) (obligation : EvidenceObligation) : list Required :=
  filter (λ item, slot_role item.1 = ob_role obligation ∧
                  slot_ordinal item.1 ∈ required_ordinals obligation) required.

Section result.
Context (controller_instance : string) (plugins : list (string * PluginIdentity))
  (by_obligation : list (string * EntryPointBinding)) (required : list Required) (t : Tally).

Definition obligation_result (obligation : string * EvidenceObligation)
    : result observer_exn (string * ObligationResult) :=
  let '(k, obligation) := obligation in
  match od_get k by_obligation with
  | None => Raise KeyError
  | Some binding =>
      match od_get (b_plugin_id binding) plugins with
      | None => Raise KeyError
      | Some plugin =>
          let observed := by_slot (slots_of t k) in
          let aims := targets required obligation in
          _ ← raise_if (length aims =? 0)%nat ZeroDivisionError;
          Ok (k, mkObligationResult (PluginIdentity_id plugin) ("sha256:" +:+ artifact_sha256 plugin)
                   (binding_entry binding)
                   (if bool_decide (k ∈ controller_bound t) then Some controller_instance else None)
                   (default [] (effect_records t !! k)) (default [] (stale_records t !! k))
                   observed (length observed, length aims))
      end
  end.
End result.

(** [all_effects.update(...)], obligation by obligation *)
Definition all_effects (obligations : list (string * EvidenceObligation)) (t : Tally) : gmap Slot Observed :=
  foldl (λ d o, slots_of t o.1 ∪ d) ∅ obligations.

Definition obligated (plan : Plan) (local_host : string) : list Slot :=
  o ← EcpaModel.obligations plan; (λ ordinal, (local_host, ob_role o, ordinal)) <$> required_ordinals o.

Definition check_bindings (plan : Plan) (bindings : list EntryPointBinding)
    : result observer_exn (list (EntryKey * EntryPointBinding) * list (string * EntryPointBinding)) :=
  let obligations := dict_by obligation_id (EcpaModel.obligations plan) in
  maps ← foldR (bind_entry (dict_by PluginIdentity_id (EcpaModel.plugins plan)) obligations) ([], []) bindings;
  _ ← fail_if (negb (bool_decide (list_to_set maps.2.*1 = list_to_set obligations.*1 :> gset string)))
        "every Plan obligation requires one entry-point binding";
  Ok maps.

(** [root.stat()] *)
Definition stat_root (root : Root) : obs Directory := λ o,
  let '(r, w) := sys_read (λ w, if decide (d_path (dir root w) = Missing) then Raise FileNotFoundError
                                else Ok (dir root w)) (ob_world o) in
  (match r with
   | Ok d => Ok d
   | Raise e => Raise (if is_os_error e then HostObservationError "host journal directory is unavailable"
                       else JournalExn (SinkExn e))
   end, mkObserver w (ob_reads o)).

Definition observe_bound_invocations (root : Root) (expected : Z * Z) (plan : Plan)
    (launch_id controller_instance : string) (bindings : list EntryPointBinding)
    (required_processes : list json) (local_host : string) : obs Snapshot :=
  required ← lift (_required_processes required_processes);
  _ ← lift (fail_if (bool_decide (local_host = "")) "local host identity is unavailable");
  let plugins := dict_by PluginIdentity_id (EcpaModel.plugins plan) in
  let obligations := dict_by obligation_id (EcpaModel.obligations plan) in
  '(by_entry, by_obligation) ← lift (check_bindings plan bindings);
  _ ← lift (fail_if (negb (bool_decide (list_to_set required.*1 =
                                        list_to_set (obligated plan local_host) :> gset Slot)))
              "Plan obligations differ from required process snapshot");
  _ ← lift (fail_if ((expected.1 <? 0)%Z || (expected.2 <=? 0)%Z)
              "host journal directory identity is invalid");
  metadata ← stat_root root;
  _ ← lift (fail_if (negb (bool_decide (identity_of metadata = expected)))
              "host journal directory identity changed");
  records ← from_journal (read_events (mkEnvironment None None None None) false root (Some expected) None);
  t ← audit_records plan launch_id controller_instance obligations by_entry required no_tally records;
  results ← lift (mapR (obligation_result controller_instance plugins by_obligation required t) obligations);
  mret (mkSnapshot (Plan_plan_id plan) launch_id (identity_of metadata) (length records) (other_records t)
          results (by_slot (all_effects obligations t))).
End observer.
