(* ===== verification/ObserverTheorems.v ===== *)
(** * What a snapshot of the host observer says

    About [observe_bound_invocations] of [HostObserver].  A snapshot is backed, process by
    process, by a line of a journal and a process that was alive; it accounts for every line
    of the journals; and these are the exceptions the observer raises. *)

From S2P Require Import Prelude PyStd JsonText JsonRoundTrip EcpaModel SignedAttestation HostEvidence HostEventSink HostJournal HostObserver.

Local Open Scope string_scope.
Local Open Scope list_scope.

Section observer.
Context {F : FloatText} {U : UnicodeInt} {PF : ProcFs}.

(** ** What one record can be *)

(** A read of [/proc] that saw one live process, from the [n]-th read on. *)
Definition live_at (n : nat) (p : LinuxProcess) : Prop :=
  (0 < lp_pid p)%Z ∧ lp_start_identity p = start_prefix (lp_pid p) +:+ pretty (lp_start_ticks p) ∧
  lp_argv p ≠ [] ∧
  ∃ before argv after,
    proc_read n (lp_pid p) Stat = Some before ∧ parse_linux_start_ticks before = Ok (lp_start_ticks p) ∧
    proc_read (S n) (lp_pid p) Cmdline = Some argv ∧ argv_of argv = lp_argv p ∧
    proc_read (S (S n)) (lp_pid p) Stat = Some after ∧ parse_linux_start_ticks after = Ok (lp_start_ticks p).

Definition event_process (r : JournalEvent) : event_dict := sub_object "process" (je_event r).

Record audited (plan : Plan) (launch_id controller_instance : string) (r : JournalEvent) : Prop := {
  audited_bound : json_get "binding_status" (je_event r) = JStr "bound";
  audited_plan : json_get "plan_id" (je_event r) = JStr (Plan_plan_id plan);
  audited_launch : json_get "launch_id" (je_event r) = JStr launch_id;
  audited_assigned : json_get "assignment_source" (event_process r) = JStr "host";
  audited_controller : is_scheduler (json_get "observation_kind" (je_event r)) = true →
    json_get "controller_instance_id" (je_event r) = JStr controller_instance;
}.

(** The record invokes the entry point of [binding], in a target slot of its obligation. *)
Record invokes (obligations : list (string * EvidenceObligation)) (by_entry : list (EntryKey * EntryPointBinding))
    (required : list Required) (r : JournalEvent) (binding : EntryPointBinding) (epoch : Z) : Prop := {
  invokes_event : json_get "event" (je_event r) = JStr "invoked";
  invokes_entry : od_get (entry_key (sub_object "entry_point" (je_event r))) by_entry = Some binding;
  invokes_target : ∃ obligation, od_get (b_obligation binding) obligations = Some obligation ∧
    slot_role (process_slot (event_process r)) = ob_role obligation ∧
    slot_ordinal (process_slot (event_process r)) ∈ required_ordinals obligation;
  invokes_epoch : od_get (process_slot (event_process r)) required = Some epoch;
}.

Definition record_epoch (r : JournalEvent) : Z := integer_of (json_get "process_epoch" (event_process r)).

(** The process of the record was alive, as [p], when it was looked up. *)
Record alive_as (r : JournalEvent) (p : Observed) : Prop := {
  alive_slot : process_slot (event_process r) = ob_slot p;
  alive_epoch : record_epoch r = ob_epoch p;
  alive_pid : integer_of (json_get "pid" (event_process r)) = lp_pid (ob_linux p);
  alive_start : text_of (json_get "start_identity" (event_process r)) = lp_start_identity (ob_linux p);
  alive_live : ∃ n, live_at n (ob_linux p);
}.

Lemma from_journal_Ok {A} (m : jop A) o a o' :
  from_journal m o = (Ok a, o') → ∃ w', m (ob_world o) = (Ok a, w') ∧ ob_world o' = w'.
Proof. unfold from_journal. destruct (m (ob_world o)) as [[]]; intros; simplify_eq. eauto. Qed.

Lemma fail_if_Ok b d u : fail_if b d = Ok u ↔ b = false.
Proof. unfold fail_if. rewrite raise_if_Ok. done. Qed.

Lemma lift_fail_Ok b d (o : Observer) u o' : lift (fail_if b d) o = (Ok u, o') → b = false ∧ o' = o.
Proof. by intros [->%fail_if_Ok ->]%lift_Ok. Qed.

Lemma read_proc_Ok pid file o raw o' :
  read_proc pid file o = (Ok raw, o') →
  proc_read (ob_reads o) pid file = Some raw ∧ o' = mkObserver (ob_world o) (S (ob_reads o)).
Proof. unfold read_proc. destruct (proc_read _ _ _); naive_solver. Qed.

Lemma read_identity_Ok pid start o p o' :
  read_linux_process_identity pid start o = (Ok p, o') →
  lp_pid p = pid ∧ lp_start_identity p = start ∧ live_at (ob_reads o) p ∧ ob_world o' = ob_world o.
Proof.
  unfold read_linux_process_identity. intros H.
  apply bind_Ok in H as ([] & o1 & [Hpid ->]%lift_fail_Ok & H).
  apply bind_Ok in H as (b & o2 & [Hb ->]%read_proc_Ok & H).
  apply bind_Ok in H as (before & o3 & [Hbefore ->]%lift_Ok & H).
  apply bind_Ok in H as (argv & o4 & [Hargv ->]%read_proc_Ok & H).
  apply bind_Ok in H as (a & o5 & [Ha ->]%read_proc_Ok & H).
  apply bind_Ok in H as (after & o6 & [Hafter ->]%lift_Ok & H).
  apply bind_Ok in H as ([] & o7 & [Heq ->]%lift_fail_Ok & H). cbv zeta in H.
  apply bind_Ok in H as ([] & o8 & [Hs ->]%lift_fail_Ok & H).
  apply bind_Ok in H as ([] & o9 & [Hne ->]%lift_fail_Ok & H).
  apply mret_Ok in H as [-> ->]. apply negb_false_iff, Z.eqb_eq in Heq as <-. bool_inv.
  apply Z.leb_gt in Hpid. cbn [ob_reads ob_world] in *. split_and!; [done| | |done].
  - done.
  - split_and!; [done..|]. by exists b, argv, a.
Qed.

Section pass_lemmas.
Context (plan : Plan) (launch_id controller_instance : string)
  (obligations : list (string * EvidenceObligation))
  (by_entry : list (EntryKey * EntryPointBinding)) (required : list Required).

Notation audit_one := (audit_record plan launch_id controller_instance obligations by_entry required).
Notation audit_all := (audit_records plan launch_id controller_instance obligations by_entry required).
Notation counts := (invokes obligations by_entry required).

Definition other_added (t : Tally) (r : JournalEvent) : Tally :=
  mkTally (effects t) (effect_records t) (stale_records t) (controller_bound t) (linux_slots t)
    (other_records t ++ [_evidence_record r]).
Definition stale_added (t : Tally) (k : string) (r : JournalEvent) : Tally :=
  mkTally (effects t) (effect_records t) (append_to k (_evidence_record r) (stale_records t))
    (controller_bound t) (linux_slots t) (other_records t).

(** What becomes of a record. *)
Inductive tallied (t : Tally) (r : JournalEvent) : Tally → Prop :=
  | tallied_other : (∀ binding epoch, ¬ counts r binding epoch) → tallied t r (other_added t r)
  | tallied_stale binding epoch : counts r binding epoch → record_epoch r ≠ epoch →
      tallied t r (stale_added t (b_obligation binding) r)
  | tallied_effect binding p t' : counts r binding (ob_epoch p) → alive_as r p →
      take_slot t (b_obligation binding) r p = Ok t' → tallied t r t'.

Lemma audit_record_Ok t r o t' o' :
  audit_one t r o = (Ok t', o') →
  audited plan launch_id controller_instance r ∧ tallied t r t' ∧ ob_world o' = ob_world o.
Proof.
  unfold audit_record. intros H. cbv zeta in H.
  apply bind_Ok in H as ([] & o1 & [Hb ->]%lift_fail_Ok & H).
  apply bind_Ok in H as ([] & o2 & [Hc ->]%lift_fail_Ok & H). bool_inv.
  repeat match goal with E : json_eqb _ (JStr _) = true |- _ => apply json_eqb_str in E end.
  assert (audited plan launch_id controller_instance r) as Hr.
  { split; try done. intros Hs. rewrite Hs in Hc. cbn [andb] in Hc. by apply negb_false_iff, json_eqb_str in Hc. }
  split; [done|].
  destruct (od_get (entry_key _) by_entry) as [binding|] eqn:Hbinding.
  2:{ apply mret_Ok in H as [-> ->]. split; [|done]. apply tallied_other. intros b epoch [_ Hb _ _]. congruence. }
  destruct (json_eqb (json_get "event" (je_event r)) (JStr "invoked")) eqn:Hinv.
  2:{ apply mret_Ok in H as [-> ->]. split; [|done]. apply tallied_other. intros b epoch [Hi _ _ _].
      rewrite Hi in Hinv. done. }
  apply json_eqb_str in Hinv.
  destruct (od_get (b_obligation binding) obligations) as [obligation|] eqn:Hob; [|done].
  destruct (od_get (process_slot _) required) as [epoch|] eqn:Hepoch; [|done].
  apply bind_Ok in H as ([] & o3 & [Ht ->]%lift_fail_Ok & H). bool_inv.
  assert (counts r binding epoch) as Hcounts by (split; eauto).
  destruct (integer_of _ =? epoch)%Z eqn:Hcurrent.
  - apply Z.eqb_eq in Hcurrent. apply bind_Ok in H as (p & o4 & Hp & H).
    apply read_identity_Ok in Hp as (Hpid & Hstart & Hlive & <-). apply lift_Ok in H as [H ->].
    split; [|done]. refine (tallied_effect t r binding (mkObserved _ _ _) t' Hcounts _ H). split; cbn; eauto.
  - apply Z.eqb_neq in Hcurrent. apply mret_Ok in H as [-> ->]. split; [|done].
    by eapply tallied_stale.
Qed.

Lemma take_slot_Ok t k r p t' :
  take_slot t k r p = Ok t' ↔
  let key := (slot_host (ob_slot p), lp_pid (ob_linux p), lp_start_ticks (ob_linux p)) in
  (∀ existing, slots_of t k !! ob_slot p = Some existing → existing = p) ∧
  (∀ slot, linux_slots t !! key = Some slot → slot = ob_slot p) ∧
  t' = mkTally (<[k := <[ob_slot p := p]> (slots_of t k)]> (effects t))
         (append_to k (_evidence_record r) (effect_records t)) (stale_records t)
         (if json_eqb (json_get "observation_kind" (je_event r)) (JStr "scheduler_dispatch")
          then {[k]} ∪ controller_bound t else controller_bound t)
         (<[key := ob_slot p]> (linux_slots t)) (other_records t).
Proof.
  unfold take_slot. cbv zeta. rewrite result_bind_Ok. setoid_rewrite result_bind_Ok.
  setoid_rewrite fail_if_Ok. split.
  - intros (_ & H1 & _ & H2 & [= <-]). bool_inv. split_and!.
    + intros existing E. rewrite E in H1. by bool_inv.
    + intros slot E. by rewrite E in H2.
    + by rewrite H2.
  - intros (H1 & H2 & ->). exists (). split.
    { destruct (slots_of t k !! ob_slot p); [|done]. rewrite bool_decide_eq_true_2; auto. }
    assert (default (ob_slot p) (linux_slots t !! (slot_host (ob_slot p), lp_pid (ob_linux p),
              lp_start_ticks (ob_linux p))) = ob_slot p) as ->.
    { destruct (linux_slots t !! _) as [s|]; [by rewrite (H2 s)|done]. }
    exists (). by rewrite bool_decide_eq_true_2.
Qed.

(** *** All the records *)

Definition records_at (m : gmap string (list EvidenceRecord)) (k : string) : list EvidenceRecord :=
  default [] (m !! k).

Definition gathered (t : Tally) : list EvidenceRecord :=
  other_records t ++ concat (records_at (effect_records t) <$> obligations.*1) ++
  concat (records_at (stale_records t) <$> obligations.*1).

Definition linux_key (p : Observed) : string * Z * Z :=
  (slot_host (ob_slot p), lp_pid (ob_linux p), lp_start_ticks (ob_linux p)).

Record tally_ok (t : Tally) (done : list JournalEvent) : Prop := {
  tally_audited : Forall (audited plan launch_id controller_instance) done;
  tally_backed : ∀ k slot p, slots_of t k !! slot = Some p → ob_slot p = slot ∧
    ∃ r binding, r ∈ done ∧ counts r binding (ob_epoch p) ∧ b_obligation binding = k ∧ alive_as r p;
  tally_linux : ∀ k slot p, slots_of t k !! slot = Some p → linux_slots t !! linux_key p = Some slot;
  tally_covered : ∀ r binding, r ∈ done → counts r binding (record_epoch r) →
    ∃ p, slots_of t (b_obligation binding) !! process_slot (event_process r) = Some p ∧ alive_as r p;
  tally_accounted : gathered t ≡ₚ _evidence_record <$> done;
}.

Lemma no_tally_ok : tally_ok no_tally [].
Proof.
  assert (∀ k slot, slots_of no_tally k !! slot = None) as Hnone
    by (intros; unfold slots_of; cbn; by rewrite !lookup_empty).
  split; [done|intros ??? E; by rewrite Hnone in E..|by intros ?? ?%elem_of_nil|].
  unfold gathered. cbn [other_records effect_records stale_records no_tally app].
  assert (∀ l : list string, concat (records_at ∅ <$> l) = []) as H; [|by rewrite !H].
  intros l. induction l as [|k l IH]; [done|]. rewrite fmap_cons. cbn [concat]. rewrite IH.
  unfold records_at. by rewrite lookup_empty.
Qed.

Lemma records_at_append k e m j :
  records_at (append_to k e m) j = records_at m j ++ (if decide (j = k) then [e] else []).
Proof.
  unfold records_at, append_to. destruct (decide (j = k)) as [->|].
  - by rewrite lookup_insert_eq.
  - by rewrite lookup_insert_ne, app_nil_r.
Qed.

Lemma concat_append k e m l :
  NoDup l → k ∈ l →
  concat (records_at (append_to k e m) <$> l) ≡ₚ e :: concat (records_at m <$> l).
Proof.
  induction 1 as [|j l Hj Hl IH]; [by intros ?%elem_of_nil|]. intros Hk. rewrite !fmap_cons. cbn [concat].
  rewrite records_at_append. destruct (decide (j = k)) as [->|].
  - assert (records_at (append_to k e m) <$> l = records_at m <$> l) as ->.
    { apply list_fmap_ext. intros i x Hx%list_elem_of_lookup_2. rewrite records_at_append, decide_False by congruence.
      apply app_nil_r. }
    by rewrite <-app_assoc, Permutation_middle.
  - rewrite app_nil_r, IH by (apply elem_of_cons in Hk as [?|?]; congruence). symmetry. apply Permutation_middle.
Qed.

Lemma slots_of_insert t k slot p j s er st cb ls ot :
  slots_of (mkTally (<[k := <[slot := p]> (slots_of t k)]> (effects t)) er st cb ls ot) j !! s =
  if decide (j = k ∧ s = slot) then Some p else slots_of t j !! s.
Proof.
  unfold slots_of at 1. cbn [effects]. destruct (decide (j = k)) as [->|Hj].
  - rewrite lookup_insert_eq. cbn [from_option id]. destruct (decide (s = slot)) as [->|Hs].
    + rewrite lookup_insert_eq, decide_True by done. done.
    + rewrite lookup_insert_ne, decide_False by naive_solver. done.
  - rewrite lookup_insert_ne, decide_False by naive_solver. done.
Qed.

Context (keys_unique : NoDup obligations.*1).

Lemma counts_key r binding epoch : counts r binding epoch → b_obligation binding ∈ obligations.*1.
Proof. intros [_ _ (o & Ho & _) _]. apply od_get_elem_of in Ho. apply (list_elem_of_fmap_2 fst _ _ Ho). Qed.

Lemma counts_unique r b b' e e' : counts r b e → counts r b' e' → b = b' ∧ e = e'.
Proof. intros [] []. naive_solver congruence. Qed.

(** A record that takes no slot. *)
Lemma tally_ok_same t t' done r :
  tally_ok t done → audited plan launch_id controller_instance r →
  (∀ binding, ¬ counts r binding (record_epoch r)) →
  (∀ k, slots_of t' k = slots_of t k) → linux_slots t' = linux_slots t →
  gathered t' ≡ₚ _evidence_record r :: gathered t → tally_ok t' (done ++ [r]).
Proof.
  intros [H1 H2 H3 H4 H5] Hr Hno Hs Hl Hg. split.
  - apply Forall_app_2; [done|by constructor].
  - intros k slot p. rewrite Hs. intros (? & r' & b & Hin & ?)%H2. split; [done|]. exists r', b.
    split; [set_solver|done].
  - intros k slot p. rewrite Hs, Hl. apply H3.
  - intros r' b [Hin| ->%list_elem_of_singleton]%elem_of_app Hc; [|by destruct (Hno b)]. rewrite Hs. auto.
  - rewrite Hg, H5, fmap_app. apply Permutation_cons_append.
Qed.

Lemma tallied_ok t t' done r :
  tally_ok t done → audited plan launch_id controller_instance r → tallied t r t' → tally_ok t' (done ++ [r]).
Proof.
  intros Hok Hr Ht. destruct Ht as [Hno|binding epoch Hc Hold|binding p t' Hc Hp Hslot].
  - apply (tally_ok_same t); [done..|]. unfold gathered, other_added. cbn [other_records effect_records stale_records].
    rewrite <-app_assoc. symmetry. apply Permutation_middle.
  - apply (tally_ok_same t); [done|done| |done|done|].
    { intros b Hc'. destruct (counts_unique _ _ _ _ _ Hc Hc'). congruence. }
    unfold gathered, stale_added. cbn [other_records effect_records stale_records].
    rewrite concat_append by eauto using counts_key. by rewrite <-!Permutation_middle.
  - apply take_slot_Ok in Hslot. cbv zeta in Hslot. destruct Hslot as (Hex & Hlin & ->).
    fold (linux_key p) in *. pose proof Hok as [H1 H2 H3 H4 H5]. split.
    + apply Forall_app_2; [done|by constructor].
    + intros k slot q. rewrite slots_of_insert. case_decide as Hd.
      * destruct Hd as [-> ->]. intros [= ->]. split; [done|]. exists r, binding. split; [set_solver|done].
      * intros (? & r' & b & Hin & ?)%H2. split; [done|]. exists r', b. split; [set_solver|done].
    + intros k slot q. rewrite slots_of_insert. cbn [linux_slots]. case_decide as Hd.
      * destruct Hd as [-> ->]. intros [= ->]. apply lookup_insert_eq.
      * intros Hq%H3. destruct (decide (linux_key q = linux_key p)) as [E|E].
        -- rewrite E in *. rewrite lookup_insert_eq. f_equal. symmetry. by apply Hlin.
        -- by rewrite lookup_insert_ne.
    + intros r' b [Hin| ->%list_elem_of_singleton]%elem_of_app Hc'.
      * destruct (H4 r' b Hin Hc') as (q & Hq & Ha). rewrite slots_of_insert. case_decide as Hd; [|by exists q].
        destruct Hd as [E1 E2]. exists p. rewrite E1, E2 in Hq. by rewrite <-(Hex q Hq).
      * destruct (counts_unique _ _ _ _ _ Hc Hc') as [-> _]. exists p. split; [|done].
        rewrite slots_of_insert, (alive_slot _ _ Hp), decide_True by done. done.
    + unfold gathered. cbn [other_records effect_records stale_records].
      rewrite concat_append by eauto using counts_key. cbn [app]. rewrite <-Permutation_middle.
      fold (gathered t). rewrite H5, fmap_app. apply Permutation_cons_append.
Qed.

Lemma audit_records_Ok t o done rest t' o' :
  tally_ok t done → audit_all t rest o = (Ok t', o') →
  tally_ok t' (done ++ rest) ∧ ob_world o' = ob_world o.
Proof.
  revert t o done. induction rest as [|r rest IH]; intros t o done Hok H; cbn [audit_records] in H.
  - apply mret_Ok in H as [-> ->]. by rewrite app_nil_r.
  - apply bind_Ok in H as (t1 & o1 & (Hr & Ht & Hw)%audit_record_Ok & H).
    apply (IH _ _ (done ++ [r])) in H as [H Hw']; [|by eapply tallied_ok].
    by rewrite <-app_assoc, Hw in *.
Qed.
End pass_lemmas.

#[global] Arguments tally_audited {_ _ _ _ _ _ _ _} _.
#[global] Arguments tally_accounted {_ _ _ _ _ _ _ _} _.
#[global] Arguments tally_backed {_ _ _ _ _ _ _ _} _ _ _ _ _.
#[global] Arguments tally_linux {_ _ _ _ _ _ _ _} _ _ _ _ _.
#[global] Arguments tally_covered {_ _ _ _ _ _ _ _} _ _ _ _ _.
#[global] Arguments alive_slot {_ _} _.

(** ** The tables of a plan *)

Lemma dict_by_snoc {K V} `{EqDecision K} (key : V → K) l v :
  dict_by key (l ++ [v]) = od_set (key v) v (dict_by key l).
Proof. unfold dict_by. by rewrite foldl_app. Qed.

Lemma dict_by_NoDup {K V} `{EqDecision K} (key : V → K) l : NoDup (dict_by key l).*1.
Proof. induction l as [|v l IH] using rev_ind; [constructor|]. rewrite dict_by_snoc. by apply od_set_NoDup. Qed.

Lemma dict_by_get {K V} `{EqDecision K} (key : V → K) l k v :
  od_get k (dict_by key l) = Some v → v ∈ l ∧ key v = k.
Proof.
  induction l as [|w l IH] using rev_ind; [done|]. rewrite dict_by_snoc, od_get_set.
  case_decide as Hk; [|set_solver]. intros [= ->]. set_solver.
Qed.

Lemma dict_by_keys {K V} `{EqDecision K} (key : V → K) l k :
  k ∈ (dict_by key l).*1 ↔ ∃ v, v ∈ l ∧ key v = k.
Proof.
  induction l as [|w l IH] using rev_ind.
  - cbn. split; [by intros ?%elem_of_nil|]. by intros (v & ?%elem_of_nil & _).
  - rewrite dict_by_snoc, od_set_keys, IH. setoid_rewrite elem_of_app. setoid_rewrite list_elem_of_singleton.
    split; [|naive_solver]. intros [->|(v & ? & ?)]; eauto.
Qed.

Record bindings_ok (d : list (EntryKey * EntryPointBinding) * list (string * EntryPointBinding))
    (done : list EntryPointBinding) : Prop := {
  by_entry_spec : ∀ e b, od_get e d.1 = Some b ↔ b ∈ done ∧ binding_entry b = e;
  by_obligation_spec : ∀ k b, od_get k d.2 = Some b ↔ b ∈ done ∧ b_obligation b = k;
}.

#[global] Arguments by_entry_spec {_ _} _ _ _.
#[global] Arguments by_obligation_spec {_ _} _ _ _.

Lemma od_get_fresh {K V} `{EqDecision K} (k : K) (d : list (K * V)) v : k ∉ d.*1 → od_get k d ≠ Some v.
Proof. intros Hk%od_get_None. congruence. Qed.

Lemma bind_entry_ok plugins obligations d b d' done :
  bindings_ok d done → bind_entry plugins obligations d b = Ok d' → bindings_ok d' (done ++ [b]).
Proof.
  destruct d as [by_entry by_obligation]. intros [He Ho] H. unfold bind_entry in H.
  apply result_bind_Ok in H as (? & H1%fail_if_Ok & H). apply result_bind_Ok in H as (? & _ & H).
  apply result_bind_Ok in H as (? & _ & [= <-]). bool_inv. cbn [fst snd] in *.
  split; intros k b'; cbn [fst snd]; rewrite od_get_set, elem_of_app, list_elem_of_singleton; case_decide as Hk.
  - subst k. split; [intros [= ->]; auto|]. intros [[Hin| ->] E]; [|done].
    exfalso. apply (od_get_fresh (binding_entry b) by_entry b'); [done|]. by apply He.
  - rewrite He. naive_solver.
  - subst k. split; [intros [= ->]; auto|]. intros [[Hin| ->] E]; [|done].
    exfalso. apply (od_get_fresh (b_obligation b) by_obligation b'); [done|]. by apply Ho.
  - rewrite Ho. naive_solver.
Qed.

Lemma foldR_bindings plugins obligations d done bs d' :
  bindings_ok d done → foldR (bind_entry plugins obligations) d bs = Ok d' → bindings_ok d' (done ++ bs).
Proof.
  revert d done. induction bs as [|b bs IH]; intros d done Hd H; cbn [foldR] in H.
  - injection H as <-. by rewrite app_nil_r.
  - apply result_bind_Ok in H as (d1 & Hb & H). apply (IH _ (done ++ [b])) in H; [by rewrite <-app_assoc in H|].
    by eapply bind_entry_ok.
Qed.

Lemma check_bindings_Ok plan bindings d :
  check_bindings plan bindings = Ok d → bindings_ok d bindings.
Proof.
  unfold check_bindings. cbv zeta. intros H. apply result_bind_Ok in H as (d' & Hd & H).
  apply result_bind_Ok in H as (? & _ & [= <-]).
  apply (foldR_bindings _ _ _ [] _ _) in Hd; [done|]. split; cbn; split; [done| |done|]; by intros [?%elem_of_nil _].
Qed.

(** *** The observed processes in the order of their slots *)

Lemma elem_of_by_slot d p : p ∈ by_slot d ↔ ∃ slot, d !! slot = Some p.
Proof.
  unfold by_slot. rewrite list_elem_of_fmap. setoid_rewrite elem_of_sort_on. split.
  - intros ([slot q] & -> & H%elem_of_map_to_list). by exists slot.
  - intros [slot H]. exists (slot, p). split; [done|]. by apply elem_of_map_to_list.
Qed.

Lemma by_slot_slots d :
  (∀ slot p, d !! slot = Some p → ob_slot p = slot) → NoDup (ob_slot <$> by_slot d).
Proof.
  intros Hd. unfold by_slot. rewrite <-list_fmap_compose.
  assert (ob_slot ∘ snd <$> sort_on fst (map_to_list d) = fst <$> sort_on fst (map_to_list d)) as ->.
  { apply list_fmap_ext. intros i [slot p] H%list_elem_of_lookup_2. apply elem_of_sort_on, elem_of_map_to_list in H.
    by apply Hd. }
  rewrite sort_on_perm. apply NoDup_fst_map_to_list.
Qed.

Lemma required_process_Ok values parsed :
  _required_processes values = Ok parsed → NoDup parsed.*1.
Proof.
  unfold _required_processes. intros H. apply result_bind_Ok in H as (p & _ & H).
  apply result_bind_Ok in H as (? & _ & H). apply result_bind_Ok in H as (? & H1%fail_if_Ok & [= <-]).
  by bool_inv.
Qed.

Lemma elem_of_obligated plan host slot :
  slot ∈ obligated plan host ↔
  ∃ o n, o ∈ EcpaModel.obligations plan ∧ n ∈ required_ordinals o ∧ slot = (host, ob_role o, n).
Proof.
  unfold obligated. rewrite list_elem_of_bind. setoid_rewrite list_elem_of_fmap. naive_solver.
Qed.

(** Equal lengths of a duplicate-free list in another one: the same elements. *)
Lemma NoDup_full {A} (l k : list A) :
  NoDup l → l ⊆ k → (length k ≤ length l)%nat → k ⊆ l.
Proof.
  intros Hl Hs Hn x Hx. assert (l ⊆+ k) as Hsub by (by apply NoDup_submseteq).
  assert (l ≡ₚ k) as -> by (by apply submseteq_length_Permutation). done.
Qed.

Lemma covered_targets (l k : list Slot) :
  NoDup l → NoDup k → l ⊆ k → length l = length k ↔ ∀ s, s ∈ k → s ∈ l.
Proof.
  intros Hl Hk Hs. split.
  - intros E. apply NoDup_full; [done..|]. lia.
  - intros Hall. apply Permutation_length, NoDup_Permutation; [done..|]. intros x. split; [apply Hs|apply Hall].
Qed.

(** ** What a snapshot says *)

(** The process of the slot of [p] was observed: a record of [records] invokes the entry
    point of [binding] in it, and the process of that record was alive, as [p]. *)
Record observed_process (plan : Plan) (local_host : string) (obligation : EvidenceObligation)
    (binding : EntryPointBinding) (required : list Required) (records : list JournalEvent) (p : Observed) : Prop := {
  observed_host : slot_host (ob_slot p) = local_host;
  observed_role : slot_role (ob_slot p) = ob_role obligation;
  observed_ordinal : slot_ordinal (ob_slot p) ∈ required_ordinals obligation;
  observed_required : (ob_slot p, ob_epoch p) ∈ required;
  observed_record : ∃ r, r ∈ records ∧ json_get "event" (je_event r) = JStr "invoked" ∧
    entry_key (sub_object "entry_point" (je_event r)) = binding_entry binding ∧ alive_as r p;
}.

Record obligation_observed (plan : Plan) (local_host : string) (bindings : list EntryPointBinding)
    (required : list Required) (records : list JournalEvent) (k : string) (r : ObligationResult)
    (obligation : EvidenceObligation) (binding : EntryPointBinding) : Prop := {
  oo_obligation : obligation ∈ EcpaModel.obligations plan ∧ obligation_id obligation = k;
  oo_binding : binding ∈ bindings ∧ b_obligation binding = k ∧ or_entry_point r = binding_entry binding;
  oo_plugin : ∃ plugin, plugin ∈ EcpaModel.plugins plan ∧ PluginIdentity_id plugin = b_plugin_id binding ∧
    or_plugin_id r = PluginIdentity_id plugin ∧ or_artifact_digest r = "sha256:" +:+ artifact_sha256 plugin;
  oo_processes : ∀ p, p ∈ or_processes r →
    observed_process plan local_host obligation binding required records p;
  oo_coverage : complete_coverage r = true ↔
    ∀ n, n ∈ required_ordinals obligation →
      ∃ p, p ∈ or_processes r ∧ ob_slot p = (local_host, ob_role obligation, n);
}.

(** The parts of a run that returns. *)
Record observation (root : Root) (expected : Z * Z) (plan : Plan) (launch_id controller : string)
    (bindings : list EntryPointBinding) (values : list json) (local_host : string)
    (o o' : Observer) (s : Snapshot) (required : list Required)
    (d : list (EntryKey * EntryPointBinding) * list (string * EntryPointBinding))
    (records : list JournalEvent) (t : Tally) : Prop := {
  ran_required : _required_processes values = Ok required;
  ran_bindings : bindings_ok d bindings;
  ran_targets : ∀ slot, slot ∈ required.*1 ↔ slot ∈ obligated plan local_host;
  ran_identity : identity_of (dir root (ob_world o)) = expected ∧ sn_directory s = expected;
  ran_listing : listing (dir root (ob_world o)) records;
  ran_dirs : same_dirs (ob_world o) (ob_world o');
  ran_tally : tally_ok plan launch_id controller (dict_by obligation_id (EcpaModel.obligations plan)) d.1 required
                t records;
  ran_results : Forall2 (λ ob r, obligation_result controller (dict_by PluginIdentity_id (EcpaModel.plugins plan))
                                   d.2 required t ob = Ok r)
                  (dict_by obligation_id (EcpaModel.obligations plan)) (sn_obligations s);
  ran_snapshot : sn_audited s = length records ∧ sn_other_records s = other_records t ∧
    sn_plan_id s = Plan_plan_id plan ∧ sn_launch_id s = launch_id ∧
    sn_processes s = by_slot (all_effects (dict_by obligation_id (EcpaModel.obligations plan)) t);
}.

#[global] Arguments ran_required {_ _ _ _ _ _ _ _ _ _ _ _ _ _ _} _.
#[global] Arguments ran_bindings {_ _ _ _ _ _ _ _ _ _ _ _ _ _ _} _.
#[global] Arguments ran_targets {_ _ _ _ _ _ _ _ _ _ _ _ _ _ _} _.
#[global] Arguments ran_listing {_ _ _ _ _ _ _ _ _ _ _ _ _ _ _} _.
#[global] Arguments ran_tally {_ _ _ _ _ _ _ _ _ _ _ _ _ _ _} _.
#[global] Arguments ran_results {_ _ _ _ _ _ _ _ _ _ _ _ _ _ _} _.
#[global] Arguments ran_snapshot {_ _ _ _ _ _ _ _ _ _ _ _ _ _ _} _.

Lemma stat_root_Ok root o d o' :
  stat_root root o = (Ok d, o') → d = dir root (ob_world o) ∧ same_dirs (ob_world o) (ob_world o').
Proof.
  unfold stat_root. destruct (sys_read _ (ob_world o)) as [[d'|e] w] eqn:E; [|done]. intros [= -> <-].
  apply sys_read_Ok in E as [H Hd]. cbn [ob_world]. split; [|done].
  rewrite (Hd root) in H. case_decide; [done|congruence].
Qed.

Lemma observe_Ok root expected plan launch_id controller bindings values local_host o s o' :
  observe_bound_invocations root expected plan launch_id controller bindings values local_host o = (Ok s, o') →
  ∃ required d records t,
    observation root expected plan launch_id controller bindings values local_host o o' s required d records t.
Proof.
  intros H. unfold observe_bound_invocations in H.
  apply bind_Ok in H as (required & o1 & [Hreq ->]%lift_Ok & H).
  apply bind_Ok in H as ([] & o2 & [_ ->]%lift_fail_Ok & H). cbv zeta in H.
  apply bind_Ok in H as ([by_entry by_obligation] & o3 & [Hb%check_bindings_Ok ->]%lift_Ok & H).
  apply bind_Ok in H as ([] & o4 & [Htargets ->]%lift_fail_Ok & H).
  apply bind_Ok in H as ([] & o5 & [_ ->]%lift_fail_Ok & H).
  apply bind_Ok in H as (metadata & o6 & [-> D1]%stat_root_Ok & H).
  apply bind_Ok in H as ([] & o7 & [Hid ->]%lift_fail_Ok & H). bool_inv.
  apply bind_Ok in H as (records & o8 & (w & Hread & Ew)%from_journal_Ok & H).
  apply read_events_sound in Hread as [D2 Hlist]. rewrite (D1 root) in Hlist. subst w.
  apply bind_Ok in H as (t & o9 & Hall & H).
  apply audit_records_Ok with (done := []) in Hall as [Ht Ew]; [|apply dict_by_NoDup|apply no_tally_ok].
  apply bind_Ok in H as (results & o10 & [Hres%mapR_Ok ->]%lift_Ok & H). apply mret_Ok in H as [-> ->].
  exists required, (by_entry, by_obligation), records, t. split; cbn -[dir]; try done.
  - intros slot. rewrite <-!(elem_of_list_to_set (C := gset Slot)). by rewrite Htargets.
  - intros r. rewrite Ew, (D2 r). apply D1.
Qed.

Lemma obligation_result_Ok controller plugins by_obligation required t k obligation k' r :
  obligation_result controller plugins by_obligation required t (k, obligation) = Ok (k', r) →
  k' = k ∧ ∃ binding plugin, od_get k by_obligation = Some binding ∧
    od_get (b_plugin_id binding) plugins = Some plugin ∧ targets required obligation ≠ [] ∧
    or_plugin_id r = PluginIdentity_id plugin ∧ or_artifact_digest r = "sha256:" +:+ artifact_sha256 plugin ∧
    or_entry_point r = binding_entry binding ∧ or_effect_records r = records_at (effect_records t) k ∧
    or_stale_records r = records_at (stale_records t) k ∧ or_processes r = by_slot (slots_of t k) ∧
    or_coverage r = (length (or_processes r), length (targets required obligation)).
Proof.
  unfold obligation_result. intros H. destruct (od_get k by_obligation) as [binding|] eqn:Hb; [|done].
  destruct (od_get (b_plugin_id binding) plugins) as [plugin|] eqn:Hp; [|done]. cbv zeta in H.
  apply result_bind_Ok in H as (? & Hz%raise_if_Ok & [= <- <-]). apply Nat.eqb_neq in Hz.
  split; [done|]. exists binding, plugin. split_and!; try done. intros E. by rewrite E in Hz.
Qed.

Lemma target_slots plan local_host required obligation slot :
  (∀ slot, slot ∈ required.*1 ↔ slot ∈ obligated plan local_host) → obligation ∈ EcpaModel.obligations plan →
  slot ∈ (targets required obligation).*1 ↔
  ∃ n, n ∈ required_ordinals obligation ∧ slot = (local_host, ob_role obligation, n).
Proof.
  intros Ht Hob.
  unfold targets. rewrite list_elem_of_fmap. setoid_rewrite list_elem_of_filter. split.
  - intros ([slot' epoch] & -> & [Hr Hn] & Hin). cbn [fst] in *.
    apply (list_elem_of_fmap_2 fst), Ht, elem_of_obligated in Hin as (? & n & _ & _ & E). cbn [fst] in E. subst slot'.
    cbn in Hr, Hn. exists n. by rewrite Hr.
  - intros (n & Hn & ->). assert ((local_host, ob_role obligation, n) ∈ required.*1) as Hin
      by (apply Ht, elem_of_obligated; eauto).
    apply list_elem_of_fmap in Hin as ([slot epoch] & E & Hin). cbn [fst] in E. subst slot.
    by exists (local_host, ob_role obligation, n, epoch).
Qed.

Section ran.
Context {root : Root} {expected : Z * Z} {plan : Plan} {launch_id controller local_host : string}
  {bindings : list EntryPointBinding} {values : list json} {o o' : Observer} {s : Snapshot}
  {required : list Required} {d : list (EntryKey * EntryPointBinding) * list (string * EntryPointBinding)}
  {records : list JournalEvent} {t : Tally}.
Context (Hran : observation root expected plan launch_id controller bindings values local_host o o' s required d
                  records t).

Notation obligations := (dict_by obligation_id (EcpaModel.obligations plan)).

Lemma ran_result k r :
  (k, r) ∈ sn_obligations s → ∃ obligation, od_get k obligations = Some obligation ∧
    obligation_result controller (dict_by PluginIdentity_id (EcpaModel.plugins plan)) d.2 required t (k, obligation) =
    Ok (k, r).
Proof.
  intros Hin. destruct Hran as [_ _ _ _ _ _ _ Hres _].
  apply list_elem_of_lookup in Hin as [i Hi]. destruct (Forall2_lookup_r _ _ _ _ _ Hres Hi) as ([k' obligation] & Hk & H).
  pose proof (obligation_result_Ok _ _ _ _ _ _ _ _ _ H) as [<- _]. exists obligation. split; [|done].
  apply od_get_NoDup; [apply dict_by_NoDup|]. by eapply list_elem_of_lookup_2.
Qed.

Lemma ran_all ob : ob ∈ EcpaModel.obligations plan → obligation_id ob ∈ (sn_obligations s).*1.
Proof.
  intros Hin. assert (obligation_id ob ∈ obligations.*1) as Hk by (apply dict_by_keys; eauto).
  destruct Hran as [_ _ _ _ _ _ _ Hres _].
  assert ((sn_obligations s).*1 = obligations.*1) as ->; [|done]. symmetry.
  clear -Hres. induction Hres as [|[k ob] [k' r] l l' H _ IH]; [done|].
  apply obligation_result_Ok in H as [<- _]. by rewrite !fmap_cons, IH.
Qed.

Lemma observed_backed k p :
  p ∈ by_slot (slots_of t k) →
  ∃ obligation binding, od_get k obligations = Some obligation ∧ binding ∈ bindings ∧ b_obligation binding = k ∧
    observed_process plan local_host obligation binding required records p.
Proof.
  intros [slot Hp]%elem_of_by_slot. pose proof (ran_tally Hran) as Ht.
  destruct (tally_backed Ht k slot p Hp) as (<- & r & binding & Hr & Hc & <- & Ha).
  destruct Hc as [Hinv Hentry (obligation & Hob & Hrole & Hord) Hepoch].
  apply (by_entry_spec (ran_bindings Hran)) in Hentry as [Hb Hentry].
  rewrite (alive_slot Ha) in *. apply od_get_elem_of in Hepoch.
  exists obligation, binding. split_and!; [done..|]. split; [|done|done|done|].
  - apply (list_elem_of_fmap_2 fst) in Hepoch.
    apply (ran_targets Hran), elem_of_obligated in Hepoch as (? & ? & _ & _ & E).
    cbn [fst] in E. by rewrite E.
  - exists r. by split_and!.
Qed.

Lemma slots_NoDup k : NoDup (ob_slot <$> by_slot (slots_of t k)).
Proof.
  apply by_slot_slots. intros slot p Hp.
  apply (tally_backed (ran_tally Hran)) in Hp. apply Hp.
Qed.

Lemma ran_obligation k r :
  (k, r) ∈ sn_obligations s →
  ∃ obligation binding, obligation_observed plan local_host bindings required records k r obligation binding.
Proof.
  intros (obligation & Hob & Hres)%ran_result.
  apply obligation_result_Ok in Hres as (_ & binding & plugin & Hb & Hp & _ & H1 & H2 & H3 & _ & _ & H4 & H5).
  apply dict_by_get in Hob as Hob'. apply dict_by_get in Hp as [Hp Hpid].
  apply (by_obligation_spec (ran_bindings Hran)) in Hb as [Hb Hbk].
  exists obligation, binding. split; [done|done|by exists plugin| |].
  - intros p. rewrite H4. intros (ob' & b' & Hob2 & Hb' & Hbk' & Hproc)%observed_backed.
    assert (ob' = obligation) as -> by congruence. assert (b' = binding) as ->; [|done].
    destruct (ran_bindings Hran) as [_ Hspec].
    pose proof (proj2 (Hspec k b') (conj Hb' Hbk')). pose proof (proj2 (Hspec k binding) (conj Hb Hbk)). congruence.
  - unfold complete_coverage. rewrite H5, Nat.eqb_eq. cbn [fst snd].
    rewrite H4, <-(length_fmap ob_slot), <-(length_fmap fst (targets _ _)).
    assert (ob_slot <$> by_slot (slots_of t k) ⊆ (targets required obligation).*1) as Hsub.
    { intros slot (p & -> & (ob' & b' & Hob2 & _ & _ & Hproc)%observed_backed)%list_elem_of_fmap.
      assert (ob' = obligation) as -> by congruence. destruct Hproc as [Hh Hr Hn _ _].
      apply (target_slots plan local_host); [apply (ran_targets Hran)|apply Hob'|]. exists (slot_ordinal (ob_slot p)). split; [done|].
      rewrite <-Hh, <-Hr. by destruct (ob_slot p) as [[]]. }
    rewrite covered_targets; [|apply slots_NoDup| |done].
    2:{ unfold targets. eapply sublist_NoDup; [|apply fmap_sublist, sublist_filter].
        apply (required_process_Ok values), (ran_required Hran). }
    split.
    + intros Hall n Hn. assert ((local_host, ob_role obligation, n) ∈ (targets required obligation).*1) as Hin
        by (apply (target_slots plan local_host); [apply (ran_targets Hran)|apply Hob'|eauto]).
      apply Hall, list_elem_of_fmap in Hin as (p & E & Hin). by exists p.
    + intros Hall slot Hslot. apply (target_slots plan local_host) in Hslot as (n & Hn & ->); [|apply (ran_targets Hran)|apply Hob']. destruct (Hall n Hn) as (p & Hin & <-).
      by apply list_elem_of_fmap_2.
Qed.
End ran.

(** A journal line whose process counts for [binding] now: it invokes the binding's entry
    point in a target slot, at the epoch the slot requires. *)
Definition current_invocation (plan : Plan) (bindings : list EntryPointBinding) (required : list Required)
    (r : JournalEvent) (binding : EntryPointBinding) : Prop :=
  binding ∈ bindings ∧ json_get "event" (je_event r) = JStr "invoked" ∧
  entry_key (sub_object "entry_point" (je_event r)) = binding_entry binding ∧
  (process_slot (event_process r), record_epoch r) ∈ required ∧
  (∃ obligation, od_get (b_obligation binding) (dict_by obligation_id (EcpaModel.obligations plan)) = Some obligation ∧
     slot_role (process_slot (event_process r)) = ob_role obligation ∧
     slot_ordinal (process_slot (event_process r)) ∈ required_ordinals obligation).

Definition snapshot_records (s : Snapshot) : list EvidenceRecord :=
  sn_other_records s ++ concat ((λ p, or_effect_records p.2) <$> sn_obligations s) ++
  concat ((λ p, or_stale_records p.2) <$> sn_obligations s).

Section ran_records.
Context {root : Root} {expected : Z * Z} {plan : Plan} {launch_id controller local_host : string}
  {bindings : list EntryPointBinding} {values : list json} {o o' : Observer} {s : Snapshot}
  {required : list Required} {d : list (EntryKey * EntryPointBinding) * list (string * EntryPointBinding)}
  {records : list JournalEvent} {t : Tally}.
Context (Hran : observation root expected plan launch_id controller bindings values local_host o o' s required d
                  records t).

Lemma ran_accounted : snapshot_records s ≡ₚ _evidence_record <$> records.
Proof.
  rewrite <-(tally_accounted (ran_tally Hran)). unfold snapshot_records, gathered.
  destruct (ran_snapshot Hran) as (_ & -> & _). pose proof (ran_results Hran) as Hres. do 2 f_equiv.
  - clear -Hres. induction Hres as [|[k ob] [k' r] l l' H _ IH]; [done|].
    apply obligation_result_Ok in H as [-> (? & ? & _ & _ & _ & _ & _ & _ & H & _)].
    rewrite !fmap_cons. cbn [concat fst snd]. by rewrite IH, H.
  - clear -Hres. induction Hres as [|[k ob] [k' r] l l' H _ IH]; [done|].
    apply obligation_result_Ok in H as [-> (? & ? & _ & _ & _ & _ & _ & _ & _ & H & _)].
    rewrite !fmap_cons. cbn [concat fst snd]. by rewrite IH, H.
Qed.

Lemma ran_processes k r : (k, r) ∈ sn_obligations s → or_processes r = by_slot (slots_of t k).
Proof.
  intros (ob & _ & H)%(ran_result Hran).
  by apply obligation_result_Ok in H as [_ (? & ? & _ & _ & _ & _ & _ & _ & _ & _ & H & _)].
Qed.

Lemma ran_linux k r k' r' p p' :
  (k, r) ∈ sn_obligations s → (k', r') ∈ sn_obligations s → p ∈ or_processes r → p' ∈ or_processes r' →
  linux_key p = linux_key p' → ob_slot p = ob_slot p'.
Proof.
  intros Hk Hk' Hp Hp' E. rewrite (ran_processes _ _ Hk) in Hp. rewrite (ran_processes _ _ Hk') in Hp'.
  apply elem_of_by_slot in Hp as [slot Hp], Hp' as [slot' Hp']. pose proof (ran_tally Hran) as Ht.
  pose proof (tally_linux Ht _ _ _ Hp) as H1. pose proof (tally_linux Ht _ _ _ Hp') as H2.
  apply (tally_backed Ht) in Hp as [<- _], Hp' as [<- _]. congruence.
Qed.

Lemma ran_covered r binding :
  r ∈ records → current_invocation plan bindings required r binding →
  ∃ result p, (b_obligation binding, result) ∈ sn_obligations s ∧ p ∈ or_processes result ∧ alive_as r p.
Proof.
  intros Hr (Hb & Hinv & Hentry & Hepoch & obligation & Hob & Hrole & Hord).
  destruct (tally_covered (ran_tally Hran) r binding Hr) as (p & Hp & Ha).
  { split; [done| |by exists obligation|].
    - by apply (by_entry_spec (ran_bindings Hran)).
    - apply od_get_NoDup; [|done]. apply (required_process_Ok values), (ran_required Hran). }
  assert (b_obligation binding ∈ (sn_obligations s).*1) as ([k result] & Ek & Hin)%list_elem_of_fmap.
  { apply dict_by_get in Hob as [Hob <-]. by apply (ran_all Hran). }
  cbn [fst] in Ek. subst k. exists result, p. split_and!; [done| |done].
  rewrite (ran_processes _ _ Hin). apply elem_of_by_slot. eauto.
Qed.

Lemma ran_all_effects p :
  p ∈ sn_processes s → ∃ k r, (k, r) ∈ sn_obligations s ∧ p ∈ or_processes r.
Proof.
  destruct (ran_snapshot Hran) as (_ & _ & _ & _ & ->). intros [slot Hp]%elem_of_by_slot.
  unfold all_effects in Hp.
  assert (∀ (l : list (string * EvidenceObligation)) (d : gmap Slot Observed), foldl (λ d o, slots_of t o.1 ∪ d) d l !! slot = Some p →
            d !! slot = Some p ∨ ∃ ob, ob ∈ l ∧ slots_of t ob.1 !! slot = Some p) as Hfold.
  { induction l as [|ob l IH]; intros d0 H; [by left|]. cbn [foldl] in H.
    apply IH in H as [H|(ob' & Hin & H)]; [|right; set_solver].
    apply lookup_union_Some_raw in H as [H|[_ H]]; [right; set_solver|by left]. }
  apply Hfold in Hp as [Hp|([k ob] & Hin & Hp)]; [by rewrite lookup_empty in Hp|].
  pose proof (list_elem_of_fmap_2 fst _ _ Hin) as Hk. cbn [fst] in *.
  apply dict_by_keys in Hk as (ob' & Hob & <-). apply (ran_all Hran) in Hob as Hk.
  apply list_elem_of_fmap in Hk as ([k r] & E & Hk). cbn [fst] in E. subst k.
  exists (obligation_id ob'), r. split; [done|]. rewrite (ran_processes _ _ Hk). apply elem_of_by_slot. eauto.
Qed.
End ran_records.

(** C30: A snapshot of observe_bound_invocations lists every obligation of the plan, and
    every process it names as observed is of a target slot on the local host at its
    required epoch, has a journal line that invokes the entry point bound to the
    obligation in that slot, and was alive with that pid, start time and arguments when
    looked up in /proc; an obligation is completely covered exactly when each of its
    ordinals has such a process; and one Linux process never stands for two slots,
    across all obligations. *)
Theorem snapshot_backed_by_live_processes (root : Root) (expected : Z * Z) (plan : Plan)
    (launch_id controller : string) (bindings : list EntryPointBinding) (values : list json)
    (local_host : string) (o o' : Observer) (s : Snapshot) :
  observe_bound_invocations root expected plan launch_id controller bindings values local_host o = (Ok s, o') →
  ∃ required records, _required_processes values = Ok required ∧ listing (dir root (ob_world o)) records ∧
    identity_of (dir root (ob_world o)) = expected ∧
    (∀ ob, ob ∈ EcpaModel.obligations plan → obligation_id ob ∈ (sn_obligations s).*1) ∧
    (∀ k r, (k, r) ∈ sn_obligations s → ∃ obligation binding,
       obligation_observed plan local_host bindings required records k r obligation binding) ∧
    (∀ p, p ∈ sn_processes s → ∃ k r, (k, r) ∈ sn_obligations s ∧ p ∈ or_processes r) ∧
    (∀ k r k' r' p p', (k, r) ∈ sn_obligations s → (k', r') ∈ sn_obligations s →
       p ∈ or_processes r → p' ∈ or_processes r' → linux_key p = linux_key p' → ob_slot p = ob_slot p').
Proof.
  intros (required & d & records & t & Hran)%observe_Ok. exists required, records.
  split_and!; [apply (ran_required Hran)|apply (ran_listing Hran)|apply Hran|apply (ran_all Hran)
              |apply (ran_obligation Hran)|apply (ran_all_effects Hran)|].
  intros k r k' r' p p'. apply (ran_linux Hran).
Qed.

(** Every line of the journals is in a snapshot exactly once, as effect, stale or other
    evidence with its bytes and digest; all of them were bound to the plan, the launch
    and, for the scheduler's, the controller; a line that invokes a bound entry point in
    a target slot at the required epoch has its live process among those of its
    obligation; and observing changes no directory. *)
Theorem snapshot_accounts_for_every_line (root : Root) (expected : Z * Z) (plan : Plan)
    (launch_id controller : string) (bindings : list EntryPointBinding) (values : list json)
    (local_host : string) (o o' : Observer) (s : Snapshot) :
  observe_bound_invocations root expected plan launch_id controller bindings values local_host o = (Ok s, o') →
  ∃ required records, _required_processes values = Ok required ∧ listing (dir root (ob_world o)) records ∧
    sn_audited s = length records ∧ snapshot_records s ≡ₚ _evidence_record <$> records ∧
    Forall (audited plan launch_id controller) records ∧
    (∀ r binding, r ∈ records → current_invocation plan bindings required r binding →
       ∃ result p, (b_obligation binding, result) ∈ sn_obligations s ∧ p ∈ or_processes result ∧ alive_as r p) ∧
    same_dirs (ob_world o) (ob_world o').
Proof.
  intros (required & d & records & t & Hran)%observe_Ok. exists required, records.
  split_and!; [apply (ran_required Hran)|apply (ran_listing Hran)|apply (ran_snapshot Hran)|apply (ran_accounted Hran)
              |apply (tally_audited (ran_tally Hran))|apply (ran_covered Hran)|apply Hran].
Qed.

(** ** Errors *)

Definition fails_with {A} (P : observer_exn → Prop) (m : obs A) : Prop := ∀ o e o', m o = (Raise e, o') → P e.

Lemma fails_bind {A B} P (m : obs A) (f : A → obs B) :
  fails_with P m → (∀ a, fails_with P (f a)) → fails_with P (m ≫= f).
Proof.
  intros Hm Hf o e o'. unfold mbind, method_bind. destruct (m o) as [[a|e0] o1] eqn:E.
  - apply Hf.
  - intros [= -> ->]. by eapply Hm.
Qed.
Lemma fails_lift {A} (P : observer_exn → Prop) (r : result observer_exn A) :
  raises_only P r → fails_with P (lift r : obs A).
Proof. intros Hr o e o' [= H _]. by apply Hr. Qed.
Lemma fails_ret {A} P (a : A) : fails_with P (mret a : obs A).
Proof. done. Qed.

Definition refusal (e : observer_exn) : Prop :=
  (∃ detail, e = HostObservationError detail) ∨ ∃ j, e = JournalExn j.

Lemma refusal_here detail : refusal (HostObservationError detail).
Proof. left. eauto. Qed.
#[local] Hint Resolve refusal_here : raises.

Lemma fail_if_raises b d : raises_only refusal (fail_if b d).
Proof. unfold fail_if. solve_raises. Qed.
#[local] Hint Resolve fail_if_raises : raises.

Lemma fails_raise {A} P e : P e → fails_with P (raise e : obs A).
Proof. by intros H o e' o' [= <- _]. Qed.

Lemma fails_read pid file : fails_with refusal (read_proc pid file).
Proof. intros o e o'. unfold read_proc. destruct (proc_read _ _ _); intros; simplify_eq. eauto with raises. Qed.

Lemma parse_stat_raises raw : raises_only refusal (parse_linux_start_ticks raw).
Proof. unfold parse_linux_start_ticks. solve_raises. Qed.
#[local] Hint Resolve parse_stat_raises : raises.

Lemma fails_identity pid start : fails_with refusal (read_linux_process_identity pid start).
Proof.
  unfold read_linux_process_identity.
  repeat first [apply fails_bind; [first [apply fails_read|apply fails_lift; eauto with raises]|intros ?]
               |apply fails_ret].
Qed.

(** A binding of the plan: its plugin and its obligation are there. *)
Definition known (plan : Plan) (b : EntryPointBinding) : Prop :=
  b_plugin_id b ∈ (dict_by PluginIdentity_id (EcpaModel.plugins plan)).*1 ∧
  b_obligation b ∈ (dict_by obligation_id (EcpaModel.obligations plan)).*1.

Lemma foldR_known plan d bs d' :
  foldR (bind_entry (dict_by PluginIdentity_id (EcpaModel.plugins plan))
           (dict_by obligation_id (EcpaModel.obligations plan))) d bs = Ok d' → Forall (known plan) bs.
Proof.
  revert d. induction bs as [|b bs IH]; intros [by_entry by_obligation] H; [constructor|]. cbn [foldR] in H.
  apply result_bind_Ok in H as (d1 & Hb & H). constructor; [|by eapply IH]. unfold bind_entry in Hb.
  apply result_bind_Ok in Hb as (? & _ & Hb). apply result_bind_Ok in Hb as (? & H2%fail_if_Ok & Hb).
  apply result_bind_Ok in Hb as (? & H3%fail_if_Ok & _). bool_inv. split; [done|].
  destruct (od_get (b_obligation b) _) as [ob|] eqn:E; [|done]. apply od_get_elem_of in E.
  apply (list_elem_of_fmap_2 fst _ _ E).
Qed.

Lemma check_bindings_known plan bindings d :
  check_bindings plan bindings = Ok d →
  Forall (known plan) bindings ∧
  ∀ k, k ∈ (dict_by obligation_id (EcpaModel.obligations plan)).*1 → k ∈ d.2.*1.
Proof.
  unfold check_bindings. cbv zeta. intros H. apply result_bind_Ok in H as (d' & Hd & H).
  apply result_bind_Ok in H as (? & Hk%fail_if_Ok & [= <-]). bool_inv. split; [by eapply foldR_known|].
  intros k Hin. apply (elem_of_list_to_set (C := gset string)). rewrite Hk. by apply elem_of_list_to_set.
Qed.

Lemma bind_entry_raises plugins obligations d b : raises_only refusal (bind_entry plugins obligations d b).
Proof. unfold bind_entry. destruct d. solve_raises. Qed.

Lemma check_bindings_raises plan bindings : raises_only refusal (check_bindings plan bindings).
Proof.
  unfold check_bindings. cbv zeta. apply raises_only_bind; [|intros ? ?; solve_raises].
  apply raises_only_foldR. intros. apply bind_entry_raises.
Qed.

Lemma required_raises values : raises_only refusal (_required_processes values).
Proof. unfold _required_processes, required_process. solve_raises. Qed.

Lemma take_slot_raises t k r p : raises_only refusal (take_slot t k r p).
Proof. unfold take_slot. solve_raises. Qed.

Lemma fails_audit plan launch_id controller obligations by_entry required t r :
  (∀ e b, od_get e by_entry = Some b → b_obligation b ∈ obligations.*1) →
  fails_with refusal (audit_record plan launch_id controller obligations by_entry required t r).
Proof.
  intros Hb. unfold audit_record. cbv zeta.
  do 2 (apply fails_bind; [apply fails_lift, fail_if_raises|intros _]).
  destruct (od_get (entry_key _) by_entry) as [b|] eqn:Eb; [|apply fails_ret].
  destruct (json_eqb _ _); [|apply fails_ret].
  destruct (od_get (b_obligation b) obligations) as [ob|] eqn:Eo.
  2:{ exfalso. apply od_get_None in Eo. eauto. }
  destruct (od_get (process_slot _) required) as [epoch|]; [|apply fails_raise, refusal_here].
  apply fails_bind; [apply fails_lift, fail_if_raises|intros _].
  destruct (integer_of _ =? epoch)%Z; [|apply fails_ret].
  apply fails_bind; [apply fails_identity|intros p]. apply fails_lift, take_slot_raises.
Qed.

Lemma fails_audit_all plan launch_id controller obligations by_entry required t rs :
  (∀ e b, od_get e by_entry = Some b → b_obligation b ∈ obligations.*1) →
  fails_with refusal (audit_records plan launch_id controller obligations by_entry required t rs).
Proof.
  intros Hb. revert t. induction rs as [|r rs IH]; intros t; cbn [audit_records]; [apply fails_ret|].
  apply fails_bind; [by apply fails_audit|done].
Qed.

Lemma fails_stat root : fails_with refusal (stat_root root).
Proof.
  intros o e o'. unfold stat_root. destruct (sys_read _ _) as [[d|e0] w]; [done|]. intros [= <- _].
  destruct (is_os_error e0); [apply refusal_here|right; eauto].
Qed.

Lemma fails_journal {A} (m : jop A) : fails_with refusal (from_journal m).
Proof.
  intros o e o'. unfold from_journal. destruct (m _) as [[a|e0] w]; [done|]. intros [= <- _]. right. eauto.
Qed.

(** An obligation without ordinals has no target to divide by. *)
Definition result_refusal (plan : Plan) (e : observer_exn) : Prop :=
  refusal e ∨ (e = ZeroDivisionError ∧ ∃ ob, ob ∈ EcpaModel.obligations plan ∧ required_ordinals ob = []).

Lemma result_raises plan local_host controller by_obligation required bindings t k ob :
  (∀ slot, slot ∈ required.*1 ↔ slot ∈ obligated plan local_host) →
  (∀ k b, od_get k by_obligation = Some b → b ∈ bindings) → Forall (known plan) bindings →
  k ∈ by_obligation.*1 → ob ∈ EcpaModel.obligations plan →
  raises_only (result_refusal plan)
    (obligation_result controller (dict_by PluginIdentity_id (EcpaModel.plugins plan)) by_obligation required t (k, ob)).
Proof.
  intros Ht Hb Hknown Hk Hob e. unfold obligation_result.
  destruct (od_get k by_obligation) as [b|] eqn:Eb; [|by apply od_get_None in Eb].
  rewrite Forall_forall in Hknown. destruct (Hknown b (Hb _ _ Eb)) as [Hp _].
  destruct (od_get (b_plugin_id b) _) as [plugin|] eqn:Ep; [|by apply od_get_None in Ep].
  cbv zeta. destruct (length (targets required ob) =? 0)%nat eqn:El; [|done]. intros [= <-].
  right. split; [done|]. exists ob. split; [done|]. apply Nat.eqb_eq, length_zero_iff_nil in El.
  destruct (required_ordinals ob) as [|n ns] eqn:En; [done|]. exfalso.
  assert ((local_host, ob_role ob, n) ∈ (targets required ob).*1) as Hin.
  { apply (target_slots plan local_host required ob); [done..|]. exists n. rewrite En. split; [by left|done]. }
  rewrite El in Hin. by apply elem_of_nil in Hin.
Qed.

Lemma fails_weaken {A} (P Q : observer_exn → Prop) (m : obs A) :
  fails_with P m → (∀ e, P e → Q e) → fails_with Q m.
Proof. intros Hm HPQ o e o' H. eapply HPQ, Hm, H. Qed.

Lemma fails_lift_bind {A B} P (r : result observer_exn A) (f : A → obs B) :
  raises_only P r → (∀ a, r = Ok a → fails_with P (f a)) → fails_with P (lift r ≫= f).
Proof.
  intros Hr Hf. destruct r as [a|e]; [by apply Hf|]. intros o e' o' [= <- _]. by apply Hr.
Qed.

Lemma fails_observe root expected plan launch_id controller bindings values local_host :
  fails_with (result_refusal plan)
    (observe_bound_invocations root expected plan launch_id controller bindings values local_host).
Proof.
  assert (∀ A (r : result observer_exn A), raises_only refusal r → raises_only (result_refusal plan) r) as Hweak
    by (intros A r Hr e He; left; by apply Hr).
  assert (∀ A (m : obs A), fails_with refusal m → fails_with (result_refusal plan) m) as Hfails
    by (intros A m Hm; eapply fails_weaken; [exact Hm|by left]).
  unfold observe_bound_invocations. cbv zeta.
  apply fails_lift_bind; [apply Hweak, required_raises|intros required _].
  apply fails_lift_bind; [apply Hweak, fail_if_raises|intros _ _].
  apply fails_lift_bind; [apply Hweak, check_bindings_raises|intros [by_entry by_obligation] Hb].
  pose proof (check_bindings_Ok _ _ _ Hb) as [He Ho]. apply check_bindings_known in Hb as [Hknown Hkeys].
  cbn [fst snd] in *.
  apply fails_lift_bind; [apply Hweak, fail_if_raises|intros _ Htargets%fail_if_Ok]. bool_inv.
  apply fails_lift_bind; [apply Hweak, fail_if_raises|intros _ _].
  apply fails_bind; [apply Hfails, fails_stat|intros metadata].
  apply fails_lift_bind; [apply Hweak, fail_if_raises|intros _ _].
  apply fails_bind; [apply Hfails, fails_journal|intros records].
  apply fails_bind; [apply Hfails, fails_audit_all|intros t].
  { intros k b [Hin _]%He. rewrite Forall_forall in Hknown. by apply Hknown. }
  apply fails_lift_bind; [|intros results _; apply fails_ret].
  apply raises_only_mapR. intros [k ob] Hin.
  assert (od_get k (dict_by obligation_id (EcpaModel.obligations plan)) = Some ob) as Hk
    by (apply od_get_NoDup; [apply dict_by_NoDup|done]).
  apply (result_raises plan local_host) with (bindings := bindings); [| |done| |by apply dict_by_get in Hk as []].
  - intros slot. rewrite <-!(elem_of_list_to_set (C := gset Slot)). by rewrite Htargets.
  - intros k' b [Hb _]%Ho. done.
  - apply Hkeys, (list_elem_of_fmap_2 fst _ _ Hin).
Qed.

(** C32: observe_bound_invocations fails only with HostObservationError, with an error
    of reading the journals, or with ZeroDivisionError, which needs an obligation of the
    plan that requires no ordinal; it never raises KeyError. *)
Theorem observer_errors (root : Root) (expected : Z * Z) (plan : Plan) (launch_id controller : string)
    (bindings : list EntryPointBinding) (values : list json) (local_host : string) (o o' : Observer)
    (e : observer_exn) :
  observe_bound_invocations root expected plan launch_id controller bindings values local_host o = (Raise e, o') →
  (∃ detail, e = HostObservationError detail) ∨ (∃ j, e = JournalExn j) ∨
  (e = ZeroDivisionError ∧ ∃ ob, ob ∈ EcpaModel.obligations plan ∧ required_ordinals ob = []).
Proof. intros [[?|?]|?]%fails_observe; auto. Qed.
End observer.

(** ** One observed worker *)

Module Example.
#[local] Existing Instance SignedAttestation.Example.float_text.
#[local] Existing Instance HostEvidence.Example.no_unicode.

Definition stat_text (ticks : string) : string :=
  "7 (vllm (worker)) S 1 1 1 0 -1 4194304 1 0 0 0 1 1 0 0 20 0 1 0 " +:+ ticks +:+ " 1000 1".
#[local] Instance a_proc : ProcFs := λ _ pid file,
  if (pid =? 7)%Z then
    Some (match file with
          | Stat => stat_text "9"
          | Cmdline => string_of_bytes [112; 121; 0; 45; 109; 0; 255; 0]%N
          end)
  else None.

Example argv_decoded : argv_of (string_of_bytes [112; 121; 0; 0; 255; 0]%N) =
  ["py"; string_of_bytes [237; 179; 191]%N].
Proof. vm_compute. reflexivity. Qed.
Example ticks_parsed :
  parse_linux_start_ticks (stat_text "9") = Ok 9%Z ∧
  parse_linux_start_ticks (stat_text "x") = Raise (HostObservationError "process start ticks are not an integer") ∧
  parse_linux_start_ticks "7 (a) S" = Raise (HostObservationError "process stat is missing start ticks") ∧
  parse_linux_start_ticks "7 (a" = Raise (HostObservationError "process stat has no complete comm field").
Proof. vm_compute. by split_and!. Qed.

Definition a_line : string := Eval vm_compute in HostEvidence.Example.a_raw +:+ newline.
Definition a_world : World :=
  HostJournal.Example.a_world (HostJournal.Example.a_directory {["w.jsonl" := HostJournal.Example.owned a_line]}).
Definition a_plan : Plan := HostEvidence.Example.a_plan.
Definition a_binding : EntryPointBinding := HostEvidence.Example.a_binding.
Definition a_required : json :=
  JObj [("host", JStr "node"); ("role", JStr "worker"); ("ordinal", JInt 0); ("process_epoch", JInt 1)].

Notation observe p bindings w :=
  (observe_bound_invocations Source (1, 10)%Z p "launch-1" "controller" bindings [a_required] "node"
     (mkObserver w 0)) (only parsing).

Definition the_snapshot : Snapshot := Eval vm_compute in
  match observe a_plan [a_binding] a_world with
  | (Ok s, _) => s
  | (Raise _, _) => mkSnapshot "" "" (0, 0)%Z 0 [] [] []
  end.

Lemma observation_runs : observe a_plan [a_binding] a_world = (Ok the_snapshot, mkObserver a_world 3).
Proof. vm_compute. reflexivity. Qed.

Example covered :
  snapshot_complete the_snapshot = true ∧ (or_coverage ∘ snd <$> sn_obligations the_snapshot) = [(1, 1)]%nat ∧
  (lp_argv ∘ ob_linux <$> sn_processes the_snapshot) = [["py"; "-m"; string_of_bytes [237; 179; 191]%N]].
Proof. vm_compute. by split_and!. Qed.

Definition snapshot_backed (s : Snapshot) (required : list Required) (records : list JournalEvent) : Prop :=
  ∀ k r, (k, r) ∈ sn_obligations s → ∃ obligation binding,
    obligation_observed a_plan "node" [a_binding] required records k r obligation binding.

Lemma snapshot_backed_by_live_processes_witness :
  observe a_plan [a_binding] a_world = (Ok the_snapshot, mkObserver a_world 3) ∧
  ∃ required records, listing (source a_world) records ∧ snapshot_backed the_snapshot required records.
Proof.
  split; [exact observation_runs|].
  destruct (snapshot_backed_by_live_processes Source (1, 10)%Z a_plan "launch-1" "controller" [a_binding]
              [a_required] "node" (mkObserver a_world 0) (mkObserver a_world 3) the_snapshot observation_runs)
    as (required & records & _ & Hlist & _ & _ & Hall & _).
  exists required, records. split; [exact Hlist|exact Hall].
Defined.

Lemma snapshot_accounts_for_every_line_witness :
  observe a_plan [a_binding] a_world = (Ok the_snapshot, mkObserver a_world 3) ∧
  ∃ records, listing (source a_world) records ∧ snapshot_records the_snapshot ≡ₚ _evidence_record <$> records.
Proof.
  split; [exact observation_runs|].
  destruct (snapshot_accounts_for_every_line Source (1, 10)%Z a_plan "launch-1" "controller" [a_binding]
              [a_required] "node" (mkObserver a_world 0) (mkObserver a_world 3) the_snapshot observation_runs)
    as (required & records & _ & Hlist & _ & Hall & _).
  exists records. split; [exact Hlist|exact Hall].
Defined.

(** An obligation without ordinals beside one with: its coverage is a division by zero. *)
Definition empty_plan : Plan :=
  mkPlan (plugins a_plan) (plan_host a_plan) []
    [mkObligation "o1" "worker" "invoked" [0%Z]; mkObligation "o2" "worker" "invoked" []] (predecessor a_plan) true.
Definition b_binding : EntryPointBinding :=
  mkBinding "vllm.general_plugins" "other" "hust:other" (b_plugin_id a_binding) "o2".
Definition empty_world : World := HostJournal.Example.a_world (HostJournal.Example.a_directory ∅).

Lemma divides_by_zero :
  observe empty_plan [a_binding; b_binding] empty_world = (Raise ZeroDivisionError, mkObserver empty_world 0).
Proof. vm_compute. reflexivity. Qed.

Lemma observer_errors_witness :
  observe empty_plan [a_binding; b_binding] empty_world = (Raise ZeroDivisionError, mkObserver empty_world 0) ∧
  ∃ ob, ob ∈ EcpaModel.obligations empty_plan ∧ required_ordinals ob = [].
Proof.
  split; [exact divides_by_zero|].
  destruct (observer_errors Source (1, 10)%Z empty_plan "launch-1" "controller" [a_binding; b_binding]
              [a_required] "node" (mkObserver empty_world 0) (mkObserver empty_world 0) ZeroDivisionError divides_by_zero)
    as [[? E]|[[? E]|[_ H]]]; [discriminate E|discriminate E|exact H].
Defined.
End Example.
