(* ===== verification/LifecycleSource.v ===== *)
(** * The sources of lifecycle facts

    [src/vllm_hust_ext/formal_lifecycle_source.py]: the request a runner sends, the canonical
    files a source is given, the choice of the journal that the partial-coverage fault
    withholds and the check of what is left, the journal capture, the shutdown of a process,
    the fact and the commit that answers it, and [main].  The transaction of the fault itself
    is in [QuarantineTransaction], of which [select_fault] and [evidence_left] are the
    arguments [select] and [evidence].

    A stream is the text still to be read.  Not modelled: HTTP, the audit lines, the command
    line's parser; [RecursionError]. *)

From S2P Require Import Prelude PyStd JsonText JsonRoundTrip EcpaModel SignedAttestation HostEvidence HostJournal HostObserver.

Local Open Scope string_scope.
Local Open Scope list_scope.

Inductive source_exn : Type :=
  | LifecycleSourceError (detail : string)
  | HostEventSinkError | QuarantineTransactionError
  | OSError | FileNotFoundError | ProcessLookupError
  | UnicodeEncodeError.

(** What [main] turns into the exit status 2. *)
Definition reported (e : source_exn) : bool := match e with UnicodeEncodeError => false | _ => true end.

Definition refuse (b : bool) (detail : string) : result source_exn () := raise_if b (LifecycleSourceError detail).

Definition newline : string := String (Ascii.ascii_of_N 10) "".

Definition FACT_SCHEMA : string := "ecpa-formal-lifecycle-fact/v1".
Definition REQUEST_SCHEMA : string := "ecpa-lifecycle-fact-request/v1".
Definition MAX_HTTP_BYTES : nat := 128 * 1024.
Definition MAX_DESCRIPTOR_BYTES : nat := 64 * 1024.
Definition SOURCE_KINDS : list (string * string) :=
  [("service-ready", "readiness-probe"); ("workload-complete", "workload-driver");
   ("fault-injected", "fault-actuator"); ("observer-captured", "host-observer");
   ("service-shutdown", "process-monitor")].
Definition REQUEST_FIELDS : list string :=
  ["schema"; "fact"; "source_kind"; "plan_id"; "launch_id"; "controller_instance"; "invocation_id"; "sequence";
   "challenge"; "scenario"; "sut_pid"; "sut_process_identity"; "required_processes"].

(** ** Streams *)

(** [readline(limit)]: up to the end of the line, at most [limit] bytes. *)
Fixpoint readline (limit : nat) (s : string) : string * string :=
  match limit, s with
  | O, _ | _, EmptyString => ("", s)
  | S limit, String a s =>
      if (code a =? 10)%N then (String a "", s)
      else let '(line, rest) := readline limit s in (String a line, rest)
  end.

(** [raw[:-1]] *)
Definition without_last (s : string) : string := String.substring 0 (String.length s - 1) s.

(** A line of at most [MAX_HTTP_BYTES] bytes, without its newline. *)
Definition read_line (stream : string) (detail : string) : result source_exn (string * string) :=
  let '(raw, rest) := readline (S MAX_HTTP_BYTES) stream in
  _ ← refuse (negb (ends_with newline raw) || (MAX_HTTP_BYTES <? String.length raw)%nat) detail;
  Ok (without_last raw, rest).

Section source.
Context {F : FloatText}.

(** [json.loads] where the code turns its errors into one of its own *)
Definition load_json (raw : string) (detail : string) : result source_exn json :=
  match loads (E := ()) plain_hook plain_constant raw with
  | Ok v => Ok v
  | Raise _ => Raise (LifecycleSourceError detail)
  end.

Definition encoded (v : json) : result source_exn string :=
  let text := canonical_bytes v in
  if has_surrogate (bytes_of_string text) then Raise UnicodeEncodeError else Ok text.

(** ** Requests *)

Definition positive (v : json) : bool := match v with JInt z => (0 <? z)%Z | _ => false end.

Definition identity_ok (identity sut_pid : json) : bool :=
  match identity with
  | JObj kv =>
      has_exactly ["pid"; "start_ticks"; "argv"] kv && json_eqb (json_get "pid" kv) sut_pid &&
      positive (json_get "start_ticks" kv) &&
      match json_get "argv" kv with
      | JArr argv => negb (bool_decide (argv = [])) && forallb nonempty_string argv
      | _ => false
      end
  | _ => false
  end.

Definition target_ok (item : json) : bool :=
  match item with
  | JObj kv =>
      has_exactly ["host"; "role"; "ordinal"; "process_epoch"] kv && name_ok (json_get "host" kv) &&
      name_ok (json_get "role" kv) && natural (json_get "ordinal" kv) && natural (json_get "process_epoch" kv)
  | _ => false
  end.

(** host, role, ordinal and process epoch of a [dict] *)
Definition process_key (kv : event_dict) : Required :=
  (process_slot kv, integer_of (json_get "process_epoch" kv)).
Definition members (v : json) : event_dict := match v with JObj kv => kv | _ => [] end.
Definition elements_of (v : json) : list json := match v with JArr l => l | _ => [] end.

Definition required_keys (request : event_dict) : list Required :=
  process_key ∘ members <$> elements_of (json_get "required_processes" request).

Definition source_kind_of (fact : string) : json :=
  match assoc fact SOURCE_KINDS with Some kind => JStr kind | None => JNull end.

(** The bytes are compared with the canonical ones where the fields are right. *)
Definition check_binding (body : string) (request : json) : result source_exn event_dict :=
  let unbound := LifecycleSourceError "lifecycle request is not canonical or bound" in
  match request with
  | JObj kv =>
      _ ← raise_if (negb (has_exactly REQUEST_FIELDS kv)) unbound;
      text ← encoded request;
      _ ← raise_if (negb (bool_decide (body = text))) unbound;
      _ ← raise_if (negb (json_eqb (json_get "schema" kv) (JStr REQUEST_SCHEMA))) unbound;
      match json_get "fact" kv with
      | JStr fact =>
          _ ← raise_if (negb (json_eqb (json_get "source_kind" kv) (source_kind_of fact))) unbound;
          Ok kv
      | _ => Raise unbound
      end
  | _ => Raise unbound
  end.

Definition check_request (kv : event_dict) : result source_exn () :=
  _ ← forR (λ field, refuse (negb (name_ok (json_get field kv)))
                       ("lifecycle request " +:+ field +:+ " is invalid"))
        ["plan_id"; "launch_id"; "controller_instance"; "invocation_id"; "challenge"; "scenario"];
  _ ← refuse (negb (positive (json_get "sequence" kv)) || negb (positive (json_get "sut_pid" kv)))
        "lifecycle request integer is invalid";
  _ ← refuse (negb (identity_ok (json_get "sut_process_identity" kv) (json_get "sut_pid" kv)))
        "lifecycle request process identity is invalid";
  _ ← refuse (match json_get "required_processes" kv with
              | JArr required => bool_decide (required = []) || negb (forallb target_ok required)
              | _ => true
              end) "lifecycle request target snapshot is invalid";
  refuse (negb (bool_decide (NoDup (required_keys kv)))) "lifecycle request target snapshot has duplicates".

Definition _read_request (stream : string) : result source_exn (event_dict * string) :=
  '(body, rest) ← read_line stream "lifecycle request is missing or oversized";
  request ← load_json body "lifecycle request JSON is invalid";
  kv ← check_binding body request;
  _ ← check_request kv;
  Ok (kv, rest).

(** ** Canonical files *)

(** A file, [None] where opening or reading it fails: its first [limit + 1] bytes are read. *)
Definition canonical_file (limit : nat) (what canonical : string) (file : option string) (expected_digest : string)
    : result source_exn (string * event_dict) :=
  match file with
  | None => Raise OSError
  | Some bytes =>
      let raw := String.substring 0 (S limit) bytes in
      _ ← refuse (limit <? String.length raw)%nat (what +:+ " exceeds the evidence limit");
      value ← load_json raw (what +:+ " JSON is invalid");
      match value with
      | JObj kv =>
          text ← encoded value;
          _ ← refuse (negb (bool_decide (raw = text +:+ newline))) (canonical +:+ " must be canonical JSON");
          _ ← refuse (negb (bool_decide (expected_digest = "sha256:" +:+ sha256_hexdigest raw)))
                (what +:+ " differs from its registered digest");
          Ok (raw, kv)
      | _ => Raise (LifecycleSourceError (canonical +:+ " must be canonical JSON"))
      end
  end.

Definition _canonical_request_file (file : option string) (digest : string) : result source_exn string :=
  '(raw, _) ← canonical_file MAX_HTTP_BYTES "workload request" "workload request file" file digest;
  Ok raw.
Definition _canonical_descriptor_file (file : option string) (digest : string)
    : result source_exn (string * event_dict) :=
  canonical_file MAX_DESCRIPTOR_BYTES "fault descriptor" "fault descriptor" file digest.

(** ** The partial-coverage fault *)

(** The target and the entry point of the descriptor, on the request's scenario. *)
Definition descriptor_target (request descriptor : event_dict) : result source_exn (event_dict * event_dict) :=
  let target := members (json_get "target" descriptor) in
  let entry_point := members (json_get "entry_point" descriptor) in
  _ ← refuse (negb (
        has_exactly ["schema"; "scenario"; "target"; "entry_point"] descriptor &&
        json_eqb (json_get "schema" descriptor) (JStr "ecpa-evidence-quarantine-fault/v1") &&
        json_eqb (json_get "scenario" descriptor) (json_get "scenario" request) &&
        target_ok (json_get "target" descriptor) && json_eqb (json_get "role" target) (JStr "worker") &&
        match json_get "entry_point" descriptor with
        | JObj kv => has_exactly ["group"; "name"; "value"] kv &&
                     forallb (λ field, name_ok (json_get field kv)) ["group"; "name"; "value"]
        | _ => false
        end)) "fault descriptor is not bound or canonical";
  let required := required_keys request in
  let worker_slots := remove_dups (filter (λ s, slot_role s = "worker") required.*1) in
  _ ← refuse (negb (bool_decide (process_key target ∈ required)) || (length worker_slots <? 2)%nat)
        "partial-coverage target and peer must belong to the frozen snapshot";
  Ok (target, entry_point).

Section fault.
Context (request target entry_point : event_dict).

Definition same_in (k : string) (event other : event_dict) : bool := json_eqb (json_get k event) (json_get k other).

Definition is_effect (item : JournalEvent) : bool :=
  let event := je_event item in
  same_in "plan_id" event request && same_in "launch_id" event request &&
  json_eqb (json_get "binding_status" event) (JStr "bound") &&
  json_eqb (json_get "event" event) (JStr "invoked") &&
  json_eqb (json_get "observation_kind" event) (JStr "loader_lifecycle") &&
  is_null (json_get "controller_instance_id" event) &&
  json_eqb (json_get "assignment_source" (sub_object "process" event)) (JStr "host") &&
  json_eqb (json_get "entry_point" event) (JObj entry_point).

Definition of_target (item : JournalEvent) : bool :=
  forallb (λ field, same_in field (sub_object "process" (je_event item)) target) target.*1.

Definition item_key (item : JournalEvent) : Required := process_key (sub_object "process" (je_event item)).

Record Fault : Type := mkFault {
  fa_journal : string; fa_raw : string;
  fa_peer_slots : list Required;
  fa_target_records : list JournalEvent; fa_peer_records : list JournalEvent;
}.

Definition peer_keys (effects : list JournalEvent) : list Required :=
  sort_on id (remove_dups (filter (λ k, k ∈ required_keys request ∧ k.1 ≠ process_slot target) (item_key <$> effects))).

Definition select_fault (records : list JournalEvent) : result source_exn Fault :=
  let effects := filter (λ item, Is_true (is_effect item)) records in
  let target_effects := filter (λ item, Is_true (of_target item)) effects in
  let peer_slots := peer_keys effects in
  match remove_dups (je_journal <$> target_effects) with
  | [journal] =>
      _ ← refuse (bool_decide (peer_slots = [])) "partial-coverage fault requires another observed worker";
      let journal_records := filter (λ item, je_journal item = journal) records in
      _ ← refuse (existsb (λ item, negb (same_in "plan_id" (je_event item) request) ||
                                   negb (same_in "launch_id" (je_event item) request) ||
                                   negb (of_target item)) journal_records)
            "fault target journal contains another launch or process";
      Ok (mkFault journal (join "" ((λ item, je_raw item +:+ newline) <$> journal_records)) peer_slots
            target_effects (filter (λ item, item_key item ∈ peer_slots) effects))
  | _ => Raise (LifecycleSourceError "fault target does not have one exact bound worker journal")
  end.

(** After the move, on the events of the journals that are left. *)
Definition evidence_left (fault : Fault) (remaining : list JournalEvent) : result source_exn () :=
  _ ← refuse (existsb (λ item, is_effect item && of_target item) remaining)
        "fault target evidence reappeared after quarantine";
  let left := item_key <$> filter (λ item, Is_true (is_effect item) ∧ slot_role (item_key item).1 = "worker") remaining in
  refuse (negb (forallb (λ k, bool_decide (k ∈ left)) (fa_peer_slots fault)))
    "fault changed non-target worker evidence".
End fault.

(** ** The journal capture *)

Definition is_captured (request : event_dict) (item : JournalEvent) : bool :=
  let event := je_event item in
  same_in "plan_id" event request && same_in "launch_id" event request &&
  json_eqb (json_get "event" event) (JStr "invoked") &&
  json_eqb (json_get "observation_kind" event) (JStr "scheduler_dispatch") &&
  json_eqb (json_get "binding_status" event) (JStr "bound") &&
  json_eqb (json_get "controller_instance_id" event) (json_get "controller_instance" request) &&
  json_eqb (json_get "assignment_source" (sub_object "process" event)) (JStr "host").

Definition fact_is (fact : string) (request : event_dict) (detail : string) : result source_exn () :=
  refuse (negb (json_eqb (json_get "fact" request) (JStr fact))) detail.

(** From the events on: the selected ones. *)
Definition _journal (request : event_dict) (records : list JournalEvent) : result source_exn (list JournalEvent) :=
  _ ← fact_is "observer-captured" request "journal source received another phase";
  let selected := filter (λ item, Is_true (is_captured request item)) records in
  _ ← refuse (bool_decide (selected = []))
        "host journal has no bound scheduler dispatch for this Plan, launch, and controller";
  Ok selected.

(** ** The shutdown of a process *)

(** What the system answers: the [n]-th read of a file of [/proc/pid], [pidfd_open] and
    whether [select] finds the process ended. *)
Class Processes : Type := {
  read_file : nat → Z → ProcFile → result source_exn string;
  pidfd_open : Z → result source_exn ();
  exits : Z → bool;
}.

Section processes.
Context {P : Processes}.

Definition start_ticks (raw : string) (checked : bool) : result source_exn Z :=
  let bs := bytes_of_string raw in
  let unavailable := LifecycleSourceError "shutdown target identity is unavailable" in
  after ← match rfind closing 0 bs with
          | Some close => Ok (drop (close + 2) bs)
          | None => if checked then Raise (LifecycleSourceError "shutdown target stat is malformed")
                    else Ok (drop 1 bs)
          end;
  match split_parts byte_space after !! 19%nat with
  | None => if checked then Raise (LifecycleSourceError "shutdown target stat is incomplete") else Raise unavailable
  | Some field => match int_ascii field with Some ticks => Ok ticks | None => Raise unavailable end
  end.

(** [except FileNotFoundError], then [except (OSError, ValueError, IndexError)]; the errors
    raised inside are [ValueError]s too. *)
Definition identity_error (e : source_exn) : source_exn :=
  match e with
  | FileNotFoundError => ProcessLookupError
  | OSError | ProcessLookupError | LifecycleSourceError _ | UnicodeEncodeError =>
      LifecycleSourceError "shutdown target identity is unavailable"
  | e => e
  end.

Definition identity_try {A} (r : result source_exn A) : result source_exn A :=
  match r with Ok a => Ok a | Raise e => Raise (identity_error e) end.

(** From the [n]-th read on. *)
Definition _linux_process_identity (n : nat) (pid : Z) : result source_exn json :=
  '(before, argv_raw, after) ← identity_try (
    raw ← read_file n pid Stat;
    before ← start_ticks raw true;
    argv_raw ← read_file (S n) pid Cmdline;
    raw ← read_file (S (S n)) pid Stat;
    after ← start_ticks raw false;
    Ok (before, argv_raw, after));
  _ ← refuse ((before <=? 0)%Z || negb (before =? after)%Z) "shutdown target identity changed while reading";
  let argv := argv_of argv_raw in
  _ ← refuse (bool_decide (argv = [])) "shutdown target argv is unavailable";
  Ok (JObj [("pid", JInt pid); ("start_ticks", JInt before); ("argv", JArr (JStr <$> argv))]).

Definition _shutdown (request : event_dict) : result source_exn () :=
  _ ← fact_is "service-shutdown" request "shutdown source received another phase";
  let pid := integer_of (json_get "sut_pid" request) in
  match (
    before ← _linux_process_identity 0 pid;
    _ ← refuse (negb (json_eqb before (json_get "sut_process_identity" request)))
          "shutdown target identity differs from request";
    _ ← pidfd_open pid;
    after ← match _linux_process_identity 3 pid with
            | Raise ProcessLookupError => Ok before
            | r => r
            end;
    _ ← refuse (negb (json_eqb after before)) "shutdown target identity changed before wait";
    refuse (negb (exits pid)) "SUT did not exit after shutdown phase")
  with
  | Raise ProcessLookupError =>
      Raise (LifecycleSourceError "shutdown target exited before independent identity binding")
  | r => r
  end.
End processes.

(** ** The fact and the commit *)

Definition fact_payload (request : event_dict) (value : json) (monotonic_ns : Z) : json :=
  JObj ([("schema", JStr FACT_SCHEMA)] ++
        ((λ field, (field, json_get field request)) <$>
           ["fact"; "source_kind"; "plan_id"; "launch_id"; "controller_instance"; "invocation_id"; "sequence";
            "challenge"]) ++
        [("monotonic_ns", JInt monotonic_ns); ("value", value);
         ("sut_process_identity", json_get "sut_process_identity" request)]).

Definition expected_commit (request : event_dict) : json :=
  JObj [("command", JStr "commit"); ("challenge", json_get "challenge" request);
        ("phase", json_get "fact" request)].

(** The inherited socket: whether it takes datagrams, and the bytes [send] takes of a text. *)
Record Channel : Type := mkChannel { is_datagram : bool; send : string → result source_exn nat }.

Definition check_commit (request : event_dict) (stream : string) : result source_exn string :=
  '(body, rest) ← read_line stream "runner commit is missing or oversized";
  commit ← load_json body "runner commit JSON is invalid";
  _ ← refuse (negb (json_eqb commit (expected_commit request))) "runner commit does not bind the lifecycle fact";
  text ← encoded commit;
  _ ← refuse (negb (bool_decide (body = text))) "runner commit does not bind the lifecycle fact";
  Ok rest.

(** The stream after the commit. *)
Definition _send_fact (channel : option Channel) (monotonic_ns : Z) (request : event_dict) (value : json)
    (stream : string) : result source_exn string :=
  match channel with
  | None => Raise (LifecycleSourceError "credentialed lifecycle channel is unavailable")
  | Some c =>
      _ ← refuse (negb (is_datagram c)) "lifecycle channel is not a datagram socket";
      raw ← encoded (fact_payload request value monotonic_ns);
      sent ← send c raw;
      _ ← refuse (negb (sent =? String.length raw)%nat) "lifecycle fact datagram was not sent completely";
      check_commit request stream
  end.

(** ** [main] *)

Section main.
Context {W : Type}.

(** [bool | str], or a [PreparedFact]. *)
Inductive Prepared : Type :=
  | Value (value : json)
  | PreparedFact (value : json) (commit release : method W source_exn ()).

(** An exception [main] does not report leaves it. *)
Definition exit_status {A} (r : result source_exn A) : result source_exn Z :=
  match r with
  | Ok _ => Ok 0%Z
  | Raise e => if reported e then Ok 2%Z else Raise e
  end.

Definition main (channel : option Channel) (monotonic_ns : Z) (handler : event_dict → method W source_exn Prepared)
    (stdin : string) : method W source_exn Z := λ w,
  match _read_request stdin with
  | Raise e => (exit_status (A := ()) (Raise e), w)
  | Ok (request, rest) =>
      match handler request w with
      | (Raise e, w) => (exit_status (A := ()) (Raise e), w)
      | (Ok (Value value), w) => (exit_status (_send_fact channel monotonic_ns request value rest), w)
      | (Ok (PreparedFact value commit release), w) =>
          let '(r, w) := match _send_fact channel monotonic_ns request value rest with
                         | Ok _ => commit w
                         | Raise e => (Raise e, w)
                         end in
          match release w with
          | (Ok _, w) => (exit_status r, w)
          | (Raise e, w) => (Raise e, w)
          end
      end
  end.
End main.
End source.
