(* ===== verification/LifecycleTheorems.v ===== *)
(** * What the lifecycle sources guarantee

    About [LifecycleSource]: the requests that are accepted and the canonical ones that are
    read back; when the action of a prepared fact runs; what the partial-coverage fault
    selects and when its check after the move passes. *)

From S2P Require Import Prelude PyStd JsonText JsonRoundTrip EcpaModel SignedAttestation HostEvidence HostJournal JournalTheorems HostObserver LifecycleSource.

Local Open Scope string_scope.
Local Open Scope list_scope.

#[local] Opaque MAX_HTTP_BYTES MAX_DESCRIPTOR_BYTES.

(** ** Streams *)

Lemma substring_prefix n s t : String.length s = n → String.substring 0 n (s +:+ t) = s.
Proof.
  revert n. induction s as [|a s IH]; intros n <-; [by destruct t|]. rewrite string_app_cons. simpl. by rewrite IH.
Qed.

Lemma without_last_app s : without_last (s +:+ newline) = s.
Proof.
  unfold without_last. rewrite length_string_app. cbn [String.length newline].
  replace (String.length s + 1 - 1)%nat with (String.length s) by lia. by apply substring_prefix.
Qed.

(** No newline in the line. *)
Definition one_line (s : string) : Prop := Forall (λ b, b ≠ 10)%N (bytes_of_string s).

Lemma readline_ends limit s raw rest :
  readline limit s = (raw, rest) → ends_with newline raw = true →
  ∃ body, raw = body +:+ newline ∧ s = body +:+ newline +:+ rest ∧ one_line body.
Proof.
  revert s raw. induction limit as [|limit IH]; intros s raw H He; [by injection H as <- <-|].
  destruct s as [|a s]; [by injection H as <- <-|]. cbn [readline] in H.
  destruct (code a =? 10)%N eqn:Ha.
  - injection H as <- <-. apply N.eqb_eq in Ha. exists "".
    assert (a = Ascii.ascii_of_N 10) as -> by (rewrite <-(Ascii.ascii_N_embedding a); unfold code in Ha; by rewrite Ha).
    split_and!; [done..|constructor].
  - destruct (readline limit s) as [line rest'] eqn:E. injection H as <- <-.
    assert (line ≠ "") as Hne.
    { intros ->. apply ends_with_spec in He as [t Ht]. destruct t as [|b t]; [injection Ht as ->; done|].
      rewrite string_app_cons in Ht. injection Ht as _ Ht. by destruct t. }
    destruct (IH s line E) as (body & -> & -> & Hb).
    { apply ends_with_spec in He as [t Ht]. apply ends_with_spec. destruct t as [|b t].
      - injection Ht as _ ->. done.
      - rewrite string_app_cons in Ht. injection Ht as _ ->. by exists t. }
    exists (String a body). rewrite !string_app_cons. split_and!; [done..|]. constructor; [|done].
    apply N.eqb_neq in Ha. exact Ha.
Qed.

Lemma readline_line limit body rest :
  one_line body → (String.length body < limit)%nat →
  readline limit (body +:+ newline +:+ rest) = (body +:+ newline, rest).
Proof.
  revert limit. induction body as [|a body IH]; intros limit Hb Hl.
  - destruct limit; [lia|]. done.
  - destruct limit; [simpl in Hl; lia|]. inversion Hb as [|? ? Ha Hb']; subst. rewrite !string_app_cons. cbn [readline].
    assert ((code a =? 10)%N = false) as -> by (apply N.eqb_neq; exact Ha).
    rewrite IH; [done|done|simpl in Hl; lia].
Qed.

Section theorems.
Context {F : FloatText}.

Lemma refuse_Ok b d u : refuse b d = Ok u ↔ b = false.
Proof. unfold refuse. rewrite raise_if_Ok. done. Qed.

Lemma refuse_bind {A} b d (r : result source_exn A) a : (_ ← refuse b d; r) = Ok a ↔ b = false ∧ r = Ok a.
Proof. unfold refuse, raise_if. destruct b; naive_solver. Qed.

Lemma read_line_Ok stream d body rest :
  read_line stream d = Ok (body, rest) ↔
  stream = body +:+ newline +:+ rest ∧ one_line body ∧ (String.length body < MAX_HTTP_BYTES)%nat.
Proof.
  unfold read_line. split.
  - destruct (readline (S MAX_HTTP_BYTES) stream) as [raw rest'] eqn:E.
    intros [[He%negb_false_iff Hlen%Nat.ltb_ge]%orb_false_iff [= <- <-]]%refuse_bind.
    destruct (readline_ends _ _ _ _ E He) as (body & -> & -> & Hl). clear E He.
    rewrite without_last_app. split_and!; [done..|]. rewrite length_string_app in Hlen.
    cbn [String.length newline] in Hlen. lia.
  - intros (-> & Hl & Hn). rewrite readline_line; [|exact Hl|by apply Nat.lt_lt_succ_r]. rewrite without_last_app. apply refuse_bind.
    split; [|done]. rewrite (ends_with_app newline body). cbn [negb orb]. apply Nat.ltb_ge.
    rewrite length_string_app. cbn [String.length newline]. lia.
Qed.

Lemma load_json_Ok raw d v : load_json raw d = Ok v ↔ loads (E := ()) plain_hook plain_constant raw = Ok v.
Proof. unfold load_json. destruct (loads _ _ raw); naive_solver. Qed.

Lemma encoded_Ok v text :
  encoded v = Ok text ↔ text = canonical_bytes v ∧ has_surrogate (bytes_of_string (canonical_bytes v)) = false.
Proof. unfold encoded. cbv zeta. destruct (has_surrogate _); naive_solver. Qed.

(** ** Requests *)

Definition name_at (k : string) (kv : event_dict) : Prop :=
  ∃ s, json_get k kv = JStr s ∧ s ≠ "" ∧ is_stripped s = true.
Definition positive_at (k : string) (kv : event_dict) : Prop := ∃ z, json_get k kv = JInt z ∧ (0 < z)%Z.

(** A process of the request: the runner's process, or a target. *)
Definition identity_spec (identity sut_pid : json) : Prop :=
  ∃ kv argv, identity = JObj kv ∧ has_exactly ["pid"; "start_ticks"; "argv"] kv = true ∧
    json_eqb (json_get "pid" kv) sut_pid = true ∧ positive_at "start_ticks" kv ∧
    json_get "argv" kv = JArr argv ∧ argv ≠ [] ∧ Forall (λ v, ∃ s, v = JStr s ∧ s ≠ "") argv.
Definition target_spec (item : json) : Prop :=
  ∃ kv, item = JObj kv ∧ has_exactly ["host"; "role"; "ordinal"; "process_epoch"] kv = true ∧
    name_at "host" kv ∧ name_at "role" kv ∧ natural_at "ordinal" kv ∧ natural_at "process_epoch" kv.

Record request_ok (kv : event_dict) : Prop := {
  request_fields : has_exactly REQUEST_FIELDS kv = true;
  request_schema : json_get "schema" kv = JStr REQUEST_SCHEMA;
  request_fact : ∃ fact, json_get "fact" kv = JStr fact ∧ json_get "source_kind" kv = source_kind_of fact;
  request_names : Forall (λ k, name_at k kv)
    ["plan_id"; "launch_id"; "controller_instance"; "invocation_id"; "challenge"; "scenario"];
  request_integers : positive_at "sequence" kv ∧ positive_at "sut_pid" kv;
  request_identity : identity_spec (json_get "sut_process_identity" kv) (json_get "sut_pid" kv);
  request_targets : ∃ required, json_get "required_processes" kv = JArr required ∧ required ≠ [] ∧
    Forall target_spec required ∧ NoDup (required_keys kv);
}.

Lemma name_ok_spec v : name_ok v = true ↔ ∃ s, v = JStr s ∧ s ≠ "" ∧ is_stripped s = true.
Proof.
  unfold name_ok. split.
  - destruct v as [| | | |s| |]; try done. intros [H1 H2]%andb_true_iff. bool_inv. by exists s.
  - intros (s & -> & H1 & ->). by rewrite bool_decide_eq_false_2.
Qed.

Lemma positive_spec v : positive v = true ↔ ∃ z, v = JInt z ∧ (0 < z)%Z.
Proof. destruct v; cbn; rewrite ?Z.ltb_lt; naive_solver. Qed.

Lemma identity_ok_spec identity pid : identity_ok identity pid = true ↔ identity_spec identity pid.
Proof.
  unfold identity_spec, positive_at. split.
  - unfold identity_ok. destruct identity as [| | | | | |kv]; try done.
    rewrite !andb_true_iff. intros [[[H1 H2] H3%positive_spec] H4].
    destruct (json_get "argv" kv) as [| | | | |argv|] eqn:E; try done. apply andb_true_iff in H4 as [H4 H5].
    bool_inv. exists kv, argv. split_and!; try done. apply Forall_forall. intros v Hv.
    apply nonempty_string_spec. rewrite forallb_forall in H5. by apply H5, list_elem_of_In.
  - intros (kv & argv & -> & H1 & H2 & H3%positive_spec & H4 & Hne & H5). unfold identity_ok.
    rewrite H1, H2, H3, H4. cbn [andb]. rewrite bool_decide_eq_false_2 by done. cbn [negb andb].
    apply forallb_forall. intros v Hv%list_elem_of_In. apply nonempty_string_spec. rewrite Forall_forall in H5. auto.
Qed.

Lemma target_ok_spec item : target_ok item = true ↔ target_spec item.
Proof.
  unfold target_spec, name_at, natural_at. split.
  - destruct item as [| | | | | |kv]; try done. cbn [target_ok]. rewrite !andb_true_iff, !name_ok_spec, !natural_spec.
    intros [[[[? ?] ?] ?] ?]. by exists kv.
  - intros (kv & -> & ? & ? & ? & ? & ?). cbn [target_ok].
    rewrite !andb_true_iff, !name_ok_spec, !natural_spec. done.
Qed.

Lemma json_eqb_kind v fact : json_eqb v (source_kind_of fact) = true ↔ v = source_kind_of fact.
Proof.
  unfold source_kind_of. destruct (assoc fact SOURCE_KINDS) as [kind|].
  - split; [apply json_eqb_str|]. intros ->. cbn. by apply bool_decide_eq_true.
  - destruct v; cbn; naive_solver.
Qed.

Lemma source_raise_if_bind {E A} b (e : E) (r : result E A) a : (_ ← raise_if b e; r) = Ok a ↔ b = false ∧ r = Ok a.
Proof. unfold raise_if. destruct b; naive_solver. Qed.

Lemma json_eqb_jstr v s : json_eqb v (JStr s) = true ↔ v = JStr s.
Proof. split; [apply json_eqb_str|]. intros ->. cbn. by apply bool_decide_eq_true. Qed.

Lemma check_binding_Ok body v kv :
  check_binding body v = Ok kv ↔
  v = JObj kv ∧ has_exactly REQUEST_FIELDS kv = true ∧ body = canonical_bytes v ∧
  has_surrogate (bytes_of_string body) = false ∧ json_get "schema" kv = JStr REQUEST_SCHEMA ∧
  ∃ fact, json_get "fact" kv = JStr fact ∧ json_get "source_kind" kv = source_kind_of fact.
Proof.
  unfold check_binding. split.
  - destruct v as [| | | | | |kv']; try done. cbv zeta.
    intros [Hf%negb_false_iff H]%source_raise_if_bind. apply result_bind_Ok in H as (text & [-> Hs]%encoded_Ok & H).
    apply source_raise_if_bind in H as [Hb H]. bool_inv. apply source_raise_if_bind in H as [Hschema%negb_false_iff%json_eqb_str H].
    destruct (json_get "fact" kv') as [| | | |fact| |] eqn:E; try done.
    apply source_raise_if_bind in H as [Hk%negb_false_iff%json_eqb_kind [= <-]]. subst body. split_and!; eauto.
  - intros (-> & Hf & -> & Hs & Hschema & fact & Hfact & Hk). cbv zeta. apply source_raise_if_bind. rewrite Hf. split; [done|].
    apply result_bind_Ok. exists (canonical_bytes (JObj kv)). split; [by apply encoded_Ok|].
    apply source_raise_if_bind. rewrite bool_decide_eq_true_2 by done. split; [done|].
    apply source_raise_if_bind. split; [by apply negb_false_iff, json_eqb_jstr|]. rewrite Hfact.
    apply source_raise_if_bind. split; [|done]. by apply negb_false_iff, json_eqb_kind.
Qed.

Lemma check_request_Ok kv u :
  check_request kv = Ok u ↔
  Forall (λ k, name_at k kv)
    ["plan_id"; "launch_id"; "controller_instance"; "invocation_id"; "challenge"; "scenario"] ∧
  (positive_at "sequence" kv ∧ positive_at "sut_pid" kv) ∧
  identity_spec (json_get "sut_process_identity" kv) (json_get "sut_pid" kv) ∧
  ∃ required, json_get "required_processes" kv = JArr required ∧ required ≠ [] ∧
    Forall target_spec required ∧ NoDup (required_keys kv).
Proof.
  unfold check_request, name_at, positive_at. rewrite result_bind_Ok. split.
  - intros ([] & H1 & H). apply forR_Ok in H1.
    apply refuse_bind in H as [[H2%negb_false_iff%positive_spec H3%negb_false_iff%positive_spec]%orb_false_iff H].
    apply refuse_bind in H as [H4%negb_false_iff%identity_ok_spec H]. apply refuse_bind in H as [H5 H%refuse_Ok].
    bool_inv. split_and!; try done.
    + rewrite Forall_forall in *. intros k Hk. apply H1, refuse_Ok, negb_false_iff, name_ok_spec in Hk. done.
    + destruct (json_get "required_processes" kv) as [| | | | |required|]; try done. exists required.
      apply orb_false_iff in H5 as [Hne%bool_decide_eq_false Hall%negb_false_iff].
      split_and!; try done. apply Forall_forall. intros v Hv. apply target_ok_spec. rewrite forallb_forall in Hall.
      by apply Hall, list_elem_of_In.
  - intros (H1 & [H2%positive_spec H3%positive_spec] & H4%identity_ok_spec & required & E & Hne & H5 & H6).
    destruct u. exists (). split.
    { apply forR_Ok. rewrite Forall_forall in *. intros k Hk. apply refuse_Ok, negb_false_iff, name_ok_spec. by apply H1. }
    apply refuse_bind. rewrite H2, H3. split; [done|]. apply refuse_bind. rewrite H4. split; [done|].
    apply refuse_bind. rewrite E. split.
    { rewrite bool_decide_eq_false_2 by done. apply negb_false_iff, forallb_forall. intros v Hv%list_elem_of_In.
      apply target_ok_spec. rewrite Forall_forall in H5. auto. }
    apply refuse_Ok. by rewrite bool_decide_eq_true_2.
Qed.

Lemma read_request_Ok stream kv rest :
  _read_request stream = Ok (kv, rest) ↔
  stream = canonical_bytes (JObj kv) +:+ newline +:+ rest ∧ one_line (canonical_bytes (JObj kv)) ∧
  (String.length (canonical_bytes (JObj kv)) < MAX_HTTP_BYTES)%nat ∧
  loads (E := ()) plain_hook plain_constant (canonical_bytes (JObj kv)) = Ok (JObj kv) ∧
  has_surrogate (bytes_of_string (canonical_bytes (JObj kv))) = false ∧ request_ok kv.
Proof.
  unfold _read_request. rewrite result_bind_Ok. split.
  - intros ([body rest'] & Hline%read_line_Ok & H). apply result_bind_Ok in H as (v & Hv%load_json_Ok & H).
    apply result_bind_Ok in H as (kv' & Hb%check_binding_Ok & H).
    apply result_bind_Ok in H as (? & Hr%check_request_Ok & [= <- <-]).
    destruct Hb as (-> & Hf & -> & Hs & Hschema & Hfact), Hline as (-> & H1 & H2), Hr as (? & ? & ? & ?).
    by split_and!.
  - intros (-> & H1 & H2 & Hl & Hs & [Hf Hschema Hfact Hn Hi Hid Ht]).
    exists (canonical_bytes (JObj kv), rest). split; [by apply read_line_Ok|].
    apply result_bind_Ok. exists (JObj kv). split; [by apply load_json_Ok|].
    apply result_bind_Ok. exists kv. split; [by apply check_binding_Ok|].
    apply result_bind_Ok. exists (). split; [|done]. by apply check_request_Ok.
Qed.

(** A request that _read_request returns is the first line of its input, in the
    canonical bytes of that very object, and is well formed: its fields, names,
    integers, process identity and distinct targets are valid and its source kind is the
    one of its fact. Conversely a well-formed request with sorted keys, without floats
    and lone surrogates and short enough, is read back from its canonical line, with the
    rest of the input left. *)
Theorem request_accepted_exactly (stream : string) (kv : event_dict) (rest : string) :
  (_read_request stream = Ok (kv, rest) →
     stream = canonical_bytes (JObj kv) +:+ newline +:+ rest ∧ request_ok kv) ∧
  (request_ok kv → printable (JObj kv) → sort_keys (JObj kv) = JObj kv →
   has_surrogate (bytes_of_string (canonical_bytes (JObj kv))) = false →
   (String.length (canonical_bytes (JObj kv)) < MAX_HTTP_BYTES)%nat →
   _read_request (canonical_bytes (JObj kv) +:+ newline +:+ rest) = Ok (kv, rest)).
Proof.
  split.
  - intros (-> & _ & _ & _ & _ & Hok)%read_request_Ok. done.
  - intros Hok Hp Hsort Hs Hlen. apply read_request_Ok. split_and!; try done.
    + eapply Forall_impl; [apply unbroken_dumps, printable_floats, Hp|]. by intros ? [].
    + rewrite <-(string_app_nil_r (canonical_bytes _)). unfold canonical_bytes.
      rewrite (loads_dumps plain_hook plain_constant (λ kv, plain_hook_ok kv)) by done. by rewrite Hsort.
Qed.

(** ** The commit *)

(** A [dict] that equals one of strings has its members. *)
Lemma json_eqb_strings kv kv' :
  NoDup kv.*1 → Forall (λ p, ∃ s, p.2 = JStr s) kv' → json_eqb (JObj kv) (JObj kv') = true → kv ≡ₚ kv'.
Proof.
  intros Hnd Hs [Hlen%Nat.eqb_eq Hall]%andb_true_iff. rewrite forallb_forall in Hall.
  apply submseteq_length_Permutation; [|lia]. apply NoDup_submseteq; [by eapply NoDup_fmap_1|].
  intros [k v] Hin. pose proof (Hall _ (proj1 (list_elem_of_In _ _) Hin)) as H. cbn beta iota in H.
  destruct (assoc k kv') as [w|] eqn:E; [|done]. apply assoc_elem_of in E.
  rewrite Forall_forall in Hs. destruct (Hs _ E) as [s Ew]. cbn in Ew. subst w. by apply json_eqb_str in H as ->.
Qed.

Lemma canonical_perm kv kv' :
  NoDup kv.*1 → kv ≡ₚ kv' → canonical_bytes (JObj kv) = canonical_bytes (JObj kv').
Proof. intros Hnd Hp. unfold canonical_bytes. rewrite !dumps_obj. by rewrite (sort_on_unique fst kv kv'). Qed.

Lemma check_commit_Ok request stream rest :
  request_ok request → check_commit request stream = Ok rest →
  stream = canonical_bytes (expected_commit request) +:+ newline +:+ rest.
Proof.
  intros Hok H. unfold check_commit in H.
  apply result_bind_Ok in H as ([body rest'] & (-> & _ & _)%read_line_Ok & H).
  apply result_bind_Ok in H as (commit & Hc%load_json_Ok & H). apply refuse_bind in H as [He%negb_false_iff H].
  apply result_bind_Ok in H as (text & [-> _]%encoded_Ok & H). apply refuse_bind in H as [Hb [= <-]]. bool_inv.
  apply loads_unique in Hc; [|apply plain_hook_unique|by intros ? ? [= <-]]. rewrite Hb. f_equal.
  unfold expected_commit in *. destruct commit as [| | | | | |kv]; try done. apply unique_keys_obj in Hc as [Hnd _].
  apply canonical_perm; [done|]. apply json_eqb_strings; [done| |done].
  destruct Hok as [_ _ (fact & Hf & _) Hn _ _ _]. rewrite Hf. rewrite Forall_forall in Hn.
  destruct (Hn "challenge") as (s & Hch & _); [set_solver|]. rewrite Hch.
  repeat constructor; eauto.
Qed.

Lemma send_fact_Ok channel now request value stream rest :
  request_ok request → _send_fact channel now request value stream = Ok rest →
  ∃ c, channel = Some c ∧ is_datagram c = true ∧
    send c (canonical_bytes (fact_payload request value now)) =
      Ok (String.length (canonical_bytes (fact_payload request value now))) ∧
    stream = canonical_bytes (expected_commit request) +:+ newline +:+ rest.
Proof.
  intros Hok H. unfold _send_fact in H. destruct channel as [c|]; [|done]. exists c.
  apply refuse_bind in H as [Hd%negb_false_iff H]. apply result_bind_Ok in H as (raw & [-> _]%encoded_Ok & H).
  apply result_bind_Ok in H as (sent & Hs & H). apply refuse_bind in H as [Hn%negb_false_iff%Nat.eqb_eq H].
  subst sent. split_and!; try done. by eapply check_commit_Ok.
Qed.

(** How [main] ends after the commit's outcome [r] and the release. *)
Definition finish {W} (r : result source_exn ()) (released : result source_exn () * W) : result source_exn Z * W :=
  (match released.1 with Ok _ => exit_status r | Raise e => Raise e end, released.2).

(** C33: When main of a lifecycle source is given a fact whose action waits for the
    runner, the action runs only after the whole fact was sent as one datagram on the
    inherited channel and the next line of the input was exactly the canonical commit of
    this request's challenge and phase. Otherwise it does not run. Its release runs in
    both cases, and a request that is refused runs no handler at all. *)
Theorem action_runs_after_bound_commit {W : Type} (channel : option Channel) (now : Z)
    (handler : event_dict → method W source_exn Prepared) (stdin : string) (w : W) :
  (∀ e, _read_request stdin = Raise e → main channel now handler stdin w = (exit_status (A := ()) (Raise e), w)) ∧
  (∀ request rest value commit release w1,
     _read_request stdin = Ok (request, rest) → handler request w = (Ok (PreparedFact value commit release), w1) →
     (∃ e, _send_fact channel now request value rest = Raise e ∧
        main channel now handler stdin w = finish (Raise e) (release w1)) ∨
     (∃ c rest', channel = Some c ∧ is_datagram c = true ∧
        send c (canonical_bytes (fact_payload request value now)) =
          Ok (String.length (canonical_bytes (fact_payload request value now))) ∧
        stdin = canonical_bytes (JObj request) +:+ newline +:+
                canonical_bytes (expected_commit request) +:+ newline +:+ rest' ∧
        main channel now handler stdin w = finish (commit w1).1 (release (commit w1).2))).
Proof.
  unfold main. split; [by intros e ->|]. intros request rest value commit release w1 Hr Hh. rewrite Hr, Hh.
  apply read_request_Ok in Hr as (-> & _ & _ & _ & _ & Hok).
  destruct (_send_fact channel now request value rest) as [rest'|e] eqn:Hsend.
  - right. destruct (send_fact_Ok _ _ _ _ _ _ Hok Hsend) as (c & Hc & Hd & Hs & ->). exists c, rest'.
    split_and!; try done. destruct (commit w1) as [r w2]. unfold finish. cbn [fst snd].
    by destruct (release w2) as [[]].
  - left. exists e. split; [done|]. unfold finish. by destruct (release w1) as [[]].
Qed.

(** ** The fault's selection *)

Record fault_selected (request target entry_point : event_dict) (records : list JournalEvent) (f : Fault) : Prop := {
  selected_effects : ∀ r, r ∈ fa_target_records f ↔
    r ∈ records ∧ is_effect request entry_point r = true ∧ of_target target r = true;
  selected_some : ∃ r, r ∈ fa_target_records f;
  selected_journal : ∀ r, r ∈ fa_target_records f → je_journal r = fa_journal f;
  selected_only : ∀ r, r ∈ records → je_journal r = fa_journal f → of_target target r = true;
  selected_raw : fa_raw f =
    join "" ((λ r, je_raw r +:+ newline) <$> filter (λ r, je_journal r = fa_journal f) records);
  selected_peers : fa_peer_slots f ≠ [] ∧ ∀ k, k ∈ fa_peer_slots f ↔
    k ∈ required_keys request ∧ k.1 ≠ process_slot target ∧
    ∃ r, r ∈ records ∧ is_effect request entry_point r = true ∧ item_key r = k;
}.

Lemma elem_of_filter_true (p : JournalEvent → bool) r (l : list JournalEvent) :
  r ∈ filter (λ r, Is_true (p r)) l ↔ r ∈ l ∧ p r = true.
Proof. rewrite list_elem_of_filter, Is_true_true. tauto. Qed.

Lemma select_fault_Ok request target entry_point records f :
  select_fault request target entry_point records = Ok f →
  fault_selected request target entry_point records f.
Proof.
  unfold select_fault. cbv zeta.
  destruct (remove_dups _) as [|j [|j' js]] eqn:Hj; try done.
  intros [Hp%bool_decide_eq_false [Hall [= <-]]%refuse_bind]%refuse_bind.
  assert (∀ n, n ∈ je_journal <$> filter (λ r, Is_true (of_target target r))
                                   (filter (λ r, Is_true (is_effect request entry_point r)) records) ↔ n = j) as Hn.
  { intros n. rewrite <-elem_of_remove_dups, Hj. set_solver. }
  split; cbn [fa_target_records fa_journal fa_raw fa_peer_slots].
  - intros r. rewrite !elem_of_filter_true. tauto.
  - pose proof (proj2 (Hn j) eq_refl) as (r & _ & Hr)%list_elem_of_fmap. by exists r.
  - intros r Hr. apply Hn, list_elem_of_fmap_2, Hr.
  - intros r Hr Ej. apply not_true_iff_false in Hall. destruct (of_target target r) eqn:E; [done|]. destruct Hall.
    apply existsb_exists. exists r. split; [by apply list_elem_of_In, list_elem_of_filter|]. rewrite E.
    by rewrite orb_true_r.
  - done.
  - split; [done|]. intros k. unfold peer_keys. rewrite elem_of_sort_on, elem_of_remove_dups, list_elem_of_filter, list_elem_of_fmap.
    setoid_rewrite elem_of_filter_true. naive_solver.
Qed.

Lemma record_event_ok {U : UnicodeInt} r : record_ok r → event_ok (je_event r).
Proof.
  intros [_ H]. unfold parse_host_event in H. apply result_bind_Ok in H as (v & _ & [-> Hok]%check_event_Ok). done.
Qed.

Lemma same_string k a b s : same_in k a b = true → json_get k b = JStr s → json_get k a = JStr s.
Proof. unfold same_in. intros H E. rewrite E in H. by apply json_eqb_str in H. Qed.

(** A record of the target is of the target's slot and epoch. *)
Lemma of_target_key {U : UnicodeInt} target r :
  target_spec (JObj target) → record_ok r → of_target target r = true → item_key r = process_key target.
Proof.
  intros (kv & [= <-] & Hf & (h & Hh & _) & (ro & Hro & _) & (o & Ho & _) & (e & He & _)) Hr Ht.
  apply record_event_ok in Hr. destruct Hr as [_ _ _ _ _ (_ & Hstr & Hnat) _ _ _ _ _ _ _].
  unfold of_target in Ht. rewrite forallb_forall in Ht. rewrite has_exactly_spec in Hf.
  assert (∀ k, k ∈ ["host"; "role"; "ordinal"; "process_epoch"] →
            same_in k (sub_object "process" (je_event r)) target = true) as Hs.
  { intros k Hk. apply Ht, list_elem_of_In, Hf, Hk. }
  assert (∀ k z, k ∈ ["ordinal"; "process_epoch"] → json_get k target = JInt z →
            json_get k (sub_object "process" (je_event r)) = JInt z) as Hint.
  { intros k z Hk E. assert (same_in k (sub_object "process" (je_event r)) target = true) as H by (apply Hs; set_solver).
    unfold same_in in H. rewrite E in H. rewrite Forall_forall in Hnat.
    destruct (Hnat k) as (y & Hy & _); [set_solver|]. rewrite Hy in *. by apply Z.eqb_eq in H as ->. }
  assert (json_get "host" (sub_object "process" (je_event r)) = JStr h) as H1.
  { eapply same_string; [apply Hs; set_solver|done]. }
  assert (json_get "role" (sub_object "process" (je_event r)) = JStr ro) as H2.
  { eapply same_string; [apply Hs; set_solver|done]. }
  assert (json_get "ordinal" (sub_object "process" (je_event r)) = JInt o) as H3 by (apply Hint; [set_solver|done]).
  assert (json_get "process_epoch" (sub_object "process" (je_event r)) = JInt e) as H4 by (apply Hint; [set_solver|done]).
  unfold item_key, process_key, process_slot. by rewrite H1, H2, H3, H4, Hh, Hro, Ho, He.
Qed.

Definition left_by (j : string) (records : list JournalEvent) : list JournalEvent :=
  filter (λ r, je_journal r ≠ j) records.

Lemma evidence_left_after {U : UnicodeInt} request target entry_point records f :
  target_spec (JObj target) → Forall record_ok records →
  fault_selected request target entry_point records f →
  evidence_left request target entry_point f (left_by (fa_journal f) records) =
  refuse (negb (forallb (λ k, bool_decide (slot_role k.1 = "worker")) (fa_peer_slots f)))
    "fault changed non-target worker evidence".
Proof.
  intros Ht Hok [He _ Hj Honly _ [_ Hpeers]]. rewrite Forall_forall in Hok.
  unfold evidence_left, left_by. cbv zeta.
  assert (existsb (λ r, is_effect request entry_point r && of_target target r)
            (filter (λ r, je_journal r ≠ fa_journal f) records) = false) as ->.
  { apply not_true_iff_false. intros (r & Hr & H)%existsb_exists. apply list_elem_of_In, list_elem_of_filter in Hr as [Hn Hr].
    apply andb_true_iff in H. apply Hn, Hj, He. tauto. }
  cbn [refuse raise_if mbind result_bind]. unfold refuse at 1. unfold refuse. f_equal. f_equal.
  apply eq_true_iff_eq. rewrite !forallb_forall. setoid_rewrite <-list_elem_of_In. setoid_rewrite bool_decide_eq_true.
  split; intros H k Hk; specialize (H k Hk).
  - apply list_elem_of_fmap in H as (r & -> & [[_ Hw] _]%list_elem_of_filter). done.
  - apply Hpeers in Hk as (_ & Hslot & r & Hr & Heff & <-). apply list_elem_of_fmap_2, list_elem_of_filter.
    split; [by rewrite Is_true_true|]. apply list_elem_of_filter. split; [|done].
    intros Hjr. apply Hslot. rewrite (of_target_key target r Ht); [done|by apply Hok|by apply Honly].
Qed.

(** ** The journal in its directory *)

Lemma filter_fmap {A B} (g : A → B) (P : B → Prop) `{∀ x, Decision (P x)} (l : list A) :
  g <$> filter (λ x, P (g x)) l = filter P (g <$> l).
Proof.
  induction l as [|x l IH]; [done|]. rewrite fmap_cons, !filter_cons. case_decide; [|done].
  by rewrite fmap_cons, IH.
Qed.

Definition place_journal (p : string * nat * string) : string := p.1.1.

Lemma numbered_journal n k lines : Forall (λ p, place_journal p = n) (numbered n k lines).
Proof. revert k. induction lines as [|l lines IH]; intros k; constructor; [done|apply IH]. Qed.

Lemma numbered_lines n k lines : snd <$> numbered n k lines = lines.
Proof. revert k. induction lines as [|l lines IH]; intros k; [done|]. cbn [numbered]. by rewrite fmap_cons, IH. Qed.

Section journal_places.
Context (g : string → list (string * nat * string)) (Hg : ∀ n, Forall (λ p, place_journal p = n) (g n)).

Lemma places_without j l :
  filter (λ p, place_journal p ≠ j) (concat (g <$> l)) = concat (g <$> filter (.≠ j) l).
Proof.
  induction l as [|n l IH]; [done|]. rewrite fmap_cons, filter_cons. cbn [concat]. rewrite filter_app, IH.
  case_decide as Hn.
  - rewrite filter_whole; [done|]. eapply Forall_impl; [apply Hg|]. by intros p ->.
  - rewrite filter_none; [done|]. eapply Forall_impl; [apply Hg|]. intros p -> Hne. by apply Hne.
Qed.

Lemma places_of j l :
  NoDup l → j ∈ l → filter (λ p, place_journal p = j) (concat (g <$> l)) = g j.
Proof.
  induction 1 as [|n l Hn Hl IH]; [by intros ?%elem_of_nil|]. intros Hj. rewrite fmap_cons. cbn [concat].
  rewrite filter_app. destruct (decide (n = j)) as [->|Hnj].
  - rewrite filter_whole by apply Hg. rewrite filter_none; [apply app_nil_r|].
    apply Forall_forall. intros p (x & Hx & Hp)%list_elem_of_In%in_concat E.
    apply list_elem_of_In, list_elem_of_fmap in Hx as (m & -> & Hm).
    pose proof (Hg m) as Hgm. rewrite Forall_forall in Hgm.
    rewrite (Hgm p) in E by (by apply list_elem_of_In). by subst m.
  - rewrite filter_none, IH; [done|set_solver|]. eapply Forall_impl; [apply Hg|]. by intros p ->.
Qed.
End journal_places.

(** The directory without the journal [j]. *)
Definition without (j : string) (d : HostEventSink.Directory) : HostEventSink.Directory :=
  HostEventSink.with_files (delete j (HostEventSink.files d)) d.

Lemma names_without j d : names_of (without j d) = filter (.≠ j) (names_of d).
Proof.
  unfold names_of at 1. cbn [HostEventSink.files without HostEventSink.with_files].
  rewrite <-(sort_on_sorted_id id (filter (.≠ j) (names_of d)))
    by (apply StronglySorted_filter; unfold names_of; exact (sort_on_sorted id _)).
  apply sort_on_unique.
  - apply _.
  - rewrite list_fmap_id. apply NoDup_fst_map_to_list.
  - apply NoDup_Permutation; [apply NoDup_fst_map_to_list| |].
    + apply NoDup_filter. unfold names_of. rewrite sort_on_perm. apply NoDup_fst_map_to_list.
    + intros n. rewrite list_elem_of_filter, elem_of_names, list_elem_of_fmap. split.
      * intros ([n' f] & -> & H%elem_of_map_to_list). apply lookup_delete_Some in H as [Hne H]. by split; [|exists f].
      * intros [Hne [f Hf]]. exists (n, f). split; [done|]. apply elem_of_map_to_list. by rewrite lookup_delete_ne.
Qed.

Lemma journals_without j names : journals (filter (.≠ j) names) = filter (.≠ j) (journals names).
Proof.
  induction names as [|n names IH]; [done|]. rewrite journals_cons, filter_cons.
  destruct (decide (n ≠ j)) as [Hn|Hn], (ends_with ".jsonl" n) eqn:E; rewrite ?journals_cons, ?E, ?filter_cons, IH;
    repeat case_decide; done.
Qed.

Lemma places_without_journal j d :
  places_in (without j d) (names_of (without j d)) =
  filter (λ p, place_journal p ≠ j) (places_in d (names_of d)).
Proof.
  unfold places_in. rewrite names_without, journals_without.
  rewrite (places_without (λ n, numbered n 1 (split_lines (text_in d n)))) by (intros; apply numbered_journal).
  f_equal. apply list_fmap_ext. intros i n [Hn _]%list_elem_of_lookup_2%list_elem_of_filter.
  unfold text_in. cbn [HostEventSink.files without HostEventSink.with_files]. by rewrite lookup_delete_ne.
Qed.

Section directory.
Context {U : UnicodeInt}.

Lemma listing_without j d records : listing d records → listing (without j d) (left_by j records).
Proof.
  intros [Hr [Hp Hok Hid _]]. split.
  - intros n f Hf. cbn [HostEventSink.files without HostEventSink.with_files] in Hf.
    apply lookup_delete_Some in Hf as [_ Hf]. by eapply Hr.
  - unfold left_by. split.
    + rewrite places_without_journal, <-Hp. exact (filter_fmap place (λ p, place_journal p ≠ j) records).
    + rewrite Forall_forall in *. intros r [_ Hin]%list_elem_of_filter. auto.
    + eapply sublist_NoDup; [exact Hid|]. apply fmap_sublist, sublist_filter.
    + apply Forall_true. set_solver.
Qed.

Lemma journal_lines j d records r :
  listing d records → r ∈ records → je_journal r = j →
  je_raw <$> filter (λ r, je_journal r = j) records = split_lines (text_in d j) ∧ HostEventSink.partial (text_in d j) = false.
Proof.
  intros Hlist Hr Hj. pose proof Hlist as [Hread [Hp _ _ _]].
  assert (j ∈ journals (names_of d)) as Hin.
  { assert (place r ∈ places_in d (names_of d)) as H by (rewrite <-Hp; by apply list_elem_of_fmap_2).
    apply list_elem_of_In, in_concat in H as (x & Hx & H). apply list_elem_of_In, list_elem_of_fmap in Hx as (n & -> & Hn).
    pose proof (numbered_journal n 1 (split_lines (text_in d n))) as Hg. rewrite Forall_forall in Hg.
    specialize (Hg (place r) (proj2 (list_elem_of_In _ _) H)). cbn in Hg. by rewrite <-Hj, Hg. }
  split; [|eapply whole_text; [done|]; by apply elem_of_journals in Hin as [? _]].
  assert (place <$> filter (λ r, je_journal r = j) records = numbered j 1 (split_lines (text_in d j))) as E.
  { etrans; [exact (filter_fmap place (λ p, place_journal p = j) records)|]. rewrite Hp. unfold places_in.
    rewrite (places_of (λ n, numbered n 1 (split_lines (text_in d n)))); [done| |apply NoDup_names|done].
    intros n. apply numbered_journal. }
  etrans; [exact (list_fmap_compose place snd (filter (λ r, je_journal r = j) records))|].
  rewrite E. apply numbered_lines.
Qed.
End directory.

(** No carriage return in the text. *)
Definition no_return (s : string) : Prop := Forall (λ b, b ≠ 13)%N (bytes_of_string s).

Lemma rejoin_lines t :
  closed t = true → no_return t → join "" ((λ l, l +:+ newline) <$> split_lines t) = t.
Proof.
  induction t as [|a t IH]; [done|]. intros Hc Hr. inversion Hr as [|? ? Ha Hr']; subst.
  assert ((code a =? 13)%N = false) as E13 by (by apply N.eqb_neq).
  assert (t ≠ "" → join "" ((λ l, l +:+ newline) <$> split_lines t) = t) as IHt.
  { intros Hne. apply IH; [by destruct t|done]. }
  cbn [split_lines]. rewrite E13. destruct (code a =? 10)%N eqn:E10.
  - apply N.eqb_eq in E10. rewrite fmap_cons, join_nil_cons.
    assert (a = Ascii.ascii_of_N 10) as -> by (rewrite <-(Ascii.ascii_N_embedding a); unfold code in E10; by rewrite E10).
    change ("" +:+ newline) with newline. unfold newline at 1. rewrite string_app_cons. f_equal.
    destruct t as [|b t]; [done|]. by apply IHt.
  - destruct t as [|b t]; [cbn in Hc; congruence|]. specialize (IHt ltac:(done)).
    destruct (split_lines (String b t)) as [|l ls] eqn:El.
    + rewrite <-IHt in *. done.
    + rewrite fmap_cons, join_nil_cons in *. rewrite !string_app_cons. f_equal. exact IHt.
Qed.

Lemma descriptor_target_Ok request descriptor target entry_point :
  descriptor_target request descriptor = Ok (target, entry_point) →
  target_spec (JObj target) ∧ json_get "role" target = JStr "worker" ∧ process_key target ∈ required_keys request.
Proof.
  unfold descriptor_target. cbv zeta. intros [H1%negb_false_iff H]%refuse_bind.
  apply refuse_bind in H as [H2 [= <- <-]]. apply orb_false_iff in H2 as [H2%negb_false_iff%bool_decide_eq_true _].
  rewrite !andb_true_iff in H1. destruct H1 as [[[_ H3%target_ok_spec] H4%json_eqb_str] _].
  destruct H3 as (kv & E & H3). rewrite E in *. split_and!; [by exists kv|done|done].
Qed.

(** C34: The journal the partial-coverage fault selects from what read_events returned
    holds every effect of the target, at least one, and no line of another process; the
    text the fault is prepared with is the journal's own when it has no carriage return.
    Once the journal is gone, the directory lists exactly the other records, and the
    check of the evidence left passes when every peer is a worker, and fails when one
    has another role. *)
Theorem fault_withholds_exactly_target {U : UnicodeInt} (request descriptor target entry_point : event_dict)
    (d : HostEventSink.Directory) (records : list JournalEvent) (f : Fault) :
  descriptor_target request descriptor = Ok (target, entry_point) → listing d records →
  select_fault request target entry_point records = Ok f →
  (∃ r, r ∈ records ∧ is_effect request entry_point r = true ∧ of_target target r = true) ∧
  (∀ r, r ∈ records → is_effect request entry_point r = true → of_target target r = true →
     je_journal r = fa_journal f) ∧
  (∀ r, r ∈ records → je_journal r = fa_journal f → item_key r = process_key target) ∧
  (no_return (text_in d (fa_journal f)) → fa_raw f = text_in d (fa_journal f)) ∧
  listing (without (fa_journal f) d) (left_by (fa_journal f) records) ∧
  evidence_left request target entry_point f (left_by (fa_journal f) records) =
    refuse (negb (forallb (λ k, bool_decide (slot_role k.1 = "worker")) (fa_peer_slots f)))
      "fault changed non-target worker evidence".
Proof.
  intros [Ht _]%descriptor_target_Ok Hlist Hf%select_fault_Ok.
  assert (Forall record_ok records) as Hok by (destruct Hlist as [_ []]; done).
  pose proof Hf as [He [r Hr] Hj Honly Hraw _].
  split_and!.
  - exists r. by apply He.
  - intros r' ? ? ?. apply Hj, He. done.
  - intros r' Hin Hjr. rewrite Forall_forall in Hok. apply (of_target_key target r' Ht); auto.
  - intros Hn. pose proof (proj1 (He r) Hr) as (Hin & _).
    destruct (journal_lines _ d records r Hlist Hin (Hj r Hr)) as [Hl Hp].
    rewrite Hraw. etrans; [|apply (rejoin_lines (text_in d (fa_journal f))); [by apply closed_whole|done]].
    f_equal. rewrite <-Hl. exact (list_fmap_compose je_raw (λ l, l +:+ newline) _).
  - by apply listing_without.
  - by apply evidence_left_after.
Qed.
End theorems.

(** ** One lifecycle *)

Module Example.
#[local] Existing Instance SignedAttestation.Example.float_text.
#[local] Existing Instance HostEvidence.Example.no_unicode.

Definition process (role : string) (ordinal pid : Z) : event_dict :=
  [("host", JStr "node"); ("role", JStr role); ("ordinal", JInt ordinal); ("pid", JInt pid);
   ("start_identity", JStr ("pid:" +:+ pretty pid +:+ ":start_ticks:9")); ("process_epoch", JInt 1);
   ("assignment_source", JStr "host")].
Definition event (p : event_dict) : event_dict :=
  map (λ '(k, v), if decide (k = "process") then (k, JObj p) else (k, v))
    (HostEvidence.Example.without_id (JStr "invoked")).
Definition event_text (p : event_dict) : string :=
  dumps true (JObj (("event_id", digest_of (event_material p HostEvidence.Example.an_entry_point (event p))) :: event p)).
Definition journal_of (p : event_dict) : string := event_text p +:+ newline.

Definition target (role : string) (ordinal : Z) : json :=
  JObj [("host", JStr "node"); ("ordinal", JInt ordinal); ("process_epoch", JInt 1); ("role", JStr role)].
Definition a_request (fact kind : string) : event_dict :=
  [("challenge", JStr "c-1"); ("controller_instance", JStr "controller"); ("fact", JStr fact);
   ("invocation_id", JStr "i-1"); ("launch_id", JStr "launch-1");
   ("plan_id", JStr HostEvidence.Example.a_plan_id);
   ("required_processes", JArr [target "worker" 0; target "worker" 1; target "engine" 0]);
   ("scenario", JStr "partial-worker-coverage"); ("schema", JStr REQUEST_SCHEMA); ("sequence", JInt 3);
   ("source_kind", JStr kind); ("sut_pid", JInt 7);
   ("sut_process_identity",
    JObj [("argv", JArr [JStr "py"]); ("pid", JInt 7); ("start_ticks", JInt 9)])].
Definition fault_request : event_dict := a_request "fault-injected" "fault-actuator".
Definition fault_line : string := Eval vm_compute in canonical_bytes (JObj fault_request) +:+ newline.
Definition commit_line : string := Eval vm_compute in canonical_bytes (expected_commit fault_request) +:+ newline.

Lemma request_read : _read_request (fault_line +:+ commit_line) = Ok (fault_request, commit_line).
Proof. vm_compute. reflexivity. Qed.

(** A fact the table does not know passes with a null source kind. *)
Definition unknown_request : event_dict :=
  map (λ '(k, v), if decide (k = "source_kind") then (k, JNull) else (k, v)) (a_request "unknown" "").
Example unknown_fact_accepted :
  _read_request (canonical_bytes (JObj unknown_request) +:+ newline) = Ok (unknown_request, "").
Proof. vm_compute. reflexivity. Qed.

Example requests_refused :
  _read_request "{}" = Raise (LifecycleSourceError "lifecycle request is missing or oversized") ∧
  _read_request ("{" +:+ newline) = Raise (LifecycleSourceError "lifecycle request JSON is invalid") ∧
  _read_request ("{ }" +:+ newline) = Raise (LifecycleSourceError "lifecycle request is not canonical or bound").
Proof. vm_compute. by split_and!. Qed.

Definition a_channel : Channel := mkChannel true (λ s, Ok (String.length s)).
(** The handler's state counts the commits and the releases. *)
Definition a_handler : event_dict → method (nat * nat) source_exn Prepared := λ _ w,
  (Ok (PreparedFact (JStr "partial-worker-coverage")
         (λ w, (Ok (), (S w.1, w.2))) (λ w, (Ok (), (w.1, S w.2)))), w).

Example main_commits :
  main (Some a_channel) 5 a_handler (fault_line +:+ commit_line) (0, 0)%nat = (Ok 0%Z, (1, 1)%nat) ∧
  main (Some a_channel) 5 a_handler (fault_line +:+ "{}" +:+ newline) (0, 0)%nat = (Ok 2%Z, (0, 1)%nat).
Proof. vm_compute. by split. Qed.

Definition a_descriptor : event_dict :=
  [("schema", JStr "ecpa-evidence-quarantine-fault/v1"); ("scenario", JStr "partial-worker-coverage");
   ("target", target "worker" 0); ("entry_point", JObj HostEvidence.Example.an_entry_point)].
Definition a_target : event_dict := members (target "worker" 0).

(** The journals of the target and of one other process. *)
Definition a_directory (peer : event_dict) : HostEventSink.Directory :=
  HostJournal.Example.a_directory
    {["t.jsonl" := HostJournal.Example.owned (journal_of (process "worker" 0 7));
      "p.jsonl" := HostJournal.Example.owned (journal_of peer)]}.
Definition records_of_directory (d : HostEventSink.Directory) : list JournalEvent :=
  match (read_events HostJournal.Example.an_environment true HostEventSink.Source None None
           (HostJournal.Example.a_world d)).1 with
  | Ok records => records
  | Raise _ => []
  end.

Definition run (peer : event_dict) : result source_exn () :=
  '(target, entry_point) ← descriptor_target fault_request a_descriptor;
  let records := records_of_directory (a_directory peer) in
  f ← select_fault fault_request target entry_point records;
  evidence_left fault_request target entry_point f (left_by (fa_journal f) records).

(** The other worker may be the only observed peer; a process of another role may not. *)
Lemma worker_peer_passes : run (process "worker" 1 8) = Ok ().
Proof. vm_compute. reflexivity. Qed.
Lemma other_peer_refused :
  run (process "engine" 0 8) = Raise (LifecycleSourceError "fault changed non-target worker evidence").
Proof. vm_compute. reflexivity. Qed.

Lemma request_accepted_exactly_witness :
  _read_request (fault_line +:+ commit_line) = Ok (fault_request, commit_line) ∧ request_ok fault_request.
Proof.
  split; [exact request_read|].
  destruct (request_accepted_exactly (fault_line +:+ commit_line) fault_request commit_line) as [H _].
  exact (proj2 (H request_read)).
Defined.

Lemma action_runs_after_bound_commit_witness :
  main (Some a_channel) 5 a_handler (fault_line +:+ commit_line) (0, 0)%nat = (Ok 0%Z, (1, 1)%nat) ∧
  ((∃ e, _send_fact (Some a_channel) 5 fault_request (JStr "partial-worker-coverage") commit_line = Raise e ∧
      main (Some a_channel) 5 a_handler (fault_line +:+ commit_line) (0, 0)%nat = finish (Raise e) (Ok (), (0, 1)%nat)) ∨
   (∃ c rest', Some a_channel = Some c ∧ is_datagram c = true ∧
      send c (canonical_bytes (fact_payload fault_request (JStr "partial-worker-coverage") 5)) =
        Ok (String.length (canonical_bytes (fact_payload fault_request (JStr "partial-worker-coverage") 5))) ∧
      fault_line +:+ commit_line = canonical_bytes (JObj fault_request) +:+ newline +:+
        canonical_bytes (expected_commit fault_request) +:+ newline +:+ rest' ∧
      main (Some a_channel) 5 a_handler (fault_line +:+ commit_line) (0, 0)%nat = finish (Ok ()) (Ok (), (1, 1)%nat))).
Proof.
  split; [exact (proj1 main_commits)|].
  destruct (action_runs_after_bound_commit (Some a_channel) 5 a_handler (fault_line +:+ commit_line) (0, 0)%nat)
    as [_ H].
  exact (H fault_request commit_line _ _ _ _ request_read eq_refl).
Defined.

Definition a_peer : event_dict := process "worker" 1 8.
Definition the_records : list JournalEvent := Eval vm_compute in records_of_directory (a_directory a_peer).
Definition the_fault : Fault := Eval vm_compute in
  match select_fault fault_request a_target HostEvidence.Example.an_entry_point the_records with
  | Ok f => f
  | Raise _ => mkFault "" "" [] [] []
  end.

Lemma the_listing : listing (a_directory a_peer) the_records.
Proof.
  refine (proj2 (read_events_sound HostJournal.Example.an_environment true HostEventSink.Source None None
            (HostJournal.Example.a_world (a_directory a_peer)) the_records
            (HostJournal.Example.a_world (a_directory a_peer)) _)).
  vm_compute. reflexivity.
Qed.

Lemma the_target :
  descriptor_target fault_request a_descriptor = Ok (a_target, HostEvidence.Example.an_entry_point).
Proof. vm_compute. reflexivity. Qed.

Lemma the_selection :
  select_fault fault_request a_target HostEvidence.Example.an_entry_point the_records = Ok the_fault.
Proof. vm_compute. reflexivity. Qed.

Lemma fault_withholds_exactly_target_witness :
  listing (without (fa_journal the_fault) (a_directory a_peer)) (left_by (fa_journal the_fault) the_records) ∧
  evidence_left fault_request a_target HostEvidence.Example.an_entry_point the_fault
    (left_by (fa_journal the_fault) the_records) =
  refuse (negb (forallb (λ k, bool_decide (slot_role k.1 = "worker")) (fa_peer_slots the_fault)))
    "fault changed non-target worker evidence".
Proof.
  destruct (fault_withholds_exactly_target fault_request a_descriptor a_target HostEvidence.Example.an_entry_point
              (a_directory a_peer) the_records the_fault the_target the_listing the_selection)
    as (_ & _ & _ & _ & H1 & H2).
  split; [exact H1|exact H2].
Defined.
End Example.
