(* ===== verification/QuarantineTransaction.v ===== *)
(** * The quarantine transaction: [quarantine_transaction.py]

    A fault injector withholds one journal of the host: it records an intent with the
    journal's bytes, fences the journal against its writer, moves it to the quarantine
    directory and records that it did; a runner finalizes the move, or a later run
    reconciles what a crash left.  Records are files of the quarantine directory, the
    fence is a file of the source directory, and each is published by renaming a
    temporary.  [prepare_fault] and [commit_fault] are the transaction of
    [formal_lifecycle_source.py]; what it re-reads from the journals between the steps
    is an argument. *)

From S2P Require Import Prelude PyStd HostEventSink.
From S2P Require EcpaModel.

Local Open Scope string_scope.
Local Open Scope list_scope.

Definition object : Type := list (string * json).

Inductive Stage : Type := intent | applied | finalized | restored | blocked.

#[export] Instance Stage_eq_dec : EqDecision Stage.
Proof. solve_decision. Defined.

Definition Stage_value (s : Stage) : string :=
  match s with
  | intent => "intent" | applied => "applied" | finalized => "finalized"
  | restored => "restored" | blocked => "blocked"
  end.
Definition STAGES : list Stage := [intent; applied; finalized; restored; blocked].

Definition INTENT_SCHEMA : string := "ecpa-quarantine-intent/v1".
Definition APPLIED_SCHEMA : string := "ecpa-quarantine-applied/v1".
Definition FINALIZED_SCHEMA : string := "ecpa-quarantine-finalized/v1".
Definition RESTORED_SCHEMA : string := "ecpa-quarantine-restored/v1".
Definition BLOCKED_SCHEMA : string := "ecpa-quarantine-blocked/v1".
Definition FENCE_SCHEMA : string := "ecpa-quarantine-source-fence/v1".
Definition MAX_TRANSACTION_RECORD_BYTES : Z := 2 * 1024 * 1024.

Definition _INTENT_FIELDS : list string :=
  ["schema"; "transaction_id"; "binding"; "source_directory"; "quarantine_directory"; "journal";
   "journal_device"; "journal_inode"; "journal_bytes"; "journal_base64"; "journal_sha256"].
Definition _APPLIED_FIELDS : list string :=
  ["schema"; "transaction_id"; "intent_digest"; "journal"; "journal_device"; "journal_inode";
   "journal_bytes"; "journal_sha256"].
Definition _TERMINAL_FIELDS : list string :=
  ["schema"; "transaction_id"; "intent_digest"; "applied_digest"; "reason"; "finalized_digest"].
Definition _FINALIZED_FIELDS : list string :=
  ["schema"; "transaction_id"; "intent_digest"; "applied_digest"; "fact_receipt_sha256";
   "source_process_identity"].
Definition _RESTORE_REASONS : list string :=
  ["catchable-post-move-failure"; "no-move-observed"; "restored-after-applied";
   "restored-after-move"].
Definition _BLOCK_REASONS : list string :=
  ["journal-missing-from-both-roots"; "restore-verification-failed";
   "source-changed-before-recovery"; "source-replacement-collision";
   "source-replacement-after-finalize"].
Definition _FENCE_FIELDS : list string :=
  ["schema"; "transaction_id"; "intent_digest"; "journal"; "journal_device"; "journal_inode";
   "journal_sha256"].

Notation QTE := QuarantineTransactionError.

(** ** Names *)

Definition is_hex_string (n : nat) (s : string) : bool :=
  (String.length s =? n)%nat && string_forallb is_hex s.

(** [_TRANSACTION_TEMP_PATTERN] and [_FENCE_TEMP_PATTERN] after their prefix: dotted
    fields, a process id without leading zeros, a 32-digit token. *)
Definition is_pid (s : string) : bool :=
  string_forallb is_digit s && negb (starts_with "0" s) && negb (bool_decide (s = "")).

Definition pid_and_token (s : string) : bool :=
  is_pid (before_dot s) && is_hex_string 32 (before_dot (after_dot s)) &&
  bool_decide (after_dot (after_dot s) = "tmp").

Definition transaction_temp_prefix : string := ".ecpa-transaction-".
Definition fence_temp_prefix : string := ".ecpa-fence-temp-".

Definition _TRANSACTION_TEMP_PATTERN (name : string) : bool :=
  starts_with transaction_temp_prefix name &&
  let s := remove_prefix transaction_temp_prefix name in
  is_hex_string 64 (before_dot s) &&
  bool_decide (before_dot (after_dot s) ∈ Stage_value <$> STAGES) &&
  pid_and_token (after_dot (after_dot s)).

Definition _FENCE_TEMP_PATTERN (name : string) : bool :=
  starts_with fence_temp_prefix name &&
  let s := remove_prefix fence_temp_prefix name in
  is_hex_string 64 (before_dot s) && pid_and_token (after_dot s).

Definition quarantine_transaction_id (binding : json) : string :=
  sha256_hexdigest (EcpaModel.canonical_bytes binding).

Definition _digest (raw : string) : string := "sha256:" +:+ sha256_hexdigest raw.

Definition _is_digest (v : json) : bool :=
  match v with
  | JStr s => starts_with "sha256:" s && is_hex_string 64 (String.substring 7 (String.length s) s)
  | _ => false
  end.

Definition _directory_value (identity : Z * Z) : json :=
  JObj [("device", JInt identity.1); ("inode", JInt identity.2)].

Definition _record_name (transaction_id : string) (stage : Stage) : result exn string :=
  if is_hex_string 64 transaction_id
  then Ok ("ecpa-" +:+ transaction_id +:+ "." +:+ Stage_value stage +:+ ".json")
  else Raise (QTE "quarantine transaction name is invalid").

Record DurableRecord : Type := mkRecord {
  name : string; record_raw : string; digest : string; value : object;
}.

Record ReconciliationResult : Type := mkReconciliation {
  rc_restored : list string; rc_finalized : list string;
}.

Record QuarantineTransactionLease : Type := mkLease {
  l_root : Root; l_identity : Z * Z; l_open : bool;
}.

Section transaction.
Context {K : Kernel}.

(** ** The lease *)

Definition acquire_quarantine_transaction_lease (root : Root) (expected : Z * Z)
    : op QuarantineTransactionLease :=
  _ ← _open_journal_root root (Some expected);
  _ ← catch (_acquire_quarantine_lock root true true)
        (λ e, match e with
              | HostEventSinkError _ => raise (QTE "another quarantine transaction is active")
              | _ => raise e
              end);
  _ ← os_fsync root;
  mret (mkLease root expected true).

Definition close_lease : op () := modify (set_locked false).

Definition _require_lease (lease : QuarantineTransactionLease) (root : Root) (expected : Z * Z)
    : op () :=
  let invalid := QTE "quarantine transaction lease is invalid" in
  _ ← guard_raise (negb (l_open lease) || negb (bool_decide (l_identity lease = expected))) invalid;
  w ← get;
  _ ← sys_read (λ _, if decide (d_path (dir root w) = Missing) then Raise FileNotFoundError
                     else Ok ());
  guard_raise (negb (bool_decide (root = l_root lease))) invalid.

(** [lease or acquire(...)], with the lease given back when it was acquired here. *)
Definition with_lease {A} (lease : option QuarantineTransactionLease) (root : Root)
    (expected : Z * Z) (body : op A) : op A :=
  match lease with
  | Some l => _ ← _require_lease l root expected; body
  | None =>
      l ← acquire_quarantine_transaction_lease root expected;
      finally (_ ← _require_lease l root expected; body) close_lease
  end.

(** ** Records *)

Definition _read_record_from_directory (r : Root) (n : string) (required : bool)
    : op (option DurableRecord) :=
  opened ← try_op (os_open r n);
  match opened with
  | Raise FileNotFoundError =>
      if required then raise (QTE ("quarantine transaction record is missing: " +:+ n))
      else mret None
  | Raise e =>
      raise (if is_os_error e then QTE ("cannot open quarantine transaction record: " +:+ n)
             else e)
  | Ok f =>
      f ← os_fstat f;
      _ ← guard_raise (negb (private_file f))
            (QTE ("quarantine transaction record is unsafe: " +:+ n));
      s ← os_read f;
      _ ← guard_raise (oversized s MAX_TRANSACTION_RECORD_BYTES)
            (QTE ("quarantine transaction record is oversized: " +:+ n));
      match f_content f with
      | Bytes _ false => raise (QTE ("quarantine transaction record is invalid JSON: " +:+ n))
      | Document (JObj kv) => mret (Some (mkRecord n s (_digest s) kv))
      | _ => raise (QTE ("quarantine transaction record is not canonical: " +:+ n))
      end
  end.

(** With [required] the record is there, as the [assert]s after it say. *)
Definition read_required (r : Root) (n : string) : op DurableRecord :=
  o ← _read_record_from_directory r n true;
  match o with Some d => mret d | None => raise AssertionError end.

Definition read_quarantine_record (root : Root) (expected : Z * Z) (transaction_id : string)
    (stage : Stage) (required : bool) : op (option DurableRecord) :=
  _ ← _open_journal_root root (Some expected);
  n ← lift (_record_name transaction_id stage);
  _read_record_from_directory root n required.

(** The [finally] that unlinks the temporary, and swallows its own errors. *)
Definition discard_temporary (r : Root) (temporary : string) : op () :=
  catch (_ ← os_unlink r temporary; os_fsync r)
    (λ e, if is_os_error e then mret () else raise e).

(** [m] before the temporary is renamed: when it raises, the temporary goes. *)
Definition or_discard {A} (r : Root) (temporary : string) (m : op A) : op A :=
  catch_all m (λ e, _ ← discard_temporary r temporary; raise e).

Definition conflicting (d : DurableRecord) (s : string) (e : exn) : op () :=
  guard_raise (negb (bool_decide (record_raw d = s))) e.

Definition _write_record (root : Root) (expected : Z * Z) (transaction_id : string)
    (stage : Stage) (v : object) : op DurableRecord :=
  n ← lift (_record_name transaction_id stage);
  let s := document_bytes (JObj v) in
  _ ← guard_raise (oversized s MAX_TRANSACTION_RECORD_BYTES)
        (QTE ("quarantine transaction record is oversized: " +:+ n));
  _ ← _open_journal_root root (Some expected);
  w ← get;
  token ← draw_token;
  let temporary := transaction_temp_prefix +:+ transaction_id +:+ "." +:+ Stage_value stage +:+
                   "." +:+ pretty (pid w) +:+ "." +:+ token +:+ ".tmp" in
  let conflict := QTE ("quarantine transaction record conflicts: " +:+ n) in
  existing ← _read_record_from_directory root n false;
  match existing with
  | Some d => _ ← conflicting d s conflict; mret d
  | None =>
      _ ← os_error_as (QTE ("cannot create quarantine transaction temporary record: " +:+ n))
            (os_create root temporary);
      _ ← or_discard root temporary
            (os_error_as (QTE ("cannot persist quarantine transaction record: " +:+ n)) (
               _ ← write_document root temporary (JObj v)
                     (QTE ("quarantine transaction write made no progress: " +:+ n));
               os_fsync root));
      renamed ← try_op (_rename_noreplace root temporary root n);
      match renamed with
      | Ok _ =>
          _ ← os_fsync root;
          published ← read_required root n;
          _ ← conflicting published s
                (QTE ("published quarantine transaction record differs: " +:+ n));
          mret published
      | Raise FileExistsError =>
          finally (d ← read_required root n; _ ← conflicting d s conflict; mret d)
            (discard_temporary root temporary)
      | Raise e =>
          finally (raise (if is_os_error e
                          then QTE ("cannot publish quarantine transaction record: " +:+ n) else e))
            (discard_temporary root temporary)
      end
  end.

(** ** The source fence *)

Definition _fence_value (transaction_id intent_digest : string) (s : QuarantinedJournal) : object :=
  [("schema", JStr FENCE_SCHEMA); ("transaction_id", JStr transaction_id);
   ("intent_digest", JStr intent_digest); ("journal", JStr (journal s));
   ("journal_device", JInt (device s)); ("journal_inode", JInt (inode s));
   ("journal_sha256", JStr (_digest (raw s)))].

Definition install_quarantine_source_fence (root : Root) (identity : Z * Z)
    (transaction_id intent_digest : string) (snapshot : QuarantinedJournal) : op DurableRecord :=
  let n := _quarantine_fence_name (journal snapshot) in
  let v := JObj (_fence_value transaction_id intent_digest snapshot) in
  let s := document_bytes v in
  _ ← _open_journal_root root (Some identity);
  w ← get;
  token ← draw_token;
  let temporary := fence_temp_prefix +:+ transaction_id +:+ "." +:+ pretty (pid w) +:+ "." +:+
                   token +:+ ".tmp" in
  let another := QTE "source journal has another quarantine fence" in
  os_error_as (QTE "cannot publish source journal fence") (
    existing ← _read_record_from_directory root n false;
    match existing with
    | Some d => _ ← conflicting d s another; mret d
    | None =>
        _ ← os_create root temporary;
        _ ← or_discard root temporary (
              _ ← write_document root temporary v (QTE "source fence write made no progress");
              os_fsync root);
        renamed ← try_op (_rename_noreplace root temporary root n);
        match renamed with
        | Ok _ =>
            _ ← os_fsync root;
            d ← read_required root n;
            _ ← conflicting d s (QTE "published source fence differs");
            mret d
        | Raise FileExistsError =>
            finally (d ← read_required root n; _ ← conflicting d s another; mret d)
              (discard_temporary root temporary)
        | Raise e => finally (raise e) (discard_temporary root temporary)
        end
    end).

Definition json_eq_object (v w : object) : bool := json_eqb (JObj v) (JObj w).

Definition _read_source_fence (r : Root) (transaction_id intent_digest : string)
    (snapshot : QuarantinedJournal) (required : bool) : op (option DurableRecord) :=
  record ← _read_record_from_directory r (_quarantine_fence_name (journal snapshot)) required;
  _ ← guard_raise
        (match record with
         | Some d => negb (has_exactly _FENCE_FIELDS (value d)) ||
                     negb (json_eq_object (value d)
                             (_fence_value transaction_id intent_digest snapshot))
         | None => false
         end) (QTE "source journal fence is inconsistent");
  mret record.

Definition _remove_source_fence (r : Root) (transaction_id intent_digest : string)
    (snapshot : QuarantinedJournal) : op () :=
  record ← _read_source_fence r transaction_id intent_digest snapshot false;
  match record with
  | None => mret ()
  | Some d =>
      os_error_as (QTE "cannot remove restored source journal fence") (
        _ ← os_unlink r (name d); os_fsync r)
  end.

Definition remove_quarantine_source_fence (root : Root) (identity : Z * Z)
    (transaction_id intent_digest : string) (snapshot : QuarantinedJournal) : op () :=
  _ ← _open_journal_root root (Some identity);
  _remove_source_fence root transaction_id intent_digest snapshot.

(** ** The records of a transaction *)

Definition intent_value (expected : Z * Z) (transaction_id : string) (binding : json)
    (source_identity : Z * Z) (s : QuarantinedJournal) : object :=
  [("schema", JStr INTENT_SCHEMA); ("transaction_id", JStr transaction_id); ("binding", binding);
   ("source_directory", _directory_value source_identity);
   ("quarantine_directory", _directory_value expected);
   ("journal", JStr (journal s)); ("journal_device", JInt (device s));
   ("journal_inode", JInt (inode s));
   ("journal_bytes", JInt (Z.of_nat (String.length (raw s))));
   ("journal_base64", JStr (b64encode (raw s))); ("journal_sha256", JStr (_digest (raw s)))].

Definition prepare_quarantine_transaction (root : Root) (expected : Z * Z)
    (transaction_id : string) (binding : json) (source_identity : Z * Z)
    (s : QuarantinedJournal) : op DurableRecord :=
  _write_record root expected transaction_id intent
    (intent_value expected transaction_id binding source_identity s).

Definition applied_value (transaction_id intent_digest : string) (s : QuarantinedJournal) : object :=
  [("schema", JStr APPLIED_SCHEMA); ("transaction_id", JStr transaction_id);
   ("intent_digest", JStr intent_digest); ("journal", JStr (journal s));
   ("journal_device", JInt (device s)); ("journal_inode", JInt (inode s));
   ("journal_bytes", JInt (Z.of_nat (String.length (raw s))));
   ("journal_sha256", JStr (_digest (raw s)))].

Definition mark_quarantine_applied (root : Root) (expected : Z * Z)
    (transaction_id intent_digest : string) (s : QuarantinedJournal) : op DurableRecord :=
  _write_record root expected transaction_id applied
    (applied_value transaction_id intent_digest s).

Definition terminal_value (schema transaction_id intent_digest : string)
    (applied_digest finalized_digest : option string) (reason : string) : object :=
  [("schema", JStr schema); ("transaction_id", JStr transaction_id);
   ("intent_digest", JStr intent_digest); ("applied_digest", jstr_opt applied_digest);
   ("finalized_digest", jstr_opt finalized_digest); ("reason", JStr reason)].

Definition mark_quarantine_restored (root : Root) (expected : Z * Z)
    (transaction_id intent_digest : string) (applied_digest : option string) (reason : string)
    : op DurableRecord :=
  _write_record root expected transaction_id restored
    (terminal_value RESTORED_SCHEMA transaction_id intent_digest applied_digest None reason).

Definition _mark_blocked (root : Root) (expected : Z * Z) (transaction_id intent_digest : string)
    (applied_digest finalized_digest : option string) (reason : string) : op () :=
  _ ← _write_record root expected transaction_id blocked
        (terminal_value BLOCKED_SCHEMA transaction_id intent_digest applied_digest
           finalized_digest reason);
  mret ().

(** ** Reading them back *)

Definition positive_int (v : json) : option Z :=
  match v with JInt z => if (z <=? 0)%Z then None else Some z | _ => None end.

Definition is_directory_value (v : json) : bool :=
  match v with JObj kv => has_exactly ["device"; "inode"] kv | _ => false end.

Definition malformed : exn := QTE "quarantine intent snapshot is malformed".
Definition inconsistent : exn := QTE "quarantine intent snapshot is inconsistent".

Definition require_key (k : string) (kv : object) : result exn json :=
  match assoc k kv with Some v => Ok v | None => Raise malformed end.

Definition _intent_snapshot (d : DurableRecord) (transaction_id : string)
    : result exn QuarantinedJournal :=
  let kv := value d in
  encoded ← require_key "journal_base64" kv;
  s ← match encoded with
      | JStr e => match b64decode e with Some s => Ok s | None => Raise malformed end
      | _ => Raise malformed
      end;
  journal_v ← require_key "journal" kv;
  device_v ← require_key "journal_device" kv;
  inode_v ← require_key "journal_inode" kv;
  _ ← raise_if (negb (has_exactly _INTENT_FIELDS kv) ||
                negb (json_eqb (json_get "schema" kv) (JStr INTENT_SCHEMA)) ||
                negb (json_eqb (json_get "transaction_id" kv) (JStr transaction_id))) inconsistent;
  n ← _record_name transaction_id intent;
  _ ← raise_if (negb (bool_decide (name d = n)) ||
                negb (bool_decide (quarantine_transaction_id
                        (default (JObj []) (assoc "binding" kv)) = transaction_id))) inconsistent;
  match journal_v, positive_int device_v, positive_int inode_v with
  | JStr j, Some dev, Some ino =>
      _ ← raise_if (negb (ends_with ".jsonl" j) || negb (is_path_name j) ||
                    negb (json_eqb (json_get "journal_bytes" kv)
                            (JInt (Z.of_nat (String.length s)))) ||
                    negb (json_eqb (json_get "journal_sha256" kv) (JStr (_digest s))) ||
                    negb (is_directory_value (json_get "source_directory" kv)) ||
                    negb (is_directory_value (json_get "quarantine_directory" kv))) inconsistent;
      Ok (mkJournal j s dev ino)
  | _, _, _ => Raise inconsistent
  end.

(** [value.get(k) != v] for one of the pairs *)
Definition differs (kv : object) (expected : object) : bool :=
  existsb (λ '(k, v), negb (json_eqb (json_get k kv) v)) expected.

Definition _validate_applied (a : DurableRecord) (transaction_id : string) (d : DurableRecord)
    (s : QuarantinedJournal) : result exn () :=
  let e := QTE "quarantine applied record is inconsistent" in
  _ ← raise_if (negb (has_exactly _APPLIED_FIELDS (value a))) e;
  n ← _record_name transaction_id applied;
  raise_if (negb (bool_decide (name a = n)) ||
            differs (value a) (applied_value transaction_id (digest d) s)) e.

Definition _valid_process_identity (v : json) : bool :=
  match v with
  | JObj kv =>
      has_exactly ["pid"; "start_ticks"; "argv"; "executable_device"; "executable_inode"] kv &&
      forallb (λ k, bool_decide (is_Some (positive_int (json_get k kv))))
        ["pid"; "start_ticks"; "executable_device"; "executable_inode"] &&
      match json_get "argv" kv with
      | JArr l => negb (bool_decide (length l = 0)) &&
                  forallb (λ v, match v with JStr s => negb (bool_decide (s = "")) | _ => false end) l
      | _ => false
      end
  | _ => false
  end.

Definition reason_in (v : json) (reasons : list string) : bool :=
  match v with JStr s => bool_decide (s ∈ reasons) | _ => false end.

Definition _validate_terminal (d : DurableRecord) (transaction_id schema : string) (stage : Stage)
    (intent_digest : string) (applied_digest finalized_digest : option string) : result exn () :=
  let e := QTE (Stage_value stage +:+ " quarantine transaction chain is invalid") in
  let kv := value d in
  _ ← raise_if (negb (has_exactly _TERMINAL_FIELDS kv)) e;
  n ← _record_name transaction_id stage;
  raise_if
    (negb (bool_decide (name d = n)) ||
     differs kv [("schema", JStr schema); ("transaction_id", JStr transaction_id);
                 ("intent_digest", JStr intent_digest);
                 ("applied_digest", jstr_opt applied_digest);
                 ("finalized_digest", jstr_opt finalized_digest)] ||
     negb (reason_in (json_get "reason" kv)
             (if decide (schema = RESTORED_SCHEMA) then _RESTORE_REASONS else _BLOCK_REASONS)) ||
     (bool_decide (schema = BLOCKED_SCHEMA) &&
      negb (eqb (json_eqb (json_get "reason" kv) (JStr "source-replacement-after-finalize"))
              (bool_decide (is_Some finalized_digest))))) e.

Definition _validate_finalized (d : DurableRecord) (transaction_id intent_digest : string)
    (applied_digest : string) : result exn () :=
  let e := QTE "finalized quarantine transaction chain is invalid" in
  let kv := value d in
  _ ← raise_if (negb (has_exactly _FINALIZED_FIELDS kv)) e;
  n ← _record_name transaction_id finalized;
  raise_if
    (negb (bool_decide (name d = n)) ||
     differs kv [("schema", JStr FINALIZED_SCHEMA); ("transaction_id", JStr transaction_id);
                 ("intent_digest", JStr intent_digest); ("applied_digest", JStr applied_digest)] ||
     negb (_is_digest (json_get "fact_receipt_sha256" kv)) ||
     negb (_valid_process_identity (json_get "source_process_identity" kv))) e.

Definition _exists (r : Root) (n : string) : op bool :=
  found ← try_op (os_stat r n);
  match found with
  | Ok _ => mret true
  | Raise FileNotFoundError => mret false
  | Raise e => raise (if is_os_error e
                      then QTE ("cannot inspect quarantine transaction artifact: " +:+ n) else e)
  end.

Definition _is_same_append_only_journal (current snapshot : QuarantinedJournal) : bool :=
  bool_decide (journal current = journal snapshot) && (device current =? device snapshot)%Z &&
  (inode current =? inode snapshot)%Z && starts_with (raw snapshot) (raw current).

(** ** Finalization *)

(** [except HostEventSinkError as exc: raise e from exc] *)
Definition sink_error_as {A} (e : exn) (m : op A) : op A :=
  catch m (λ e', match e' with HostEventSinkError _ => raise e | _ => raise e' end).

Definition read_stage (root : Root) (expected : Z * Z) (transaction_id : string) (stage : Stage)
    : op DurableRecord :=
  o ← read_quarantine_record root expected transaction_id stage true;
  match o with Some d => mret d | None => raise AssertionError end.

Definition directories_match (v : object) (source_identity expected : Z * Z) : bool :=
  json_eqb (json_get "source_directory" v) (_directory_value source_identity) &&
  json_eqb (json_get "quarantine_directory" v) (_directory_value expected).

Definition absent (root : Root) (expected : Z * Z) (transaction_id : string) (stage : Stage)
    (e : exn) : op () :=
  o ← read_quarantine_record root expected transaction_id stage false;
  guard_raise (bool_decide (is_Some o)) e.

Definition finalized_value (transaction_id intent_digest applied_digest fact_receipt_sha256 : string)
    (source_process_identity : json) : object :=
  [("schema", JStr FINALIZED_SCHEMA); ("transaction_id", JStr transaction_id);
   ("intent_digest", JStr intent_digest); ("applied_digest", JStr applied_digest);
   ("fact_receipt_sha256", JStr fact_receipt_sha256);
   ("source_process_identity", source_process_identity)].

Definition _finalize_quarantine_transaction_locked (root : Root) (expected : Z * Z)
    (transaction_id : string) (source_root : Root) (source_identity : Z * Z)
    (applied_digest fact_receipt_sha256 : string) (source_process_identity : json)
    : op DurableRecord :=
  i ← read_stage root expected transaction_id intent;
  a ← read_stage root expected transaction_id applied;
  snapshot ← lift (_intent_snapshot i transaction_id);
  _ ← lift (_validate_applied a transaction_id i snapshot);
  let refused := QTE "quarantine transaction cannot be finalized from this state" in
  _ ← guard_raise (negb (directories_match (value i) source_identity expected) ||
                   negb (bool_decide (digest a = applied_digest)) ||
                   negb (_is_digest (JStr fact_receipt_sha256)) ||
                   negb (_valid_process_identity source_process_identity)) refused;
  _ ← absent root expected transaction_id restored refused;
  _ ← absent root expected transaction_id blocked refused;
  retained ← sink_error_as (QTE "quarantine artifact is unavailable during finalization")
               (snapshot_journal root (journal snapshot) expected
                  (Z.max (Z.of_nat (String.length (raw snapshot))) 1));
  _ ← guard_raise (negb (bool_decide (retained = snapshot)))
        (QTE "quarantine artifact differs from the durable intent");
  _ ← _open_journal_root source_root (Some source_identity);
  _ ← _read_source_fence source_root transaction_id (digest i) snapshot true;
  reappeared ← _exists source_root (journal snapshot);
  _ ← (if reappeared : bool then
         _ ← _mark_blocked root expected transaction_id (digest i) (Some (digest a)) None
               "source-replacement-collision";
         raise (QTE "source journal reappeared before transaction finalization")
       else mret ());
  _write_record root expected transaction_id finalized
    (finalized_value transaction_id (digest i) (digest a) fact_receipt_sha256
       source_process_identity).

Definition finalize_quarantine_transaction (root : Root) (expected : Z * Z)
    (transaction_id : string) (source_root : Root) (source_identity : Z * Z)
    (applied_digest fact_receipt_sha256 : string) (source_process_identity : json)
    (lease : option QuarantineTransactionLease) : op DurableRecord :=
  with_lease lease source_root source_identity
    (_finalize_quarantine_transaction_locked root expected transaction_id source_root
       source_identity applied_digest fact_receipt_sha256 source_process_identity).

(** ** Reconciliation *)

(** The loop over the temporaries a crash left: each is checked, then unlinked. *)
Fixpoint discard_temporaries (r : Root) (pattern : string → bool)
    (malformed_name cannot_inspect unsafe cannot_remove : exn) (names : list string) : op () :=
  match names with
  | [] => mret ()
  | n :: names =>
      _ ← guard_raise (negb (pattern n)) malformed_name;
      f ← os_error_as cannot_inspect (os_stat r n);
      _ ← guard_raise (negb (private_file f)) unsafe;
      _ ← os_error_as cannot_remove (os_unlink r n);
      discard_temporaries r pattern malformed_name cannot_inspect unsafe cannot_remove names
  end.

Definition clean_source (r : Root) : op () :=
  names ← os_listdir r;
  let temporary := filter (λ n, starts_with fence_temp_prefix n) names in
  _ ← discard_temporaries r _FENCE_TEMP_PATTERN
        (QTE "source fence temporary name is malformed")
        (QTE "cannot inspect incomplete source fence")
        (QTE "incomplete source fence is unsafe")
        (QTE "cannot remove incomplete source fence") temporary;
  if decide (temporary = []) then mret () else os_fsync r.

(** The names that remain, sorted. *)
Definition clean_quarantine (r : Root) : op (list string) :=
  names ← os_listdir r;
  let names := sort_on (λ n : string, n) names in
  let temporary := filter (λ n, starts_with transaction_temp_prefix n) names in
  _ ← discard_temporaries r _TRANSACTION_TEMP_PATTERN
        (QTE "transaction temporary name is malformed")
        (QTE "cannot inspect incomplete transaction record")
        (QTE "incomplete transaction record is unsafe")
        (QTE "cannot remove incomplete transaction record") temporary;
  _ ← (if decide (temporary = []) then mret () else os_fsync r);
  mret (filter (λ n, n ∉ temporary) names).

Definition is_record (n : string) : bool := starts_with "ecpa-" n && ends_with ".json" n.

(** The transactions of the directory: every record belongs to an intent. *)
Definition intent_names (names : list string) : result exn (list string) :=
  let transaction_names := filter is_record names in
  let suffix (s : Stage) := "." +:+ Stage_value s +:+ ".json" in
  _ ← raise_if (negb (forallb (λ n, existsb (λ s, ends_with (suffix s) n) STAGES)
                        transaction_names))
        (QTE "quarantine transaction directory has an unknown record");
  let intents := filter (ends_with (suffix intent)) transaction_names in
  _ ← forR (λ n,
        i ← _record_name (before_dot (remove_prefix "ecpa-" n)) intent;
        raise_if (negb (bool_decide (i ∈ intents)))
          (QTE "quarantine transaction directory has an orphan record")) transaction_names;
  Ok intents.

Definition transaction_of (intent_name : string) : string :=
  remove_suffix ".intent.json" (remove_prefix "ecpa-" intent_name).

(** What a turn of the loop does with the transaction. *)
Inductive Decision : Type := Restored | Finalized.

Section turn.
Context (source_root quarantine_root : Root) (source_identity quarantine_identity : Z * Z)
  (max_bytes : Z).

Definition read_optional (transaction_id : string) (stage : Stage) : op (option DurableRecord) :=
  n ← lift (_record_name transaction_id stage);
  _read_record_from_directory quarantine_root n false.

Definition block (transaction_id : string) (i : DurableRecord)
    (applied_digest finalized_digest : option string) (reason : string) {A} (e : exn) : op A :=
  _ ← _mark_blocked quarantine_root quarantine_identity transaction_id (digest i) applied_digest
        finalized_digest reason;
  raise e.

(** [if blocked_record is not None] *)
Definition reconcile_blocked (transaction_id : string) (i : DurableRecord)
    (a fin : option DurableRecord) (b : DurableRecord) : op Decision :=
  finalized_digest ← match fin, a with
                     | None, _ => mret None
                     | Some _, None =>
                         raise (QTE "blocked finalized transaction has no applied record")
                     | Some f, Some a =>
                         _ ← lift (_validate_finalized f transaction_id (digest i) (digest a));
                         mret (Some (digest f))
                     end;
  _ ← lift (_validate_terminal b transaction_id BLOCKED_SCHEMA blocked (digest i)
              (digest <$> a) finalized_digest);
  raise (QTE ("quarantine transaction requires operator resolution: " +:+ transaction_id)).

(** [if finalized_record is not None] *)
Definition reconcile_finalized (transaction_id : string) (i : DurableRecord)
    (snapshot : QuarantinedJournal) (a : option DurableRecord) (f : DurableRecord) : op Decision :=
  match a with
  | None => raise (QTE "finalized quarantine transaction chain is invalid")
  | Some a =>
      _ ← lift (_validate_finalized f transaction_id (digest i) (digest a));
      retained ← sink_error_as (QTE "finalized quarantine artifact is missing or unsafe")
                   (snapshot_journal quarantine_root (journal snapshot) quarantine_identity
                      max_bytes);
      _ ← guard_raise (negb (bool_decide (retained = snapshot)))
            (QTE "finalized quarantine artifact differs from intent");
      _ ← _read_source_fence source_root transaction_id (digest i) snapshot true;
      replaced ← _exists source_root (journal snapshot);
      if replaced : bool
      then block transaction_id i (Some (digest a)) (Some (digest f))
             "source-replacement-after-finalize"
             (QTE "finalized quarantine has a replacement source journal")
      else mret Finalized
  end.

(** [if restored_record is not None] *)
Definition reconcile_restored (transaction_id : string) (i : DurableRecord)
    (snapshot : QuarantinedJournal) (a : option DurableRecord) (r : DurableRecord) : op Decision :=
  _ ← lift (_validate_terminal r transaction_id RESTORED_SCHEMA restored (digest i)
              (digest <$> a) None);
  fence ← _read_source_fence source_root transaction_id (digest i) snapshot false;
  _ ← guard_raise (bool_decide (is_Some fence))
        (QTE "restored transaction still has a source journal fence");
  held ← _exists quarantine_root (journal snapshot);
  _ ← guard_raise held (QTE "restored quarantine transaction still has quarantined bytes");
  current ← sink_error_as (QTE "restored quarantine source is missing or unsafe")
              (snapshot_journal source_root (journal snapshot) source_identity max_bytes);
  _ ← guard_raise (negb (_is_same_append_only_journal current snapshot))
        (QTE "restored quarantine source is not an append-only continuation");
  mret Restored.

(** The reason under which an unfinished transaction is restored. *)
Definition recover_journal (transaction_id : string) (i : DurableRecord)
    (snapshot : QuarantinedJournal) (a : option DurableRecord) : op string :=
  in_source ← _exists source_root (journal snapshot);
  in_quarantine ← _exists quarantine_root (journal snapshot);
  match in_source, in_quarantine with
  | true, true =>
      block transaction_id i (digest <$> a) None "source-replacement-collision"
        (QTE "quarantine recovery refuses to overwrite replacement evidence")
  | false, true =>
      _ ← _read_source_fence source_root transaction_id (digest i) snapshot true;
      _ ← catch (restore_quarantined_journal source_root quarantine_root snapshot source_identity
                   quarantine_identity max_bytes)
            (λ e, match e with
                  | HostEventSinkError _ =>
                      block transaction_id i (digest <$> a) None "restore-verification-failed"
                        (QTE "quarantine crash recovery failed closed")
                  | _ => raise e
                  end);
      mret (match a with Some _ => "restored-after-applied" | None => "restored-after-move" end)
  | true, false =>
      current ← snapshot_journal source_root (journal snapshot) source_identity max_bytes;
      if _is_same_append_only_journal current snapshot then mret "no-move-observed"
      else block transaction_id i (digest <$> a) None "source-changed-before-recovery"
             (QTE "quarantine intent source changed before recovery")
  | false, false =>
      block transaction_id i (digest <$> a) None "journal-missing-from-both-roots"
        (QTE "quarantine journal is missing from both roots")
  end.

Definition reconcile_unfinished (transaction_id : string) (i : DurableRecord)
    (snapshot : QuarantinedJournal) (a : option DurableRecord) : op Decision :=
  reason ← recover_journal transaction_id i snapshot a;
  _ ← _remove_source_fence source_root transaction_id (digest i) snapshot;
  _ ← mark_quarantine_restored quarantine_root quarantine_identity transaction_id (digest i)
        (digest <$> a) reason;
  mret Restored.

Definition reconcile_one (intent_name : string) : op Decision :=
  let transaction_id := transaction_of intent_name in
  i ← read_required quarantine_root intent_name;
  snapshot ← lift (_intent_snapshot i transaction_id);
  _ ← guard_raise (negb (directories_match (value i) source_identity quarantine_identity))
        (QTE "quarantine transaction directory identity differs");
  a ← read_optional transaction_id applied;
  _ ← match a with
      | Some a => lift (_validate_applied a transaction_id i snapshot)
      | None => mret ()
      end;
  fin ← read_optional transaction_id finalized;
  res ← read_optional transaction_id restored;
  blo ← read_optional transaction_id blocked;
  match res, fin, blo with
  | Some _, Some _, _ | Some _, _, Some _ =>
      raise (QTE "quarantine transaction has conflicting terminal records")
  | _, _, Some b => reconcile_blocked transaction_id i a fin b
  | _, Some f, None => reconcile_finalized transaction_id i snapshot a f
  | Some r, None, None => reconcile_restored transaction_id i snapshot a r
  | None, None, None => reconcile_unfinished transaction_id i snapshot a
  end.

Definition record_decision (intent_name : string) (d : Decision) (rc : ReconciliationResult)
    : ReconciliationResult :=
  match d with
  | Restored => mkReconciliation (rc_restored rc ++ [transaction_of intent_name]) (rc_finalized rc)
  | Finalized => mkReconciliation (rc_restored rc) (rc_finalized rc ++ [transaction_of intent_name])
  end.

Fixpoint reconcile_all (names : list string) (rc : ReconciliationResult)
    : op ReconciliationResult :=
  match names with
  | [] => mret rc
  | n :: names => d ← reconcile_one n; reconcile_all names (record_decision n d rc)
  end.

Definition _reconcile_quarantine_transactions_locked : op ReconciliationResult :=
  _ ← _open_journal_root source_root (Some source_identity);
  _ ← _open_journal_root quarantine_root (Some quarantine_identity);
  _ ← sys_nop;
  _ ← sys_nop;
  w ← get;
  _ ← guard_raise
        (negb (d_device (dir source_root w) =? d_device (dir quarantine_root w))%Z ||
         bool_decide (source_identity = quarantine_identity))
        (QTE "quarantine recovery requires distinct roots on one filesystem");
  _ ← clean_source source_root;
  names ← clean_quarantine quarantine_root;
  intents ← lift (intent_names names);
  reconcile_all intents (mkReconciliation [] []).

Definition reconcile_quarantine_transactions (lease : option QuarantineTransactionLease)
    : op ReconciliationResult :=
  with_lease lease source_root source_identity _reconcile_quarantine_transactions_locked.
End turn.

(** ** The fault of [formal_lifecycle_source.py] *)

(** What [commit_fault] and [abort_prepare] close over. *)
Record PreparedFault : Type := mkPrepared {
  pf_transaction : string; pf_intent_digest : string; pf_snapshot : QuarantinedJournal;
}.

Section fault.
Context (source_identity quarantine_identity : Z * Z) (max_bytes : Z).

(** From the reconciliation to the durable intent.  [select] is the choice of the
    target journal and of its bytes from the events read back, [binding] the rest of
    the transaction's binding. *)
Definition prepare_fault (select : World → result exn (string * string)) (binding : string → json)
    : op PreparedFault :=
  lease ← acquire_quarantine_transaction_lease Source source_identity;
  finally (
    _ ← reconcile_quarantine_transactions Source Quarantine source_identity quarantine_identity
          max_bytes (Some lease);
    target ← sys_read select;
    snapshot ← snapshot_journal Source target.1 source_identity max_bytes;
    _ ← guard_raise (negb (bool_decide (raw snapshot = target.2)))
          (LifecycleSourceError "fault target journal changed during prepare");
    let transaction_id := quarantine_transaction_id (binding target.1) in
    i ← prepare_quarantine_transaction Quarantine quarantine_identity transaction_id
          (binding target.1) source_identity snapshot;
    mret (mkPrepared transaction_id (digest i) snapshot)) close_lease.

Context (p : PreparedFault).

(** [except BaseException as exc] of [commit_fault] *)
Definition undo_fault (fence_installed : bool) (quarantined : option QuarantinedJournal)
    (a : option DurableRecord) {A} (e : exn) : op A :=
  _ ← catch_all (
        _ ← match quarantined with
            | Some q => restore_quarantined_journal Source Quarantine q source_identity
                          quarantine_identity max_bytes
            | None => mret ()
            end;
        _ ← (if fence_installed
             then remove_quarantine_source_fence Source source_identity (pf_transaction p)
                    (pf_intent_digest p) (pf_snapshot p)
             else mret ());
        match quarantined with
        | Some _ =>
            _ ← mark_quarantine_restored Quarantine quarantine_identity (pf_transaction p)
                  (pf_intent_digest p) (digest <$> a) "catchable-post-move-failure";
            mret ()
        | None => mret ()
        end)
      (λ _, raise (LifecycleSourceError "partial-coverage fault failed and rollback failed"));
  raise e.

Definition unchanged_since_prepare : op () :=
  _ ← absent Quarantine quarantine_identity (pf_transaction p) applied
        (LifecycleSourceError "fault transaction changed before runner commit");
  _ ← absent Quarantine quarantine_identity (pf_transaction p) finalized
        (LifecycleSourceError "fault transaction changed before runner commit");
  _ ← absent Quarantine quarantine_identity (pf_transaction p) restored
        (LifecycleSourceError "fault transaction changed before runner commit");
  _ ← absent Quarantine quarantine_identity (pf_transaction p) blocked
        (LifecycleSourceError "fault transaction changed before runner commit");
  s ← snapshot_journal Source (journal (pf_snapshot p)) source_identity max_bytes;
  guard_raise (negb (bool_decide (s = pf_snapshot p)))
    (LifecycleSourceError "fault target journal changed before runner commit").

(** [evidence] is what is read back after the move and reported. *)
Definition commit_fault (settled : bool) (evidence : World → result exn ()) : op () :=
  _ ← guard_raise settled (LifecycleSourceError "fault transaction is already settled");
  lease ← acquire_quarantine_transaction_lease Source source_identity;
  finally (
    _ ← catch_all (
          _ ← unchanged_since_prepare;
          install_quarantine_source_fence Source source_identity (pf_transaction p)
            (pf_intent_digest p) (pf_snapshot p)) (undo_fault false None None);
    q ← catch_all (quarantine_journal Source Quarantine (journal (pf_snapshot p)) source_identity
                     quarantine_identity max_bytes (Some (pf_snapshot p)))
          (undo_fault true None None);
    a ← catch_all (
          _ ← guard_raise (negb (bool_decide (raw q = raw (pf_snapshot p))))
                (LifecycleSourceError "fault target journal changed after prepare");
          mark_quarantine_applied Quarantine quarantine_identity (pf_transaction p)
            (pf_intent_digest p) q) (undo_fault true (Some q) None);
    catch_all (sys_read evidence) (undo_fault true (Some q) (Some a))) close_lease.
End fault.
End transaction.
