(* ===== verification/QuarantineInvariants.v ===== *)
(** * What every quarantine operation preserves

    [respects R m]: from any world, under any outcomes of the system calls, [m] ends
    in a world related to it, whether it returns, raises or is killed.  [steady] is the
    relation all operations of the transaction respect: journals are moved between the
    two directories and nothing else, and a published record stays as it is. *)

From S2P Require Import Prelude PyStd HostEventSink QuarantineTransaction.
From S2P Require EcpaModel.

Local Open Scope string_scope.
Local Open Scope list_scope.

(** ** Relations a computation respects *)

Section respects.
Context (R : relation World) {HR : PreOrder R}.
Context (R_files : ∀ w w', source w' = source w → quarantine w' = quarantine w → R w w').

Definition respects {A} (m : op A) : Prop := ∀ w, R w (m w).2.

Lemma respects_ret {A} (a : A) : respects (mret a).
Proof. intros w. reflexivity. Qed.
Lemma respects_raise {A} e : respects (raise e : op A).
Proof. intros w. reflexivity. Qed.
Lemma respects_get : respects get.
Proof. intros w. reflexivity. Qed.
Lemma respects_lift {A} (r : result exn A) : respects (lift r).
Proof. intros w. reflexivity. Qed.
Lemma respects_guard b e : respects (guard_raise b e).
Proof. intros w. destruct b; reflexivity. Qed.
Lemma respects_locked b : respects (modify (set_locked b)).
Proof. intros w. by apply R_files. Qed.
Lemma respects_token {K : Kernel} : respects draw_token.
Proof. intros w. by apply R_files. Qed.

Lemma respects_bind_Ok {A B} (m : op A) (f : A → op B) :
  respects m → (∀ a, (∃ w w', m w = (Ok a, w')) → respects (f a)) → respects (m ≫= f).
Proof.
  intros Hm Hf w. specialize (Hm w). unfold mbind, method_bind.
  destruct (m w) as [[a|e] w'] eqn:E; simpl in *; [|done].
  etrans; [exact Hm|]. apply Hf. eauto.
Qed.

Lemma respects_bind {A B} (m : op A) (f : A → op B) :
  respects m → (∀ a, respects (f a)) → respects (m ≫= f).
Proof. intros Hm Hf. by apply respects_bind_Ok. Qed.

Lemma respects_catch {A} (m : op A) h :
  respects m → (∀ e, respects (h e)) → respects (catch m h).
Proof.
  intros Hm Hh w. specialize (Hm w). unfold catch.
  destruct (m w) as [[a|e] w']; simpl in *; [done|]. etrans; [exact Hm|apply Hh].
Qed.

Lemma respects_catch_all {A} (m : op A) h :
  respects m → (∀ e, respects (h e)) → respects (catch_all m h).
Proof.
  intros Hm Hh. apply respects_catch; [done|]. intros e.
  case_decide; [apply respects_raise|done].
Qed.

Lemma respects_try {A} (m : op A) : respects m → respects (try_op m).
Proof.
  intros Hm. apply respects_catch_all; [|intros; apply respects_ret].
  apply respects_bind; [done|intros; apply respects_ret].
Qed.

Lemma respects_os_error {A} e (m : op A) : respects m → respects (os_error_as e m).
Proof. intros Hm. apply respects_catch; [done|]. intros e'. case_match; apply respects_raise. Qed.

Lemma respects_sink_error {A} e (m : op A) : respects m → respects (sink_error_as e m).
Proof. intros Hm. apply respects_catch; [done|]. intros e'. case_match; apply respects_raise. Qed.

Lemma respects_finally {A} (m : op A) c : respects m → respects c → respects (finally m c).
Proof.
  intros Hm Hc w. specialize (Hm w). unfold finally.
  assert (∀ r : result exn A, respects (_ ← c; lift r)) as Hr
    by (intros; apply respects_bind; [done|intros; apply respects_lift]).
  destruct (m w) as [[a|[]] w']; simpl in *; try done; (etrans; [exact Hm|apply Hr]).
Qed.

Lemma respects_syscall {A} (f : option nat → World → result exn A * World) :
  (∀ limit w, R w (f limit w).2) → respects (syscall f).
Proof.
  intros Hf w. assert (∀ s, R w (set_script s w)) as Hs by (intros; by apply R_files).
  unfold syscall. destruct (script w) as [|[] s]; simpl; auto; (etrans; [apply Hs|apply Hf]).
Qed.

Lemma respects_read {A} (f : World → result exn A) : respects (sys_read f).
Proof. apply respects_syscall. intros. reflexivity. Qed.
End respects.

(** The combinators of the code, and its branches on values. *)
Ltac respect_one R :=
  first
    [ apply (respects_ret R) | apply (respects_raise R) | apply (respects_get R)
    | apply (respects_lift R) | apply (respects_guard R)
    | apply (respects_bind R); [|intros ?]
    | apply (respects_os_error R) | apply (respects_sink_error R) | apply (respects_try R)
    | apply (respects_catch_all R); [|intros ?] | apply (respects_catch R); [|intros ?]
    | apply (respects_finally R)
    | match goal with
      | |- respects _ (match ?x with _ => _ end) => destruct x
      | |- respects _ (if ?x then _ else _) => destruct x
      | |- respects _ ((match ?x with _ => _ end) _) => destruct x
      end ].
Ltac respect :=
  repeat (cbv zeta; match goal with |- respects ?R _ => respect_one R end).

(** ** Journals and records *)

Definition is_journal (n : string) : bool := ends_with ".jsonl" n.

(** The files under one name in the two directories. *)
Definition copies (n : string) (w : World) : list File :=
  option_list (entry Source n w) ++ option_list (entry Quarantine n w).

Record steady (w w' : World) : Prop := {
  st_journals n : is_journal n = true → copies n w' ≡ₚ copies n w;
  st_records n f : is_record n = true → entry Quarantine n w = Some f →
    entry Quarantine n w' = Some f;
}.

#[export] Instance steady_preorder : PreOrder steady.
Proof.
  split.
  - intros w. by split.
  - intros w1 w2 w3 [Hj Hr] [Hj' Hr']. split.
    + intros n Hn. by rewrite Hj', Hj.
    + intros n f Hn Hf. auto.
Qed.

Lemma steady_files w w' : source w' = source w → quarantine w' = quarantine w → steady w w'.
Proof.
  intros Hs Hq. assert (∀ r n, entry r n w' = entry r n w) as He
    by (intros [] n; unfold entry, dir; congruence).
  split; intros n; unfold copies; by rewrite !He.
Qed.

(** Neither a journal nor a record: temporaries, fences, the lock. *)
Definition scratch (n : string) : Prop := is_journal n = false ∧ is_record n = false.

Lemma entry_set_files r f r' n w :
  entry r' n (set_files r f w) = if decide (r = r') then f (files (dir r w)) !! n else entry r' n w.
Proof. by destruct r, r'. Qed.

Lemma entry_bump r n w : entry r n (bump_inodes w) = entry r n w.
Proof. by destruct r. Qed.

Lemma steady_scratch r n (f : gmap string File → gmap string File) w :
  scratch n → (∀ m n', n' ≠ n → f m !! n' = m !! n') → steady w (set_files r f w).
Proof.
  intros [Hj Hr] Hf.
  assert (∀ r' n', n' ≠ n → entry r' n' (set_files r f w) = entry r' n' w) as He.
  { intros r' n' Hn. rewrite entry_set_files. case_decide; [subst|done]. by apply Hf. }
  split.
  - intros n' Hn'. unfold copies. rewrite !He by congruence. done.
  - intros n' g Hn' Hg. by rewrite He by congruence.
Qed.

Lemma steady_insert r n f w :
  is_journal n = false → entry r n w = None → steady w (set_files r (insert n f) w).
Proof.
  intros Hj Hn. split.
  - intros n' Hn'. unfold copies. rewrite !entry_set_files.
    assert (n' ≠ n) by congruence.
    repeat case_decide; simplify_eq; rewrite ?lookup_insert_ne by done; done.
  - intros n' g Hn' Hg. rewrite entry_set_files. case_decide; [|done]. subst.
    rewrite lookup_insert_ne; [done|]. congruence.
Qed.

(** ** System calls that change a directory *)

Lemma scratch_unlink r n : scratch n → respects steady (os_unlink r n).
Proof.
  intros Hn. apply (respects_syscall steady steady_files). intros _ w.
  destruct (entry r n w); [|reflexivity]. simpl. apply (steady_scratch _ n); [done|].
  intros. by apply lookup_delete_ne.
Qed.

Section kernel.
Context {K : Kernel}.

Lemma scratch_create r n : scratch n → respects steady (os_create r n).
Proof.
  intros Hn. apply (respects_syscall steady steady_files). intros _ w.
  destruct (entry r n w) eqn:E; [reflexivity|]. simpl.
  etrans; [by apply steady_insert; [apply Hn|]|by apply steady_files].
Qed.

Lemma scratch_open_or_create r n : scratch n → respects steady (os_open_or_create r n).
Proof.
  intros Hn. apply (respects_syscall steady steady_files). intros _ w.
  destruct (entry r n w) eqn:E; [reflexivity|]. simpl.
  etrans; [by apply steady_insert; [apply Hn|]|by apply steady_files].
Qed.

Lemma scratch_write r n left c : scratch n → respects steady (os_write r n left c).
Proof.
  intros Hn. apply (respects_syscall steady steady_files). intros limit w. simpl.
  apply (steady_scratch _ n); [done|]. intros. by apply lookup_alter_ne.
Qed.

Lemma scratch_write_loop fuel r n stalled c done left :
  scratch n → respects steady (write_loop fuel r n stalled c done left).
Proof.
  intros Hn. revert done left. induction fuel as [|fuel IH]; intros done [|left]; simpl; respect.
  - by apply scratch_write.
  - apply IH.
Qed.

(** A temporary becomes a file that was not there. *)
Lemma publish_rename r n n' :
  scratch n → is_journal n' = false → respects steady (_rename_noreplace r n r n').
Proof.
  intros Hn Hn'. apply (respects_syscall steady steady_files). intros _ w.
  destruct (entry r n w) as [f|] eqn:E; [|reflexivity].
  destruct (entry r n' w) eqn:E'; [reflexivity|].
  rewrite decide_True by done. simpl.
  etrans; [apply (steady_scratch r n (delete n)); [done|]; intros; by apply lookup_delete_ne|].
  apply steady_insert; [done|]. rewrite entry_set_files, decide_True by done.
  change (files (dir r w) !! n') with (entry r n' w).
  destruct (decide (n = n')) as [->|]; [by rewrite lookup_delete_eq|].
  by rewrite lookup_delete_ne.
Qed.

(** A journal goes to the directory that does not have it. *)
Lemma journal_rename r r' n :
  is_record n = false → respects steady (_rename_noreplace r n r' n).
Proof.
  intros Hn. apply (respects_syscall steady steady_files). intros _ w.
  destruct (entry r n w) as [f|] eqn:E; [|reflexivity].
  destruct (entry r' n w) eqn:E'; [reflexivity|].
  case_decide; [|reflexivity]. simpl.
  set (w' := set_files r' _ _).
  assert (r ≠ r') as Hr by congruence.
  assert (∀ x k, k ≠ n → entry x k w' = entry x k w) as Hother.
  { intros x k Hk. unfold w'. rewrite !entry_set_files. repeat case_decide; simplify_eq;
      rewrite ?lookup_insert_ne by done.
    - change (files (dir ?x ?y) !! k) with (entry x k y). rewrite entry_set_files.
      by rewrite decide_False by done.
    - by rewrite lookup_delete_ne. 
    - done. }
  assert (entry r n w' = None ∧ entry r' n w' = Some f) as [Hfrom Hto].
  { unfold w'. split; rewrite entry_set_files.
    - rewrite decide_False by congruence. rewrite entry_set_files, decide_True by done.
      apply lookup_delete_eq.
    - rewrite decide_True by done. apply lookup_insert_eq. }
  split.
  - intros k _. destruct (decide (k = n)) as [->|Hk].
    + unfold copies. destruct r, r'; try done; rewrite E, E', Hfrom, Hto; reflexivity.
    + unfold copies. by rewrite !Hother.
  - intros k g Hk Hg. rewrite Hother; [done|]. congruence.
Qed.
End kernel.

(** ** Names *)

Lemma last_char_app_r a b c : last_char b = Some c → last_char (a +:+ b) = Some c.
Proof. intros Hb. rewrite last_char_app; [done|]. by intros ->. Qed.

Lemma last_char_after_dot s : after_dot s ≠ "" → last_char s = last_char (after_dot s).
Proof.
  intros Hs. destruct (has_char (Ascii.ascii_of_N 46) s) eqn:Hd.
  - rewrite (before_after_dot s) at 1 by done.
    rewrite last_char_app by done. by rewrite last_char_app.
  - by rewrite after_dot_nodot in Hs.
Qed.

Lemma not_journal n c : last_char n = Some c → c ≠ Ascii.ascii_of_N 108 → is_journal n = false.
Proof.
  intros Hn Hc. unfold is_journal. destruct (ends_with ".jsonl" n) eqn:E; [|done].
  apply ends_with_last in E; [|done]. rewrite Hn in E. by injection E.
Qed.

Lemma journal_not_record n : is_journal n = true → is_record n = false.
Proof.
  intros [t ->]%ends_with_spec. unfold is_record. apply andb_false_iff. right.
  destruct (ends_with ".json" _) eqn:E; [|done].
  apply ends_with_last in E; [|done]. by rewrite last_char_app in E.
Qed.

Definition hidden (n : string) : bool := starts_with "." n.

Lemma hidden_not_record n : hidden n = true → is_record n = false.
Proof. by intros [t ->]%starts_with_spec. Qed.

Lemma hidden_scratch n c :
  hidden n = true → last_char n = Some c → c ≠ Ascii.ascii_of_N 108 → scratch n.
Proof. intros Hh Hn Hc. split; [by eapply not_journal|by apply hidden_not_record]. Qed.

Ltac solve_last := repeat apply last_char_app_r; reflexivity.

Lemma fence_scratch j : scratch (_quarantine_fence_name j).
Proof. apply (hidden_scratch _ (Ascii.ascii_of_N 101)); [done|solve_last|done]. Qed.

Lemma lock_scratch : scratch QUARANTINE_LOCK.
Proof. by apply (hidden_scratch _ (Ascii.ascii_of_N 107)). Qed.

Lemma fence_temp_scratch x : scratch (fence_temp_prefix +:+ x +:+ ".tmp").
Proof. apply (hidden_scratch _ (Ascii.ascii_of_N 112)); [done|solve_last|done]. Qed.

Lemma pid_and_token_last s : pid_and_token s = true → last_char s = Some (Ascii.ascii_of_N 112).
Proof.
  unfold pid_and_token. intros H. bool_inv.
  assert (after_dot s ≠ "") as Hs by (intros E; rewrite E in *; done).
  assert (after_dot (after_dot s) ≠ "") as Hs' by (by rewrite H0).
  rewrite last_char_after_dot, last_char_after_dot by done. by rewrite H0.
Qed.

Lemma pattern_scratch n :
  _TRANSACTION_TEMP_PATTERN n = true ∨ _FENCE_TEMP_PATTERN n = true → scratch n.
Proof.
  intros Hn. apply (hidden_scratch _ (Ascii.ascii_of_N 112)); [..|done];
    destruct Hn as [Hn|Hn]; apply andb_true_iff in Hn as [[t ->]%starts_with_spec Hn]; try done;
    cbv zeta in Hn; rewrite remove_prefix_app in Hn; bool_inv; apply last_char_app_r.
  - assert (last_char (after_dot (after_dot t)) = Some (Ascii.ascii_of_N 112)) as Hl
      by (by apply pid_and_token_last).
    assert (after_dot (after_dot t) ≠ "") as Ht2 by (by intros E; rewrite E in Hl).
    assert (after_dot t ≠ "") as Ht1 by (intros E; by rewrite E in Ht2).
    by rewrite last_char_after_dot, last_char_after_dot.
  - assert (last_char (after_dot t) = Some (Ascii.ascii_of_N 112)) as Hl
      by (by apply pid_and_token_last).
    rewrite last_char_after_dot; [done|]. intros E. by rewrite E in Hl.
Qed.

Lemma record_not_journal t s n : _record_name t s = Ok n → is_journal n = false.
Proof.
  unfold _record_name. destruct (is_hex_string 64 t); [|done]. intros; simplify_eq.
  apply (not_journal _ (Ascii.ascii_of_N 110)); [solve_last|done].
Qed.

Lemma fence_not_journal j : is_journal (_quarantine_fence_name j) = false.
Proof. apply fence_scratch. Qed.
#[export] Hint Resolve fence_scratch lock_scratch fence_temp_scratch fence_not_journal
  steady_files : core.

(** ** Every operation is steady *)

Create HintDb calm.

Section steady.
Context {K : Kernel}.
Notation calm m := (respects steady m).

Lemma calm_read {A} (f : World → result exn A) : calm (sys_read f).
Proof. apply (respects_read steady steady_files). Qed.
Lemma calm_locked b : calm (modify (set_locked b)).
Proof. apply (respects_locked steady steady_files). Qed.
Lemma calm_token : calm draw_token.
Proof. apply (respects_token steady steady_files). Qed.
Lemma calm_nop : calm sys_nop.
Proof. apply calm_read. Qed.
Lemma calm_stat r n : calm (os_stat r n).
Proof. apply calm_read. Qed.
Lemma calm_open r n : calm (os_open r n).
Proof. apply calm_read. Qed.
Lemma calm_fstat f : calm (os_fstat f).
Proof. apply calm_read. Qed.
Lemma calm_os_read f : calm (os_read f).
Proof. apply calm_read. Qed.
Lemma calm_fsync r : calm (os_fsync r).
Proof. apply calm_read. Qed.
Lemma calm_listdir r : calm (os_listdir r).
Proof. apply calm_read. Qed.
Hint Resolve calm_read calm_locked calm_token calm_nop calm_stat calm_open calm_fstat calm_os_read
  calm_fsync calm_listdir : calm.

Ltac calm := repeat (cbv beta zeta; first [solve [auto with calm nocore] | respect_one steady]).

Lemma calm_open_root r i : calm (_open_journal_root r i).
Proof. unfold _open_journal_root. calm. Qed.
Hint Resolve calm_open_root : calm.

Lemma calm_acquire_lock r ex nb : calm (_acquire_quarantine_lock r ex nb).
Proof.
  unfold _acquire_quarantine_lock, os_fstat. calm.
  - by apply scratch_open_or_create.
  - apply (respects_syscall steady steady_files). intros _ w. destruct ex; by apply steady_files.
Qed.
Hint Resolve calm_acquire_lock : calm.

Lemma calm_snapshot r n i b : calm (snapshot_journal r n i b).
Proof. unfold snapshot_journal, os_open, os_fstat, os_read, os_stat. calm. Qed.
Hint Resolve calm_snapshot : calm.

Lemma calm_check_moved r r' n s f : calm (check_moved r r' n s f).
Proof. unfold check_moved, os_fsync, os_open, os_fstat, os_read, os_stat. calm. Qed.

Lemma calm_undo_move r r' n e : is_record n = false → calm (undo_move r r' n e).
Proof.
  intros Hn. unfold undo_move, os_fsync, os_stat. calm. by apply journal_rename.
Qed.

Lemma calm_quarantine_journal r r' n i i' b e : calm (quarantine_journal r r' n i i' b e).
Proof.
  unfold quarantine_journal.
  apply (respects_bind_Ok steady); [calm|]. intros u (w & w' & [Hreq _]%guard_raise_Ok).
  assert (is_record n = false) as Hn.
  { apply journal_not_record. unfold bad_request in Hreq. by bool_inv. }
  unfold os_open, os_fstat, os_read, os_stat, sys_nop.
  calm; by apply journal_rename.
Qed.
Hint Resolve calm_quarantine_journal : calm.

Lemma calm_restore r r' q i i' b : calm (restore_quarantined_journal r r' q i i' b).
Proof. unfold restore_quarantined_journal. calm. Qed.
Hint Resolve calm_restore : calm.

Lemma calm_read_record r n b : calm (_read_record_from_directory r n b).
Proof. unfold _read_record_from_directory, os_open, os_fstat, os_read. calm. Qed.
Hint Resolve calm_read_record : calm.

(** A record that was read carries the name it was read under. *)
Lemma read_record_name r n b d w w' :
  _read_record_from_directory r n b w = (Ok (Some d), w') → name d = n.
Proof.
  unfold _read_record_from_directory. intros H. apply bind_Ok in H as ([f|e] & w1 & _ & H).
  - apply bind_Ok in H as (f' & w2 & _ & H). apply bind_Ok in H as (u & w3 & _ & H).
    apply bind_Ok in H as (s & w4 & _ & H). apply bind_Ok in H as (u' & w5 & _ & H).
    destruct (f_content f') as [[]|? []]; try done. by apply mret_Ok in H as [[= ->] _].
  - destruct e; try done. destruct b; [done|]. by apply mret_Ok in H as [? _].
Qed.

Lemma calm_read_required r n : calm (read_required r n).
Proof. unfold read_required. calm. Qed.
Hint Resolve calm_read_required : calm.

Lemma calm_discard r n : scratch n → calm (discard_temporary r n).
Proof. intros Hn. unfold discard_temporary, os_fsync. calm. by apply scratch_unlink. Qed.

Lemma calm_write_document r n v e : scratch n → calm (write_document r n v e).
Proof. intros Hn. unfold write_document. by apply scratch_write_loop. Qed.

Lemma temp_scratch t s p k :
  scratch (transaction_temp_prefix +:+ t +:+ "." +:+ s +:+ "." +:+ p +:+ "." +:+ k +:+ ".tmp").
Proof. apply (hidden_scratch _ (Ascii.ascii_of_N 112)); [done|solve_last|done]. Qed.

Lemma fence_temp_name_scratch t p k :
  scratch (fence_temp_prefix +:+ t +:+ "." +:+ p +:+ "." +:+ k +:+ ".tmp").
Proof. apply (hidden_scratch _ (Ascii.ascii_of_N 112)); [done|solve_last|done]. Qed.

Hint Resolve scratch_create scratch_unlink calm_write_document calm_discard temp_scratch
  fence_temp_name_scratch publish_rename fence_scratch fence_not_journal : calm.

Lemma calm_write_record r i t s v : calm (_write_record r i t s v).
Proof.
  unfold _write_record.
  apply (respects_bind_Ok steady); [calm|]. intros n (w & w' & [Hn _]%lift_Ok).
  apply record_not_journal in Hn. unfold or_discard, conflicting.
  calm.
Qed.
Hint Resolve calm_write_record : calm.

Lemma calm_fence r i t d s : calm (install_quarantine_source_fence r i t d s).
Proof.
  unfold install_quarantine_source_fence, or_discard, conflicting.
  calm.
Qed.
Hint Resolve calm_fence : calm.

Lemma calm_read_fence r t d s b : calm (_read_source_fence r t d s b).
Proof. unfold _read_source_fence. calm. Qed.
Hint Resolve calm_read_fence : calm.

Lemma read_fence_name r t d s b x w w' :
  _read_source_fence r t d s b w = (Ok (Some x), w') → name x = _quarantine_fence_name (journal s).
Proof.
  unfold _read_source_fence. intros H. apply bind_Ok in H as (o & w1 & Ho & H).
  apply bind_Ok in H as (u & w2 & _ & H). apply mret_Ok in H as [<- _].
  by eapply read_record_name.
Qed.

Lemma calm_remove_fence r t d s : calm (_remove_source_fence r t d s).
Proof.
  unfold _remove_source_fence. apply (respects_bind_Ok steady); [calm|].
  intros [x|] (w & w' & Hx); [|calm]. apply read_fence_name in Hx.
  rewrite Hx. calm.
Qed.
Hint Resolve calm_remove_fence : calm.

Lemma calm_acquire_lease r i : calm (acquire_quarantine_transaction_lease r i).
Proof. unfold acquire_quarantine_transaction_lease, os_fsync. calm. Qed.
Hint Resolve calm_acquire_lease : calm.

Lemma calm_with_lease {A} l r i (m : op A) : calm m → calm (with_lease l r i m).
Proof.
  intros Hm. unfold with_lease, _require_lease, close_lease. calm.
Qed.

Lemma calm_exists r n : calm (_exists r n).
Proof. unfold _exists, os_stat. calm. Qed.
Hint Resolve calm_exists : calm.

Lemma calm_finalize r i t r' i' a f p l : calm (finalize_quarantine_transaction r i t r' i' a f p l).
Proof.
  apply calm_with_lease.
  unfold _finalize_quarantine_transaction_locked, read_stage, absent, read_quarantine_record,
    _mark_blocked.
  calm.
Qed.

Lemma calm_discard_temporaries r pattern e1 e2 e3 e4 names :
  (∀ n, pattern n = true → scratch n) → calm (discard_temporaries r pattern e1 e2 e3 e4 names).
Proof.
  intros Hp. induction names as [|n names IH]; simpl; [calm|].
  apply (respects_bind_Ok steady); [calm|]. intros u (w & w' & [Hn _]%guard_raise_Ok).
  apply negb_false_iff in Hn. calm.
Qed.
Lemma transaction_pattern_scratch n : _TRANSACTION_TEMP_PATTERN n = true → scratch n.
Proof. auto using pattern_scratch. Qed.
Lemma fence_pattern_scratch n : _FENCE_TEMP_PATTERN n = true → scratch n.
Proof. auto using pattern_scratch. Qed.
Hint Resolve calm_discard_temporaries transaction_pattern_scratch fence_pattern_scratch : calm.

Lemma calm_reconcile_one r r' i i' b n : calm (reconcile_one r r' i i' b n).
Proof.
  unfold reconcile_one, read_optional, reconcile_blocked, reconcile_finalized,
    reconcile_restored, reconcile_unfinished, recover_journal, block, _mark_blocked,
    mark_quarantine_restored.
  calm.
Qed.
Hint Resolve calm_reconcile_one : calm.

Lemma calm_reconcile_all r r' i i' b names rc : calm (reconcile_all r r' i i' b names rc).
Proof.
  revert rc. induction names as [|n names IH]; intros rc; simpl; calm.
Qed.
Hint Resolve calm_reconcile_all : calm.

Lemma calm_reconcile r r' i i' b l : calm (reconcile_quarantine_transactions r r' i i' b l).
Proof.
  apply calm_with_lease. unfold _reconcile_quarantine_transactions_locked, clean_source,
    clean_quarantine.
  calm.
Qed.
Hint Resolve calm_reconcile : calm.

Lemma calm_prepare i i' b select binding : calm (prepare_fault i i' b select binding).
Proof.
  unfold prepare_fault, prepare_quarantine_transaction, close_lease. calm.
Qed.

Lemma calm_undo_fault i i' b p f q a {A} (e : exn) : calm (undo_fault i i' b p f q a e : op A).
Proof.
  unfold undo_fault, remove_quarantine_source_fence, mark_quarantine_restored. calm.
Qed.
Hint Resolve calm_undo_fault : calm.

Lemma calm_commit i i' b p settled evidence : calm (commit_fault i i' b p settled evidence).
Proof.
  unfold commit_fault, unchanged_since_prepare, absent, read_quarantine_record,
    mark_quarantine_applied, close_lease.
  calm.
Qed.
End steady.

(** ** The writer only appends *)

Definition extends (f f' : File) : Prop :=
  f_inode f' = f_inode f ∧ ∃ t, bytes_of (f_content f') = bytes_of (f_content f) +:+ t.

#[export] Instance extends_preorder : PreOrder extends.
Proof.
  split.
  - intros f. split; [done|]. exists "". by rewrite string_app_nil_r.
  - intros f g h [Hi [t Ht]] [Hi' [t' Ht']]. split; [congruence|].
    exists (t +:+ t'). by rewrite Ht', Ht, string_app_assoc.
Qed.

Record grown (w w' : World) : Prop := {
  gr_quarantine n : entry Quarantine n w' = entry Quarantine n w;
  gr_source n f : entry Source n w = Some f →
    ∃ f', entry Source n w' = Some f' ∧ extends f f';
}.

#[export] Instance grown_preorder : PreOrder grown.
Proof.
  split.
  - intros w. split; [done|]. intros n f Hf. by exists f.
  - intros w1 w2 w3 [Hq Hs] [Hq' Hs']. split.
    + intros n. by rewrite Hq', Hq.
    + intros n f Hf. destruct (Hs n f Hf) as (f' & Hf' & He).
      destruct (Hs' n f' Hf') as (f'' & Hf'' & He'). exists f''. split; [done|by etrans].
Qed.

Lemma grown_files w w' : source w' = source w → quarantine w' = quarantine w → grown w w'.
Proof.
  intros Hs Hq. assert (∀ r n, entry r n w' = entry r n w) as He
    by (intros [] n; unfold entry, dir; congruence).
  split; [intros; by rewrite He|]. intros n f Hf. exists f. by rewrite He.
Qed.

Lemma grown_insert n f w : entry Source n w = None → grown w (set_files Source (insert n f) w).
Proof.
  intros Hn. split; [done|]. intros k g Hg. exists g. split; [|reflexivity].
  rewrite entry_set_files, decide_True by done.
  rewrite lookup_insert_ne; [done|]. congruence.
Qed.

Lemma grown_alter n (f : File → File) w :
  (∀ g, extends g (f g)) → grown w (set_files Source (alter f n) w).
Proof.
  intros Hf. split; [done|]. intros k g Hg. rewrite entry_set_files, decide_True by done.
  destruct (decide (k = n)) as [->|].
  - rewrite lookup_alter_eq. unfold entry in Hg. rewrite Hg. simpl. eauto.
  - rewrite lookup_alter_ne by done. by exists g.
Qed.

Section append.
Context {K : Kernel}.
Notation adds m := (respects grown m).

Lemma adds_read {A} (f : World → result exn A) : adds (sys_read f).
Proof. apply (respects_read grown grown_files). Qed.

Lemma adds_append n raw e : adds (append_bytes Source n raw e).
Proof.
  unfold append_bytes. generalize (String.length raw) at 1. intros fuel.
  generalize (String.length raw) as left. generalize 0 as done.
  induction fuel as [|fuel IH]; intros done [|left]; simpl; repeat respect_one grown.
  - apply (respects_syscall grown grown_files). intros limit w. simpl.
    apply grown_alter. intros g. split; [done|]. simpl. eauto.
  - apply IH.
Qed.

Lemma adds_event fs n raw : adds (append_event fs n raw).
Proof.
  unfold append_event, _acquire_quarantine_lock, os_open, os_stat, os_fstat, os_fsync, sys_nop.
  repeat (cbv beta zeta;
    first [apply adds_read | apply adds_append | progress respect_one grown]);
  apply (respects_syscall grown grown_files); intros limit w; simpl.
  - destruct (entry Source QUARANTINE_LOCK w) eqn:E; [reflexivity|]. simpl.
    etrans; [by apply grown_insert|by apply grown_files].
  - destruct (entry Source n w) eqn:E; [reflexivity|]. simpl.
    etrans; [by apply grown_insert|by apply grown_files].
  - apply grown_alter. intros g. split; [done|]. exists "". by rewrite string_app_nil_r.
Qed.
End append.
