(* ===== verification/QuarantineRecords.v ===== *)
(** * Names and records of quarantine transactions

    The names temporaries and records are given match the patterns the recovery looks
    for, and each record the code writes passes the code's own validator when it is read
    back. *)

From S2P Require Import Prelude PyStd HostEventSink QuarantineTransaction QuarantineInvariants.
From S2P Require EcpaModel.

Local Open Scope string_scope.
Local Open Scope list_scope.

(** ** Names of a transaction's files *)

Definition dot : Ascii.ascii := Ascii.ascii_of_N 46.

Lemma forallb_no_char p c s : string_forallb p s = true → p c = false → has_char c s = false.
Proof.
  intros Hs Hc. induction s as [|a s IH]; simpl in *; [done|]. bool_inv.
  apply orb_false_iff. split; [|auto]. apply bool_decide_eq_false. congruence.
Qed.

Lemma hex_no_dot n s : is_hex_string n s = true → has_char dot s = false.
Proof. intros [_ Hs]%andb_true_iff. by eapply forallb_no_char. Qed.

Lemma pid_no_dot s : is_pid s = true → has_char dot s = false.
Proof. unfold is_pid. intros H. bool_inv. by eapply forallb_no_char. Qed.

Lemma stage_no_dot s : has_char dot (Stage_value s) = false.
Proof. by destruct s. Qed.

Lemma pretty_N_char_digit x : (x < 10)%N → is_digit (pretty_N_char x) = true ∧
  ((0 < x)%N → pretty_N_char x ≠ Ascii.ascii_of_N 48).
Proof.
  intros Hx. assert (In x (N.of_nat <$> seq 0 10)) as Hin.
  { apply list_elem_of_In, list_elem_of_fmap. exists (N.to_nat x).
    rewrite N2Nat.id, elem_of_seq. split; [done|lia]. }
  simpl in Hin. repeat (destruct Hin as [<-|Hin]; [by split|]). done.
Qed.

Lemma pretty_N_digits x s : (0 < x)%N → string_forallb is_digit s = true →
  is_pid (pretty_N_go x s) = true.
Proof.
  revert s. induction (N.lt_wf_0 x) as [x _ IH]. intros s Hx Hs.
  rewrite pretty_N_go_step by done.
  pose proof (N.mod_lt x 10 ltac:(done)) as Hm.
  destruct (pretty_N_char_digit (x mod 10) Hm) as [Hd Hz].
  destruct (decide (x < 10)%N) as [Hlt|Hge].
  - rewrite N.div_small by done. rewrite pretty_N_go_0. rewrite N.mod_small in * by done.
    unfold is_pid. cbn [string_forallb]. rewrite Hd, Hs.
    destruct (starts_with "0" _) eqn:E; [|done].
    apply starts_with_spec in E as [t E]. injection E as E _. by destruct (Hz Hx).
  - apply IH; [by apply N.div_lt; lia| |by simpl; rewrite Hd].
    apply N.div_str_pos. lia.
Qed.

Lemma pretty_pid z : (0 < z)%Z → is_pid (pretty z) = true.
Proof.
  intros Hz. destruct z as [|p|p]; [done| |done].
  change (is_pid (pretty_N_go (N.pos p) "") = true). by apply pretty_N_digits.
Qed.

Lemma pid_and_token_ok p k :
  is_pid p = true → is_hex_string 32 k = true →
  pid_and_token (p +:+ "." +:+ k +:+ ".tmp") = true.
Proof.
  intros Hp Hk. unfold pid_and_token.
  destruct (dot_split p (k +:+ ".tmp") (pid_no_dot _ Hp)) as [-> ->].
  change (k +:+ ".tmp") with (k +:+ "." +:+ "tmp").
  destruct (dot_split k "tmp" (hex_no_dot _ _ Hk)) as [-> ->].
  by rewrite Hp, Hk.
Qed.

Lemma stage_known s : Stage_value s ∈ Stage_value <$> STAGES.
Proof. apply list_elem_of_fmap. exists s. split; [done|destruct s; in_list]. Qed.

Lemma transaction_temp_ok t s p k :
  is_hex_string 64 t = true → is_pid p = true → is_hex_string 32 k = true →
  _TRANSACTION_TEMP_PATTERN
    (transaction_temp_prefix +:+ t +:+ "." +:+ Stage_value s +:+ "." +:+ p +:+ "." +:+ k +:+ ".tmp")
  = true.
Proof.
  intros Ht Hp Hk. unfold _TRANSACTION_TEMP_PATTERN. rewrite starts_with_app, remove_prefix_app.
  cbv zeta.
  destruct (dot_split t (Stage_value s +:+ "." +:+ p +:+ "." +:+ k +:+ ".tmp") (hex_no_dot _ _ Ht))
    as [-> ->].
  destruct (dot_split (Stage_value s) (p +:+ "." +:+ k +:+ ".tmp") (stage_no_dot s)) as [-> ->].
  rewrite Ht, pid_and_token_ok by done. by rewrite bool_decide_true by apply stage_known.
Qed.

Lemma fence_temp_ok t p k :
  is_hex_string 64 t = true → is_pid p = true → is_hex_string 32 k = true →
  _FENCE_TEMP_PATTERN (fence_temp_prefix +:+ t +:+ "." +:+ p +:+ "." +:+ k +:+ ".tmp") = true.
Proof.
  intros Ht Hp Hk. unfold _FENCE_TEMP_PATTERN. rewrite starts_with_app, remove_prefix_app.
  cbv zeta. destruct (dot_split t (p +:+ "." +:+ k +:+ ".tmp") (hex_no_dot _ _ Ht)) as [-> ->].
  by rewrite Ht, pid_and_token_ok.
Qed.

Definition record_name_of (t : string) (s : Stage) : string :=
  "ecpa-" +:+ t +:+ "." +:+ Stage_value s +:+ ".json".

Lemma record_name_Ok t s :
  is_hex_string 64 t = true → _record_name t s = Ok (record_name_of t s).
Proof. unfold _record_name. by intros ->. Qed.

Lemma record_name_is_record t s : is_record (record_name_of t s) = true.
Proof.
  apply andb_true_iff. split; [apply starts_with_app|].
  apply ends_with_spec. exists ("ecpa-" +:+ t +:+ "." +:+ Stage_value s).
  unfold record_name_of. by rewrite !string_app_assoc.
Qed.

Lemma record_name_field t s :
  is_hex_string 64 t = true →
  before_dot (remove_prefix "ecpa-" (record_name_of t s)) = t ∧
  after_dot (remove_prefix "ecpa-" (record_name_of t s)) = Stage_value s +:+ ".json".
Proof.
  intros Ht. unfold record_name_of. rewrite remove_prefix_app.
  apply (dot_split t (Stage_value s +:+ ".json")). by eapply hex_no_dot.
Qed.

Lemma record_name_inj t s s' :
  is_hex_string 64 t = true → record_name_of t s = record_name_of t s' → s = s'.
Proof.
  intros Ht E. destruct (record_name_field t s Ht) as [_ H].
  destruct (record_name_field t s' Ht) as [_ H']. rewrite E, H' in H. by destruct s, s'.
Qed.


(** *** Which stage a name ends with *)

Lemma string_app_length (a b : string) :
  String.length (a +:+ b) = (String.length a + String.length b)%nat.
Proof. induction a as [|c a IH]; [done|]. exact (f_equal S IH). Qed.

Lemma string_app_inj_r (a b c : string) : a +:+ c = b +:+ c → a = b.
Proof.
  intros E. assert (String.length a = String.length b) as Hl.
  { apply (f_equal String.length) in E. rewrite !string_app_length in E. lia. }
  revert b E Hl. induction a as [|x a IH]; intros [|y b] E Hl; try done.
  change (String x (a +:+ c) = String y (b +:+ c)) in E. injection E as -> E.
  f_equal. apply IH; [done|]. by injection Hl.
Qed.

Definition stage_suffix (s : Stage) : string := "." +:+ Stage_value s +:+ ".json".

Lemma ends_with_stage t s : ends_with (stage_suffix s) (record_name_of t s) = true.
Proof. apply ends_with_spec. exists ("ecpa-" +:+ t). unfold record_name_of. by rewrite string_app_assoc. Qed.

Lemma ends_with_intent t s : ends_with (stage_suffix intent) (record_name_of t s) = true → s = intent.
Proof.
  intros [x E]%ends_with_spec. unfold record_name_of, stage_suffix in E.
  assert (("ecpa-" +:+ t +:+ "." +:+ Stage_value s) +:+ ".json" = (x +:+ ".intent") +:+ ".json") as E'.
  { rewrite !string_app_assoc. exact E. }
  apply string_app_inj_r in E'. apply (f_equal last_char) in E'.
  rewrite (last_char_app x ".intent") in E' by done.
  rewrite (last_char_app "ecpa-") in E' by (by destruct t).
  rewrite (last_char_app t) in E' by done. by destruct s.
Qed.

Lemma transaction_of_intent t : transaction_of (record_name_of t intent) = t.
Proof.
  unfold transaction_of, record_name_of. rewrite remove_prefix_app.
  change ("." +:+ Stage_value intent +:+ ".json") with ".intent.json".
  induction t as [|c t IH]; [done|].
  change (remove_suffix ".intent.json" (String c (t +:+ ".intent.json")) = String c t).
  cbn [remove_suffix]. rewrite bool_decide_false.
  - f_equal. exact IH.
  - intros E. apply (f_equal String.length) in E. cbn [String.length] in E.
    rewrite string_app_length in E. simpl in E. lia.
Qed.

(** ** Records read back *)

Definition digest_of (v : object) : string := _digest (document_bytes (JObj v)).

(** What [_read_record_from_directory] makes of a published record. *)
Definition record (n : string) (v : object) : DurableRecord :=
  mkRecord n (document_bytes (JObj v)) (digest_of v) v.

(** A value agrees with the fields it was built from. *)
Definition self_equal (l : object) : Prop := Forall (λ p, json_eqb p.2 p.2 = true) l.

Lemma differs_self kv l : NoDup kv.*1 → self_equal l → l ⊆ kv → differs kv l = false.
Proof.
  intros Hkv Hl Hsub. apply not_true_iff_false. intros H.
  apply existsb_exists in H as ([k v] & Hin%list_elem_of_In & H). apply negb_true_iff in H.
  unfold json_get in H. rewrite (assoc_NoDup k _ v) in H by auto. simpl in H.
  pose proof ((proj1 (Forall_forall _ _) Hl) (k, v) Hin). simpl in *. congruence.
Qed.

Lemma object_self kv : NoDup kv.*1 → self_equal kv → json_eqb (JObj kv) (JObj kv) = true.
Proof.
  intros Hkv Hl. simpl. rewrite Nat.eqb_refl. apply forallb_forall. intros [k v] Hin%list_elem_of_In.
  rewrite (assoc_NoDup k _ v) by done. by apply ((proj1 (Forall_forall _ _) Hl) (k, v)).
Qed.

Lemma jstr_self s : json_eqb (JStr s) (JStr s) = true.
Proof. simpl. by rewrite bool_decide_true. Qed.
Lemma jint_self z : json_eqb (JInt z) (JInt z) = true.
Proof. apply Z.eqb_refl. Qed.
Lemma jstr_opt_self o : json_eqb (jstr_opt o) (jstr_opt o) = true.
Proof. destruct o; [apply jstr_self|done]. Qed.

Ltac solve_keys := apply (bool_decide_unpack _); reflexivity.
Ltac solve_self :=
  repeat first
    [ apply Forall_nil_2 | apply Forall_cons_2
    | apply jstr_self | apply jint_self | apply jstr_opt_self ].

Lemma directory_self i : json_eqb (_directory_value i) (_directory_value i) = true.
Proof. apply object_self; [solve_keys|solve_self]. Qed.

Section read_back.
Context (t : string) (Ht : is_hex_string 64 t = true).

Lemma applied_reads_back i (s : QuarantinedJournal) :
  _validate_applied (record (record_name_of t applied) (applied_value t (digest i) s)) t i s = Ok ().
Proof.
  unfold _validate_applied. rewrite record_name_Ok by done.
  assert (has_exactly _APPLIED_FIELDS (applied_value t (digest i) s) = true) as H by reflexivity.
  change (value (record ?n ?v)) with v. rewrite H.
  rewrite differs_self; [|solve_keys|unfold applied_value; solve_self|done].
  change (name (record ?n ?v)) with n. simpl. by rewrite bool_decide_true.
Qed.

Lemma fence_reads_back d (s : QuarantinedJournal) :
  has_exactly _FENCE_FIELDS (_fence_value t d s) = true ∧
  json_eq_object (_fence_value t d s) (_fence_value t d s) = true.
Proof.
  split; [reflexivity|]. apply object_self; [solve_keys|unfold _fence_value; solve_self].
Qed.

Lemma restored_reads_back i a reason :
  reason ∈ _RESTORE_REASONS →
  _validate_terminal
    (record (record_name_of t restored) (terminal_value RESTORED_SCHEMA t i a None reason))
    t RESTORED_SCHEMA restored i a None = Ok ().
Proof.
  intros Hr. unfold _validate_terminal. rewrite record_name_Ok by done. cbv zeta.
  change (value (record ?n ?v)) with v. change (name (record ?n ?v)) with n.
  set (v := terminal_value _ _ _ _ _ _).
  assert (has_exactly _TERMINAL_FIELDS v = true) as -> by reflexivity.
  rewrite (differs_self v); [|solve_keys|solve_self|].
  - simpl. by rewrite !bool_decide_true.
  - unfold v, terminal_value. set_solver.
Qed.

Lemma finalized_reads_back i a receipt identity :
  _is_digest (JStr receipt) = true → _valid_process_identity identity = true →
  _validate_finalized
    (record (record_name_of t finalized) (finalized_value t i a receipt identity)) t i a = Ok ().
Proof.
  intros Hd Hp. unfold _validate_finalized. rewrite record_name_Ok by done. cbv zeta.
  change (value (record ?n ?v)) with v. change (name (record ?n ?v)) with n.
  set (v := finalized_value _ _ _ _ _).
  assert (has_exactly _FINALIZED_FIELDS v = true) as -> by reflexivity.
  assert (json_get "fact_receipt_sha256" v = JStr receipt) as -> by reflexivity.
  assert (json_get "source_process_identity" v = identity) as -> by reflexivity.
  rewrite (differs_self v); [|solve_keys|solve_self|unfold v, finalized_value; set_solver].
  rewrite Hd, Hp. simpl. by rewrite bool_decide_true.
Qed.

Lemma blocked_reads_back i a f reason :
  reason ∈ _BLOCK_REASONS → (reason = "source-replacement-after-finalize" ↔ is_Some f) →
  _validate_terminal (record (record_name_of t blocked) (terminal_value BLOCKED_SCHEMA t i a f reason))
    t BLOCKED_SCHEMA blocked i a f = Ok ().
Proof.
  intros Hr Hf. unfold _validate_terminal. rewrite record_name_Ok by done. cbv zeta.
  change (value (record ?n ?v)) with v. change (name (record ?n ?v)) with n.
  set (v := terminal_value _ _ _ _ _ _).
  assert (has_exactly _TERMINAL_FIELDS v = true) as -> by reflexivity.
  assert (json_get "reason" v = JStr reason) as -> by reflexivity.
  rewrite (differs_self v); [|solve_keys|solve_self|unfold v, terminal_value; set_solver].
  simpl. rewrite (bool_decide_ext _ _ Hf), eqb_reflx. by rewrite !bool_decide_true.
Qed.

Lemma positive_int_Some z : (0 < z)%Z → positive_int (JInt z) = Some z.
Proof. intros Hz. unfold positive_int. by rewrite (proj2 (Z.leb_gt z 0)). Qed.

(** The snapshot an intent was made of is the one read back from it. *)
Lemma intent_reads_back q b s (snapshot : QuarantinedJournal) :
  quarantine_transaction_id b = t → is_journal (journal snapshot) = true →
  is_path_name (journal snapshot) = true → (0 < device snapshot)%Z → (0 < inode snapshot)%Z →
  _intent_snapshot (record (record_name_of t intent) (intent_value q t b s snapshot)) t = Ok snapshot.
Proof.
  intros Hb Hj Hp Hd Hi. unfold _intent_snapshot. cbv zeta.
  change (value (record ?n ?v)) with v. change (name (record ?n ?v)) with n.
  set (v := intent_value _ _ _ _ _).
  assert (require_key "journal_base64" v = Ok (JStr (b64encode (raw snapshot)))) as -> by reflexivity.
  assert (require_key "journal" v = Ok (JStr (journal snapshot))) as -> by reflexivity.
  assert (require_key "journal_device" v = Ok (JInt (device snapshot))) as -> by reflexivity.
  assert (require_key "journal_inode" v = Ok (JInt (inode snapshot))) as -> by reflexivity.
  assert (has_exactly _INTENT_FIELDS v = true) as -> by reflexivity.
  assert (json_get "schema" v = JStr INTENT_SCHEMA) as -> by reflexivity.
  assert (json_get "transaction_id" v = JStr t) as -> by reflexivity.
  assert (assoc "binding" v = Some b) as -> by reflexivity.
  assert (json_get "journal_bytes" v = JInt (Z.of_nat (String.length (raw snapshot)))) as ->
    by reflexivity.
  assert (json_get "journal_sha256" v = JStr (_digest (raw snapshot))) as -> by reflexivity.
  assert (is_directory_value (json_get "source_directory" v) = true) as -> by reflexivity.
  assert (is_directory_value (json_get "quarantine_directory" v) = true) as -> by reflexivity.
  cbn [mbind result_bind]. rewrite b64decode_encode. cbn [mbind result_bind].
  rewrite (positive_int_Some (device snapshot)), (positive_int_Some (inode snapshot)) by done.
  rewrite record_name_Ok, !jstr_self, jint_self by done.
  unfold is_journal in Hj. simpl.
  rewrite bool_decide_true by done. rewrite Hb, bool_decide_true by done. simpl.
  rewrite Hj, Hp. simpl. by destruct snapshot.
Qed.

Lemma directories_read_back q b s (snapshot : QuarantinedJournal) :
  directories_match (intent_value q t b s snapshot) s q = true.
Proof.
  unfold directories_match. set (v := intent_value _ _ _ _ _).
  assert (json_get "source_directory" v = _directory_value s) as -> by reflexivity.
  assert (json_get "quarantine_directory" v = _directory_value q) as -> by reflexivity.
  by rewrite !directory_self.
Qed.
End read_back.
