(* ===== verification/QuarantineSpec.v ===== *)
(** * Triples for the file operations of a run without failing system calls

    [spec D F P m Q]: from files satisfying [P], under the facts [F] of the process and
    its directories, and when system calls do not fail, [m] returns with files
    satisfying [Q], or the process is killed at one of its system calls and leaves
    files satisfying [D].  The rules for the monad, and one for each system call. *)

From S2P Require Import Prelude PyStd HostEventSink QuarantineTransaction QuarantineInvariants QuarantineRecords.
From S2P Require EcpaModel.

Local Open Scope string_scope.
Local Open Scope list_scope.

#[local] Opaque sha256_hexdigest.

Definition Disk : Type := gmap string File * gmap string File * bool.
Definition disk (w : World) : Disk := (files (source w), files (quarantine w), locked w).
Definition look (r : Root) (n : string) (m : Disk) : option File :=
  match r with Source => m.1.1 !! n | Quarantine => m.1.2 !! n end.
Definition edit (r : Root) (f : gmap string File → gmap string File) (m : Disk) : Disk :=
  match r with Source => (f m.1.1, m.1.2, m.2) | Quarantine => (m.1.1, f m.1.2, m.2) end.
Definition held (m : Disk) : bool := m.2.
Definition hold (b : bool) (m : Disk) : Disk := (m.1, b).

Lemma entry_look r n w : entry r n w = look r n (disk w).
Proof. by destruct r. Qed.

Lemma disk_set_files r f w : disk (set_files r f w) = edit r f (disk w).
Proof. by destruct r. Qed.

Lemma look_edit_insert r r' n n' f m :
  look r' n' (edit r (insert n f) m) =
  if decide (r = r' ∧ n = n') then Some f else look r' n' m.
Proof.
  destruct (decide (r = r' ∧ n = n')) as [[-> ->]|E].
  - destruct r', m as [[]]; simpl; apply lookup_insert_eq.
  - destruct r, r', m as [[]]; simpl; try done; (apply lookup_insert_ne; naive_solver).
Qed.

Lemma look_edit_delete r r' n n' m :
  look r' n' (edit r (delete n) m) = if decide (r = r' ∧ n = n') then None else look r' n' m.
Proof.
  destruct (decide (r = r' ∧ n = n')) as [[-> ->]|E].
  - destruct r', m as [[]]; simpl; apply lookup_delete_eq.
  - destruct r, r', m as [[]]; simpl; try done; (apply lookup_delete_ne; naive_solver).
Qed.

Lemma look_edit_alter r r' n n' f m :
  look r' n' (edit r (alter f n) m) =
  if decide (r = r' ∧ n = n') then f <$> look r' n' m else look r' n' m.
Proof.
  destruct (decide (r = r' ∧ n = n')) as [[-> ->]|E].
  - destruct r', m as [[]]; simpl; apply lookup_alter_eq.
  - destruct r, r', m as [[]]; simpl; try done; (apply lookup_alter_ne; naive_solver).
Qed.

(** The process and the directories themselves. *)
Definition Meta : Type :=
  Z * (PathState * bool * (Z * Z)) * (PathState * bool * (Z * Z)).
Definition meta (w : World) : Meta :=
  (pid w, (d_path (source w), d_private (source w), identity_of (source w)),
   (d_path (quarantine w), d_private (quarantine w), identity_of (quarantine w))).

Definition later (w w' : World) : Prop := script w' `suffix_of` script w ∧ meta w' = meta w.

#[export] Instance later_preorder : PreOrder later.
Proof.
  split; [done|]. intros w1 w2 w3 [Hs Hm] [Hs' Hm']. split; [by etrans|congruence].
Qed.

(** No system call fails; writes make progress. *)
Definition clean (l : list outcome) : Prop :=
  Forall (λ o, match o with Fails | Writes O => False | _ => True end) l.

Lemma clean_later w w' : later w w' → clean (script w) → clean (script w').
Proof. intros [[k Hk] _]. unfold clean. rewrite Hk, Forall_app. tauto. Qed.

Section spec.
(** [D]: what a kill leaves; [F]: what holds of the directories and the process. *)
Context (D : Disk → Prop) (F : Meta → Prop).

Definition spec {A} (P : Disk → Prop) (m : op A) (Q : A → Disk → Prop) : Prop :=
  ∀ w, F (meta w) → clean (script w) → P (disk w) →
  match m w with
  | (Ok a, w') => later w w' ∧ Q a (disk w')
  | (Raise e, w') => e = Killed ∧ Dies ∈ script w ∧ meta w' = meta w ∧ D (disk w')
  end.

Lemma spec_conseq {A} (P P' : Disk → Prop) (m : op A) (Q Q' : A → Disk → Prop) :
  spec P' m Q' → (∀ d, P d → P' d) → (∀ a d, Q' a d → Q a d) → spec P m Q.
Proof.
  intros Hm HP HQ w Hf Hc Hw. specialize (Hm w Hf Hc (HP _ Hw)).
  destruct (m w) as [[a|e] w']; naive_solver.
Qed.

Lemma spec_weaken {A} P (m : op A) (Q Q' : A → Disk → Prop) :
  spec P m Q' → (∀ a d, Q' a d → Q a d) → spec P m Q.
Proof. intros Hm HQ. by eapply spec_conseq. Qed.

Lemma spec_ret {A} (P : Disk → Prop) (a : A) (Q : A → Disk → Prop) :
  (∀ d, P d → Q a d) → spec P (mret a) Q.
Proof. intros HQ w _ _ Hw. split; [reflexivity|]. by apply HQ. Qed.

Lemma spec_bind {A B} P (m : op A) (f : A → op B) R Q :
  spec P m R → (∀ a, spec (R a) (f a) Q) → spec P (m ≫= f) Q.
Proof.
  intros Hm Hf w Hw Hc HP. specialize (Hm w Hw Hc HP). unfold mbind, method_bind.
  destruct (m w) as [[a|e] w']; [|done]. destruct Hm as [Hl HR].
  assert (F (meta w')) as Hw' by (by rewrite (proj2 Hl)).
  specialize (Hf a w' Hw' (clean_later _ _ Hl Hc) HR).
  destruct (f a w') as [[b|e] w''].
  - destruct Hf as [Hl' HQ]. split; [by etrans|done].
  - destruct Hf as (He & Hd & Hm'' & HD). destruct Hl as [[k Hk] Hm'].
    split_and!; [done| |congruence|done]. rewrite Hk. apply elem_of_app. by right.
Qed.

Lemma spec_fact {A} (P : Disk → Prop) (φ : Prop) (m : op A) Q :
  (∀ d, P d → φ) → (φ → spec P m Q) → spec P m Q.
Proof. intros Hφ Hm w Hw Hc HP. apply Hm; eauto. Qed.

Lemma spec_then {B} P (m : op ()) (k : op B) R Q :
  spec P m (λ _, R) → spec R k Q → spec P (_ ← m; k) Q.
Proof. intros Hm Hk. eapply spec_bind; [exact Hm|intros ?; exact Hk]. Qed.

(** The result satisfies [φ], the files [R]. *)
Lemma spec_step {A B} P (m : op A) (f : A → op B) (φ : A → Prop) R Q :
  spec P m (λ a d, φ a ∧ R d) → (∀ a, φ a → spec R (f a) Q) → spec P (m ≫= f) Q.
Proof.
  intros Hm Hf. eapply spec_bind; [exact Hm|]. intros a w Hw Hc [Hφ HR]. by apply Hf.
Qed.

(** The result is [a]. *)
Lemma spec_value {A B} P (m : op A) (f : A → op B) a R Q :
  spec P m (λ b d, b = a ∧ R d) → spec R (f a) Q → spec P (m ≫= f) Q.
Proof. intros Hm Hf. eapply spec_step; [exact Hm|]. by intros ? ->. Qed.

Lemma spec_pre_exists {A B} (P : B → Disk → Prop) (m : op A) Q :
  (∀ b, spec (P b) m Q) → spec (λ d, ∃ b, P b d) m Q.
Proof. intros Hm w Hw Hc [b HP]. by apply (Hm b). Qed.

Lemma spec_guard (P : Disk → Prop) b e (Q : () → Disk → Prop) :
  (∀ d, P d → b = false ∧ Q () d) → spec P (guard_raise b e) Q.
Proof.
  intros Hb w _ _ HP. destruct (Hb _ HP) as [-> HQ]. simpl. by split.
Qed.

Lemma spec_get {B} P (f : World → op B) Q :
  (∀ w, F (meta w) → spec P (f w) Q) → spec P (get ≫= f) Q.
Proof. intros Hf w Hw Hc HP. unfold mbind, method_bind, get. by apply Hf. Qed.

Lemma spec_lift {A} P (r : result exn A) a (Q : A → Disk → Prop) :
  r = Ok a → (∀ d, P d → Q a d) → spec P (lift r) Q.
Proof. intros -> HQ w _ _ HP. split; [reflexivity|]. by apply HQ. Qed.

(** A system call that changes nothing but the files. *)
Lemma spec_syscall {A} (f : option nat → World → result exn A * World) P (Q : A → Disk → Prop) :
  (∀ d, P d → D d) →
  (∀ limit w, F (meta w) → P (disk w) → limit ≠ Some O →
     ∃ a w', f limit w = (Ok a, w') ∧ later w w' ∧ Q a (disk w')) →
  spec P (syscall f) Q.
Proof.
  intros HD Hf w Hw Hc HP. unfold syscall.
  assert (∀ o s limit, script w = o :: s → limit ≠ Some O →
    match f limit (set_script s w) with
    | (Ok a, w') => later w w' ∧ Q a (disk w')
    | (Raise e, w') => e = Killed ∧ Dies ∈ o :: s ∧ meta w' = meta w ∧ D (disk w')
    end) as Hgo.
  { intros o s limit Hs Hl.
    destruct (Hf limit (set_script s w)) as (a & w' & -> & Hl' & HQ); [|done|done|].
    - done.
    - split; [|done]. etrans; [|exact Hl']. split; [|done]. simpl. rewrite Hs.
      by apply suffix_cons_r. }
  destruct (script w) as [|o s] eqn:Hs.
  - destruct (Hf None w Hw HP) as (a & w' & -> & Hl' & HQ); [done|]. by split.
  - unfold clean in Hc. rewrite Forall_cons in Hc. destruct Hc as [Ho _].
    destruct o as [|[|n]| |]; try done; [by apply Hgo..|].
    split_and!; [done|by left|done|by apply HD].
Qed.

Lemma spec_read {A} (f : World → result exn A) P (Q : A → Disk → Prop) :
  (∀ d, P d → D d) → (∀ w, F (meta w) → P (disk w) → ∃ a, f w = Ok a ∧ Q a (disk w)) →
  spec P (sys_read f) Q.
Proof.
  intros HD Hf. apply spec_syscall; [done|]. intros _ w Hw HP _.
  destruct (Hf w Hw HP) as (a & -> & HQ). by exists a, w.
Qed.

Lemma spec_nop P : (∀ d, P d → D d) → spec P sys_nop (λ _, P).
Proof. intros HD. apply spec_read; [done|]. eauto. Qed.

(** Handlers that pass a kill on do nothing else here. *)
Lemma spec_catch {A} P (m : op A) h Q :
  (∀ w, h Killed w = (Raise Killed, w)) → spec P m Q → spec P (catch m h) Q.
Proof.
  intros Hh Hm w Hw Hc HP. specialize (Hm w Hw Hc HP). unfold catch.
  destruct (m w) as [[a|e] w']; [done|]. destruct Hm as [-> Hm]. by rewrite Hh.
Qed.

Lemma spec_catch_all {A} P (m : op A) h Q : spec P m Q → spec P (catch_all m h) Q.
Proof. apply spec_catch. intros. by rewrite decide_True. Qed.

Lemma spec_os_error {A} P (m : op A) e Q : spec P m Q → spec P (os_error_as e m) Q.
Proof. by apply spec_catch. Qed.

Lemma spec_sink_error {A} P (m : op A) e Q : spec P m Q → spec P (sink_error_as e m) Q.
Proof. by apply spec_catch. Qed.

Lemma spec_try {A} P (m : op A) (Q : result exn A → Disk → Prop) :
  spec P m (λ a, Q (Ok a)) → spec P (try_op m) Q.
Proof.
  intros Hm. apply spec_catch_all. eapply spec_bind; [exact Hm|]. intros a. by apply spec_ret.
Qed.

(** A read that raises, looked at as a value. *)
Lemma spec_try_read {A} (f : World → result exn A) P (Q : result exn A → Disk → Prop) :
  (∀ d, P d → D d) →
  (∀ w, F (meta w) → P (disk w) → f w ≠ Raise Killed ∧ Q (f w) (disk w)) →
  spec P (try_op (sys_read f)) Q.
Proof.
  intros HD Hf w Hw Hc HP.
  assert (∀ o s, script w = o :: s → later w (set_script s w)) as Hl.
  { intros o s Hs. split; [|done]. simpl. rewrite Hs. by apply suffix_cons_r. }
  assert (∀ s, f (set_script s w) ≠ Raise Killed ∧ Q (f (set_script s w)) (disk w)) as Hgo
    by (intros; by apply (Hf (set_script s w))).
  unfold try_op, catch_all, catch, sys_read, syscall, mbind, method_bind, mret, method_ret.
  destruct (script w) as [|o s] eqn:Hs.
  - destruct (Hf w Hw HP) as [Hk HQ]. destruct (f w) as [a|e]; [by split|].
    rewrite decide_False by congruence. by split.
  - unfold clean in Hc. rewrite Forall_cons in Hc. destruct Hc as [Ho _].
    destruct (Hgo s) as [Hk HQ].
    destruct o as [|[|n]| |]; try done;
      try (destruct (f (set_script s w)) as [a|e];
           [|rewrite decide_False by congruence]; (split; [by eapply Hl|done])).
    rewrite decide_True by done. split_and!; [done|by left|done|by apply HD].
Qed.

Lemma spec_finally {A} P (m : op A) c Q Q' :
  spec P m Q → (∀ a, spec (Q a) c (λ _, Q' a)) → spec P (finally m c) Q'.
Proof.
  intros Hm Hc w Hw Hcl HP.
  pose proof (spec_bind P m (λ a, _ ← c; mret a) Q Q' Hm) as Hb.
  assert (∀ a, spec (Q a) (_ ← c; mret a) Q') as Hf.
  { intros a. eapply spec_bind; [apply Hc|]. intros u. by apply spec_ret. }
  specialize (Hb Hf w Hw Hcl HP). specialize (Hm w Hw Hcl HP). unfold finally.
  unfold mbind, method_bind in Hb |- *. destruct (m w) as [[a|e] w'].
  - destruct (c w') as [[[]|e] w'']; done.
  - by destruct Hm as [-> Hm].
Qed.

(** A guard on the world. *)
Lemma spec_get_guard {B} P (g : World → bool) (e : exn) (k : op B) Q :
  (∀ w, F (meta w) → P (disk w) → g w = false) → spec P k Q →
  spec P (w ← get; _ ← guard_raise (g w) e; k) Q.
Proof.
  intros Hg Hk w Hw Hc HP. unfold mbind, method_bind, get. rewrite (Hg w Hw HP). by apply Hk.
Qed.
End spec.

(** ** System calls *)

Section calls.
Context {K : Kernel} (D : Disk → Prop) (F : Meta → Prop).
Notation spec P m Q := (spec D F P m Q).

Lemma later_set_files r f w : later w (set_files r f w).
Proof. by destruct r. Qed.

Lemma spec_stat P r n f :
  (∀ d, P d → D d) → (∀ d, P d → look r n d = Some f) →
  spec P (os_stat r n) (λ g d, g = f ∧ P d).
Proof.
  intros HD Hn. apply spec_read; [done..|]. intros w _ HP. rewrite entry_look, (Hn _ HP). eauto.
Qed.

(** Whether a name is there. *)
Lemma spec_try_stat P r n :
  (∀ d, P d → D d) →
  spec P (try_op (os_stat r n))
    (λ x d, P d ∧ match x with
                  | Ok f => look r n d = Some f
                  | Raise e => e = FileNotFoundError ∧ look r n d = None
                  end).
Proof.
  intros HD. apply spec_try_read; [done..|]. intros w _ HP. rewrite entry_look.
  by destruct (look r n (disk w)) eqn:E.
Qed.

Lemma spec_exists P r n :
  (∀ d, P d → D d) →
  spec P (_exists r n) (λ b d, P d ∧ if b : bool then is_Some (look r n d) else look r n d = None).
Proof.
  intros HD. unfold _exists. eapply spec_bind; [by apply spec_try_stat|].
  intros [f|e]; [apply spec_ret; naive_solver|].
  apply spec_fact with (e = FileNotFoundError); [naive_solver|].
  intros ->. apply spec_ret. naive_solver.
Qed.

Lemma spec_open P r n (Φ : File → Prop) :
  (∀ d, P d → D d) → (∀ d, P d → ∃ f, look r n d = Some f ∧ f_kind f = Regular ∧ Φ f) →
  spec P (os_open r n) (λ f d, P d ∧ f_kind f = Regular ∧ Φ f).
Proof.
  intros HD Hn. apply spec_read; [done..|]. intros w _ HP.
  destruct (Hn _ HP) as (f & Hf & Hk & HΦ). rewrite entry_look, Hf.
  rewrite decide_False by (by rewrite Hk). eauto.
Qed.

Lemma spec_fstat P f : (∀ d, P d → D d) → spec P (os_fstat f) (λ g d, g = f ∧ P d).
Proof. intros HD. apply spec_read; [done..|]. eauto. Qed.

Lemma spec_os_read P f :
  (∀ d, P d → D d) → spec P (os_read f) (λ s d, s = bytes_of (f_content f) ∧ P d).
Proof. intros HD. apply spec_read; [done..|]. eauto. Qed.

Lemma spec_fsync P r : (∀ d, P d → D d) → spec P (os_fsync r) (λ _, P).
Proof. intros HD. by apply spec_nop. Qed.

Lemma spec_listdir P r :
  (∀ d, P d → D d) →
  spec P (os_listdir r) (λ l d, P d ∧ NoDup l ∧ ∀ n, n ∈ l ↔ is_Some (look r n d)).
Proof.
  intros HD. apply spec_read; [done..|]. intros w _ HP. eexists. split; [done|].
  split; [done|]. split; [apply NoDup_fst_map_to_list|]. intros n.
  rewrite list_elem_of_fmap. split.
  - intros ([n' f] & -> & Hf%elem_of_map_to_list). exists f. by rewrite <-entry_look.
  - intros [f Hf]. rewrite <-entry_look in Hf. exists (n, f).
    split; [done|]. by apply elem_of_map_to_list.
Qed.

Lemma spec_unlink P r n (Q : Disk → Prop) :
  (∀ d, P d → D d) → (∀ d, P d → is_Some (look r n d) ∧ Q (edit r (delete n) d)) →
  spec P (os_unlink r n) (λ _, Q).
Proof.
  intros HD Hn. apply spec_syscall; [done..|]. intros _ w _ HP _.
  destruct (Hn _ HP) as [[f Hf] HQ]. rewrite entry_look, Hf. eexists _, _. split; [done|].
  split; [apply later_set_files|]. by rewrite disk_set_files.
Qed.

(** A new private file. *)
Definition fresh_file (f : File) : Prop :=
  f_kind f = Regular ∧ f_owned f = true ∧ f_mode f = 384%Z.

Lemma fresh_private f : fresh_file f → private_file f = true.
Proof. intros (Hk & Ho & Hm). unfold private_file. by rewrite Hk, Ho, Hm. Qed.

Lemma spec_create P r n (Q : Disk → Prop) :
  (∀ d, P d → D d) →
  (∀ d f, P d → fresh_file f → look r n d = None ∧ Q (edit r (insert n f) d)) →
  spec P (os_create r n) (λ _, Q).
Proof.
  intros HD Hn. apply spec_syscall; [done..|]. intros _ w _ HP _.
  destruct (Hn _ (mkFile (inode_of (inodes w)) Regular true 384 (Bytes "" false)) HP) as [Hf HQ];
    [done|].
  rewrite entry_look, Hf. eexists _, _. split; [done|].
  split; [by destruct r|]. replace (disk (bump_inodes _)) with (disk (set_files r
    (insert n (mkFile (inode_of (inodes w)) Regular true 384 (Bytes "" false))) w)) by done.
  by rewrite disk_set_files.
Qed.

Lemma spec_open_or_create P r n :
  (∀ d, P d → D d) → (∀ d f, P d → look r n d = Some f → private_file f = true) →
  (∀ d f, P d → fresh_file f → look r n d = None → P (edit r (insert n f) d)) →
  spec P (os_open_or_create r n) (λ f d, private_file f = true ∧ P d).
Proof.
  intros HD Hf Hn. apply spec_syscall; [done..|]. intros _ w _ HP _. rewrite entry_look.
  destruct (look r n (disk w)) as [f|] eqn:E.
  - pose proof (Hf _ _ HP E) as Hp. exists f, w. unfold private_file in Hp. bool_inv.
    rewrite decide_False by congruence. split; [done|]. split; [reflexivity|].
    split; [|done]. by apply (Hf (disk w)).
  - set (f := mkFile (inode_of (inodes w)) Regular true 384 (Bytes "" false)).
    assert (fresh_file f) as Hfresh by done.
    exists f, (bump_inodes (set_files r (insert n f) w)). split; [done|].
    split; [by destruct r|]. split; [by apply fresh_private|].
    replace (disk (bump_inodes _)) with (disk (set_files r (insert n f) w)) by done.
    rewrite disk_set_files. by apply Hn.
Qed.

Lemma spec_rename P r n r' n' f (Q : Disk → Prop) :
  (∀ d, P d → D d) →
  (∀ w, F (meta w) → d_device (dir r w) = d_device (dir r' w)) →
  (∀ d, P d → look r n d = Some f ∧ look r' n' d = None ∧
              Q (edit r' (insert n' f) (edit r (delete n) d))) →
  spec P (_rename_noreplace r n r' n') (λ _, Q).
Proof.
  intros HD Hdev Hn. apply spec_syscall; [done..|]. intros _ w Hw HP _.
  destruct (Hn _ HP) as (Hf & Hf' & HQ). rewrite !entry_look, Hf, Hf'.
  rewrite decide_True by auto. eexists _, _. split; [done|]. split.
  - etrans; apply later_set_files.
  - by rewrite !disk_set_files.
Qed.

(** Writing a document to a temporary ends with the document in it. *)
Lemma spec_write_document (P : File → Disk → Prop) r n v e :
  (∀ f d, P f d → D d) →
  (∀ f d, P f d → look r n d = Some f) →
  (∀ f d c, P f d → P (set_content c f) (edit r (alter (λ g, set_content (c) g) n) d)) →
  spec (λ d, ∃ f, P f d) (write_document r n v e)
    (λ _ d, ∃ f, P f d ∧ f_content f = Document v).
Proof.
  intros HD Hn Hset. unfold write_document.
  set (size := String.length (document_bytes v)).
  assert (∀ fuel done left, (left ≤ fuel)%nat → (done + left = size)%nat →
    spec (λ d, ∃ f, P f d ∧ (left = 0%nat → f_content f = Document v))
      (write_loop fuel r n e (λ done n _, written v (done + n)) done left)
      (λ _ d, ∃ f, P f d ∧ f_content f = Document v)) as Hloop.
  { intros fuel. induction fuel as [|fuel IH]; intros done [|left] Hl Hs; simpl; try lia.
    1,2: apply spec_ret; naive_solver.
    eapply spec_bind with (R := λ k d, (0 < k ≤ S left)%nat ∧
      ∃ f, P f d ∧ f_content f = written v (done + k)).
    - apply spec_syscall; [naive_solver|]. intros limit w _ (f & HP & _) Hlim.
      set (k := match limit with Some n => Nat.min n (S left) | None => S left end).
      assert (0 < k ≤ S left)%nat as Hk.
      { unfold k. destruct limit as [[|m]|]; [done| |]; lia. }
      eexists _, _. split; [done|]. split; [apply later_set_files|].
      split; [exact Hk|]. rewrite disk_set_files.
      exists (set_content (written v (done + k)) f). split; [|done].
      by apply (Hset f _ (written v (done + k))).
    - intros k. apply spec_fact with (0 < k ≤ S left)%nat; [naive_solver|]. intros Hk.
      eapply spec_bind with
        (R := λ _ d, ∃ f, P f d ∧ f_content f = written v (done + k)).
      + apply spec_guard. intros d (_ & Hd). split; [|done]. apply Nat.eqb_neq. lia.
      + intros _. eapply spec_conseq; [apply (IH (done + k)%nat (S left - k)%nat); lia| |done].
        intros d (f & HP & Hf). exists f. split; [done|]. intros H0. rewrite Hf.
        unfold written. fold size. by rewrite (proj2 (Nat.leb_le _ _)) by lia. }
  eapply spec_conseq; [by apply (Hloop size 0%nat size)| |done].
  intros d [f HP]. exists f. split; [done|]. unfold size, document_bytes, newline.
  intros H0. exfalso. clear -H0. unfold String.length in *.
  induction (EcpaModel.canonical_bytes v) as [|a s IH]; simpl in *; [done|]. done.
Qed.
End calls.
