(* ===== verification/QuarantineStates.v ===== *)
(** * The files of one quarantine transaction

    [Transaction] is what [prepare_fault] chose; [Abs] what of it is durable: the
    intent, where the journal is, the fence, the applied, restored and finalized
    records.  [st T a] describes the files in the state [a], [recoverable T] that one of
    the states the protocol can be killed in describes them.  Publishing a record, by a
    temporary and a rename, is proved to go from one such state to another. *)

From S2P Require Import Prelude PyStd HostEventSink QuarantineTransaction QuarantineInvariants QuarantineRecords QuarantineSpec.
From S2P Require EcpaModel.

Local Open Scope string_scope.
Local Open Scope list_scope.

#[local] Opaque sha256_hexdigest.

(** ** The files of one transaction *)

Record Transaction : Type := mkTransaction {
  t_id : string; t_binding : json; t_snapshot : QuarantinedJournal; t_file : File;
  t_source : Z * Z; t_quarantine : Z * Z; t_max : Z;
}.

Section state.
Context (T : Transaction).

Definition t_journal : string := journal (t_snapshot T).
Definition t_name (s : Stage) : string := record_name_of (t_id T) s.
Definition t_fence : string := _quarantine_fence_name t_journal.

Definition t_intent : object :=
  intent_value (t_quarantine T) (t_id T) (t_binding T) (t_source T) (t_snapshot T).
Definition t_intent_digest : string := digest_of t_intent.
Definition t_fence_value : object := _fence_value (t_id T) t_intent_digest (t_snapshot T).
Definition t_applied : object := applied_value (t_id T) t_intent_digest (t_snapshot T).
Definition t_applied_digest (a : bool) : option string :=
  if a then Some (digest_of t_applied) else None.
Definition t_restored (a : bool) (reason : string) : object :=
  terminal_value RESTORED_SCHEMA (t_id T) t_intent_digest (t_applied_digest a) None reason.

(** The receipt and the process identity a runner finalizes with. *)
Definition t_finalized (x : string * json) : object :=
  finalized_value (t_id T) t_intent_digest (digest_of t_applied) x.1 x.2.

Definition fits (v : object) : Prop :=
  oversized (document_bytes (JObj v)) MAX_TRANSACTION_RECORD_BYTES = false.

(** The transaction is one [prepare_fault] can have left: its identifier is its
    binding's, the journal is a regular file with the snapshot's bytes and inode, and
    its records are below the limit. *)
Record transaction_ok : Prop := {
  ok_hex : is_hex_string 64 (t_id T) = true;
  ok_id : quarantine_transaction_id (t_binding T) = t_id T;
  ok_journal : is_journal t_journal = true ∧ is_path_name t_journal = true ∧
               hidden t_journal = false;
  ok_device : (0 < device (t_snapshot T))%Z ∧ (t_source T).1 = device (t_snapshot T) ∧
              (t_quarantine T).1 = device (t_snapshot T);
  ok_distinct : t_source T ≠ t_quarantine T;
  ok_inode : (0 < inode (t_snapshot T))%Z ∧ f_inode (t_file T) = inode (t_snapshot T);
  ok_file : f_kind (t_file T) = Regular ∧ f_owned (t_file T) = true ∧
            bytes_of (f_content (t_file T)) = raw (t_snapshot T);
  ok_size : (0 < t_max T)%Z ∧ oversized (raw (t_snapshot T)) (t_max T) = false ∧
            partial (raw (t_snapshot T)) = false;
  ok_fits : fits t_intent ∧ fits t_fence_value ∧ fits t_applied ∧
            ∀ a reason, reason ∈ _RESTORE_REASONS → fits (t_restored a reason);
}.

(** The directories and the process: canonical private roots with the expected
    identities, a process with a pid. *)
Definition roots_ok (m : Meta) : Prop :=
  let '(p, s, q) := m in
  (0 < p)%Z ∧ s = (Canonical, true, t_source T) ∧ q = (Canonical, true, t_quarantine T).

(** What is durable of the transaction. *)
Record Abs : Type := mkAbs {
  a_intent : bool; a_place : Root; a_fenced : bool; a_applied : bool; a_restored : option string;
  a_finalized : option (string * json);
}.

Definition other (r : Root) : Root := match r with Source => Quarantine | Quarantine => Source end.

Definition holds (r : Root) (n : string) (v : object) (d : Disk) : Prop :=
  ∃ f, look r n d = Some f ∧ private_file f = true ∧ f_content f = Document (JObj v).

(** [n] holds the record [v], or is not there. *)
Definition slot (b : bool) (r : Root) (n : string) (v : object) (d : Disk) : Prop :=
  if b then holds r n v d else look r n d = None.

Definition temp_prefix (r : Root) : string :=
  match r with Source => fence_temp_prefix | Quarantine => transaction_temp_prefix end.
Definition temp_pattern (r : Root) (n : string) : bool :=
  match r with Source => _FENCE_TEMP_PATTERN n | Quarantine => _TRANSACTION_TEMP_PATTERN n end.

(** Temporaries are well formed, no other transaction is there, the lock is private. *)
Definition tidy (r : Root) (n : string) (f : File) : Prop :=
  (starts_with (temp_prefix r) n = true → temp_pattern r n = true ∧ private_file f = true) ∧
  (r = Quarantine → is_record n = true → ∃ s, n = t_name s) ∧
  (n = QUARANTINE_LOCK → private_file f = true).

Record st (a : Abs) (d : Disk) : Prop := {
  st_intent : slot (a_intent a) Quarantine (t_name intent) t_intent d;
  st_applied : slot (a_applied a) Quarantine (t_name applied) t_applied d;
  st_finalized : slot (bool_decide (is_Some (a_finalized a))) Quarantine (t_name finalized)
                   (t_finalized (default ("", JNull) (a_finalized a))) d;
  st_blocked : look Quarantine (t_name blocked) d = None;
  st_restored : slot (bool_decide (is_Some (a_restored a))) Quarantine (t_name restored)
                  (t_restored (a_applied a) (default "" (a_restored a))) d;
  st_fence : slot (a_fenced a) Source t_fence t_fence_value d;
  st_here : look (a_place a) t_journal d = Some (t_file T);
  st_there : look (other (a_place a)) t_journal d = None;
  st_tidy r n f : look r n d = Some f → tidy r n f;
}.

(** The states the protocol can be killed in. *)
Definition unprepared : Abs := mkAbs false Source false false None None.
Definition lawful (a : Abs) : Prop :=
  (a_intent a = false → a = unprepared) ∧
  (a_place a = Quarantine → a_fenced a = true) ∧
  match a_restored a with
  | Some reason => a_place a = Source ∧ a_fenced a = false ∧ reason ∈ _RESTORE_REASONS
  | None => True
  end ∧
  match a_finalized a with
  | Some x => a_place a = Quarantine ∧ a_applied a = true ∧ a_restored a = None ∧
              _is_digest (JStr x.1) = true ∧ _valid_process_identity x.2 = true ∧
              fits (t_finalized x)
  | None => True
  end.

Definition recoverable (d : Disk) : Prop := ∃ a, lawful a ∧ st a d.

(** *** Names are apart *)

Context (H : transaction_ok).

(** A name that is none of the transaction's, as temporaries are. *)
Definition apart (r : Root) (n : string) : Prop :=
  scratch n ∧ (r = Source → n ≠ t_fence).

Lemma t_name_scratch s n : scratch n → n ≠ t_name s.
Proof. intros [_ Hn] ->. unfold t_name in Hn. by rewrite record_name_is_record in Hn. Qed.

Lemma t_journal_scratch n : scratch n → n ≠ t_journal.
Proof. intros [Hn _] ->. destruct (ok_journal H) as [Hj _]. congruence. Qed.

Lemma t_name_not_journal s : t_name s ≠ t_journal.
Proof.
  intros E. destruct (ok_journal H) as [Hj%journal_not_record _]. rewrite <-E in Hj.
  unfold t_name in Hj. by rewrite record_name_is_record in Hj.
Qed.

(** Only these entries of a disk matter to [st]. *)
Lemma st_frame a d d' :
  st a d →
  (∀ r n, (∃ s, n = t_name s) ∨ n = t_journal ∨ (r = Source ∧ n = t_fence) →
          look r n d' = look r n d) →
  (∀ r n f, look r n d' = Some f → tidy r n f) → st a d'.
Proof.
  intros [] Hd Ht.
  assert (∀ b r n v, (∃ s, n = t_name s) ∨ n = t_journal ∨ (r = Source ∧ n = t_fence) →
            slot b r n v d → slot b r n v d') as Hslot.
  { intros b r n v Hn. unfold slot, holds. rewrite (Hd r n Hn). by destruct b. }
  split; try done; rewrite ?Hd by eauto; eauto.
Qed.

Lemma st_insert a d r n f :
  st a d → apart r n → tidy r n f → st a (edit r (insert n f) d).
Proof.
  intros Hst [Hn Hf] Ht. apply (st_frame a d); [done|..].
  - intros r' n' Hkey. rewrite look_edit_insert. case_decide as E; [|done].
    destruct E as [<- <-], Hkey as [[s Hs]|[Hs|[Hr Hs]]].
    + by destruct (t_name_scratch s n Hn).
    + by destruct (t_journal_scratch n Hn).
    + by destruct (Hf Hr).
  - intros r' n' f'. rewrite look_edit_insert. case_decide as E.
    + destruct E as [<- <-]. by intros [= <-].
    + by apply (st_tidy _ _ Hst).
Qed.

Lemma st_delete a d r n : st a d → apart r n → st a (edit r (delete n) d).
Proof.
  intros Hst [Hn Hf]. apply (st_frame a d); [done|..].
  - intros r' n' Hkey. rewrite look_edit_delete. case_decide as E; [|done].
    destruct E as [<- <-], Hkey as [[s Hs]|[Hs|[Hr Hs]]].
    + by destruct (t_name_scratch s n Hn).
    + by destruct (t_journal_scratch n Hn).
    + by destruct (Hf Hr).
  - intros r' n' f'. rewrite look_edit_delete. case_decide; [done|]. by apply (st_tidy _ _ Hst).
Qed.

Lemma st_alter a d r n (g : File → File) :
  st a d → apart r n → (∀ f, tidy r n f → tidy r n (g f)) → st a (edit r (alter g n) d).
Proof.
  intros Hst [Hn Hf] Ht. apply (st_frame a d); [done|..].
  - intros r' n' Hkey. rewrite look_edit_alter. case_decide as E; [|done].
    destruct E as [<- <-], Hkey as [[s Hs]|[Hs|[Hr Hs]]].
    + by destruct (t_name_scratch s n Hn).
    + by destruct (t_journal_scratch n Hn).
    + by destruct (Hf Hr).
  - intros r' n' f'. rewrite look_edit_alter. case_decide as E; [|by apply (st_tidy _ _ Hst)].
    destruct E as [<- <-]. intros (f & Hl & ->)%fmap_Some. apply Ht. by apply (st_tidy _ _ Hst).
Qed.
End state.

Existing Class transaction_ok.

(** ** The operations on them *)

(** [secrets.token_hex(16)] is 32 hexadecimal digits. *)
Class TokenLaw (K : Kernel) : Prop := token_hex_ok n : is_hex_string 32 (token_hex n) = true.

Section operations.
Context {K : Kernel} {KL : TokenLaw K} {T : Transaction} {H : transaction_ok T}.
Notation D := (recoverable T).
Notation spec P m Q := (spec D (roots_ok T) P m Q).
Notation st := (st T).
Notation lawful := (lawful T).

Definition root_id (r : Root) : Z * Z :=
  match r with Source => t_source T | Quarantine => t_quarantine T end.

Lemma root_facts w r : roots_ok T (meta w) →
  d_path (dir r w) = Canonical ∧ d_private (dir r w) = true ∧ identity_of (dir r w) = root_id r.
Proof. intros (_ & [=] & [=]). by destruct r. Qed.

Lemma root_device w r : roots_ok T (meta w) → d_device (dir r w) = device (t_snapshot T).
Proof.
  intros Hw. destruct (root_facts w r Hw) as (_ & _ & Hi).
  destruct (ok_device T H) as (_ & Hs & Hq).
  change (d_device (dir r w)) with (identity_of (dir r w)).1. rewrite Hi. by destruct r.
Qed.

Lemma spec_token P : spec P draw_token (λ k d, is_hex_string 32 k = true ∧ P d).
Proof. intros w _ _ HP. split; [by split|]. split; [apply token_hex_ok|done]. Qed.

Lemma spec_open_root P r :
  (∀ d, P d → D d) → spec P (_open_journal_root r (Some (root_id r))) (λ _, P).
Proof.
  intros HD. apply spec_get. intros w Hw. destruct (root_facts w r Hw) as (Hp & Hpr & Hi).
  cbv zeta. rewrite Hp, Hpr, Hi.
  change (sys_read (λ _, if decide (Canonical = Missing) then Raise FileNotFoundError else Ok ()))
    with sys_nop.
  assert (spec P sys_nop (λ _, P)) as Hnop by (by apply spec_nop).
  eapply spec_bind with (R := λ _, P); [apply spec_guard; intros ? ?; split; [reflexivity|assumption]|intros _].
  eapply spec_bind with (R := λ _, P); [by apply spec_os_error|intros _].
  eapply spec_bind with (R := λ _, P); [apply spec_guard; intros ? ?; split; [reflexivity|assumption]|intros _].
  eapply spec_bind with (R := λ _, P); [by apply spec_os_error|intros _].
  eapply spec_bind with (R := λ _, P); [by apply spec_os_error|intros _].
  eapply spec_bind with (R := λ _, P); [apply spec_guard; intros ? ?; split; [reflexivity|assumption]|intros _].
  apply spec_guard. intros. split; [|done]. by rewrite bool_decide_true.
Qed.

Lemma spec_record_Some P r n v b :
  (∀ d, P d → D d) → fits v → (∀ d, P d → holds r n v d) →
  spec P (_read_record_from_directory r n b) (λ o d, o = Some (record n v) ∧ P d).
Proof.
  intros HD Hfit Hv. unfold _read_record_from_directory.
  set (Φ f := private_file f = true ∧ f_content f = Document (JObj v)).
  eapply spec_bind with (R := λ x d, ∃ f, x = Ok f ∧ P d ∧ Φ f).
  - apply spec_try. eapply spec_weaken; [apply (spec_open _ _ _ _ _ Φ HD)|naive_solver].
    intros d HP. destruct (Hv d HP) as (f & Hf & Hp & Hc). exists f. split_and!; try done.
    unfold private_file in Hp. by bool_inv.
  - intros [f|e]; [|by intros w ? ? (? & ? & ?)].
    apply spec_fact with (Φ f); [naive_solver|]. intros [Hp Hc].
    eapply spec_bind with (R := λ g d, g = f ∧ P d).
    { eapply spec_conseq; [by apply (spec_fstat _ _ P)|naive_solver..]. }
    intros g. apply spec_fact with (g = f); [naive_solver|]. intros ->.
    eapply spec_bind with (R := λ _, P);
      [apply spec_guard; rewrite Hp; naive_solver|intros _].
    eapply spec_bind with (R := λ s d, s = document_bytes (JObj v) ∧ P d).
    { eapply spec_weaken; [by apply spec_os_read|]. simpl. by rewrite Hc. }
    intros s. apply spec_fact with (s = document_bytes (JObj v)); [naive_solver|]. intros ->.
    eapply spec_bind with (R := λ _, P);
      [apply spec_guard; rewrite Hfit; naive_solver|intros _].
    rewrite Hc. by apply spec_ret.
Qed.

Lemma spec_record_None P r n :
  (∀ d, P d → D d) → (∀ d, P d → look r n d = None) →
  spec P (_read_record_from_directory r n false) (λ o d, o = None ∧ P d).
Proof.
  intros HD Hn. unfold _read_record_from_directory.
  eapply spec_bind with (R := λ x d, x = Raise FileNotFoundError ∧ P d).
  - apply spec_try_read; [done|]. intros w _ HP.
    by rewrite entry_look, (Hn _ HP).
  - intros x. apply spec_fact with (x = Raise FileNotFoundError); [naive_solver|]. intros ->.
    apply spec_ret. naive_solver.
Qed.

Lemma spec_read_required P r n v :
  (∀ d, P d → D d) → fits v → (∀ d, P d → holds r n v d) →
  spec P (read_required r n) (λ x d, x = record n v ∧ P d).
Proof.
  intros HD Hfit Hv. eapply spec_bind; [by apply spec_record_Some|]. intros o.
  apply spec_fact with (o = Some (record n v)); [naive_solver|]. intros ->.
  apply spec_ret. naive_solver.
Qed.

Lemma st_recoverable a d : lawful a → st a d → D d.
Proof. intros. by exists a. Qed.

Lemma tidy_temp r n f :
  temp_pattern r n = true → private_file f = true → tidy T r n f.
Proof.
  intros Hn Hf. split; [done|]. split; [|done]. intros -> Hr. exfalso.
  destruct (pattern_scratch n) as [_ ?]; [by left|]. congruence.
Qed.

(** No temporaries but, in [temp_at], the one in [n]. *)
Definition settled (a : Abs) (d : Disk) : Prop :=
  st a d ∧ ∀ r n f, look r n d = Some f → starts_with (temp_prefix r) n = false.

Definition temp_at (a : Abs) (r : Root) (n : string) (f : File) (d : Disk) : Prop :=
  st a d ∧ look r n d = Some f ∧ private_file f = true ∧
  ∀ r' n' f', look r' n' d = Some f' → (r', n') ≠ (r, n) → starts_with (temp_prefix r') n' = false.

Lemma settled_st a d : settled a d → st a d.
Proof. by intros []. Qed.

Lemma settled_recoverable a d : lawful a → settled a d → D d.
Proof. intros Ha []. by exists a. Qed.

Lemma temp_apart r n : temp_pattern r n = true → apart T r n.
Proof.
  intros Hn. split.
  - apply pattern_scratch. destruct r; auto.
  - intros -> ->. apply andb_true_iff in Hn as [Hn _]. revert Hn.
    unfold t_fence, _quarantine_fence_name. by intros [t Ht]%starts_with_spec.
Qed.

Lemma temp_pattern_prefix r n : temp_pattern r n = true → starts_with (temp_prefix r) n = true.
Proof. intros Hn. destruct r; by apply andb_true_iff in Hn as [? _]. Qed.

(** Publishing the record [v] under [n] takes the files from [a] to [a']. *)
Record publishes (a a' : Abs) (r : Root) (n : string) (v : object) : Prop := {
  pb_before : lawful a;
  pb_after : lawful a';
  pb_fits : fits v;
  pb_name : starts_with (temp_prefix r) n = false;
  pb_none d : st a d → look r n d = None;
  pb_add d f : st a d → private_file f = true → f_content f = Document (JObj v) →
    st a' (edit r (insert n f) d);
  pb_held d : st a' d → holds r n v d;
}.

Section publish.
Context {a a' : Abs} {r : Root} {n : string} {v : object} (Hpub : publishes a a' r n v).
Context (temporary : string) (Htemp : temp_pattern r temporary = true).

Let Ha : lawful a := pb_before _ _ _ _ _ Hpub.
Let Hapart : apart T r temporary := temp_apart r temporary Htemp.
Let Hprefix : starts_with (temp_prefix r) temporary = true := temp_pattern_prefix r temporary Htemp.

Lemma temp_recoverable f d : temp_at a r temporary f d → D d.
Proof. intros []. by exists a. Qed.

Lemma spec_temp_create :
  spec (settled a) (os_create r temporary) (λ _ d, ∃ f, temp_at a r temporary f d).
Proof.
  apply spec_create; [intros d Hd; by apply (settled_recoverable a)|]. intros d f [Hst Hno] Hf.
  split.
  - destruct (look r temporary d) eqn:E; [|done]. apply Hno in E. congruence.
  - exists f. apply fresh_private in Hf. split_and!.
    + apply st_insert; [done..|]. by apply tidy_temp.
    + rewrite look_edit_insert. by rewrite decide_True.
    + done.
    + intros r' n' f'. rewrite look_edit_insert. case_decide as E; [|eauto].
      destruct E as [-> ->]. done.
Qed.

Lemma spec_temp_write e :
  spec (λ d, ∃ f, temp_at a r temporary f d)
    (_ ← write_document r temporary (JObj v) e; os_fsync r)
    (λ _ d, ∃ f, temp_at a r temporary f d ∧ f_content f = Document (JObj v)).
Proof.
  eapply spec_bind with
    (R := λ _ d, ∃ f, temp_at a r temporary f d ∧ f_content f = Document (JObj v)).
  - apply (spec_write_document _ _ (temp_at a r temporary)); [apply temp_recoverable|by intros ?? (_&?&_)|].
    intros f d c (Hst & Hl & Hp & Hno). split_and!.
    + apply st_alter; [done..|]. intros g Hg. exact Hg.
    + rewrite look_edit_alter, decide_True by done. by rewrite Hl.
    + done.
    + intros r' n' f'. rewrite look_edit_alter. case_decide as E; [|eauto].
      destruct E as [-> ->]. done.
  - intros _. apply spec_fsync. intros d (f & Hf & _). by eapply temp_recoverable.
Qed.

Lemma spec_temp_publish :
  spec (λ d, ∃ f, temp_at a r temporary f d ∧ f_content f = Document (JObj v))
    (_rename_noreplace r temporary r n) (λ _, settled a').
Proof.
  apply spec_pre_exists. intros f. apply spec_rename with (f := f).
  - intros d [Hd _]. by eapply temp_recoverable.
  - done.
  - intros d [(Hst & Hl & Hp & Hno) Hc].
    assert (temporary ≠ n) as Hne
      by (intros ->; pose proof (pb_name _ _ _ _ _ Hpub); congruence).
    split_and!; [done|by eapply pb_none|].
    pose proof (st_delete _ H _ _ _ _ Hst Hapart) as Hdel. split; [by eapply pb_add|].
    intros r' n' f'. rewrite look_edit_insert. case_decide as E.
    + destruct E as [<- <-]. intros _. exact (pb_name _ _ _ _ _ Hpub).
    + rewrite look_edit_delete. case_decide as E'; [done|]. intros Hl'.
      eapply Hno; [exact Hl'|]. intros [= -> ->]. by apply E'.
Qed.
Lemma spec_published e :
  spec (settled a')
    (_ ← os_fsync r;
     d ← read_required r n;
     _ ← conflicting d (document_bytes (JObj v)) e;
     mret d) (λ d' d, d' = record n v ∧ settled a' d).
Proof.
  assert (∀ d, settled a' d → D d) as HD
    by (intros d; by apply settled_recoverable, (pb_after _ _ _ _ _ Hpub)).
  eapply spec_bind with (R := λ _, settled a').
  { eapply spec_conseq; [by apply (spec_fsync _ _ (settled a'))|naive_solver..]. }
  intros _. eapply spec_bind.
  { apply spec_read_required; [done|exact (pb_fits _ _ _ _ _ Hpub)|].
    intros d []. by eapply pb_held. }
  intros d'. apply spec_fact with (d' = record n v); [naive_solver|]. intros ->.
  eapply spec_bind with (R := λ _, settled a'); [|by intros _; apply spec_ret].
  apply spec_guard. intros d [_ Hd]. split; [|done]. by rewrite bool_decide_true.
Qed.

(** The rename's outcome, which is success, decides how the code goes on. *)
Lemma spec_temp_try_publish :
  spec (λ d, ∃ f, temp_at a r temporary f d ∧ f_content f = Document (JObj v))
    (try_op (_rename_noreplace r temporary r n)) (λ x d, x = Ok () ∧ settled a' d).
Proof. apply spec_try. eapply spec_weaken; [apply spec_temp_publish|by intros []]. Qed.
End publish.

(** A guard that does not fire. *)
Lemma spec_pass (P : Disk → Prop) b e : b = false → spec P (guard_raise b e) (λ _, P).
Proof. intros ->. by apply spec_guard. Qed.

Lemma pid_ok w : roots_ok T (meta w) → is_pid (pretty (pid w)) = true.
Proof. intros (Hp & _). by apply pretty_pid. Qed.

Lemma spec_write_record a a' s v :
  publishes a a' Quarantine (t_name T s) v →
  spec (settled a) (_write_record Quarantine (t_quarantine T) (t_id T) s v)
    (λ d' d, d' = record (t_name T s) v ∧ settled a' d).
Proof.
  intros Hpub. pose proof Hpub as []. unfold _write_record.
  rewrite record_name_Ok by apply (ok_hex _ H).
  assert (∀ d, settled a d → D d) as HD by (intros d; by apply settled_recoverable).
  eapply spec_value with (a := t_name T s) (R := settled a);
    [by eapply spec_lift; [done|intros]|]. cbv zeta.
  eapply spec_then; [by apply spec_pass|].
  eapply spec_then; [by apply (spec_open_root _ Quarantine)|].
  apply spec_get. intros w Hw.
  eapply spec_step; [apply spec_token|]. intros k Hk. cbv beta.
  pose proof (transaction_temp_ok _ s _ k (ok_hex _ H) (pid_ok w Hw) Hk) as Htemp.
  set (temporary := transaction_temp_prefix +:+ _) in *.
  eapply spec_value; [by apply spec_record_None; [|intros d [Hd _]; auto]|].
  eapply spec_then; [by apply spec_os_error, (spec_temp_create Hpub)|].
  eapply spec_then; [by apply spec_catch_all, spec_os_error, (spec_temp_write Hpub)|].
  eapply spec_value; [by apply (spec_temp_try_publish Hpub)|].
  by apply (spec_published Hpub).
Qed.
Lemma spec_install_fence a a' :
  publishes a a' Source (t_fence T) (t_fence_value T) →
  spec (settled a)
    (install_quarantine_source_fence Source (t_source T) (t_id T) (t_intent_digest T) (t_snapshot T))
    (λ d' d, d' = record (t_fence T) (t_fence_value T) ∧ settled a' d).
Proof.
  intros Hpub. pose proof Hpub as []. unfold install_quarantine_source_fence.
  assert (∀ d, settled a d → D d) as HD by (intros d; by apply settled_recoverable).
  cbv zeta.
  eapply spec_then; [by apply (spec_open_root _ Source)|].
  apply spec_get. intros w Hw.
  eapply spec_step; [apply spec_token|]. intros k Hk. cbv beta. apply spec_os_error.
  pose proof (fence_temp_ok _ _ k (ok_hex _ H) (pid_ok w Hw) Hk) as Htemp.
  set (temporary := fence_temp_prefix +:+ _) in *.
  eapply spec_value; [by apply spec_record_None; [|intros d [Hd _]; auto]|].
  eapply spec_then; [by apply (spec_temp_create Hpub)|].
  eapply spec_then; [by apply spec_catch_all, (spec_temp_write Hpub)|].
  eapply spec_value; [by apply (spec_temp_try_publish Hpub)|].
  by apply (spec_published Hpub).
Qed.

(** *** The records that are published *)

Lemma t_name_ne s s' : s ≠ s' → t_name T s ≠ t_name T s'.
Proof. intros Hs E. apply Hs. eapply record_name_inj; [apply (ok_hex _ H)|exact E]. Qed.

Lemma t_fence_not_journal : t_fence T ≠ t_journal T.
Proof.
  intros E. destruct (ok_journal _ H) as [Hj _]. rewrite <-E in Hj.
  unfold t_fence in Hj. by rewrite fence_not_journal in Hj.
Qed.

Lemma tidy_kept r n f :
  starts_with (temp_prefix r) n = false → private_file f = true →
  (r = Quarantine → is_record n = true → ∃ s, n = t_name T s) → tidy T r n f.
Proof. intros Hn Hf Hr. split; [congruence|done]. Qed.

Lemma slot_frame b r n v d d' : look r n d' = look r n d → slot b r n v d → slot b r n v d'.
Proof. intros Hn. unfold slot, holds. rewrite Hn. by destruct b. Qed.

(** Only the entry [n] of [r] may differ. *)
Definition only (r : Root) (n : string) (d d' : Disk) : Prop :=
  ∀ r' n', ¬ (r' = r ∧ n' = n) → look r' n' d' = look r' n' d.

Lemma only_insert r n f d : only r n d (edit r (insert n f) d).
Proof. intros r' n' Hn. rewrite look_edit_insert, decide_False; [done|]. naive_solver. Qed.

Lemma only_delete r n d : only r n d (edit r (delete n) d).
Proof. intros r' n' Hn. rewrite look_edit_delete, decide_False; [done|]. naive_solver. Qed.

Lemma only_record s d d' :
  only Quarantine (t_name T s) d d' →
  (∀ s', s' ≠ s → look Quarantine (t_name T s') d' = look Quarantine (t_name T s') d) ∧
  (∀ r, look r (t_journal T) d' = look r (t_journal T) d) ∧
  look Source (t_fence T) d' = look Source (t_fence T) d.
Proof.
  intros Ho. split_and!.
  - intros s' Hne. apply Ho. intros [_ E]. exact (t_name_ne s' s Hne E).
  - intros r. apply Ho. intros [_ E]. exact (t_name_not_journal T H s (eq_sym E)).
  - apply Ho. by intros [? _].
Qed.

Lemma only_fence d d' :
  only Source (t_fence T) d d' →
  (∀ s, look Quarantine (t_name T s) d' = look Quarantine (t_name T s) d) ∧
  (∀ r, look r (t_journal T) d' = look r (t_journal T) d).
Proof.
  intros Ho. split.
  - intros s. apply Ho. by intros [? _].
  - intros r. apply Ho. intros [_ E]. exact (t_fence_not_journal (eq_sym E)).
Qed.

Lemma holds_insert r n v f d :
  private_file f = true → f_content f = Document (JObj v) → holds r n v (edit r (insert n f) d).
Proof. intros Hf Hv. exists f. rewrite look_edit_insert. by rewrite decide_True. Qed.

Lemma tidy_insert a r n f d r' n' f' :
  st a d → tidy T r n f → look r' n' (edit r (insert n f) d) = Some f' → tidy T r' n' f'.
Proof.
  intros Hst Ht. rewrite look_edit_insert. case_decide as E; [|by apply (st_tidy _ _ _ Hst)].
  destruct E as [<- <-]. by intros [= <-].
Qed.

Lemma tidy_delete a r n d r' n' f' :
  st a d → look r' n' (edit r (delete n) d) = Some f' → tidy T r' n' f'.
Proof.
  intros Hst. rewrite look_edit_delete. case_decide; [done|]. by apply (st_tidy _ _ _ Hst).
Qed.

Lemma tidy_record s f : private_file f = true → tidy T Quarantine (t_name T s) f.
Proof. intros Hf. apply tidy_kept; [done..|eauto]. Qed.

Lemma tidy_fence f : private_file f = true → tidy T Source (t_fence T) f.
Proof. intros Hf. by apply tidy_kept. Qed.

Lemma fits_intent : fits (t_intent T).
Proof. by destruct (ok_fits _ H) as (? & _). Qed.
Lemma fits_fence : fits (t_fence_value T).
Proof. by destruct (ok_fits _ H) as (_ & ? & _). Qed.
Lemma fits_applied : fits (t_applied T).
Proof. by destruct (ok_fits _ H) as (_ & _ & ? & _). Qed.
Lemma fits_restored b reason : reason ∈ _RESTORE_REASONS → fits (t_restored T b reason).
Proof. destruct (ok_fits _ H) as (_ & _ & _ & Hr). apply Hr. Qed.

Definition with_applied (a : Abs) : Abs := mkAbs (a_intent a) (a_place a) (a_fenced a) true (a_restored a) (a_finalized a).
Definition with_restored (reason : string) (a : Abs) : Abs :=
  mkAbs (a_intent a) (a_place a) (a_fenced a) (a_applied a) (Some reason) (a_finalized a).
Definition with_fence (b : bool) (a : Abs) : Abs :=
  mkAbs (a_intent a) (a_place a) b (a_applied a) (a_restored a) (a_finalized a).
Definition moved_to (r : Root) (a : Abs) : Abs :=
  mkAbs (a_intent a) r (a_fenced a) (a_applied a) (a_restored a) (a_finalized a).

Lemma finalized_elsewhere a : lawful a → a_place a = Source → a_finalized a = None.
Proof.
  intros (_ & _ & _ & Ha) Hpl. destruct (a_finalized a); [|done]. rewrite Hpl in Ha. naive_solver.
Qed.

Lemma unrestored o b (d : Disk) :
  o = None →
  slot (bool_decide (is_Some o)) Quarantine (t_name T restored) (t_restored T b (default "" o)) d ↔
  look Quarantine (t_name T restored) d = None.
Proof. by intros ->. Qed.

Lemma publish_applied a :
  lawful a → a_intent a = true → a_applied a = false → a_restored a = None →
  publishes a (with_applied a) Quarantine (t_name T applied) (t_applied T).
Proof.
  intros Ha Hint Happ Hres. split; try done.
  - destruct Ha as (_ & Hpl & _ & Hfin). split; [by cbn [with_applied a_intent]; rewrite Hint|].
    split; [exact Hpl|]. cbn [with_applied a_restored a_finalized a_applied]. rewrite Hres.
    split; [done|]. destruct (a_finalized a); [|done]. naive_solver congruence.
  - exact fits_applied.
  - intros d Hst. pose proof (st_applied _ _ _ Hst) as Hs. by rewrite Happ in Hs.
  - intros d f Hst Hf Hv.
    destruct (only_record applied d _ (only_insert _ _ f d)) as (Hrec & Hj & Hfe).
    destruct Hst as [Hi Ha0 Hfin Hb Hr Hfence Hh Ht Htidy] eqn:E. clear E. split.
    + by eapply slot_frame; [apply Hrec|].
    + by apply holds_insert.
    + by eapply slot_frame; [apply Hrec|].
    + by rewrite Hrec.
    + apply unrestored; [done|]. rewrite Hrec by done. by apply unrestored in Hr.
    + by eapply slot_frame; [exact Hfe|].
    + by rewrite Hj.
    + by rewrite Hj.
    + intros r n g. apply (tidy_insert a); [by split|by apply tidy_record].
  - intros d Hst. exact (st_applied _ _ _ Hst).
Qed.

Lemma publish_restored a reason :
  lawful a → a_intent a = true → a_place a = Source → a_fenced a = false → a_restored a = None →
  reason ∈ _RESTORE_REASONS →
  publishes a (with_restored reason a) Quarantine (t_name T restored)
    (t_restored T (a_applied a) reason).
Proof.
  intros Ha Hint Hpl Hf Hres Hreason. split; try done.
  - pose proof (finalized_elsewhere a Ha Hpl) as Hfin. destruct Ha as (_ & Ha & _).
    split; [by cbn [with_restored a_intent]; rewrite Hint|]. split; [exact Ha|].
    split; [done|]. cbn [with_restored a_finalized]. by rewrite Hfin.
  - by apply fits_restored.
  - intros d Hst. pose proof (st_restored _ _ _ Hst) as Hs. by rewrite Hres in Hs.
  - intros d f Hst Hp Hv.
    destruct (only_record restored d _ (only_insert _ _ f d)) as (Hrec & Hj & Hfe).
    destruct Hst as [Hi Ha0 Hfin Hb Hr Hfence Hh Ht Htidy] eqn:E. clear E. split.
    + by eapply slot_frame; [apply Hrec|].
    + by eapply slot_frame; [apply Hrec|].
    + by eapply slot_frame; [apply Hrec|].
    + by rewrite Hrec.
    + by apply holds_insert.
    + by eapply slot_frame; [exact Hfe|].
    + by rewrite Hj.
    + by rewrite Hj.
    + intros r n g. apply (tidy_insert a); [by split|by apply tidy_record].
  - intros d Hst. exact (st_restored _ _ _ Hst).
Qed.

Lemma publish_fence a :
  lawful a → a_intent a = true → a_fenced a = false → a_restored a = None →
  publishes a (with_fence true a) Source (t_fence T) (t_fence_value T).
Proof.
  intros Ha Hint Hf Hres. split; try done.
  - destruct Ha as (_ & _ & _ & Ha).
    split; [by cbn [with_fence a_intent]; rewrite Hint|]. split; [done|].
    split; [by cbn [with_fence a_restored]; rewrite Hres|exact Ha].
  - exact fits_fence.
  - intros d Hst. pose proof (st_fence _ _ _ Hst) as Hs. by rewrite Hf in Hs.
  - intros d f Hst Hp Hv. destruct (only_fence d _ (only_insert _ _ f d)) as (Hrec & Hj).
    destruct Hst as [Hi Ha0 Hfin Hb Hr Hfence Hh Ht Htidy] eqn:E. clear E. split.
    + by eapply slot_frame; [apply Hrec|].
    + by eapply slot_frame; [apply Hrec|].
    + by eapply slot_frame; [apply Hrec|].
    + by rewrite Hrec.
    + by eapply slot_frame; [apply Hrec|].
    + by apply holds_insert.
    + by rewrite Hj.
    + by rewrite Hj.
    + intros r n g. apply (tidy_insert a); [by split|by apply tidy_fence].
  - intros d Hst. exact (st_fence _ _ _ Hst).
Qed.
End operations.

Arguments root_id : clear implicits.
Arguments settled : clear implicits.
Arguments temp_at : clear implicits.
Arguments publishes : clear implicits.
