(* ===== verification/QuarantineSteps.v ===== *)
(** * The steps of a quarantine transaction

    What reading and moving the journal, installing and removing its fence, taking the
    lease and cleaning up temporaries do to the states of [QuarantineStates]. *)

From S2P Require Import Prelude PyStd HostEventSink QuarantineTransaction QuarantineInvariants QuarantineRecords QuarantineSpec QuarantineStates.
From S2P Require EcpaModel.

Local Open Scope string_scope.
Local Open Scope list_scope.

#[local] Opaque sha256_hexdigest.

Section operations.
Context {K : Kernel} {KL : TokenLaw K} {T : Transaction} {H : transaction_ok T}.
Notation D := (recoverable T).
Notation spec P m Q := (spec D (roots_ok T) P m Q).
Notation st := (st T).
Notation lawful := (lawful T).
Notation root_id := (root_id T).
Notation settled := (settled T).
Notation temp_at := (temp_at T).
Notation publishes := (publishes T).
(** *** Reading the journal *)

Lemma other_ne r : r ≠ other r.
Proof. by destruct r. Qed.

Lemma spec_open_file P r n f :
  (∀ d, P d → D d) → f_kind f = Regular → (∀ d, P d → look r n d = Some f) →
  spec P (os_open r n) (λ g d, g = f ∧ P d).
Proof.
  intros HD Hk Hn. eapply spec_weaken; [apply (spec_open _ _ _ _ _ (λ g, g = f) HD)|naive_solver].
  eauto.
Qed.

Lemma good_request : bad_request (t_journal T) (t_max T) = false.
Proof.
  destruct (ok_journal _ H) as (Hj & Hp & _). destruct (ok_size _ H) as (Hm & _).
  unfold bad_request. unfold is_journal in Hj. rewrite Hj, Hp. by apply Z.leb_gt.
Qed.

Lemma good_file :
  negb (bool_decide (f_kind (t_file T) = Regular)) || negb (f_owned (t_file T)) = false.
Proof. destruct (ok_file _ H) as (Hk & Ho & _). by rewrite Hk, Ho. Qed.

Lemma same_file_refl d f : same_file d f f = true.
Proof. unfold same_file. by rewrite Z.eqb_refl, Nat.eqb_refl. Qed.

Lemma file_bytes : bytes_of (f_content (t_file T)) = raw (t_snapshot T).
Proof. apply (ok_file _ H). Qed.

Lemma receipt_is_snapshot w r :
  roots_ok T (meta w) →
  mkJournal (t_journal T) (raw (t_snapshot T)) (d_device (dir r w)) (f_inode (t_file T)) =
  t_snapshot T.
Proof.
  intros Hw. rewrite (root_device w r Hw). destruct (ok_inode _ H) as [_ Hi]. rewrite Hi.
  unfold t_journal. by destruct (t_snapshot T).
Qed.

Lemma spec_snapshot_within a r max_bytes :
  lawful a → a_place a = r →
  bad_request (t_journal T) max_bytes = false →
  oversized (raw (t_snapshot T)) max_bytes = false →
  spec (settled a) (snapshot_journal r (t_journal T) (root_id r) max_bytes)
    (λ q d, q = t_snapshot T ∧ settled a d).
Proof.
  intros Ha Hpl Hreq Ho. unfold snapshot_journal.
  assert (∀ d, settled a d → D d) as HD by (intros d; by apply settled_recoverable).
  assert (∀ d, settled a d → look r (t_journal T) d = Some (t_file T)) as Hf
    by (intros d [[] _]; by subst).
  destruct (ok_file _ H) as (Hk & _ & _). destruct (ok_size _ H) as (_ & _ & Hp).
  eapply spec_then; [by apply spec_pass|].
  eapply spec_then; [by apply spec_open_root|].
  eapply spec_value; [by apply spec_os_error, spec_open_file|].
  eapply spec_value; [by apply spec_fstat|].
  eapply spec_then; [apply spec_pass, good_file|].
  eapply spec_value; [by apply spec_os_read|]. rewrite file_bytes.
  eapply spec_then; [by apply spec_pass|].
  eapply spec_then; [by apply spec_pass|].
  eapply spec_value; [by apply spec_os_error, spec_stat|].
  apply spec_get. intros w Hw. cbv zeta.
  eapply spec_then; [apply spec_pass; by rewrite same_file_refl|].
  apply spec_ret. intros d Hd. by rewrite receipt_is_snapshot.
Qed.

Lemma spec_snapshot a r :
  lawful a → a_place a = r →
  spec (settled a) (snapshot_journal r (t_journal T) (root_id r) (t_max T))
    (λ q d, q = t_snapshot T ∧ settled a d).
Proof.
  intros Ha Hpl. apply spec_snapshot_within; [done..|apply good_request|apply (ok_size _ H)].
Qed.

Lemma move_journal a r d :
  a_place a = r → settled a d →
  settled (moved_to (other r) a)
    (edit (other r) (insert (t_journal T) (t_file T)) (edit r (delete (t_journal T)) d)).
Proof.
  intros Hpl [Hst Hno]. set (d' := edit _ _ _).
  assert (∀ r' n', n' ≠ t_journal T → look r' n' d' = look r' n' d) as Hother.
  { intros r' n' Hn. unfold d'. rewrite (only_insert _ _ _ _ r' n') by naive_solver.
    by apply only_delete; naive_solver. }
  pose proof (t_name_not_journal T H) as Hj. pose proof t_fence_not_journal as Hf.
  assert (∀ r' n' f', look r' n' d' = Some f' → n' = t_journal T ∨ look r' n' d = Some f') as Hback.
  { intros r' n' f' Hl. destruct (decide (n' = t_journal T)); [by left|right].
    by rewrite <-Hother. }
  assert (hidden (t_journal T) = false) as Hhid by apply (ok_journal _ H).
  split.
  - destruct Hst as [Hi Ha0 Hfin Hb Hr Hfence Hh Ht Htidy]. split.
    + by eapply slot_frame; [apply Hother|].
    + by eapply slot_frame; [apply Hother|].
    + by eapply slot_frame; [apply Hother|].
    + by rewrite Hother.
    + by eapply slot_frame; [apply Hother|].
    + by eapply slot_frame; [apply Hother|].
    + cbn [moved_to a_place]. unfold d'. rewrite look_edit_insert. by rewrite decide_True.
    + cbn [moved_to a_place]. unfold d'.
      rewrite only_insert by (intros [E _]; by destruct r).
      rewrite look_edit_delete. rewrite decide_True; [done|]. by destruct r.
    + intros r' n' f' Hl. destruct (Hback _ _ _ Hl) as [->|]; [|by eapply Htidy].
      split_and!.
      * intros Hpre. exfalso. apply starts_with_spec in Hpre as [t Hpre]. rewrite Hpre in Hhid.
        by destruct r'.
      * intros _ Hrec. destruct (ok_journal _ H) as (Hjn & _).
        apply journal_not_record in Hjn. congruence.
      * intros E. destruct (ok_journal _ H) as (Hjn & _). by rewrite E in Hjn.
  - intros r' n' f' Hl. destruct (Hback _ _ _ Hl) as [->|]; [|by eapply Hno].
    destruct (starts_with (temp_prefix r') (t_journal T)) eqn:Hpre; [|done].
    apply starts_with_spec in Hpre as [t Hpre]. rewrite Hpre in Hhid. by destruct r'.
Qed.
(** *** Moving the journal *)

Lemma spec_absent P r n :
  (∀ d, P d → D d) → (∀ d, P d → look r n d = None) →
  spec P (try_op (os_stat r n)) (λ x d, x = Raise FileNotFoundError ∧ P d).
Proof.
  intros HD Hn. eapply spec_weaken; [by apply spec_try_stat|]. intros [f|e] d [HP Hx].
  - rewrite (Hn d HP) in Hx. done.
  - destruct Hx as [-> _]. by split.
Qed.

Lemma spec_check_moved a r :
  lawful a → a_place a = other r →
  spec (settled a) (check_moved r (other r) (t_journal T) (raw (t_snapshot T)) (t_file T))
    (λ _, settled a).
Proof.
  intros Ha Hpl. unfold check_moved.
  assert (∀ d, settled a d → D d) as HD by (intros d; by apply settled_recoverable).
  assert (∀ d, settled a d → look (other r) (t_journal T) d = Some (t_file T)) as Hf
    by (intros d [[] _]; by rewrite <-Hpl).
  destruct (ok_file _ H) as (Hk & _ & _).
  eapply spec_then; [by apply spec_fsync|].
  eapply spec_then; [by apply spec_fsync|].
  eapply spec_value; [by apply spec_stat|].
  eapply spec_then; [apply spec_pass; by rewrite Z.eqb_refl|].
  eapply spec_value; [by apply spec_os_error, spec_open_file|].
  eapply spec_value; [by apply spec_fstat|].
  eapply spec_then; [apply spec_pass; by rewrite Z.eqb_refl|].
  eapply spec_value; [by apply spec_os_read|]. rewrite file_bytes.
  eapply spec_then; [apply spec_pass; by rewrite bool_decide_true|].
  eapply spec_value; [apply spec_absent; [done|]|by apply spec_ret].
  intros d [[] _]. rewrite Hpl in *. by destruct r.
Qed.

Lemma spec_quarantine_journal a r :
  lawful a → lawful (moved_to (other r) a) → a_place a = r →
  spec (settled a)
    (quarantine_journal r (other r) (t_journal T) (root_id r) (root_id (other r)) (t_max T)
       (Some (t_snapshot T)))
    (λ q d, q = t_snapshot T ∧ settled (moved_to (other r) a) d).
Proof.
  intros Ha Ha' Hpl. unfold quarantine_journal.
  assert (∀ d, settled a d → D d) as HD by (intros d; by apply settled_recoverable).
  assert (∀ d, settled a d → look r (t_journal T) d = Some (t_file T)) as Hf
    by (intros d [[] _]; by rewrite <-Hpl).
  assert (∀ d, settled a d → look (other r) (t_journal T) d = None) as Hf'
    by (intros d [[] _]; by rewrite <-Hpl).
  destruct (ok_file _ H) as (Hk & _ & _). destruct (ok_size _ H) as (_ & Ho & Hp).
  eapply spec_then; [apply spec_pass, good_request|].
  eapply spec_then; [by apply spec_open_root|].
  eapply spec_then; [by apply spec_open_root|].
  eapply spec_then; [by apply spec_nop|].
  eapply spec_then; [by apply spec_nop|].
  eapply spec_then; [apply spec_pass; by destruct r|].
  apply spec_get. intros w Hw. cbv zeta.
  eapply spec_then; [apply spec_pass; by rewrite !(root_device w), Z.eqb_refl|].
  eapply spec_value; [by apply spec_absent|].
  eapply spec_then; [by apply spec_ret; intros|].
  eapply spec_value; [by apply spec_os_error, spec_open_file|].
  eapply spec_value; [by apply spec_fstat|].
  eapply spec_then; [apply spec_pass, good_file|].
  eapply spec_value; [by apply spec_os_read|]. rewrite file_bytes.
  eapply spec_then; [by apply spec_pass|].
  eapply spec_then; [by apply spec_pass|].
  eapply spec_then.
  { apply spec_pass. unfold unexpected. rewrite receipt_is_snapshot by done.
    by rewrite bool_decide_true. }
  eapply spec_value; [by apply spec_os_error, spec_stat|].
  eapply spec_then; [apply spec_pass; by rewrite same_file_refl|].
  eapply spec_then.
  { apply spec_os_error, spec_rename with (f := t_file T); [done|..].
    - intros v Hv. by rewrite !(root_device v).
    - intros d Hd. split_and!; [by apply Hf|by apply Hf'|].
      by apply (move_journal a r d). }
  eapply spec_then; [by apply spec_catch_all, spec_os_error, spec_check_moved|].
  apply spec_ret. intros d Hd. by rewrite receipt_is_snapshot.
Qed.

Lemma spec_restore a :
  lawful a → lawful (moved_to Source a) → a_place a = Quarantine →
  spec (settled a)
    (restore_quarantined_journal Source Quarantine (t_snapshot T) (t_source T) (t_quarantine T)
       (t_max T)) (λ _, settled (moved_to Source a)).
Proof.
  intros Ha Ha' Hpl. unfold restore_quarantined_journal.
  eapply spec_value; [by apply (spec_quarantine_journal a Quarantine)|].
  apply spec_pass. by rewrite bool_decide_true, !Z.eqb_refl.
Qed.
(** *** The fence *)

Lemma held_fence a d : a_fenced a = true → settled a d → holds Source (t_fence T) (t_fence_value T) d.
Proof. intros Hf [Hst _]. pose proof (st_fence _ _ _ Hst) as Hs. by rewrite Hf in Hs. Qed.

Lemma no_fence a d : a_fenced a = false → settled a d → look Source (t_fence T) d = None.
Proof. intros Hf [Hst _]. pose proof (st_fence _ _ _ Hst) as Hs. by rewrite Hf in Hs. Qed.

Lemma spec_read_fence a required :
  lawful a → a_fenced a = true →
  spec (settled a)
    (_read_source_fence Source (t_id T) (t_intent_digest T) (t_snapshot T) required)
    (λ o d, o = Some (record (t_fence T) (t_fence_value T)) ∧ settled a d).
Proof.
  intros Ha Hf. unfold _read_source_fence.
  assert (∀ d, settled a d → D d) as HD by (intros d; by apply settled_recoverable).
  eapply spec_value.
  { apply spec_record_Some; [done|exact fits_fence|]. intros d. by apply held_fence. }
  destruct (fence_reads_back (t_id T) (t_intent_digest T) (t_snapshot T)) as [Hx He].
  eapply spec_then; [apply spec_pass|by apply spec_ret].
  change (value (record ?n ?v)) with v. unfold t_fence_value. by rewrite Hx, He.
Qed.

Lemma spec_read_no_fence a :
  lawful a → a_fenced a = false →
  spec (settled a) (_read_source_fence Source (t_id T) (t_intent_digest T) (t_snapshot T) false)
    (λ o d, o = None ∧ settled a d).
Proof.
  intros Ha Hf. unfold _read_source_fence.
  assert (∀ d, settled a d → D d) as HD by (intros d; by apply settled_recoverable).
  eapply spec_value; [by apply spec_record_None; [|intros d; by apply no_fence]|].
  eapply spec_then; [by apply spec_pass|by apply spec_ret].
Qed.

Lemma lift_fence a d :
  a_fenced a = true → settled a d →
  settled (with_fence false a) (edit Source (delete (t_fence T)) d).
Proof.
  intros Hf [Hst Hno]. destruct (only_fence d _ (only_delete _ _ d)) as (Hrec & Hj). split.
  - destruct Hst as [Hi Ha0 Hfin Hb Hr Hfence Hh Ht Htidy] eqn:E. clear E. split.
    + by eapply slot_frame; [apply Hrec|].
    + by eapply slot_frame; [apply Hrec|].
    + by eapply slot_frame; [apply Hrec|].
    + by rewrite Hrec.
    + by eapply slot_frame; [apply Hrec|].
    + unfold slot. cbn [with_fence a_fenced]. by rewrite look_edit_delete, decide_True.
    + by rewrite Hj.
    + by rewrite Hj.
    + intros r n g. apply (tidy_delete a). by split.
  - intros r n g. rewrite look_edit_delete. case_decide; [done|apply Hno].
Qed.

Lemma with_fence_same b a : a_fenced a = b → with_fence b a = a.
Proof. by destruct a; intros <-. Qed.

Lemma lawful_unfenced a : lawful a → a_place a = Source → lawful (with_fence false a).
Proof.
  intros Ha Hpl. pose proof (finalized_elsewhere a Ha Hpl) as Hfin. destruct Ha as (Hi & _ & Hr & _).
  split; [|split; [|split]].
  - cbn [with_fence a_intent]. by intros ->%Hi.
  - cbn [with_fence a_place]. by rewrite Hpl.
  - cbn [with_fence a_restored a_place a_fenced]. destruct (a_restored a); naive_solver.
  - cbn [with_fence a_finalized]. by rewrite Hfin.
Qed.

Lemma spec_remove_fence a :
  lawful a → a_place a = Source →
  spec (settled a) (_remove_source_fence Source (t_id T) (t_intent_digest T) (t_snapshot T))
    (λ _, settled (with_fence false a)).
Proof.
  intros Ha Hpl. unfold _remove_source_fence.
  assert (lawful (with_fence false a)) as Ha'.
  { by apply lawful_unfenced. }
  assert (∀ d, settled a d → D d) as HD by (intros d; by apply settled_recoverable).
  assert (∀ d, settled (with_fence false a) d → D d) as HD'
    by (intros d; by apply settled_recoverable).
  destruct (a_fenced a) eqn:Hf.
  - eapply spec_value; [by apply spec_read_fence|]. apply spec_os_error.
    eapply spec_then; [|by apply spec_fsync].
    apply spec_unlink; [done|]. intros d Hd. split; [|by apply lift_fence].
    destruct (held_fence a d Hf Hd) as (f & Hl & _). by exists f.
  - eapply spec_value; [by apply spec_read_no_fence|].
    apply spec_ret. intros d. by rewrite with_fence_same.
Qed.
(** *** The lease *)

Lemma look_hold r n b d : look r n (hold b d) = look r n d.
Proof. by destruct r. Qed.

Lemma st_hold a b d : st a d → st a (hold b d).
Proof. by intros []. Qed.

Lemma settled_hold a b d : settled a d → settled a (hold b d).
Proof. intros [Hst Hno]. split; [by apply st_hold|]. intros r n f. rewrite look_hold. apply Hno. Qed.

Lemma lock_apart r : apart T r QUARANTINE_LOCK.
Proof.
  split; [apply lock_scratch|]. intros -> E. apply (f_equal last_char) in E.
  unfold t_fence, _quarantine_fence_name in E. revert E.
  by rewrite !last_char_app by (try destruct (sha256_hexdigest _); done).
Qed.

Definition lease : QuarantineTransactionLease := mkLease Source (t_source T) true.

Lemma spec_set_locked b P (Q : Disk → Prop) :
  (∀ d, P d → Q (hold b d)) → spec P (modify (set_locked b)) (λ _, Q).
Proof. intros HQ w _ _ HP. split; [by split|]. exact (HQ _ HP). Qed.

(** The lease is acquired from, and keeps, any files the new lock file is compatible with. *)
Lemma spec_acquire_keeping (I : Disk → Prop) :
  (∀ d, I d → ∃ a, lawful a ∧ st a d) → (∀ b d, I d → I (hold b d)) →
  (∀ d f, I d → fresh_file f → I (edit Source (insert QUARANTINE_LOCK f) d)) →
  spec (λ d, I d ∧ held d = false)
    (acquire_quarantine_transaction_lease Source (t_source T))
    (λ l d, l = lease ∧ I d ∧ held d = true).
Proof.
  intros HI Hhold Hlock. unfold acquire_quarantine_transaction_lease.
  set (P := λ d, I d ∧ held d = false). set (Q := λ d, I d ∧ held d = true).
  assert (∀ d, P d → D d) as HP by (intros d [? _]; by apply HI).
  assert (∀ d, Q d → D d) as HQ by (intros d [? _]; by apply HI).
  eapply spec_then; [by apply (spec_open_root _ Source)|].
  apply spec_then with (R := Q).
  - apply spec_catch; [done|]. unfold _acquire_quarantine_lock.
    eapply spec_step.
    { apply spec_os_error. apply (spec_open_or_create _ _ P); [done|..].
      - intros d f [Hd _] Hl. destruct (HI d Hd) as (a & _ & Hst).
        by apply (st_tidy _ _ _ Hst _ _ _ Hl).
      - intros d f [Hd Hh] Hf _. split; [by apply Hlock|done]. }
    intros f Hf. cbv beta.
    eapply spec_value; [by apply spec_os_error, spec_fstat|].
    eapply spec_then; [apply spec_pass; by rewrite Hf|].
    apply spec_get_guard; [by intros w _ [_ Hw]|].
    apply spec_os_error, spec_syscall; [done|]. intros _ w _ [Hd _] _.
    exists (), (set_locked true w). split; [done|]. split; [by split|]. split; [|done].
    exact (Hhold true _ Hd).
  - eapply spec_then; [by apply spec_fsync|]. by apply spec_ret.
Qed.

Lemma st_lock a d f : st a d → fresh_file f → st a (edit Source (insert QUARANTINE_LOCK f) d).
Proof.
  intros Hst Hf. apply st_insert; [done..|apply lock_apart|].
  apply tidy_kept; [done|by apply fresh_private|done].
Qed.

Lemma settled_lock a d f :
  settled a d → fresh_file f → settled a (edit Source (insert QUARANTINE_LOCK f) d).
Proof.
  intros [Hst Hno] Hf. split; [by apply st_lock|]. intros r n g. rewrite look_edit_insert.
  case_decide as E; [by destruct E as [<- <-]|apply Hno].
Qed.

Lemma spec_acquire a :
  lawful a →
  spec (λ d, st a d ∧ held d = false)
    (acquire_quarantine_transaction_lease Source (t_source T))
    (λ l d, l = lease ∧ st a d ∧ held d = true).
Proof.
  intros Ha. apply spec_acquire_keeping; eauto using st_hold, st_lock.
Qed.

Lemma spec_acquire_settled a :
  lawful a →
  spec (λ d, settled a d ∧ held d = false)
    (acquire_quarantine_transaction_lease Source (t_source T))
    (λ l d, l = lease ∧ settled a d ∧ held d = true).
Proof.
  intros Ha. apply spec_acquire_keeping; [|by intros; apply settled_hold|by intros; apply settled_lock].
  intros d [Hst _]. eauto.
Qed.

(** *** Cleaning up *)

(** The temporaries of [r] are [names]; the rest is as in [d0]. *)
Record cleaning (r : Root) (names : list string) (d0 d : Disk) : Prop := {
  cl_held : held d = held d0;
  cl_rest r' n : ¬ (r' = r ∧ starts_with (temp_prefix r) n = true) → look r' n d = look r' n d0;
  cl_names n : starts_with (temp_prefix r) n = true → (is_Some (look r n d) ↔ n ∈ names);
}.

Lemma cleaning_delete r n names d0 d :
  NoDup (n :: names) → starts_with (temp_prefix r) n = true →
  cleaning r (n :: names) d0 d → cleaning r names d0 (edit r (delete n) d).
Proof.
  intros [Hn Hnd]%NoDup_cons Hpre []. split.
  - by destruct r.
  - intros r' n' Hne. rewrite look_edit_delete, decide_False; [auto|]. naive_solver.
  - intros n' Hpre'. rewrite look_edit_delete. case_decide as E.
    + destruct E as [_ ->]. split; [by intros []|done].
    + rewrite cl_names0 by done. rewrite elem_of_cons. naive_solver.
Qed.

Lemma spec_discard a r d0 names e1 e2 e3 e4 :
  lawful a → NoDup names → (∀ n, n ∈ names → starts_with (temp_prefix r) n = true) →
  spec (λ d, st a d ∧ cleaning r names d0 d)
    (discard_temporaries r (temp_pattern r) e1 e2 e3 e4 names)
    (λ _ d, st a d ∧ cleaning r [] d0 d).
Proof.
  intros Ha. induction names as [|n names IH]; intros Hnd Hpre; simpl; [by apply spec_ret|].
  assert (starts_with (temp_prefix r) n = true) as Hn by (apply Hpre; by left).
  set (P f d := (st a d ∧ cleaning r (n :: names) d0 d) ∧ look r n d = Some f).
  apply spec_conseq with (P' := λ d, ∃ f, P f d)
    (Q' := λ _ d, st a d ∧ cleaning r [] d0 d); [|intros d [Hst Hc]|done].
  2:{ destruct (proj2 (cl_names _ _ _ _ Hc n Hn)) as [f Hf]; [by left|]. by exists f. }
  apply spec_pre_exists. intros f.
  apply spec_fact with (temp_pattern r n = true ∧ private_file f = true).
  { intros d [[Hst _] Hf]. by apply (st_tidy _ _ _ Hst _ _ _ Hf). }
  intros [Hpat Hp].
  assert (∀ d, P f d → D d) as HD by (intros d [[Hst _] _]; by exists a).
  eapply spec_then; [apply spec_pass; by rewrite Hpat|].
  eapply spec_value; [apply spec_os_error, spec_stat with (P := P f); [done|by intros d [_ ?]]|].
  eapply spec_then; [apply spec_pass; by rewrite Hp|].
  eapply spec_then; [|apply IH; [by apply NoDup_cons in Hnd as [_ ?]|intros; apply Hpre; by right]].
  apply spec_os_error, spec_unlink; [done|]. intros d [[Hst Hc] Hf]. split; [by rewrite Hf|].
  split; [|by apply cleaning_delete]. apply st_delete; [done..|by apply temp_apart].
Qed.

(** The two steps of the clean-up, with the names found. *)
Lemma spec_list a r d0 :
  lawful a →
  spec (λ d, st a d ∧ d = d0) (os_listdir r)
    (λ l d, (NoDup l ∧ ∀ n, n ∈ l ↔ is_Some (look r n d0)) ∧ st a d ∧ d = d0).
Proof.
  intros Ha. eapply spec_weaken; [apply spec_listdir|].
  - intros d [Hst _]. by exists a.
  - intros l d [[Hst ->] Hl]. by split.
Qed.

Lemma cleaning_start r l d0 :
  (∀ n, n ∈ l ↔ is_Some (look r n d0)) →
  cleaning r (filter (λ n, starts_with (temp_prefix r) n) l) d0 d0.
Proof.
  intros Hl. split; [done..|]. intros n Hn. rewrite list_elem_of_filter, Hl. rewrite Hn. naive_solver.
Qed.
Lemma spec_sync_if (l : list string) r P :
  (∀ d, P d → D d) → spec P (if decide (l = []) then mret () else os_fsync r) (λ _, P).
Proof. intros HD. case_decide; [by apply spec_ret|by apply spec_fsync]. Qed.

Definition swept (r : Root) (d : Disk) : Prop :=
  ∀ n f, look r n d = Some f → starts_with (temp_prefix r) n = false.

Lemma cleaning_swept r d0 d : cleaning r [] d0 d → swept r d.
Proof.
  intros [_ _ Hn] n f Hf. destruct (starts_with (temp_prefix r) n) eqn:E; [|done].
  assert (n ∈ []) as Hin by (apply Hn; [done|by exists f]). by apply elem_of_nil in Hin.
Qed.

Lemma spec_clean_source a b :
  lawful a →
  spec (λ d, st a d ∧ held d = b) (clean_source Source)
    (λ _ d, (st a d ∧ held d = b) ∧ swept Source d).
Proof.
  intros Ha. apply spec_conseq with (P' := λ d, ∃ d0, (held d0 = b) ∧ st a d ∧ d = d0)
    (Q' := λ _ d, (st a d ∧ held d = b) ∧ swept Source d); [|naive_solver|done].
  apply spec_pre_exists. intros d0.
  apply spec_fact with (held d0 = b); [naive_solver|]. intros Hb.
  apply spec_conseq with (P' := λ d, st a d ∧ d = d0)
    (Q' := λ _ d, (st a d ∧ held d = b) ∧ swept Source d); [|naive_solver|done].
  unfold clean_source. eapply spec_step; [by apply spec_list|]. intros l [Hnd Hl]. cbv beta zeta.
  apply spec_then with (R := λ d, st a d ∧ cleaning Source [] d0 d).
  - eapply spec_conseq; [apply (spec_discard a Source d0)|..]; [done|by apply NoDup_filter|..].
    + intros n [Hn _]%list_elem_of_filter. by apply Is_true_true.
    + intros d [Hst ->]. split; [done|]. by apply cleaning_start.
    + done.
  - eapply spec_weaken; [apply spec_sync_if; intros d [Hst _]; by exists a|].
    intros [] d [Hst Hc]. split; [|by eapply cleaning_swept].
    split; [done|]. by rewrite (cl_held _ _ _ _ Hc).
Qed.

Lemma spec_clean_quarantine a b :
  lawful a →
  spec (λ d, (st a d ∧ held d = b) ∧ swept Source d) (clean_quarantine Quarantine)
    (λ l d, NoDup l ∧ (∀ n, n ∈ l ↔ is_Some (look Quarantine n d)) ∧ settled a d ∧ held d = b).
Proof.
  intros Ha. set (Q := λ (l : list string) d,
    NoDup l ∧ (∀ n, n ∈ l ↔ is_Some (look Quarantine n d)) ∧ settled a d ∧ held d = b).
  apply spec_conseq with (P' := λ d, ∃ d0, (held d0 = b ∧ swept Source d0) ∧ st a d ∧ d = d0)
    (Q' := Q); [|naive_solver|done].
  apply spec_pre_exists. intros d0.
  apply spec_fact with (held d0 = b ∧ swept Source d0); [naive_solver|]. intros [Hb Hsw].
  apply spec_conseq with (P' := λ d, st a d ∧ d = d0) (Q' := Q); [|naive_solver|done].
  unfold clean_quarantine. eapply spec_step; [by apply spec_list|]. intros l [Hnd Hl].
  cbv beta zeta. set (l' := sort_on (λ n : string, n) l).
  assert (NoDup l' ∧ ∀ n, n ∈ l' ↔ is_Some (look Quarantine n d0)) as [Hnd' Hl'].
  { pose proof (sort_on_perm (λ n : string, n) l) as Hp. fold l' in Hp.
    split; [by rewrite Hp|]. intros n. by rewrite Hp. }
  apply spec_then with (R := λ d, st a d ∧ cleaning Quarantine [] d0 d).
  - eapply spec_conseq; [apply (spec_discard a Quarantine d0)|..]; [done|by apply NoDup_filter|..].
    + intros n [Hn _]%list_elem_of_filter. by apply Is_true_true.
    + intros d [Hst ->]. split; [done|]. by apply cleaning_start.
    + done.
  - eapply spec_then; [apply spec_sync_if; intros d [Hst _]; by exists a|].
    apply spec_ret. intros d [Hst Hc]. pose proof (cleaning_swept _ _ _ Hc) as Hsw'.
    destruct Hc as [Hh Hrest Hn]. split_and!.
    + by apply NoDup_filter.
    + intros n. rewrite list_elem_of_filter, list_elem_of_filter, Hl'.
      destruct (starts_with transaction_temp_prefix n) eqn:E.
      * split; [by intros [Hne Hs]; destruct Hne|]. intros [f Hf]. apply Hsw' in Hf. simpl in Hf. congruence.
      * rewrite (Hrest Quarantine n); [naive_solver|]. intros [_ E']. simpl in E'. congruence.
    + split; [done|]. intros [] n f; [|apply Hsw'].
      rewrite Hrest by naive_solver. apply Hsw.
    + congruence.
Qed.
End operations.

Arguments lease : clear implicits.
