(* ===== verification/QuarantineRecovery.v ===== *)
(** * Recovery of a killed quarantine transaction

    The triples of [reconcile_quarantine_transactions], [prepare_fault], [commit_fault]
    and [finalize_quarantine_transaction], and from them the theorems on a transaction
    that is killed and on the processes that recover it. *)

From S2P Require Import Prelude PyStd HostEventSink QuarantineTransaction QuarantineInvariants QuarantineRecords QuarantineSpec QuarantineStates QuarantineSteps.
From S2P Require EcpaModel.

Local Open Scope string_scope.
Local Open Scope list_scope.

#[local] Opaque sha256_hexdigest.

Section operations.
Context {K : Kernel} {KL : TokenLaw K} {T : Transaction} {H : transaction_ok T}.
Notation D := (recoverable T).
Notation spec P m Q := (spec D (roots_ok T) P m Q).
Notation st := (st T).
Notation lawful := (lawful T).
Notation root_id := (root_id T).
Notation settled := (settled T).
Notation temp_at := (temp_at T).
Notation publishes := (publishes T).
Notation lease := (lease T).
(** *** The reconciliation *)

(** The directory holds one transaction. *)
Lemma intent_names_ok a d l :
  a_intent a = true → settled a d → NoDup l → (∀ n, n ∈ l ↔ is_Some (look Quarantine n d)) →
  intent_names l = Ok [t_name T intent].
Proof.
  intros Hint [Hst _] Hnd Hl. unfold intent_names. set (names := filter is_record l).
  assert (∀ n, n ∈ names → ∃ s, n = t_name T s) as Hnames.
  { intros n [Hr Hn]%list_elem_of_filter. apply Hl in Hn as [f Hf].
    apply (st_tidy _ _ _ Hst _ _ _ Hf); [done|by apply Is_true_true]. }
  assert (t_name T intent ∈ names) as Hin.
  { apply list_elem_of_filter. unfold t_name. rewrite record_name_is_record. split; [done|].
    apply Hl. pose proof (st_intent _ _ _ Hst) as Hs. rewrite Hint in Hs.
    destruct Hs as (f & Hf & _). by exists f. }
  assert (filter (ends_with (stage_suffix intent)) names = [t_name T intent]) as Hintents.
  { apply Permutation_singleton_r, NoDup_Permutation.
    - by apply NoDup_filter, NoDup_filter.
    - apply NoDup_singleton.
    - intros n. rewrite list_elem_of_filter, list_elem_of_singleton. split.
      + intros [Hs Hn]. destruct (Hnames n Hn) as [s ->].
        apply Is_true_true, ends_with_intent in Hs. by subst.
      + intros ->. split; [|done]. apply Is_true_true, ends_with_stage. }
  cbv zeta. rewrite (proj2 (negb_false_iff _)).
  2:{ apply forallb_forall. intros n Hn%list_elem_of_In.
      destruct (Hnames n Hn) as [s ->]. apply existsb_exists. exists s.
      split; [destruct s; simpl; tauto|apply ends_with_stage]. }
  cbn [raise_if mbind result_bind].
  change (ends_with ("." +:+ Stage_value intent +:+ ".json")) with (ends_with (stage_suffix intent)).
  rewrite Hintents. replace (forR _ names) with (Ok () : result exn ()); [done|].
  symmetry. apply forR_Ok, Forall_forall. intros n Hn. destruct (Hnames n Hn) as [s ->].
  destruct (record_name_field (t_id T) s (ok_hex _ H)) as [E _].
  change (t_name T s) with (record_name_of (t_id T) s). rewrite E, record_name_Ok by apply (ok_hex _ H).
  cbn [mbind result_bind]. rewrite bool_decide_true; [done|]. by left.
Qed.
(** Before the intent it holds none. *)
Lemma no_intent_names a d l :
  lawful a → a_intent a = false → settled a d → (∀ n, n ∈ l ↔ is_Some (look Quarantine n d)) →
  intent_names l = Ok [].
Proof.
  intros [Ha _] Hint [Hst _] Hl. specialize (Ha Hint). subst a. unfold intent_names.
  replace (filter is_record l) with (@nil string); [done|]. symmetry.
  apply elem_of_nil_inv. intros n [Hr Hn]%list_elem_of_filter. apply Hl in Hn as [f Hf].
  destruct (st_tidy _ _ _ Hst _ _ _ Hf) as (_ & Hrec & _).
  destruct Hrec as [s ->]; [done|by apply Is_true_true|].
  destruct Hst as [Hi Ha0 Hfin Hb Hrs _ _ _ _]. destruct s; try congruence.
Qed.

Lemma spec_read_stage_Some a s v :
  lawful a → fits v → (∀ d, settled a d → holds Quarantine (t_name T s) v d) →
  spec (settled a) (read_optional Quarantine (t_id T) s)
    (λ o d, o = Some (record (t_name T s) v) ∧ settled a d).
Proof.
  intros Ha Hfit Hv. unfold read_optional. rewrite record_name_Ok by apply (ok_hex _ H).
  eapply spec_value; [by eapply (spec_lift _ _ (settled a)); [done|intros]|].
  apply spec_record_Some; [|done..]. intros d. by apply settled_recoverable.
Qed.

Lemma spec_read_stage_None a s :
  lawful a → (∀ d, settled a d → look Quarantine (t_name T s) d = None) →
  spec (settled a) (read_optional Quarantine (t_id T) s) (λ o d, o = None ∧ settled a d).
Proof.
  intros Ha Hv. unfold read_optional. rewrite record_name_Ok by apply (ok_hex _ H).
  eapply spec_value; [by eapply (spec_lift _ _ (settled a)); [done|intros]|].
  apply spec_record_None; [|done..]. intros d. by apply settled_recoverable.
Qed.

Definition applied_record (a : Abs) : option DurableRecord :=
  if a_applied a then Some (record (t_name T applied) (t_applied T)) else None.
Definition restored_record (a : Abs) : option DurableRecord :=
  match a_restored a with
  | Some reason => Some (record (t_name T restored) (t_restored T (a_applied a) reason))
  | None => None
  end.

Lemma spec_read_applied a :
  lawful a →
  spec (settled a) (read_optional Quarantine (t_id T) applied)
    (λ o d, o = applied_record a ∧ settled a d).
Proof.
  intros Ha. unfold applied_record. destruct (a_applied a) eqn:E.
  - apply spec_read_stage_Some; [done|exact fits_applied|]. intros d [Hst _].
    pose proof (st_applied _ _ _ Hst) as Hs. by rewrite E in Hs.
  - apply spec_read_stage_None; [done|]. intros d [Hst _].
    pose proof (st_applied _ _ _ Hst) as Hs. by rewrite E in Hs.
Qed.

Lemma spec_read_restored a :
  lawful a →
  spec (settled a) (read_optional Quarantine (t_id T) restored)
    (λ o d, o = restored_record a ∧ settled a d).
Proof.
  intros Ha. unfold restored_record. destruct (a_restored a) as [reason|] eqn:E.
  - apply spec_read_stage_Some; [done| |].
    + apply fits_restored. destruct Ha as [_ Ha]. rewrite E in Ha. apply Ha.
    + intros d [Hst _]. pose proof (st_restored _ _ _ Hst) as Hs. by rewrite E in Hs.
  - apply spec_read_stage_None; [done|]. intros d [Hst _].
    pose proof (st_restored _ _ _ Hst) as Hs. by rewrite E in Hs.
Qed.

Definition finalized_record (a : Abs) : option DurableRecord :=
  match a_finalized a with
  | Some x => Some (record (t_name T finalized) (t_finalized T x))
  | None => None
  end.

Lemma spec_read_finalized a :
  lawful a →
  spec (settled a) (read_optional Quarantine (t_id T) finalized)
    (λ o d, o = finalized_record a ∧ settled a d).
Proof.
  intros Ha. unfold finalized_record. destruct (a_finalized a) as [x|] eqn:E.
  - apply spec_read_stage_Some; [done| |].
    + destruct Ha as (_ & _ & _ & Ha). rewrite E in Ha. apply Ha.
    + intros d [Hst _]. pose proof (st_finalized _ _ _ Hst) as Hs. by rewrite E in Hs.
  - apply spec_read_stage_None; [done|]. intros d [Hst _].
    pose proof (st_finalized _ _ _ Hst) as Hs. by rewrite E in Hs.
Qed.

Lemma applied_digest a : digest <$> applied_record a = t_applied_digest T (a_applied a).
Proof. unfold applied_record. by destruct (a_applied a). Qed.

Lemma spec_exists_yes a r :
  lawful a → a_place a = r →
  spec (settled a) (_exists r (t_journal T)) (λ b d, b = true ∧ settled a d).
Proof.
  intros Ha <-. eapply spec_weaken; [apply spec_exists; intros d; by apply settled_recoverable|].
  intros [] d [Hd Hl]; [done|]. destruct Hd as [[] _]. congruence.
Qed.

Lemma spec_exists_no a r :
  lawful a → a_place a = other r →
  spec (settled a) (_exists r (t_journal T)) (λ b d, b = false ∧ settled a d).
Proof.
  intros Ha Hpl. eapply spec_weaken; [apply spec_exists; intros d; by apply settled_recoverable|].
  intros [] d [Hd Hl]; [|done]. destruct Hd as [[] _]. rewrite Hpl in *.
  destruct Hl as [f Hl]. by destruct r; simpl in *; congruence.
Qed.

Lemma same_journal_refl q : _is_same_append_only_journal q q = true.
Proof.
  unfold _is_same_append_only_journal. rewrite bool_decide_true, !Z.eqb_refl by done. simpl.
  rewrite <-(string_app_nil_r (raw q)) at 2. apply starts_with_app.
Qed.
(** Where the reconciliation of a prepared transaction leads. *)
Definition reason_of (a : Abs) : string :=
  match a_restored a with
  | Some reason => reason
  | None =>
      match a_place a with
      | Source => "no-move-observed"
      | Quarantine => if a_applied a then "restored-after-applied" else "restored-after-move"
      end
  end.
Definition decision (a : Abs) : Decision :=
  match a_finalized a with Some _ => Finalized | None => Restored end.
Definition recovered (a : Abs) : Abs :=
  match a_finalized a with
  | Some _ => a
  | None => mkAbs (a_intent a) Source false (a_applied a) (Some (reason_of a)) None
  end.

Lemma reason_of_legal a : lawful a → reason_of a ∈ _RESTORE_REASONS.
Proof.
  intros (_ & _ & Ha & _). unfold reason_of. destruct (a_restored a); [apply Ha|].
  destruct (a_place a); [in_list|]. destruct (a_applied a); in_list.
Qed.

Lemma recovered_lawful a : lawful a → a_intent a = true → lawful (recovered a).
Proof.
  intros Ha Hint. unfold recovered. destruct (a_finalized a); [done|].
  split; [by cbn [a_intent]; rewrite Hint|]. split; [done|]. split; [|done].
  by split_and!; [..|apply reason_of_legal].
Qed.

Lemma lawful_restored a :
  lawful a → a_restored a = None → a_finalized a = None → lawful (moved_to Source a).
Proof.
  intros (Hi & _ & _) Hres Hfin. split; [|split; [done|split]].
  - cbn [moved_to a_intent]. by intros ->%Hi.
  - cbn [moved_to a_restored]. by rewrite Hres.
  - cbn [moved_to a_finalized]. by rewrite Hfin.
Qed.

Notation intent_record := (record (t_name T intent) (t_intent T)).

Lemma spec_recover_journal a :
  lawful a → a_restored a = None → a_finalized a = None →
  spec (settled a)
    (recover_journal Source Quarantine (t_source T) (t_quarantine T) (t_max T) (t_id T)
       intent_record (t_snapshot T) (applied_record a))
    (λ x d, x = reason_of a ∧ settled (moved_to Source a) d).
Proof.
  intros Ha Hres Hfin. unfold recover_journal, reason_of. rewrite Hres.
  change (journal (t_snapshot T)) with (t_journal T).
  destruct (a_place a) eqn:Hpl.
  - eapply spec_value; [by apply (spec_exists_yes a Source)|].
    eapply spec_value; [by apply (spec_exists_no a Quarantine)|].
    eapply spec_value; [by apply (spec_snapshot a Source)|].
    rewrite same_journal_refl. apply spec_ret. intros d Hd. split; [done|].
    replace (moved_to Source a) with a; [done|]. by destruct a; simpl in *; subst.
  - assert (lawful (moved_to Source a)) as Ha'.
    { by apply lawful_restored. }
    eapply spec_value; [by apply (spec_exists_no a Source)|].
    eapply spec_value; [by apply (spec_exists_yes a Quarantine)|].
    eapply spec_value; [by apply spec_read_fence; [|apply Ha]|].
    eapply spec_then; [apply spec_catch; [done|by apply spec_restore]|].
    apply spec_ret. intros d Hd. split; [|done]. unfold applied_record.
    by destruct (a_applied a).
Qed.

Lemma spec_reconcile_unfinished a :
  lawful a → a_intent a = true → a_restored a = None → a_finalized a = None →
  spec (settled a)
    (reconcile_unfinished Source Quarantine (t_source T) (t_quarantine T) (t_max T) (t_id T)
       intent_record (t_snapshot T) (applied_record a))
    (λ x d, x = decision a ∧ settled (recovered a) d).
Proof.
  intros Ha Hint Hres Hfin. unfold reconcile_unfinished, decision, recovered. rewrite Hfin.
  eapply spec_value; [by apply spec_recover_journal|].
  assert (lawful (moved_to Source a)) as Hm.
  { by apply lawful_restored. }
  eapply spec_then; [by apply (spec_remove_fence (moved_to Source a))|].
  set (b := with_fence false (moved_to Source a)).
  assert (lawful b) as Hb by (by apply lawful_unfenced).
  unfold mark_quarantine_restored. rewrite applied_digest.
  change (digest intent_record) with (t_intent_digest T).
  eapply spec_value; [apply (spec_write_record b (with_restored (reason_of a) b))|].
  - by apply (publish_restored b); [..|apply reason_of_legal].
  - apply spec_ret. intros d Hd. split; [done|].
    unfold b, with_restored, with_fence, moved_to in Hd. cbn in Hd. by rewrite Hfin in Hd.
Qed.

Lemma spec_reconcile_restored a reason :
  lawful a → a_restored a = Some reason →
  spec (settled a)
    (reconcile_restored Source Quarantine (t_source T) (t_max T) (t_id T) intent_record
       (t_snapshot T) (applied_record a)
       (record (t_name T restored) (t_restored T (a_applied a) reason)))
    (λ x d, x = Restored ∧ settled a d).
Proof.
  intros Ha Hres. unfold reconcile_restored.
  assert (a_place a = Source ∧ a_fenced a = false ∧ reason ∈ _RESTORE_REASONS) as (Hpl & Hf & Hr).
  { destruct Ha as (_ & _ & Ha & _). by rewrite Hres in Ha. }
  rewrite applied_digest. change (digest intent_record) with (t_intent_digest T).
  change (journal (t_snapshot T)) with (t_journal T).
  eapply spec_then.
  { eapply (spec_lift _ _ (settled a)).
    - apply restored_reads_back; [apply (ok_hex _ H)|done].
    - intros d Hd. exact Hd. }
  eapply spec_value; [by apply spec_read_no_fence|].
  eapply spec_then; [by apply spec_pass|].
  eapply spec_value; [by apply (spec_exists_no a Quarantine)|].
  eapply spec_then; [by apply spec_pass|].
  eapply spec_value; [by apply spec_sink_error, (spec_snapshot a Source)|].
  eapply spec_then; [apply spec_pass; by rewrite same_journal_refl|].
  by apply spec_ret.
Qed.
Lemma spec_lift_value {B} P (r : result exn B) b : r = Ok b → spec P (lift r) (λ c d, c = b ∧ P d).
Proof. intros Hr. eapply spec_lift; [exact Hr|by intros]. Qed.

(** A finalized transaction is read, and left as it is. *)
Lemma spec_reconcile_finalized a x :
  lawful a → a_finalized a = Some x →
  spec (settled a)
    (reconcile_finalized Source Quarantine (t_quarantine T) (t_max T) (t_id T) intent_record
       (t_snapshot T) (Some (record (t_name T applied) (t_applied T)))
       (record (t_name T finalized) (t_finalized T x)))
    (λ y d, y = Finalized ∧ settled a d).
Proof.
  intros Ha Hfin. unfold reconcile_finalized. pose proof Ha as (_ & Hf & _ & Hx).
  rewrite Hfin in Hx. destruct Hx as (Hpl & Happ & Hres & Hd & Hp & _).
  change (digest intent_record) with (t_intent_digest T).
  change (journal (t_snapshot T)) with (t_journal T).
  eapply spec_then.
  { eapply (spec_lift _ _ (settled a)).
    - apply finalized_reads_back; [apply (ok_hex _ H)|done..].
    - intros d Hst. exact Hst. }
  eapply spec_value; [by apply spec_sink_error, (spec_snapshot a Quarantine)|].
  eapply spec_then; [apply spec_pass; by rewrite bool_decide_true|].
  eapply spec_value; [by apply spec_read_fence; [|apply Hf]|].
  eapply spec_value; [by apply (spec_exists_no a Source)|].
  by apply spec_ret.
Qed.

Lemma spec_reconcile_one a :
  lawful a → a_intent a = true →
  spec (settled a)
    (reconcile_one Source Quarantine (t_source T) (t_quarantine T) (t_max T) (t_name T intent))
    (λ x d, x = decision a ∧ settled (recovered a) d).
Proof.
  intros Ha Hint. unfold reconcile_one. cbv zeta.
  assert (∀ d, settled a d → D d) as HD by (intros d; by apply settled_recoverable).
  change (t_name T intent) with (record_name_of (t_id T) intent). rewrite transaction_of_intent.
  eapply spec_value.
  { apply spec_read_required; [done|exact fits_intent|]. intros d [Hst _].
    pose proof (st_intent _ _ _ Hst) as Hs. by rewrite Hint in Hs. }
  destruct (ok_journal _ H) as (Hj & Hp & _).
  eapply spec_value.
  { apply spec_lift_value. apply intent_reads_back; try done; [apply (ok_hex _ H)|apply (ok_id _ H)| |].
    - apply (ok_device _ H).
    - apply (ok_inode _ H). }
  eapply spec_then.
  { apply spec_pass. change (value (record ?n ?v)) with v. unfold t_intent.
    by rewrite directories_read_back. }
  eapply spec_value; [by apply spec_read_applied|].
  apply spec_then with (R := settled a).
  { unfold applied_record. destruct (a_applied a); [|by apply spec_ret].
    eapply spec_lift; [|intros d Hd; exact Hd].
    exact (applied_reads_back (t_id T) (ok_hex _ H) intent_record (t_snapshot T)). }
  eapply spec_value; [by apply spec_read_finalized|].
  eapply spec_value; [by apply spec_read_restored|].
  eapply spec_value.
  { apply spec_read_stage_None; [done|]. intros d [Hst _]. apply (st_blocked _ _ _ Hst). }
  unfold restored_record, finalized_record. pose proof Ha as (_ & _ & Hres & Hfin).
  destruct (a_finalized a) as [x|] eqn:E.
  - destruct Hfin as (Hpl & Happ & -> & _). unfold decision, recovered. rewrite E.
    unfold applied_record. rewrite Happ. by apply spec_reconcile_finalized.
  - destruct (a_restored a) as [reason|] eqn:Er; [|by apply spec_reconcile_unfinished].
    eapply spec_weaken; [by apply spec_reconcile_restored|]. intros x d [-> Hd].
    unfold decision, recovered, reason_of. rewrite E, Er. split; [done|].
    destruct Hres as (Hpl & Hf & _). by destruct a; simpl in *; subst.
Qed.

(** What the reconciliation reports, and what it leaves. *)
Definition reconciled (a : Abs) : ReconciliationResult * Abs :=
  if a_intent a then (match decision a with
        | Restored => mkReconciliation [t_id T] []
        | Finalized => mkReconciliation [] [t_id T]
        end, recovered a)
  else (mkReconciliation [] [], a).

Lemma reconciled_lawful a : lawful a → lawful (reconciled a).2.
Proof. intros Ha. unfold reconciled. destruct (a_intent a) eqn:E; [by apply recovered_lawful|done]. Qed.

Lemma spec_reconcile_found a b l :
  lawful a →
  spec (λ d, NoDup l ∧ (∀ n, n ∈ l ↔ is_Some (look Quarantine n d)) ∧ settled a d ∧ held d = b)
    (intents ← lift (intent_names l);
     reconcile_all Source Quarantine (t_source T) (t_quarantine T) (t_max T) intents
       (mkReconciliation [] []))
    (λ x d, x = (reconciled a).1 ∧ settled (reconciled a).2 d).
Proof.
  intros Ha. unfold reconciled. destruct (a_intent a) eqn:Hint.
  - apply spec_fact with (intent_names l = Ok [t_name T intent]).
    { intros d (Hnd & Hl & Hd & _). by eapply intent_names_ok. }
    intros Hnames. eapply spec_value with (a := [t_name T intent]) (R := settled a).
    { eapply spec_lift; [exact Hnames|]. by intros d (_ & _ & Hd & _). }
    cbn [reconcile_all]. eapply spec_value; [by apply spec_reconcile_one|].
    apply spec_ret. intros d Hd. split; [|done]. unfold record_decision.
    change (t_name T intent) with (record_name_of (t_id T) intent).
    rewrite transaction_of_intent. by destruct (decision a).
  - apply spec_fact with (intent_names l = Ok []).
    { intros d (_ & Hl & Hd & _). by eapply no_intent_names. }
    intros Hnames. eapply spec_value with (a := []) (R := settled a).
    { eapply spec_lift; [exact Hnames|]. by intros d (_ & _ & Hd & _). }
    by apply spec_ret.
Qed.

Lemma spec_reconcile_locked a b :
  lawful a →
  spec (λ d, st a d ∧ held d = b)
    (_reconcile_quarantine_transactions_locked Source Quarantine (t_source T) (t_quarantine T)
       (t_max T))
    (λ x d, x = (reconciled a).1 ∧ settled (reconciled a).2 d).
Proof.
  intros Ha. unfold _reconcile_quarantine_transactions_locked.
  assert (∀ d, st a d ∧ held d = b → D d) as HD by (intros d [Hst _]; by exists a).
  eapply spec_then; [by apply (spec_open_root _ Source)|].
  eapply spec_then; [by apply (spec_open_root _ Quarantine)|].
  eapply spec_then; [by apply spec_nop|].
  eapply spec_then; [by apply spec_nop|].
  apply spec_get. intros w Hw.
  eapply spec_then.
  { apply spec_pass. rewrite !(root_device w) by done. rewrite Z.eqb_refl.
    apply bool_decide_eq_false, (ok_distinct _ H). }
  eapply spec_then; [by apply spec_clean_source|].
  eapply spec_bind; [by apply spec_clean_quarantine|]. intros l.
  by apply spec_reconcile_found.
Qed.

Lemma spec_require_lease P :
  (∀ d, P d → D d) → spec P (_require_lease lease Source (t_source T)) (λ _, P).
Proof.
  intros HD. unfold _require_lease.
  eapply spec_then; [apply spec_pass; cbn; by rewrite bool_decide_true|].
  apply spec_get. intros w Hw. eapply spec_then; [|by apply spec_pass].
  apply spec_read; [done|]. intros v _ Hv. destruct (root_facts w Source Hw) as (-> & _). eauto.
Qed.

Lemma spec_reconcile a :
  lawful a →
  spec (λ d, st a d ∧ held d = false)
    (reconcile_quarantine_transactions Source Quarantine (t_source T) (t_quarantine T) (t_max T)
       None)
    (λ x d, x = (reconciled a).1 ∧ settled (reconciled a).2 d ∧ held d = false).
Proof.
  intros Ha. unfold reconcile_quarantine_transactions, with_lease.
  eapply spec_value; [by apply spec_acquire|].
  eapply spec_finally.
  - eapply spec_then; [|by apply (spec_reconcile_locked a true)].
    apply spec_require_lease. intros d [Hst _]. by exists a.
  - intros x. apply spec_set_locked. intros d [-> Hd]. split; [done|].
    split; [by apply settled_hold|done].
Qed.
(** *** Prepare and commit *)

Definition prepared : Abs := mkAbs true Source false false None None.
Definition committed : Abs := mkAbs true Quarantine true true None None.
Definition prepared_fault : PreparedFault :=
  mkPrepared (t_id T) (t_intent_digest T) (t_snapshot T).

Lemma publish_intent : publishes unprepared prepared Quarantine (t_name T intent) (t_intent T).
Proof.
  split; try done.
  - exact fits_intent.
  - intros d Hst. exact (st_intent _ _ _ Hst).
  - intros d f Hst Hp Hv.
    destruct (only_record intent d _ (only_insert _ _ f d)) as (Hrec & Hj & Hfe).
    destruct Hst as [Hi Ha0 Hfin Hb Hr Hfence Hh Ht Htidy] eqn:E. clear E. split.
    + by apply holds_insert.
    + by eapply slot_frame; [apply Hrec|].
    + by eapply slot_frame; [apply Hrec|].
    + by rewrite Hrec.
    + by eapply slot_frame; [apply Hrec|].
    + by eapply slot_frame; [exact Hfe|].
    + by rewrite Hj.
    + by rewrite Hj.
    + intros r n g. apply (tidy_insert unprepared); [by split|by apply tidy_record].
  - intros d Hst. exact (st_intent _ _ _ Hst).
Qed.

Lemma unprepared_lawful : lawful unprepared.
Proof. by split. Qed.
Lemma prepared_lawful : lawful prepared.
Proof. by split. Qed.

Section prepare.
Context (select : World → result exn (string * string)) (binding : string → json).
Context (Hselect : ∀ w, entry Source (t_journal T) w = Some (t_file T) →
           select w = Ok (t_journal T, raw (t_snapshot T))).
Context (Hbinding : binding (t_journal T) = t_binding T).

Lemma spec_prepare :
  spec (λ d, st unprepared d ∧ held d = false)
    (prepare_fault (t_source T) (t_quarantine T) (t_max T) select binding)
    (λ p d, p = prepared_fault ∧ settled prepared d ∧ held d = false).
Proof.
  pose proof unprepared_lawful as Ha. unfold prepare_fault.
  assert (∀ d, settled unprepared d → D d) as HD by (intros d; by apply settled_recoverable).
  eapply spec_value; [by apply spec_acquire|].
  eapply spec_finally with (Q := λ p d, p = prepared_fault ∧ settled prepared d).
  - eapply spec_value with (a := mkReconciliation [] []) (R := settled unprepared).
    { unfold reconcile_quarantine_transactions, with_lease.
      eapply spec_then; [|by apply (spec_reconcile_locked unprepared true)].
      apply spec_require_lease. intros d [Hst _]. by exists unprepared. }
    eapply spec_value with (a := (t_journal T, raw (t_snapshot T))) (R := settled unprepared).
    { apply spec_read; [done|]. intros w _ Hw. rewrite Hselect; [eauto|].
      rewrite entry_look. by destruct Hw as [[] _]. }
    eapply spec_value; [by apply (spec_snapshot unprepared Source)|].
    eapply spec_then; [apply spec_pass; cbn; by rewrite bool_decide_true|].
    cbn [fst]. cbv zeta. rewrite Hbinding, (ok_id _ H).
    pose proof (spec_write_record _ prepared intent _ publish_intent) as Hwrite.
    eapply spec_value; [apply Hwrite|].
    by apply spec_ret.
  - intros p. apply spec_set_locked. intros d [-> Hd]. split; [done|].
    split; [by apply settled_hold|done].
Qed.
End prepare.

Lemma spec_absent_stage a s e :
  lawful a → (∀ d, settled a d → look Quarantine (t_name T s) d = None) →
  spec (settled a) (absent Quarantine (t_quarantine T) (t_id T) s e) (λ _, settled a).
Proof.
  intros Ha Hs. unfold absent, read_quarantine_record.
  assert (∀ d, settled a d → D d) as HD by (intros d; by apply settled_recoverable).
  eapply spec_value with (a := None) (R := settled a); [|by apply spec_pass].
  eapply spec_then; [by apply (spec_open_root _ Quarantine)|].
  rewrite record_name_Ok by apply (ok_hex _ H).
  eapply spec_value; [by apply spec_lift_value|]. by apply spec_record_None.
Qed.

Lemma spec_unchanged :
  spec (settled prepared)
    (unchanged_since_prepare (t_source T) (t_quarantine T) (t_max T) prepared_fault)
    (λ _, settled prepared).
Proof.
  pose proof prepared_lawful as Ha. unfold unchanged_since_prepare, prepared_fault.
  cbn [pf_transaction pf_snapshot]. change (journal (t_snapshot T)) with (t_journal T).
  eapply spec_then; [apply spec_absent_stage; [done|]; intros d [[] _]; done|].
  eapply spec_then; [apply spec_absent_stage; [done|]; intros d [[] _]; done|].
  eapply spec_then; [apply spec_absent_stage; [done|]; intros d [[] _]; done|].
  eapply spec_then; [apply spec_absent_stage; [done|]; intros d [[] _]; done|].
  eapply spec_value; [by apply (spec_snapshot prepared Source)|].
  apply spec_pass. by rewrite bool_decide_true.
Qed.

Lemma spec_commit evidence :
  (∀ w, evidence w = Ok ()) →
  spec (λ d, settled prepared d ∧ held d = false)
    (commit_fault (t_source T) (t_quarantine T) (t_max T) prepared_fault false evidence)
    (λ _ d, settled committed d ∧ held d = false).
Proof.
  intros Hev. pose proof prepared_lawful as Ha. unfold commit_fault.
  set (fenced := with_fence true prepared). set (withheld := moved_to Quarantine fenced).
  assert (lawful fenced ∧ lawful withheld ∧ lawful committed) as (Hf & Hw & Hc) by done.
  eapply spec_then; [by apply spec_pass|].
  eapply spec_value; [by apply spec_acquire_settled|].
  eapply spec_finally with (Q := λ _, settled committed).
  - eapply spec_value with (R := settled fenced).
    { apply spec_catch_all. eapply spec_then.
      - eapply spec_conseq; [apply spec_unchanged|by intros d [Hd _]|done].
      - apply (spec_install_fence prepared fenced). by apply publish_fence. }
    eapply spec_value with (R := settled withheld).
    { apply spec_catch_all. by apply (spec_quarantine_journal fenced Source). }
    eapply spec_value with (R := settled committed).
    { apply spec_catch_all. eapply spec_then.
      - apply spec_pass. cbn [prepared_fault pf_snapshot]. by rewrite bool_decide_true.
      - apply (spec_write_record withheld committed applied). by apply publish_applied. }
    apply spec_catch_all, spec_read; [intros d; by apply settled_recoverable|].
    intros w _ Hd. rewrite Hev. eauto.
  - intros u. apply spec_set_locked. intros d Hd. split; [by apply settled_hold|done].
Qed.

(** *** Finalize *)

Section finalize.
Context (receipt : string) (identity : json).
Context (Hreceipt : _is_digest (JStr receipt) = true).
Context (Hidentity : _valid_process_identity identity = true).
Context (Hfits : fits (t_finalized T (receipt, identity))).

Definition concluded : Abs := mkAbs true Quarantine true true None (Some (receipt, identity)).

Lemma committed_lawful : lawful committed.
Proof. by split_and!. Qed.
Lemma concluded_lawful : lawful concluded.
Proof. by split_and!. Qed.

Lemma publish_finalized :
  publishes committed concluded Quarantine (t_name T finalized) (t_finalized T (receipt, identity)).
Proof.
  split; try done.
  - intros d Hst. exact (st_finalized _ _ _ Hst).
  - intros d f Hst Hp Hv.
    destruct (only_record finalized d _ (only_insert _ _ f d)) as (Hrec & Hj & Hfe).
    destruct Hst as [Hi Ha0 Hfin Hb Hr Hfence Hh Ht Htidy] eqn:E. clear E. split.
    + by eapply slot_frame; [apply Hrec|].
    + by eapply slot_frame; [apply Hrec|].
    + by apply holds_insert.
    + by rewrite Hrec.
    + by eapply slot_frame; [apply Hrec|].
    + by eapply slot_frame; [exact Hfe|].
    + by rewrite Hj.
    + by rewrite Hj.
    + intros r n g. apply (tidy_insert committed); [by split|by apply tidy_record].
  - intros d Hst. exact (st_finalized _ _ _ Hst).
Qed.

Lemma spec_read_stage a s v :
  lawful a → fits v → (∀ d, settled a d → holds Quarantine (t_name T s) v d) →
  spec (settled a) (read_stage Quarantine (t_quarantine T) (t_id T) s)
    (λ r d, r = record (t_name T s) v ∧ settled a d).
Proof.
  intros Ha Hfit Hv. unfold read_stage, read_quarantine_record.
  assert (∀ d, settled a d → D d) as HD by (intros d; by apply settled_recoverable).
  eapply spec_value with (a := Some (record (t_name T s) v)); [|by apply spec_ret].
  eapply spec_then; [by apply (spec_open_root _ Quarantine)|].
  rewrite record_name_Ok by apply (ok_hex _ H).
  eapply spec_value; [by apply spec_lift_value|]. by apply spec_record_Some.
Qed.

Lemma retained_request :
  let m := Z.max (Z.of_nat (String.length (raw (t_snapshot T)))) 1 in
  bad_request (t_journal T) m = false ∧ oversized (raw (t_snapshot T)) m = false.
Proof.
  destruct (ok_journal _ H) as (Hj & Hp & _). unfold bad_request, oversized, is_journal in *.
  rewrite Hj, Hp. simpl. split; [apply Z.leb_gt|apply Z.ltb_ge]; lia.
Qed.

Lemma spec_finalize_locked :
  spec (settled committed)
    (_finalize_quarantine_transaction_locked Quarantine (t_quarantine T) (t_id T) Source
       (t_source T) (digest_of (t_applied T)) receipt identity)
    (λ r d, r = record (t_name T finalized) (t_finalized T (receipt, identity)) ∧
            settled concluded d).
Proof.
  pose proof committed_lawful as Ha. unfold _finalize_quarantine_transaction_locked. cbv zeta.
  assert (∀ d, settled committed d → D d) as HD by (intros d; by apply settled_recoverable).
  destruct (ok_journal _ H) as (Hj & Hp & _). destruct retained_request as [Hreq Hover].
  eapply spec_value.
  { apply spec_read_stage; [done|exact fits_intent|]. intros d [Hst _]. exact (st_intent _ _ _ Hst). }
  eapply spec_value.
  { apply spec_read_stage; [done|exact fits_applied|]. intros d [Hst _]. exact (st_applied _ _ _ Hst). }
  eapply spec_value.
  { apply spec_lift_value. apply intent_reads_back; try done; [apply (ok_hex _ H)|apply (ok_id _ H)| |].
    - apply (ok_device _ H).
    - apply (ok_inode _ H). }
  eapply spec_then.
  { eapply (spec_lift _ _ (settled committed)); [|intros d Hd; exact Hd].
    exact (applied_reads_back (t_id T) (ok_hex _ H) intent_record (t_snapshot T)). }
  eapply spec_then.
  { apply spec_pass. change (value (record ?n ?v)) with v. unfold t_intent.
    rewrite directories_read_back, Hreceipt, Hidentity. by rewrite bool_decide_true. }
  eapply spec_then; [apply spec_absent_stage; [done|]; intros d [[] _]; done|].
  eapply spec_then; [apply spec_absent_stage; [done|]; intros d [[] _]; done|].
  change (journal (t_snapshot T)) with (t_journal T).
  eapply spec_value; [by apply spec_sink_error, (spec_snapshot_within committed Quarantine)|].
  eapply spec_then; [apply spec_pass; by rewrite bool_decide_true|].
  eapply spec_then; [by apply (spec_open_root _ Source)|].
  eapply spec_value; [by apply spec_read_fence|].
  eapply spec_value; [by apply (spec_exists_no committed Source)|].
  eapply spec_then; [by apply spec_ret; intros d Hd; exact Hd|].
  exact (spec_write_record committed concluded finalized _ publish_finalized).
Qed.

Lemma spec_finalize :
  spec (λ d, settled committed d ∧ held d = false)
    (finalize_quarantine_transaction Quarantine (t_quarantine T) (t_id T) Source (t_source T)
       (digest_of (t_applied T)) receipt identity None)
    (λ r d, r = record (t_name T finalized) (t_finalized T (receipt, identity)) ∧
            settled concluded d ∧ held d = false).
Proof.
  unfold finalize_quarantine_transaction, with_lease. pose proof committed_lawful as Ha.
  eapply spec_value; [by apply spec_acquire_settled|].
  eapply spec_finally.
  - eapply spec_then; [|apply spec_finalize_locked].
    eapply spec_conseq; [apply (spec_require_lease (settled committed))| |done].
    + intros d. by apply settled_recoverable.
    + by intros d [Hd _].
  - intros x. apply spec_set_locked. intros d [-> Hd]. split; [done|].
    split; [by apply settled_hold|done].
Qed.
End finalize.
End operations.


Arguments reconciled : clear implicits.
Arguments prepared_fault : clear implicits.
