(* ===== verification/QuarantineTheorems.v ===== *)
(** * What the quarantine guarantees

    A history is a list of processes, each with its call, its pid, the outcomes of its
    system calls and whether another process holds the source lock; [run] carries the
    two directories from one to the next.  Theorems about every history come first,
    then what each call does. *)

From S2P Require Import Prelude PyStd HostEventSink QuarantineTransaction QuarantineInvariants QuarantineRecords.
From S2P Require EcpaModel.
From Stdlib Require Import Permutation.

Local Open Scope string_scope.
Local Open Scope list_scope.

(** ** Histories *)

Inductive Call : Type :=
  | Prepare (source_identity quarantine_identity : Z * Z) (max_bytes : Z)
      (select : World → result exn (string * string)) (binding : string → json)
  | Commit (source_identity quarantine_identity : Z * Z) (max_bytes : Z) (p : PreparedFault)
      (settled : bool) (evidence : World → result exn ())
  | Reconcile (source_identity quarantine_identity : Z * Z) (max_bytes : Z)
  | Finalize (source_identity quarantine_identity : Z * Z)
      (transaction_id applied_digest fact_receipt_sha256 : string) (process_identity : json)
  | Append (fsync name raw : string).

Record Process : Type := mkProcess {
  p_call : Call; p_pid : Z; p_script : list outcome; p_locked : bool;
}.

Section histories.
Context {K : Kernel}.

Definition call (c : Call) : op () :=
  match c with
  | Prepare s q b select binding => _ ← prepare_fault s q b select binding; mret ()
  | Commit s q b p settled evidence => commit_fault s q b p settled evidence
  | Reconcile s q b => _ ← reconcile_quarantine_transactions Source Quarantine s q b None; mret ()
  | Finalize s q t a f i =>
      _ ← finalize_quarantine_transaction Quarantine q t Source s a f i None; mret ()
  | Append f n s => append_event f n s
  end.

(** The world a new process finds. *)
Definition enter (p : Process) (w : World) : World :=
  mkWorld (source w) (quarantine w) (p_locked p) (p_script p) (p_pid p) (tokens w) (inodes w).

Definition turn (w : World) (p : Process) : World := (call (p_call p) (enter p w)).2.
Definition run (ps : list Process) (w : World) : World := foldl turn w ps.

Lemma respects_run (R : relation World) `{!PreOrder R} ps w :
  (∀ w w', source w' = source w → quarantine w' = quarantine w → R w w') →
  (∀ p, p ∈ ps → respects R (call (p_call p))) → R w (run ps w).
Proof.
  intros HR. revert w. induction ps as [|p ps IH]; intros w Hc; simpl; [reflexivity|].
  transitivity (turn w p); [|apply IH; intros; apply Hc; by right].
  transitivity (enter p w); [by apply HR|]. apply Hc. by left.
Qed.

Definition appends (c : Call) : option string :=
  match c with Append _ n _ => Some n | _ => None end.

Lemma calm_call c : appends c = None → respects steady (call c).
Proof.
  destruct c; intros; try done; unfold call;
    try (apply (respects_bind steady); [|intros; apply (respects_ret steady)]).
  - apply calm_prepare.
  - apply calm_commit.
  - apply calm_reconcile.
  - apply calm_finalize.
Qed.

Lemma adds_call c : appends c ≠ None → respects grown (call c).
Proof. destruct c; intros; try done. apply adds_event. Qed.

(** *** Journals are kept and only grow *)

(** Each copy of a journal has its own extension later. *)
Definition kept (n : string) (w w' : World) : Prop :=
  ∃ l, l ⊆+ copies n w' ∧ Forall2 extends (copies n w) l.

#[export] Instance kept_preorder n : PreOrder (kept n).
Proof.
  split.
  - intros w. exists (copies n w). split; [done|]. reflexivity.
  - intros w1 w2 w3 (l1 & [k Hk]%submseteq_Permutation & H1) (l2 & Hl2 & H2).
    destruct (Permutation_Forall2 Hk H2) as (l2' & Hp & H2').
    apply Forall2_app_inv_l in H2' as (l & l' & Hl & _ & ->).
    exists l. split.
    + etrans; [|exact Hl2]. rewrite Hp. by apply submseteq_inserts_r.
    + by etrans.
Qed.

Lemma steady_kept n w w' : is_journal n = true → steady w w' → kept n w w'.
Proof.
  intros Hn Hs. exists (copies n w). split.
  - by rewrite (st_journals _ _ Hs n Hn).
  - reflexivity.
Qed.

Lemma grown_kept n w w' : grown w w' → kept n w w'.
Proof.
  intros [Hq Hs]. unfold kept, copies. rewrite Hq.
  destruct (entry Source n w) as [f|] eqn:E; simpl.
  - destruct (Hs n f E) as (f' & -> & He). exists (f' :: option_list (entry Quarantine n w)).
    split; [done|]. constructor; [done|]. reflexivity.
  - exists (option_list (entry Quarantine n w)). split; [by apply submseteq_inserts_l|].
    reflexivity.
Qed.

(** An append leaves the other journals alone. *)
Definition untouched (n : string) (w w' : World) : Prop := copies n w' = copies n w.

#[local] Instance untouched_preorder n : PreOrder (untouched n).
Proof. split; [done|]. unfold untouched. intros w1 w2 w3. congruence. Qed.

Lemma untouched_files n w w' :
  source w' = source w → quarantine w' = quarantine w → untouched n w w'.
Proof. intros Hs Hq. unfold untouched, copies, entry, dir. by rewrite Hs, Hq. Qed.

Lemma untouched_set n m (f : gmap string File → gmap string File) w :
  m ≠ n → (∀ d, f d !! n = d !! n) → untouched n w (set_files Source f w).
Proof. intros Hm Hf. unfold untouched, copies, entry, dir. simpl. by rewrite Hf. Qed.

Lemma untouched_append n f m s :
  is_journal n = true → m ≠ n → respects (untouched n) (append_event f m s).
Proof.
  intros Hj Hm. pose proof (untouched_files n) as Hfiles.
  assert (QUARANTINE_LOCK ≠ n) as Hlock by (by intros <-).
  unfold append_event, _acquire_quarantine_lock, os_open, os_stat, os_fstat, os_fsync, sys_nop,
    append_bytes.
  repeat (cbv beta zeta; first
    [apply (respects_read _ Hfiles) | progress respect_one (untouched n)]);
    try (apply (respects_syscall _ Hfiles); intros limit w; simpl).
  - destruct (entry Source QUARANTINE_LOCK w); [reflexivity|]. simpl.
    etrans; [apply (untouched_set n QUARANTINE_LOCK); [done|]|by apply Hfiles].
    intros d. by apply lookup_insert_ne.
  - destruct (entry Source m w); [reflexivity|]. simpl.
    etrans; [apply (untouched_set n m); [done|]|by apply Hfiles].
    intros d. by apply lookup_insert_ne.
  - apply (untouched_set n m); [done|]. intros d. by apply lookup_alter_ne.
  - generalize (String.length s) at 1. intros fuel. generalize (String.length s) as left.
    generalize 0 as done. induction fuel as [|fuel IH]; intros done [|left]; simpl;
      repeat respect_one (untouched n); [|apply IH].
    apply (respects_syscall _ Hfiles). intros limit w. simpl.
    apply (untouched_set n m); [done|]. intros d. by apply lookup_alter_ne.
Qed.

Lemma quiet_call n c :
  is_journal n = true → appends c ≠ Some n → respects (λ w w', copies n w' ≡ₚ copies n w) (call c).
Proof.
  intros Hn Hc w. destruct (appends c) as [m|] eqn:E.
  - destruct c as [| | | |f k s]; try done. injection E as ->.
    assert (m ≠ n) as Hm by congruence.
    change (copies n (append_event f m s w).2 ≡ₚ copies n w).
    by rewrite (untouched_append n f m s Hn Hm w).
  - by apply (st_journals _ _ (calm_call c E w)).
Qed.

(** C8: In every history of prepare, commit, reconcile, finalize and append calls, each
    under any pid, lock and outcomes of its system calls (errors, short writes, a kill
    anywhere), every copy of a journal in the two directories survives with its inode,
    its bytes only extended, and no copy stands for two; a history without appends to
    that journal only moves it. *)
Theorem evidence_conserved ps w n :
  is_journal n = true →
  kept n w (run ps w) ∧
  (Forall (λ p, appends (p_call p) ≠ Some n) ps → copies n (run ps w) ≡ₚ copies n w).
Proof.
  intros Hn. split.
  - apply (respects_run (kept n)).
    + intros. apply steady_kept; [done|]. by apply steady_files.
    + intros p _ v. destruct (appends (p_call p)) eqn:E.
      * apply grown_kept, adds_call. congruence.
      * apply steady_kept; [done|]. by apply calm_call.
  - intros Hps. assert (PreOrder (λ v v', copies n v' ≡ₚ copies n v)) as HR.
    { split; [intros x; reflexivity|]. intros x y z Hxy Hyz. by rewrite Hyz, Hxy. }
    apply (respects_run (λ v v', copies n v' ≡ₚ copies n v)).
    + intros v v' Hs Hq. unfold copies, entry, dir. by rewrite Hs, Hq.
    + intros p Hp. apply quiet_call; [done|]. by apply (proj1 (Forall_forall _ _) Hps).
Qed.

Definition holds_record (n : string) (w w' : World) : Prop :=
  ∀ f, entry Quarantine n w = Some f → entry Quarantine n w' = Some f.

#[local] Instance holds_record_preorder n : PreOrder (holds_record n).
Proof. split; unfold holds_record; [by intros v f|intros w1 w2 w3; eauto]. Qed.

(** A transaction record in the quarantine directory is the same file with the same
    bytes after every history of calls, however each of them ends. *)
Theorem published_records_immutable ps w n f :
  is_record n = true → entry Quarantine n w = Some f → entry Quarantine n (run ps w) = Some f.
Proof.
  intros Hn. revert f. change (holds_record n w (run ps w)). apply respects_run; [apply _|..].
  - intros v v' _ Hq f. unfold entry, dir. by rewrite Hq.
  - intros p _ v f Hf. destruct (appends (p_call p)) eqn:E.
    + rewrite (gr_quarantine _ _ (adds_call (p_call p) ltac:(congruence) v)). done.
    + by apply (st_records _ _ (calm_call _ E v)).
Qed.
End histories.

(** ** Single calls, under any outcomes of their system calls

    [hoare P m Q E] is about the two directories: from [P], [m] returns [a] in [Q a] or
    raises [e] in [E e]. *)

Definition Dirs : Type := Directory * Directory.
Definition dirs (w : World) : Dirs := (source w, quarantine w).
Definition at_root (r : Root) (d : Dirs) : Directory :=
  match r with Source => d.1 | Quarantine => d.2 end.
Definition change (r : Root) (f : gmap string File → gmap string File) (d : Dirs) : Dirs :=
  match r with
  | Source => (with_files (f (files d.1)) d.1, d.2)
  | Quarantine => (d.1, with_files (f (files d.2)) d.2)
  end.

Lemma dir_dirs r w : dir r w = at_root r (dirs w).
Proof. by destruct r. Qed.
Lemma dirs_set_files r f w : dirs (set_files r f w) = change r f (dirs w).
Proof. by destruct r. Qed.

Section hoare.
Context (E : exn → Dirs → Prop).

Definition hoare {A} (P : Dirs → Prop) (m : op A) (Q : A → Dirs → Prop) : Prop :=
  ∀ w, P (dirs w) →
  match m w with (Ok a, w') => Q a (dirs w') | (Raise e, w') => E e (dirs w') end.

Lemma hoare_bind {A B} P (m : op A) (f : A → op B) R Q :
  hoare P m R → (∀ a, hoare (R a) (f a) Q) → hoare P (m ≫= f) Q.
Proof.
  intros Hm Hf w Hw. specialize (Hm w Hw). unfold mbind, method_bind.
  destruct (m w) as [[a|e] w']; [by apply Hf|done].
Qed.

Lemma hoare_fact {A} (P : Dirs → Prop) (φ : Prop) (m : op A) Q :
  (φ → hoare P m Q) → hoare (λ d, φ ∧ P d) m Q.
Proof. intros H w [Hφ HP]. by apply H. Qed.

Lemma hoare_weaken {A} P (m : op A) (Q Q' : A → Dirs → Prop) :
  hoare P m Q' → (∀ a d, Q' a d → Q a d) → hoare P m Q.
Proof. intros Hm HQ w Hw. specialize (Hm w Hw). destruct (m w) as [[a|e] w']; auto. Qed.

Lemma hoare_ret {A} P (a : A) (Q : A → Dirs → Prop) : (∀ d, P d → Q a d) → hoare P (mret a) Q.
Proof. intros HQ w Hw. by apply HQ. Qed.

Lemma hoare_raise {A} P e (Q : A → Dirs → Prop) : (∀ d, P d → E e d) → hoare P (raise e) Q.
Proof. intros HE w Hw. by apply HE. Qed.

Lemma hoare_guard P b e : (∀ d, P d → E e d) → hoare P (guard_raise b e) (λ _ d, b = false ∧ P d).
Proof. intros HE w Hw. destruct b; [by apply HE|by split]. Qed.

Lemma hoare_get {B} P (f : World → op B) Q :
  (∀ w, P (dirs w) → hoare P (f w) Q) → hoare P (get ≫= f) Q.
Proof. intros Hf w Hw. unfold mbind, method_bind, get. by apply Hf. Qed.

Lemma hoare_syscall {A} (f : option nat → World → result exn A * World) P Q :
  (∀ d, P d → E OSError d ∧ E Killed d) →
  (∀ limit w, P (dirs w) →
     match f limit w with (Ok a, w') => Q a (dirs w') | (Raise e, w') => E e (dirs w') end) →
  hoare P (syscall f) Q.
Proof.
  intros HE Hf w Hw. destruct (HE _ Hw). unfold syscall.
  destruct (script w) as [|[] s]; simpl; auto; [by apply Hf|..]; by apply (Hf _ (set_script s w)).
Qed.

Lemma hoare_read {A} (f : World → result exn A) P Q :
  (∀ d, P d → E OSError d ∧ E Killed d) →
  (∀ w, P (dirs w) →
     match f w with Ok a => Q a (dirs w) | Raise e => E e (dirs w) end) →
  hoare P (sys_read f) Q.
Proof.
  intros HE Hf. apply hoare_syscall; [done|]. intros _ w Hw. specialize (Hf w Hw).
  by destruct (f w).
Qed.
End hoare.

Lemma hoare_catch {A} E E' P (m : op A) h Q :
  hoare E' P m Q → (∀ e, hoare E (E' e) (h e) Q) → hoare E P (catch m h) Q.
Proof.
  intros Hm Hh w Hw. specialize (Hm w Hw). unfold catch.
  destruct (m w) as [[a|e] w']; [done|by apply Hh].
Qed.

Lemma hoare_os_error {A} E P e (m : op A) Q :
  hoare (λ e' d, if is_os_error e' then E e d else E e' d) P m Q → hoare E P (os_error_as e m) Q.
Proof.
  intros Hm. eapply hoare_catch; [exact Hm|]. intros e'. cbv beta.
  destruct (is_os_error e'); apply hoare_raise; auto.
Qed.

Lemma hoare_raises {A} (E E' : exn → Dirs → Prop) P (m : op A) Q :
  hoare E' P m Q → (∀ e d, E' e d → E e d) → hoare E P m Q.
Proof. intros Hm HE w Hw. specialize (Hm w Hw). destruct (m w) as [[a|e] w']; auto. Qed.

Lemma hoare_try {A} (E E' : exn → Dirs → Prop) P (m : op A) (Q : result exn A → Dirs → Prop) :
  hoare E' P m (λ a, Q (Ok a)) → (∀ d, E' Killed d → E Killed d) →
  (∀ e d, e ≠ Killed → E' e d → Q (Raise e) d) → hoare E P (try_op m) Q.
Proof.
  intros Hm HK HE w Hw. specialize (Hm w Hw).
  unfold try_op, catch_all, catch, mbind, method_bind, mret, method_ret.
  destruct (m w) as [[a|e] w']; [done|]. case_decide; subst; simpl; auto.
Qed.

Definition same_dirs (w w' : World) : Prop := dirs w' = dirs w.

#[export] Instance same_dirs_preorder : PreOrder same_dirs.
Proof. split; [done|]. unfold same_dirs. intros w1 w2 w3. congruence. Qed.

Lemma same_dirs_files w w' : source w' = source w → quarantine w' = quarantine w → same_dirs w w'.
Proof. unfold same_dirs, dirs. congruence. Qed.

Lemma hoare_keeps {A} (E : exn → Dirs → Prop) P (m : op A) :
  respects same_dirs m → (∀ e d, P d → E e d) → hoare E P m (λ _, P).
Proof.
  intros Hm HE w Hw. specialize (Hm w). unfold same_dirs in Hm.
  destruct (m w) as [[a|e] w']; simpl in Hm; rewrite Hm; auto.
Qed.

Lemma same_read {A} (f : World → result exn A) : respects same_dirs (sys_read f).
Proof. apply (respects_read same_dirs same_dirs_files). Qed.

(** The steps that only look. *)
Ltac looks :=
  unfold check_moved, undo_move, snapshot_journal, _open_journal_root, os_stat, os_open, os_fstat,
    os_read, os_fsync, sys_nop in *;
  repeat (cbv beta zeta; first [apply same_read | progress respect_one same_dirs]).

(** *** A journal is moved whole, or where it was *)

Section move.
Context {K : Kernel} (root target : Root) (n : string) (d0 : Dirs) (f : File).
Context (Hr : root ≠ target).

Definition moved : Dirs := change target (insert n f) (change root (delete n) d0).

Definition undo_failures : list exn :=
  HostEventSinkError <$>
    ["journal quarantine failed and rollback failed";
     "journal quarantine failed and rollback target is unsafe";
     "journal quarantine failed and rollback target exists"].

Definition back_or_told (e : exn) (d : Dirs) : Prop :=
  e = Killed ∨ e ∈ undo_failures ∨ d = d0.

Lemma moved_files :
  files (at_root target moved) !! n = Some f ∧ files (at_root root moved) !! n = None.
Proof.
  unfold moved. destruct root, target; try done; simpl;
    (split; [apply lookup_insert_eq|apply lookup_delete_eq]).
Qed.

Lemma moved_back :
  files (at_root root d0) !! n = Some f → files (at_root target d0) !! n = None →
  change root (insert n f) (change target (delete n) moved) = d0.
Proof.
  intros Hf Hn. unfold moved. destruct d0 as [[] []], root, target; try done; simpl in *;
    unfold with_files; simpl; f_equal; f_equal;
    rewrite ?delete_insert_id, ?insert_delete_id by done; done.
Qed.

Notation fails := back_or_told.
Notation looked := (λ d, d = d0).

Lemma fails_look e d : looked d → fails e d.
Proof. right. by right. Qed.

Lemma hoare_look {A} (m : op A) : respects same_dirs m → hoare fails looked m (λ _, looked).
Proof. intros Hm. apply hoare_keeps; [done|apply fails_look]. Qed.

Lemma hoare_look_then {A B} (m : op A) (k : A → op B) Q :
  respects same_dirs m → (∀ a, hoare fails looked (k a) Q) → hoare fails looked (m ≫= k) Q.
Proof. intros Hm Hk. eapply hoare_bind; [by apply hoare_look|exact Hk]. Qed.

Lemma hoare_os_fails {A} P e (m : op A) Q :
  hoare fails P m Q → hoare fails P (os_error_as e m) Q.
Proof.
  intros Hm. apply hoare_os_error. eapply hoare_raises; [exact Hm|]. intros e' d He. cbv beta.
  destruct (is_os_error e') eqn:E; [|done].
  destruct He as [->|[He|He]]; [done| |by apply fails_look].
  apply list_elem_of_fmap in He as (x & -> & _). done.
Qed.

Lemma hoare_open :
  hoare fails looked (os_open root n) (λ g d, files (at_root root d0) !! n = Some g ∧ d = d0).
Proof.
  apply hoare_read; [intros d ->; split; by apply fails_look|].
  intros w Hw. unfold entry. rewrite dir_dirs, Hw.
  destruct (files (at_root root d0) !! n); [|by apply fails_look].
  case_decide; [by apply fails_look|done].
Qed.

Lemma hoare_move :
  files (at_root root d0) !! n = Some f →
  hoare fails looked (_rename_noreplace root n target n)
    (λ _ d, files (at_root target d0) !! n = None ∧ d = moved).
Proof.
  intros Hf. apply hoare_syscall; [intros d ->; split; by apply fails_look|].
  intros _ w Hw. unfold entry. rewrite !dir_dirs, Hw, Hf.
  destruct (files (at_root target d0) !! n) eqn:E; [by apply fails_look|].
  case_decide; [|by apply fails_look]. split; [done|].
  by rewrite !dirs_set_files, Hw.
Qed.

(** The rollback: the journal is back, or the error says that it may not be. *)
Definition os_or_killed (e : exn) (_ : Dirs) : Prop := e = Killed ∨ is_os_error e = true.

Lemma hoare_rename_back :
  files (at_root root d0) !! n = Some f → files (at_root target d0) !! n = None →
  hoare os_or_killed (λ d, d = moved) (_rename_noreplace target n root n) (λ _, looked).
Proof.
  intros Hf Hn. apply hoare_syscall; [by split; [right|left]|].
  intros _ w Hw. unfold entry. destruct moved_files as [Hto Hfrom].
  rewrite !dir_dirs, Hw, Hto, Hfrom. case_decide; [|by right].
  rewrite !dirs_set_files, Hw. by apply moved_back.
Qed.

Lemma hoare_undo e :
  files (at_root root d0) !! n = Some f → files (at_root target d0) !! n = None →
  hoare fails (λ d, d = moved) (undo_move root target n e) (λ _ _, False).
Proof.
  intros Hf Hn. unfold undo_move.
  assert (∀ e, e ∈ undo_failures → hoare fails (λ d, d = moved) (raise e : op ()) (λ _ _, False))
    as Hfail by (intros; apply hoare_raise; intros; right; by left).
  eapply hoare_bind with
    (R := λ x d, match x with Raise e => is_os_error e = true | _ => True end ∧ d = moved).
  { eapply hoare_try with (E' := λ e d, (e ≠ Killed → is_os_error e = true) ∧ d = moved).
    - apply hoare_read; [done|]. intros v Hv. by destruct (entry root n v).
    - by left.
    - naive_solver. }
  intros [g|g]; apply hoare_fact; intros Hg; [apply Hfail; in_list|].
  assert (hoare fails (λ d, d = moved)
            (_ ← os_error_as (HostEventSinkError "journal quarantine failed and rollback failed") (
                   _ ← _rename_noreplace target n root n; _ ← os_fsync root; os_fsync target);
             raise e : op ()) (λ _ _, False)) as Hback.
  { eapply hoare_bind with (R := λ _, looked); [|intros _; apply hoare_raise, fails_look].
    apply (hoare_catch _ os_or_killed).
    - eapply hoare_bind with (R := λ _, looked); [by apply hoare_rename_back|intros _].
      assert (hoare os_or_killed looked sys_nop (λ _, looked)) as Hnop
        by (apply hoare_read; [by split; [right|left]|intros v Hv; exact Hv]).
      eapply hoare_bind with (R := λ _, looked); [exact Hnop|intros _; exact Hnop].
    - intros e'. destruct (is_os_error e') eqn:E; apply hoare_raise.
      + intros d _. right. left. in_list.
      + intros d [He|He]; [by left|congruence]. }
  destruct g; try done; simpl; rewrite ?Hg; apply Hfail; in_list.
Qed.
End move.

Lemma hoare_quarantine {K : Kernel} root target n i i' b expected d0 :
  root ≠ target →
  hoare (back_or_told d0) (λ d, d = d0) (quarantine_journal root target n i i' b expected)
    (λ q d, ∃ f, files (at_root root d0) !! n = Some f ∧ files (at_root target d0) !! n = None ∧
       q = mkJournal n (bytes_of (f_content f)) (d_device (at_root root d0)) (f_inode f) ∧
       d = moved root target n d0 f).
Proof.
  intros Hr. unfold quarantine_journal.
  do 6 (apply hoare_look_then; [looks|intros _]).
  apply hoare_get. intros w Hw. cbv zeta.
  apply hoare_look_then; [looks|intros _].
  apply hoare_look_then; [looks|intros present].
  apply hoare_look_then; [looks|intros _].
  eapply hoare_bind; [apply hoare_os_fails, hoare_open|].
  intros f. apply hoare_fact. intros Hf. unfold os_fstat.
  eapply hoare_bind with (R := λ g d, g = f ∧ d = d0).
  { apply hoare_read; [intros d ->; split; by apply fails_look|done]. }
  intros g. apply hoare_fact. intros ->.
  apply hoare_look_then; [looks|intros _].
  eapply hoare_bind with (R := λ s d, s = bytes_of (f_content f) ∧ d = d0).
  { apply hoare_read; [intros d ->; split; by apply fails_look|done]. }
  intros s. apply hoare_fact. intros ->.
  do 3 (apply hoare_look_then; [looks|intros _]).
  apply hoare_look_then; [looks|intros current].
  apply hoare_look_then; [looks|intros _].
  eapply hoare_bind; [by apply hoare_os_fails, hoare_move|].
  intros u. apply hoare_fact. intros Hn.
  eapply hoare_bind with (R := λ _ d, d = moved root target n d0 f);
    [|intros _; apply hoare_ret; intros d ->; exists f; by rewrite dir_dirs, Hw].
  apply (hoare_catch _ (λ _ d, d = moved root target n d0 f)).
  - apply hoare_keeps; [looks|done].
  - intros e. case_decide as He.
    + subst. apply hoare_raise. by left.
    + eapply hoare_weaken; [by apply hoare_undo|done].
Qed.

(** Under any outcomes of the system calls, quarantine_journal between two directories
    either returns, having moved exactly that journal with the inode, device and bytes
    its receipt states, or raises with every entry of both directories as it was, unless
    the process was killed or the error is one of the three that report a failed
    rollback. *)
Theorem journal_moved_or_put_back {K : Kernel} root target n i i' b expected w :
  root ≠ target →
  match quarantine_journal root target n i i' b expected w with
  | (Ok q, w') => ∃ f,
      entry root n w = Some f ∧ entry target n w = None ∧
      q = mkJournal n (bytes_of (f_content f)) (d_device (dir root w)) (f_inode f) ∧
      entry root n w' = None ∧ entry target n w' = Some f ∧
      ∀ r k, k ≠ n → entry r k w' = entry r k w
  | (Raise e, w') => e = Killed ∨ e ∈ undo_failures ∨ ∀ r k, entry r k w' = entry r k w
  end.
Proof.
  intros Hr. pose proof (hoare_quarantine root target n i i' b expected (dirs w) Hr w eq_refl) as H.
  assert (∀ r k v, entry r k v = files (at_root r (dirs v)) !! k) as Hentry
    by (intros; unfold entry; by rewrite dir_dirs).
  destruct (quarantine_journal root target n i i' b expected w) as [[q|e] w'].
  - destruct H as (f & Hf & Hn & -> & Hw'). exists f. rewrite !Hentry, Hw', dir_dirs.
    destruct (moved_files root target n (dirs w) f Hr). split_and!; try done.
    intros r k Hk. rewrite !Hentry, Hw'. unfold moved. destruct (dirs w) as [[] []], r, root, target;
      try done; simpl; rewrite ?lookup_insert_ne, ?lookup_delete_ne by done; done.
  - destruct H as [H|[H|H]]; [by left|by right; left|right; right].
    intros r k. by rewrite !Hentry, H.
Qed.

(** *** The writer *)

Section writer.
Context {K : Kernel}.

Lemma hoare_lock (E : exn → Dirs → Prop) (P : Dirs → Prop) exclusive nonblocking :
  (∀ e d, P d → E e d) → (∀ d f, P d → P (change Source (insert QUARANTINE_LOCK f) d)) →
  hoare E P (_acquire_quarantine_lock Source exclusive nonblocking) (λ _, P).
Proof.
  intros HE HP. unfold _acquire_quarantine_lock, os_fstat.
  assert (∀ A (m : op A), respects same_dirs m → hoare E P m (λ _, P)) as Hlook
    by (intros; by apply hoare_keeps).
  eapply hoare_bind with (R := λ _, P).
  { apply hoare_os_error. apply hoare_syscall; [simpl; auto|]. intros _ w Hw.
    destruct (entry Source QUARANTINE_LOCK w) as [f|]; [case_decide; simpl; auto|].
    change (P (dirs (set_files Source
      (insert QUARANTINE_LOCK (mkFile (inode_of (inodes w)) Regular true 384 (Bytes "" false))) w))).
    rewrite dirs_set_files. by apply HP. }
  intros f. apply hoare_bind with (R := λ _, P); [apply Hlook; looks|intros g].
  apply hoare_bind with (R := λ _, P); [apply Hlook; looks|intros _].
  apply hoare_bind with (R := λ _, P); [apply Hlook; looks|intros w].
  apply hoare_bind with (R := λ _, P); [apply Hlook; looks|intros _].
  apply hoare_os_error. apply hoare_syscall; [simpl; auto|]. intros _ v Hv. by destruct exclusive.
Qed.

(** Everything but the lock file is as in [d0]. *)
Definition as_before (d0 d : Dirs) : Prop :=
  ∀ r k, k ≠ QUARANTINE_LOCK → files (at_root r d) !! k = files (at_root r d0) !! k.

Lemma as_before_lock d0 d f :
  as_before d0 d → as_before d0 (change Source (insert QUARANTINE_LOCK f) d).
Proof.
  intros Hd r k Hk. rewrite <-(Hd r k Hk). destruct r; simpl; [|done].
  by apply lookup_insert_ne.
Qed.

Lemma fence_not_lock n : _quarantine_fence_name n ≠ QUARANTINE_LOCK.
Proof.
  intros E. apply (f_equal last_char) in E. revert E. unfold _quarantine_fence_name.
  by rewrite !last_char_app by (try destruct (sha256_hexdigest n); done).
Qed.

(** C10: While a fence for a journal is in the source directory, append_event for it
    never returns normally and changes no entry of either directory but the lock file,
    whatever its system calls do. *)
Theorem fenced_journal_refuses_writes fsync n s w :
  is_Some (entry Source (_quarantine_fence_name n) w) →
  let (r, w') := append_event fsync n s w in
  r ≠ Ok () ∧ ∀ x k, k ≠ QUARANTINE_LOCK → entry x k w' = entry x k w.
Proof.
  intros [f Hf].
  assert (hoare (λ _, as_before (dirs w)) (as_before (dirs w)) (append_event fsync n s)
            (λ _ _, False)) as H.
  { unfold append_event.
    apply hoare_bind with (R := λ _, as_before (dirs w));
      [apply hoare_lock; auto using as_before_lock|intros _].
    apply hoare_bind with (R := λ _, as_before (dirs w));
      [apply hoare_keeps; [looks|done]|intros _].
    apply hoare_bind with (R := λ x d, x ≠ Raise FileNotFoundError ∧ as_before (dirs w) d).
    { apply hoare_try with (E' := λ e d, e ≠ FileNotFoundError ∧ as_before (dirs w) d);
        [|naive_solver..].
      apply hoare_read; [by auto|]. intros v Hv. unfold entry. rewrite dir_dirs, Hv
        by apply fence_not_lock. unfold entry in Hf. rewrite dir_dirs in Hf. by rewrite Hf. }
    intros x. apply hoare_fact. intros Hx.
    apply hoare_bind with (R := λ _ _, False); [|by intros ? ?].
    destruct x as [g|[]]; try done; by apply hoare_raise. }
  specialize (H w ltac:(by intros)).
  destruct (append_event fsync n s w) as [[[]|e] w']; [done|]. split; [done|].
  intros r k Hk. unfold entry. rewrite !dir_dirs. by apply H.
Qed.

(** The bytes of a journal; a file that is not there has none. *)
Definition text (n : string) (d : Dirs) : string :=
  match files d.1 !! n with Some f => bytes_of (f_content f) | None => "" end.

Lemma substring_split a b s :
  String.substring 0 (a + b) s = String.substring 0 a s +:+ String.substring a b s.
Proof.
  revert a. induction s as [|c s IH]; intros [|a]; try (by destruct b).
  change (String c (String.substring 0 (a + b) s) =
          String c (String.substring 0 a s +:+ String.substring a b s)). by rewrite IH.
Qed.

Lemma substring_whole s : String.substring 0 (String.length s) s = s.
Proof. induction s as [|c s IH]; [done|]. simpl. by rewrite IH. Qed.

Section append.
Context (n s t0 : string).

Definition wrote (k : nat) (d : Dirs) : Prop :=
  ∃ f, files d.1 !! n = Some f ∧ bytes_of (f_content f) = t0 +:+ String.substring 0 k s.
Definition wrote_some (d : Dirs) : Prop :=
  ∃ k, (k ≤ String.length s)%nat ∧ text n d = t0 +:+ String.substring 0 k s.

Lemma wrote_wrote_some k d : (k ≤ String.length s)%nat → wrote k d → wrote_some d.
Proof. intros Hk (f & Hf & Ht). exists k. unfold text. by rewrite Hf. Qed.

Lemma hoare_write_loop e fuel done left :
  (left ≤ fuel)%nat → (done + left = String.length s)%nat →
  hoare (λ _, wrote_some) (wrote done)
    (write_loop fuel Source n e (λ done n c, Bytes (bytes_of c +:+ String.substring done n s) false)
       done left)
    (λ _, wrote (String.length s)).
Proof.
  revert done left. induction fuel as [|fuel IH]; intros done [|left] Hf Hd; simpl; try lia.
  1,2: apply hoare_ret; intros d; by replace (String.length s) with done by lia.
  apply hoare_bind with (R := λ k d, (k ≤ S left)%nat ∧ wrote (done + k) d).
  - apply hoare_syscall; [split; (eapply wrote_wrote_some; [|done]; lia)|].
    intros limit w (f & Hw & Ht).
    set (k := match limit with Some n => Nat.min n (S left) | None => S left end).
    assert (k ≤ S left)%nat as Hk by (unfold k; destruct limit; lia).
    split; [exact Hk|]. rewrite dirs_set_files. eexists. split.
    + simpl. rewrite lookup_alter_eq. simpl in Hw. by rewrite Hw.
    + simpl. by rewrite Ht, substring_split, string_app_assoc.
  - intros k. apply hoare_fact. intros Hk.
    apply hoare_bind with (R := λ _ d, (k =? 0)%nat = false ∧ wrote (done + k) d).
    + apply hoare_guard. intros d. apply wrote_wrote_some. lia.
    + intros _. apply hoare_fact. intros H0%Nat.eqb_neq. apply IH; lia.
Qed.
End append.

Lemma hoare_os_const {A} (X P : Dirs → Prop) e (m : op A) Q :
  hoare (λ _, X) P m Q → hoare (λ _, X) P (os_error_as e m) Q.
Proof.
  intros Hm. apply hoare_os_error. eapply hoare_raises; [exact Hm|]. intros e' d He.
  cbv beta in *. by case_match.
Qed.

Section event.
Context (n s t0 : string) (Hn : n ≠ QUARANTINE_LOCK).
Notation triple P m Q := (hoare (λ _, wrote_some n s t0) P m Q).
Notation opened := (wrote n s t0 0).

Lemma substring_nil : String.substring 0 0 s = "".
Proof. by destruct s. Qed.

Lemma text_wrote_some d : text n d = t0 → wrote_some n s t0 d.
Proof. intros <-. exists 0%nat. rewrite substring_nil, string_app_nil_r. by split; [lia|]. Qed.

Lemma opened_wrote_some d : opened d → wrote_some n s t0 d.
Proof. apply wrote_wrote_some. lia. Qed.

Lemma hoare_opened {A} (m : op A) : respects same_dirs m → triple opened m (λ _, opened).
Proof. intros Hm. apply hoare_keeps; [done|]. intros _. apply opened_wrote_some. Qed.

Lemma hoare_unopened {A} (m : op A) :
  respects same_dirs m → triple (λ d, text n d = t0) m (λ _ d, text n d = t0).
Proof. intros Hm. apply hoare_keeps; [done|]. intros _. apply text_wrote_some. Qed.

(** Whether the file was created or was there. *)
Lemma hoare_create_journal :
  triple (λ d, text n d = t0) (try_op (os_create Source n))
    (λ x d, (x = Ok () ∨ x = Raise FileExistsError → opened d) ∧ text n d = t0).
Proof.
  apply hoare_try with (E' := λ e d, (e = FileExistsError → opened d) ∧ text n d = t0);
    [|by intros d [_ H]; apply text_wrote_some|naive_solver].
  apply hoare_syscall; [done|]. intros _ w Hw. unfold wrote, entry. rewrite substring_nil.
  simpl. destruct (files (source w) !! n) as [f|] eqn:E.
  - split; [|done]. intros _. exists f. split; [done|].
    unfold text in Hw. simpl in Hw. by rewrite E, string_app_nil_r in *.
  - assert (t0 = "") as -> by (by rewrite <-Hw; unfold text; simpl; rewrite E).
    unfold text. simpl. rewrite lookup_insert_eq. naive_solver.
Qed.

Lemma hoare_chmod (f : File) e :
  triple opened
    (if (f_mode f =? 384)%Z then mret ()
     else
       _ ← syscall (λ _ w, (Ok (), set_files Source
             (alter (λ f, mkFile (f_inode f) (f_kind f) (f_owned f) 384 (f_content f)) n) w));
       f ← os_stat Source n;
       guard_raise (negb (f_mode f =? 384)%Z) e) (λ _, opened).
Proof.
  destruct (f_mode f =? 384)%Z; [by apply hoare_ret|].
  apply hoare_bind with (R := λ _, opened); [|intros u; apply hoare_opened; looks].
  apply hoare_syscall; [split; by apply opened_wrote_some|]. intros _ w (g & Hg & Ht).
  rewrite dirs_set_files. eexists. simpl in *. rewrite lookup_alter_eq, Hg. by split.
Qed.

Lemma hoare_append_event fsync :
  triple (λ d, text n d = t0) (append_event fsync n s) (λ _, wrote n s t0 (String.length s)).
Proof.
  unfold append_event.
  apply hoare_bind with (R := λ _ d, text n d = t0).
  { apply hoare_lock; [intros _; apply text_wrote_some|].
    intros d f <-. unfold text. simpl. by rewrite lookup_insert_ne. }
  intros _. apply hoare_bind with (R := λ _ d, text n d = t0); [apply hoare_unopened; looks|].
  intros _. apply hoare_bind with (R := λ _ d, text n d = t0); [apply hoare_unopened; looks|].
  intros x. apply hoare_bind with (R := λ _ d, text n d = t0); [apply hoare_unopened; looks|].
  intros _. eapply hoare_bind; [apply hoare_create_journal|].
  intros created. apply hoare_bind with (R := λ _, opened).
  { destruct created as [[]|[]];
      try (apply hoare_raise; intros d [_ Hd]; by apply text_wrote_some).
    - apply hoare_ret. naive_solver.
    - apply hoare_bind with (R := λ _, opened); [|intros _; by apply hoare_ret].
      intros w [Hw _]. apply (hoare_opened (os_error_as _ (os_open Source n))); [looks|auto]. }
  clear created. intros created. apply hoare_bind with (R := λ _, wrote n s t0 (String.length s)).
  - apply hoare_os_const.
    apply hoare_bind with (R := λ _, opened); [apply hoare_opened; looks|intros f].
    apply hoare_bind with (R := λ _, opened); [apply hoare_opened; looks|intros _].
    apply hoare_bind with (R := λ _, opened); [apply hoare_chmod|intros _].
    apply hoare_bind with (R := λ _, wrote n s t0 (String.length s));
      [by apply hoare_write_loop|intros _].
    apply hoare_keeps; [looks|]. intros _ d. by apply wrote_wrote_some.
  - intros _. apply hoare_keeps; [looks|]. intros _ d. by apply wrote_wrote_some.
Qed.
End event.

(** C13: append_event, under short writes, errors and kills, leaves its journal with its
    old bytes followed by a prefix of the new line, and by the whole line when it
    returns. *)
Theorem writer_appends_line_prefix fsync n s w :
  n ≠ QUARANTINE_LOCK →
  let (r, w') := append_event fsync n s w in
  ∃ k, (k ≤ String.length s)%nat ∧
    text n (dirs w') = text n (dirs w) +:+ String.substring 0 k s ∧
    (r = Ok () → text n (dirs w') = text n (dirs w) +:+ s).
Proof.
  intros Hn. pose proof (hoare_append_event n s (text n (dirs w)) Hn fsync w eq_refl) as H.
  destruct (append_event fsync n s w) as [[[]|e] w'].
  - destruct H as (f & Hf & Ht). exists (String.length s). unfold text at 1 3. rewrite Hf, Ht.
    by rewrite substring_whole.
  - destruct H as (k & Hk & Ht). by exists k.
Qed.
End writer.

(** *** Records read back *)

(** The records the code writes pass its own validators when read back: the snapshot
    decoded from an intent is the one it was made of, base64 included, and the applied,
    finalized, restored and blocked values of every legal reason validate against that
    intent's digest. *)
Theorem records_read_back t b i s (snapshot : QuarantinedJournal) :
  is_hex_string 64 t = true → quarantine_transaction_id b = t →
  is_journal (journal snapshot) = true → is_path_name (journal snapshot) = true →
  (0 < device snapshot)%Z → (0 < inode snapshot)%Z →
  let intent_record := record (record_name_of t intent) (intent_value i t b s snapshot) in
  let d := digest intent_record in
  _intent_snapshot intent_record t = Ok snapshot ∧
  directories_match (value intent_record) s i = true ∧
  _validate_applied (record (record_name_of t applied) (applied_value t d snapshot)) t
    intent_record snapshot = Ok () ∧
  (∀ a f pid, _is_digest (JStr f) = true → _valid_process_identity pid = true →
     _validate_finalized (record (record_name_of t finalized) (finalized_value t d a f pid)) t d a
     = Ok ()) ∧
  (∀ a reason, reason ∈ _RESTORE_REASONS →
     _validate_terminal
       (record (record_name_of t restored) (terminal_value RESTORED_SCHEMA t d a None reason))
       t RESTORED_SCHEMA restored d a None = Ok ()) ∧
  (∀ a f reason, reason ∈ _BLOCK_REASONS →
     (reason = "source-replacement-after-finalize" ↔ is_Some f) →
     _validate_terminal
       (record (record_name_of t blocked) (terminal_value BLOCKED_SCHEMA t d a f reason))
       t BLOCKED_SCHEMA blocked d a f = Ok ()).
Proof.
  intros. cbv zeta. split_and!; intros.
  - by apply intent_reads_back.
  - apply directories_read_back.
  - by apply applied_reads_back.
  - by apply finalized_reads_back.
  - by apply restored_reads_back.
  - by apply blocked_reads_back.
Qed.

(** ** Runs *)

Module Example.
#[local] Instance example_kernel : Kernel := {|
  inode_of n := (Z.of_nat n + 1000)%Z; token_hex n := hex_fixed 32 (N.of_nat n) "" |}.

Definition line : string := "{}" +:+ newline.
Definition source_id : Z * Z := (1, 10)%Z.
Definition quarantine_id : Z * Z := (1, 20)%Z.
Definition private (i : Z) (m : gmap string File) : Directory := mkDirectory Canonical true 1 i m.
Definition journal_file : File := mkFile 7 Regular true 384 (Bytes line false).

(** One journal with one line, an empty quarantine. *)
Definition start : World :=
  mkWorld (private 10 {["w.jsonl" := journal_file]}) (private 20 ∅) false [] 42 0 0.

Definition binding (challenge name : string) : json :=
  JObj [("challenge", JStr challenge); ("journal", JStr name)].

Definition prepare (challenge : string) : op PreparedFault :=
  prepare_fault source_id quarantine_id 4096 (λ _, Ok ("w.jsonl", line)) (binding challenge).
Definition commit (p : PreparedFault) : op () :=
  commit_fault source_id quarantine_id 4096 p false (λ _, Ok ()).
Definition reconcile : op ReconciliationResult :=
  reconcile_quarantine_transactions Source Quarantine source_id quarantine_id 4096 None.

(** A new process with these outcomes. *)
Definition process (l : list outcome) : op () :=
  modify (λ w, mkWorld (source w) (quarantine w) false l (pid w) (tokens w) (inodes w)).

Definition journal_place (w : World) : bool * bool :=
  (bool_decide (is_Some (entry Source "w.jsonl" w)),
   bool_decide (is_Some (entry Quarantine "w.jsonl" w))).

(** A commit whose last [fsync] fails after it published its applied record records a restoration without it; every later reconciliation raises. *)
Theorem failed_sync_wedges_recovery :
  let m := p ← prepare "c"; _ ← process (replicate 71 Works ++ [Fails]); commit p in
  let w := (m start).2 in
  let again := _ ← process []; reconcile in
  let stuck := Raise (QTE "restored quarantine transaction chain is invalid") in
  (m start).1 = Raise OSError ∧
  journal_place w = (true, false) ∧
  (again w).1 = stuck ∧ (again (again w).2).1 = stuck.
Proof. vm_compute. repeat split. Qed.

(** A second transaction on a journal leaves a fence the reconciliation of the first, restored one refuses, before it reaches the second: the journal stays in quarantine. *)
Theorem second_fault_wedges_recovery :
  let m := _ ← prepare "b"; _ ← process []; p ← prepare "a"; _ ← process []; commit p in
  let w := (m start).2 in
  let again := _ ← process []; reconcile in
  let stuck := Raise (QTE "source journal fence is inconsistent") in
  (m start).1 = Ok () ∧ journal_place w = (false, true) ∧
  (again w).1 = stuck ∧ (again (again w).2).1 = stuck ∧ journal_place (again w).2 = (false, true).
Proof. vm_compute. repeat split. Qed.

(** The move's [fsync] fails, and so does the rename that would undo it: [commit_fault] takes the journal for unmoved, removes the fence and leaves the journal in quarantine; every later reconciliation raises for want of the fence. *)
Theorem failed_undo_strands_journal :
  let m := p ← prepare "c"; _ ← process (replicate 56 Works ++ [Fails; Works; Fails]); commit p in
  let w := (m start).2 in
  let again := _ ← process []; reconcile in
  let fence := _quarantine_fence_name "w.jsonl" in
  let stuck := Raise (QTE ("quarantine transaction record is missing: " +:+ fence)) in
  (m start).1 = Raise (HostEventSinkError "journal quarantine failed and rollback failed") ∧
  journal_place w = (false, true) ∧ entry Source fence w = None ∧
  (again w).1 = stuck ∧ (again (again w).2).1 = stuck ∧ journal_place (again w).2 = (false, true).
Proof. vm_compute. repeat split. Qed.

(** *** Witnesses *)

Definition intent_file : File := mkFile 8 Regular true 384 (Document (JObj [])).
Definition history : list Process :=
  [mkProcess (Prepare source_id quarantine_id 4096 (λ _, Ok ("w.jsonl", line)) (binding "c")) 43 []
     false;
   mkProcess (Append "1" "v.jsonl" line) 44 [Works; Works; Writes 1] false;
   mkProcess (Reconcile source_id quarantine_id 4096) 45 [Works; Works; Dies] false].

Lemma evidence_conserved_witness :
  is_journal "w.jsonl" = true ∧ copies "w.jsonl" (run history start) ≡ₚ [journal_file].
Proof.
  split; [reflexivity|]. apply (evidence_conserved history start "w.jsonl"); [reflexivity|].
  repeat constructor; discriminate.
Defined.

Lemma published_records_immutable_witness :
  let n := "ecpa-x.intent.json" in
  let w := mkWorld (private 10 ∅) (private 20 {[n := intent_file]}) false [] 42 0 0 in
  entry Quarantine n w = Some intent_file ∧
  entry Quarantine n (run history w) = Some intent_file.
Proof.
  intros n w. assert (entry Quarantine n w = Some intent_file) as H by (vm_compute; reflexivity).
  split; [exact H|]. apply published_records_immutable; [reflexivity|exact H].
Defined.

Lemma journal_moved_or_put_back_witness :
  match quarantine_journal Source Quarantine "w.jsonl" source_id quarantine_id 4096 None start with
  | (Ok q, w') => ∃ f,
      entry Source "w.jsonl" start = Some f ∧ entry Quarantine "w.jsonl" start = None ∧
      q = mkJournal "w.jsonl" (bytes_of (f_content f)) (d_device (dir Source start)) (f_inode f) ∧
      entry Source "w.jsonl" w' = None ∧ entry Quarantine "w.jsonl" w' = Some f ∧
      ∀ r k, k ≠ "w.jsonl" → entry r k w' = entry r k start
  | (Raise e, w') => e = Killed ∨ e ∈ undo_failures ∨ ∀ r k, entry r k w' = entry r k start
  end.
Proof. apply journal_moved_or_put_back. discriminate. Defined.

Lemma fenced_journal_refuses_writes_witness :
  let w := mkWorld (private 10 {[_quarantine_fence_name "w.jsonl" := intent_file]}) (private 20 ∅)
             false [Works; Works; Fails] 42 0 0 in
  let (r, w') := append_event "0" "w.jsonl" line w in
  r ≠ Ok () ∧ ∀ x k, k ≠ QUARANTINE_LOCK → entry x k w' = entry x k w.
Proof.
  intros w. apply fenced_journal_refuses_writes. exists intent_file. apply lookup_singleton_eq.
Defined.

Lemma writer_appends_line_prefix_witness :
  let (r, w') := append_event "1" "w.jsonl" line (set_script [Works; Works; Works; Works] start) in
  ∃ k, (k ≤ String.length line)%nat ∧
    text "w.jsonl" (dirs w') =
      text "w.jsonl" (dirs (set_script [Works; Works; Works; Works] start)) +:+
      String.substring 0 k line ∧
    (r = Ok () → text "w.jsonl" (dirs w') =
       text "w.jsonl" (dirs (set_script [Works; Works; Works; Works] start)) +:+ line).
Proof. apply writer_appends_line_prefix. discriminate. Defined.

Lemma records_read_back_witness :
  let b := binding "c" "w.jsonl" in
  let t := quarantine_transaction_id b in
  let snapshot := mkJournal "w.jsonl" line 1 7 in
  is_hex_string 64 t = true ∧
  _intent_snapshot
    (record (record_name_of t intent) (intent_value quarantine_id t b source_id snapshot)) t
  = Ok snapshot.
Proof.
  intros b t snapshot. assert (is_hex_string 64 t = true) as H by (vm_compute; reflexivity).
  split; [exact H|].
  apply (records_read_back t b quarantine_id source_id snapshot H); reflexivity.
Defined.
End Example.
