(* ===== verification/RecoveryTheorems.v ===== *)
(** * A killed transaction recovers

    The theorems of [QuarantineRecovery] at the level of whole processes: a process runs
    the prepare, commit and finalize of one transaction and may be killed at any of its
    system calls; each later one runs the reconciliation, and may be killed as well. *)

From S2P Require Import Prelude PyStd HostEventSink QuarantineTransaction QuarantineInvariants QuarantineRecords QuarantineSpec QuarantineStates QuarantineSteps QuarantineRecovery QuarantineTheorems.
From S2P Require EcpaModel.

Local Open Scope string_scope.
Local Open Scope list_scope.

#[local] Opaque sha256_hexdigest.

(** A new process: its pid and the outcomes of its system calls. *)
Definition reboot (p : Z * list outcome) (w : World) : World :=
  mkWorld (source w) (quarantine w) false p.2 p.1 (tokens w) (inodes w).

(** No system call fails in it. *)
Definition healthy (p : Z * list outcome) : Prop := (0 < p.1)%Z ∧ clean p.2.

Section recovery.
Context {K : Kernel} (T : Transaction).

Definition recover : op ReconciliationResult :=
  reconcile_quarantine_transactions Source Quarantine (t_source T) (t_quarantine T) (t_max T) None.

(** Processes that reconcile, until one of them ends. *)
Fixpoint recover_until (ps : list (Z * list outcome)) (w : World)
    : option ReconciliationResult * World :=
  match ps with
  | [] => (None, w)
  | p :: ps =>
      match recover (reboot p w) with
      | (Ok rc, w') => (Some rc, w')
      | (Raise _, w') => recover_until ps w'
      end
  end.

(** What the reconciliation may report, and the files that go with it. *)
Definition in_place (r : Root) (d : Disk) : Prop :=
  look r (t_journal T) d = Some (t_file T) ∧ look (other r) (t_journal T) d = None.

Inductive recovery_outcome : ReconciliationResult → Disk → Prop :=
  | nothing_prepared d :
      in_place Source d → look Source (t_fence T) d = None →
      look Quarantine (t_name T intent) d = None →
      recovery_outcome (mkReconciliation [] []) d
  | fault_restored a reason d :
      in_place Source d → look Source (t_fence T) d = None →
      reason ∈ _RESTORE_REASONS → holds Quarantine (t_name T restored) (t_restored T a reason) d →
      recovery_outcome (mkReconciliation [t_id T] []) d
  | fault_finalized x d :
      in_place Quarantine d → holds Source (t_fence T) (t_fence_value T) d →
      holds Quarantine (t_name T finalized) (t_finalized T x) d →
      recovery_outcome (mkReconciliation [] [t_id T]) d.

Section lifecycle.
Context (select : World → result exn (string * string)) (binding : string → json)
  (evidence : World → result exn ()) (receipt : string) (identity : json).

(** The whole transaction, of one process. *)
Definition lifecycle : op () :=
  p ← prepare_fault (t_source T) (t_quarantine T) (t_max T) select binding;
  _ ← commit_fault (t_source T) (t_quarantine T) (t_max T) p false evidence;
  _ ← finalize_quarantine_transaction Quarantine (t_quarantine T) (t_id T) Source (t_source T)
        (digest_of (t_applied T)) receipt identity None;
  mret ().

(** Its caller: the target it selects is the transaction's, its binding too, what it reads
    back is there, and it finalizes with a receipt and an identity that are valid. *)
Record caller_ok : Prop := {
  ca_select w : entry Source (t_journal T) w = Some (t_file T) →
    select w = Ok (t_journal T, raw (t_snapshot T));
  ca_binding : binding (t_journal T) = t_binding T;
  ca_evidence w : evidence w = Ok ();
  ca_receipt : _is_digest (JStr receipt) = true;
  ca_identity : _valid_process_identity identity = true;
  ca_fits : fits (t_finalized T (receipt, identity));
}.
End lifecycle.
End recovery.

Section theorems.
Context {K : Kernel} {KL : TokenLaw K} (T : Transaction) {H : transaction_ok T}.
Notation recoverable := (recoverable T).

Lemma meta_reboot p w : healthy p → roots_ok T (meta w) → roots_ok T (meta (reboot p w)).
Proof. intros [Hp _] (_ & Hs & Hq). by split_and!. Qed.

Lemma disk_reboot p w : disk (reboot p w) = hold false (disk w).
Proof. done. Qed.

Lemma reconciled_outcome a d :
  lawful T a → settled T (reconciled T a).2 d →
  recovery_outcome T (reconciled T a).1 d.
Proof.
  intros Ha. unfold reconciled. destruct (a_intent a) eqn:Hint.
  - cbn [fst snd]. unfold decision, recovered. destruct (a_finalized a) as [x|] eqn:Hfin.
    + pose proof Ha as (_ & Hf & _ & Hx). rewrite Hfin in Hx. destruct Hx as (Hpl & _).
      intros [[] _]. rewrite Hpl, Hfin, Hf in * by done. by apply (fault_finalized T x).
    + intros [[] _]. apply (fault_restored T (a_applied a) (reason_of a)); try done.
      by apply (reason_of_legal (T := T)).
  - destruct Ha as [Ha _]. rewrite (Ha Hint). intros [[] _]. by apply nothing_prepared.
Qed.

(** Reconciling what was reconciled reports the same. *)
Lemma reconciled_again a :
  lawful T a → reconciled T (reconciled T a).2 = reconciled T a.
Proof.
  intros Ha. unfold reconciled. destruct (a_intent a) eqn:Hint; cbn [fst snd];
    [|by rewrite Hint].
  unfold decision, recovered. destruct (a_finalized a) as [x|] eqn:Hfin.
  - by rewrite Hint, Hfin.
  - by rewrite Hint.
Qed.

Notation ends m Q w :=
  match m w with
  | (Ok x, w') => Q x w'
  | (Raise e, w') =>
      e = Killed ∧ Dies ∈ script w ∧ roots_ok T (meta w') ∧ recoverable (disk w')
  end.

Lemma spec_ends {A} (P : Disk → Prop) (m : op A) Q w :
  spec recoverable (roots_ok T) P m Q →
  roots_ok T (meta w) → clean (script w) → P (disk w) →
  ends m (λ x w', roots_ok T (meta w') ∧ Q x (disk w')) w.
Proof.
  intros Hm Hw Hc HP. specialize (Hm w Hw Hc HP). destruct (m w) as [[x|e] w'].
  - destruct Hm as [[_ ->] HQ]. by split.
  - destruct Hm as (-> & Hd & -> & HD). by split_and!.
Qed.

Lemma recover_ends a w :
  lawful T a → roots_ok T (meta w) → clean (script w) → st T a (disk w) → locked w = false →
  ends (recover T) (λ rc w', roots_ok T (meta w') ∧ rc = (reconciled T a).1 ∧
    settled T (reconciled T a).2 (disk w') ∧ locked w' = false) w.
Proof.
  intros Ha Hw Hc Hst Hl. exact (spec_ends _ (recover T) _ w (spec_reconcile a Ha) Hw Hc (conj Hst Hl)).
Qed.

Lemma absent_slot {A} r n v d :
  slot (bool_decide (is_Some (@None A))) r n v d → look r n d = None.
Proof. done. Qed.

(** The journal is whole, and in quarantine behind its fence. *)
Lemma recoverable_whole d :
  recoverable d →
  (in_place T Source d ∨ in_place T Quarantine d ∧ holds Source (t_fence T) (t_fence_value T) d) ∧
  (∀ x y, look Quarantine (t_name T finalized) d = Some x →
     look Quarantine (t_name T restored) d = Some y → False).
Proof.
  intros (a & (_ & Hf & Hr & Hfin) & [Hi Ha0 Hfi Hb Hre Hfe Hh Ht _]). split.
  - destruct (a_place a) eqn:Hpl; [by left|right]. rewrite (Hf eq_refl) in Hfe. done.
  - intros x y Hx Hy. destruct (a_finalized a) as [v|]; [|by apply absent_slot in Hfi; congruence].
    destruct Hfin as (_ & _ & Hn & _). rewrite Hn in Hre.
    apply absent_slot in Hre. congruence.
Qed.

(** A finalized record stays, whatever becomes of the process. *)
Definition finalized_there (d : Disk) : Prop := is_Some (look Quarantine (t_name T finalized) d).

Lemma finalized_stays w : finalized_there (disk w) → finalized_there (disk (recover T w).2).
Proof.
  unfold finalized_there. rewrite <-!entry_look. intros [f Hf]. exists f.
  assert (steady w (recover T w).2) as [_ Hrecords] by exact (calm_reconcile _ _ _ _ _ None w).
  exact (Hrecords _ f (record_name_is_record (t_id T) finalized) Hf).
Qed.

Lemma finalized_reported a d :
  lawful T a → st T a d → finalized_there d → (reconciled T a).1 = mkReconciliation [] [t_id T].
Proof.
  intros (Hi & _) Hst [f Hf]. pose proof (st_finalized _ _ _ Hst) as Hs.
  destruct (a_finalized a) as [x|] eqn:Hfin; [|by apply absent_slot in Hs; congruence].
  unfold reconciled, decision. rewrite Hfin.
  destruct (a_intent a) eqn:Hint; [done|]. rewrite (Hi eq_refl) in Hfin. done.
Qed.

(** Restarted processes recover, or leave what the next one can recover. *)
Lemma recover_until_ends ps w :
  Forall healthy ps → roots_ok T (meta w) → recoverable (disk w) →
  match recover_until T ps w with
  | (Some rc, w') =>
      recovery_outcome T rc (disk w') ∧ locked w' = false ∧ recoverable (disk w') ∧
      (finalized_there (disk w) → rc = mkReconciliation [] [t_id T])
  | (None, w') => recoverable (disk w') ∧ Forall (λ p, Dies ∈ p.2) ps
  end.
Proof.
  revert w. induction ps as [|p ps IH]; intros w Hps Hw HD; [by split|].
  apply Forall_cons in Hps as [Hp Hps]. destruct HD as (a & Ha & Hst). cbn [recover_until].
  pose proof (st_hold a false _ Hst) as Hst'.
  pose proof (recover_ends a (reboot p w) Ha (meta_reboot p w Hp Hw) (proj2 Hp) Hst' eq_refl) as Hr.
  pose proof (finalized_stays (reboot p w)) as Hstays.
  destruct (recover T (reboot p w)) as [[rc|e] w'].
  - destruct Hr as (_ & -> & Hd & Hl). split_and!; [by apply reconciled_outcome|done| |].
    + eapply settled_recoverable; [|exact Hd]. by apply reconciled_lawful.
    + intros Hf. by apply (finalized_reported a _ Ha Hst').
  - destruct Hr as (_ & Hd & Hw' & HD). specialize (IH w' Hps Hw' HD).
    destruct (recover_until T ps w') as [[rc|] w'']; [|by destruct IH; split; [|constructor]].
    destruct IH as (Ho & Hl & HD' & Hf). split_and!; [done..|]. intros Hthere.
    by apply Hf, Hstays.
Qed.

Section lifecycle.
Context select binding evidence receipt identity
  (Hca : caller_ok T select binding evidence receipt identity).
Notation whole := (lifecycle T select binding evidence receipt identity).

Lemma spec_lifecycle :
  spec recoverable (roots_ok T) (λ d, st T unprepared d ∧ held d = false) whole
    (λ _ d, settled T (concluded receipt identity) d ∧ held d = false).
Proof.
  destruct Hca. unfold lifecycle.
  eapply spec_value; [by apply spec_prepare|].
  eapply spec_then; [by apply spec_commit|].
  eapply spec_bind.
  - eapply spec_weaken; [by apply spec_finalize|]. intros r d [_ Hd]. exact Hd.
  - intros r. by apply spec_ret.
Qed.

Lemma lifecycle_ends w :
  roots_ok T (meta w) → clean (script w) → st T unprepared (disk w) → locked w = false →
  ends whole (λ _ w', roots_ok T (meta w') ∧
    settled T (concluded receipt identity) (disk w') ∧ locked w' = false) w.
Proof.
  intros Hw Hc Hst Hl. exact (spec_ends _ whole _ w spec_lifecycle Hw Hc (conj Hst Hl)).
Qed.

Lemma concluded_reconciled :
  reconciled T (concluded receipt identity) =
  (mkReconciliation [] [t_id T], concluded receipt identity).
Proof. done. Qed.

Lemma concluded_is_lawful : lawful T (concluded receipt identity).
Proof. destruct Hca. by apply concluded_lawful. Qed.

(** What the files are after the lifecycle, and after the recoveries. *)
Lemma lifecycle_recoverable w :
  roots_ok T (meta w) → clean (script w) → st T unprepared (disk w) → locked w = false →
  roots_ok T (meta (whole w).2) ∧ recoverable (disk (whole w).2).
Proof.
  intros Hw Hc Hst Hl. pose proof (lifecycle_ends w Hw Hc Hst Hl) as He.
  destruct (whole w) as [[[]|e] w1]; [|by destruct He as (_ & _ & ? & ?)].
  destruct He as (Hw1 & [Hd _] & _). split; [done|]. exists (concluded receipt identity).
  split; [apply concluded_is_lawful|done].
Qed.


End lifecycle.

(** C7: From the files of any lawful state of a single fault (one its protocol can be
    killed in, with no blocked record, no record of another transaction, well-formed
    temporary files and canonical private directories), and when no system call fails, a
    reconciliation that is not killed computes the abstract decision on that state: it
    returns the decision's report, leaves the files of the state it decides on and the
    lock free, and every later unkilled reconciliation returns the same report; one that
    is killed leaves files of a lawful state. *)
Theorem reconciliation_refines_decision a w :
  lawful T a → roots_ok T (meta w) → clean (script w) → st T a (disk w) → locked w = false →
  match recover T w with
  | (Ok rc, w') =>
      rc = (reconciled T a).1 ∧ settled T (reconciled T a).2 (disk w') ∧ locked w' = false ∧
      ∀ p, healthy p → Dies ∉ p.2 → (recover T (reboot p w')).1 = Ok rc
  | (Raise e, w') => e = Killed ∧ Dies ∈ script w ∧ recoverable (disk w')
  end.
Proof.
  intros Ha Hw Hc Hst Hl. pose proof (recover_ends a w Ha Hw Hc Hst Hl) as Hr.
  destruct (recover T w) as [[rc|e] w']; [|by destruct Hr as (? & ? & _ & ?)].
  destruct Hr as (Hw' & -> & Hd & Hl'). split_and!; try done. intros p Hp Hdies.
  pose proof (recover_ends _ (reboot p w') (reconciled_lawful a Ha) (meta_reboot p w' Hp Hw')
    (proj2 Hp) (st_hold _ false _ (settled_st _ _ Hd)) eq_refl) as Hr.
  rewrite (reconciled_again a Ha) in Hr.
  destruct (recover T (reboot p w')) as [[rc|e] w'']; [|by destruct Hr as (_ & Hk & _)].
  by destruct Hr as (_ & -> & _).
Qed.
End theorems.

(** ** Witnesses *)

Module RecoveryExample.
Import QuarantineTheorems.Example.
#[local] Existing Instance example_kernel.

Lemma hex_digit_is_hex n : (n < 16)%N → is_hex (hex_digit n) = true.
Proof.
  intros Hn. assert (Forall (λ n, is_hex (hex_digit n) = true) (N.of_nat <$> seq 0 16)) as Hall
    by (vm_compute; repeat constructor).
  apply (proj1 (Forall_forall _ _) Hall). apply list_elem_of_fmap. exists (N.to_nat n).
  split; [lia|]. apply elem_of_seq. lia.
Qed.

Lemma hex_fixed_is_hex k n acc m :
  is_hex_string m acc = true → is_hex_string (k + m) (hex_fixed k n acc) = true.
Proof.
  revert n acc m. induction k as [|k IH]; intros n acc m Hacc; [done|].
  cbn [hex_fixed]. replace (S k + m)%nat with (k + S m)%nat by lia. apply IH.
  unfold is_hex_string in *. apply andb_true_iff in Hacc as [Hlen Hhex].
  cbn [String.length string_forallb Nat.eqb].
  rewrite Hlen, Hhex, hex_digit_is_hex; [done|]. by apply N.mod_lt.
Qed.

#[local] Instance example_tokens : TokenLaw example_kernel.
Proof. intros n. exact (hex_fixed_is_hex 32 (N.of_nat n) "" 0 eq_refl). Qed.

Definition snapshot : QuarantinedJournal := mkJournal "w.jsonl" line 1 7.
Definition transaction : Transaction :=
  mkTransaction (quarantine_transaction_id (binding "c" "w.jsonl")) (binding "c" "w.jsonl") snapshot
    journal_file source_id quarantine_id 4096.

#[local] Instance example_transaction : transaction_ok transaction.
Proof.
  split.
  1-8: vm_compute; repeat split; congruence.
  split_and!; [reflexivity..|]. intros a reason Hr.
  repeat (apply elem_of_cons in Hr as [->|Hr]; [by destruct a|]). by apply not_elem_of_nil in Hr.
Qed.

Lemma start_unprepared l : st transaction unprepared (disk (set_script l start)).
Proof.
  split; try reflexivity. intros r n f Hl.
  destruct r; [|done]. change (({["w.jsonl" := journal_file]} : gmap string File) !! n = Some f) in Hl.
  apply lookup_singleton_Some in Hl as [<- _]. by split_and!.
Qed.

Definition select : World → result exn (string * string) := λ _, Ok ("w.jsonl", line).
Definition evidence : World → result exn () := λ _, Ok ().
Definition receipt : string := "sha256:" +:+ hex_fixed 64 7 "".
Definition identity : json :=
  JObj [("argv", JArr [JStr "vllm"]); ("executable_device", JInt 1); ("executable_inode", JInt 9);
        ("pid", JInt 42); ("start_ticks", JInt 100)].

Lemma caller : caller_ok transaction select (binding "c") evidence receipt identity.
Proof. split; intros; vm_compute; reflexivity. Qed.

(** Killed once the journal is in quarantine, and again while it is put back. *)
Definition killed : World := set_script (replicate 95 Works ++ [Dies]) start.
Definition restarts : list (Z * list outcome) := [(43, replicate 45 Works ++ [Dies]); (44, [])]%Z.

Lemma restarts_healthy : Forall healthy restarts.
Proof. by repeat constructor. Qed.



Lemma reconciliation_refines_decision_witness :
  match recover transaction killed with
  | (Ok rc, w') => rc = mkReconciliation [] [] ∧ locked w' = false
  | (Raise e, w') => e = Killed ∧ recoverable transaction (disk w')
  end.
Proof.
  pose proof (reconciliation_refines_decision transaction unprepared killed
    (unprepared_lawful (T := transaction)) ltac:(by vm_compute) ltac:(by repeat constructor)
    (start_unprepared _) eq_refl) as Hr.
  destruct (recover transaction killed) as [[rc|e] w'].
  - destruct Hr as (-> & _ & Hl & _). by split.
  - destruct Hr as (-> & _ & HD). by split.
Defined.
End RecoveryExample.
