(* ===== verification/Manifest.v ===== *)
(** * Extension manifests

    [src/vllm_hust_ext/manifest.py]: the data of an extension bundle and the validator that
    turns decoded JSON of the three schema versions into a [BundleManifest], with
    [load_manifest] and [activation_blocker].  Versions and version ranges are those of the
    class [Pep440]; [\w] of the regular expressions is the class [WordChars] outside ASCII.
    An error keeps its class, not its message. *)

From S2P Require Import Prelude PyStd JsonText JsonRoundTrip ContractParse.

Local Open Scope string_scope.
Local Open Scope list_scope.

(** ** Text *)

(** Whether a code point from 128 on is matched by [\w]. *)
Class WordChars : Type := word_beyond_ascii : N → bool.

Definition code_points (s : string) : list N := utf8_decode (String.length s) (bytes_of_string s).

Definition in_range (a b c : N) : bool := ((a <=? c) && (c <=? b))%N.
Definition is_letter_point (c : N) : bool := in_range 65 90 c || in_range 97 122 c.
(** [[A-Za-z_]] *)
Definition starts_word (c : N) : bool := is_letter_point c || (c =? 95)%N.

(** [not s.strip()] *)
Fixpoint blank (fuel : nat) (s : string) : bool :=
  match s, fuel with
  | EmptyString, _ => true
  | _, O => false
  | _, S fuel => match find (λ w, starts_with w s) py_whitespace with
                 | Some w => blank fuel (drop_chars (String.length w) s)
                 | None => false
                 end
  end.
Definition is_blank (s : string) : bool := blank (String.length s) s.

Section words.
Context {W : WordChars}.

(** [\w] *)
Definition word_char (c : N) : bool :=
  starts_word c || in_range 48 57 c || (128 <=? c)%N && word_beyond_ascii c.

(** Words joined by dots, from the start of a word or inside one. *)
Fixpoint match_dotted (start : bool) (cs : list N) : bool :=
  match cs with
  | [] => negb start
  | c :: cs =>
      if start then starts_word c && match_dotted false cs
      else if (c =? 46)%N then match_dotted true cs
      else word_char c && match_dotted false cs
  end.
Definition is_dotted (s : string) : bool := match_dotted true (code_points s).

(** One word: a letter or an underscore, then word characters. *)
Definition is_word (s : string) : bool :=
  match code_points s with c :: cs => starts_word c && forallb word_char cs | [] => false end.

(** [_IMPLEMENTATION]: two dotted paths around one colon *)
Fixpoint match_reference (colon start : bool) (cs : list N) : bool :=
  match cs with
  | [] => colon && negb start
  | c :: cs =>
      if start then starts_word c && match_reference colon false cs
      else if (c =? 46)%N then match_reference colon true cs
      else if (c =? 58)%N then negb colon && match_reference true true cs
      else word_char c && match_reference colon false cs
  end.
Definition _IMPLEMENTATION (s : string) : bool := match_reference false true (code_points s).
End words.

Definition identifier_char (a : Ascii.ascii) : bool := is_lower a || is_digit a.
(** [^[a-z0-9][a-z0-9.-]*$] *)
Definition _IDENTIFIER (s : string) : bool :=
  match s with
  | EmptyString => false
  | String a s => identifier_char a &&
      string_forallb (λ b, identifier_char b || bool_decide (b = dot) || bool_decide (b = dash)) s
  end.
(** [^[a-z0-9][a-z0-9._:/-]*$] *)
Definition _RESOURCE (s : string) : bool :=
  match s with
  | EmptyString => false
  | String a s => identifier_char a &&
      string_forallb (λ b, identifier_char b || (code b =? 46)%N || (code b =? 95)%N || (code b =? 58)%N ||
                           (code b =? 47)%N || (code b =? 45)%N) s
  end.

(** ** Constants *)

Definition _TOP_LEVEL_FIELDS : list string :=
  ["schema_version"; "bundle_id"; "bundle_version"; "host_api_range"; "components"; "activation"].
Definition _COMPONENT_FIELDS : list string :=
  ["component_id"; "contracts"; "execution_planes"; "isolation"; "implementation_ref"; "permissions"].
Definition _ISOLATIONS : list string := ["trusted_in_process"; "process_isolated"; "sandboxed_process"].
Definition _PLANES : list string := ["api"; "scheduler"; "worker"; "native"; "device"; "bridge"].
Definition _PERMISSIONS : list string :=
  ["device_access"; "filesystem_read"; "filesystem_write"; "ipc"; "network_egress"; "shared_memory"; "subprocess"].
Definition _KINDS : list string :=
  ["in_process_plugin"; "scheduler_policy"; "kv_connector"; "kv_service_adapter"; "control_plane_extension";
   "runtime_bridge"].
Definition _RUNTIMES : list string := ["python"; "external_service"; "oci"; "kubernetes"; "composite"].
Definition _LIFECYCLE_OWNERS : list string := ["vllm"; "host"; "external_operator"; "kubernetes"; "user"].
Definition _CARRIERS : list string :=
  ["host_builtin"; "python_entry_point"; "python_module"; "external_service"; "oci_image"; "helm_values";
   "kubernetes_manifest"; "crd"; "controller"].
Definition _RESOURCE_CLAIM_FIELDS : list string := ["resource"; "scope"; "mode"].
Definition _RESOURCE_CLAIM_MODES : list string := ["exclusive"; "shared"].
Definition EXPERIMENTAL_VERSIONS : list string := ["0.2-experimental"; "0.3-experimental"].
Definition EXPERIMENTAL_FIELDS : list string :=
  ["schema_version"; "extension_id"; "extension_version"; "kind"; "host"; "runtime"; "lifecycle_owner"; "protocols";
   "implementation"; "requires_services"; "requires_extensions"; "resource_claims"; "components"; "activation"].
Definition EXPERIMENTAL_REQUIRED : list string :=
  ["schema_version"; "extension_id"; "extension_version"; "kind"; "host"; "runtime"; "lifecycle_owner"; "protocols";
   "implementation"; "requires_services"].

(** ** Data *)

(** [ValueError]: an integer of too many digits, which [json.loads] refuses. *)
Inductive manifest_exn : Type := ManifestError | TypeError | ValueError.

Record ActivationEntryPoint : Type := mkActivationEntryPoint { ae_group : string; ae_name : string }.
Record BundleActivation : Type := mkActivation {
  ac_entry_points : list ActivationEntryPoint;
  ac_environment : list (string * string);
  ac_additional_config : list (string * json);
}.
Record BundleComponent : Type := mkComponent {
  component_id : string; contracts : list string; execution_planes : list string; isolation : string;
  implementation_ref : string; permissions : list string;
}.
Record HostSpec : Type := mkHost {
  host_provider : string; host_name : string; host_range : string; api_range : option string;
}.
Record RuntimeSpec : Type := mkRuntime { rt_type : string; process_scope : string; rt_isolation : string }.
Record ProtocolSpec : Type := mkProtocol { proto_name : string; proto_range : option string }.
Record ImplementationCarrier : Type := mkCarrier { carrier_type : string; attributes : list (string * json) }.
Record RequiredService : Type := mkService {
  service_id : string; sv_protocol : string; sv_range : option string; endpoint_config : string; optional : bool;
}.
Record RequiredExtension : Type := mkRequiredExtension { rx_id : string; rx_range : string }.
Record ResourceClaim : Type := mkResourceClaim { claim_resource : string; claim_scope : string; claim_mode : string }.
Record BundleManifest : Type := mkManifest {
  bundle_id : string; bundle_version : string; host_api_range : string;
  components : list BundleComponent; activation : BundleActivation;
  schema_version : string; kind : string; host : HostSpec; runtime : RuntimeSpec; lifecycle_owner : string;
  protocols : list ProtocolSpec; implementation : list ImplementationCarrier;
  requires_services : list RequiredService; requires_extensions : list RequiredExtension;
  resource_claims : list ResourceClaim;
}.

#[export] Instance ActivationEntryPoint_eq_dec : EqDecision ActivationEntryPoint.
Proof. solve_decision. Defined.
#[export] Instance ResourceClaim_eq_dec : EqDecision ResourceClaim.
Proof. solve_decision. Defined.

(** ** Validators *)

Definition bad {A} : result manifest_exn A := Raise ManifestError.
Definition bad_if (b : bool) : result manifest_exn () := raise_if b ManifestError.

Definition _object (value : json) : result manifest_exn (list (string * json)) :=
  match value with JObj kv => Ok kv | _ => bad end.
Definition _string (value : json) : result manifest_exn string :=
  match value with JStr s => if is_blank s then bad else Ok s | _ => bad end.
Definition _strings (value : json) : result manifest_exn (list string) :=
  match value with
  | JArr l =>
      result ← mapR (λ v, match v with JStr s => Ok s | _ => bad end) l;
      _ ← bad_if (has_duplicates result);
      Ok result
  | _ => bad
  end.

Definition among (l : list string) (s : string) : bool := bool_decide (s ∈ l).
Definition _known (values allowed : list string) : result manifest_exn () :=
  bad_if (negb (forallb (among allowed) values)).

(** [d.keys() - fields] is empty, and [fields - d.keys()] is. *)
Definition only_fields (fields : list string) (kv : list (string * json)) : bool := forallb (among fields) kv.*1.
Definition has_fields (fields : list string) (kv : list (string * json)) : bool := forallb (among kv.*1) fields.
Definition check_fields (fields required : list string) (kv : list (string * json)) : result manifest_exn () :=
  bad_if (negb (only_fields fields kv) || negb (has_fields required kv)).

(** [d.get(k, default)] *)
Definition get_or (d : json) (k : string) (kv : list (string * json)) : json := default d (assoc k kv).

(** [for x in value]; the characters of a string are its bytes here. *)
Definition iterate (value : json) : result manifest_exn (list json) :=
  match value with
  | JArr l => Ok l
  | JObj kv => Ok (JStr <$> kv.*1)
  | JStr s => Ok ((λ b, JStr (string_of_bytes [b])) <$> bytes_of_string s)
  | _ => Raise TypeError
  end.

(** [bool(value)] *)
Definition truthy (value : json) : bool :=
  match value with
  | JNull => false
  | JBool b => b
  | JInt z => negb (z =? 0)%Z
  | JFloat r => negb (int_float_eqb 0 r)
  | JStr s => negb (bool_decide (s = ""))
  | JArr l => negb (bool_decide (l = []))
  | JObj kv => negb (bool_decide (kv = []))
  end.

(** [value in strings], a set: the value is hashed. *)
Definition in_strings (value : json) (strings : list string) : result manifest_exn bool :=
  match value with
  | JArr _ | JObj _ => Raise TypeError
  | JStr s => Ok (among strings s)
  | _ => Ok false
  end.

Definition items_sorted {A} (kv : list (string * A)) : list (string * A) := sort_on fst kv.

Definition text_values (kv : list (string * json)) : result manifest_exn (list (string * string)) :=
  mapR (λ p, match p.2 with JStr s => Ok (p.1, s) | _ => bad end) kv.

Definition parse_entry_point (raw : json) : result manifest_exn ActivationEntryPoint :=
  item ← _object raw;
  _ ← bad_if (negb (has_exactly ["group"; "name"] item));
  group ← _string (json_get "group" item);
  name ← _string (json_get "name" item);
  Ok (mkActivationEntryPoint group name).

Definition no_activation : BundleActivation := mkActivation [] [] [].

Definition _parse_activation (value : json) : result manifest_exn BundleActivation :=
  match value with
  | JNull => Ok no_activation
  | _ =>
      activation ← _object value;
      _ ← bad_if (negb (only_fields ["entry_points"; "environment"; "additional_config"] activation));
      raw ← iterate (get_or (JArr []) "entry_points" activation);
      entries ← mapR parse_entry_point raw;
      environment ← _object (get_or (JObj []) "environment" activation);
      environment ← text_values environment;
      additional ← _object (get_or (JObj []) "additional_config" activation);
      Ok (mkActivation entries (items_sorted environment) (items_sorted additional))
  end.

(** ** The manifests *)

(** [HOST_API_VERSION], made when the module is loaded. *)
Class HostApi `{Pep440} : Type := {
  HOST_API_VERSION : version;
  HOST_API_VERSION_ok : Version "1.0" = Some HOST_API_VERSION;
}.

Section parse.
Context {PV : Pep440} {HA : HostApi} {W : WordChars}.

Definition parse_component (raw : json) : result manifest_exn BundleComponent :=
  item ← _object raw;
  _ ← check_fields _COMPONENT_FIELDS
        ["component_id"; "contracts"; "execution_planes"; "isolation"; "implementation_ref"] item;
  component_id ← _string (json_get "component_id" item);
  _ ← bad_if (negb (_IDENTIFIER component_id));
  contracts ← _strings (json_get "contracts" item);
  _ ← bad_if (bool_decide (contracts = []) || negb (forallb (starts_with "vllm.") contracts));
  planes ← _strings (json_get "execution_planes" item);
  _ ← _known planes _PLANES;
  isolation ← _string (json_get "isolation" item);
  _ ← _known [isolation] _ISOLATIONS;
  implementation ← _string (json_get "implementation_ref" item);
  _ ← bad_if (negb (_IMPLEMENTATION implementation));
  permissions ← _strings (get_or (JArr []) "permissions" item);
  _ ← _known permissions _PERMISSIONS;
  Ok (mkComponent component_id contracts planes isolation implementation permissions).

(** [None] is [InvalidVersion] or [InvalidSpecifier]. *)
Definition check_version (v : string) : result manifest_exn () := bad_if (bool_decide (Version v = None)).
Definition check_range (range : string) : result manifest_exn specifier_set :=
  match SpecifierSet range with Some s => Ok s | None => bad end.

Definition parse_components (value : json) : result manifest_exn (list BundleComponent) :=
  match value with
  | JArr (x :: l) => mapR parse_component (x :: l)
  | _ => bad
  end.

Definition DEFAULT_HOST : HostSpec := mkHost "vllm" "vllm" ">=0" (Some ">=1,<2").
Definition DEFAULT_RUNTIME : RuntimeSpec := mkRuntime "python" "vllm_processes" "trusted_in_process".

Definition _parse_legacy_manifest (payload : json) : result manifest_exn BundleManifest :=
  manifest ← _object payload;
  _ ← bad_if (negb (only_fields _TOP_LEVEL_FIELDS manifest));
  _ ← bad_if (negb (has_fields ["schema_version"; "bundle_id"; "bundle_version"; "host_api_range"; "components"]
                      manifest));
  _ ← bad_if (negb (json_eqb (json_get "schema_version" manifest) (JStr "1.0")));
  bundle_id ← _string (json_get "bundle_id" manifest);
  _ ← bad_if (negb (_IDENTIFIER bundle_id));
  bundle_version ← _string (json_get "bundle_version" manifest);
  _ ← check_version bundle_version;
  host_api_range ← _string (json_get "host_api_range" manifest);
  range ← check_range host_api_range;
  _ ← bad_if (negb (contains range HOST_API_VERSION));
  components ← parse_components (json_get "components" manifest);
  _ ← bad_if (has_duplicates (component_id <$> components));
  activation ← _parse_activation (json_get "activation" manifest);
  Ok (mkManifest bundle_id bundle_version host_api_range components activation "1.0" "legacy_vllm_bundle"
        DEFAULT_HOST DEFAULT_RUNTIME "vllm" [] [] [] [] []).

Definition _specifier (value : json) : result manifest_exn string :=
  result ← _string value;
  _ ← check_range result;
  Ok result.

Definition _optional_specifier (value : json) : result manifest_exn (option string) :=
  match value with JNull => Ok None | _ => range ← _specifier value; Ok (Some range) end.

Definition _parse_host (value : json) : result manifest_exn HostSpec :=
  host ← _object value;
  _ ← check_fields ["provider"; "name"; "version_range"; "api_range"] ["provider"; "name"; "version_range"] host;
  provider ← _string (json_get "provider" host);
  _ ← bad_if (negb (_IDENTIFIER provider));
  name ← _string (json_get "name" host);
  range ← _specifier (json_get "version_range" host);
  api_range ← _optional_specifier (json_get "api_range" host);
  Ok (mkHost provider name range api_range).

Definition _parse_runtime (value : json) : result manifest_exn RuntimeSpec :=
  runtime ← _object value;
  _ ← bad_if (negb (has_exactly ["type"; "process_scope"; "isolation"] runtime));
  runtime_type ← _string (json_get "type" runtime);
  _ ← _known [runtime_type] _RUNTIMES;
  scope ← _string (json_get "process_scope" runtime);
  isolation ← _string (json_get "isolation" runtime);
  Ok (mkRuntime runtime_type scope isolation).

Definition _array (value : json) : result manifest_exn (list json) :=
  match value with JArr l => Ok l | _ => bad end.

Definition parse_protocol (raw : json) : result manifest_exn ProtocolSpec :=
  item ← _object raw;
  _ ← bad_if (negb (has_exactly ["name"; "version_range"] item));
  name ← _string (json_get "name" item);
  range ← _optional_specifier (json_get "version_range" item);
  Ok (mkProtocol name range).
Definition _parse_protocols (value : json) : result manifest_exn (list ProtocolSpec) :=
  items ← _array value;
  mapR parse_protocol items.

Definition check_python_module (attributes : list (string * json)) : result manifest_exn () :=
  _ ← bad_if (negb (has_exactly ["module"; "object"; "status"] attributes));
  module ← _string (json_get "module" attributes);
  obj ← _string (json_get "object" attributes);
  status ← _string (json_get "status" attributes);
  _ ← bad_if (negb (is_dotted module));
  _ ← bad_if (negb (is_word obj));
  bad_if (negb (among ["active"; "import_only"; "legacy_unregistered"] status)).

Definition parse_carrier (raw : json) : result manifest_exn ImplementationCarrier :=
  item ← _object raw;
  carrier_type ← _string (json_get "type" item);
  _ ← _known [carrier_type] _CARRIERS;
  let attributes := filter (λ p, p.1 ≠ "type") item in
  _ ← bad_if (bool_decide (attributes = []));
  _ ← (if bool_decide (carrier_type = "python_module") then check_python_module attributes else Ok ());
  Ok (mkCarrier carrier_type (items_sorted attributes)).
Definition _parse_implementation (value : json) : result manifest_exn (list ImplementationCarrier) :=
  match value with
  | JArr (x :: l) => mapR parse_carrier (x :: l)
  | _ => bad
  end.

Definition parse_service (raw : json) : result manifest_exn RequiredService :=
  item ← _object raw;
  _ ← check_fields ["service_id"; "protocol"; "version_range"; "endpoint_config"; "optional"]
        ["service_id"; "protocol"; "version_range"; "endpoint_config"] item;
  optional ← match get_or (JBool false) "optional" item with JBool b => Ok b | _ => bad end;
  service_id ← _string (json_get "service_id" item);
  protocol ← _string (json_get "protocol" item);
  range ← _optional_specifier (json_get "version_range" item);
  endpoint ← _string (json_get "endpoint_config" item);
  Ok (mkService service_id protocol range endpoint optional).
Definition _parse_services (value : json) : result manifest_exn (list RequiredService) :=
  items ← _array value;
  mapR parse_service items.

Definition parse_dependency (raw : json) : result manifest_exn RequiredExtension :=
  item ← _object raw;
  _ ← bad_if (negb (has_exactly ["extension_id"; "version_range"] item));
  extension_id ← _string (json_get "extension_id" item);
  _ ← bad_if (negb (_IDENTIFIER extension_id));
  range ← _specifier (json_get "version_range" item);
  Ok (mkRequiredExtension extension_id range).
Definition _parse_extension_dependencies (value : json) : result manifest_exn (list RequiredExtension) :=
  items ← _array value;
  result ← mapR parse_dependency items;
  _ ← bad_if (has_duplicates (rx_id <$> result));
  Ok result.

Definition parse_claim (raw : json) : result manifest_exn ResourceClaim :=
  item ← _object raw;
  _ ← bad_if (negb (has_exactly _RESOURCE_CLAIM_FIELDS item));
  resource ← _string (json_get "resource" item);
  scope ← _string (json_get "scope" item);
  mode ← _string (json_get "mode" item);
  _ ← bad_if (negb (_RESOURCE resource) || negb (_RESOURCE scope));
  _ ← _known [mode] _RESOURCE_CLAIM_MODES;
  Ok (mkResourceClaim resource scope mode).
Definition _parse_resource_claims (value : json) : result manifest_exn (list ResourceClaim) :=
  items ← _array value;
  result ← mapR parse_claim items;
  _ ← bad_if (has_duplicates result);
  Ok result.

(** The components of an experimental manifest are parsed as those of a legacy one. *)
Definition experimental_components (extension_id version : string) (manifest : list (string * json))
    : result manifest_exn (list BundleComponent) :=
  if truthy (json_get "components" manifest)
  then legacy ← _parse_legacy_manifest
                  (JObj [("schema_version", JStr "1.0"); ("bundle_id", JStr extension_id);
                         ("bundle_version", JStr version); ("host_api_range", JStr ">=1,<2");
                         ("components", json_get "components" manifest);
                         ("activation", json_get "activation" manifest)]);
       Ok (components legacy)
  else Ok [].

Definition has_key (k : string) (kv : list (string * json)) : bool := among kv.*1 k.

Definition _parse_experimental_manifest (payload : json) : result manifest_exn BundleManifest :=
  manifest ← _object payload;
  _ ← check_fields EXPERIMENTAL_FIELDS EXPERIMENTAL_REQUIRED manifest;
  extension_id ← _string (json_get "extension_id" manifest);
  _ ← bad_if (negb (_IDENTIFIER extension_id));
  version ← _string (json_get "extension_version" manifest);
  _ ← check_version version;
  kind ← _string (json_get "kind" manifest);
  _ ← _known [kind] _KINDS;
  owner ← _string (json_get "lifecycle_owner" manifest);
  _ ← _known [owner] _LIFECYCLE_OWNERS;
  components ← experimental_components extension_id version manifest;
  supported ← in_strings (json_get "schema_version" manifest) EXPERIMENTAL_VERSIONS;
  _ ← bad_if (negb supported);
  schema_version ← match json_get "schema_version" manifest with JStr s => Ok s | _ => bad end;
  _ ← bad_if (bool_decide (schema_version = "0.2-experimental") && has_key "resource_claims" manifest);
  _ ← bad_if (bool_decide (schema_version = "0.2-experimental") && has_key "requires_extensions" manifest);
  activation ← _parse_activation (json_get "activation" manifest);
  host ← _parse_host (json_get "host" manifest);
  runtime ← _parse_runtime (json_get "runtime" manifest);
  protocols ← _parse_protocols (json_get "protocols" manifest);
  implementation ← _parse_implementation (json_get "implementation" manifest);
  services ← _parse_services (json_get "requires_services" manifest);
  extensions ← _parse_extension_dependencies (get_or (JArr []) "requires_extensions" manifest);
  claims ← _parse_resource_claims (get_or (JArr []) "resource_claims" manifest);
  Ok (mkManifest extension_id version ">=0" components activation schema_version kind host runtime owner protocols
        implementation services extensions claims).

Definition parse_manifest (payload : json) : result manifest_exn BundleManifest :=
  manifest ← _object payload;
  if json_eqb (json_get "schema_version" manifest) (JStr "1.0") then _parse_legacy_manifest payload
  else
    supported ← in_strings (json_get "schema_version" manifest) EXPERIMENTAL_VERSIONS;
    if (supported : bool) then _parse_experimental_manifest payload else bad.

(** A path: whether it is a symbolic link or no file, and what reading it as UTF-8 gives,
    [None] for an [OSError] or a [UnicodeError]. *)
Record ManifestFile : Type := mkFile { is_symlink : bool; is_file : bool; read_text : option string }.

Definition load_manifest {F : FloatText} (path : ManifestFile) : result manifest_exn BundleManifest :=
  _ ← bad_if (is_symlink path || negb (is_file path));
  match read_text path with
  | None => bad
  | Some text =>
      match loads_text (E := ()) plain_hook plain_constant text with
      | Ok payload => parse_manifest payload
      | Raise IntegerTooLong => Raise ValueError
      | Raise _ => bad
      end
  end.
End parse.

(** ** [activation_blocker] *)

Definition status_of (carrier : ImplementationCarrier) : json := json_get "status" (attributes carrier).

Definition is_active_carrier (carrier : ImplementationCarrier) : bool :=
  json_eqb (status_of carrier) (JStr "active") ||
  match status_of carrier with JNull => negb (bool_decide (carrier_type carrier = "python_module")) | _ => false end.

(** [[str(status) for status in statuses if status in {...}]] *)
Fixpoint declared_inactive (carriers : list ImplementationCarrier) : result manifest_exn (list string) :=
  match carriers with
  | [] => Ok []
  | carrier :: carriers =>
      inactive ← in_strings (status_of carrier) ["import_only"; "legacy_unregistered"];
      rest ← declared_inactive carriers;
      Ok (if (inactive : bool) then match status_of carrier with JStr s => s :: rest | _ => rest end else rest)
  end.

Definition activation_blocker (manifest : BundleManifest) : result manifest_exn (option string) :=
  let carriers := implementation manifest in
  let has_active_carrier := existsb is_active_carrier carriers in
  inactive ← declared_inactive carriers;
  Ok (if negb (bool_decide (inactive = [])) && negb has_active_carrier
      then Some ("extension is descriptor-only and cannot be enabled (implementation status: " +:+
                 join ", " (sort_on (λ s : string, s) (remove_dups inactive)) +:+ ")")
      else None).
