(* ===== verification/ManifestTheorems.v ===== *)
(** * What manifest parsing guarantees

    About [Manifest]: the manifests [parse_manifest] returns are the well-formed ones; the
    exceptions it raises; what [activation_blocker] reports. *)

From S2P Require Import Prelude PyStd JsonText JsonRoundTrip ContractParse Manifest.

Local Open Scope string_scope.
Local Open Scope list_scope.

(** ** The validators *)

Lemma bad_if_bind {A} b (r : result manifest_exn A) a : (_ ← bad_if b; r) = Ok a ↔ b = false ∧ r = Ok a.
Proof. unfold bad_if, raise_if. destruct b; naive_solver. Qed.

Lemma object_Ok v kv : _object v = Ok kv ↔ v = JObj kv.
Proof. destruct v; naive_solver. Qed.

Lemma string_Ok v s : Manifest._string v = Ok s ↔ v = JStr s ∧ is_blank s = false.
Proof.
  destruct v as [| | | |t| |]; try (split; [done|by intros []]). cbn [Manifest._string].
  destruct (is_blank t) eqn:E; split; [done| |intros [= <-]; done|by intros [[= ->] _]].
  intros [[= ->] ?]. congruence.
Qed.

Lemma array_Ok v l : _array v = Ok l ↔ v = JArr l.
Proof. destruct v; naive_solver. Qed.

Lemma mapR_strings_Ok l ss :
  mapR (λ v, match v with JStr s => Ok s | _ => bad end) l = Ok ss ↔ l = JStr <$> ss.
Proof.
  revert ss. induction l as [|v l IH]; intros ss; cbn [mapR].
  - destruct ss; naive_solver.
  - rewrite result_bind_Ok. setoid_rewrite result_bind_Ok. setoid_rewrite IH. split.
    + intros (s & Hs & ss' & -> & [= <-]). destruct v; naive_solver.
    + intros H. destruct ss as [|s ss]; [done|]. injection H as -> ->. eauto.
Qed.

Lemma strings_Ok v ss : _strings v = Ok ss ↔ v = JArr (JStr <$> ss) ∧ NoDup ss.
Proof.
  unfold _strings. destruct v as [| | | | |l|]; try (split; [done|naive_solver]).
  rewrite result_bind_Ok. setoid_rewrite mapR_strings_Ok. setoid_rewrite bad_if_bind.
  setoid_rewrite has_duplicates_false. split; [naive_solver|].
  intros [[= ->] Hn]. by exists ss.
Qed.

Lemma among_spec l s : among l s = true ↔ s ∈ l.
Proof. unfold among. by rewrite bool_decide_eq_true. Qed.

Lemma all_among l k : forallb (among l) k = true ↔ k ⊆ l.
Proof. rewrite forallb_forall. setoid_rewrite among_spec. setoid_rewrite <-list_elem_of_In. done. Qed.

Lemma known_bind {A} k l (r : result manifest_exn A) a : (_ ← _known k l; r) = Ok a ↔ k ⊆ l ∧ r = Ok a.
Proof. unfold _known. by rewrite bad_if_bind, negb_false_iff, all_among. Qed.

Lemma check_fields_bind {A} fields required kv (r : result manifest_exn A) a :
  (_ ← check_fields fields required kv; r) = Ok a ↔ kv.*1 ⊆ fields ∧ required ⊆ kv.*1 ∧ r = Ok a.
Proof.
  unfold check_fields, only_fields, has_fields.
  rewrite bad_if_bind, orb_false_iff, !negb_false_iff, !all_among. tauto.
Qed.

Ltac parsed :=
  repeat match goal with
  | H : mbind _ (bad_if _) = Ok _ |- _ => apply bad_if_bind in H as [? H]
  | H : mbind _ (_known _ _) = Ok _ |- _ => apply known_bind in H as [? H]
  | H : mbind _ (check_fields _ _ _) = Ok _ |- _ => apply check_fields_bind in H as (? & ? & H)
  | H : mbind _ _ = Ok _ |- _ => apply result_bind_Ok in H as (? & ? & ?)
  | H : Ok _ = Ok _ |- _ => injection H as H
  | H : _object _ = Ok _ |- _ => apply object_Ok in H
  | H : Manifest._string _ = Ok _ |- _ => apply string_Ok in H as [? ?]
  | H : _strings _ = Ok _ |- _ => apply strings_Ok in H as [? ?]
  | H : _array _ = Ok _ |- _ => apply array_Ok in H
  | H : negb _ = false |- _ => apply negb_false_iff in H
  | H : _ || _ = false |- _ => apply orb_false_iff in H as [? ?]
  end; subst; cbn beta iota in *; bool_inv; subst.

(** ** Activation *)

Definition filled (s : string) : Prop := is_blank s = false.

(** A [dict] as the manifest keeps it: keys distinct and in order. *)
Definition sorted_items {A} (kv : list (string * A)) : Prop :=
  NoDup kv.*1 ∧ StronglySorted (key_le fst) kv.

Lemma items_sorted_ok {A} (kv : list (string * A)) : NoDup kv.*1 → sorted_items (items_sorted kv).
Proof.
  intros Hn. split; [|apply sort_on_sorted; apply _]. unfold items_sorted. by rewrite sort_on_perm.
Qed.
Lemma items_sorted_id {A} (kv : list (string * A)) : sorted_items kv → items_sorted kv = kv.
Proof. intros [_ Hs]. by apply sort_on_sorted_id. Qed.

Record activation_ok (a : BundleActivation) : Prop := {
  ao_entry_points : Forall (λ e, filled (ae_group e) ∧ filled (ae_name e)) (ac_entry_points a);
  ao_environment : sorted_items (ac_environment a);
  ao_additional : sorted_items (ac_additional_config a);
}.

Definition entry_point_json (e : ActivationEntryPoint) : json :=
  JObj [("group", JStr (ae_group e)); ("name", JStr (ae_name e))].
Definition activation_json (a : BundleActivation) : json :=
  JObj [("entry_points", JArr (entry_point_json <$> ac_entry_points a));
        ("environment", JObj ((λ p, (p.1, JStr p.2)) <$> ac_environment a));
        ("additional_config", JObj (ac_additional_config a))].

Lemma text_values_Ok kv l : text_values kv = Ok l ↔ kv = (λ p, (p.1, JStr p.2)) <$> l.
Proof.
  unfold text_values. rewrite mapR_Ok. split.
  - induction 1 as [|[k v] [k' s] kv l H _ IH]; [done|]. rewrite fmap_cons, <-IH. cbn in *.
    destruct v; try done. by injection H as -> ->.
  - intros ->. induction l as [|[k s] l IH]; constructor; [done|exact IH].
Qed.

Lemma parse_entry_point_Ok raw e : parse_entry_point raw = Ok e → filled (ae_group e) ∧ filled (ae_name e).
Proof. unfold parse_entry_point. intros H. parsed. done. Qed.

Lemma unique_get k kv : unique_keys (JObj kv) → unique_keys (json_get k kv).
Proof. apply unique_keys_get. Qed.
Lemma unique_get_or d k kv : unique_keys d → unique_keys (JObj kv) → unique_keys (get_or d k kv).
Proof.
  intros Hd Hkv. unfold get_or. destruct (assoc k kv) eqn:E; [|done].
  pose proof (unique_keys_get k kv Hkv) as H. unfold json_get in H. by rewrite E in H.
Qed.
Lemma unique_keys_NoDup kv : unique_keys (JObj kv) → NoDup kv.*1.
Proof. by intros [? _]%unique_keys_obj. Qed.

Lemma parse_activation_Ok v a : unique_keys v → _parse_activation v = Ok a → activation_ok a.
Proof.
  intros Hu H. assert (no_activation = a ∨ ∃ kv, v = JObj kv) as [<-|[kv ->]].
  { destruct v; cbn in H; try done; [by injection H; left|by right; eexists]. }
  { split; [constructor|split; constructor..]. }
  cbn [_parse_activation] in H. parsed.
  match goal with H : text_values _ = Ok _ |- _ => apply text_values_Ok in H; subst end.
  injection H as <-.
  assert (∀ k l, get_or (JObj []) k kv = JObj l → NoDup l.*1) as Hn.
  { intros k l E. apply unique_keys_NoDup. rewrite <-E. apply unique_get_or; [|done]. split; [constructor|done]. }
  split; cbn.
  - eapply mapR_Forall; [apply parse_entry_point_Ok|eassumption].
  - apply items_sorted_ok. eapply (NoDup_fmap_1 id). rewrite list_fmap_id.
    match goal with H : get_or _ "environment" _ = _ |- _ => apply Hn in H; revert H end.
    by rewrite <-list_fmap_compose.
  - apply items_sorted_ok. eauto.
Qed.

Section theorems.
Context {PV : Pep440} {HA : HostApi} {W : WordChars}.

(** ** The parts of a manifest *)

Record component_ok (c : BundleComponent) : Prop := {
  co_id : _IDENTIFIER (component_id c) = true ∧ filled (component_id c);
  co_contracts : contracts c ≠ [] ∧ NoDup (contracts c) ∧ forallb (starts_with "vllm.") (contracts c) = true;
  co_planes : NoDup (execution_planes c) ∧ execution_planes c ⊆ _PLANES;
  co_isolation : isolation c ∈ _ISOLATIONS ∧ filled (isolation c);
  co_reference : _IMPLEMENTATION (implementation_ref c) = true ∧ filled (implementation_ref c);
  co_permissions : NoDup (permissions c) ∧ permissions c ⊆ _PERMISSIONS;
}.

Definition range_ok (r : string) : Prop := filled r ∧ is_Some (SpecifierSet r).
Definition range_opt_ok (o : option string) : Prop := match o with Some r => range_ok r | None => True end.

Definition host_ok (h : HostSpec) : Prop :=
  _IDENTIFIER (host_provider h) = true ∧ filled (host_provider h) ∧ filled (host_name h) ∧ range_ok (host_range h) ∧
  range_opt_ok (api_range h).
Definition runtime_ok (r : RuntimeSpec) : Prop :=
  rt_type r ∈ _RUNTIMES ∧ filled (rt_type r) ∧ filled (process_scope r) ∧ filled (rt_isolation r).
Definition protocol_ok (p : ProtocolSpec) : Prop := filled (proto_name p) ∧ range_opt_ok (proto_range p).
Definition module_ok (attributes : list (string * json)) : Prop :=
  has_exactly ["module"; "object"; "status"] attributes = true ∧
  ∃ module obj status, json_get "module" attributes = JStr module ∧ json_get "object" attributes = JStr obj ∧
    json_get "status" attributes = JStr status ∧ filled module ∧ filled obj ∧ filled status ∧
    is_dotted module = true ∧ is_word obj = true ∧ status ∈ ["active"; "import_only"; "legacy_unregistered"].
Definition carrier_ok (c : ImplementationCarrier) : Prop :=
  carrier_type c ∈ _CARRIERS ∧ filled (carrier_type c) ∧ attributes c ≠ [] ∧ sorted_items (attributes c) ∧
  "type" ∉ (attributes c).*1 ∧ (carrier_type c = "python_module" → module_ok (attributes c)).
Definition service_ok (s : RequiredService) : Prop :=
  filled (service_id s) ∧ filled (sv_protocol s) ∧ range_opt_ok (sv_range s) ∧ filled (endpoint_config s).
Definition dependency_ok (d : RequiredExtension) : Prop :=
  _IDENTIFIER (rx_id d) = true ∧ filled (rx_id d) ∧ range_ok (rx_range d).
Definition claim_ok (c : ResourceClaim) : Prop :=
  _RESOURCE (claim_resource c) = true ∧ _RESOURCE (claim_scope c) = true ∧ filled (claim_resource c) ∧
  filled (claim_scope c) ∧ claim_mode c ∈ _RESOURCE_CLAIM_MODES ∧ filled (claim_mode c).

Lemma get_or_array d k kv l : get_or d k kv = JArr l → d = JArr [] → assoc k kv = None ∧ l = [] ∨ assoc k kv = Some (JArr l).
Proof. unfold get_or. intros H ->. destruct (assoc k kv); naive_solver. Qed.

Lemma parse_component_Ok raw c : parse_component raw = Ok c → component_ok c.
Proof.
  unfold parse_component. intros H. parsed.
  split; cbn; unfold filled; split_and?; try done; set_solver.
Qed.

Lemma check_range_Ok r s : check_range r = Ok s ↔ SpecifierSet r = Some s.
Proof. unfold check_range. destruct (SpecifierSet r); naive_solver. Qed.

Lemma specifier_Ok v r : _specifier v = Ok r → range_ok r.
Proof.
  unfold _specifier. intros H. parsed.
  match goal with H : check_range _ = Ok _ |- _ => apply check_range_Ok in H end.
  split; [done|by eexists].
Qed.

Lemma optional_specifier_Ok v o : _optional_specifier v = Ok o → range_opt_ok o.
Proof.
  intros H. assert (o = None ∨ ∃ r, o = Some r ∧ _specifier v = Ok r) as [->|(r & -> & Hr)]; [|done|by eapply specifier_Ok].
  unfold _optional_specifier in H. destruct v; [by injection H as <-; left|..]; right;
    apply result_bind_Ok in H as (r & Hr & [= <-]); by exists r.
Qed.

Lemma parse_host_Ok v h : _parse_host v = Ok h → host_ok h.
Proof.
  unfold _parse_host. intros H. parsed. unfold host_ok. cbn.
  split_and!; try done; [by eapply specifier_Ok|by eapply optional_specifier_Ok].
Qed.

Lemma parse_runtime_Ok v r : _parse_runtime v = Ok r → runtime_ok r.
Proof. unfold _parse_runtime. intros H. parsed. unfold runtime_ok. cbn. split_and!; try done. set_solver. Qed.

Lemma parse_protocol_Ok v p : parse_protocol v = Ok p → protocol_ok p.
Proof.
  unfold parse_protocol. intros H. parsed. split; [done|]. by eapply optional_specifier_Ok.
Qed.

Lemma check_python_module_Ok attributes u : check_python_module attributes = Ok u ↔ module_ok attributes.
Proof.
  unfold check_python_module, module_ok. split.
  - intros H. parsed. split; [done|]. do 3 eexists. split_and!; try done.
    unfold bad_if in *. match goal with H : raise_if _ _ = Ok _ |- _ => apply raise_if_Ok, negb_false_iff, among_spec in H end.
    done.
  - intros (He & m & o & s & Hm & Ho & Hs & ? & ? & ? & Hd & Hw & Hst). rewrite bad_if_bind, He. split; [done|].
    rewrite Hm, Ho, Hs. cbn [Manifest._string]. unfold filled in *.
    repeat match goal with H : is_blank _ = false |- _ => rewrite H; clear H end. cbn [mbind result_bind].
    rewrite !bad_if_bind, Hd, Hw. split_and!; [done..|]. destruct u. apply raise_if_Ok, negb_false_iff, among_spec, Hst.
Qed.

Lemma parse_carrier_Ok v c : unique_keys v → parse_carrier v = Ok c → carrier_ok c.
Proof.
  unfold parse_carrier. intros Hu H. cbv zeta in *. parsed.
  match goal with H : (if _ then _ else _) = Ok _ |- _ => rename H into Hmod end.
  set (rest := filter (λ p : string * json, p.1 ≠ "type") _) in *.
  assert (NoDup rest.*1) as Hn.
  { eapply sublist_NoDup; [by apply unique_keys_NoDup|]. apply fmap_sublist, sublist_filter. }
  assert ("type" ∉ rest.*1) as Ht.
  { intros ([k w] & E & Hin)%list_elem_of_fmap. cbn in E. subst k. unfold rest in Hin.
    by apply list_elem_of_filter in Hin as [Hne _]. }
  assert (items_sorted rest ≡ₚ rest) as Hp by apply sort_on_perm.
  unfold carrier_ok. cbn. split_and!.
  - set_solver.
  - done.
  - intros E. rewrite E in Hp. by apply Permutation_nil in Hp.
  - by apply items_sorted_ok.
  - by rewrite Hp.
  - intros E. rewrite bool_decide_eq_true_2 in Hmod by done. apply check_python_module_Ok in Hmod.
    destruct Hmod as [He Hmod]. rewrite has_exactly_spec in He. split.
    + apply has_exactly_spec. intros k. rewrite <-He. by rewrite Hp.
    + assert (∀ k, json_get k (items_sorted rest) = json_get k rest) as Hg; [|by setoid_rewrite Hg].
      intros k. unfold json_get. f_equal. destruct (assoc k rest) eqn:Ea.
      * apply assoc_NoDup; [by rewrite Hp|]. rewrite Hp. by apply assoc_elem_of.
      * destruct (assoc k (items_sorted rest)) eqn:Eb; [|done]. apply assoc_elem_of in Eb. rewrite Hp in Eb.
        by rewrite (assoc_NoDup _ _ _ Hn Eb) in Ea.
Qed.

Lemma parse_service_Ok v s : parse_service v = Ok s → service_ok s.
Proof.
  unfold parse_service. intros H. parsed. unfold service_ok. cbn. split_and!; try done.
  by eapply optional_specifier_Ok.
Qed.

Lemma parse_dependency_Ok v d : parse_dependency v = Ok d → dependency_ok d.
Proof.
  unfold parse_dependency. intros H. parsed. unfold dependency_ok. cbn. split_and!; try done.
  by eapply specifier_Ok.
Qed.

Lemma parse_claim_Ok v c : parse_claim v = Ok c → claim_ok c.
Proof. unfold parse_claim. intros H. parsed. unfold claim_ok. cbn. split_and!; try done. set_solver. Qed.

(** ** The whole *)

Definition components_ok (l : list BundleComponent) : Prop :=
  l ≠ [] ∧ Forall component_ok l ∧ NoDup (component_id <$> l).
Definition admits_host (range : string) : Prop :=
  ∃ s, SpecifierSet range = Some s ∧ contains s HOST_API_VERSION = true.
Definition bundle_ok (id version : string) : Prop :=
  _IDENTIFIER id = true ∧ filled id ∧ filled version ∧ is_Some (Version version).

Record legacy_ok (m : BundleManifest) : Prop := {
  lo_bundle : bundle_ok (bundle_id m) (bundle_version m);
  lo_range : filled (host_api_range m) ∧ admits_host (host_api_range m);
  lo_components : components_ok (components m);
  lo_activation : activation_ok (activation m);
  lo_defaults : m = mkManifest (bundle_id m) (bundle_version m) (host_api_range m) (components m) (activation m) "1.0"
    "legacy_vllm_bundle" DEFAULT_HOST DEFAULT_RUNTIME "vllm" [] [] [] [] [];
}.

Record experimental_ok (m : BundleManifest) : Prop := {
  xo_version : schema_version m ∈ EXPERIMENTAL_VERSIONS ∧ host_api_range m = ">=0";
  xo_bundle : bundle_ok (bundle_id m) (bundle_version m);
  xo_kind : kind m ∈ _KINDS ∧ filled (kind m) ∧ lifecycle_owner m ∈ _LIFECYCLE_OWNERS ∧ filled (lifecycle_owner m);
  xo_components : components m = [] ∨ components_ok (components m) ∧ filled ">=1,<2" ∧ admits_host ">=1,<2";
  xo_activation : activation_ok (activation m);
  xo_host : host_ok (host m) ∧ runtime_ok (runtime m);
  xo_protocols : Forall protocol_ok (protocols m);
  xo_implementation : implementation m ≠ [] ∧ Forall carrier_ok (implementation m);
  xo_services : Forall service_ok (requires_services m);
  xo_extensions : Forall dependency_ok (requires_extensions m) ∧ NoDup (rx_id <$> requires_extensions m);
  xo_claims : Forall claim_ok (resource_claims m) ∧ NoDup (resource_claims m);
  xo_fields : schema_version m = "0.2-experimental" → resource_claims m = [] ∧ requires_extensions m = [];
}.

Definition manifest_ok (m : BundleManifest) : Prop := legacy_ok m ∨ experimental_ok m.

Lemma check_version_Ok v u : check_version v = Ok u ↔ is_Some (Version v).
Proof.
  unfold check_version, bad_if. rewrite raise_if_Ok, bool_decide_eq_false, <-not_eq_None_Some. done.
Qed.

Lemma parse_components_Ok v l : parse_components v = Ok l → l ≠ [] ∧ Forall component_ok l.
Proof.
  unfold parse_components. destruct v as [| | | | |[|x k]|]; try done. intros H. split.
  - apply mapR_Ok in H. by inversion H.
  - eapply mapR_Forall; [|exact H]. apply parse_component_Ok.
Qed.

Lemma parse_legacy_Ok v m : unique_keys v → _parse_legacy_manifest v = Ok m → legacy_ok m.
Proof.
  unfold _parse_legacy_manifest. intros Hu H. parsed.
  match goal with H : check_version _ = Ok _ |- _ => apply check_version_Ok in H end.
  match goal with H : check_range _ = Ok _ |- _ => apply check_range_Ok in H end.
  match goal with H : parse_components _ = Ok _ |- _ => apply parse_components_Ok in H as [? ?] end.
  match goal with H : has_duplicates _ = false |- _ => apply has_duplicates_false in H end.
  split; cbn; unfold bundle_ok, components_ok, admits_host, filled; split_and?; eauto.
  eapply parse_activation_Ok; [|eassumption]. by apply unique_get.
Qed.

Lemma in_strings_Ok v l b : in_strings v l = Ok b → b = true → ∃ s, v = JStr s ∧ s ∈ l.
Proof. intros H ->. destruct v; try done. injection H as H. apply among_spec in H. eauto. Qed.

Lemma parse_legacy_range kv m :
  _parse_legacy_manifest (JObj kv) = Ok m → json_get "host_api_range" kv = JStr (host_api_range m).
Proof. unfold _parse_legacy_manifest. intros H. parsed. by simplify_eq. Qed.

Lemma experimental_components_Ok id version kv l :
  unique_keys (JObj kv) → experimental_components id version kv = Ok l →
  l = [] ∨ components_ok l ∧ filled ">=1,<2" ∧ admits_host ">=1,<2".
Proof.
  unfold experimental_components. intros Hu H. destruct (truthy _); [|injection H as <-; by left].
  apply result_bind_Ok in H as (m & Hm & [= <-]). right. apply parse_legacy_Ok in Hm as Hok.
  - destruct Hok as [_ [? Hr] Hc _ _]. split_and!; [done|vm_compute; reflexivity|].
    apply parse_legacy_range in Hm. cbn in Hm. injection Hm as Hm. by rewrite Hm.
  - apply unique_keys_obj. split.
    + apply (bool_decide_unpack _). vm_compute. exact I.
    + repeat constructor; cbn; by apply (unique_get _ kv).
Qed.

Lemma parse_implementation_Ok v l :
  unique_keys v → _parse_implementation v = Ok l → l ≠ [] ∧ Forall carrier_ok l.
Proof.
  intros Hu H. destruct v as [| | | | |[|x k]|]; try done. apply unique_keys_arr in Hu. split.
  - apply mapR_Ok in H. by inversion H.
  - eapply mapR_Forall_in; [|exact H]. intros y c Hy. apply parse_carrier_Ok.
    rewrite Forall_forall in Hu. auto.
Qed.

Lemma absent_array {A} k kv l (f : json → result manifest_exn A) ys :
  has_key k kv = false → get_or (JArr []) k kv = JArr l → mapR f l = Ok ys → ys = [].
Proof.
  intros Hk Hl H. assert (assoc k kv = None) as E.
  { apply eq_None_not_Some. rewrite assoc_is_Some, <-among_spec. unfold has_key in Hk. congruence. }
  unfold get_or in Hl. rewrite E in Hl. injection Hl as <-. apply mapR_Ok in H. by inversion H.
Qed.

Lemma parse_experimental_Ok v m : unique_keys v → _parse_experimental_manifest v = Ok m → experimental_ok m.
Proof.
  unfold _parse_experimental_manifest. intros Hu H. parsed.
  repeat match goal with
  | H : check_version _ = Ok _ |- _ => apply check_version_Ok in H
  | H : _parse_protocols _ = Ok _ |- _ => unfold _parse_protocols in H; parsed
  | H : _parse_services _ = Ok _ |- _ => unfold _parse_services in H; parsed
  | H : _parse_extension_dependencies _ = Ok _ |- _ => unfold _parse_extension_dependencies in H; parsed
  | H : _parse_resource_claims _ = Ok _ |- _ => unfold _parse_resource_claims in H; parsed
  | H : has_duplicates _ = false |- _ => apply has_duplicates_false in H
  end.
  match goal with H : in_strings _ _ = Ok _ |- _ => apply in_strings_Ok in H as (sv & Esv & Hsv); [|done] end.
  rewrite Esv in *. parsed.
  split; cbn; unfold bundle_ok, filled; split_and?; eauto using mapR_Forall, parse_protocol_Ok, parse_service_Ok,
    parse_dependency_Ok, parse_claim_Ok, parse_host_Ok, parse_runtime_Ok.
  - set_solver.
  - set_solver.
  - by eapply experimental_components_Ok.
  - eapply parse_activation_Ok; [|eassumption]. by apply unique_get.
  - by eapply parse_implementation_Ok; [apply unique_get|].
  - by eapply parse_implementation_Ok; [apply unique_get|].
  - intros ->. rewrite !bool_decide_eq_true_2 in * by done. cbn [andb] in *. split.
    + eapply (absent_array "resource_claims"); eassumption.
    + eapply (absent_array "requires_extensions"); eassumption.
Qed.

Lemma parse_manifest_Ok v m : unique_keys v → parse_manifest v = Ok m → manifest_ok m.
Proof.
  intros Hu H. unfold parse_manifest in H. apply result_bind_Ok in H as (kv & Hkv & H).
  destruct (json_eqb _ _); [left; by eapply parse_legacy_Ok|].
  apply result_bind_Ok in H as ([] & _ & H); [|done]. right. by eapply parse_experimental_Ok.
Qed.

(** ** A manifest written as JSON is read back *)

Lemma value_run {A B} (m : result manifest_exn A) (f : A → result manifest_exn B) x a :
  m = Ok x → f x = Ok a → (x ← m; f x) = Ok a.
Proof. intros -> <-. done. Qed.
Lemma bad_if_run {B} b (r : result manifest_exn B) a : b = false → r = Ok a → (_ ← bad_if b; r) = Ok a.
Proof. intros -> <-. done. Qed.
Lemma known_run {B} k l (r : result manifest_exn B) a : k ⊆ l → r = Ok a → (_ ← _known k l; r) = Ok a.
Proof. intros ? ?. by apply known_bind. Qed.
Lemma fields_run {B} fields required kv (r : result manifest_exn B) a :
  only_fields fields kv && has_fields required kv = true → r = Ok a →
  (_ ← check_fields fields required kv; r) = Ok a.
Proof. intros [H1 H2]%andb_true_iff <-. unfold check_fields. by rewrite H1, H2. Qed.
Lemma string_pass v s : v = JStr s → filled s → Manifest._string v = Ok s.
Proof. intros -> H. by apply string_Ok. Qed.
Lemma strings_pass v ss : v = JArr (JStr <$> ss) → NoDup ss → _strings v = Ok ss.
Proof. intros -> H. by apply strings_Ok. Qed.
Lemma range_pass v r : v = JStr r → range_ok r → _specifier v = Ok r.
Proof.
  intros -> [Hr [s Hs]]. unfold _specifier. apply (value_run _ _ r); [by apply string_Ok|].
  apply (value_run _ _ s); [|done]. by apply check_range_Ok.
Qed.
Lemma range_opt_pass v o : v = jstr_opt o → range_opt_ok o → _optional_specifier v = Ok o.
Proof.
  intros -> H. destruct o as [r|]; [|done]. cbn [jstr_opt _optional_specifier].
  apply (value_run _ _ r); [|done]. by apply range_pass.
Qed.

Ltac side := first [done | reflexivity | assumption | set_solver].
Ltac run :=
  repeat first
    [ apply bad_if_run; [first [done | by apply bool_decide_eq_false_2 | by apply has_duplicates_false
                               | apply negb_false_iff; first [done|assumption]
                               | apply orb_false_iff; split; [by apply bool_decide_eq_false_2|by apply negb_false_iff]
                               | apply orb_false_iff; split; by apply negb_false_iff]|]
    | apply fields_run; [reflexivity|]
    | apply known_run; [set_solver|]
    | eapply value_run; [first [eapply string_pass; [reflexivity|assumption]
                               |eapply strings_pass; [reflexivity|assumption]
                               |eapply range_pass; [reflexivity|assumption]
                               |eapply range_opt_pass; [reflexivity|assumption]
                               |reflexivity]|] ].

Definition component_json (c : BundleComponent) : json :=
  JObj [("component_id", JStr (component_id c)); ("contracts", JArr (JStr <$> contracts c));
        ("execution_planes", JArr (JStr <$> execution_planes c)); ("isolation", JStr (isolation c));
        ("implementation_ref", JStr (implementation_ref c)); ("permissions", JArr (JStr <$> permissions c))].

Lemma parse_component_json c : component_ok c → parse_component (component_json c) = Ok c.
Proof.
  intros [[? ?] (? & ? & ?) [? ?] [? ?] [? ?] [? ?]]. unfold parse_component, component_json.
  eapply value_run; [reflexivity|]. run. by destruct c.
Qed.

Definition host_json (h : HostSpec) : json :=
  JObj [("provider", JStr (host_provider h)); ("name", JStr (host_name h)); ("version_range", JStr (host_range h));
        ("api_range", jstr_opt (api_range h))].
Lemma parse_host_json h : host_ok h → _parse_host (host_json h) = Ok h.
Proof. intros (? & ? & ? & ? & ?). unfold _parse_host, host_json. run. by destruct h. Qed.

Definition runtime_json (r : RuntimeSpec) : json :=
  JObj [("type", JStr (rt_type r)); ("process_scope", JStr (process_scope r)); ("isolation", JStr (rt_isolation r))].
Lemma parse_runtime_json r : runtime_ok r → _parse_runtime (runtime_json r) = Ok r.
Proof. intros (? & ? & ? & ?). unfold _parse_runtime, runtime_json. run. by destruct r. Qed.

Definition protocol_json (p : ProtocolSpec) : json :=
  JObj [("name", JStr (proto_name p)); ("version_range", jstr_opt (proto_range p))].
Lemma parse_protocol_json p : protocol_ok p → parse_protocol (protocol_json p) = Ok p.
Proof. intros (? & ?). unfold parse_protocol, protocol_json. run. by destruct p. Qed.

Definition service_json (s : RequiredService) : json :=
  JObj [("service_id", JStr (service_id s)); ("protocol", JStr (sv_protocol s)); ("version_range", jstr_opt (sv_range s));
        ("endpoint_config", JStr (endpoint_config s)); ("optional", JBool (optional s))].
Lemma parse_service_json s : service_ok s → parse_service (service_json s) = Ok s.
Proof. intros (? & ? & ? & ?). unfold parse_service, service_json. run. by destruct s. Qed.

Definition dependency_json (d : RequiredExtension) : json :=
  JObj [("extension_id", JStr (rx_id d)); ("version_range", JStr (rx_range d))].
Lemma parse_dependency_json d : dependency_ok d → parse_dependency (dependency_json d) = Ok d.
Proof. intros (? & ? & ?). unfold parse_dependency, dependency_json. run. by destruct d. Qed.

Definition claim_json (c : ResourceClaim) : json :=
  JObj [("resource", JStr (claim_resource c)); ("scope", JStr (claim_scope c)); ("mode", JStr (claim_mode c))].
Lemma parse_claim_json c : claim_ok c → parse_claim (claim_json c) = Ok c.
Proof. intros (? & ? & ? & ? & ? & ?). unfold parse_claim, claim_json. run. by destruct c. Qed.

Lemma parse_activation_json a : activation_ok a → _parse_activation (activation_json a) = Ok a.
Proof.
  intros [He Hn Ha]. unfold activation_json. cbn [_parse_activation].
  eapply value_run; [reflexivity|]. run.
  eapply value_run; [apply mapR_fmap|].
  { eapply Forall_impl; [exact He|]. intros e [? ?]. unfold parse_entry_point, entry_point_json. run. by destruct e. }
  run. eapply value_run; [by apply text_values_Ok|]. run. rewrite !items_sorted_id by done. by destruct a.
Qed.

Definition carrier_json (c : ImplementationCarrier) : json := JObj (("type", JStr (carrier_type c)) :: attributes c).
Lemma parse_carrier_json c : carrier_ok c → parse_carrier (carrier_json c) = Ok c.
Proof.
  intros (Ht & Hf & Hne & Hs & Hn & Hm). unfold parse_carrier, carrier_json. run. cbv zeta.
  rewrite filter_cons_False by (cbn; naive_solver).
  assert (filter (λ p : string * json, p.1 ≠ "type") (attributes c) = attributes c) as ->.
  { clear -Hn. induction (attributes c) as [|[k v] l IH]; [done|].
    rewrite fmap_cons, not_elem_of_cons in Hn. destruct Hn as [Hk Hn].
    rewrite filter_cons_True by naive_solver. f_equal. by apply IH. }
  run. apply (value_run _ _ ()).
  { case_bool_decide; [|done]. apply check_python_module_Ok. auto. }
  rewrite items_sorted_id by done. by destruct c.
Qed.

Definition legacy_fields (id version range : string) (l : list BundleComponent) (activation : json)
    : list (string * json) :=
  [("schema_version", JStr "1.0"); ("bundle_id", JStr id); ("bundle_version", JStr version);
   ("host_api_range", JStr range); ("components", JArr (component_json <$> l)); ("activation", activation)].
Definition experimental_fields (m : BundleManifest) : list (string * json) :=
  [("schema_version", JStr (schema_version m)); ("extension_id", JStr (bundle_id m));
   ("extension_version", JStr (bundle_version m)); ("kind", JStr (kind m)); ("host", host_json (host m));
   ("runtime", runtime_json (runtime m)); ("lifecycle_owner", JStr (lifecycle_owner m));
   ("protocols", JArr (protocol_json <$> protocols m)); ("implementation", JArr (carrier_json <$> implementation m));
   ("requires_services", JArr (service_json <$> requires_services m));
   ("components", JArr (component_json <$> components m)); ("activation", activation_json (activation m))].
Definition manifest_json (m : BundleManifest) : json :=
  if bool_decide (schema_version m = "1.0")
  then JObj (legacy_fields (bundle_id m) (bundle_version m) (host_api_range m) (components m)
               (activation_json (activation m)))
  else JObj (experimental_fields m ++
             if bool_decide (schema_version m = "0.2-experimental") then []
             else [("requires_extensions", JArr (dependency_json <$> requires_extensions m));
                   ("resource_claims", JArr (claim_json <$> resource_claims m))]).

Lemma parse_components_json l : components_ok l → parse_components (JArr (component_json <$> l)) = Ok l.
Proof.
  intros (Hne & Hall & _). destruct l as [|c l]; [done|]. rewrite fmap_cons. cbn [parse_components].
  rewrite <-fmap_cons. apply mapR_fmap. eapply Forall_impl; [exact Hall|]. apply parse_component_json.
Qed.

Lemma parse_legacy_fields id version range l v a :
  bundle_ok id version → filled range → admits_host range → components_ok l → _parse_activation v = Ok a →
  _parse_legacy_manifest (JObj (legacy_fields id version range l v)) =
  Ok (mkManifest id version range l a "1.0" "legacy_vllm_bundle" DEFAULT_HOST DEFAULT_RUNTIME "vllm" [] [] [] [] []).
Proof.
  intros (? & ? & ? & ?) Hr (s & Hs & Hc) Hl Ha. unfold _parse_legacy_manifest, legacy_fields. run.
  apply (value_run _ _ ()); [by apply check_version_Ok|]. run.
  apply (value_run _ _ s); [by apply check_range_Ok|]. run.
  eapply value_run; [by apply parse_components_json|]. destruct Hl as (_ & _ & Hn). run.
  by eapply value_run.
Qed.

Lemma experimental_components_json m kv :
  bundle_ok (bundle_id m) (bundle_version m) → activation_ok (activation m) →
  components m = [] ∨ components_ok (components m) ∧ filled ">=1,<2" ∧ admits_host ">=1,<2" →
  json_get "components" kv = JArr (component_json <$> components m) →
  json_get "activation" kv = activation_json (activation m) →
  experimental_components (bundle_id m) (bundle_version m) kv = Ok (components m).
Proof.
  intros Hb Ha Hc Ec Ea. unfold experimental_components. rewrite Ec, Ea.
  destruct Hc as [->|(Hc & Hf & Hh)]; [done|].
  assert (truthy (JArr (component_json <$> components m)) = true) as ->.
  { destruct Hc as [Hne _]. by destruct (components m). }
  apply (value_run _ _ _ _ (parse_legacy_fields _ _ _ _ _ _ Hb Hf Hh Hc (parse_activation_json _ Ha))). done.
Qed.

Lemma mapR_json {A} (f : json → result manifest_exn A) (g : A → json) (P : A → Prop) l :
  (∀ x, P x → f (g x) = Ok x) → Forall P l → mapR f (g <$> l) = Ok l.
Proof. intros Hf Hl. apply mapR_fmap. by eapply Forall_impl. Qed.

Lemma parse_implementation_json l :
  l ≠ [] → Forall carrier_ok l → _parse_implementation (JArr (carrier_json <$> l)) = Ok l.
Proof.
  intros Hne Hall. destruct l as [|c l]; [done|]. rewrite fmap_cons. cbn [_parse_implementation].
  rewrite <-fmap_cons. eapply mapR_json; [|exact Hall]. apply parse_carrier_json.
Qed.

Lemma parse_experimental_json m :
  experimental_ok m → _parse_experimental_manifest (manifest_json m) = Ok m.
Proof.
  intros [[Hv Hr] Hb (? & ? & ? & ?) Hc Ha [Hh Hrt] Hp [Hi Hi'] Hs [Hx Hx'] [Hcl Hcl'] H02].
  set (kv := experimental_fields m ++
             if bool_decide (schema_version m = "0.2-experimental") then []
             else [("requires_extensions", JArr (dependency_json <$> requires_extensions m));
                   ("resource_claims", JArr (claim_json <$> resource_claims m))]).
  assert (manifest_json m = JObj kv) as ->.
  { unfold manifest_json, kv. rewrite (bool_decide_eq_false_2 (schema_version m = "1.0")); [done|].
    intros E. rewrite E in Hv. set_solver. }
  destruct Hb as (? & ? & ? & ?) eqn:E0; clear E0.
  assert (schema_version m = "0.2-experimental" ∨ schema_version m = "0.3-experimental") as Hcase by set_solver.
  unfold _parse_experimental_manifest. run.
  apply fields_run; [unfold kv; destruct Hcase as [-> | ->]; reflexivity|]. run.
  apply (value_run _ _ ()); [by apply check_version_Ok|]. run.
  eapply value_run; [by eapply (experimental_components_json m)|].
  apply (value_run _ _ true).
  { change (json_get "schema_version" kv) with (JStr (schema_version m)). cbn. f_equal. by apply among_spec. }
  run.
  apply bad_if_run; [unfold kv; by destruct Hcase as [-> | ->]|].
  apply bad_if_run; [unfold kv; by destruct Hcase as [-> | ->]|].
  eapply value_run; [by apply parse_activation_json|].
  eapply value_run; [by apply parse_host_json|].
  eapply value_run; [by apply parse_runtime_json|].
  eapply value_run; [by eapply mapR_json, Hp; apply parse_protocol_json|].
  eapply value_run.
  { change (json_get "implementation" kv) with (JArr (carrier_json <$> implementation m)).
    by apply parse_implementation_json. }
  eapply value_run; [by eapply mapR_json, Hs; apply parse_service_json|].
  assert (get_or (JArr []) "requires_extensions" kv = JArr (dependency_json <$> requires_extensions m)) as ->.
  { unfold kv. destruct Hcase as [E|E]; rewrite E; [by destruct (H02 E) as [_ ->]|done]. }
  assert (get_or (JArr []) "resource_claims" kv = JArr (claim_json <$> resource_claims m)) as ->.
  { unfold kv. destruct Hcase as [E|E]; rewrite E; [by destruct (H02 E) as [-> _]|done]. }
  eapply value_run.
  { unfold _parse_extension_dependencies. eapply value_run; [done|].
    eapply value_run; [by eapply mapR_json, Hx; apply parse_dependency_json|]. by run. }
  eapply value_run.
  { unfold _parse_resource_claims. eapply value_run; [done|].
    eapply value_run; [by eapply mapR_json, Hcl; apply parse_claim_json|]. by run. }
  rewrite <-Hr. by destruct m.
Qed.

(** C35: Every manifest parse_manifest returns, of any of the three schema versions and
    from any JSON without repeated keys, is well formed (identifiers, versions, ranges,
    planes, permissions, carriers, unique ids and claims), and every well-formed
    manifest written out as JSON is parsed back to itself. *)
Theorem manifests_are_well_formed (m : BundleManifest) :
  (∀ payload, unique_keys payload → parse_manifest payload = Ok m → manifest_ok m) ∧
  (manifest_ok m → parse_manifest (manifest_json m) = Ok m).
Proof.
  split; [intros payload; apply parse_manifest_Ok|]. intros [Hok|Hok].
  - destruct Hok as [Hb [Hr Hh] Hc Ha ->]. cbn in Hb, Hr, Hh, Hc, Ha |- *. unfold parse_manifest.
    exact (parse_legacy_fields _ _ _ _ _ _ Hb Hr Hh Hc (parse_activation_json _ Ha)).
  - pose proof (parse_experimental_json m Hok) as H. destruct Hok as [[Hv _] _ _ _ _ _ _ _ _ _ _ _].
    unfold parse_manifest.
    assert (∃ kv, manifest_json m = JObj kv ∧ json_get "schema_version" kv = JStr (schema_version m)) as (kv & E & Ev).
    { unfold manifest_json. rewrite bool_decide_eq_false_2; [by eexists|]. intros E. rewrite E in Hv. set_solver. }
    rewrite E in H |- *. cbn [_object mbind result_bind]. rewrite Ev. cbn [json_eqb in_strings mbind result_bind].
    rewrite bool_decide_eq_false_2; [|intros E'; rewrite E' in Hv; set_solver].
    assert (among EXPERIMENTAL_VERSIONS (schema_version m) = true) as -> by by apply among_spec. exact H.
Qed.
End theorems.

Lemma loads_text_unique {F : FloatText} (text : string) (v : json) :
  loads_text (E := ()) plain_hook plain_constant text = Ok v → unique_keys v.
Proof.
  unfold loads_text. intros ([w rest] & Hw & Hr)%result_bind_Ok. case_bool_decide; simplify_eq.
  refine (proj1 (scan_unique plain_hook plain_constant _ _ _) _ _ _ Hw).
  - intros kv u. apply plain_hook_unique.
  - by intros name u [= <-].
Qed.

Lemma load_manifest_Ok {F : FloatText} {PV : Pep440} {HA : HostApi} {W : WordChars} file m :
  load_manifest file = Ok m → manifest_ok m.
Proof.
  unfold load_manifest. intros [_ H]%bad_if_bind. destruct (read_text file) as [text|]; [|done].
  destruct (loads_text _ _ text) as [v|[]] eqn:E; try done. eapply parse_manifest_Ok; [|exact H].
  by eapply loads_text_unique.
Qed.

(** ** Errors *)

Definition not_iterable (v : json) : bool :=
  match v with JNull | JBool _ | JInt _ | JFloat _ => true | _ => false end.
Definition unhashable (v : json) : bool := match v with JArr _ | JObj _ => true | _ => false end.

(** What makes the parser raise something else than its own error. *)
Definition bad_entry_points (activation : json) : Prop :=
  ∃ kv, activation = JObj kv ∧ not_iterable (get_or (JArr []) "entry_points" kv) = true.
Definition type_error_source (payload : json) : Prop :=
  ∃ kv, payload = JObj kv ∧
    (unhashable (json_get "schema_version" kv) = true ∨ bad_entry_points (json_get "activation" kv)).

Section errors.
Context {PV : Pep440} {HA : HostApi} {W : WordChars}.

Section parts.
Context (P : manifest_exn → Prop) (HP : P ManifestError).
#[local] Hint Resolve HP : raises.

Lemma bad_raises {A} : raises_only P (bad : result manifest_exn A).
Proof. unfold bad. solve_raises. Qed.
Lemma bad_if_raises b : raises_only P (bad_if b).
Proof. unfold bad_if. solve_raises. Qed.
#[local] Hint Resolve bad_raises bad_if_raises : raises.
Lemma object_raises v : raises_only P (_object v).
Proof. unfold _object. solve_raises. Qed.
Lemma manifest_string_raises v : raises_only P (Manifest._string v).
Proof. unfold Manifest._string. solve_raises. Qed.
Lemma manifest_strings_raises v : raises_only P (_strings v).
Proof. unfold _strings. solve_raises. Qed.
Lemma known_raises k l : raises_only P (_known k l).
Proof. unfold _known. solve_raises. Qed.
Lemma fields_raises f r kv : raises_only P (check_fields f r kv).
Proof. unfold check_fields. solve_raises. Qed.
Lemma array_raises v : raises_only P (_array v).
Proof. unfold _array. solve_raises. Qed.
Lemma version_raises v : raises_only P (check_version v).
Proof. unfold check_version. solve_raises. Qed.
Lemma range_raises v : raises_only P (check_range v).
Proof. unfold check_range. solve_raises. Qed.
#[local] Hint Resolve object_raises manifest_string_raises manifest_strings_raises known_raises fields_raises array_raises
  version_raises range_raises : raises.
Lemma specifier_raises v : raises_only P (_specifier v).
Proof. unfold _specifier. solve_raises. Qed.
#[local] Hint Resolve specifier_raises : raises.
Lemma optional_specifier_raises v : raises_only P (_optional_specifier v).
Proof. unfold _optional_specifier. solve_raises. Qed.
Lemma component_raises v : raises_only P (parse_component v).
Proof. unfold parse_component. solve_raises. Qed.
#[local] Hint Resolve optional_specifier_raises component_raises : raises.
Lemma components_raises v : raises_only P (parse_components v).
Proof. unfold parse_components. solve_raises. Qed.
Lemma host_raises v : raises_only P (_parse_host v).
Proof. unfold _parse_host. solve_raises. Qed.
Lemma runtime_raises v : raises_only P (_parse_runtime v).
Proof. unfold _parse_runtime. solve_raises. Qed.
Lemma protocols_raises v : raises_only P (_parse_protocols v).
Proof. unfold _parse_protocols, parse_protocol. solve_raises. Qed.
Lemma module_raises kv : raises_only P (check_python_module kv).
Proof. unfold check_python_module. solve_raises. Qed.
#[local] Hint Resolve module_raises : raises.
Lemma implementation_raises v : raises_only P (_parse_implementation v).
Proof. unfold _parse_implementation, parse_carrier. cbv zeta. solve_raises. Qed.
Lemma services_raises v : raises_only P (_parse_services v).
Proof. unfold _parse_services, parse_service. solve_raises. Qed.
Lemma dependencies_raises v : raises_only P (_parse_extension_dependencies v).
Proof. unfold _parse_extension_dependencies, parse_dependency. solve_raises. Qed.
Lemma claims_raises v : raises_only P (_parse_resource_claims v).
Proof. unfold _parse_resource_claims, parse_claim. solve_raises. Qed.
Lemma activation_raises v : (bad_entry_points v → P TypeError) → raises_only P (_parse_activation v).
Proof.
  intros HT. assert (∀ kv, v = JObj kv → raises_only P (iterate (get_or (JArr []) "entry_points" kv))) as Hi.
  { intros kv ->. destruct (get_or (JArr []) "entry_points" kv) eqn:E; cbn; solve_raises;
      apply raises_only_Raise, HT; exists kv; by rewrite E. }
  destruct v as [| | | | | |kv]; cbn [_parse_activation _object]; try solve [solve_raises].
  specialize (Hi kv eq_refl). apply raises_only_bind; [solve_raises|]. intros x [= <-].
  apply raises_only_bind; [solve_raises|]. intros _ _. apply raises_only_bind; [exact Hi|].
  intros raw _. unfold parse_entry_point, text_values. solve_raises.
Qed.
#[local] Hint Resolve components_raises host_raises runtime_raises protocols_raises implementation_raises
  services_raises dependencies_raises claims_raises : raises.
Lemma legacy_raises kv :
  (bad_entry_points (json_get "activation" kv) → P TypeError) → raises_only P (_parse_legacy_manifest (JObj kv)).
Proof.
  intros HT. unfold _parse_legacy_manifest. cbn [_object].
  pose proof (activation_raises _ HT) as Ha.
  apply raises_only_bind; [solve_raises|]. intros x [= <-]. solve_raises.
Qed.
Lemma experimental_raises kv :
  (unhashable (json_get "schema_version" kv) = true ∨ bad_entry_points (json_get "activation" kv) → P TypeError) →
  raises_only P (_parse_experimental_manifest (JObj kv)).
Proof.
  intros HT. unfold _parse_experimental_manifest. cbn [_object].
  assert (raises_only P (_parse_activation (json_get "activation" kv))) as Ha by (apply activation_raises; auto).
  assert (∀ id v, raises_only P (experimental_components id v kv)) as Hc.
  { intros id v. unfold experimental_components.
    case_match; [|solve_raises]. apply raises_only_bind; [|intros ? _; solve_raises]. apply legacy_raises.
    intros H'. apply HT. by right. }
  assert (∀ l, raises_only P (in_strings (json_get "schema_version" kv) l)) as Hs.
  { intros l. destruct (json_get "schema_version" kv) eqn:E; cbn;
      first [solve [solve_raises]|apply raises_only_Raise, HT; left; by rewrite E]. }
  apply raises_only_bind; [solve_raises|]. intros x [= <-]. solve_raises.
Qed.
End parts.

(** parse_manifest raises ManifestError, or TypeError, and that only when schema_version
    is an array or an object or activation.entry_points cannot be iterated. *)
Theorem manifest_errors (payload : json) :
  raises_only (λ e, e = ManifestError ∨ e = TypeError ∧ type_error_source payload) (parse_manifest payload).
Proof.
  unfold parse_manifest. destruct payload as [| | | | | |kv]; cbn [_object]; try (intros e [= <-]; by left).
  apply raises_only_bind; [by intros e|]. intros x [= <-].
  assert (∀ A (r : result manifest_exn A), raises_only (λ e, e = ManifestError ∨ e = TypeError ∧
    (unhashable (json_get "schema_version" kv) = true ∨ bad_entry_points (json_get "activation" kv))) r →
    raises_only (λ e, e = ManifestError ∨ e = TypeError ∧ type_error_source (JObj kv)) r) as Hweak.
  { intros A r Hr e He. destruct (Hr e He) as [->|[-> H]]; [by left|right]. split; [done|]. by exists kv. }
  apply Hweak. destruct (json_eqb _ _); [by apply legacy_raises; auto|].
  apply raises_only_bind.
  - destruct (json_get "schema_version" kv); cbn; try (by intros e); intros e [= <-]; auto.
  - intros [] _; [|by apply bad_raises; left]. apply experimental_raises; auto.
Qed.
End errors.

(** ** The activation blocker *)

Definition declares_inactive (c : ImplementationCarrier) : Prop :=
  ∃ s, status_of c = JStr s ∧ s ∈ ["import_only"; "legacy_unregistered"].

#[export] Instance declares_inactive_dec c : Decision (declares_inactive c).
Proof.
  unfold declares_inactive. destruct (status_of c) as [| | | |s| |]; try (right; naive_solver).
  destruct (decide (s ∈ ["import_only"; "legacy_unregistered"])); [left|right]; naive_solver.
Defined.

Lemma declared_inactive_spec l :
  match declared_inactive l with
  | Ok r => Forall (λ c, unhashable (status_of c) = false) l ∧ (r = [] ↔ Forall (λ c, ¬ declares_inactive c) l)
  | Raise e => e = TypeError ∧ Exists (λ c, unhashable (status_of c) = true) l
  end.
Proof.
  induction l as [|c l IH]; [by split; [constructor|split; [constructor|]]|]. cbn [declared_inactive].
  destruct (in_strings (status_of c) _) as [b|e] eqn:E.
  - cbn [mbind result_bind]. destruct (declared_inactive l) as [r|e]; cbn [mbind result_bind].
    + destruct IH as [H1 H2]. assert (unhashable (status_of c) = false) as Hc by (by destruct (status_of c)).
      split; [by constructor|]. rewrite Forall_cons, <-H2. unfold declares_inactive.
      destruct (status_of c) as [| | | |s| |] eqn:Es; cbn in E; try done; injection E as <-; try (split; [|tauto]; intros ->; split; [|done]; naive_solver).
      destruct (among _ s) eqn:Ha.
      * apply among_spec in Ha. split; [done|]. intros [Hn _]. destruct Hn. by exists s.
      * split; [|tauto]. intros ->. split; [|done]. intros (t & [= <-] & Ht). apply among_spec in Ht. congruence.
    + destruct IH as [-> H]. split; [done|]. by right.
  - cbn [mbind result_bind]. destruct (status_of c) eqn:Es; try done; injection E as <-; (split; [done|]); left; by rewrite Es.
Qed.

(** activation_blocker reports a reason exactly when no carrier is active and one
    declares an inactive status; it raises TypeError only when a carrier's status is an
    array or an object. *)
Theorem blocker_exact (m : BundleManifest) :
  match activation_blocker m with
  | Ok None => Exists (λ c, is_active_carrier c = true) (implementation m) ∨
               Forall (λ c, ¬ declares_inactive c) (implementation m)
  | Ok (Some _) => Forall (λ c, is_active_carrier c = false) (implementation m) ∧
                   ∃ c, c ∈ implementation m ∧ declares_inactive c
  | Raise e => e = TypeError ∧ Exists (λ c, unhashable (status_of c) = true) (implementation m)
  end.
Proof.
  unfold activation_blocker. cbv zeta. pose proof (declared_inactive_spec (implementation m)) as H.
  destruct (declared_inactive _) as [r|e]; [|done]. cbn [mbind result_bind]. destruct H as [_ H].
  destruct (existsb _ _) eqn:E; rewrite ?andb_false_r, ?andb_true_r.
  - left. apply existsb_exists in E as (c & Hc & Ha). apply Exists_exists. exists c. by rewrite list_elem_of_In.
  - assert (Forall (λ c, is_active_carrier c = false) (implementation m)) as Hn.
    { apply Forall_forall. intros c Hc. apply not_true_iff_false. intros Ha.
      apply not_true_iff_false in E. apply E, existsb_exists. exists c. by rewrite <-list_elem_of_In. }
    case_bool_decide as Hr; cbn [negb]; [right; tauto|]. split; [done|].
    assert (¬ Forall (λ c, ¬ declares_inactive c) (implementation m)) as Hx by tauto.
    destruct (decide (Exists declares_inactive (implementation m))) as [Hex|Hex].
    + by apply Exists_exists in Hex.
    + destruct Hx. by apply Forall_Exists_neg.
Qed.

(** ** A manifest of each schema version *)

Module Example.
#[export] Existing Instance release_pep440.

Definition one_point_zero : version := "1.0" ↾ I.
#[export] Instance host_api : HostApi := {| HOST_API_VERSION := one_point_zero; HOST_API_VERSION_ok := eq_refl |}.
#[export] Instance ascii_words : WordChars := λ _, false.

Definition component : json :=
  JObj [("component_id", JStr "policy"); ("contracts", JArr [JStr "vllm.preemption-policy.v1"]);
        ("execution_planes", JArr [JStr "scheduler"]); ("isolation", JStr "trusted_in_process");
        ("implementation_ref", JStr "pkg.policy:Policy")].
Definition legacy_payload : json :=
  JObj [("schema_version", JStr "1.0"); ("bundle_id", JStr "org.policy"); ("bundle_version", JStr "0.3");
        ("host_api_range", JStr ">=1.0"); ("components", JArr [component]);
        ("activation", JObj [("environment", JObj [("B", JStr "2"); ("A", JStr "1")])])].

Definition carrier (status : json) : json :=
  JObj [("type", JStr "python_module"); ("module", JStr "pkg.policy"); ("object", JStr "Policy"); ("status", status)].
Definition experimental_payload (status : json) : json :=
  JObj [("schema_version", JStr "0.3-experimental"); ("extension_id", JStr "org.policy"); ("extension_version", JStr "0.3");
        ("kind", JStr "scheduler_policy");
        ("host", JObj [("provider", JStr "vllm"); ("name", JStr "vllm"); ("version_range", JStr ">=0.23"); ("api_range", JNull)]);
        ("runtime", JObj [("type", JStr "python"); ("process_scope", JStr "worker"); ("isolation", JStr "in-process")]);
        ("lifecycle_owner", JStr "vllm");
        ("protocols", JArr [JObj [("name", JStr "vllm.preemption-policy"); ("version_range", JStr ">=1.0")]]);
        ("implementation", JArr [carrier status]); ("requires_services", JArr []);
        ("requires_extensions", JArr [JObj [("extension_id", JStr "org.base"); ("version_range", JStr ">=1")]]);
        ("resource_claims", JArr [JObj [("resource", JStr "gpu:0"); ("scope", JStr "node"); ("mode", JStr "exclusive")]]);
        ("activation", JObj [("entry_points", JArr [JObj [("group", JStr "vllm.general_plugins"); ("name", JStr "policy")]])])].

Definition parsed_of (payload : json) : BundleManifest :=
  match parse_manifest payload with Ok m => m | Raise _ => mkManifest "" "" "" [] no_activation "" "" DEFAULT_HOST DEFAULT_RUNTIME "" [] [] [] [] [] end.
Definition legacy : BundleManifest := parsed_of legacy_payload.
Definition experimental : BundleManifest := parsed_of (experimental_payload (JStr "active")).

Ltac parses := vm_compute; reflexivity.

Lemma legacy_parses : parse_manifest legacy_payload = Ok legacy.
Proof. parses. Qed.
Lemma experimental_parses : parse_manifest (experimental_payload (JStr "active")) = Ok experimental.
Proof. parses. Qed.

(** The only exceptions of another class. *)
Lemma version_no_string : parse_manifest (JObj [("schema_version", JArr [])]) = Raise TypeError.
Proof. parses. Qed.
Lemma descriptor_only_blocked : is_Some (match activation_blocker (parsed_of (experimental_payload (JStr "import_only"))) with
                                         Ok o => o | Raise _ => None end).
Proof. vm_compute. by eexists. Qed.

Lemma manifests_are_well_formed_witness :
  (manifest_ok experimental ∧ parse_manifest (manifest_json experimental) = Ok experimental) ∧
  (manifest_ok legacy ∧ parse_manifest (manifest_json legacy) = Ok legacy).
Proof.
  assert (∀ m payload, unique_keys payload → parse_manifest payload = Ok m →
    manifest_ok m ∧ parse_manifest (manifest_json m) = Ok m) as H.
  { intros m payload Hu Hp. destruct (manifests_are_well_formed m) as [H1 H2]. specialize (H1 payload Hu Hp). auto. }
  split; [apply (H _ (experimental_payload (JStr "active")))|apply (H _ legacy_payload)];
    try parses; apply unique_keys_obj; (split; [apply (bool_decide_unpack _); vm_compute; exact I|]);
    repeat constructor; apply (bool_decide_unpack _); vm_compute; exact I.
Defined.
End Example.
