(* ===== verification/Capabilities.v ===== *)
(** * What the installed host exports

    [src/vllm_hust_ext/capabilities.py]: the capability registry of the installed vLLM, read
    fail-closed, and the probes for hosts that have none.  What importing a module gives is
    an argument; the snapshot is decoded data; the evidence is constructors with what they
    mention. *)

From S2P Require Import Prelude PyStd JsonText ContractParse Manifest.

Local Open Scope string_scope.
Local Open Scope list_scope.

Definition CAPABILITY_SCHEMA : string := "vllm.extension-capabilities/v1".
Definition REGISTRY : string := "vllm.plugins.extension_capabilities".

Inductive capability_note : Type :=
  | SnapshotNoObject | SnapshotFields | SnapshotSchema (schema : json) | SnapshotVersions | SnapshotProtocol
  | Loaded (count : nat) | RegistryImportFailed (missing : option string) | RegistryFailedClosed | UsedLegacyProbes.

Record HostCapabilities : Type := mkCapabilities {
  host_api_version : option string; protocol_versions : list (string * string); source : string;
  capability_evidence : list capability_note;
}.

(** [Version(s).major] *)
Class VersionMajor `{Pep440} : Type := major : version → Z.

(** What importing the registry and calling its getter gives: the module that is missing; a
    failed import; an [AttributeError], [TypeError] or [ValueError] of the getter; its value. *)
Inductive Registry : Type :=
  | ModuleMissing (name : option string) | ImportFails | GetterFails | Snapshot (value : json).

(** A module's attribute, [None] for an [AttributeError] or an [ImportError]. *)
Definition Probe : Type := string → string → option json.

Section capabilities.
Context {PV : Pep440}.

Definition _version (value : json) : option string :=
  match value with
  | JStr s => match Version s with Some _ => Some s | None => None end
  | _ => None
  end.

Definition closed (note : capability_note) : HostCapabilities := mkCapabilities None [] REGISTRY [note].

(** The protocols, [None] where one is invalid. *)
Fixpoint validated (items : list (string * json)) : option (list (string * string)) :=
  match items with
  | [] => Some []
  | (name, v) :: items =>
      parsed ← _version v;
      rest ← validated items;
      if is_blank name then None else Some ((name, parsed) :: rest)
  end.

Definition _snapshot (value : json) : HostCapabilities :=
  match value with
  | JObj kv =>
      if negb (has_exactly ["schema_version"; "host_api_version"; "protocols"] kv) then closed SnapshotFields
      else if negb (json_eqb (json_get "schema_version" kv) (JStr CAPABILITY_SCHEMA))
      then closed (SnapshotSchema (json_get "schema_version" kv))
      else match _version (json_get "host_api_version" kv), json_get "protocols" kv with
           | Some api, JObj protocols =>
               match validated protocols with
               | Some versions => mkCapabilities (Some api) versions REGISTRY [Loaded (length versions)]
               | None => closed SnapshotProtocol
               end
           | _, _ => closed SnapshotVersions
           end
  | _ => closed SnapshotNoObject
  end.

Context {VM : VersionMajor}.

Definition _v1_version (value : json) : option string :=
  match _version value with
  | Some s => match Version s with
              | Some v => if (major v =? 1)%Z then Some s else None
              | None => None
              end
  | None => None
  end.

Definition PROBES : list (string * string * string) :=
  [("vllm.v1.core.sched.preemption", "PREEMPTION_POLICY_API_VERSION", "vllm.preemption-policy");
   ("vllm.v1.core.sched.batch_admission", "BATCH_ADMISSION_POLICY_API_VERSION", "vllm.batch-admission-policy");
   ("vllm.plugins.request_processing", "REQUEST_PROCESSING_HOOK_API_VERSION", "vllm.request-processing-hook");
   ("vllm.v1.core.kv_materialization", "KV_MATERIALIZATION_RUNTIME_CONTROL_API_VERSION",
    "vllm.kv-materialization-runtime-control")].

Definition probed (probe : Probe) (p : string * string * string) : option (string * string) :=
  let '(module, attribute, protocol) := p in
  value ← probe module attribute;
  parsed ← _v1_version value;
  if bool_decide (parsed = "") then None else Some (protocol, parsed).

Definition _detect_legacy_vllm_capabilities (probe : Probe) : HostCapabilities :=
  mkCapabilities None (omap (M := list) (probed probe) PROBES) "legacy-module-probes" [UsedLegacyProbes].

Definition detect_vllm_capabilities (registry : Registry) (probe : Probe) : HostCapabilities :=
  match registry with
  | ModuleMissing name =>
      if bool_decide (name ∈ [Some "vllm"; Some "vllm.plugins"; Some REGISTRY])
      then _detect_legacy_vllm_capabilities probe
      else closed (RegistryImportFailed name)
  | ImportFails => _detect_legacy_vllm_capabilities probe
  | GetterFails => closed RegistryFailedClosed
  | Snapshot value => _snapshot value
  end.

(** ** Theorems *)

Lemma version_Ok v s : _version v = Some s → v = JStr s ∧ is_Some (Version s).
Proof. destruct v as [| | | |t| |]; try done. cbn. destruct (Version t) eqn:E; [|done]. intros [= <-]. by rewrite E. Qed.

Lemma validated_spec items l :
  validated items = Some l ↔
  items = (λ p, (p.1, JStr p.2)) <$> l ∧ Forall (λ p, is_blank p.1 = false ∧ is_Some (Version p.2)) l.
Proof.
  revert l. induction items as [|[name v] items IH]; intros l; cbn [validated].
  { split; [by intros [= <-]|]. destruct l; [done|]. by intros [? _]. }
  split.
  - destruct (_version v) as [parsed|] eqn:Ev; [|done]. cbn. destruct (validated items) as [rest|]; [|done]. cbn.
    destruct (is_blank name) eqn:Eb; [done|]. intros [= <-]. apply version_Ok in Ev as [-> Hv].
    destruct (proj1 (IH rest) eq_refl) as [-> Hall]. split; [done|]. by constructor.
  - intros [E Hall]. destruct l as [|[n s] l]; [done|]. injection E as -> -> E.
    apply Forall_cons in Hall as [[Hb [x Hx]] Hall]. cbn [fst snd] in *. cbn [_version]. rewrite Hx.
    cbn [mbind option_bind]. rewrite (proj2 (IH l) (conj E Hall)). cbn [mbind option_bind]. by rewrite Hb.
Qed.

(** What was detected is either nothing, from the registry, or versions that parse, under
    names that are not blank; the legacy probes never report a host API. *)
Lemma detected_versions_parse registry probe :
  let c := detect_vllm_capabilities registry probe in
  Forall (λ p, is_Some (Version p.2)) (protocol_versions c) ∧
  match host_api_version c with
  | Some api => is_Some (Version api) ∧ ∃ kv, registry = Snapshot (JObj kv) ∧
      json_get "schema_version" kv = JStr CAPABILITY_SCHEMA ∧ json_get "host_api_version" kv = JStr api ∧
      json_get "protocols" kv = JObj ((λ p, (p.1, JStr p.2)) <$> protocol_versions c)
  | None => protocol_versions c = [] ∨ source c = "legacy-module-probes"
  end.
Proof.
  cbv zeta. assert (Forall (λ p, is_Some (Version p.2)) (omap (M := list) (probed probe) PROBES)) as Hlegacy.
  { apply Forall_forall. intros p ([[m a] protocol] & _ & Hp)%list_elem_of_omap. unfold probed in Hp.
    destruct (probe m a) as [v|]; [|done]. cbn in Hp. destruct (_v1_version v) as [s|] eqn:Ev; [|done]. cbn in Hp.
    case_bool_decide; [done|]. injection Hp as <-. unfold _v1_version in Ev.
    destruct (_version v) as [t|] eqn:Et; [|done]. apply version_Ok in Et as [_ Ht].
    destruct (Version t) eqn:E; [|done]. case_match; [|done]. injection Ev as <-. cbn. by rewrite E. }
  destruct registry as [name| | |value]; cbn [detect_vllm_capabilities].
  - case_bool_decide; cbn; [by split; [|right]|]. split; [constructor|by left].
  - cbn. by split; [|right].
  - cbn. split; [constructor|by left].
  - assert (∀ note, Forall (λ p, is_Some (Version p.2)) (protocol_versions (closed note)) ∧
                    (protocol_versions (closed note) = [] ∨ source (closed note) = "legacy-module-probes")) as Hclosed
      by (intros note; split; [constructor|by left]).
    unfold _snapshot. destruct value as [| | | | | |kv]; try apply Hclosed.
    destruct (negb (has_exactly _ _)); [apply Hclosed|]. destruct (negb (json_eqb _ _)) eqn:Es; [apply Hclosed|].
    apply negb_false_iff, json_eqb_str in Es. destruct (_version _) as [api|] eqn:Ea; [|apply Hclosed].
    destruct (json_get "protocols" kv) as [| | | | | |protocols] eqn:Ep; try apply Hclosed.
    destruct (validated protocols) as [versions|] eqn:Ev; [|apply Hclosed].
    apply validated_spec in Ev as [-> Hall]. apply version_Ok in Ea as [Ea Hapi]. cbn. split.
    + eapply Forall_impl; [exact Hall|]. by intros p [_ ?].
    + split; [done|]. by exists kv.
Qed.
End capabilities.
