(* ===== verification/ExtensionConfig.v ===== *)
(** * The configuration of the installed extensions

    [src/vllm_hust_ext/config.py]: which extensions are enabled and how each is configured,
    read from a JSON file of two schema versions and written back through a temporary file.
    A file that cannot be read is not modelled; every other error of [load_config] is a
    [ValueError]. *)

From S2P Require Import Prelude PyStd JsonText JsonRoundTrip Manifest.

Local Open Scope string_scope.
Local Open Scope list_scope.

Record ExtensionConfig : Type := mkExtension { enabled : bool; configuration : list (string * json) }.
Definition default_extension : ExtensionConfig := mkExtension false [].

(** A [dict], in insertion order. *)
Definition UserConfig : Type := list (string * ExtensionConfig).

Definition enabled_extensions (config : UserConfig) : list string := (filter (λ p, enabled p.2 = true) config).*1.
Definition extension (extension_id : string) (config : UserConfig) : ExtensionConfig :=
  default default_extension (od_get extension_id config).
Definition with_extension (extension_id : string) (e : ExtensionConfig) (config : UserConfig) : UserConfig :=
  od_set extension_id e config.
Definition without_extension (extension_id : string) (config : UserConfig) : UserConfig :=
  filter (λ p, p.1 ≠ extension_id) config.

(** ** Reading *)

Inductive config_exn : Type := ConfigValueError | ConfigOSError.

Definition _extension_config (value : json) : result config_exn ExtensionConfig :=
  match value with
  | JObj kv =>
      _ ← raise_if (negb (only_fields ["enabled"; "configuration"] kv)) ConfigValueError;
      match get_or (JBool false) "enabled" kv with
      | JBool enabled =>
          match get_or (JObj []) "configuration" kv with
          | JObj configuration => Ok (mkExtension enabled configuration)
          | _ => Raise ConfigValueError
          end
      | _ => Raise ConfigValueError
      end
  | _ => Raise ConfigValueError
  end.

(** [{key: value for ...}] *)
Definition dict_of {A} (pairs : list (string * A)) : list (string * A) := foldl (λ d p, od_set p.1 p.2 d) [] pairs.

Definition legacy_item (value : json) : result config_exn (string * ExtensionConfig) :=
  match value with JStr item => Ok (item, mkExtension true []) | _ => Raise ConfigValueError end.

Definition parse_config (payload : json) : result config_exn UserConfig :=
  match payload with
  | JObj kv =>
      if json_eqb (json_get "schema_version" kv) (JInt 1) then
        match get_or (JArr []) "enabled" kv with
        | JArr items => pairs ← mapR legacy_item items; Ok (dict_of pairs)
        | _ => Raise ConfigValueError
        end
      else
        _ ← raise_if (negb (json_eqb (json_get "schema_version" kv) (JInt 2))) ConfigValueError;
        match get_or (JObj []) "extensions" kv with
        | JObj raw => pairs ← mapR (λ p, e ← _extension_config p.2; Ok (p.1, e)) raw; Ok (dict_of pairs)
        | _ => Raise ConfigValueError
        end
  | _ => Raise ConfigValueError
  end.

(** The file's text, [None] where there is no file. *)
Definition load_config {F : FloatText} (target : option string) : result config_exn UserConfig :=
  match target with
  | None => Ok []
  | Some text =>
      match loads_text (E := ()) plain_hook plain_constant text with
      | Ok payload => parse_config payload
      | Raise _ => Raise ConfigValueError
      end
  end.

(** ** Writing *)

(** [json.dumps(v, indent=2, sort_keys=True)] of a value at depth [n]. *)
Definition line_break (n : nat) : string := String (Ascii.ascii_of_N 10) (String.concat "" (repeat "  " n)).
Definition bracketed (n : nat) (opening closing : string) (items : list string) : string :=
  if bool_decide (items = []) then opening +:+ closing
  else opening +:+ line_break (S n) +:+ join ("," +:+ line_break (S n)) items +:+ line_break n +:+ closing.
Fixpoint dumps_indented (n : nat) (v : json) : string :=
  match v with
  | JArr l => bracketed n "[" "]" (map (dumps_indented (S n)) l)
  | JObj kv => bracketed n "{" "}"
      (map snd (sort_on fst (map (λ p, (p.1, dumps_string true p.1 +:+ ": " +:+ dumps_indented (S n) p.2)) kv)))
  | v => dumps true v
  end.

Definition extension_payload (e : ExtensionConfig) : json :=
  JObj [("enabled", JBool (enabled e)); ("configuration", JObj (configuration e))].
Definition config_payload (config : UserConfig) : json :=
  JObj [("schema_version", JInt 2);
        ("extensions", JObj ((λ p, (p.1, extension_payload p.2)) <$> sort_on fst config))].
Definition config_text (config : UserConfig) : string :=
  dumps_indented 0 (config_payload config) +:+ line_break 0.

(** The configuration file and the temporary one next to it. *)
Record Files : Type := mkFiles { target : option string; temporary : option string }.
(** The calls of [save_config] that can fail. *)
Inductive save_step : Type := Mkdir | Mkstemp | WriteText (written : nat) | Chmod | Replace.

#[export] Instance save_step_eq_dec : EqDecision save_step.
Proof. solve_decision. Defined.

Section save.
(** The step that fails, with how much of the text a failing write has written. *)
Context (fault : option save_step).

Definition fails (step : save_step) : method Files config_exn () :=
  guard_raise (bool_decide (fault = Some step)) ConfigOSError.
Definition set_temporary (text : option string) (f : Files) : Files := mkFiles (target f) text.

Definition write_text (text : string) : method Files config_exn () :=
  match fault with
  | Some (WriteText n) => _ ← modify (set_temporary (Some (String.substring 0 n text))); raise ConfigOSError
  | _ => modify (set_temporary (Some text))
  end.

Definition replace : method Files config_exn () :=
  _ ← fails Replace;
  modify (λ f, mkFiles (temporary f) None).

(** [try: ... finally: if os.path.exists(temporary): os.unlink(temporary)] *)
Definition unlinking (m : method Files config_exn ()) : method Files config_exn () := λ f,
  let '(r, f) := m f in (r, set_temporary None f).

Definition save_config (config : UserConfig) : method Files config_exn () :=
  _ ← fails Mkdir;
  _ ← fails Mkstemp;
  _ ← modify (set_temporary (Some ""));
  unlinking (
    _ ← write_text (config_text config);
    _ ← fails Chmod;
    replace).
End save.

(** ** Theorems *)

Lemma dict_of_NoDup_keys {A} (pairs : list (string * A)) : NoDup pairs.*1 → dict_of pairs = pairs.
Proof.
  intros Hn. unfold dict_of. rewrite <-(app_nil_l pairs) at 2.
  assert (NoDup (([] : list (string * A)) ++ pairs).*1) as Hn' by done. revert Hn'. clear Hn.
  generalize ([] : list (string * A)). induction pairs as [|[k v] l IH]; intros d Hn; [by rewrite app_nil_r|].
  cbn [foldl]. rewrite fmap_app, fmap_cons in Hn. cbn [fst] in Hn. rewrite od_set_new.
  - rewrite IH; [by rewrite <-app_assoc|]. rewrite !fmap_app. cbn. by rewrite <-app_assoc.
  - apply NoDup_app in Hn as (_ & Hd & _). intros Hk. apply (Hd k Hk). by left.
Qed.

Lemma dict_of_NoDup {A} (pairs : list (string * A)) : NoDup (dict_of pairs).*1.
Proof.
  unfold dict_of. assert (NoDup ([] : list (string * A)).*1) as H by constructor. revert H.
  generalize ([] : list (string * A)). induction pairs as [|[k v] l IH]; intros d Hd; [done|].
  cbn [foldl]. apply IH. by apply od_set_NoDup.
Qed.

(** A configuration in the order [save_config] writes it. *)
Definition sorted_config (config : UserConfig) : UserConfig := sort_on fst config.

Lemma parse_config_payload config :
  NoDup config.*1 → parse_config (config_payload config) = Ok (sorted_config config).
Proof.
  intros Hn. unfold parse_config, config_payload.
  change (json_eqb _ (JInt 1)) with false. change (json_eqb _ (JInt 2)) with true. cbn [negb raise_if mbind result_bind].
  change (get_or (JObj []) "extensions" _) with (JObj ((λ p, (p.1, extension_payload p.2)) <$> sort_on fst config)).
  cbn beta iota. assert (∀ l : UserConfig,
    mapR (λ p, e ← _extension_config p.2; Ok (p.1, e)) ((λ p, (p.1, extension_payload p.2)) <$> l) = Ok l) as ->.
  { intros l. apply mapR_Ok. induction l as [|[k [b c]] l IH]; constructor; done. }
  cbn [mbind result_bind]. f_equal. apply dict_of_NoDup_keys. unfold sorted_config.
  by rewrite sort_on_perm.
Qed.

Lemma get_sorted_config k config : NoDup config.*1 → extension k (sorted_config config) = extension k config.
Proof.
  intros Hn. unfold extension. f_equal. unfold sorted_config. destruct (od_get k config) as [e|] eqn:E.
  - apply od_get_NoDup; [by rewrite sort_on_perm|]. rewrite sort_on_perm. by apply od_get_elem_of.
  - apply od_get_None. apply od_get_None in E. by rewrite sort_on_perm.
Qed.

(** Saving is atomic: whichever call of save_config fails, the file is the old one or,
    when it returns, the whole new text, and no temporary file is left; the payload
    written parses back to the same configuration of every extension. *)
Theorem saved_config_reloads (fault : option save_step) (config : UserConfig) (f : Files) :
  NoDup config.*1 → temporary f = None →
  (let '(r, f') := save_config fault config f in
   temporary f' = None ∧
   match r with
   | Ok _ => target f' = Some (config_text config)
   | Raise e => e = ConfigOSError ∧ target f' = target f ∧ is_Some fault
   end) ∧
  parse_config (config_payload config) = Ok (sorted_config config) ∧
  (∀ k, extension k (sorted_config config) = extension k config).
Proof.
  intros Hn Ht. split_and!; [|by apply parse_config_payload|intros k; by apply get_sorted_config].
  destruct f as [t tmp]. cbn in Ht. subst tmp. unfold save_config. generalize (config_text config). intros text.
  destruct fault as [[]|]; cbv; split_and!; eauto.
Qed.

Module Example.
#[local] Existing Instance JsonText.Examples.no_floats.

Definition config : UserConfig :=
  [("b.ext", mkExtension true [("k", JArr [JInt 1; JStr "x"])]); ("a.ext", mkExtension false [])].

(** The text is read back as the sorted configuration. *)
Lemma text_reloads : load_config (Some (config_text config)) = Ok (sorted_config config).
Proof. vm_compute. reflexivity. Qed.

Lemma old_schema_reloads :
  load_config (Some (dumps false (JObj [("enabled", JArr [JStr "a"; JStr "b"; JStr "a"]); ("schema_version", JInt 1)]))) =
  Ok [("a", mkExtension true []); ("b", mkExtension true [])].
Proof. vm_compute. reflexivity. Qed.

Lemma saved_config_reloads_witness :
  save_config (Some Chmod) config (mkFiles (Some "old") None) = (Raise ConfigOSError, mkFiles (Some "old") None) ∧
  parse_config (config_payload config) = Ok (sorted_config config).
Proof.
  split; [vm_compute; reflexivity|].
  assert (NoDup config.*1) as Hn by (apply (bool_decide_unpack _); vm_compute; exact I).
  exact (proj1 (proj2 (saved_config_reloads (Some Chmod) config (mkFiles (Some "old") None) Hn eq_refl))).
Defined.
End Example.
