(* ===== verification/Discovery.v ===== *)
(** * Discovery of installed bundles

    [src/vllm_hust_ext/discovery.py]: from the registered entry points to the bundles they
    publish.  A distribution is what [importlib.metadata] tells of it; the file system is a
    class of what it answers; [urlparse] and [unquote] are the class [Urls].  An error keeps
    its class, not its message; [os.name] is not ["nt"]. *)

From S2P Require Import Prelude PyStd JsonText JsonRoundTrip ContractParse Manifest.

Local Open Scope string_scope.
Local Open Scope list_scope.

(** [Escaped]: what neither this module nor its callers turn into an error of their own
    ([AttributeError], [TypeError], a plain [ValueError]). *)
Inductive discovery_exn : Type := DiscoveryError | OSError | Escaped.

#[export] Instance discovery_exn_eq_dec : EqDecision discovery_exn.
Proof. solve_decision. Defined.

Definition ENTRY_POINT_GROUP : string := "vllm_hust.extension_bundles".
Definition MANIFEST_FILENAMES : list string :=
  ["vllm-hust-extension-v0.3.json"; "vllm-hust-extension-v0.2.json"; "vllm-hust-extension-v1.json";
   "extension-bundle-v1.json"].

(** [dist_files] is [files or ()], [locate_file] the path of such a file, [direct_url] the
    text of [direct_url.json]. *)
Record Distribution : Type := mkDistribution {
  dist_name : option string; dist_version : string; dist_files : list string; locate_file : string → string;
  direct_url : option string;
}.
Record EntryPoint : Type := mkEntryPoint {
  ep_name : string; ep_group : string; ep_value : string; ep_dist : option Distribution;
}.
Record InstalledBundle : Type := mkBundle {
  ib_id : string; ib_distribution : string; ib_version : string; manifest_path : string; manifest : BundleManifest;
  entry_points : list EntryPoint;
}.

(** The files a path names: whether there is one, its bytes ([None] for an [OSError]), and
    what [load_manifest] sees of it. *)
Class FileSystem : Type := {
  fs_is_file : string → bool;
  fs_bytes : string → option string;
  fs_manifest : string → ManifestFile;
}.

(** The path, unquoted, of a [file:] URL of this host, [Some None] of another URL; [None]
    where [urlparse] raises. *)
Class Urls : Type := local_path : json → option (option string).

(** ** Paths *)

Fixpoint split_char (c : N) (s : string) : list string :=
  match s with
  | EmptyString => [""]
  | String a s =>
      if (code a =? c)%N then "" :: split_char c s
      else match split_char c s with
           | word :: words => String a word :: words
           | [] => [String a ""]
           end
  end.

(** The components of a [PurePosixPath], and whether it is absolute. *)
Definition posix (s : string) : bool * list string :=
  (starts_with "/" s, filter (λ p, p ≠ "" ∧ p ≠ ".") (split_char 47 s)).
Definition under (root : string) (parts : list string) : string := root +:+ "/" +:+ join "/" parts.

Definition lower_ascii (s : string) : string :=
  string_of_bytes ((λ b, if in_range 65 90 b then b + 32 else b)%N <$> bytes_of_string s).
(** [path.suffix] of a path with this last component *)
Definition suffix (name : string) : string :=
  let words := split_char 46 name in
  if bool_decide (join "." (removelast words) = "") || bool_decide (List.last words "" = "") then ""
  else "." +:+ List.last words "".

(** [s.partition(":")[0].strip()] *)
Fixpoint lstrip (fuel : nat) (s : string) : string :=
  match fuel, find (λ w, starts_with w s) py_whitespace with
  | S fuel, Some w => lstrip fuel (drop_chars (String.length w) s)
  | _, _ => s
  end.
Fixpoint rstrip (fuel : nat) (s : string) : string :=
  match fuel, find (λ w, ends_with w s) py_whitespace with
  | S fuel, Some w => rstrip fuel (remove_suffix w s)
  | _, _ => s
  end.
Definition strip (s : string) : string := rstrip (String.length s) (lstrip (String.length s) s).
Definition before_colon (s : string) : string := hd "" (split_char 58 s).

Section discovery.
Context {F : FloatText} {PV : Pep440} {HA : HostApi} {W : WordChars} {FS : FileSystem} {UR : Urls}.

(** ** One registration *)

Definition refused {A} : result discovery_exn A := Raise DiscoveryError.
Definition refuse_if (b : bool) : result discovery_exn () := raise_if b DiscoveryError.

(** [json.loads] of [direct_url.json], [None] where there is none or it is empty. *)
Definition read_direct_url (d : Distribution) : result discovery_exn (option json) :=
  match direct_url d with
  | None => Ok None
  | Some text =>
      if bool_decide (text = "") then Ok None
      else match loads_text (E := ()) plain_hook plain_constant text with
           | Ok v => Ok (Some v)
           | Raise IntegerTooLong => Raise Escaped
           | Raise _ => refused
           end
  end.

(** [value.get(k, default)] of what should be an object *)
Definition member (value : json) (k : string) (d : json) : result discovery_exn json :=
  match value with JObj kv => Ok (get_or d k kv) | _ => Raise Escaped end.
Definition is_true (v : json) : bool := match v with JBool b => b | _ => false end.
Definition editable (value : json) : result discovery_exn bool :=
  info ← member value "dir_info" (JObj []);
  flag ← member info "editable" JNull;
  Ok (is_true flag).

(** The source tree of an editable install. *)
Definition source_root (value : json) : result discovery_exn (option string) :=
  url ← member value "url" (JStr "");
  match local_path url with
  | None => Raise Escaped
  | Some root => flag ← editable value; Ok (if (flag : bool) then root else None)
  end.

Definition root_candidates (root : string) (paths : list (list string)) : list string :=
  filter (λ p, fs_is_file p = true) ((under root <$> paths) ++ (under (root +:+ "/src") <$> paths)).

Definition relative_paths (value : string) : list (list string) :=
  (λ filename, split_char 46 value ++ [filename]) <$> MANIFEST_FILENAMES.

Definition _manifest_path (e : EntryPoint) : result discovery_exn string :=
  _ ← refuse_if (negb (is_dotted (ep_value e)));
  match ep_dist e with
  | None => refused
  | Some d =>
      let relative := relative_paths (ep_value e) in
      let packaged := locate_file d <$> filter (λ f, posix f ∈ (pair false <$> relative)) (dist_files d) in
      matches ← (if bool_decide (packaged = []) then
                   value ← read_direct_url d;
                   match value with
                   | None => Ok []
                   | Some value =>
                       root ← source_root value;
                       Ok (match root with Some root => root_candidates root relative | None => [] end)
                   end
                 else Ok packaged);
      match matches with [path] => Ok path | _ => refused end
  end.

Definition _is_editable (e : EntryPoint) : result discovery_exn bool :=
  match ep_dist e with
  | None => Ok false
  | Some d =>
      value ← read_direct_url d;
      match value with None => Ok false | Some value => editable value end
  end.

(** [module.with_suffix(".py")], [module / "__init__.py"], or a native module of that name. *)
Definition module_files (module : list string) : list (list string) :=
  [removelast module ++ [List.last module "" +:+ ".py"]; module ++ ["__init__.py"]].
Definition is_module_file (module : list string) (path : bool * list string) : bool :=
  bool_decide (path ∈ (pair false <$> module_files module)) ||
  negb path.1 && negb (bool_decide (path.2 = [])) && bool_decide (removelast path.2 = removelast module) &&
  starts_with (List.last module "" +:+ ".") (List.last path.2 "") &&
  among [".pyd"; ".so"] (lower_ascii (suffix (List.last path.2 ""))).

Definition _entry_point_target_is_packaged (e : EntryPoint) : result discovery_exn bool :=
  match ep_dist e with
  | None => Ok false
  | Some d =>
      let module := strip (before_colon (ep_value e)) in
      if negb (is_dotted module) then Ok false
      else
        let module := split_char 46 module in
        if existsb (λ f, is_module_file module (posix f)) (dist_files d) then Ok true
        else
          value ← read_direct_url d;
          match value with
          | None => Ok false
          | Some value =>
              root ← source_root value;
              Ok (match root with
                  | Some root => negb (bool_decide (root_candidates root (module_files module) = []))
                  | None => false
                  end)
          end
  end.

(** ** All of them *)

Definition add_candidate (d : list (string * list EntryPoint)) (e : EntryPoint) : list (string * list EntryPoint) :=
  od_set (ep_name e) (default [] (od_get (ep_name e) d) ++ [e]) d.
Definition candidates_of (regs : list EntryPoint) : list (string * list EntryPoint) := foldl add_candidate [] regs.

Definition manifest_bytes (e : EntryPoint) : result discovery_exn string :=
  match _manifest_path e with
  | Ok path => match fs_bytes path with Some bytes => Ok bytes | None => refused end
  | Raise DiscoveryError | Raise OSError => refused
  | Raise Escaped => Raise Escaped
  end.

Definition preference (e : EntryPoint) : result discovery_exn (string * string) :=
  flag ← _is_editable e;
  Ok (if (flag : bool) then "1" else "0",
      match ep_dist e with Some d => default "" (dist_name d) | None => "" end).

(** The registration taken for a bundle: one of those that publish the same manifest. *)
Definition choose (items : list EntryPoint) : result discovery_exn EntryPoint :=
  match items with
  | [e] => Ok e
  | _ =>
      contents ← mapR manifest_bytes items;
      _ ← refuse_if (negb (length (remove_dups contents) =? 1)%nat);
      keys ← mapR preference items;
      match sort_on fst (zip keys items) with
      | (_, e) :: _ => Ok e
      | [] => refused
      end
  end.

Definition named (name : string) (e : EntryPoint) : bool :=
  match ep_dist e with
  | Some d => bool_decide (dist_name d = Some name) && negb (bool_decide (ep_group e = ENTRY_POINT_GROUP))
  | None => false
  end.
Definition ep_key (e : EntryPoint) : string * string := (ep_group e, ep_name e).
Definition declared_keys (m : BundleManifest) : list (string * string) :=
  (λ e, (ae_group e, ae_name e)) <$> ac_entry_points (activation m).

Definition manifest_of (path : string) : result discovery_exn BundleManifest :=
  match load_manifest (fs_manifest path) with
  | Ok m => Ok m
  | Raise ManifestError => refused
  | Raise _ => Raise Escaped
  end.

Definition load_bundle (every : list EntryPoint) (bundle : string * EntryPoint) : result discovery_exn InstalledBundle :=
  let registration := bundle.2 in
  match ep_dist registration with
  | None => refused
  | Some d =>
      match dist_name d with
      | None => refused
      | Some name =>
          _ ← refuse_if (bool_decide (name = ""));
          path ← _manifest_path registration;
          m ← manifest_of path;
          _ ← refuse_if (negb (bool_decide (bundle_id m = bundle.1)));
          let related := filter (λ e, Is_true (named name e)) every in
          _ ← refuse_if (negb (forallb (λ k, bool_decide (k ∈ (ep_key <$> related))) (declared_keys m)));
          packaged ← mapR _entry_point_target_is_packaged (filter (λ e, ep_key e ∈ declared_keys m) related);
          _ ← refuse_if (negb (forallb id packaged));
          Ok (mkBundle bundle.1 name (dist_version d) path m related)
      end
  end.

Definition wants (selected : option (list string)) (name : string) : bool :=
  match selected with None => true | Some wanted => among wanted name end.

(** [loaded[bundle_id]] in the order asked for *)
Definition in_order (loaded : list InstalledBundle) (order : list string) : result discovery_exn (list InstalledBundle) :=
  mapR (λ id, match find (λ b, bool_decide (ib_id b = id)) loaded with Some b => Ok b | None => Raise Escaped end) order.

Definition discover_bundles (selected : option (list string)) (registrations all_entry_points : list EntryPoint)
    : result discovery_exn (list InstalledBundle) :=
  let candidates := candidates_of (filter (λ e, Is_true (wants selected (ep_name e))) registrations) in
  chosen ← mapR (λ p, e ← choose p.2; Ok (p.1, e)) candidates;
  _ ← refuse_if (match selected with
                 | Some wanted => negb (forallb (among candidates.*1) wanted)
                 | None => false
                 end);
  loaded ← mapR (load_bundle all_entry_points) chosen;
  in_order loaded (match selected with
                   | Some wanted => wanted
                   | None => sort_on (λ s : string, s) (ib_id <$> loaded)
                   end).

(** Every registration: the bundles, and the identifiers of those that could not be admitted. *)
Fixpoint inventory (registrations all_entry_points : list EntryPoint) (ids : list string)
    : result discovery_exn (list InstalledBundle * list string) :=
  match ids with
  | [] => Ok ([], [])
  | id :: ids =>
      match discover_bundles (Some [id]) registrations all_entry_points with
      | Ok bundles =>
          '(rest, diagnostics) ← inventory registrations all_entry_points ids;
          Ok (bundles ++ rest, diagnostics)
      | Raise DiscoveryError | Raise OSError =>
          '(rest, diagnostics) ← inventory registrations all_entry_points ids;
          Ok (rest, id :: diagnostics)
      | Raise Escaped => Raise Escaped
      end
  end.

Definition discover_bundle_inventory (registrations all_entry_points : list EntryPoint)
    : result discovery_exn (list InstalledBundle * list string) :=
  inventory registrations all_entry_points
    (sort_on (λ s : string, s) (remove_dups (ep_name <$> registrations))).
End discovery.
