(* ===== verification/DiscoveryTheorems.v ===== *)
(** * What discovery guarantees

    About [Discovery]: what is known of every bundle [discover_bundles] returns, and that the
    inventory treats each registered identifier on its own. *)

From S2P Require Import Prelude PyStd JsonText JsonRoundTrip ContractParse Manifest ManifestTheorems Discovery.

Local Open Scope string_scope.
Local Open Scope list_scope.

Section theorems.
Context {F : FloatText} {PV : Pep440} {HA : HostApi} {W : WordChars} {FS : FileSystem} {UR : Urls}.

Lemma refuse_if_bind {A} b (r : result discovery_exn A) a : (_ ← refuse_if b; r) = Ok a ↔ b = false ∧ r = Ok a.
Proof. unfold refuse_if, raise_if. destruct b; naive_solver. Qed.

(** ** Candidates *)

Definition registered (name : string) (regs : list EntryPoint) : list EntryPoint := filter (λ e, ep_name e = name) regs.

Lemma candidates_get regs name :
  od_get name (candidates_of regs) =
  if decide (registered name regs = []) then None else Some (registered name regs).
Proof.
  unfold candidates_of, registered. induction regs as [|e regs IH] using rev_ind; [by rewrite decide_True|].
  rewrite foldl_app, filter_app. cbn [foldl]. unfold add_candidate at 1. rewrite od_get_set.
  rewrite filter_cons, filter_nil. destruct (decide (name = ep_name e)) as [->|Hne].
  - rewrite (decide_True (P := ep_name e = ep_name e)) by done. rewrite IH.
    case_decide as H; case_decide as H'; [by apply app_eq_nil in H' as [_ ?]|by rewrite H|by apply app_eq_nil in H' as [_ ?]|done].
  - rewrite (decide_False (P := ep_name e = name)) by congruence. by rewrite app_nil_r.
Qed.

Lemma candidates_NoDup regs : NoDup (candidates_of regs).*1.
Proof.
  unfold candidates_of. induction regs as [|e regs IH] using rev_ind; [constructor|].
  rewrite foldl_app. cbn [foldl]. by apply od_set_NoDup.
Qed.

Lemma candidate_registered regs name items :
  (name, items) ∈ candidates_of regs → items = registered name regs ∧ items ≠ [].
Proof.
  intros H%od_get_NoDup; [|apply candidates_NoDup]. rewrite candidates_get in H. case_decide; naive_solver.
Qed.

Lemma candidate_names regs name : name ∈ (candidates_of regs).*1 ↔ name ∈ ep_name <$> regs.
Proof.
  destruct (decide (registered name regs = [])) as [E|E].
  - split; intros H; exfalso.
    + pose proof (candidates_get regs name) as Hg. rewrite decide_True in Hg by done.
      by apply od_get_None in Hg.
    + apply list_elem_of_fmap in H as (e & -> & He).
      assert (e ∈ registered (ep_name e) regs) as H' by (by apply list_elem_of_filter). rewrite E in H'. by apply elem_of_nil in H'.
  - split; intros _.
    + destruct (registered name regs) as [|e l] eqn:El; [done|].
      assert (e ∈ registered name regs) as [<- He]%list_elem_of_filter by (rewrite El; left).
      by apply list_elem_of_fmap_2.
    + pose proof (candidates_get regs name) as Hg. rewrite decide_False in Hg by done.
      apply od_get_elem_of in Hg. by apply (list_elem_of_fmap_2 fst) in Hg.
Qed.

(** ** One bundle *)

Lemma choose_Ok items e :
  choose items = Ok e → e ∈ items ∧ ∀ e', e' ∈ items → e' = e ∨ ∃ b, manifest_bytes e = Ok b ∧ manifest_bytes e' = Ok b.
Proof.
  unfold choose. intros H.
  assert (items = [e] ∨ ∃ contents, mapR manifest_bytes items = Ok contents ∧ length (remove_dups contents) = 1%nat ∧
            ∃ keys, mapR preference items = Ok keys ∧ ∃ k l, sort_on fst (zip keys items) = (k, e) :: l) as [->|Hm].
  { destruct items as [|x [|y l]]; [|left; by injection H as ->|right].
    - cbn in H. done.
    - apply result_bind_Ok in H as (contents & Hc & [Hlen%negb_false_iff%Nat.eqb_eq H]%refuse_if_bind).
      apply result_bind_Ok in H as (keys & Hk & H). exists contents. split_and!; [done..|]. exists keys. split; [done|].
      destruct (sort_on _ _) as [|[k e'] rest]; [done|]. injection H as ->. by eexists _, _. }
  - split; [by left|]. intros e' ->%list_elem_of_singleton. by left.
  - destruct Hm as (contents & Hc & Hlen & keys & _ & k & l & Hs).
    assert (e ∈ items) as He.
    { assert ((k, e) ∈ zip keys items) as Hz by (rewrite <-(elem_of_sort_on fst), Hs; by left).
      by apply elem_of_zip_r in Hz. }
    split; [done|]. intros e' He'. right. apply mapR_Ok in Hc.
    assert (∀ x, x ∈ items → ∃ b, manifest_bytes x = Ok b ∧ b ∈ contents) as Hin.
    { intros x Hx. apply list_elem_of_lookup in Hx as [i Hi].
      destruct (Forall2_lookup_l _ _ _ _ _ Hc Hi) as (b & Hb & Hxb). exists b. split; [done|].
      by eapply list_elem_of_lookup_2. }
    destruct (Hin e He) as (b & Hb & Hb'), (Hin e' He') as (b' & Hb1 & Hb2). exists b. split; [done|].
    assert (b' = b) as <-; [|done]. rewrite <-elem_of_remove_dups in Hb', Hb2.
    destruct (remove_dups contents) as [|x [|]]; [done| |done].
    apply list_elem_of_singleton in Hb', Hb2. congruence.
Qed.

(** What is known of a bundle: where it was found, and that what it activates is installed. *)
Record bundle_found (regs every : list EntryPoint) (b : InstalledBundle) : Prop := {
  bf_registration : ∃ e d, e ∈ regs ∧ ep_name e = ib_id b ∧ ep_dist e = Some d ∧ dist_name d = Some (ib_distribution b) ∧
    ib_version b = dist_version d ∧ _manifest_path e = Ok (manifest_path b) ∧
    ∀ e', e' ∈ regs → ep_name e' = ib_id b →
      e' = e ∨ ∃ bytes, manifest_bytes e = Ok bytes ∧ manifest_bytes e' = Ok bytes;
  bf_manifest : load_manifest (fs_manifest (manifest_path b)) = Ok (manifest b) ∧ manifest_ok (manifest b) ∧
    bundle_id (manifest b) = ib_id b;
  bf_installed : ∀ key, key ∈ declared_keys (manifest b) → ∃ e, e ∈ entry_points b ∧ ep_key e = key;
  bf_packaged : ∀ e, e ∈ entry_points b →
    e ∈ every ∧ named (ib_distribution b) e = true ∧
    (ep_key e ∈ declared_keys (manifest b) → _entry_point_target_is_packaged e = Ok true);
}.

Lemma manifest_of_Ok path m : manifest_of path = Ok m ↔ load_manifest (fs_manifest path) = Ok m.
Proof. unfold manifest_of. destruct (load_manifest _) as [|[]]; naive_solver. Qed.

Lemma load_bundle_Ok regs every name e b :
  load_bundle every (name, e) = Ok b → e ∈ regs → ep_name e = name →
  (∀ e', e' ∈ regs → ep_name e' = name → e' = e ∨ ∃ x, manifest_bytes e = Ok x ∧ manifest_bytes e' = Ok x) →
  ib_id b = name ∧ bundle_found regs every b.
Proof.
  unfold load_bundle. cbn [fst snd]. intros H He Hname Hsame. destruct (ep_dist e) as [d|] eqn:Ed; [|done].
  destruct (dist_name d) as [dn|] eqn:En; [|done]. apply refuse_if_bind in H as [_ H].
  apply result_bind_Ok in H as (path & Hp & H). apply result_bind_Ok in H as (m & Hm%manifest_of_Ok & H).
  apply refuse_if_bind in H as [Hid%negb_false_iff%bool_decide_eq_true H].
  apply refuse_if_bind in H as [Hdecl%negb_false_iff H]. apply result_bind_Ok in H as (packaged & Hpk & H).
  apply refuse_if_bind in H as [Hall%negb_false_iff [= <-]]. split; [done|]. split; cbn.
  - exists e, d. by split_and!.
  - split_and?; [done|by eapply load_manifest_Ok|done].
  - intros key Hk. rewrite forallb_forall in Hdecl.
    apply list_elem_of_In, Hdecl, bool_decide_eq_true, list_elem_of_fmap in Hk as (e' & -> & He'). by exists e'.
  - intros e' He'. pose proof He' as [Hn Hev]%list_elem_of_filter. rewrite Is_true_true in Hn. split_and!; [done..|].
    intros Hk. apply mapR_Ok in Hpk.
    assert (e' ∈ filter (λ e, ep_key e ∈ declared_keys m) (filter (λ e, Is_true (named dn e)) every)) as Hin
      by (by apply list_elem_of_filter).
    apply list_elem_of_lookup in Hin as [i Hi].
    destruct (Forall2_lookup_l _ _ _ _ _ Hpk Hi) as (p & Hpi & Hp'). rewrite Hp'. f_equal.
    rewrite forallb_forall in Hall. apply Hall. apply list_elem_of_In. by eapply list_elem_of_lookup_2.
Qed.

(** ** All bundles *)

Lemma chosen_Ok regs chosen name e :
  mapR (λ p, e ← choose p.2; Ok (p.1, e)) (candidates_of regs) = Ok chosen → (name, e) ∈ chosen →
  e ∈ regs ∧ ep_name e = name ∧
  ∀ e', e' ∈ regs → ep_name e' = name → e' = e ∨ ∃ x, manifest_bytes e = Ok x ∧ manifest_bytes e' = Ok x.
Proof.
  intros H Hin. apply mapR_Ok in H. apply list_elem_of_lookup in Hin as [i Hi].
  destruct (Forall2_lookup_r _ _ _ _ _ H Hi) as ([n items] & Hc & Hp).
  apply result_bind_Ok in Hp as (e0 & Hch & [= <- <-]). cbn [fst snd] in Hch.
  apply list_elem_of_lookup_2, candidate_registered in Hc as [-> _]. apply choose_Ok in Hch as [He Hsame].
  apply list_elem_of_filter in He as [Hname He]. split_and!; [done..|].
  intros e' He' Hn'. apply Hsame. by apply list_elem_of_filter.
Qed.

Lemma chosen_names regs chosen :
  mapR (λ p, e ← choose p.2; Ok (p.1, e)) (candidates_of regs) = Ok chosen → chosen.*1 = (candidates_of regs).*1.
Proof.
  intros H. apply mapR_Ok in H. induction H as [|[n items] [n' e] l k Hp _ IH]; [done|].
  apply result_bind_Ok in Hp as (e0 & _ & [= -> ->]). rewrite !fmap_cons. by rewrite IH.
Qed.

Lemma in_order_Ok loaded order bs :
  in_order loaded order = Ok bs → ib_id <$> bs = order ∧ ∀ b, b ∈ bs → b ∈ loaded.
Proof.
  intros H. apply mapR_Ok in H. induction H as [|id b order bs Hb _ [IH1 IH2]]; [split; [done|by intros b ?%elem_of_nil]|].
  destruct (find _ loaded) as [b'|] eqn:E; [|done]. injection Hb as ->.
  apply find_some in E as [Hin Hid%bool_decide_eq_true]. rewrite <-list_elem_of_In in Hin.
  split; [by rewrite fmap_cons, Hid, IH1|]. intros x [->|Hx]%elem_of_cons; auto.
Qed.

Lemma loaded_Ok regs every chosen loaded :
  mapR (λ p, e ← choose p.2; Ok (p.1, e)) (candidates_of regs) = Ok chosen →
  mapR (load_bundle every) chosen = Ok loaded →
  ib_id <$> loaded = (candidates_of regs).*1 ∧ ∀ b, b ∈ loaded → bundle_found regs every b.
Proof.
  intros Hc Hl. rewrite <-(chosen_names regs chosen Hc). apply mapR_Ok in Hl.
  assert (∀ i name e b, chosen !! i = Some (name, e) → loaded !! i = Some b → ib_id b = name ∧ bundle_found regs every b) as Hone.
  { intros i name e b Hi Hb. destruct (Forall2_lookup_l _ _ _ _ _ Hl Hi) as (b' & Hb' & Hload). simplify_eq.
    destruct (chosen_Ok regs chosen name e Hc (list_elem_of_lookup_2 _ _ _ Hi)) as (He & Hn & Hs).
    by eapply load_bundle_Ok. }
  split.
  - apply list_eq. intros i. rewrite !list_lookup_fmap. destruct (chosen !! i) as [[name e]|] eqn:Ei.
    + destruct (Forall2_lookup_l _ _ _ _ _ Hl Ei) as (b & Hb & _). rewrite Hb. cbn. by destruct (Hone _ _ _ _ Ei Hb) as [-> _].
    + assert (loaded !! i = None) as ->; [|done].
      apply lookup_ge_None. apply lookup_ge_None in Ei. apply Forall2_length in Hl. lia.
  - intros b [i Hi]%list_elem_of_lookup. destruct (Forall2_lookup_r _ _ _ _ _ Hl Hi) as ([name e] & He & _).
    by destruct (Hone _ _ _ _ He Hi).
Qed.

Lemma registered_wants id regs : filter (λ e, Is_true (wants (Some [id]) (ep_name e))) regs = registered id regs.
Proof.
  apply list_filter_iff. intros e. cbn [wants]. rewrite Is_true_true, among_spec, list_elem_of_singleton. done.
Qed.

(** ** Discovery is the discovery of each *)

Definition single (regs every : list EntryPoint) (id : string) : result discovery_exn InstalledBundle :=
  match registered id regs with
  | [] => refused
  | items => e ← choose items; load_bundle every (id, e)
  end.

Lemma load_bundle_id every p b : load_bundle every p = Ok b → ib_id b = p.1.
Proof.
  unfold load_bundle. destruct (ep_dist p.2) as [d|]; [|done]. destruct (dist_name d); [|done].
  intros H. repeat first [apply refuse_if_bind in H as [_ H] | apply result_bind_Ok in H as (? & ? & H)]. by injection H as <-.
Qed.

Lemma mapR_total {E A B} (f : A → result E B) l : (∀ x, x ∈ l → ∃ y, f x = Ok y) → ∃ ys, mapR f l = Ok ys.
Proof.
  induction l as [|x l IH]; intros H; [by exists []|]. destruct (H x ltac:(by left)) as [y Hy].
  destruct IH as [ys Hys]; [intros z Hz; apply H; by right|]. exists (y :: ys). cbn. by rewrite Hy; cbn; rewrite Hys.
Qed.

Lemma mapR_in {E A B} (f : A → result E B) l ys x : mapR f l = Ok ys → x ∈ l → ∃ y, y ∈ ys ∧ f x = Ok y.
Proof.
  intros H%mapR_Ok [i Hi]%list_elem_of_lookup. destruct (Forall2_lookup_l _ _ _ _ _ H Hi) as (y & Hy & Hf).
  exists y. split; [by eapply list_elem_of_lookup_2|done].
Qed.

Lemma registered_wanted l regs id :
  id ∈ l → registered id (filter (λ e, Is_true (wants (Some l) (ep_name e))) regs) = registered id regs.
Proof.
  intros Hl. unfold registered. rewrite list_filter_filter. apply list_filter_iff. intros e. cbn [wants].
  rewrite Is_true_true, among_spec. naive_solver.
Qed.

Lemma find_by_id (loaded : list InstalledBundle) b :
  NoDup (ib_id <$> loaded) → b ∈ loaded → find (λ b', bool_decide (ib_id b' = ib_id b)) loaded = Some b.
Proof.
  induction loaded as [|x loaded IH]; [by intros _ ?%elem_of_nil|]. rewrite fmap_cons. cbn [find].
  intros [Hx Hn]%NoDup_cons [->|Hin]%elem_of_cons; [by rewrite bool_decide_eq_true_2|].
  rewrite bool_decide_eq_false_2; [by apply IH|]. intros E. apply Hx. rewrite E. by apply list_elem_of_fmap_2.
Qed.

Lemma Forall2_impl_in {A B} (P Q : A → B → Prop) l k :
  (∀ x y, x ∈ l → P x y → Q x y) → Forall2 P l k → Forall2 Q l k.
Proof.
  intros HPQ H. induction H as [|x y l k Hxy _ IH]; constructor; [apply HPQ; [by left|done]|].
  apply IH. intros z w Hz. apply HPQ. by right.
Qed.

Definition choose_all (cs : list (string * list EntryPoint)) : result discovery_exn (list (string * EntryPoint)) :=
  mapR (λ p, e ← choose p.2; Ok (p.1, e)) cs.
Lemma choose_all_in cs chosen name items :
  choose_all cs = Ok chosen → (name, items) ∈ cs → ∃ e, (name, e) ∈ chosen ∧ choose items = Ok e.
Proof.
  intros Hc Hin. destruct (mapR_in _ _ _ _ Hc Hin) as (p & Hp & (e & He & [= <-])%result_bind_Ok). by exists e.
Qed.
Lemma choose_all_from cs chosen name e :
  choose_all cs = Ok chosen → (name, e) ∈ chosen → ∃ items, (name, items) ∈ cs ∧ choose items = Ok e.
Proof.
  intros Hc%mapR_Ok [i Hi]%list_elem_of_lookup.
  destruct (Forall2_lookup_r _ _ _ _ _ Hc Hi) as ([n items] & Hci & (e' & He & [= -> ->])%result_bind_Ok).
  exists items. split; [by eapply list_elem_of_lookup_2|done].
Qed.

Section wanted.
Context (l : list string) (regs every : list EntryPoint).
Let wanted_regs := filter (λ e, Is_true (wants (Some l) (ep_name e))) regs.

Lemma candidate_wanted name items :
  (name, items) ∈ candidates_of wanted_regs → name ∈ l ∧ registered name regs = items ∧ items ≠ [].
Proof.
  intros Hin. pose proof (candidate_registered _ _ _ Hin) as [-> Hne].
  assert (name ∈ l) as Hn.
  { apply (list_elem_of_fmap_2 fst), candidate_names in Hin. cbn in Hin. apply list_elem_of_fmap in Hin as (e & -> & He).
    apply list_elem_of_filter in He as [He _]. cbn [wants] in He. by rewrite Is_true_true, among_spec in He. }
  split_and!; [done|symmetry; by apply registered_wanted|done].
Qed.

(** The bundle of an identifier that was chosen and loaded. *)
Lemma single_chosen name items e :
  (name, items) ∈ candidates_of wanted_regs → choose items = Ok e → single regs every name = load_bundle every (name, e).
Proof.
  intros (_ & Hi & Hne)%candidate_wanted He. unfold single. rewrite Hi. destruct items; [done|]. by rewrite He.
Qed.

Lemma discovered_singles bs :
  discover_bundles (Some l) regs every = Ok bs → Forall2 (λ id b, single regs every id = Ok b) l bs.
Proof.
  unfold discover_bundles. cbv zeta. fold wanted_regs.
  intros (chosen & Hc & [Hmiss%negb_false_iff (loaded & Hl & Hbs%mapR_Ok)%result_bind_Ok]%refuse_if_bind)%result_bind_Ok.
  apply all_among in Hmiss. destruct (loaded_Ok wanted_regs every chosen loaded Hc Hl) as [Hids _].
  eapply Forall2_impl_in; [|exact Hbs]. intros id b' Hid Hfind. specialize (Hmiss id Hid).
  apply list_elem_of_fmap in Hmiss as ([n items] & -> & Hcand). cbn in Hid, Hfind.
  destruct (choose_all_in _ _ _ _ Hc Hcand) as (e & Hch & He).
  destruct (mapR_in _ _ _ _ Hl Hch) as (b & Hb & Hload). cbn [fst]. rewrite (single_chosen n items e Hcand He), Hload.
  pose proof (load_bundle_id _ _ _ Hload) as Hidb. cbn in Hidb. subst n.
  rewrite find_by_id in Hfind; [done|rewrite Hids; apply candidates_NoDup|done].
Qed.

Lemma singles_discovered bs :
  Forall2 (λ id b, single regs every id = Ok b) l bs → discover_bundles (Some l) regs every = Ok bs.
Proof.
  intros H. assert (∀ id, id ∈ l → ∃ b, single regs every id = Ok b) as Hs.
  { intros id [i Hi]%list_elem_of_lookup. destruct (Forall2_lookup_l _ _ _ _ _ H Hi) as (b & _ & Hb). by exists b. }
  unfold discover_bundles. cbv zeta. fold wanted_regs. destruct (mapR_total (λ p, e ← choose p.2; Ok (p.1, e)) (candidates_of wanted_regs)) as [chosen Hc].
  { intros [name items] (Hn & Hi & Hne)%candidate_wanted. destruct (Hs name Hn) as [b Hb]. unfold single in Hb.
    rewrite Hi in Hb. destruct items as [|i0 items]; [done|]. apply result_bind_Ok in Hb as (e & He & _). exists (name, e). cbn [snd fst].
    by rewrite He. }
  rewrite Hc. cbn [mbind result_bind]. apply refuse_if_bind.
  assert (l ⊆ (candidates_of wanted_regs).*1) as Hmiss.
  { intros id Hid. destruct (Hs id Hid) as [b Hb]. unfold single in Hb. rewrite <-(registered_wanted l) in Hb by done.
    destruct (registered id _) as [|e k] eqn:E; [done|]. apply candidate_names.
    assert (e ∈ registered id wanted_regs) as [<- He]%list_elem_of_filter by (unfold wanted_regs; rewrite E; by left).
    by apply list_elem_of_fmap_2. }
  split; [by apply negb_false_iff, all_among|].
  destruct (mapR_total (load_bundle every) chosen) as [loaded Hl].
  { intros [name e] (items & Hcand & He)%(choose_all_from _ _ _ _ Hc). pose proof (candidate_wanted _ _ Hcand) as (Hn & _ & _).
    destruct (Hs name Hn) as [b Hb]. exists b. by rewrite <-(single_chosen name items e Hcand He). }
  rewrite Hl. cbn [mbind result_bind]. destruct (loaded_Ok wanted_regs every chosen loaded Hc Hl) as [Hids _].
  apply mapR_Ok. eapply Forall2_impl_in; [|exact H]. intros id b Hid Hb. cbn in Hb. specialize (Hmiss id Hid).
  apply list_elem_of_fmap in Hmiss as ([n items] & -> & Hcand). cbn in Hb.
  destruct (choose_all_in _ _ _ _ Hc Hcand) as (e & Hch & He).
  destruct (mapR_in _ _ _ _ Hl Hch) as (b' & Hin & Hload). rewrite (single_chosen n items e Hcand He), Hload in Hb.
  injection Hb as ->. pose proof (load_bundle_id _ _ _ Hload) as Hidb. cbn in Hidb. subst n.
  cbn [fst]. by rewrite find_by_id by (done || (rewrite Hids; apply candidates_NoDup)).
Qed.

(** Discovering several bundles is discovering each. *)
Lemma discover_each bs :
  discover_bundles (Some l) regs every = Ok bs ↔ Forall2 (λ id b, single regs every id = Ok b) l bs.
Proof. split; [apply discovered_singles|apply singles_discovered]. Qed.
End wanted.

(** C36: discover_bundles returns the bundles asked for in the order asked for (or all,
    by identifier). Each comes from a registration of that identifier whose every
    duplicate publishes the same bytes, with the manifest that load_manifest reads at
    its path, which is well formed and names the identifier; and every entry point it
    activates is installed by its distribution and packaged in it. *)
Theorem discovered_bundles_found (selected : option (list string)) (regs every : list EntryPoint) (bs : list InstalledBundle) :
  discover_bundles selected regs every = Ok bs →
  ib_id <$> bs = match selected with
                 | Some wanted => wanted
                 | None => sort_on (λ s : string, s) (candidates_of regs).*1
                 end ∧
  ∀ b, b ∈ bs → bundle_found regs every b.
Proof.
  unfold discover_bundles. cbv zeta. set (regs' := filter _ regs).
  intros (chosen & Hc & [_ (loaded & Hl & [Hids Hbs]%in_order_Ok)%result_bind_Ok]%refuse_if_bind)%result_bind_Ok.
  destruct (loaded_Ok regs' every chosen loaded Hc Hl) as [Hloaded Hfound]. split.
  - rewrite Hids. destruct selected; [done|]. rewrite Hloaded. unfold regs'. by rewrite filter_whole by (by apply Forall_true).
  - intros b Hb. destruct (Hfound b (Hbs b Hb)) as [(e & d & He & Hn & ? & ? & ? & ? & Hsame) ? ? ?]. split; [|done..].
    exists e, d. unfold regs' in He. apply list_elem_of_filter in He as [Hw He]. split_and!; [done..|]. intros e' He' Hn'.
    apply Hsame; [|done]. unfold regs'. apply list_elem_of_filter. split; [|done]. by rewrite Hn', <-Hn.
Qed.

Definition escapes (regs every : list EntryPoint) (id : string) : bool :=
  match discover_bundles (Some [id]) (registered id regs) every with Raise Escaped => true | _ => false end.
Definition found (regs every : list EntryPoint) (id : string) : list InstalledBundle :=
  match discover_bundles (Some [id]) (registered id regs) every with Ok bs => bs | Raise _ => [] end.
Definition not_admitted (regs every : list EntryPoint) (id : string) : bool :=
  match discover_bundles (Some [id]) (registered id regs) every with Ok _ => false | Raise _ => true end.

Lemma discover_one id regs every :
  discover_bundles (Some [id]) regs every = discover_bundles (Some [id]) (registered id regs) every.
Proof.
  unfold discover_bundles. cbv zeta. rewrite !registered_wants.
  assert (registered id (registered id regs) = registered id regs) as ->; [|done].
  apply filter_whole, Forall_forall. by intros e [? _]%list_elem_of_filter.
Qed.

(** The inventory is that of each registered identifier discovered on its own from its
    own registrations: those that fail with DiscoveryError or OSError are listed and
    hide nothing, and the whole inventory raises exactly when one identifier raises
    something else. *)
Theorem inventory_isolates (regs every : list EntryPoint) :
  discover_bundle_inventory regs every =
  (let ids := sort_on (λ s : string, s) (remove_dups (ep_name <$> regs)) in
   if existsb (escapes regs every) ids then Raise Escaped
   else Ok (ids ≫= found regs every, filter (λ id, Is_true (not_admitted regs every id)) ids)).
Proof.
  unfold discover_bundle_inventory. cbv zeta. induction (sort_on _ _) as [|id ids IH]; [done|].
  cbn [inventory existsb]. rewrite discover_one, filter_cons. unfold escapes at 1.
  cbn [mbind list_bind]. unfold found at 1.
  assert (not_admitted regs every id =
          match discover_bundles (Some [id]) (registered id regs) every with Ok _ => false | Raise _ => true end) as Hn
    by done.
  destruct (discover_bundles (Some [id]) (registered id regs) every) as [bs|[]]; cbn [orb]; try done; rewrite IH;
    destruct (existsb _ ids); try done; case_decide as Hd; rewrite Hn in Hd; done.
Qed.
End theorems.

(** ** A wheel and an editable install of the same bundle *)

Module Example.
Import ManifestTheorems.Example.
#[export] Existing Instance JsonText.Examples.no_floats.

Definition root : string := "/site/pkg/vllm-hust-extension-v1.json".
Definition editable_root : string := "/tree/src/pkg/vllm-hust-extension-v1.json".
Definition text : string := dumps false legacy_payload.

#[export] Instance files : FileSystem := {|
  fs_is_file p := among [root; editable_root] p;
  fs_bytes p := if among [root; editable_root] p then Some text else None;
  fs_manifest p := mkFile false (among [root; editable_root] p) (Some text);
|}.
#[export] Instance urls : Urls := λ v, match v with JStr _ => Some (Some "/tree") | _ => None end.

Definition wheel : Distribution :=
  mkDistribution (Some "policy") "0.3" ["pkg/vllm-hust-extension-v1.json"; "pkg/policy.py"] (λ f, "/site/" +:+ f) None.
Definition editable_install : Distribution :=
  mkDistribution (Some "policy-dev") "0.4" [] (λ f, f)
    (Some (dumps false (JObj [("url", JStr "file"); ("dir_info", JObj [("editable", JBool true)])]))).
Definition registration (d : Distribution) : EntryPoint := mkEntryPoint "org.policy" ENTRY_POINT_GROUP "pkg" (Some d).
Definition registrations : list EntryPoint := [registration editable_install; registration wheel].

(** The wheel is preferred. *)
Definition policy_bundle : InstalledBundle := mkBundle "org.policy" "policy" "0.3" root legacy [].

Lemma wheel_preferred : discover_bundles None registrations registrations = Ok [policy_bundle].
Proof. vm_compute. reflexivity. Qed.

(** An identifier nobody registers is refused, and hides nothing from the inventory. *)
Lemma unknown_refused : discover_bundles (Some ["other"]) registrations registrations = Raise DiscoveryError.
Proof. vm_compute. reflexivity. Qed.
Lemma broken_reported :
  discover_bundle_inventory (mkEntryPoint "broken" ENTRY_POINT_GROUP "pkg" None :: registrations) registrations =
  Ok ([policy_bundle], ["broken"]).
Proof. vm_compute. reflexivity. Qed.

(** A [direct_url.json] that is no object ends the whole inventory. *)
Definition malformed : EntryPoint :=
  mkEntryPoint "malformed" ENTRY_POINT_GROUP "pkg" (Some (mkDistribution (Some "m") "1" [] (λ f, f) (Some "[]"))).
Lemma malformed_hides_all :
  discover_bundle_inventory (malformed :: registrations) registrations = Raise Escaped.
Proof. vm_compute. reflexivity. Qed.

Lemma discovered_bundles_found_witness : bundle_found registrations registrations policy_bundle.
Proof.
  apply (discovered_bundles_found None registrations registrations [policy_bundle]); [|by left].
  vm_compute. reflexivity.
Defined.
End Example.
