(* ===== verification/RuntimeEvidence.v ===== *)
(** * Evidence of a running host

    [src/vllm_hust_ext/runtime_evidence.py]: what a supervised host records, and which record
    makes an installed bundle effective at run time.  The evidence file is its text; the
    hostname and [/proc] are a class of what they answer.  An error keeps its class, not its
    message; the text of the evidence is kept as its parts. *)

From S2P Require Import Prelude PyStd JsonText JsonRoundTrip HostEvidence HostObserver Manifest Discovery.

Local Open Scope string_scope.
Local Open Scope list_scope.

Inductive runtime_exn : Type := RuntimeValueError | RuntimeTypeError | RuntimeAttributeError | RuntimeOSError.

Definition _HOST_SCHEMA : string := "vllm-hust-plugin-evidence/0.1".
Definition _SINK : string := "vllm_hust_ext.runtime_evidence:record_event".
Definition _PATH_ENV : string := "VLLM_HUST_EXT_EVIDENCE_PATH".
Definition _EVIDENCE_ENVIRONMENT : list string :=
  ["VLLM_ECPA_EVIDENCE_SINK"; "VLLM_ECPA_EVIDENCE_STRICT"; "VLLM_ECPA_PLAN_ID"; "VLLM_ECPA_LAUNCH_ID"; _PATH_ENV].
Definition _MAX_READ_BYTES : nat := Z.to_nat (1024 * 1024).

(** ** Events *)

Definition is_integer (v : json) : bool := match v with JInt _ => true | _ => false end.
Definition bound_process (kv : list (string * json)) : bool :=
  nonempty_string (json_get "host" kv) && is_integer (json_get "pid" kv) &&
  nonempty_string (json_get "start_identity" kv).

(** [event.get(...)] of what is no object is an [AttributeError]. *)
Definition _require_bound_event (event : json) : result runtime_exn (list (string * json)) :=
  match event with
  | JObj kv =>
      _ ← raise_if (negb (json_eqb (json_get "schema" kv) (JStr _HOST_SCHEMA))) RuntimeValueError;
      _ ← raise_if (negb (json_eqb (json_get "binding_status" kv) (JStr "bound"))) RuntimeValueError;
      _ ← raise_if (negb (nonempty_string (json_get "plan_id" kv))) RuntimeValueError;
      _ ← raise_if (negb (nonempty_string (json_get "launch_id" kv))) RuntimeValueError;
      _ ← raise_if (match json_get "process" kv with JObj p => negb (bound_process p) | _ => true end)
            RuntimeValueError;
      Ok kv
  | _ => Raise RuntimeAttributeError
  end.

Definition line_feed : string := String (Ascii.ascii_of_N 10) "".

(** [record_event], where [os.write] takes [written] bytes of the line, or fails; the text of
    the file afterwards. *)
Definition record_event (event : json) (written : option nat) (text : string) : result runtime_exn () * string :=
  match event with
  | JObj _ =>
      match _require_bound_event event with
      | Raise e => (Raise e, text)
      | Ok _ =>
          match written with
          | Some n => (Ok (), text +:+ String.substring 0 n (dumps true event +:+ line_feed))
          | None => (Raise RuntimeOSError, text)
          end
      end
  | _ => (Raise RuntimeTypeError, text)
  end.

(** The identity of a launch: bundles by identifier. *)
Definition launch_material (bundles : list InstalledBundle) : string :=
  dumps true (JArr ((λ b, JArr [JStr (ib_id b); JStr (bundle_version (manifest b)); JStr (manifest_path b)]) <$>
                    sort_on ib_id bundles)).
Definition launch_environment (environ : list string) (launch_id evidence_path : string)
    (bundles : list InstalledBundle) : result runtime_exn (list (string * string)) :=
  _ ← raise_if (existsb (among environ) _EVIDENCE_ENVIRONMENT) RuntimeValueError;
  Ok [("VLLM_ECPA_EVIDENCE_SINK", _SINK); ("VLLM_ECPA_EVIDENCE_STRICT", "1");
      ("VLLM_ECPA_PLAN_ID", sha256_hexdigest (launch_material bundles));
      ("VLLM_ECPA_LAUNCH_ID", launch_id); (_PATH_ENV, evidence_path)].

(** ** Reading *)

(** [stream.readlines()]: lines with their newlines *)
Fixpoint readlines (s : string) : list string :=
  match s with
  | EmptyString => []
  | String a s =>
      if (code a =? 10)%N then String a "" :: readlines s
      else match readlines s with
           | line :: lines => String a line :: lines
           | [] => [String a ""]
           end
  end.

(** The lines of the last [_MAX_READ_BYTES] bytes, without one that is cut. *)
Definition visible_lines (text : string) : list string :=
  let size := String.length text in
  let lines := readlines (drop_chars (size - _MAX_READ_BYTES) text) in
  if (_MAX_READ_BYTES <? size)%nat then tail lines else lines.

Section reading.
Context {F : FloatText} {U : UnicodeInt}.

(** The event of a line: [None] where the line is passed over. *)
Definition event_of_line (line : string) : result runtime_exn (option (list (string * json))) :=
  match loads (E := ()) plain_hook plain_constant line with
  | Raise _ => Ok None
  | Ok v =>
      match _require_bound_event v with
      | Ok kv => Ok (Some kv)
      | Raise RuntimeAttributeError => Raise RuntimeAttributeError
      | Raise _ => Ok None
      end
  end.

(** [_events()]: [None] is an [OSError]. *)
Definition _events (file : option string) : result runtime_exn (list (list (string * json))) :=
  match file with
  | None => Ok []
  | Some text => events ← mapR event_of_line (visible_lines text); Ok (omap (M := list) id events)
  end.

(** [socket.gethostname()], and the text of [/proc/pid/stat], [None] for an [OSError]. *)
Class Host : Type := { hostname : string; proc_stat : Z → option string }.

Context {H : Host}.

Definition _start_identity (pid : Z) : option string :=
  raw ← proc_stat pid;
  let bs := bytes_of_string raw in
  let after := match rfind closing 0 bs with Some close => drop (S close) bs | None => bs end in
  field ← split_parts int_space after !! 19%nat;
  let start_ticks := string_of_bytes field in
  _ ← py_int start_ticks;
  Some ("pid:" +:+ pretty pid +:+ ":start_ticks:" +:+ start_ticks).

Definition _process_is_current (process : json) : bool :=
  match process with
  | JObj kv =>
      match json_get "pid" kv with
      | JInt pid =>
          json_eqb (json_get "host" kv) (JStr hostname) &&
          match _start_identity pid with
          | Some identity => json_eqb (json_get "start_identity" kv) (JStr identity)
          | None => match json_get "start_identity" kv with JNull => true | _ => false end
          end
      | _ => false
      end
  | _ => false
  end.

(** The groups and names of the entry points a manifest is implemented by. *)
Definition carrier_key (c : ImplementationCarrier) : json * json :=
  (json_get "group" (attributes c), json_get "name" (attributes c)).
Definition implementation_keys (m : BundleManifest) : list (json * json) :=
  carrier_key <$> filter (λ c, carrier_type c = "python_entry_point") (implementation m).
Definition hashable (k : json * json) : bool :=
  match k.1, k.2 with
  | JArr _, _ | JObj _, _ | _, JArr _ | _, JObj _ => false
  | _, _ => true
  end.
Definition key_eqb (k k' : json * json) : bool := json_eqb k.1 k'.1 && json_eqb k.2 k'.2.

(** Whether an event shows the bundle at work; the conditions in the order of the code, each
    asked only if those before it let the event pass. *)
Definition shows_effect (keys : list (json * json)) (event : list (string * json)) : result runtime_exn bool :=
  if negb (json_eqb (json_get "event" event) (JStr "effective")) ||
     negb (json_eqb (json_get "observation_kind" event) (JStr "runtime_effective"))
  then Ok false
  else match json_get "entry_point" event with
       | JObj entry_point =>
           let key := (json_get "group" entry_point, json_get "name" entry_point) in
           if negb (hashable key) then Raise RuntimeTypeError
           else Ok (existsb (key_eqb key) keys && _process_is_current (json_get "process" event))
       | _ => Ok false
       end.

Fixpoint last_effect (keys : list (json * json)) (events : list (list (string * json)))
    : result runtime_exn (option (list (string * json))) :=
  match events with
  | [] => Ok None
  | event :: events =>
      shown ← shows_effect keys event;
      if (shown : bool) then Ok (Some event) else last_effect keys events
  end.

(** The launch, the pid and the event that the evidence names. *)
Record Effective : Type := mkEffective { ef_launch : json; ef_pid : json; ef_event : json }.
Definition effective_of (event : list (string * json)) : Effective :=
  mkEffective (json_get "launch_id" event)
    (match json_get "process" event with JObj p => json_get "pid" p | _ => JNull end)
    (get_or (JStr "unknown") "event_id" event).

Definition runtime_effective_evidence (m : BundleManifest) (file : option string)
    : result runtime_exn (option Effective) :=
  let keys := implementation_keys m in
  _ ← raise_if (negb (forallb hashable keys)) RuntimeTypeError;
  events ← _events file;
  event ← last_effect keys (rev events);
  Ok (fmap (M := option) effective_of event).
End reading.

(** ** Theorems *)

(** An event of the file that proves that the bundle is at work in a live process. *)
Record live_effect {H : Host} {U : UnicodeInt} (m : BundleManifest) (event : list (string * json)) : Prop := {
  le_bound : ∃ plan launch, json_get "plan_id" event = JStr plan ∧ plan ≠ "" ∧
    json_get "launch_id" event = JStr launch ∧ launch ≠ "" ∧ json_get "binding_status" event = JStr "bound";
  le_effect : json_get "event" event = JStr "effective" ∧ json_get "observation_kind" event = JStr "runtime_effective";
  le_entry_point : ∃ ep c, json_get "entry_point" event = JObj ep ∧ c ∈ implementation m ∧
    carrier_type c = "python_entry_point" ∧ key_eqb (json_get "group" ep, json_get "name" ep) (carrier_key c) = true;
  le_process : ∃ p pid identity, json_get "process" event = JObj p ∧ json_get "pid" p = JInt pid ∧
    json_get "host" p = JStr hostname ∧ json_get "start_identity" p = JStr identity ∧ _start_identity pid = Some identity;
}.

Section theorems.
Context {F : FloatText} {U : UnicodeInt} {H : Host}.

Lemma require_bound_Ok v kv :
  _require_bound_event v = Ok kv →
  v = JObj kv ∧ json_get "binding_status" kv = JStr "bound" ∧ nonempty_string (json_get "plan_id" kv) = true ∧
  nonempty_string (json_get "launch_id" kv) = true ∧ ∃ p, json_get "process" kv = JObj p ∧ bound_process p = true.
Proof.
  unfold _require_bound_event, raise_if. destruct v as [| | | | | |kv']; try done. intros H'.
  repeat match type of H' with
  | (_ ← (if ?b then _ else _); _) = _ => destruct b eqn:?; [done|]; cbn [mbind result_bind] in H'
  end.
  injection H' as <-. bool_inv. destruct (json_get "process" kv') as [| | | | | |p] eqn:E; try done.
  split_and!; try done.
  - by apply json_eqb_str.
  - exists p. split; [done|]. by apply negb_false_iff.
Qed.

Lemma events_bound file events event :
  _events file = Ok events → event ∈ events → ∃ v, _require_bound_event v = Ok event.
Proof.
  unfold _events. destruct file as [text|]; [|by intros [= <-] ?%elem_of_nil].
  intros (os & Hos & [= <-])%result_bind_Ok Hin. apply list_elem_of_omap in Hin as (o & Ho & E).
  apply mapR_Ok in Hos. apply list_elem_of_lookup in Ho as [i Hi].
  destruct (Forall2_lookup_r _ _ _ _ _ Hos Hi) as (line & _ & Hline). unfold id in E. subst o.
  unfold event_of_line in Hline. destruct (loads _ _ line) as [v|]; [|done].
  destruct (_require_bound_event v) as [kv|[]] eqn:Ev; try done. injection Hline as <-. by exists v.
Qed.

Lemma process_is_current_spec kv :
  bound_process kv = true → _process_is_current (JObj kv) = true →
  ∃ pid identity, json_get "pid" kv = JInt pid ∧ json_get "host" kv = JStr hostname ∧
    json_get "start_identity" kv = JStr identity ∧ _start_identity pid = Some identity.
Proof.
  unfold bound_process, _process_is_current. rewrite !andb_true_iff. intros [_ Hs].
  destruct (json_get "pid" kv) as [| |pid| | | |]; try done. rewrite andb_true_iff. intros [Hh%json_eqb_str Hi].
  destruct (_start_identity pid) as [identity|] eqn:E; [|by destruct (json_get "start_identity" kv)].
  apply json_eqb_str in Hi. by exists pid, identity.
Qed.

Lemma last_effect_Ok keys events o :
  last_effect keys events = Ok o →
  match o with
  | Some event => event ∈ events ∧ shows_effect keys event = Ok true
  | None => Forall (λ e, shows_effect keys e = Ok false) events
  end.
Proof.
  induction events as [|e events IH]; cbn [last_effect]; [by intros [= <-]; constructor|].
  intros ([] & He & H')%result_bind_Ok.
  - injection H' as <-. split; [by left|done].
  - specialize (IH H'). destruct o; [destruct IH; split; [by right|done]|by constructor].
Qed.

Lemma shown_live m v event :
  _require_bound_event v = Ok event → shows_effect (implementation_keys m) event = Ok true → live_effect m event.
Proof.
  intros (-> & Hb & Hp & Hl & p & Ep & Hpr)%require_bound_Ok Hs. unfold shows_effect in Hs.
  destruct (_ || _) eqn:E; [done|]. apply orb_false_iff in E as [E1%negb_false_iff%json_eqb_str E2%negb_false_iff%json_eqb_str].
  destruct (json_get "entry_point" event) as [| | | | | |ep] eqn:Eep; try done.
  destruct (negb (hashable _)); [done|]. injection Hs as [Hk Hc]%andb_true_iff. split.
  - apply nonempty_string_spec in Hp as (plan & ? & ?), Hl as (launch & ? & ?). by exists plan, launch.
  - done.
  - apply existsb_exists in Hk as (k & Hk & Heq). apply list_elem_of_In in Hk. unfold implementation_keys in Hk.
    apply list_elem_of_fmap in Hk as (c & -> & [Ht Hc']%list_elem_of_filter). by exists ep, c.
  - rewrite Ep in Hc. destruct (process_is_current_spec p Hpr Hc) as (pid & identity & ? & ? & ? & ?).
    by exists p, pid, identity.
Qed.

Lemma effective_evidence_live m file r :
  runtime_effective_evidence m file = Ok r →
  match r with
  | Some e => ∃ events event, _events file = Ok events ∧ event ∈ events ∧ live_effect m event ∧ e = effective_of event
  | None => ∃ events, _events file = Ok events ∧
      Forall (λ e, shows_effect (implementation_keys m) e = Ok false) events
  end.
Proof.
  unfold runtime_effective_evidence. cbv zeta.
  intros (u & _ & (events & He & (o & Ho & [= <-])%result_bind_Ok)%result_bind_Ok)%result_bind_Ok.
  apply last_effect_Ok in Ho. destruct o as [event|]; cbn.
  - destruct Ho as [Hin Hs]. apply list_elem_of_In, in_rev, list_elem_of_In in Hin.
    exists events, event. split_and!; try done. destruct (events_bound _ _ _ He Hin) as [v Hv]. by eapply shown_live.
  - exists events. split; [done|]. rewrite Forall_forall in *. intros e Hin. apply Ho.
    by apply list_elem_of_In, in_rev; rewrite rev_involutive; apply list_elem_of_In.
Qed.
End theorems.
