(* ===== verification/Catalog.v ===== *)
(** * The extension catalog

    [src/vllm_hust_ext/catalog.py]: the validator of the machine-readable catalog of
    extensions, on decoded JSON, with the policy an entry must satisfy to be enabled;
    [load_catalog] and [activation_blocker].  An error keeps its class, not its message. *)

From S2P Require Import Prelude PyStd JsonText JsonRoundTrip Manifest.

Local Open Scope string_scope.
Local Open Scope list_scope.

(** [CatalogValueError]: an integer of too many digits, which [json.loads] refuses. *)
Inductive catalog_exn : Type := CatalogError | CatalogValueError.

Definition CATALOG_SCHEMA : string := "vllm-hust.extension-catalog/v1".
Definition _MATURITY : list string := ["qualified"; "experimental"; "preview"; "external"].
Definition _AVAILABILITY : list string := ["available"; "preview"; "external"].
Definition _FUNCTIONAL : list string := ["passed"; "unverified"; "failed"; "not-applicable"; "external"].
Definition _RECOVERY : list string := ["passed"; "unverified"; "failed"; "not-applicable"].
Definition _EFFECT : list string := ["beneficial"; "neutral"; "inconclusive"; "not-recommended-for-tested-cell"].
Definition _SCENARIO : list string := ["verified"; "unverified"; "not-applicable"].
Definition _TOP : list string := ["schema"; "generated_at"; "source"; "policy"; "extensions"].
Definition _ENTRY : list string :=
  ["id"; "name"; "repository"; "source"; "maturity"; "availability"; "installation"; "enablement";
   "runtime_requirements"; "functional_qualification"; "tested_effects"; "expected_scenarios"; "recommendation";
   "resource_tradeoff"; "conflicts"; "rollback"].

Definition object : Type := list (string * json).

(** [^[0-9a-f]{40}$] and [^sha256:[0-9a-f]{64}$] *)
Definition _SHA (s : string) : bool := (String.length s =? 40)%nat && string_forallb is_hex s.
Definition _DIGEST (s : string) : bool :=
  starts_with "sha256:" s && (String.length s =? 71)%nat && string_forallb is_hex (drop_chars 7 s).
Definition _ID (s : string) : bool := _IDENTIFIER s.

(** ** Validators *)

Definition invalid {A} : result catalog_exn A := Raise CatalogError.
Definition ensure (b : bool) : result catalog_exn () := raise_if (negb b) CatalogError.

Definition _object (value : json) : result catalog_exn object := match value with JObj kv => Ok kv | _ => invalid end.
Definition _string (value : json) : result catalog_exn string :=
  match value with JStr s => if is_blank s then invalid else Ok s | _ => invalid end.
(** [empty=True] *)
Definition _any_string (value : json) : result catalog_exn string :=
  match value with JStr s => Ok s | _ => invalid end.
Definition _exact (value : json) (expected : list string) : result catalog_exn object :=
  kv ← _object value;
  _ ← ensure (has_exactly expected kv);
  Ok kv.
Definition _array (value : json) : result catalog_exn (list json) := match value with JArr l => Ok l | _ => invalid end.
Definition _strings (value : json) : result catalog_exn (list string) :=
  items ← _array value;
  result ← mapR _any_string items;
  _ ← ensure (negb (has_duplicates result));
  Ok result.
Definition _evidence (value : json) (required : bool) : result catalog_exn () :=
  result ← _strings value;
  ensure (negb (required && bool_decide (result = []))).
Definition _bool (value : json) : result catalog_exn bool := match value with JBool b => Ok b | _ => invalid end.

(** Each of the fields passes a check whose result is not used. *)
Definition each {A} (check : json → result catalog_exn A) (fields : list string) (kv : object) : result catalog_exn () :=
  forR (λ field, _ ← check (json_get field kv); Ok ()) fields.

Definition _source (value : json) : result catalog_exn () :=
  result ← _exact value ["ref"; "commit"];
  _ ← _string (json_get "ref" result);
  commit ← _string (json_get "commit" result);
  ensure (_SHA commit).

Definition _installation (value : json) : result catalog_exn (option object) :=
  match value with
  | JNull => Ok None
  | _ =>
      result ← _exact value ["type"; "repository"; "commit"; "manifest_path"; "manifest_sha256"; "source_subdir"; "entrypoint"];
      _ ← ensure (json_eqb (json_get "type" result) (JStr "python-source"));
      _ ← _string (json_get "repository" result);
      commit ← _string (json_get "commit" result);
      _ ← ensure (_SHA commit);
      _ ← _string (json_get "manifest_path" result);
      digest ← _string (json_get "manifest_sha256" result);
      _ ← ensure (_DIGEST digest);
      _ ← _any_string (json_get "source_subdir" result);
      entrypoint ← _exact (json_get "entrypoint" result) ["group"; "name"];
      _ ← each _string ["group"; "name"] entrypoint;
      Ok (Some result)
  end.

Definition additional_model (raw : json) : result catalog_exn () :=
  item ← _exact raw ["model"; "sha256"; "required"];
  _ ← _string (json_get "model" item);
  digest ← _string (json_get "sha256" item);
  _ ← ensure (_DIGEST digest);
  _ ← _bool (json_get "required" item);
  Ok ().

Definition _runtime_requirements (value : json) : result catalog_exn () :=
  result ← _exact value
    ["models"; "hardware"; "topologies"; "core"; "ascend"; "additional_models"; "storage"; "hbm"; "environment"];
  _ ← each _strings ["models"; "hardware"; "topologies"] result;
  _ ← each _string ["core"; "ascend"; "storage"; "hbm"] result;
  environment ← _object (json_get "environment" result);
  _ ← ensure (forallb (λ p, match p.2 with JStr _ => true | _ => false end) environment);
  models ← _array (json_get "additional_models" result);
  forR additional_model models.

Definition check_effect (raw : json) : result catalog_exn () :=
  effect ← _exact raw ["status"; "cell"; "summary"; "evidence"];
  status ← _string (json_get "status" effect);
  _ ← ensure (among _EFFECT status);
  _ ← each _string ["cell"; "summary"] effect;
  _evidence (json_get "evidence" effect) true.

Definition check_scenario (raw : json) : result catalog_exn () :=
  scenario ← _exact raw ["id"; "description"; "status"; "evidence"];
  _ ← each _string ["id"; "description"] scenario;
  status ← _string (json_get "status" scenario);
  _ ← ensure (among _SCENARIO status);
  _evidence (json_get "evidence" scenario) (bool_decide (status = "verified")).

Definition check_conflict (raw : json) : result catalog_exn () :=
  conflict ← _exact raw ["id"; "reason"];
  each _string ["id"; "reason"] conflict.

(** The checks across the fields of an entry. *)
Definition policy (maturity availability functional recovery : string) (allowed installed : bool) : bool :=
  let eqs s t := bool_decide (s = t) in
  negb (eqs maturity "qualified" && (negb (eqs functional "passed") || negb (eqs recovery "passed"))) &&
  negb (eqs maturity "qualified" && (negb installed || negb (eqs availability "available") || negb allowed)) &&
  negb (eqs maturity "preview" && (negb (eqs availability "preview") || allowed)) &&
  negb (eqs maturity "external" && (negb (eqs availability "external") || allowed)) &&
  negb (among ["failed"; "unverified"] functional && allowed) &&
  negb (among ["failed"; "unverified"] recovery && allowed) &&
  negb (allowed && negb installed).

Definition _validate_entry (entry : json) : result catalog_exn object :=
  item ← _exact entry _ENTRY;
  extension_id ← _string (json_get "id" item);
  _ ← ensure (_ID extension_id);
  _ ← each _string ["name"; "repository"] item;
  _ ← _source (json_get "source" item);
  maturity ← _string (json_get "maturity" item);
  availability ← _string (json_get "availability" item);
  _ ← ensure (among _MATURITY maturity && among _AVAILABILITY availability);
  installation ← _installation (json_get "installation" item);
  enablement ← _exact (json_get "enablement" item) ["allowed"; "blocker"];
  allowed ← _bool (json_get "allowed" enablement);
  _ ← match json_get "blocker" enablement with JNull => Ok () | v => _ ← _string v; Ok () end;
  _ ← _runtime_requirements (json_get "runtime_requirements" item);
  functional ← _exact (json_get "functional_qualification" item) ["status"; "scope"; "recovery"; "evidence"];
  functional_status ← _string (json_get "status" functional);
  recovery ← _string (json_get "recovery" functional);
  _ ← ensure (among _FUNCTIONAL functional_status && among _RECOVERY recovery);
  _ ← _string (json_get "scope" functional);
  _ ← _evidence (json_get "evidence" functional) (bool_decide (functional_status = "passed"));
  effects ← _array (json_get "tested_effects" item);
  _ ← forR check_effect effects;
  scenarios ← _array (json_get "expected_scenarios" item);
  _ ← forR check_scenario scenarios;
  recommendation ← _exact (json_get "recommendation" item) ["level"; "reason"];
  _ ← each _string ["level"; "reason"] recommendation;
  tradeoff ← _exact (json_get "resource_tradeoff" item) ["benefit"; "cost"];
  _ ← each _string ["benefit"; "cost"] tradeoff;
  conflicts ← _array (json_get "conflicts" item);
  _ ← forR check_conflict conflicts;
  rollback ← _exact (json_get "rollback" item) ["owner"; "steps"];
  _ ← _string (json_get "owner" rollback);
  steps ← _strings (json_get "steps" rollback);
  _ ← ensure (negb (bool_decide (steps = [])));
  _ ← ensure (policy maturity availability functional_status recovery allowed (bool_decide (is_Some installation)));
  Ok item.

Definition entry_id (entry : object) : string := match json_get "id" entry with JStr s => s | _ => "" end.

Definition parse_catalog (payload : json) : result catalog_exn object :=
  catalog ← _exact payload _TOP;
  _ ← ensure (json_eqb (json_get "schema" catalog) (JStr CATALOG_SCHEMA));
  _ ← _string (json_get "generated_at" catalog);
  _ ← _source (json_get "source" catalog);
  policy ← _exact (json_get "policy" catalog) ["availability"; "performance"; "preview"; "runtime_state"];
  _ ← forR (λ p, _ ← _string p.2; Ok ()) policy;
  extensions ← _array (json_get "extensions" catalog);
  _ ← ensure (negb (bool_decide (extensions = [])));
  parsed ← mapR _validate_entry extensions;
  let ids := entry_id <$> parsed in
  _ ← ensure (bool_decide (ids = sort_on (λ s : string, s) ids) && negb (has_duplicates ids));
  Ok catalog.

Definition load_catalog {F : FloatText} (path : ManifestFile) : result catalog_exn object :=
  _ ← ensure (negb (is_symlink path) && is_file path);
  match read_text path with
  | None => invalid
  | Some text =>
      match loads_text (E := ()) plain_hook plain_constant text with
      | Ok payload => parse_catalog payload
      | Raise IntegerTooLong => Raise CatalogValueError
      | Raise _ => invalid
      end
  end.

(** ** [activation_blocker]: of an entry of a parsed catalog *)

Definition enablement_of (entry : object) : object :=
  match json_get "enablement" entry with JObj kv => kv | _ => [] end.
Definition activation_blocker (entry : object) : option string :=
  if truthy (json_get "allowed" (enablement_of entry)) then None
  else match json_get "blocker" (enablement_of entry) with
       | JStr s => Some (if bool_decide (s = "") then "catalog entry is not enableable" else s)
       | _ => Some "catalog entry is not enableable"
       end.
