(* ===== verification/CatalogTheorems.v ===== *)
(** * What an accepted catalog promises

    About [Catalog]: an entry that can be enabled is installable and not known to fail, a
    qualified one is proved to work, and every claim that needs evidence has some. *)

From S2P Require Import Prelude PyStd JsonText JsonRoundTrip Manifest Catalog.

Local Open Scope string_scope.
Local Open Scope list_scope.

Lemma ensure_bind {A} b (r : result catalog_exn A) a : (_ ← ensure b; r) = Ok a ↔ b = true ∧ r = Ok a.
Proof. unfold ensure, raise_if. destruct b; naive_solver. Qed.
Lemma ensure_Ok b u : ensure b = Ok u ↔ b = true.
Proof. unfold ensure. by rewrite raise_if_Ok, negb_false_iff. Qed.

Lemma catalog_object_Ok v kv : Catalog._object v = Ok kv ↔ v = JObj kv.
Proof. destruct v; naive_solver. Qed.
Lemma catalog_array_Ok v l : Catalog._array v = Ok l ↔ v = JArr l.
Proof. destruct v; naive_solver. Qed.
Lemma catalog_bool_Ok v b : _bool v = Ok b ↔ v = JBool b.
Proof. destruct v; naive_solver. Qed.
Lemma any_string_Ok v s : _any_string v = Ok s ↔ v = JStr s.
Proof. destruct v; naive_solver. Qed.
Lemma catalog_string_Ok v s : Catalog._string v = Ok s ↔ v = JStr s ∧ is_blank s = false.
Proof.
  destruct v as [| | | |t| |]; try (split; [done|by intros []]). cbn [Catalog._string].
  destruct (is_blank t) eqn:E; split; [done| |intros [= <-]; done|by intros [[= ->] _]].
  intros [[= ->] ?]. congruence.
Qed.
Lemma exact_Ok v fields kv : _exact v fields = Ok kv ↔ v = JObj kv ∧ has_exactly fields kv = true.
Proof.
  unfold _exact. rewrite result_bind_Ok. setoid_rewrite ensure_bind. setoid_rewrite catalog_object_Ok. naive_solver.
Qed.
Lemma mapR_any_strings l ss : mapR _any_string l = Ok ss ↔ l = JStr <$> ss.
Proof.
  rewrite mapR_Ok. split.
  - induction 1 as [|v s l ss H%any_string_Ok _ IH]; [done|]. by rewrite fmap_cons, H, IH.
  - intros ->. induction ss; constructor; done.
Qed.
Lemma catalog_strings_Ok v ss : Catalog._strings v = Ok ss ↔ v = JArr (JStr <$> ss) ∧ NoDup ss.
Proof.
  unfold Catalog._strings. split.
  - intros (items & ->%catalog_array_Ok & (r & ->%mapR_any_strings & [H%negb_true_iff [= <-]]%ensure_bind)%result_bind_Ok)%result_bind_Ok.
    by apply has_duplicates_false in H.
  - intros [-> Hn]. cbn [Catalog._array mbind result_bind]. apply result_bind_Ok. exists ss.
    split; [by apply mapR_any_strings|]. apply ensure_bind. split; [|done]. by apply negb_true_iff, has_duplicates_false.
Qed.

(** At least one locator. *)
Definition has_evidence (v : json) : Prop := ∃ s ss, v = JArr (JStr <$> s :: ss).

Lemma some_evidence_Ok v required u : _evidence v required = Ok u → required = true → has_evidence v.
Proof.
  unfold _evidence. intros (ss & [-> _]%catalog_strings_Ok & H%ensure_Ok)%result_bind_Ok ->.
  apply negb_true_iff, bool_decide_eq_false in H. destruct ss as [|s ss]; [done|]. by exists s, ss.
Qed.

Ltac accepted :=
  repeat match goal with
  | H : mbind _ (ensure _) = Ok _ |- _ => apply ensure_bind in H as [? H]
  | H : mbind _ _ = Ok _ |- _ => apply result_bind_Ok in H as (? & ? & H)
  | H : Ok _ = Ok _ |- _ => injection H as H
  | H : ensure _ = Ok _ |- _ => apply ensure_Ok in H
  | H : _exact _ _ = Ok _ |- _ => apply exact_Ok in H as [? ?]
  | H : Catalog._object _ = Ok _ |- _ => apply catalog_object_Ok in H
  | H : Catalog._array _ = Ok _ |- _ => apply catalog_array_Ok in H
  | H : _bool _ = Ok _ |- _ => apply catalog_bool_Ok in H
  | H : Catalog._string _ = Ok _ |- _ => apply catalog_string_Ok in H as [? ?]
  | H : Catalog._strings _ = Ok _ |- _ => apply catalog_strings_Ok in H as [? ?]
  | H : _ && _ = true |- _ => apply andb_true_iff in H as [? ?]
  end.

Lemma forR_each {A} (f : A → result catalog_exn ()) (P : A → Prop) l u :
  (∀ x v, f x = Ok v → P x) → forR f l = Ok u → Forall P l.
Proof. intros Hf H. destruct u. apply forR_Ok in H. eapply Forall_impl; [exact H|]. intros x Hx. exact (Hf x _ Hx). Qed.

(** ** What an entry promises *)

Definition text_at (k : string) (kv : object) : option string := match json_get k kv with JStr s => Some s | _ => None end.
Definition items_at (k : string) (kv : object) : list json := match json_get k kv with JArr l => l | _ => [] end.
Definition object_at (k : string) (kv : object) : object := match json_get k kv with JObj kv => kv | _ => [] end.

(** The source an entry is installed from. *)
Definition installable (entry : object) : Prop :=
  ∃ inst commit digest, json_get "installation" entry = JObj inst ∧ json_get "type" inst = JStr "python-source" ∧
    text_at "commit" inst = Some commit ∧ _SHA commit = true ∧
    text_at "manifest_sha256" inst = Some digest ∧ _DIGEST digest = true.

Definition qualification (entry : object) : object := object_at "functional_qualification" entry.

Record entry_ok (entry : object) : Prop := {
  eo_id : ∃ id, text_at "id" entry = Some id ∧ _ID id = true ∧ entry_id entry = id;
  eo_enableable : activation_blocker entry = None →
    installable entry ∧
    (∃ s, text_at "status" (qualification entry) = Some s ∧ s ∈ ["passed"; "not-applicable"; "external"]) ∧
    (∃ s, text_at "recovery" (qualification entry) = Some s ∧ s ∈ ["passed"; "not-applicable"]) ∧
    (∃ s, text_at "maturity" entry = Some s ∧ s ∈ ["qualified"; "experimental"]);
  eo_qualified : text_at "maturity" entry = Some "qualified" →
    activation_blocker entry = None ∧ text_at "availability" entry = Some "available" ∧
    text_at "status" (qualification entry) = Some "passed" ∧ text_at "recovery" (qualification entry) = Some "passed";
  eo_passed : text_at "status" (qualification entry) = Some "passed" → has_evidence (json_get "evidence" (qualification entry));
  eo_effects : Forall (λ e, ∃ kv, e = JObj kv ∧ has_evidence (json_get "evidence" kv)) (items_at "tested_effects" entry);
  eo_scenarios : Forall (λ s, ∃ kv, s = JObj kv ∧ (text_at "status" kv = Some "verified" →
    has_evidence (json_get "evidence" kv))) (items_at "expected_scenarios" entry);
}.

Lemma installation_Ok v o :
  _installation v = Ok o →
  match o with
  | None => v = JNull
  | Some inst => ∃ commit digest, v = JObj inst ∧ json_get "type" inst = JStr "python-source" ∧
      text_at "commit" inst = Some commit ∧ _SHA commit = true ∧
      text_at "manifest_sha256" inst = Some digest ∧ _DIGEST digest = true
  end.
Proof.
  intros H. assert (v = JNull ∧ o = None ∨ ∃ inst, o = Some inst ∧ v = JObj inst) as [[-> ->]|(inst & -> & ->)].
  { unfold _installation in H. destruct v; [left; by injection H as <-|right; accepted; simplify_eq; by eexists..]. }
  { done. }
  unfold _installation in H. accepted. simplify_eq.
  repeat match goal with H : json_eqb _ _ = true |- _ => apply json_eqb_str in H end.
  unfold text_at. repeat match goal with H : json_get _ _ = JStr _ |- _ => rewrite H end. by eexists _, _.
Qed.

Lemma effect_Ok e u : check_effect e = Ok u → ∃ kv, e = JObj kv ∧ has_evidence (json_get "evidence" kv).
Proof. unfold check_effect. intros H. accepted. subst e. eexists. split; [done|]. by eapply some_evidence_Ok. Qed.

Lemma scenario_Ok s u :
  check_scenario s = Ok u →
  ∃ kv, s = JObj kv ∧ (text_at "status" kv = Some "verified" → has_evidence (json_get "evidence" kv)).
Proof.
  unfold check_scenario. intros H. accepted. subst s. eexists. split; [done|]. intros Hs.
  eapply some_evidence_Ok; [eassumption|]. unfold text_at in Hs.
  match goal with H : json_get "status" _ = JStr _ |- _ => rewrite H in Hs end. injection Hs as ->.
  by apply bool_decide_eq_true.
Qed.

(** The policy, read off its truth table. *)
Lemma policy_enableable m a f r i :
  policy m a f r true i = true →
  i = true ∧ f ∉ ["failed"; "unverified"] ∧ r ∉ ["failed"; "unverified"] ∧ m ∉ ["preview"; "external"].
Proof.
  unfold policy, among. rewrite !andb_true_iff, !negb_true_iff, !andb_false_iff, !orb_false_iff, !bool_decide_eq_false.
  intros H. destruct_and?. split_and!; [by destruct i; naive_solver|naive_solver|naive_solver|set_solver].
Qed.

Lemma policy_qualified a f r b i :
  policy "qualified" a f r b i = true → i = true ∧ b = true ∧ a = "available" ∧ f = "passed" ∧ r = "passed".
Proof.
  unfold policy, among.
  rewrite !andb_true_iff, !negb_true_iff, !andb_false_iff, !orb_false_iff, !negb_false_iff, !bool_decide_eq_true.
  intros H. destruct_and?. destruct i, b; naive_solver.
Qed.

Lemma among_in l s : among l s = true ↔ s ∈ l.
Proof. unfold among. by rewrite bool_decide_eq_true. Qed.

Lemma blocker_allowed item kv allowed :
  json_get "enablement" item = JObj kv → json_get "allowed" kv = JBool allowed →
  activation_blocker item = None ↔ allowed = true.
Proof.
  intros He Ha. unfold activation_blocker, enablement_of. rewrite He, Ha. cbn [truthy].
  destruct allowed; [done|]. split; [|done]. by destruct (json_get "blocker" kv).
Qed.

(** From what the validator read of an entry. *)
Lemma entry_promises item id m a enablement allowed o q f r :
  json_get "id" item = JStr id → _ID id = true → json_get "maturity" item = JStr m → m ∈ _MATURITY →
  json_get "availability" item = JStr a → json_get "enablement" item = JObj enablement →
  json_get "allowed" enablement = JBool allowed → _installation (json_get "installation" item) = Ok o →
  json_get "functional_qualification" item = JObj q → json_get "status" q = JStr f → f ∈ _FUNCTIONAL →
  json_get "recovery" q = JStr r → r ∈ _RECOVERY →
  (f = "passed" → has_evidence (json_get "evidence" q)) →
  Forall (λ e, ∃ kv, e = JObj kv ∧ has_evidence (json_get "evidence" kv)) (items_at "tested_effects" item) →
  Forall (λ s, ∃ kv, s = JObj kv ∧ (text_at "status" kv = Some "verified" →
    has_evidence (json_get "evidence" kv))) (items_at "expected_scenarios" item) →
  policy m a f r allowed (bool_decide (is_Some o)) = true →
  entry_ok item.
Proof.
  intros Hid HID Hm Hm' Ha Hen Hal Ho Hq Hf Hf' Hr Hr' Hev Heff Hsc Hpol.
  pose proof (blocker_allowed _ _ _ Hen Hal) as Hblock.
  assert (qualification item = q) as Hqual by (unfold qualification, object_at; by rewrite Hq).
  split; rewrite ?Hqual; unfold text_at in *; rewrite ?Hid, ?Hm, ?Ha, ?Hf, ?Hr; try done.
  - exists id. unfold entry_id. by rewrite Hid.
  - rewrite Hblock. intros ->. destruct (policy_enableable _ _ _ _ _ Hpol) as (Hi & Hnf & Hnr & Hnm).
    split_and!; [|exists f; split; [done|set_solver]|exists r; split; [done|set_solver]|exists m; split; [done|set_solver]].
    apply bool_decide_eq_true in Hi as [inst ->]. apply installation_Ok in Ho as (c & dg & ? & ? & ? & ? & ? & ?).
    by exists inst, c, dg.
  - intros [= ->]. destruct (policy_qualified _ _ _ _ _ Hpol) as (_ & -> & -> & -> & ->). by rewrite Hblock.
  - intros [= ->]. by apply Hev.
Qed.

Lemma validate_entry_Ok e item : _validate_entry e = Ok item → e = JObj item ∧ entry_ok item.
Proof.
  unfold _validate_entry. intros H. accepted. subst e x. split; [done|].
  repeat match goal with H : forR check_effect _ = Ok _ |- _ => apply (forR_each _ _ _ _ effect_Ok) in H end.
  repeat match goal with H : forR check_scenario _ = Ok _ |- _ => apply (forR_each _ _ _ _ scenario_Ok) in H end.
  repeat match goal with H : among _ _ = true |- _ => apply among_in in H end.
  eapply entry_promises; try eassumption.
  - intros E. eapply some_evidence_Ok; [eassumption|]. by apply bool_decide_eq_true.
  - unfold items_at. by match goal with H : json_get "tested_effects" _ = _ |- _ => rewrite H end.
  - unfold items_at. by match goal with H : json_get "expected_scenarios" _ = _ |- _ => rewrite H end.
Qed.

(** A catalog parse_catalog accepts has at least one entry, with unique identifiers in
    order, and keeps the policy: what may be enabled is installable from a pinned commit
    and digest and neither failed nor unverified in function or recovery; what is
    qualified passed both, is available and may be enabled; and passed qualifications,
    effects and verified scenarios all name evidence. *)
Theorem catalog_policy_enforced (payload : json) (catalog : object) :
  parse_catalog payload = Ok catalog →
  payload = JObj catalog ∧
  ∃ entries, json_get "extensions" catalog = JArr (JObj <$> entries) ∧ entries ≠ [] ∧ Forall entry_ok entries ∧
    NoDup (entry_id <$> entries) ∧ StronglySorted (key_le id) (entry_id <$> entries).
Proof.
  unfold parse_catalog. intros H. cbv zeta in *. accepted. subst.
  match goal with H : mapR _ _ = Ok ?l |- _ => rename H into Hp; split; [done|]; exists l end.
  apply mapR_Ok in Hp.
  assert (∀ l es, Forall2 (λ e item, _validate_entry e = Ok item) l es → l = JObj <$> es ∧ Forall entry_ok es) as Hall.
  { induction 1 as [|e item l es [-> He]%validate_entry_Ok _ [-> IH]]; [done|]. split; [done|by constructor]. }
  apply Hall in Hp as [-> Hes]. 
  match goal with H : json_get "extensions" _ = _ |- _ => rewrite H end.
  repeat match goal with H : negb _ = true |- _ => apply negb_true_iff in H end.
  match goal with H : has_duplicates _ = false |- _ => apply has_duplicates_false in H end. bool_inv.
  split_and!; try done.
  - intros ->. done.
  - match goal with H : _ = sort_on _ _ |- _ => rewrite H end. exact (sort_on_sorted id _).
Qed.

(** ** A catalog of one qualified entry *)

Module Example.
Definition digits (n : nat) : string := String.concat "" (repeat "a" n).
Definition source : json := JObj [("ref", JStr "main"); ("commit", JStr (digits 40))].
Definition installation : json :=
  JObj [("type", JStr "python-source"); ("repository", JStr "r"); ("commit", JStr (digits 40));
        ("manifest_path", JStr "m.json"); ("manifest_sha256", JStr ("sha256:" +:+ digits 64));
        ("source_subdir", JStr ""); ("entrypoint", JObj [("group", JStr "g"); ("name", JStr "n")])].
Definition requirements : json :=
  JObj [("models", JArr []); ("hardware", JArr [JStr "910B"]); ("topologies", JArr []); ("core", JStr "c");
        ("ascend", JStr "a"); ("additional_models", JArr []); ("storage", JStr "s"); ("hbm", JStr "h");
        ("environment", JObj [("K", JStr "V")])].
Definition entry (maturity functional : string) (allowed : bool) : json :=
  JObj [("id", JStr "org.policy"); ("name", JStr "Policy"); ("repository", JStr "r"); ("source", source);
        ("maturity", JStr maturity); ("availability", JStr "available"); ("installation", installation);
        ("enablement", JObj [("allowed", JBool allowed); ("blocker", JNull)]); ("runtime_requirements", requirements);
        ("functional_qualification",
         JObj [("status", JStr functional); ("scope", JStr "s"); ("recovery", JStr "passed"); ("evidence", JArr [JStr "run-1"])]);
        ("tested_effects", JArr [JObj [("status", JStr "beneficial"); ("cell", JStr "c"); ("summary", JStr "s");
                                       ("evidence", JArr [JStr "run-1"])]]);
        ("expected_scenarios", JArr [JObj [("id", JStr "s1"); ("description", JStr "d"); ("status", JStr "unverified");
                                           ("evidence", JArr [])]]);
        ("recommendation", JObj [("level", JStr "l"); ("reason", JStr "r")]);
        ("resource_tradeoff", JObj [("benefit", JStr "b"); ("cost", JStr "c")]); ("conflicts", JArr []);
        ("rollback", JObj [("owner", JStr "o"); ("steps", JArr [JStr "disable"])])].
Definition catalog_fields (entries : list json) : object :=
  [("schema", JStr CATALOG_SCHEMA); ("generated_at", JStr "2026"); ("source", source);
   ("policy", JObj [("availability", JStr "a"); ("performance", JStr "p"); ("preview", JStr "v"); ("runtime_state", JStr "r")]);
   ("extensions", JArr entries)].

(** What has failed cannot be enabled. *)
Lemma failed_refused : parse_catalog (JObj (catalog_fields [entry "experimental" "failed" true])) = Raise CatalogError.
Proof. vm_compute. reflexivity. Qed.
Lemma failed_disabled_accepted :
  parse_catalog (JObj (catalog_fields [entry "experimental" "failed" false])) =
  Ok (catalog_fields [entry "experimental" "failed" false]).
Proof. vm_compute. reflexivity. Qed.

Lemma catalog_policy_enforced_witness :
  ∃ entries, json_get "extensions" (catalog_fields [entry "qualified" "passed" true]) = JArr (JObj <$> entries) ∧
    entries ≠ [] ∧ Forall entry_ok entries ∧ NoDup (entry_id <$> entries) ∧
    StronglySorted (key_le id) (entry_id <$> entries).
Proof.
  refine (proj2 (catalog_policy_enforced (JObj (catalog_fields [entry "qualified" "passed" true])) _ _)).
  vm_compute. reflexivity.
Defined.
End Example.
