(* ===== verification/ExtensionCore.v ===== *)
(** * Planning and status of extensions

    [src/vllm_hust_ext/providers/base.py], [providers/__init__.py] and [core.py]: the contract
    of a host provider, the compatibility verdict it is given, the choice of the provider,
    the status of an extension, its plan, and the conflicts between plans.  A provider is a
    record of its operations; an error keeps its class; the lines of evidence are
    constructors with what they mention. *)

From S2P Require Import Prelude PyStd JsonText ContractParse HostEvidence Manifest Capabilities ExtensionConfig Discovery RuntimeEvidence.

Local Open Scope string_scope.
Local Open Scope list_scope.

(** [ProviderRaises]: an exception that is no [ValueError]. *)
Inductive core_exn : Type := CoreValueError | ProviderRaises.

(** ** [providers/base.py] *)

Record PlanAction : Type := mkAction {
  operation : string; action_target : json; action_owner : string; mutating : bool; details : list (string * json);
}.
Record ProviderPlan : Type := mkPlan {
  plan_extension : string; plan_provider : string; actions : list PlanAction; generated_config : list (string * json);
  warnings : list string; plan_claims : list ResourceClaim;
}.
Record RenderArtifact : Type := mkArtifact { artifact_name : string; media_type : string; content : string }.

Inductive evidence_line : Type :=
  | HostVersionUnavailable | HostVersionOutside (v : json) (range : string) | HostVersionInside (v : json)
  | HostApiUnavailable | HostApiOutside (v : json) (range : string) | HostApiInside (v : json)
  | ProtocolsNoObject
  | ProtocolUnversioned (name : string) | ProtocolUnavailable (name : string)
  | ProtocolOutside (name : string) (v : json) (range : string) | ProtocolInside (name : string) (v : json)
  | Capability (note : capability_note)
  | Mismatches (keys : list (string * (json * json))) | DigestVerified (path : string)
  | ProviderRefused | EffectiveAt (e : Effective) | Remark (text : string).

Record ProviderCheck : Type := mkCheck {
  compatible : option bool; configured : bool; reachable : option bool; healthy : option bool; degraded : bool;
  check_evidence : list evidence_line;
}.

(** The protocol [HostProvider]. *)
Record HostProvider : Type := mkProvider {
  provider_name : string;
  supports : BundleManifest → bool;
  provider_plan : BundleManifest → list (string * json) → bool → result core_exn ProviderPlan;
  render : ProviderPlan → result core_exn (list RenderArtifact);
  check : BundleManifest → list (string * json) → result core_exn ProviderCheck;
}.

Section base.
Context {PV : Pep440}.

(** [str(value)] as far as it can be a version: the text of a list or an object begins with
    a bracket and that of the rest with a letter, which no version does. *)
Definition version_text (v : json) : option string :=
  match v with
  | JStr s => Some s
  | JInt z => Some (pretty z)
  | JFloat r => Some r
  | _ => None
  end.

(** [_matches(str(value), range)], for a range that parses, as those of a manifest do *)
Definition _matches (v : json) (range : string) : bool :=
  match version_text v with
  | None => false
  | Some text => match Version text, SpecifierSet range with
                 | Some version, Some specifier => contains specifier version
                 | _, _ => false
                 end
  end.

(** A verdict so far: whether something is unknown, and the evidence; [inl] once it is
    decided that the extension is incompatible. *)
Definition Verdict : Type := list evidence_line + bool * list evidence_line.

(** One range against the version that is known of it, if any. *)
Definition assess (v : json) (range : string) (unavailable outside inside : evidence_line) (so_far : Verdict) : Verdict :=
  match so_far with
  | inl no => inl no
  | inr (unknown, evidence) =>
      match v with
      | JNull => inr (true, evidence ++ [unavailable])
      | v => if _matches v range then inr (unknown, evidence ++ [inside]) else inl [outside]
      end
  end.

Definition assess_protocol (versions : list (string * json)) (so_far : Verdict) (p : ProtocolSpec) : Verdict :=
  let name := proto_name p in
  match proto_range p with
  | None => match so_far with
            | inl no => inl no
            | inr (unknown, evidence) => inr (unknown, evidence ++ [ProtocolUnversioned name])
            end
  | Some range =>
      let v := default JNull (od_get name versions) in
      assess v range (ProtocolUnavailable name) (ProtocolOutside name v range) (ProtocolInside name v) so_far
  end.

(** [dict.update] *)
Definition update (d d' : list (string * json)) : list (string * json) := foldl (λ d p, od_set p.1 p.2 d) d d'.

Definition assess_compatibility (m : BundleManifest) (config : list (string * json))
    (detected_host_version default_api_version : option string) (default_protocols : list (string * json))
    : option bool * list evidence_line :=
  let host_version := get_or (jstr_opt detected_host_version) "host_version" config in
  let api_version := get_or (jstr_opt default_api_version) "host_api_version" config in
  let after_host := assess host_version (host_range (host m)) HostVersionUnavailable
                      (HostVersionOutside host_version (host_range (host m))) (HostVersionInside host_version)
                      (inr (false, [])) in
  let after_api := match api_range (host m) with
                   | None => after_host
                   | Some range => assess api_version range HostApiUnavailable (HostApiOutside api_version range)
                                     (HostApiInside api_version) after_host
                   end in
  match after_api with
  | inl no => (Some false, no)
  | inr so_far =>
      match get_or (JObj []) "protocol_versions" config with
      | JObj supplied =>
          match foldl (assess_protocol (update default_protocols supplied)) (inr so_far) (protocols m) with
          | inl no => (Some false, no)
          | inr (unknown, evidence) => (if unknown then None else Some true, evidence)
          end
      | _ => (Some false, [ProtocolsNoObject])
      end
  end.
End base.

(** ** [providers/__init__.py] *)

(** A registered provider: its name, and what loading it gives, [None] where it raises. *)
Record ProviderEntry : Type := mkProviderEntry { pe_name : string; pe_load : option HostProvider }.

Definition _load_external_provider (e : ProviderEntry) : result core_exn HostProvider :=
  match pe_load e with
  | Some p => if decide (provider_name p = pe_name e) then Ok p else Raise CoreValueError
  | None => Raise CoreValueError
  end.

Section core.
Context (builtins : list (string * HostProvider)) (entries : list ProviderEntry).

Fixpoint add_external (known : list (string * HostProvider)) (entries : list ProviderEntry)
    : result core_exn (list (string * HostProvider)) :=
  match entries with
  | [] => Ok known
  | e :: entries =>
      _ ← raise_if (among known.*1 (pe_name e)) CoreValueError;
      p ← _load_external_provider e;
      add_external (od_set (provider_name p) p known) entries
  end.
Definition providers (include_external : bool) : result core_exn (list (string * HostProvider)) :=
  if include_external then add_external builtins entries else Ok builtins.

Definition provider_for (name : string) (include_external : bool) : result core_exn HostProvider :=
  let builtin := od_get name builtins in
  if include_external then
    match builtin, filter (λ e, pe_name e = name) entries with
    | Some _, _ :: _ => Raise CoreValueError
    | Some p, [] => Ok p
    | None, [e] => _load_external_provider e
    | None, _ => Raise CoreValueError
    end
  else match builtin with Some p => Ok p | None => Raise CoreValueError end.

(** ** [core.py] *)

Inductive LifecycleState : Type :=
  | INSTALLED | DISCOVERED | COMPATIBLE | CONFIGURED | ENABLED | RUNTIME_EFFECTIVE | REACHABLE | HEALTHY | DEGRADED
  | INCOMPATIBLE.

#[export] Instance LifecycleState_eq_dec : EqDecision LifecycleState.
Proof. solve_decision. Defined.

Record ExtensionStatus : Type := mkStatus {
  status_extension : string; status_provider : string; states : list LifecycleState;
  status_evidence : list evidence_line;
}.

Definition when (b : bool) (s : LifecycleState) : list LifecycleState := if b then [s] else [].
Definition is_yes (o : option bool) : bool := match o with Some true => true | _ => false end.
Definition is_no (o : option bool) : bool := match o with Some false => true | _ => false end.

Definition checked (include_external : bool) (bundle : InstalledBundle) (e : ExtensionConfig)
    : result core_exn (HostProvider * ProviderCheck) :=
  provider ← provider_for (host_provider (host (manifest bundle))) include_external;
  _ ← raise_if (negb (supports provider (manifest bundle))) CoreValueError;
  c ← check provider (manifest bundle) (configuration e);
  Ok (provider, c).

(** [effective] is [runtime_effective_evidence(bundle)]. *)
Definition status_for (include_external : bool) (effective : result runtime_exn (option Effective))
    (bundle : InstalledBundle) (e : ExtensionConfig) : result (core_exn + runtime_exn) ExtensionStatus :=
  match checked include_external bundle e with
  | Raise CoreValueError =>
      Ok (mkStatus (ib_id bundle) (host_provider (host (manifest bundle))) [INSTALLED; DISCOVERED; INCOMPATIBLE]
            [ProviderRefused])
  | Raise ProviderRaises => Raise (inl ProviderRaises)
  | Ok (provider, c) =>
      match (if enabled e then effective else Ok None) with
      | Raise x => Raise (inr x)
      | Ok running =>
          Ok (mkStatus (ib_id bundle) (provider_name provider)
                ([INSTALLED; DISCOVERED] ++
                 (if is_yes (compatible c) then [COMPATIBLE] else when (is_no (compatible c)) INCOMPATIBLE) ++
                 when (configured c) CONFIGURED ++
                 (if enabled e then [ENABLED] ++ when (bool_decide (is_Some running)) RUNTIME_EFFECTIVE else []) ++
                 when (is_yes (reachable c)) REACHABLE ++
                 when (is_yes (healthy c)) HEALTHY ++
                 when (degraded c || is_no (reachable c) || is_no (healthy c)) DEGRADED)
                (check_evidence c ++ match running with Some r => [EffectiveAt r] | None => [] end))
      end
  end.

Definition with_claims (claims : list ResourceClaim) (p : ProviderPlan) : ProviderPlan :=
  mkPlan (plan_extension p) (plan_provider p) (actions p) (generated_config p) (warnings p) claims.

Definition plan_for (include_external : bool) (bundle : InstalledBundle) (e : ExtensionConfig)
    : result core_exn ProviderPlan :=
  provider ← provider_for (host_provider (host (manifest bundle))) include_external;
  _ ← raise_if (negb (supports provider (manifest bundle))) CoreValueError;
  plan ← provider_plan provider (manifest bundle) (configuration e) (enabled e);
  _ ← raise_if (existsb mutating (actions plan)) CoreValueError;
  _ ← raise_if (negb (bool_decide (plan_claims plan = [])) &&
                negb (bool_decide (plan_claims plan = resource_claims (manifest bundle)))) CoreValueError;
  Ok (with_claims (resource_claims (manifest bundle)) plan).

Definition render_plan (include_external : bool) (plan : ProviderPlan) : result core_exn (list RenderArtifact) :=
  provider ← provider_for (plan_provider plan) include_external;
  render provider plan.
End core.

(** ** Conflicts *)

(** A pass over items with keys that compares each with the last earlier one of its key. *)
Section last_of_key.
Context {K V : Type} `{EqDecision K} (conflict : V → V → bool).

Fixpoint check_items (seen : list (K * V)) (items : list (K * V)) : result core_exn () :=
  match items with
  | [] => Ok ()
  | (k, v) :: items =>
      _ ← raise_if (match od_get k seen with Some previous => conflict previous v | None => false end) CoreValueError;
      check_items (od_set k v seen) items
  end.
End last_of_key.

(** Scope and resource, and the mode that is claimed. *)
Definition claim_items (plans : list ProviderPlan) : list ((string * string) * string) :=
  plans ≫= λ p, (λ c, ((claim_scope c, claim_resource c), claim_mode c)) <$> plan_claims p.
(** Provider and configuration key, and the value. *)
Definition config_items (plans : list ProviderPlan) : list ((string * string) * json) :=
  plans ≫= λ p, (λ kv, ((plan_provider p, kv.1), kv.2)) <$> generated_config p.

Definition claims_conflict (previous mode : string) : bool :=
  bool_decide (previous = "exclusive") || bool_decide (mode = "exclusive").
Definition values_differ (previous v : json) : bool := negb (json_eqb previous v).

Definition reject_conflicting_plans (plans : list ProviderPlan) : result core_exn () :=
  _ ← check_items claims_conflict [] (claim_items plans);
  check_items values_differ [] (config_items plans).
