(* ===== verification/ExtensionCoreTheorems.v ===== *)
(** * What planning and status guarantee

    About [ExtensionCore]: when plans conflict, what the compatibility verdict means, and
    what makes an extension effective at run time. *)

From S2P Require Import Prelude PyStd JsonText ContractParse HostEvidence Manifest ManifestTheorems ExtensionConfig Discovery RuntimeEvidence ExtensionCore.

Local Open Scope string_scope.
Local Open Scope list_scope.

(** ** Conflicts *)

Section items.
Context {K V : Type} `{EqDecision K} (conflict : V → V → bool).

Definition last_value (k : K) (items : list (K * V)) : option V := last (filter (λ p, p.1 = k) items).*2.
Definition seen_of (items : list (K * V)) : list (K * V) := foldl (λ d p, od_set p.1 p.2 d) [] items.

Lemma last_value_snoc k v items k' :
  last_value k' (items ++ [(k, v)]) = if decide (k' = k) then Some v else last_value k' items.
Proof.
  unfold last_value. rewrite filter_app, filter_cons, filter_nil. cbn [fst].
  destruct (decide (k' = k)) as [->|Hne].
  - rewrite decide_True, fmap_app by done. apply last_snoc.
  - by rewrite (decide_False (P := k = k')), app_nil_r by congruence.
Qed.

Lemma seen_last k items : od_get k (seen_of items) = last_value k items.
Proof.
  unfold seen_of. induction items as [|[k' v] items IH] using rev_ind; [done|].
  rewrite foldl_app, last_value_snoc. cbn [foldl fst snd]. by rewrite od_get_set, IH.
Qed.

(** Every item agrees with the last earlier one of its key. *)
Definition agree_with_last (items : list (K * V)) : Prop :=
  ∀ pre k v post w, items = pre ++ (k, v) :: post → last_value k pre = Some w → conflict w v = false.

Lemma check_items_last pre items u :
  check_items conflict (seen_of pre) items = Ok u ↔
  ∀ mid k v post w, items = mid ++ (k, v) :: post → last_value k (pre ++ mid) = Some w → conflict w v = false.
Proof.
  revert pre. induction items as [|[k v] items IH]; intros pre; cbn [check_items].
  { split; [by intros _ [|??]|by destruct u]. }
  rewrite seen_last.
  assert (od_set k v (seen_of pre) = seen_of (pre ++ [(k, v)])) as -> by (unfold seen_of; by rewrite foldl_app).
  assert ((_ ← raise_if match last_value k pre with Some previous => conflict previous v | None => false end CoreValueError;
           check_items conflict (seen_of (pre ++ [(k, v)])) items) = Ok u ↔
          match last_value k pre with Some previous => conflict previous v | None => false end = false ∧
          check_items conflict (seen_of (pre ++ [(k, v)])) items = Ok u) as ->
    by (destruct (match last_value k pre with Some _ => _ | None => _ end); cbn; naive_solver).
  rewrite IH. split.
  - intros [H1 H2] [|[k0 v0] mid] k' v' post w; cbn [app].
    + intros [= <- <- <-]. rewrite app_nil_r. intros Hl. by rewrite Hl in H1.
    + intros [= <- <- E] Hl. apply (H2 mid k' v' post w E). by rewrite <-app_assoc.
  - intros H. split.
    + destruct (last_value k pre) as [w|] eqn:E; [|done]. apply (H [] k v items w eq_refl). by rewrite app_nil_r.
    + intros mid k' v' post w -> Hl. apply (H ((k, v) :: mid) k' v' post w eq_refl). by rewrite <-app_assoc in Hl.
Qed.

Lemma check_items_Ok items u : check_items conflict [] items = Ok u ↔ agree_with_last items.
Proof. apply (check_items_last []). Qed.

(** Where agreeing is transitive, every two items of a key agree. *)
Definition agree_pairwise (items : list (K * V)) : Prop :=
  ∀ pre k v mid w post, items = pre ++ (k, v) :: mid ++ (k, w) :: post → conflict v w = false.

Lemma agree_last_pairwise items :
  (∀ a b c, conflict a b = false → conflict b c = false → conflict a c = false) →
  agree_with_last items ↔ agree_pairwise items.
Proof.
  intros Htrans. split.
  - intros H pre k v mid w post E.
    assert (∀ mid', (∃ rest, mid = mid' ++ rest) →
      ∃ x, last_value k (pre ++ (k, v) :: mid') = Some x ∧ (x = v ∨ conflict v x = false)) as Hmid.
    { induction mid' as [|[k' v'] mid' IH] using rev_ind; intros [rest ->].
      - exists v. split; [|by left]. rewrite last_value_snoc. by rewrite decide_True.
      - destruct IH as (x & Hx & Hvx); [by exists ((k', v') :: rest); rewrite <-app_assoc|].
        rewrite app_comm_cons, app_assoc, last_value_snoc. destruct (decide (k = k')) as [<-|Hne]; [|by exists x].
        exists v'. split; [done|]. right.
        assert (conflict x v' = false) as Hxv.
        { eapply (H (pre ++ (k, v) :: mid') k v' (rest ++ (k, w) :: post)); [|exact Hx].
          rewrite E. repeat (cbn; rewrite <-?app_assoc). done. }
        destruct Hvx as [->|Hvx]; [done|by eapply Htrans]. }
    destruct (Hmid mid) as (x & Hx & Hvx); [exists []; by rewrite app_nil_r|].
    assert (conflict x w = false) as Hxw.
    { eapply (H (pre ++ (k, v) :: mid) k w post); [|exact Hx]. by rewrite E, <-app_assoc. }
    destruct Hvx as [->|Hvx]; [done|by eapply Htrans].
  - intros H pre k v post w -> Hl. unfold last_value in Hl. apply last_Some in Hl as [l Hl].
    assert ((k, w) ∈ pre) as Hin.
    { assert (w ∈ (filter (λ p : K * V, p.1 = k) pre).*2) as Hw by (rewrite Hl; set_solver).
      apply list_elem_of_fmap in Hw as ([k' w'] & -> & [Hk Hw]%list_elem_of_filter). cbn in *. by subst. }
    apply list_elem_of_split in Hin as (l1 & l2 & ->). eapply (H l1 k w l2 v post). by rewrite <-app_assoc.
Qed.
End items.

(** reject_conflicting_plans accepts plans exactly when no two claims on one scope and
    resource involve an exclusive one, and every generated configuration value equals
    the last one before it under the same provider and key. *)
Theorem conflict_free_exactly (plans : list ProviderPlan) (u : ()) :
  reject_conflicting_plans plans = Ok u ↔
  (∀ pre k mode mid mode' post,
     claim_items plans = pre ++ (k, mode) :: mid ++ (k, mode') :: post → mode ≠ "exclusive" ∧ mode' ≠ "exclusive") ∧
  (∀ pre k v post w,
     config_items plans = pre ++ (k, v) :: post → last_value k pre = Some w → json_eqb w v = true).
Proof.
  unfold reject_conflicting_plans. rewrite result_bind_Ok. destruct u. split.
  - intros ([] & H1%check_items_Ok & H2%check_items_Ok). split.
    + apply agree_last_pairwise in H1.
      * intros pre k mode mid mode' post E. specialize (H1 _ _ _ _ _ _ E). unfold claims_conflict in H1. bool_inv. done.
      * unfold claims_conflict. intros a b c [? ?]%orb_false_iff [? ?]%orb_false_iff. by apply orb_false_iff.
    + intros pre k v post w E Hl. specialize (H2 _ _ _ _ _ E Hl). by apply negb_false_iff.
  - intros [H1 H2]. exists (). split; apply check_items_Ok.
    + apply agree_last_pairwise.
      * unfold claims_conflict. intros a b c [? ?]%orb_false_iff [? ?]%orb_false_iff. by apply orb_false_iff.
      * intros pre k v mid w post E. destruct (H1 _ _ _ _ _ _ E). unfold claims_conflict.
        by rewrite !bool_decide_eq_false_2.
    + intros pre k v post w E Hl. apply negb_false_iff. by eapply H2.
Qed.

(** ** The verdict *)

(** What is known of one requirement. *)
Inductive known : Type := Met | Unmet | Unknown.
#[export] Instance known_eq_dec : EqDecision known.
Proof. solve_decision. Defined.

Section verdict.
Context {PV : Pep440}.

Definition requirement (v : json) (range : string) : known :=
  match v with JNull => Unknown | v => if _matches v range then Met else Unmet end.

Definition protocol_requirements (versions : list (string * json)) (l : list ProtocolSpec) : list known :=
  omap (λ p, range ← proto_range p; Some (requirement (default JNull (od_get (proto_name p) versions)) range)) l.

(** The host, the host's API and each versioned protocol. *)
Definition requirements (m : BundleManifest) (config : list (string * json)) (host_version api_version : option string)
    (versions : list (string * json)) : list known :=
  [requirement (get_or (jstr_opt host_version) "host_version" config) (host_range (host m))] ++
  match api_range (host m) with
  | Some range => [requirement (get_or (jstr_opt api_version) "host_api_version" config) range]
  | None => []
  end ++
  protocol_requirements versions (protocols m).

(** Three-valued conjunction. *)
Definition all_known (l : list known) : option bool :=
  if decide (Unmet ∈ l) then Some false else if decide (Unknown ∈ l) then None else Some true.

(** What a verdict so far says of the requirements before it. *)
Definition sums (so_far : Verdict) (l : list known) : Prop :=
  match so_far with
  | inl _ => Unmet ∈ l
  | inr (unknown, _) => Unmet ∉ l ∧ (unknown = true ↔ Unknown ∈ l)
  end.

Lemma assess_sums v range a b c so_far l :
  sums so_far l → sums (assess v range a b c so_far) (l ++ [requirement v range]).
Proof.
  unfold sums, assess, requirement. destruct so_far as [no|[unknown e]]; [set_solver|]. intros [H1 H2].
  destruct v; try destruct (_matches _ _); cbn; set_solver.
Qed.

Lemma protocols_sums versions ps so_far l :
  sums so_far l → sums (foldl (assess_protocol versions) so_far ps) (l ++ protocol_requirements versions ps).
Proof.
  revert so_far l. induction ps as [|p ps IH]; intros so_far l H; [by rewrite app_nil_r|].
  cbn [foldl]. unfold protocol_requirements. cbn [omap list_omap]. unfold assess_protocol at 2.
  destruct (proto_range p) as [range|]; cbn [mbind option_bind].
  - rewrite cons_middle, app_assoc. apply IH. by apply assess_sums.
  - apply IH. by destruct so_far as [|[]].
Qed.

Lemma sums_verdict so_far l :
  sums so_far l →
  match so_far with inl no => Some false | inr (unknown, _) => if (unknown : bool) then None else Some true end = all_known l.
Proof.
  unfold sums, all_known. destruct so_far as [no|[[] e]]; [by intros; rewrite decide_True| |]; intros [H1 H2];
    rewrite decide_False by done; [rewrite decide_True|rewrite decide_False]; try done; [tauto|].
  intros H. apply H2 in H. done.
Qed.

(** assess_compatibility is the three-valued conjunction of the requirements of the
    manifest: false when the host, its API or a versioned protocol is known to be
    outside its range, unknown when one of them is unknown, true otherwise;
    protocol_versions that is no object makes it false. *)
Theorem verdict_exact (m : BundleManifest) (config : list (string * json)) (host_version api_version : option string)
    (defaults : list (string * json)) :
  (assess_compatibility m config host_version api_version defaults).1 =
  match get_or (JObj []) "protocol_versions" config with
  | JObj supplied => all_known (requirements m config host_version api_version (update defaults supplied))
  | _ => Some false
  end.
Proof.
  unfold assess_compatibility. cbv zeta.
  set (hv := get_or _ "host_version" config). set (av := get_or _ "host_api_version" config).
  set (l := [requirement hv (host_range (host m))] ++
            match api_range (host m) with Some range => [requirement av range] | None => [] end).
  set (after_api := match api_range (host m) with None => _ | Some _ => _ end).
  assert (sums after_api l) as Hl.
  { unfold after_api, l. destruct (api_range (host m)) as [range|].
    - apply assess_sums, (assess_sums _ _ _ _ _ _ []). cbn. set_solver.
    - rewrite app_nil_r. apply (assess_sums _ _ _ _ _ _ []). cbn. set_solver. }
  assert (∀ versions, requirements m config host_version api_version versions = l ++ protocol_requirements versions (protocols m)) as Hreq.
  { intros versions. unfold requirements, l. by rewrite <-app_assoc. }
  destruct after_api as [no|so_far] eqn:E.
  - destruct (get_or _ "protocol_versions" config); try done. cbn [fst]. rewrite Hreq. unfold all_known.
    rewrite decide_True; [done|]. cbn in Hl. set_solver.
  - destruct (get_or _ "protocol_versions" config) as [| | | | | |supplied]; try done. rewrite Hreq.
    pose proof (protocols_sums (update defaults supplied) (protocols m) _ _ Hl) as Hs.
    rewrite <-(sums_verdict _ _ Hs). by destruct (foldl _ _ _) as [|[]].
Qed.
End verdict.

(** ** Status *)

(** C40: A status says runtime effective only for an enabled extension with an event in
    the evidence file that is bound to a plan and launch, names one of its entry points,
    and was written by a process of this host that is alive with the same start
    identity; it never says both compatible and incompatible, and compatible only after
    the selected provider's check said so. *)
Theorem effective_status_backed {F : FloatText} {U : UnicodeInt} {H : Host}
    (builtins : list (string * HostProvider)) (entries : list ProviderEntry) (include_external : bool)
    (file : option string) (bundle : InstalledBundle) (e : ExtensionConfig) (st : ExtensionStatus) :
  status_for builtins entries include_external (runtime_effective_evidence (manifest bundle) file) bundle e = Ok st →
  (RUNTIME_EFFECTIVE ∈ states st →
     ENABLED ∈ states st ∧ enabled e = true ∧
     ∃ events event, _events file = Ok events ∧ event ∈ events ∧ live_effect (manifest bundle) event ∧
       EffectiveAt (effective_of event) ∈ status_evidence st) ∧
  ¬ (COMPATIBLE ∈ states st ∧ INCOMPATIBLE ∈ states st) ∧
  (COMPATIBLE ∈ states st → ∃ p c, provider_for builtins entries (host_provider (host (manifest bundle))) include_external = Ok p ∧
     supports p (manifest bundle) = true ∧ check p (manifest bundle) (configuration e) = Ok c ∧ compatible c = Some true).
Proof.
  unfold status_for. destruct (checked _ _ _ _ _) as [[p c]|[]] eqn:Hc; [|intros [= <-]; cbn; set_solver|done].
  destruct (if enabled e then _ else _) as [running|x] eqn:Hr; [|done]. intros [= <-]. cbn [states status_evidence].
  split_and!.
  - intros Hin. destruct (enabled e) eqn:He.
    + destruct running as [r|]; [|exfalso; revert Hin; unfold when; repeat case_match; set_solver].
      split_and!; [set_solver|done|]. destruct (effective_evidence_live _ _ _ Hr) as (events & event & ? & ? & ? & ->).
      exists events, event. split_and!; [done..|set_solver].
    + exfalso. revert Hin. unfold when. repeat case_match; set_solver.
  - unfold when, is_yes, is_no. repeat case_match; set_solver.
  - intros Hin. unfold checked in Hc. apply result_bind_Ok in Hc as (p' & Hp & Hc).
    apply result_bind_Ok in Hc as ([] & Hs%raise_if_Ok%negb_false_iff & Hc). apply result_bind_Ok in Hc as (c' & Hck & [= -> ->]).
    exists p, c. split_and!; try done. revert Hin. unfold when, is_yes, is_no. repeat case_match; set_solver.
Qed.

(** ** An extension at work in a live process *)

Module Example.
#[local] Existing Instance JsonText.Examples.no_floats.
#[local] Existing Instance HostEvidence.Example.no_unicode.
#[local] Existing Instance ContractParse.release_pep440.

#[export] Instance a_host : Host := {|
  hostname := "node";
  proc_stat pid := if (pid =? 7)%Z then Some "7 (py) S 1 1 1 0 -1 4194304 1 0 0 0 1 1 0 0 20 0 1 0 9 1000 1" else None;
|}.

Definition entry_carrier : ImplementationCarrier :=
  mkCarrier "python_entry_point" [("group", JStr "vllm.general_plugins"); ("name", JStr "policy")].
Definition policy : BundleManifest :=
  mkManifest "org.policy" "0.3" ">=0" [] no_activation "0.3-experimental" "scheduler_policy"
    (mkHost "vllm" "vllm" ">=0.23" None) DEFAULT_RUNTIME "vllm" [mkProtocol "p" (Some ">=1.1")] [entry_carrier] [] []
    [mkResourceClaim "gpu:0" "node" "exclusive"].
Definition policy_bundle : InstalledBundle := mkBundle "org.policy" "policy" "0.3" "m.json" policy [].

Definition event (start_identity : string) : string :=
  dumps true (JObj [("schema", JStr _HOST_SCHEMA); ("binding_status", JStr "bound"); ("plan_id", JStr "p");
                    ("launch_id", JStr "l"); ("event", JStr "effective"); ("observation_kind", JStr "runtime_effective");
                    ("entry_point", JObj [("group", JStr "vllm.general_plugins"); ("name", JStr "policy")]);
                    ("process", JObj [("host", JStr "node"); ("pid", JInt 7); ("start_identity", JStr start_identity)])])
  +:+ line_feed.

(** A provider that reports the verdict of [assess_compatibility]. *)
Definition reporting : HostProvider := {|
  provider_name := "vllm"; supports m := bool_decide (host_provider (host m) = "vllm");
  provider_plan m config enabled :=
    Ok (mkPlan (bundle_id m) "vllm" [mkAction "configure_launch" (JStr "vllm") "vllm" false []] config [] (resource_claims m));
  render _ := Ok [];
  check m config :=
    let '(verdict, evidence) := assess_compatibility m config (Some "0.24") None [("p", JStr "1.2")] in
    Ok (mkCheck verdict true None None false evidence);
|}.
Definition status (start_identity : string) (config : list (string * json)) : result (core_exn + runtime_exn) ExtensionStatus :=
  status_for [("vllm", reporting)] [] false (runtime_effective_evidence policy (Some (event start_identity)))
    policy_bundle (mkExtension true config).

(** The event of a process that is gone does not count, whoever has its pid now. *)
Lemma reused_pid_unseen : match status "pid:7:start_ticks:8" [] with Ok st => states st | Raise _ => [] end =
  [INSTALLED; DISCOVERED; COMPATIBLE; CONFIGURED; ENABLED].
Proof. vm_compute. reflexivity. Qed.
Lemma old_protocol_incompatible :
  match status "pid:7:start_ticks:8" [("protocol_versions", JObj [("p", JStr "1.0")])] with
  | Ok st => states st | Raise _ => [] end = [INSTALLED; DISCOVERED; INCOMPATIBLE; CONFIGURED; ENABLED].
Proof. vm_compute. reflexivity. Qed.
Lemma exclusive_twice_refused :
  match plan_for [("vllm", reporting)] [] false policy_bundle (mkExtension true []) with
  | Ok p => (reject_conflicting_plans [p], reject_conflicting_plans [p; p]) | Raise x => (Raise x, Raise x) end =
  (Ok (), Raise CoreValueError).
Proof. vm_compute. reflexivity. Qed.

Definition effective_status : ExtensionStatus :=
  match status "pid:7:start_ticks:9" [] with Ok st => st | Raise _ => mkStatus "" "" [] [] end.

Lemma effective_status_backed_witness :
  ∃ events event, _events (Some (Example.event "pid:7:start_ticks:9")) = Ok events ∧ event ∈ events ∧
    live_effect policy event ∧ EffectiveAt (effective_of event) ∈ status_evidence effective_status.
Proof.
  refine (proj2 (proj2 (proj1 (effective_status_backed [("vllm", reporting)] [] false
    (Some (Example.event "pid:7:start_ticks:9")) policy_bundle (mkExtension true []) effective_status _) _))).
  - vm_compute. reflexivity.
  - apply (bool_decide_unpack _). vm_compute. exact I.
Defined.
End Example.
