(* ===== verification/VllmProvider.v ===== *)
(** * The provider of vLLM's in-process extension points

    [src/vllm_hust_ext/providers/vllm.py]: the launch configuration generated for an
    extension of vLLM, the native manifest handed to it, and the check of what is installed.
    The installed distributions and the host's registry are a class of what they answer. *)

From S2P Require Import Prelude PyStd JsonText JsonRoundTrip ContractParse HostEvidence Manifest Capabilities ExtensionConfig Discovery RuntimeEvidence ExtensionCore.

Local Open Scope string_scope.
Local Open Scope list_scope.

Definition _JSON_LAUNCH_OPTIONS : list (string * string) :=
  [("batch_admission_policy_config", "--batch-admission-policy-config"); ("speculative_config", "--speculative-config")].
Definition _BOOLEAN_LAUNCH_OPTIONS : list (string * string) :=
  [("scheduler_reserve_output_budget", "--scheduler-reserve-output-budget")].
Definition _RUNTIME_QUALIFICATION_KEY : string := "_manager_runtime_qualification".
Definition VLLM_PLUGIN_ENTRY_POINT_GROUPS : list string := ["vllm.general_plugins"; "vllm.platform_plugins"].

(** [dict.fromkeys]: the first occurrence of each. *)
Fixpoint fromkeys (seen l : list string) : list string :=
  match l with
  | [] => []
  | x :: l => if among seen x then fromkeys seen l else x :: fromkeys (x :: seen) l
  end.

Definition declared_vllm_plugin_names (m : BundleManifest) : list string :=
  fromkeys [] (ae_name <$> filter (λ e, ae_group e ∈ VLLM_PLUGIN_ENTRY_POINT_GROUPS) (ac_entry_points (activation m))).

(** [s.partition(":")[2]], and whether there was a colon *)
Fixpoint after_colon (s : string) : option string :=
  match s with
  | EmptyString => None
  | String a s => if (code a =? 58)%N then Some s else after_colon s
  end.
Definition _qualname_from_implementation_ref (ref : string) : result core_exn string :=
  match after_colon ref with
  | Some name =>
      if bool_decide (before_colon ref = "") || bool_decide (name = "") then Raise CoreValueError
      else Ok (before_colon ref +:+ "." +:+ name)
  | None => Raise CoreValueError
  end.

Definition refuse {A} : result core_exn A := Raise CoreValueError.
Definition refuse_when (b : bool) : result core_exn () := raise_if b CoreValueError.

(** [activation_blocker] in a provider: its [TypeError] is no [ValueError]. *)
Definition blocker_of (m : BundleManifest) : result core_exn (option string) :=
  match Manifest.activation_blocker m with
  | Ok b => Ok b
  | Raise ManifestError | Raise ValueError => Raise CoreValueError
  | Raise TypeError => Raise ProviderRaises
  end.

(** ** The native manifest *)

Definition strings_json (l : list string) : json := JArr (JStr <$> l).
Definition component_json (c : BundleComponent) : json :=
  JObj [("component_id", JStr (component_id c)); ("contracts", strings_json (contracts c));
        ("execution_planes", strings_json (execution_planes c)); ("isolation", JStr (isolation c));
        ("implementation_ref", JStr (implementation_ref c)); ("permissions", strings_json (permissions c))].
Definition native_manifest (m : BundleManifest) : option json :=
  match api_range (host m) with
  | Some range =>
      Some (JObj [("schema_version", JStr "1.0"); ("bundle_id", JStr (bundle_id m));
                  ("bundle_version", JStr (bundle_version m)); ("host_api_range", JStr range);
                  ("components", JArr (component_json <$> components m))])
  | None => None
  end.

(** ** The plan *)

(** What the launch options give: options with a JSON value, and flags. *)
Definition launch_option (acc : list (string * json) * list string) (item : string * json)
    : result core_exn (list (string * json) * list string) :=
  let '(options, flags) := acc in
  let '(name, value) := item in
  match od_get name _BOOLEAN_LAUNCH_OPTIONS with
  | Some flag =>
      match value with
      | JBool b => Ok (options, if b then flags ++ [flag] else flags)
      | _ => refuse
      end
  | None =>
      match value, od_get name _JSON_LAUNCH_OPTIONS with
      | JObj kv, Some option => Ok (od_set option (JObj kv) options, flags)
      | _, _ => refuse
      end
  end.
Definition launch_options (config : list (string * json)) : result core_exn (list (string * json) * list string) :=
  match get_or (JObj []) "launch_options" config with
  | JObj items =>
      _ ← refuse_when (negb (only_fields (_JSON_LAUNCH_OPTIONS ++ _BOOLEAN_LAUNCH_OPTIONS).*1 items));
      foldR launch_option ([], []) items
  | _ => refuse
  end.

Definition declared_environment (m : BundleManifest) (config : list (string * json))
    : result core_exn (list (string * json)) :=
  let declared := (λ p, (p.1, JStr p.2)) <$> ac_environment (activation m) in
  match get_or (JObj []) "environment" config with
  | JObj overrides =>
      _ ← refuse_when (negb (only_fields declared.*1 overrides));
      _ ← refuse_when (negb (forallb (λ p, match p.2 with JStr _ => true | _ => false end) overrides));
      Ok (update declared overrides)
  | _ => refuse
  end.

(** The option that names the one component of a contract, if there is one. *)
Definition policy_option (contract option : string) (m : BundleManifest) : result core_exn (list (string * json)) :=
  match filter (λ c, contract ∈ contracts c) (components m) with
  | [] => Ok []
  | [c] => name ← _qualname_from_implementation_ref (implementation_ref c); Ok [(option, JStr name)]
  | _ => refuse
  end.

Definition present {A} (k : string) (v : option A) (f : A → json) : list (string * json) :=
  match v with Some v => [(k, f v)] | None => [] end.
Definition nonempty {A} (l : list A) : option (list A) := match l with [] => None | _ => Some l end.

Definition generated (m : BundleManifest) (config : list (string * json)) : result core_exn (list (string * json)) :=
  '(json_options, vllm_flags) ← launch_options config;
  environment ← declared_environment m config;
  preemption ← policy_option "vllm.preemption-policy.v1" "--preemption-policy" m;
  admission ← policy_option "vllm.batch-admission-policy.v1" "--batch-admission-policy" m;
  Ok ([("environment", JObj environment);
       ("additional_config", JObj (filter (λ p, p.1 ≠ _RUNTIME_QUALIFICATION_KEY) (ac_additional_config (activation m))));
       ("user_config", JObj config); ("vllm_json_options", JObj json_options)] ++
      present "vllm_plugins" (nonempty (declared_vllm_plugin_names m)) strings_json ++
      present "vllm_flags" (nonempty vllm_flags) strings_json ++
      present "vllm_options" (nonempty (preemption ++ admission)) JObj ++
      present "native_extension_manifest" (native_manifest m) id).

Definition vllm_plan (m : BundleManifest) (config : list (string * json)) (enabled : bool)
    : result core_exn ProviderPlan :=
  blocker ← blocker_of m;
  match blocker with
  | Some blocker =>
      Ok (mkPlan (bundle_id m) "vllm"
            [mkAction "inspect_only" (JStr (bundle_id m)) (lifecycle_owner m) false [("enabled", JBool false)]] [] [blocker] [])
  | None =>
      config' ← generated m config;
      Ok (mkPlan (bundle_id m) "vllm"
            [mkAction "configure_launch" (JStr "vllm") (lifecycle_owner m) false [("enabled", JBool enabled)]] config'
            (if bool_decide (kind m = "scheduler_policy") && negb (bool_decide (protocols m = []))
             then ["in-process scheduler activation requires explicit host and " +:+
                   "protocol compatibility evidence; run refuses unverified policies"] else []) [])
  end.

(** [asdict(plan)] *)
Definition action_json (a : PlanAction) : json :=
  JObj [("operation", JStr (operation a)); ("target", action_target a);
        ("lifecycle_owner", JStr (action_owner a)); ("mutating", JBool (mutating a)); ("details", JObj (details a))].
Definition claim_json (c : ResourceClaim) : json :=
  JObj [("resource", JStr (claim_resource c)); ("scope", JStr (claim_scope c)); ("mode", JStr (claim_mode c))].
Definition plan_json (p : ProviderPlan) : json :=
  JObj [("extension_id", JStr (plan_extension p)); ("provider", JStr (plan_provider p));
        ("actions", JArr (action_json <$> actions p)); ("generated_config", JObj (generated_config p));
        ("warnings", strings_json (warnings p)); ("resource_claims", JArr (claim_json <$> plan_claims p))].

Definition json_artifact (name : string) (v : json) : RenderArtifact :=
  mkArtifact name "application/json" (dumps_indented 0 v).
Definition vllm_render (p : ProviderPlan) : result core_exn (list RenderArtifact) :=
  Ok (match json_get "native_extension_manifest" (generated_config p) with
      | JNull => []
      | native => [json_artifact "vllm-extension-manifest.json" native]
      end ++ [json_artifact "vllm-launch.json" (plan_json p)]).

(** ** The check *)

(** The version of an installed distribution, and what the host's registry gives. *)
Class Installed : Type := {
  installed_version : string → option string;
  registry : Registry;
  probe : Probe;
}.

Section vllm.
Context {PV : Pep440} {VM : VersionMajor} {I : Installed}.

(** Keys of the required profile that the qualification does not have that value of. *)
Definition mismatches (profile qualification : list (string * json)) : list (string * (json * json)) :=
  omap (λ p, if json_eqb (json_get p.1 qualification) p.2 then None
             else Some (p.1, (p.2, json_get p.1 qualification))) profile.

(** The verdict on the runtime qualification; [None] where the profile is invalid. *)
Definition qualified (profile : json) (config : list (string * json)) (evidence : list evidence_line)
    : option (option bool * list evidence_line) :=
  match profile with
  | JObj profile =>
      Some match json_get "runtime_qualification" config with
           | JObj qualification =>
               if json_eqb (json_get "status" qualification) (JStr "passed") then
                 match mismatches profile qualification with
                 | [] => (Some true, evidence ++ [Remark "required runtime qualification profile passed"])
                 | l => (Some false, evidence ++ [Mismatches l])
                 end
               else (None, evidence ++ [Remark ("matching source contracts are insufficient; required runtime " +:+
                                                 "qualification is unavailable")])
           | _ => (None, evidence ++ [Remark ("matching source contracts are insufficient; required runtime " +:+
                                               "qualification is unavailable")])
           end
  | _ => None
  end.

Definition vllm_check (m : BundleManifest) (config : list (string * json)) : result core_exn ProviderCheck :=
  let capabilities := detect_vllm_capabilities registry probe in
  let '(compatible, evidence) :=
    assess_compatibility m config (installed_version (host_name (host m)))
      (Some (default "1.0" (host_api_version capabilities)))
      ((λ p, (p.1, JStr p.2)) <$> protocol_versions capabilities) in
  let evidence := (Capability <$> capability_evidence capabilities) ++ evidence in
  let profile := json_get _RUNTIME_QUALIFICATION_KEY (ac_additional_config (activation m)) in
  let assessed := match compatible, profile with
                  | Some true, JNull => Some (Some true, evidence)
                  | Some true, profile => qualified profile config evidence
                  | _, _ => Some (compatible, evidence)
                  end in
  match assessed with
  | None => Ok (mkCheck (Some false) false None None true
                  (evidence ++ [Remark "manifest runtime qualification profile is invalid"]))
  | Some (compatible, evidence) =>
      blocker ← blocker_of m;
      Ok (match blocker with
          | Some blocker => mkCheck compatible false None None true (evidence ++ [Remark blocker])
          | None => mkCheck compatible (negb (is_no compatible)) None None (bool_decide (compatible = None))
                      (evidence ++ [Remark "vLLM launch configuration can be rendered"])
          end)
  end.

Definition VllmProvider : HostProvider := {|
  provider_name := "vllm";
  supports m := bool_decide (host_provider (host m) = "vllm");
  provider_plan := vllm_plan;
  render := vllm_render;
  check := vllm_check;
|}.
End vllm.
