(* ===== verification/StateAxisProvider.v ===== *)
(** * The provider of StateAxis research mods

    [src/vllm_hust_ext/providers/stateaxis.py]: the binding of a mod to its manifest, and the
    plan and check that keep an unqualified mod to explicit experiments.  A research manifest
    is the file its path names. *)

From S2P Require Import Prelude PyStd JsonText ContractParse HostEvidence Manifest Capabilities ExtensionConfig Discovery RuntimeEvidence ExtensionCore VllmProvider.

Local Open Scope string_scope.
Local Open Scope list_scope.

(** What a path names: [None] for a symbolic link or no regular file, and of a file the bytes
    that reading it gives, [None] for an [OSError]. *)
Class ResearchFiles : Type := research_file : string → option (option string).

Record ModBinding : Type := mkBinding {
  mod_fields : list (string * json);
  mod_digest : string;
  performance_qualified : bool;
}.

Definition _mod_binding (m : BundleManifest) : result core_exn ModBinding :=
  match json_get "stateaxis_mod" (ac_additional_config (activation m)) with
  | JObj value =>
      _ ← refuse_when (negb (has_exactly ["mod_id"; "version"; "manifest_sha256"; "performance_qualified"] value));
      match json_get "manifest_sha256" value, json_get "performance_qualified" value with
      | JStr digest, JBool qualified =>
          _ ← refuse_when (negb (String.length digest =? 64)%nat || negb (string_forallb is_hex digest));
          Ok (mkBinding value digest qualified)
      | _, _ => refuse
      end
  | _ => refuse
  end.

Definition experiment_mode (config : list (string * json)) : bool := is_true (json_get "experiment_mode" config).

(** [qualification.get("status") == "passed"] of an object *)
Definition passed_record (v : json) : option (list (string * json)) :=
  match v with
  | JObj kv => if json_eqb (json_get "status" kv) (JStr "passed") then Some kv else None
  | _ => None
  end.

Definition reasons (blocker : option string) (qualified : bool) (reason : string) : list string :=
  match blocker with Some b => [b] | None => [] end ++ (if qualified then [] else [reason]).

Definition stateaxis_plan (m : BundleManifest) (config : list (string * json)) (enabled : bool)
    : result core_exn ProviderPlan :=
  binding ← _mod_binding m;
  blocker ← blocker_of m;
  let qualified := performance_qualified binding in
  let stateaxis_mod := JObj (mod_fields binding) in
  if bool_decide (is_Some blocker) || negb qualified && negb (experiment_mode config) then
    Ok (mkPlan (bundle_id m) "stateaxis"
          [mkAction "inspect_only" (json_get "mod_id" (mod_fields binding)) (lifecycle_owner m) false
             [("enabled", JBool false); ("manifest_sha256", JStr (mod_digest binding))]]
          [("stateaxis_mod", stateaxis_mod); ("user_config", JObj config)]
          (reasons blocker qualified "StateAxis mod has no performance qualification") [])
  else if experiment_mode config && negb qualified then
    Ok (mkPlan (bundle_id m) "stateaxis"
          [mkAction "configure_experiment_launch" (JStr "stateaxis") (lifecycle_owner m) false
             [("enabled", JBool enabled); ("performance_qualified", JBool false)]]
          [("stateaxis_additional_config", JObj [("experiment_mode", JBool true)]);
           ("stateaxis_mod", stateaxis_mod); ("user_config", JObj config)]
          ["experimental launch is not performance qualification; " +:+
           "preserve results with an experimental evidence label"] [])
  else
    match passed_record (json_get "runtime_qualification" config) with
    | Some qualification =>
        Ok (mkPlan (bundle_id m) "stateaxis"
              [mkAction "configure_launch" (JStr "stateaxis") (lifecycle_owner m) false [("enabled", JBool enabled)]]
              [("stateaxis_mod", stateaxis_mod); ("runtime_qualification", JObj qualification);
               ("user_config", JObj config)] [] [])
    | None => refuse
    end.

Definition stateaxis_render (p : ProviderPlan) : result core_exn (list RenderArtifact) :=
  Ok [json_artifact "stateaxis-mod-plan.json" (plan_json p)].

Section stateaxis.
Context {PV : Pep440} {RF : ResearchFiles}.

(** A path that is no string, or a file that cannot be read, raises no [ValueError]. *)
Definition _verify_manifest_file (config : list (string * json)) (expected : string)
    : result core_exn (option bool * evidence_line) :=
  match json_get "research_manifest_path" config with
  | JNull => Ok (None, Remark "research manifest path is unavailable; digest binding is unverified")
  | JStr path =>
      match research_file path with
      | None => Ok (Some false, Remark "research manifest must be a regular non-symlink file")
      | Some None => Raise ProviderRaises
      | Some (Some bytes) =>
          let actual := sha256_hexdigest bytes in
          Ok (if bool_decide (actual = expected) then (Some true, DigestVerified path)
              else (Some false, Remark ("research manifest digest mismatch: expected " +:+ expected +:+ ", got " +:+ actual)))
      end
  | _ => Raise ProviderRaises
  end.

Definition stateaxis_check (m : BundleManifest) (config : list (string * json)) : result core_exn ProviderCheck :=
  match _mod_binding m with
  | Raise CoreValueError => Ok (mkCheck (Some false) false None None true [ProviderRefused])
  | Raise ProviderRaises => Raise ProviderRaises
  | Ok binding =>
      let '(compatible, evidence) := assess_compatibility m config None (Some "1.0") [] in
      '(verified, digest_evidence) ← _verify_manifest_file config (mod_digest binding);
      let evidence := evidence ++ [digest_evidence] in
      let compatible := if is_no verified then Some false else compatible in
      blocker ← blocker_of m;
      let qualified := performance_qualified binding in
      Ok (if bool_decide (is_Some blocker) || negb qualified && negb (experiment_mode config) then
            mkCheck compatible false None None true
              (evidence ++ (Remark <$> reasons blocker qualified "performance qualification is absent"))
          else if experiment_mode config && negb qualified then
            mkCheck compatible (is_yes verified) None None true
              (evidence ++ [Remark ("experimental activation is configured without performance " +:+ "qualification")])
          else
            let configured := is_yes verified &&
              bool_decide (is_Some (passed_record (json_get "runtime_qualification" config))) in
            mkCheck compatible configured None None (negb configured || bool_decide (compatible = None))
              (evidence ++ if configured then []
                           else [Remark "passed runtime qualification bound to the manifest is unavailable"]))
  end.

Definition StateAxisProvider : HostProvider := {|
  provider_name := "stateaxis";
  supports m := bool_decide (host_provider (host m) = "stateaxis") && bool_decide (host_name (host m) = "stateaxis");
  provider_plan := stateaxis_plan;
  render := stateaxis_render;
  check := stateaxis_check;
|}.
End stateaxis.
