(* ===== verification/MooncakeProvider.v ===== *)
(** * The provider of Mooncake services

    [src/vllm_hust_ext/providers/mooncake.py]: the connector configuration, the checks of the
    runtime and of the connector's operations, and the health of the external service.  The
    installed distributions and the answer of the health endpoint are classes. *)

From S2P Require Import Prelude PyStd JsonText ContractParse HostEvidence Manifest Capabilities ExtensionConfig Discovery RuntimeEvidence ExtensionCore VllmProvider.

Local Open Scope string_scope.
Local Open Scope list_scope.

Definition _CONNECTORS : list string := ["MooncakeConnector"; "MooncakeStoreConnector"; "AscendStoreConnector"].
Definition _DISTRIBUTIONS : list string :=
  ["mooncake-transfer-engine"; "mooncake-transfer-engine-cuda13"; "mooncake-transfer-engine-non-cuda";
   "mooncake-transfer-engine-npu"; "mooncake-transfer-engine-musa"; "mooncake-transfer-engine-efa";
   "mooncake-transfer-engine-efa-non-cuda"].
Definition _REQUIRED_OPERATION_EVIDENCE : list string :=
  ["lookup_exists_ok"; "save_put_ok"; "load_get_ok"; "failed_keys"].

(** What a [GET] of [str(url)] gives: a response, an [HTTPError], an [OSError], a
    [ValueError] (no URL), another exception. *)
Inductive Reply : Type := Responded (status : Z) | HttpError (code : Z) | Unreachable | BadUrl | OtherFailure.
Class HealthEndpoint : Type := health_endpoint : json → Reply.

(** [value in strings], a set *)
Definition in_set (value : json) (strings : list string) : result core_exn (option string) :=
  match value with
  | JArr _ | JObj _ => Raise ProviderRaises
  | JStr s => Ok (if among strings s then Some s else None)
  | _ => Ok None
  end.
Definition member_of (value : json) (strings : list string) : result core_exn string :=
  o ← in_set value strings;
  match o with Some s => Ok s | None => refuse end.

Definition is_str (value : json) (s : string) : bool := json_eqb value (JStr s).

Definition ascend_backed (config extra : list (string * json)) : bool :=
  is_str (json_get "device_backend" config) "ascend" && is_str (json_get "transport_protocol" config) "ascend" &&
  is_str (json_get "backend" extra) "mooncake".

Definition _connector_config (config : list (string * json)) : result core_exn (list (string * json)) :=
  connector ← member_of (get_or (JStr "MooncakeConnector") "connector" config) _CONNECTORS;
  role ← member_of (get_or (JStr "kv_both") "kv_role" config) ["kv_producer"; "kv_consumer"; "kv_both"];
  policy ← match assoc "kv_load_failure_policy" config with
           | Some v => s ← member_of v ["fail"; "recompute"]; Ok [("kv_load_failure_policy", JStr s)]
           | None => Ok []
           end;
  match get_or (JObj []) "kv_connector_extra_config" config with
  | JObj extra =>
      _ ← refuse_when (bool_decide (connector = "AscendStoreConnector") && negb (ascend_backed config extra));
      Ok ([("kv_connector", JStr connector); ("kv_role", JStr role)] ++ policy ++
          present "kv_connector_extra_config" (nonempty extra) JObj)
  | _ => refuse
  end.

(** ** Numbers *)

(** [float(z)] overflows. *)
Definition overflows (z : Z) : bool := (2 ^ 1024 - 2 ^ 970 <=? Z.abs z)%Z.
(** The sign of a number that is no boolean; a NaN has none. *)
Definition sign_of (v : json) : option (option Z) :=
  match v with
  | JInt z => Some (Some (Z.sgn z))
  | JFloat r => Some (if bool_decide (r = "NaN") then None
                      else if int_float_eqb 0 r then Some 0%Z
                      else if starts_with "-" r then Some (-1)%Z else Some 1%Z)
  | _ => None
  end.
Definition too_large (v : json) : bool := match v with JInt z => overflows z | _ => false end.

(** The signs of the four counts, in order, or the first that is no count. *)
Fixpoint counts (raw : list (string * json)) (names : list string) : result core_exn (string + list (option Z)) :=
  match names with
  | [] => Ok (inr [])
  | name :: names =>
      match sign_of (json_get name raw) with
      | None => Ok (inl name)
      | Some sign =>
          if bool_decide (sign = Some (-1)%Z) then Ok (inl name)
          else if too_large (json_get name raw) then Raise ProviderRaises
          else rest ← counts raw names;
               Ok (match rest with inl name => inl name | inr signs => inr (sign :: signs) end)
      end
  end.

Definition working (signs : list (option Z)) : bool :=
  match signs with
  | [lookup; save; load; failed] =>
      bool_decide (lookup = Some 1%Z) && bool_decide (save = Some 1%Z) && bool_decide (load = Some 1%Z) &&
      bool_decide (failed = Some 0%Z)
  | _ => false
  end.

(** Healthy, configured, evidence; the numbers of the evidence line are left out. *)
Definition _operation_evidence (config : list (string * json))
    : result core_exn (option bool * bool * list evidence_line) :=
  match json_get "connector_operation_evidence" config with
  | JNull => Ok (None, true, [])
  | JObj raw =>
      match filter (λ name, name ∉ raw.*1) _REQUIRED_OPERATION_EVIDENCE with
      | [] =>
          c ← counts raw _REQUIRED_OPERATION_EVIDENCE;
          Ok (match c with
              | inl name => (Some false, false, [Remark ("connector_operation_evidence." +:+ name +:+ " must be non-negative")])
              | inr signs => (Some (working signs), true, [Remark "Mooncake connector operations"])
              end)
      | missing => Ok (Some false, false, [Remark ("connector_operation_evidence is missing: " +:+ join ", " missing)])
      end
  | _ => Ok (Some false, false, [Remark "connector_operation_evidence must be an object"])
  end.

(** ** The provider *)

Definition mooncake_plan (m : BundleManifest) (config : list (string * json)) (enabled : bool)
    : result core_exn ProviderPlan :=
  connector ← _connector_config config;
  Ok (mkPlan (bundle_id m) "mooncake"
        (mkAction "render_connector_config" (JStr "vllm") "vllm" false [("enabled", JBool enabled)] ::
         ((λ s, mkAction "check_service" (JStr (service_id s)) (lifecycle_owner m) false
                  [("protocol", JStr (sv_protocol s))]) <$> requires_services m))
        [("kv_transfer_config", JObj connector)]
        ["Mooncake service lifecycle remains owned by its external operator; " +:+
         "the manager will not start, stop, upgrade, or delete it.";
         "For Ascend NPU caches, render the external Mooncake configuration " +:+
         "with transport_protocol=ascend. MooncakeStoreConnector requires " +:+
         "load_async enabled on the validated execution path."] []).

Definition mooncake_render (p : ProviderPlan) : result core_exn (list RenderArtifact) :=
  Ok [json_artifact "mooncake-vllm-connector.json" (JObj (generated_config p))].

Section mooncake.
Context {PV : Pep440} {I : Installed} {HE : HealthEndpoint}.

Definition _installed_distributions : list (string * string) :=
  omap (M := list) (λ d, v ← installed_version d; Some (d, v)) _DISTRIBUTIONS.

(** Compatible, configured, evidence *)
Definition runtime_transport (config : list (string * json)) (installed_distribution : option string)
    (evidence : list evidence_line) : bool * bool * list evidence_line :=
  if is_str (json_get "device_backend" config) "ascend" ||
     bool_decide (installed_distribution = Some "mooncake-transfer-engine-npu")
  then
    if is_str (json_get "transport_protocol" config) "ascend"
    then (true, true, evidence ++ [Remark "Ascend NPU runtime uses Mooncake ascend transport"])
    else (false, false, evidence ++
           [Remark ("Ascend NPU KV cache requires Mooncake transport_protocol=ascend; " +:+
                    "generic tcp transport cannot dereference NPU virtual addresses")])
  else (true, true, evidence).
Definition _validate_runtime_configuration (config : list (string * json)) (installed_distribution : option string)
    : bool * bool * list evidence_line :=
  let connector := get_or (JStr "MooncakeConnector") "connector" config in
  let load_async := match get_or (JObj []) "kv_connector_extra_config" config with
                    | JObj extra => json_get "load_async" extra
                    | _ => JNull
                    end in
  let async_off := is_str connector "MooncakeStoreConnector" &&
                   match load_async with JBool b => negb b | _ => false end in
  if is_str connector "AscendStoreConnector" then
    match installed_version "vllm-ascend" with
    | None => (false, false, [Remark "AscendStoreConnector requires vllm-ascend"])
    | Some v => runtime_transport config installed_distribution [Remark ("detected vllm-ascend " +:+ v)]
    end
  else if async_off then
    (true, false, [Remark ("MooncakeStoreConnector requires load_async=true on the validated " +:+
                           "vLLM 0.23 execution path")])
  else runtime_transport config installed_distribution [].

Definition returned (status : Z) : evidence_line := Remark ("Mooncake health endpoint returned " +:+ pretty status).

(** The last part of the check, of a service that is configured. *)
Definition service_check (m : BundleManifest) (config : list (string * json)) (compatible operations : option bool)
    (evidence : list evidence_line) : result core_exn ProviderCheck :=
  let url := json_get "health_url" config in
  if negb (truthy url) then
    let required := negb (bool_decide (requires_services m = [])) in
    Ok (mkCheck compatible (negb required) None None required
          (evidence ++ [Remark "health_url is required to verify the external service"]))
  else match health_endpoint url with
       | Responded status =>
           let ok := (200 <=? status)%Z && (status <? 300)%Z in
           Ok (mkCheck compatible true (Some true) (Some (ok && negb (is_no operations)))
                 (negb ok || is_no operations) (evidence ++ [returned status]))
       | HttpError code => Ok (mkCheck compatible true (Some true) (Some false) true (evidence ++ [returned code]))
       | Unreachable =>
           Ok (mkCheck compatible true (Some false) (Some false) true
                 (evidence ++ [Remark "Mooncake service is unreachable"]))
       | BadUrl => refuse
       | OtherFailure => Raise ProviderRaises
       end.

Definition mooncake_check (m : BundleManifest) (config : list (string * json)) : result core_exn ProviderCheck :=
  let installed := _installed_distributions in
  match installed with
  | _ :: _ :: _ =>
      Ok (mkCheck (Some false) false None None true
            [Remark ("multiple mutually exclusive Mooncake runtime variants are installed: " +:+ join ", " installed.*1)])
  | _ =>
      let '(compatible, evidence) := assess_compatibility m config (head installed.*2) None [] in
      let evidence := match installed with
                      | (name, v) :: _ => [Remark ("detected " +:+ name +:+ " " +:+ v)]
                      | [] => []
                      end ++ evidence in
      if is_no compatible then Ok (mkCheck (Some false) false None None false evidence)
      else match _connector_config config with
           | Raise CoreValueError => Ok (mkCheck compatible false None None true (evidence ++ [ProviderRefused]))
           | Raise ProviderRaises => Raise ProviderRaises
           | Ok _ =>
               let '(runtime_ok, runtime_configured, runtime_evidence) :=
                 _validate_runtime_configuration config (head installed.*1) in
               let evidence := evidence ++ runtime_evidence in
               if negb runtime_ok || negb runtime_configured then
                 Ok (mkCheck (if runtime_ok then compatible else Some false) runtime_configured None None true evidence)
               else
                 '(operations, operations_configured, operations_evidence) ← _operation_evidence config;
                 let evidence := evidence ++ operations_evidence in
                 if (operations_configured : bool) then service_check m config compatible operations evidence
                 else Ok (mkCheck compatible false None None true evidence)
           end
  end.

Definition MooncakeProvider : HostProvider := {|
  provider_name := "mooncake";
  supports m := bool_decide (host_provider (host m) = "mooncake");
  provider_plan := mooncake_plan;
  render := mooncake_render;
  check := mooncake_check;
|}.
End mooncake.
