(* ===== verification/ProductionStackProvider.v ===== *)
(** * The provider of vLLM Production Stack

    [src/vllm_hust_ext/providers/production_stack.py]: the render-only plan of a Helm release
    and the check of the evidence an operator supplies.  [str] of a list or an object and
    [urlparse] are classes. *)

From S2P Require Import Prelude PyStd JsonText ContractParse HostEvidence Manifest Capabilities ExtensionConfig Discovery RuntimeEvidence ExtensionCore VllmProvider.

Local Open Scope string_scope.
Local Open Scope list_scope.

(** [str(value)] of a list or an object *)
Class ContainerText : Type := container_text : json → string.
(** Whether [urlparse(str(value))] has the scheme http or https and a network location;
    [None] where it raises. *)
Class Endpoints : Type := http_endpoint : json → option bool.

Definition required_component_evidence : list string :=
  ["controller_reconciliation"; "router_traffic"; "autoscaler_decision"].
Definition required_router_data_plane_evidence : list string :=
  ["backend_kind"; "model"; "failure_http_status"; "recovered_http_status"; "response_marker"; "router_version";
   "architecture"; "release_image_supported"].

Definition py_str {CT : ContainerText} (v : json) : string :=
  match v with
  | JNull => "None"
  | JBool b => if b then "True" else "False"
  | JInt z => pretty z
  | JFloat r => if bool_decide (r = "NaN") then "nan" else if bool_decide (r = "Infinity") then "inf"
                else if bool_decide (r = "-Infinity") then "-inf" else r
  | JStr s => s
  | JArr _ | JObj _ => container_text v
  end.

(** ** Plan and rendering *)

Definition production_plan {CT : ContainerText} (m : BundleManifest) (config : list (string * json)) (enabled : bool)
    : result core_exn ProviderPlan :=
  match get_or (JObj []) "values" config with
  | JObj values =>
      let chart := py_str (get_or (JStr "vllm/vllm-stack") "chart" config) in
      let release := py_str (get_or (JStr "vllm") "release" config) in
      let namespace := py_str (get_or (JStr "default") "namespace" config) in
      let action operation target := mkAction operation (JStr target) "kubernetes" false [] in
      Ok (mkPlan (bundle_id m) "production-stack"
            [action "helm_template" chart; action "server_dry_run" namespace; action "check_rollout" release;
             action "check_ownership_conflicts" release]
            [("chart", JStr chart); ("release", JStr release); ("namespace", JStr namespace); ("values", JObj values);
             ("enabled", JBool enabled); ("replica_ownership", JStr "single-writer-required")]
            ["Rendering is non-mutating. Applying Helm releases, CRDs, " +:+
             "controllers, routers, autoscalers, or OCI images remains an " +:+
             "explicit Kubernetes operator action."] [])
  | _ => refuse
  end.

(** The commands an operator may run; those that mutate are [null]. *)
Definition operator_plan (release chart namespace : json) : json :=
  let argv words mutating := JObj [("argv", JArr words); ("mutating", JBool mutating)] in
  JObj [("render", argv [JStr "helm"; JStr "template"; release; chart; JStr "--namespace"; namespace; JStr "-f";
                         JStr "values.json"] false);
        ("validate", argv [JStr "kubectl"; JStr "--namespace"; namespace; JStr "apply"; JStr "--dry-run=server";
                           JStr "-f"; JStr "rendered.yaml"] false);
        ("apply", JNull);
        ("operator_owned_mutations",
         JObj [("install", JNull); ("upgrade", JNull); ("rollback", JNull); ("uninstall", JNull)]);
        ("verification",
         JObj [("helm_history_argv", JArr [JStr "helm"; JStr "history"; release; JStr "--namespace"; namespace]);
               ("rollout_status_argv", JArr [JStr "kubectl"; JStr "--namespace"; namespace; JStr "rollout";
                                             JStr "status"; JStr "<operator-selected-workload>"]);
               ("required_component_evidence", strings_json required_component_evidence);
               ("required_router_data_plane_evidence", strings_json required_router_data_plane_evidence);
               ("replica_ownership_rule",
                JStr ("A VLLMRouter-owned Deployment and an HPA must not both " +:+
                      "write spec.replicas unless the operator explicitly " +:+ "delegates replica ownership."))])].

(** A plan without one of the keys is a [KeyError]. *)
Definition production_render (p : ProviderPlan) : result core_exn (list RenderArtifact) :=
  let generated := generated_config p in
  match assoc "values" generated, assoc "release" generated, assoc "chart" generated, assoc "namespace" generated with
  | Some values, Some release, Some chart, Some namespace =>
      Ok [json_artifact "values.json" values; json_artifact "operator-plan.json" (operator_plan release chart namespace)]
  | _, _, _, _ => Raise ProviderRaises
  end.

(** ** The check *)

Definition filled_string (v : json) : bool := match v with JStr s => negb (is_blank s) | _ => false end.
Definition is_null (v : json) : bool := match v with JNull => true | _ => false end.
Definition is_bool (v : json) : bool := match v with JBool _ => true | _ => false end.
Definition is_false (v : json) : bool := match v with JBool b => negb b | _ => false end.
Definition is_object (v : json) : bool := match v with JObj _ => true | _ => false end.
Definition object_of (v : json) : list (string * json) := match v with JObj kv => kv | _ => [] end.
Definition bool_of (v : json) : option bool := match v with JBool b => Some b | _ => None end.
Definition status_between (low high : Z) (v : json) : bool :=
  match v with JInt z => (low <=? z)%Z && (z <? high)%Z | _ => false end.

Definition underscores_to_spaces (s : string) : string :=
  string_of_bytes ((λ b, if (b =? 95)%N then 32%N else b) <$> bytes_of_string s).

(** What the check reads of the configuration. *)
Record Observed : Type := mkObserved {
  ob_values : json; ob_reachable : json; ob_healthy : json; ob_cluster : json; ob_rollout : json;
  ob_components : json; ob_router : json; ob_conflicts : json; ob_endpoint : json;
}.
Definition observed (config : list (string * json)) : Observed :=
  mkObserved (json_get "values" config) (json_get "cluster_reachable" config) (json_get "rollout_healthy" config)
    (json_get "cluster_evidence" config) (json_get "rollout_evidence" config) (json_get "component_evidence" config)
    (json_get "router_data_plane_evidence" config) (get_or (JArr []) "ownership_conflicts" config)
    (json_get "router_backend_endpoint" config).

Section check.
Context (compatible : option bool) (evidence : list evidence_line).

(** [return ProviderCheck(...)] before the end is [Raise]. *)
Definition stop_if (b : bool) (text : string) : result ProviderCheck () :=
  raise_if b (mkCheck compatible false None None true (evidence ++ [Remark text])).
(** ... without [degraded=True] *)
Definition stop_plain_if (b : bool) (text : string) : result ProviderCheck () :=
  raise_if b (mkCheck compatible false None None false (evidence ++ [Remark text])).

Definition check_types (o : Observed) : result ProviderCheck () :=
  _ ← stop_plain_if (negb (is_null (ob_reachable o)) && negb (is_bool (ob_reachable o)))
        "cluster_reachable must be boolean";
  _ ← stop_plain_if (negb (is_null (ob_healthy o)) && negb (is_bool (ob_healthy o))) "rollout_healthy must be boolean";
  _ ← stop_if (negb (is_null (ob_cluster o)) && negb (filled_string (ob_cluster o)))
        "cluster_evidence must be a non-empty string";
  _ ← stop_if (negb (is_null (ob_rollout o)) && negb (filled_string (ob_rollout o)))
        "rollout_evidence must be a non-empty string";
  _ ← stop_if (negb (is_null (ob_components o)) && negb (is_object (ob_components o)))
        "component_evidence must be an object";
  let invalid := (filter (λ p, filled_string p.2 = false) (object_of (ob_components o))).*1 in
  _ ← stop_if (negb (bool_decide (invalid = [])))
        ("component_evidence values must be non-empty strings: " +:+ join ", " invalid);
  stop_if (negb (is_null (ob_router o)) && negb (is_object (ob_router o))) "router_data_plane_evidence must be an object".

Definition check_router (router : list (string * json)) : result ProviderCheck () :=
  let missing := filter (λ name, name ∉ router.*1) required_router_data_plane_evidence in
  _ ← stop_if (negb (bool_decide (missing = []))) ("router_data_plane_evidence is missing: " +:+ join ", " missing);
  _ ← stop_if (negb (json_eqb (json_get "backend_kind" router) (JStr "real_model")))
        ("router_data_plane_evidence.backend_kind must be " +:+ "real_model; mock backends are smoke evidence only");
  _ ← forR (λ name, stop_if (negb (filled_string (json_get name router)))
                      ("router_data_plane_evidence." +:+ name +:+ " must be a non-empty string"))
        ["model"; "response_marker"; "router_version"; "architecture"];
  _ ← stop_if (negb (status_between 500 600 (json_get "failure_http_status" router)))
        "router_data_plane_evidence.failure_http_status must be a 5xx integer";
  _ ← stop_if (negb (status_between 200 300 (json_get "recovered_http_status" router)))
        "router_data_plane_evidence.recovered_http_status must be a 2xx integer";
  stop_if (negb (is_bool (json_get "release_image_supported" router)))
    "router_data_plane_evidence.release_image_supported must be boolean".

Definition text_of (v : json) : string := match v with JStr s => s | _ => "" end.

Definition check_conflicts (o : Observed) : result ProviderCheck () :=
  match ob_conflicts o with
  | JArr items =>
      _ ← stop_if (negb (forallb filled_string items)) "ownership_conflicts must be a list of non-empty strings";
      raise_if (negb (bool_decide (items = [])))
        (mkCheck (Some false) false (bool_of (ob_reachable o)) (Some false) true
           (evidence ++ ((λ v, Remark ("ownership conflict: " +:+ text_of v)) <$> items)))
  | _ => stop_if true "ownership_conflicts must be a list of non-empty strings"
  end.

Definition check_health (o : Observed) (missing_services : list string) : result ProviderCheck () :=
  let healthy := is_true (ob_healthy o) in
  _ ← stop_if (is_true (ob_reachable o) && negb (truthy (ob_cluster o))) "cluster_reachable=true requires cluster_evidence";
  _ ← stop_if (healthy && negb (truthy (ob_rollout o))) "rollout_healthy=true requires rollout_evidence";
  _ ← stop_if (healthy && negb (is_true (ob_reachable o))) "rollout_healthy=true requires cluster_reachable=true";
  _ ← stop_if (healthy && negb (bool_decide (missing_services = [])))
        ("rollout_healthy=true requires service configuration: " +:+ join ", " missing_services);
  let missing := filter (λ name, name ∉ (object_of (ob_components o)).*1) required_component_evidence in
  _ ← stop_if (healthy && negb (bool_decide (missing = [])))
        ("rollout_healthy=true requires component_evidence for: " +:+ join ", " missing);
  stop_if (healthy && negb (is_object (ob_router o)))
    ("rollout_healthy=true requires structured " +:+ "router_data_plane_evidence from a real model, " +:+
     "including failure and recovery").

Definition noted (prefix : string) (v : json) : list evidence_line :=
  if truthy v then [Remark (prefix +:+ text_of v)] else [].

Definition accepted {CT : ContainerText} (o : Observed) (configured : bool) (services missing_services : list string)
    : ProviderCheck :=
  let router := object_of (ob_router o) in
  let unsupported := is_object (ob_router o) && is_false (json_get "release_image_supported" router) in
  let field name := py_str (json_get name router) in
  mkCheck compatible configured (bool_of (ob_reachable o)) (bool_of (ob_healthy o))
    (bool_decide (compatible = None) || is_false (ob_reachable o) || is_false (ob_healthy o) || unsupported)
    (evidence ++ noted "cluster evidence: " (ob_cluster o) ++ noted "rollout evidence: " (ob_rollout o) ++
     (if negb (bool_decide (services = [])) && bool_decide (missing_services = [])
      then [Remark ("required service configuration present: " +:+ join ", " services)] else []) ++
     ((λ p, Remark (underscores_to_spaces p.1 +:+ " evidence: " +:+ text_of p.2)) <$> object_of (ob_components o)) ++
     (if is_object (ob_router o)
      then [Remark ("router data plane evidence: model=" +:+ field "model" +:+ ", failure_http_status=" +:+
                    field "failure_http_status" +:+ ", recovered_http_status=" +:+ field "recovered_http_status" +:+
                    ", response_marker=" +:+ field "response_marker" +:+ ", router_version=" +:+ field "router_version" +:+
                    ", architecture=" +:+ field "architecture")] ++
           (if unsupported then [Remark ("release image is unavailable for this architecture; " +:+
                                         "a source-built Router artifact was used")] else [])
      else []) ++
     [Remark "no cluster mutation was attempted"]).

(** The checks after the endpoint's, in order. *)
Definition check_all (o : Observed) (missing_services : list string) : result ProviderCheck () :=
  _ ← check_types o;
  _ ← match ob_router o with JObj router => check_router router | _ => Ok () end;
  _ ← check_conflicts o;
  check_health o missing_services.
End check.

Definition required_services (m : BundleManifest) : list string :=
  endpoint_config <$> filter (λ s, optional s = false) (requires_services m).

Definition production_check {PV : Pep440} {CT : ContainerText} {EP : Endpoints} (m : BundleManifest)
    (config : list (string * json)) : result core_exn ProviderCheck :=
  let '(compatible, evidence) := assess_compatibility m config None None [] in
  let services := required_services m in
  let missing := filter (λ key, filled_string (json_get key config) = false) services in
  let o := observed config in
  let configured := is_object (ob_values o) && negb (is_no compatible) && bool_decide (missing = []) in
  endpoint ← match ob_endpoint o with
             | JNull => Ok true
             | v => match http_endpoint v with
                    | None => refuse
                    | Some web => Ok (match v with JStr _ => web | _ => false end)
                    end
             end;
  Ok (match (_ ← stop_if compatible evidence (negb endpoint) "router_backend_endpoint must be an absolute http(s) URL";
             check_all compatible evidence o missing) with
      | Raise c => c
      | Ok _ => accepted compatible evidence o configured services missing
      end).

Definition ProductionStackProvider {PV : Pep440} {CT : ContainerText} {EP : Endpoints} : HostProvider := {|
  provider_name := "production-stack";
  supports m := bool_decide (host_provider (host m) = "production-stack");
  provider_plan := production_plan;
  render := production_render;
  check := production_check;
|}.
