(* ===== verification/BuiltinProviders.v ===== *)
(** * The built-in providers and what they promise

    The table of [src/vllm_hust_ext/providers/__init__.py], and theorems about the four
    providers in it: their plans only propose, a vLLM plan stays within what its manifest
    declares, its native manifest is read back, two of them never go together, and what a
    check may call healthy or configured. *)

From S2P Require Import Prelude PyStd JsonText JsonRoundTrip ContractParse HostEvidence Manifest ManifestTheorems Capabilities ExtensionConfig Discovery RuntimeEvidence ExtensionCore ExtensionCoreTheorems VllmProvider StateAxisProvider MooncakeProvider ProductionStackProvider.

Local Open Scope string_scope.
Local Open Scope list_scope.

Ltac bound_results :=
  repeat match goal with
  | H : mbind _ _ = Ok _ |- _ => apply result_bind_Ok in H as (? & ? & H)
  | H : Ok _ = Ok _ |- _ => injection H as <-
  | H : refuse = Ok _ |- _ => discriminate H
  end.

Section builtin.
Context {PV : Pep440} {VM : VersionMajor} {I : Installed} {RF : ResearchFiles} {HE : HealthEndpoint}
  {CT : ContainerText} {EP : Endpoints}.

Definition _builtin_providers : list (string * HostProvider) :=
  [("vllm", VllmProvider); ("mooncake", MooncakeProvider); ("production-stack", ProductionStackProvider);
   ("stateaxis", StateAxisProvider)].

(** ** Plans *)

(** A plan for an extension that changes nothing and claims nothing. *)
Definition harmless (name : string) (m : BundleManifest) (p : ProviderPlan) : Prop :=
  existsb mutating (actions p) = false ∧ plan_claims p = [] ∧ plan_extension p = bundle_id m ∧ plan_provider p = name.

Lemma vllm_plan_harmless m config enabled p : vllm_plan m config enabled = Ok p → harmless "vllm" m p.
Proof. unfold vllm_plan. intros H. bound_results. case_match; bound_results; done. Qed.

Lemma mooncake_plan_harmless m config enabled p : mooncake_plan m config enabled = Ok p → harmless "mooncake" m p.
Proof.
  unfold mooncake_plan. intros H. bound_results. unfold harmless. cbn. split; [|done].
  induction (requires_services m) as [|s l IH]; [done|exact IH].
Qed.

Lemma production_plan_harmless m config enabled p :
  production_plan m config enabled = Ok p → harmless "production-stack" m p.
Proof. unfold production_plan. intros H. case_match; bound_results; done. Qed.

Lemma stateaxis_plan_harmless m config enabled p : stateaxis_plan m config enabled = Ok p → harmless "stateaxis" m p.
Proof. unfold stateaxis_plan. intros H. bound_results. repeat case_match; bound_results; done. Qed.

Lemma builtin_harmless name p m config enabled plan :
  od_get name _builtin_providers = Some p → provider_plan p m config enabled = Ok plan → harmless name m plan.
Proof.
  unfold _builtin_providers. cbn [od_get]. intros H.
  repeat case_decide; simplify_eq; intros Hp;
    first [exact (vllm_plan_harmless _ _ _ _ Hp)|exact (mooncake_plan_harmless _ _ _ _ Hp)
          |exact (production_plan_harmless _ _ _ _ Hp)|exact (stateaxis_plan_harmless _ _ _ _ Hp)].
Qed.

(** A plan of a built-in provider passes the checks of plan_for: it mutates nothing,
    claims exactly what the manifest claims, and names the extension and the provider. *)
Theorem builtin_plans_granted (entries : list ProviderEntry) (include_external : bool) (bundle : InstalledBundle)
    (e : ExtensionConfig) (p : HostProvider) :
  let m := manifest bundle in
  provider_for _builtin_providers entries (host_provider (host m)) include_external = Ok p →
  od_get (host_provider (host m)) _builtin_providers = Some p →
  plan_for _builtin_providers entries include_external bundle e =
    (_ ← raise_if (negb (supports p m)) CoreValueError;
     plan ← provider_plan p m (configuration e) (enabled e);
     Ok (with_claims (resource_claims m) plan)) ∧
  ∀ plan, plan_for _builtin_providers entries include_external bundle e = Ok plan →
    Forall (λ a, mutating a = false) (actions plan) ∧ plan_claims plan = resource_claims m ∧
    plan_extension plan = bundle_id m ∧ plan_provider plan = host_provider (host m).
Proof.
  cbv zeta. intros Hp Hb. unfold plan_for. rewrite Hp. cbn [mbind result_bind].
  destruct (negb (supports p (manifest bundle))); [done|]. cbn [raise_if mbind result_bind].
  destruct (provider_plan p _ _ _) as [plan|x] eqn:E; [|done]. cbn [mbind result_bind].
  destruct (builtin_harmless _ _ _ _ _ _ Hb E) as (Hm & Hc & Hx & Hn). rewrite Hm, Hc. split; [done|].
  intros plan' [= <-]. cbn. split_and!; try done. apply Forall_forall. intros a Ha. apply not_true_iff_false. intros Ht.
  apply not_true_iff_false in Hm. apply Hm, existsb_exists. exists a. by rewrite <-list_elem_of_In.
Qed.
(** ** The vLLM plan *)

(** A launch configuration within what the manifest declares and the manager knows. *)
Record declared_launch (m : BundleManifest) (config generated : list (string * json)) : Prop := {
  dl_environment : ∃ env, json_get "environment" generated = JObj env ∧ env.*1 = (ac_environment (activation m)).*1 ∧
    ∀ k v, od_get k env = Some v → ∃ s, v = JStr s ∧
      ((k, v) ∈ object_of (get_or (JObj []) "environment" config) ∨ od_get k (ac_environment (activation m)) = Some s);
  dl_options : ∃ options, json_get "vllm_json_options" generated = JObj options ∧
    options.*1 ⊆ _JSON_LAUNCH_OPTIONS.*2 ∧ Forall (λ p, is_object p.2 = true) options;
  dl_flags : ∀ v, assoc "vllm_flags" generated = Some v → ∃ flags, v = strings_json flags ∧ flags ⊆ _BOOLEAN_LAUNCH_OPTIONS.*2;
  dl_policies : ∀ v, assoc "vllm_options" generated = Some v → ∃ options, v = JObj options ∧
    ∀ k w, (k, w) ∈ options → ∃ c name, c ∈ components m ∧ w = JStr name ∧
      _qualname_from_implementation_ref (implementation_ref c) = Ok name ∧
      (k = "--preemption-policy" ∧ "vllm.preemption-policy.v1" ∈ contracts c ∨
       k = "--batch-admission-policy" ∧ "vllm.batch-admission-policy.v1" ∈ contracts c);
  dl_private : ∃ kv, json_get "additional_config" generated = JObj kv ∧ _RUNTIME_QUALIFICATION_KEY ∉ kv.*1;
}.

Lemma od_set_known k v (d : list (string * json)) : k ∈ d.*1 → (od_set k v d).*1 = d.*1.
Proof.
  induction d as [|[k' v'] d IH]; [by intros ?%elem_of_nil|]. rewrite fmap_cons. cbn. intros Hk.
  case_decide as E; [by subst|]. rewrite fmap_cons. cbn. f_equal. apply IH. set_solver.
Qed.

Lemma update_keys d o : o.*1 ⊆ d.*1 → (update d o).*1 = d.*1.
Proof.
  unfold update. revert d. induction o as [|[k v] o IH]; intros d H; [done|]. cbn [foldl fst snd].
  rewrite fmap_cons in H. cbn in H. assert ((od_set k v d).*1 = d.*1) as E by (apply od_set_known; set_solver).
  rewrite IH; [done|]. rewrite E. set_solver.
Qed.

Lemma od_get_update k v d o : od_get k (update d o) = Some v → (k, v) ∈ o ∨ od_get k d = Some v.
Proof.
  unfold update. revert d. induction o as [|[k' w] o IH]; intros d; [by right|]. cbn [foldl fst snd].
  intros [?|H]%IH; [left; by right|]. rewrite od_get_set in H. case_decide; [|by right].
  simplify_eq. left. by left.
Qed.

Lemma od_get_strings k v (l : list (string * string)) :
  od_get k ((λ p, (p.1, JStr p.2)) <$> l) = Some v → ∃ s, v = JStr s ∧ od_get k l = Some s.
Proof.
  induction l as [|[k' s] l IH]; [done|]. rewrite fmap_cons. cbn [od_get fst snd]. case_decide; [|done].
  intros [= <-]. by exists s.
Qed.

Lemma refuse_when_bind {A} b (r : result core_exn A) a : (_ ← refuse_when b; r) = Ok a ↔ b = false ∧ r = Ok a.
Proof. unfold refuse_when, raise_if. destruct b; naive_solver. Qed.

Lemma declared_environment_Ok m config env :
  declared_environment m config = Ok env →
  env.*1 = (ac_environment (activation m)).*1 ∧
  ∀ k v, od_get k env = Some v → ∃ s, v = JStr s ∧
    ((k, v) ∈ object_of (get_or (JObj []) "environment" config) ∨ od_get k (ac_environment (activation m)) = Some s).
Proof.
  unfold declared_environment. cbv zeta. set (declared := _ <$> _).
  assert (declared.*1 = (ac_environment (activation m)).*1) as Hd
    by (unfold declared; rewrite <-list_fmap_compose; by apply list_fmap_ext).
  destruct (get_or _ _ config) as [| | | | | |o] eqn:E; try done.
  intros [Ho%negb_false_iff [Hs%negb_false_iff [= <-]]%refuse_when_bind]%refuse_when_bind.
  apply all_among in Ho. split; [by rewrite update_keys|]. intros k v [Hin|Hg]%od_get_update.
  - rewrite forallb_forall in Hs. specialize (Hs _ (proj1 (list_elem_of_In _ _) Hin)). cbn in Hs.
    destruct v; try done. cbn [object_of]. eauto.
  - apply od_get_strings in Hg as (s & -> & Hg). eauto.
Qed.

Definition options_ok (acc : list (string * json) * list string) : Prop :=
  acc.1.*1 ⊆ _JSON_LAUNCH_OPTIONS.*2 ∧ Forall (λ p, is_object p.2 = true) acc.1 ∧ acc.2 ⊆ _BOOLEAN_LAUNCH_OPTIONS.*2.

Lemma od_set_values (P : json → Prop) k v (d : list (string * json)) :
  P v → Forall (λ p, P p.2) d → Forall (λ p, P p.2) (od_set k v d).
Proof.
  intros Hv. induction 1 as [|[k' w] d Hw Hd IH]; cbn; [by repeat constructor|]. case_decide; by constructor.
Qed.

Lemma launch_option_ok acc item acc' : options_ok acc → launch_option acc item = Ok acc' → options_ok acc'.
Proof.
  destruct acc as [options flags], item as [name value]. intros (Ho & Hobj & Hf). cbn in Ho, Hobj, Hf. unfold launch_option.
  destruct (od_get name _BOOLEAN_LAUNCH_OPTIONS) as [flag|] eqn:E.
  - destruct value as [|b| | | | |]; try done. intros [= <-]. split_and!; try done. cbn. destruct b; [|done].
    apply od_get_elem_of in E. assert (flag ∈ _BOOLEAN_LAUNCH_OPTIONS.*2) by (apply list_elem_of_fmap; by exists (name, flag)).
    set_solver.
  - destruct value as [| | | | | |kv]; try done. destruct (od_get name _JSON_LAUNCH_OPTIONS) as [option|] eqn:E'; [|done].
    intros [= <-]. apply od_get_elem_of in E'.
    assert (option ∈ _JSON_LAUNCH_OPTIONS.*2) by (apply list_elem_of_fmap; by exists (name, option)).
    split_and!; cbn; [|by apply (od_set_values (λ v, is_object v = true))|done].
    intros k [->|Hk]%od_set_keys; [done|]. by apply Ho.
Qed.

Lemma foldR_inv {A B} (f : A → B → result core_exn A) (P : A → Prop) l a a' :
  (∀ a x a', P a → f a x = Ok a' → P a') → P a → foldR f a l = Ok a' → P a'.
Proof.
  intros Hf. revert a. induction l as [|x l IH]; intros a Ha; cbn [foldR]; [by intros [= <-]|].
  intros (b & Hb & H)%result_bind_Ok. eapply IH; [|exact H]. by eapply Hf.
Qed.

Lemma launch_options_ok config acc : launch_options config = Ok acc → options_ok acc.
Proof.
  unfold launch_options. destruct (get_or _ _ config); try done. intros [_ H]%refuse_when_bind.
  eapply foldR_inv; [apply launch_option_ok| |exact H]. split_and!; [set_solver|constructor|set_solver].
Qed.

Lemma policy_option_Ok contract option m l k w :
  policy_option contract option m = Ok l → (k, w) ∈ l →
  k = option ∧ ∃ c name, c ∈ components m ∧ contract ∈ contracts c ∧ w = JStr name ∧
    _qualname_from_implementation_ref (implementation_ref c) = Ok name.
Proof.
  unfold policy_option. destruct (filter _ (components m)) as [|c [|]] eqn:E; try done.
  { by intros [= <-] ?%elem_of_nil. }
  intros (name & Hn & [= <-])%result_bind_Ok [= -> ->]%list_elem_of_singleton. split; [done|].
  assert (c ∈ filter (λ c, contract ∈ contracts c) (components m)) as [Hc Hin]%list_elem_of_filter by (rewrite E; by left).
  by exists c, name.
Qed.
Lemma nonempty_Some {A} (l l' : list A) : nonempty l = Some l' → l' = l.
Proof. destruct l; naive_solver. Qed.

Lemma generated_declared m config g : generated m config = Ok g → declared_launch m config g.
Proof.
  unfold generated. intros ([options flags] & Ho%launch_options_ok & (env & He%declared_environment_Ok & H)%result_bind_Ok)%result_bind_Ok.
  apply result_bind_Ok in H as (pre & Hpre & (adm & Hadm & [= <-])%result_bind_Ok).
  destruct Ho as (Ho & Hobj & Hf). cbn in Ho, Hobj, Hf. destruct He as [Hkeys Hval].
  destruct (nonempty (declared_vllm_plugin_names m)), (nonempty flags) as [flags'|] eqn:Ef,
    (nonempty (pre ++ adm)) as [policies|] eqn:Ep, (native_manifest m);
    try (apply nonempty_Some in Ef as ->); try (apply nonempty_Some in Ep as ->);
    (split; [exists env; split; [reflexivity|done]|exists options; split; [reflexivity|done]| | |
             eexists; split; [reflexivity|intros ([k w] & E & [Hne _]%list_elem_of_filter)%list_elem_of_fmap; by apply Hne]]);
    intros v Hv; try discriminate Hv; injection Hv as <-; eexists; (split; [reflexivity|]); try done;
    intros k w [Hin|Hin]%elem_of_app.
  all: try (destruct (policy_option_Ok _ _ _ _ _ _ Hpre Hin) as (-> & c & name & ? & ? & ? & ?); exists c, name; split_and!; auto).
  all: destruct (policy_option_Ok _ _ _ _ _ _ Hadm Hin) as (-> & c & name & ? & ? & ? & ?); exists c, name; split_and!; auto.
Qed.

End builtin.

(** ** The native manifest *)

Section native.
Context {PV : Pep440} {HA : HostApi} {W : WordChars}.

Definition native_of (m : BundleManifest) (range : string) : BundleManifest :=
  mkManifest (bundle_id m) (bundle_version m) range (components m) no_activation "1.0" "legacy_vllm_bundle"
    DEFAULT_HOST DEFAULT_RUNTIME "vllm" [] [] [] [] [].

Lemma native_fields m range :
  _parse_legacy_manifest (JObj (legacy_fields (bundle_id m) (bundle_version m) range (components m) JNull)) =
  parse_manifest (JObj [("schema_version", JStr "1.0"); ("bundle_id", JStr (bundle_id m));
                        ("bundle_version", JStr (bundle_version m)); ("host_api_range", JStr range);
                        ("components", JArr (VllmProvider.component_json <$> components m))]).
Proof. reflexivity. Qed.

Lemma manifest_ok_parts m :
  manifest_ok m → bundle_ok (bundle_id m) (bundle_version m) ∧ (components m = [] ∨ components_ok (components m)) ∧
  ∀ r, api_range (host m) = Some r → filled r.
Proof.
  intros [[Hb _ Hc _ ->]|[_ Hb _ Hc _ [Hh _] _ _ _ _ _ _]]; cbn in *.
  - split_and!; [done|by right|]. by intros r [= <-].
  - split_and!; [done|naive_solver|]. intros r Hr. destruct Hh as (_ & _ & _ & _ & Ha). rewrite Hr in Ha. by destruct Ha.
Qed.

Lemma parse_legacy_fields_inv id version range l v m' :
  _parse_legacy_manifest (JObj (legacy_fields id version range l v)) = Ok m' → admits_host range ∧ l ≠ [].
Proof.
  unfold _parse_legacy_manifest, legacy_fields. intros H. parsed.
  match goal with H : JObj _ = JObj _ |- _ => injection H as <- end.
  match goal with H : check_range ?r = Ok ?s, H' : json_get "host_api_range" _ = JStr ?r |- _ =>
    cbv in H'; injection H' as <-; apply check_range_Ok in H; split; [by exists s|] end.
  intros ->. discriminate.
Qed.

(** C39: The native manifest a vLLM plan makes of a well-formed manifest is read back by
    parse_manifest exactly when the API range admits the host's API and there are
    components; it is then the legacy manifest of the same identifier, version, range
    and components. *)
Theorem native_manifest_exact (m m' : BundleManifest) (native : json) :
  manifest_ok m → native_manifest m = Some native →
  parse_manifest native = Ok m' ↔
  ∃ range, api_range (host m) = Some range ∧ admits_host range ∧ components m ≠ [] ∧ m' = native_of m range.
Proof.
  intros (Hb & Hc & Hf)%manifest_ok_parts. unfold native_manifest.
  destruct (api_range (host m)) as [range|] eqn:Er; [|done]. intros [= <-]. specialize (Hf range eq_refl).
  rewrite <-native_fields. split.
  - intros H. pose proof (parse_legacy_fields_inv _ _ _ _ _ _ H) as [Hr Hne]. exists range. split_and!; try done.
    destruct Hc as [?|Hc]; [done|].
    rewrite (parse_legacy_fields _ _ _ _ JNull no_activation Hb Hf Hr Hc eq_refl) in H. by injection H as <-.
  - intros (r & [= <-] & Hr & Hne & ->). destruct Hc as [?|Hc]; [done|].
    exact (parse_legacy_fields _ _ _ _ JNull no_activation Hb Hf Hr Hc eq_refl).
Qed.
End native.

(** ** Checks *)

Section checks.
Context {PV : Pep440} {VM : VersionMajor} {I : Installed} {RF : ResearchFiles} {HE : HealthEndpoint}
  {CT : ContainerText} {EP : Endpoints}.

(** The connector operations an operator counted, where the configuration gives them: each at
    least once, and no failed key. *)
Definition operations_not_failed (config : list (string * json)) : Prop :=
  json_get "connector_operation_evidence" config = JNull ∨
  ∃ raw, json_get "connector_operation_evidence" config = JObj raw ∧
    Forall (λ name, sign_of (json_get name raw) = Some (Some 1%Z)) ["lookup_exists_ok"; "save_put_ok"; "load_get_ok"] ∧
    sign_of (json_get "failed_keys" raw) = Some (Some 0%Z).

Lemma counts_working raw signs :
  counts raw _REQUIRED_OPERATION_EVIDENCE = Ok (inr signs) → working signs = true →
  Forall (λ name, sign_of (json_get name raw) = Some (Some 1%Z)) ["lookup_exists_ok"; "save_put_ok"; "load_get_ok"] ∧
  sign_of (json_get "failed_keys" raw) = Some (Some 0%Z).
Proof.
  assert (∀ name names signs, counts raw (name :: names) = Ok (inr signs) →
    ∃ sign rest, sign_of (json_get name raw) = Some sign ∧ signs = sign :: rest ∧ counts raw names = Ok (inr rest)) as Hstep.
  { intros name names s. cbn [counts]. destruct (sign_of _) as [sign|]; [|done]. case_bool_decide; [done|].
    destruct (too_large _); [done|]. intros ([|rest] & Hr & [= <-])%result_bind_Ok. by exists sign, rest. }
  unfold _REQUIRED_OPERATION_EVIDENCE. intros H Hw.
  apply Hstep in H as (s1 & r1 & H1 & -> & H). apply Hstep in H as (s2 & r2 & H2 & -> & H).
  apply Hstep in H as (s3 & r3 & H3 & -> & H). apply Hstep in H as (s4 & r4 & H4 & -> & H).
  injection H as <-. cbn [working] in Hw. rewrite !andb_true_iff, !bool_decide_eq_true in Hw.
  destruct Hw as [[[-> ->] ->] ->]. split; [by repeat constructor|done].
Qed.

Lemma operation_evidence_Ok config operations evidence :
  _operation_evidence config = Ok (operations, true, evidence) → is_no operations = false → operations_not_failed config.
Proof.
  unfold _operation_evidence, operations_not_failed. destruct (json_get _ config) as [| | | | | |raw]; try (intros; discriminate); [by left|].
  destruct (filter _ _); [|done]. intros ([name|signs] & Hc & [= <- _])%result_bind_Ok. cbn [is_no].
  intros Hw. right. exists raw. split; [done|]. apply (counts_working raw signs Hc). by destruct (working signs).
Qed.

Lemma mooncake_healthy m config c :
  mooncake_check m config = Ok c → healthy c = Some true →
  (∃ status, health_endpoint (json_get "health_url" config) = Responded status ∧ (200 ≤ status < 300)%Z) ∧
  operations_not_failed config.
Proof.
  unfold mooncake_check. destruct _installed_distributions as [|d [|]]; [| |by intros [= <-]]; cbv zeta;
    destruct (assess_compatibility _ _ _ _ _) as [compatible evidence]; cbv zeta.
  all: destruct (is_no compatible); [by intros [= <-]|].
  all: destruct (_connector_config config) as [|[]]; [|by intros [= <-]|done].
  all: destruct (_validate_runtime_configuration _ _) as [[ok conf] rev]; destruct (negb ok || negb conf); [by intros [= <-]|].
  all: intros ([[operations configured] oev] & Ho & H)%result_bind_Ok; destruct configured; [|by injection H as <-].
  all: unfold service_check in H; cbv zeta in H; destruct (negb (truthy _)); [by injection H as <-|].
  all: destruct (health_endpoint _) as [status|code| | |]; try discriminate H; injection H as <-; try done.
  all: cbn [healthy]; intros [= [[?%Z.leb_le ?%Z.ltb_lt]%andb_true_iff Hn%negb_true_iff]%andb_true_iff].
  all: split; [by exists status|by eapply operation_evidence_Ok].
Qed.

(** The evidence a rollout is called healthy with. *)
Record rollout_evidenced (m : BundleManifest) (config : list (string * json)) : Prop := {
  re_reported : json_get "cluster_reachable" config = JBool true ∧ json_get "rollout_healthy" config = JBool true;
  re_texts : filled_string (json_get "cluster_evidence" config) = true ∧ filled_string (json_get "rollout_evidence" config) = true;
  re_components : ∃ kv, json_get "component_evidence" config = JObj kv ∧ required_component_evidence ⊆ kv.*1 ∧
    Forall (λ p, filled_string p.2 = true) kv;
  re_router : ∃ router, json_get "router_data_plane_evidence" config = JObj router ∧
    json_get "backend_kind" router = JStr "real_model" ∧
    status_between 500 600 (json_get "failure_http_status" router) = true ∧
    status_between 200 300 (json_get "recovered_http_status" router) = true;
  re_services : Forall (λ key, filled_string (json_get key config) = true) (required_services m);
  re_conflicts : get_or (JArr []) "ownership_conflicts" config = JArr [];
}.

Lemma stop_if_bind {A} compatible evidence b text (r : result ProviderCheck A) a :
  (_ ← stop_if compatible evidence b text; r) = Ok a ↔ b = false ∧ r = Ok a.
Proof. unfold stop_if, raise_if. destruct b; naive_solver. Qed.
Lemma stop_plain_if_bind {A} compatible evidence b text (r : result ProviderCheck A) a :
  (_ ← stop_plain_if compatible evidence b text; r) = Ok a ↔ b = false ∧ r = Ok a.
Proof. unfold stop_plain_if, raise_if. destruct b; naive_solver. Qed.
Lemma stop_if_Ok compatible evidence b text u : stop_if compatible evidence b text = Ok u ↔ b = false.
Proof. unfold stop_if. apply raise_if_Ok. Qed.

Lemma check_types_Ok compatible evidence o u :
  check_types compatible evidence o = Ok u →
  (is_null (ob_cluster o) || filled_string (ob_cluster o)) = true ∧
  (is_null (ob_rollout o) || filled_string (ob_rollout o)) = true ∧
  Forall (λ p, filled_string p.2 = true) (object_of (ob_components o)).
Proof.
  unfold check_types. cbv zeta. rewrite !stop_plain_if_bind, !stop_if_bind, stop_if_Ok.
  intros (_ & _ & Hc & Hr & _ & Hi & _). split_and!.
  - by destruct (is_null (ob_cluster o)), (filled_string (ob_cluster o)).
  - by destruct (is_null (ob_rollout o)), (filled_string (ob_rollout o)).
  - apply negb_false_iff, bool_decide_eq_true, fmap_nil_inv in Hi. apply Forall_forall. intros p Hp.
    apply not_false_iff_true. intros Hf. assert (p ∈ filter (λ p, filled_string p.2 = false) (object_of (ob_components o))) as Hin
      by by apply list_elem_of_filter. rewrite Hi in Hin. by apply elem_of_nil in Hin.
Qed.

Lemma check_router_Ok compatible evidence router u :
  check_router compatible evidence router = Ok u →
  json_get "backend_kind" router = JStr "real_model" ∧
  status_between 500 600 (json_get "failure_http_status" router) = true ∧
  status_between 200 300 (json_get "recovered_http_status" router) = true.
Proof.
  unfold check_router. cbv zeta. rewrite !stop_if_bind. intros (_ & Hk%negb_false_iff%json_eqb_str & H).
  apply result_bind_Ok in H as (_ & _ & H). rewrite !stop_if_bind in H. destruct H as (Hf & Hr & _).
  by rewrite !negb_false_iff in *.
Qed.

Lemma check_conflicts_Ok compatible evidence o u : check_conflicts compatible evidence o = Ok u → ob_conflicts o = JArr [].
Proof.
  unfold check_conflicts. destruct (ob_conflicts o) as [| | | | |items|]; try done.
  intros [_ H]%stop_if_bind. by apply raise_if_Ok, negb_false_iff, bool_decide_eq_true in H as ->.
Qed.

Lemma filter_nil_notin {A} `{EqDecision A} (l k : list A) : filter (λ x, x ∉ k) l = [] → l ⊆ k.
Proof.
  intros H x Hx. destruct (decide (x ∈ k)) as [|Hn]; [done|].
  assert (x ∈ filter (λ x, x ∉ k) l) as Hin by by apply list_elem_of_filter. rewrite H in Hin. by apply elem_of_nil in Hin.
Qed.

Lemma check_health_Ok compatible evidence o missing u :
  check_health compatible evidence o missing = Ok u → is_true (ob_healthy o) = true →
  is_true (ob_reachable o) = true ∧ truthy (ob_cluster o) = true ∧ truthy (ob_rollout o) = true ∧ missing = [] ∧
  required_component_evidence ⊆ (object_of (ob_components o)).*1 ∧ is_object (ob_router o) = true.
Proof.
  unfold check_health. cbv zeta. rewrite !stop_if_bind, stop_if_Ok. intros (H1 & H2 & H3 & H4 & H5 & H6) Hh.
  rewrite Hh in *. cbn [andb] in *. apply negb_false_iff in H2, H3, H4, H5, H6. rewrite H3 in H1. cbn [andb] in H1.
  apply negb_false_iff in H1. apply bool_decide_eq_true in H4, H5. split_and!; try done. by apply filter_nil_notin.
Qed.

(** Whatever solve_raises the check early does not call the rollout healthy. *)
Definition unhealthy (c : ProviderCheck) : Prop := healthy c ≠ Some true.

Lemma stop_if_raises compatible evidence b text : raises_only unhealthy (stop_if compatible evidence b text).
Proof. unfold stop_if, raise_if. destruct b; by intros e [= <-]. Qed.
Lemma stop_plain_if_raises compatible evidence b text : raises_only unhealthy (stop_plain_if compatible evidence b text).
Proof. unfold stop_plain_if, raise_if. destruct b; by intros e [= <-]. Qed.

#[local] Hint Resolve stop_if_raises stop_plain_if_raises : raises.

Lemma check_all_raises compatible evidence o missing : raises_only unhealthy (check_all compatible evidence o missing).
Proof.
  unfold check_all. apply raises_only_bind; [|intros _ _; apply raises_only_bind; [|intros _ _; apply raises_only_bind]].
  - unfold check_types. cbv zeta. solve_raises.
  - destruct (ob_router o); unfold check_router; cbv zeta; solve_raises.
  - unfold check_conflicts. destruct (ob_conflicts o); solve_raises. by apply raises_only_raise_if.
  - intros _ _. unfold check_health. cbv zeta. solve_raises.
Qed.

Lemma production_healthy m config c :
  production_check m config = Ok c → healthy c = Some true → rollout_evidenced m config.
Proof.
  unfold production_check. destruct (assess_compatibility _ _ _ _ _) as [compatible evidence]. cbv zeta.
  set (o := observed config). set (missing := filter _ _).
  intros (endpoint & _ & H)%result_bind_Ok Hh. injection H as H.
  destruct (_ ← stop_if _ _ (negb endpoint) _; _) as [u|early] eqn:E.
  - subst c. cbn [accepted healthy] in Hh. apply stop_if_bind in E as [_ E]. unfold check_all in E.
    apply result_bind_Ok in E as (_ & (Hc & Hr & Hcomp)%check_types_Ok & E).
    apply result_bind_Ok in E as (u0 & Hrouter & E). apply result_bind_Ok in E as (_ & Hconf%check_conflicts_Ok & E).
    assert (is_true (ob_healthy o) = true) as Ht by (destruct (ob_healthy o); try done; by injection Hh as ->).
    destruct (check_health_Ok _ _ _ _ _ E Ht) as (Hre & Hcl & Hro & Hm & Hreq & Hobj).
    assert (∀ v, is_true v = true → v = JBool true) as Htrue by (intros [|b| | | | |] H; try done; cbn in H; by subst b).
    assert (∀ v, (is_null v || filled_string v) = true → truthy v = true → filled_string v = true) as Hfill
      by (intros []; try done).
    split.
    + split; by apply Htrue.
    + split; by apply Hfill.
    + change (json_get "component_evidence" config) with (ob_components o).
      destruct (ob_components o) as [| | | | | |kv]; try (specialize (Hreq "router_traffic"); set_solver). by exists kv.
    + change (json_get "router_data_plane_evidence" config) with (ob_router o).
      destruct (ob_router o) as [| | | | | |router]; try done. exists router. split; [done|]. by eapply check_router_Ok.
    + apply Forall_forall. intros key Hk. apply not_false_iff_true. intros Hf.
      assert (key ∈ missing) as Hin by by apply list_elem_of_filter. rewrite Hm in Hin. by apply elem_of_nil in Hin.
    + exact Hconf.
  - assert (healthy early ≠ Some true) as Hno; [|congruence]. 
    refine (raises_only_bind _ _ _ _ _ early E); [apply stop_if_raises|intros _ _; apply check_all_raises].
Qed.
Lemma vllm_never_healthy m config c : vllm_check m config = Ok c → healthy c = None.
Proof.
  unfold vllm_check. cbv zeta. destruct (assess_compatibility _ _ _ _ _) as [compatible evidence].
  destruct (match compatible with Some true => _ | _ => _ end) as [[compatible' evidence']|]; [|by intros [= <-]].
  intros (blocker & _ & [= <-])%result_bind_Ok. by destruct blocker.
Qed.

Lemma stateaxis_never_healthy m config c : stateaxis_check m config = Ok c → healthy c = None.
Proof.
  unfold stateaxis_check. destruct (_mod_binding m) as [binding|[]]; [|by intros [= <-]|done].
  destruct (assess_compatibility _ _ _ _ _) as [compatible evidence].
  intros ([verified line] & _ & (blocker & _ & [= <-])%result_bind_Ok)%result_bind_Ok. by repeat case_match.
Qed.

(** Only the Mooncake and Production Stack providers ever call an extension healthy: the
    first when its endpoint answered 2xx and no connector operation is known to fail,
    the second when the rollout, its components and the router's data plane are
    evidenced and nothing conflicts. *)
Theorem healthy_is_observed (name : string) (p : HostProvider) (m : BundleManifest) (config : list (string * json))
    (c : ProviderCheck) :
  od_get name _builtin_providers = Some p → check p m config = Ok c → healthy c = Some true →
  name = "mooncake" ∧ operations_not_failed config ∧
    (∃ status, health_endpoint (json_get "health_url" config) = Responded status ∧ (200 ≤ status < 300)%Z) ∨
  name = "production-stack" ∧ rollout_evidenced m config.
Proof.
  unfold _builtin_providers. cbn [od_get]. intros H Hc Hh. repeat case_decide; simplify_eq.
  - apply vllm_never_healthy in Hc. congruence.
  - left. destruct (mooncake_healthy m config c Hc Hh). done.
  - right. split; [done|]. exact (production_healthy m config c Hc Hh).
  - apply stateaxis_never_healthy in Hc. congruence.
Qed.

(** The StateAxis provider calls an extension configured only when the research
    manifest's file has the digest of the binding, nothing blocks its activation, and it
    is qualified with a passed record or an experiment without qualification (and then
    degraded). *)
Theorem stateaxis_configured_verified (m : BundleManifest) (config : list (string * json)) (c : ProviderCheck) :
  stateaxis_check m config = Ok c → configured c = true →
  ∃ binding path bytes, _mod_binding m = Ok binding ∧ json_get "research_manifest_path" config = JStr path ∧
    research_file path = Some (Some bytes) ∧ sha256_hexdigest bytes = mod_digest binding ∧
    Manifest.activation_blocker m = Ok None ∧
    (performance_qualified binding = true ∧ is_Some (passed_record (json_get "runtime_qualification" config)) ∨
     performance_qualified binding = false ∧ experiment_mode config = true ∧ degraded c = true).
Proof.
  unfold stateaxis_check. destruct (_mod_binding m) as [binding|[]]; [|by intros [= <-]|done].
  destruct (assess_compatibility _ _ _ _ _) as [compatible evidence].
  intros ([verified line] & Hv & (blocker & Hb & [= <-])%result_bind_Ok)%result_bind_Ok Hc.
  assert (is_yes verified = true ∧ blocker = None ∧
    (performance_qualified binding = true ∧ is_Some (passed_record (json_get "runtime_qualification" config)) ∨
     performance_qualified binding = false ∧ experiment_mode config = true)) as (Hyes & -> & Hmode).
  { destruct blocker as [b|]; [done|]. cbn [bool_decide_True] in *.
    destruct (performance_qualified binding), (experiment_mode config); cbn in Hc; try done.
    all: try (apply andb_true_iff in Hc as [? ?%bool_decide_eq_true]). all: split_and!; auto. }
  unfold blocker_of in Hb. destruct (Manifest.activation_blocker m) as [b|[]]; try done. injection Hb as ->.
  unfold _verify_manifest_file in Hv. destruct (json_get "research_manifest_path" config) as [| | | |path| |] eqn:Ep;
    try (by injection Hv as <- <-); try done. destruct (research_file path) as [[bytes|]|] eqn:Ef; try done.
  2: by injection Hv as <- <-. injection Hv as Hv. destruct (bool_decide (sha256_hexdigest bytes = mod_digest binding)) eqn:Hd; [apply bool_decide_eq_true in Hd|by simplify_eq].
  exists binding, path, bytes. split_and!; try done. destruct Hmode as [?|[Hq He]]; [by left|]. right.
  split_and!; try done. by rewrite Hq, He.
Qed.
End checks.

(** ** Two native manifests *)

Section conflict.
Context {PV : Pep440}.

(** Values that name the same bundle, if the first names one. *)
Definition other_bundle (v w : json) : bool :=
  match json_get "bundle_id" (object_of v) with
  | JStr s => negb (json_eqb (json_get "bundle_id" (object_of w)) (JStr s))
  | _ => false
  end.

Lemma equal_same_bundle v w : values_differ v w = false → other_bundle v w = false.
Proof.
  unfold values_differ, other_bundle. intros H%negb_false_iff.
  destruct (json_get "bundle_id" (object_of v)) as [| | | |s| |] eqn:E; try done.
  destruct v as [| | | | | |kv]; try done. destruct w as [| | | | | |kw]; cbn in H; try done.
  apply andb_true_iff in H as [_ H]. cbn [object_of] in *. unfold json_get in E |- *.
  destruct (assoc "bundle_id" kv) as [x|] eqn:Ex; [|done]. cbn in E. subst x. apply assoc_elem_of in Ex.
  rewrite forallb_forall in H. specialize (H _ (proj1 (list_elem_of_In _ _) Ex)). cbn in H.
  destruct (assoc "bundle_id" kw) as [x|]; [|done]. destruct x; try done. cbn. apply bool_decide_eq_true in H as ->.
  by rewrite bool_decide_eq_true_2.
Qed.

Lemma other_bundle_trans a b c : other_bundle a b = false → other_bundle b c = false → other_bundle a c = false.
Proof.
  unfold other_bundle. destruct (json_get "bundle_id" (object_of a)) as [| | | |s| |]; try done.
  intros H%negb_false_iff%json_eqb_str. by rewrite H.
Qed.

(** Of two plans with native manifests of different bundles, at most one passes. *)
Lemma native_plans_conflict pre p1 mid p2 post n1 n2 s1 s2 u :
  reject_conflicting_plans (pre ++ p1 :: mid ++ p2 :: post) = Ok u → plan_provider p1 = plan_provider p2 →
  ("native_extension_manifest", n1) ∈ generated_config p1 → ("native_extension_manifest", n2) ∈ generated_config p2 →
  json_get "bundle_id" (object_of n1) = JStr s1 → json_get "bundle_id" (object_of n2) = JStr s2 → s1 = s2.
Proof.
  unfold reject_conflicting_plans. intros (u' & _ & H%check_items_Ok)%result_bind_Ok Hp H1 H2 E1 E2.
  assert (agree_with_last other_bundle (config_items (pre ++ p1 :: mid ++ p2 :: post))) as Hlast.
  { intros a k v b w E Hl. apply equal_same_bundle. by eapply H. }
  apply agree_last_pairwise in Hlast; [|exact other_bundle_trans].
  apply list_elem_of_split in H1 as (a1 & b1 & H1), H2 as (a2 & b2 & H2).
  set (item := λ (p : ProviderPlan) (kv : string * json), ((plan_provider p, kv.1), kv.2)).
  assert (other_bundle n1 n2 = false) as Hsame.
  { apply (Hlast (config_items pre ++ (item p1 <$> a1)) (plan_provider p1, "native_extension_manifest") n1
             ((item p1 <$> b1) ++ config_items mid ++ (item p2 <$> a2)) n2 ((item p2 <$> b2) ++ config_items post)).
    unfold config_items. rewrite !bind_app, !bind_cons, !bind_app, !bind_cons, H1, H2, !fmap_app, !fmap_cons.
    unfold item. rewrite Hp. repeat (cbn; rewrite <-?app_assoc). done. }
  unfold other_bundle in Hsame. rewrite E1 in Hsame. apply negb_false_iff, json_eqb_str in Hsame. congruence.
Qed.
End conflict.

(** ** Examples *)

Module Example.
(** Every text is a version and a range that admits all; the witnesses need no more. *)
Definition any_version : Pep440 := {|
  version := string; Version := Some; version_str v := v; version_local _ := None;
  specifier_set := string; SpecifierSet := Some; specifier_str s := s; specifier_versions _ := []; contains _ _ := true;
|}.
#[local] Existing Instance any_version.
#[local] Instance any_major : VersionMajor := λ _, 1%Z.
#[local] Instance any_host : HostApi := {| HOST_API_VERSION := "1.0" : @version any_version; HOST_API_VERSION_ok := eq_refl |}.
#[local] Instance ascii_words : WordChars := λ _, false.
#[local] Instance nothing_installed : Installed := {|
  installed_version name := if bool_decide (name = "vllm") then Some "0.24" else None;
  registry := ImportFails; probe _ _ := None;
|}.
#[local] Instance one_file : ResearchFiles := λ path, if bool_decide (path = "mod.json") then Some (Some "a mod") else None.
#[local] Instance healthy_service : HealthEndpoint := λ _, Responded 200.
#[local] Instance brackets : ContainerText := λ _, "[]".
#[local] Instance web : Endpoints := λ _, Some true.

Definition parsed_or (payload : json) : BundleManifest :=
  match parse_manifest payload with
  | Ok m => m
  | Raise _ => mkManifest "" "" "" [] no_activation "" "" DEFAULT_HOST DEFAULT_RUNTIME "" [] [] [] [] []
  end.
Definition legacy : BundleManifest := Eval vm_compute in parsed_or ManifestTheorems.Example.legacy_payload.
Definition bundle : InstalledBundle := mkBundle "org.policy" "policy" "0.3" "m.json" legacy [].
Definition native : json := Eval vm_compute in default JNull (native_manifest legacy).

(** The experimental manifest has no components: the native manifest of such a one, with an
    API range, is refused. *)
Definition bare : BundleManifest :=
  mkManifest "org.bare" "1" ">=0" [] no_activation "0.3-experimental" "scheduler_policy"
    (mkHost "vllm" "vllm" ">=0" (Some ">=1")) DEFAULT_RUNTIME "vllm" [] [mkCarrier "controller" [("a", JNull)]] [] [] [].
Lemma bare_native_refused : parse_manifest (default JNull (native_manifest bare)) = Raise ManifestError.
Proof. vm_compute. reflexivity. Qed.

Lemma native_manifest_exact_witness : parse_manifest native = Ok (native_of legacy ">=1,<2").
Proof.
  apply (native_manifest_exact legacy _ native); [|vm_compute; reflexivity|].
  - apply (parse_manifest_Ok ManifestTheorems.Example.legacy_payload); [|vm_compute; reflexivity].
    apply unique_keys_obj. split; [apply (bool_decide_unpack _); vm_compute; exact Logic.I|].
    repeat constructor; apply (bool_decide_unpack _); vm_compute; exact Logic.I.
  - exists ">=1,<2". split_and!; [reflexivity|by exists ">=1,<2"|discriminate|reflexivity].
Defined.

Definition settings : list (string * json) :=
  [("environment", JObj [("A", JStr "7")]); ("launch_options", JObj [("scheduler_reserve_output_budget", JBool true)])].
Definition the_plan : ProviderPlan :=
  match vllm_plan legacy settings true with Ok p => p | Raise _ => mkPlan "" "" [] [] [] [] end.

Lemma the_environment : json_get "environment" (generated_config the_plan) = JObj [("A", JStr "7"); ("B", JStr "2")].
Proof. vm_compute. reflexivity. Qed.
Lemma undeclared_refused : vllm_plan legacy [("environment", JObj [("PATH", JStr "x")])] true = Raise CoreValueError.
Proof. vm_compute. reflexivity. Qed.


Lemma builtin_plans_granted_witness :
  ∀ plan, plan_for _builtin_providers [] false bundle (mkExtension true []) = Ok plan →
    Forall (λ a, mutating a = false) (actions plan) ∧ plan_claims plan = [] ∧ plan_extension plan = "org.policy" ∧
    plan_provider plan = "vllm".
Proof. refine (proj2 (builtin_plans_granted [] false bundle (mkExtension true []) VllmProvider _ _)); reflexivity. Defined.

Definition store_config : list (string * json) :=
  [("health_url", JStr "http://store"); ("connector_operation_evidence",
    JObj [("lookup_exists_ok", JInt 3); ("save_put_ok", JInt 1); ("load_get_ok", JFloat "2.0"); ("failed_keys", JInt 0)])].
Definition store_check : ProviderCheck :=
  match mooncake_check bare store_config with Ok c => c | Raise _ => mkCheck None false None None false [] end.

Lemma healthy_is_observed_witness : operations_not_failed store_config.
Proof.
  destruct (healthy_is_observed "mooncake" MooncakeProvider bare store_config store_check)
    as [(_ & H & _)|[E _]]; [reflexivity|vm_compute; reflexivity|vm_compute; reflexivity|exact H|discriminate E].
Defined.

Definition digest : string := Eval vm_compute in sha256_hexdigest "a mod".
Definition research : BundleManifest :=
  mkManifest "org.mod" "1" ">=0" [] (mkActivation [] [] [("stateaxis_mod",
      JObj [("mod_id", JStr "m"); ("version", JStr "1"); ("manifest_sha256", JStr digest);
            ("performance_qualified", JBool false)])]) "0.3-experimental" "scheduler_policy"
    (mkHost "stateaxis" "stateaxis" ">=0" None) DEFAULT_RUNTIME "user" [] [mkCarrier "controller" [("a", JNull)]] [] [] [].
Definition experiment : list (string * json) :=
  [("experiment_mode", JBool true); ("research_manifest_path", JStr "mod.json")].
Definition experiment_check : ProviderCheck :=
  match stateaxis_check research experiment with Ok c => c | Raise _ => mkCheck None false None None false [] end.

Lemma unqualified_not_configured : match stateaxis_check research [] with Ok c => configured c | Raise _ => true end = false.
Proof. vm_compute. reflexivity. Qed.

Lemma stateaxis_configured_verified_witness :
  ∃ binding path bytes, _mod_binding research = Ok binding ∧ json_get "research_manifest_path" experiment = JStr path ∧
    research_file path = Some (Some bytes) ∧ sha256_hexdigest bytes = mod_digest binding.
Proof.
  destruct (stateaxis_configured_verified research experiment experiment_check)
    as (b & p & s & H1 & H2 & H3 & H4 & _); [vm_compute; reflexivity|vm_compute; reflexivity|by exists b, p, s].
Defined.
End Example.
