(* ===== verification/CommandLine.v ===== *)
(** * The commands of the extension manager

    [src/vllm_hust_ext/cli.py]: which extensions may be enabled together, the command line
    and the environment a host is launched with, and the commands that inspect, enable,
    disable, forget, configure and run.  What is installed, the configuration, the evidence
    file and the process environment are arguments; printing and argument parsing are left
    out, as are the bytes [save_config] writes (they are in [ExtensionConfig]). *)

From S2P Require Import Prelude PyStd JsonText JsonRoundTrip ContractParse HostEvidence Manifest Capabilities ExtensionConfig Discovery RuntimeEvidence Catalog ExtensionCore VllmProvider.

Local Open Scope string_scope.
Local Open Scope list_scope.

(** [Refused]: a [ValueError] or an [OSError], which [main] reports.  [Crashed]: an exception
    of another part that may be neither.  [Exhausted]: the search for cycles had too little
    fuel, which never happens. *)
Inductive cli_exn : Type := Refused | Crashed | Exhausted.

Definition reject {A} : result cli_exn A := Raise Refused.
Definition reject_if (b : bool) : result cli_exn () := raise_if b Refused.

Definition translate {E A} (f : E → cli_exn) (r : result E A) : result cli_exn A :=
  match r with Ok a => Ok a | Raise e => Raise (f e) end.
Definition of_discovery {A} : result discovery_exn A → result cli_exn A :=
  translate (λ e, match e with DiscoveryError | OSError => Refused | Escaped => Crashed end).
Definition of_core {A} : result core_exn A → result cli_exn A :=
  translate (λ e, match e with CoreValueError => Refused | ProviderRaises => Crashed end).
Definition of_runtime {A} : result runtime_exn A → result cli_exn A :=
  translate (λ e, match e with
                  | RuntimeValueError | RuntimeOSError => Refused
                  | RuntimeTypeError | RuntimeAttributeError => Crashed
                  end).
Definition of_manifest {A} : result manifest_exn A → result cli_exn A :=
  translate (λ e, match e with ManifestError | ValueError => Refused | TypeError => Crashed end).
Definition of_status {A} : result (core_exn + runtime_exn) A → result cli_exn A :=
  translate (λ e, match e with
                  | inl CoreValueError => Refused
                  | inr (RuntimeValueError | RuntimeOSError) => Refused
                  | _ => Crashed
                  end).

(** [json.loads]: each of its errors is a [ValueError]. *)
Definition parse_json {F : FloatText} (text : string) : result cli_exn json :=
  translate (λ _, Refused) (loads_text (E := ()) plain_hook plain_constant text).

(** ** Plugins and the environment *)

Definition _VLLM_BUILTIN_PLUGIN : string := "ascend".

Definition _comma_separated_names (value : option string) : list string :=
  filter (λ s, s ≠ "") (strip <$> split_char 44 (default "" value)).

(** The owners so far and the names in order. *)
Definition claim_plugin (id : string) (acc : list (string * string) * list string) (name : string)
    : result cli_exn (list (string * string) * list string) :=
  let '(owners, names) := acc in
  match od_get name owners with
  | Some owner => _ ← reject_if (negb (bool_decide (owner = id))); Ok acc
  | None => Ok (od_set name id owners, names ++ [name])
  end.
Definition claim_plugins (acc : list (string * string) * list string) (b : InstalledBundle)
    : result cli_exn (list (string * string) * list string) :=
  foldR (claim_plugin (ib_id b)) acc (declared_vllm_plugin_names (manifest b)).
Definition _declared_vllm_plugins (bundles : list InstalledBundle) : result cli_exn (list string) :=
  acc ← foldR claim_plugins ([], []) (sort_on ib_id bundles);
  Ok acc.2.

Definition environment_entry (environment : list (string * string)) (item : string * json)
    : result cli_exn (list (string * string)) :=
  match item.2 with
  | JStr v =>
      _ ← reject_if (match od_get item.1 environment with Some w => negb (bool_decide (w = v)) | None => false end);
      Ok (od_set item.1 v environment)
  | _ => reject
  end.
Definition planned_environments (plans : list ProviderPlan) : list (string * json) :=
  dict_of ((λ p, (plan_extension p, get_or (JObj []) "environment" (generated_config p))) <$> plans).
Definition add_environment (plans : list ProviderPlan) (environment : list (string * string)) (b : InstalledBundle)
    : result cli_exn (list (string * string)) :=
  let own := JObj ((λ p, (p.1, JStr p.2)) <$> ac_environment (activation (manifest b))) in
  match default own (od_get (ib_id b) (planned_environments plans)) with
  | JObj items => foldR environment_entry environment items
  | _ => reject
  end.

(** [VLLM_PLUGINS]: what the caller and the bundles ask for, the built-in plugin, the
    plugins of the bundles. *)
Definition plugin_list (os_plugins own : option string) (activated : list string) : string :=
  let names := _comma_separated_names os_plugins ++ _comma_separated_names own in
  let names := if among names _VLLM_BUILTIN_PLUGIN then names else names ++ [_VLLM_BUILTIN_PLUGIN] in
  join "," (fromkeys [] (names ++ activated)).

Definition _activation_environment (bundles : list InstalledBundle) (plans : list ProviderPlan)
    (os_plugins : option string) : result cli_exn (list (string * string)) :=
  environment ← foldR (add_environment plans) [] bundles;
  activated ← _declared_vllm_plugins bundles;
  let environment :=
    if bool_decide (activated = []) then environment
    else od_set "VLLM_PLUGINS" (plugin_list os_plugins (od_get "VLLM_PLUGINS" environment) activated)
           (filter (λ p, p.1 ≠ "VLLM_PLUGINS") environment) in
  Ok (od_set "VLLMHUST_EXT_ENABLED_BUNDLES" (join "," (ib_id <$> bundles)) environment).

Definition config_entry (merged : list (string * json)) (item : string * json) : result cli_exn (list (string * json)) :=
  _ ← reject_if (match od_get item.1 merged with Some w => negb (json_eqb w item.2) | None => false end);
  Ok (od_set item.1 item.2 merged).
Definition _activation_config (bundles : list InstalledBundle) : result cli_exn (list (string * json)) :=
  foldR config_entry [] (bundles ≫= λ b, ac_additional_config (activation (manifest b))).

(** ** Which bundles go together *)

Definition owns_stateaxis_process (b : InstalledBundle) : bool :=
  bool_decide (host_provider (host (manifest b)) = "stateaxis") &&
  bool_decide (process_scope (runtime (manifest b)) = "stateaxis_processes") &&
  bool_decide (rt_isolation (runtime (manifest b)) = "trusted_in_process").
Definition _validate_process_ownership (bundles : list InstalledBundle) : result cli_exn () :=
  reject_if (1 <? length (filter (λ b, Is_true (owns_stateaxis_process b)) bundles))%nat.

Definition claim_plan (b : InstalledBundle) : ProviderPlan :=
  mkPlan (ib_id b) (host_provider (host (manifest b))) [] [] [] (resource_claims (manifest b)).
Definition _validate_resource_ownership (bundles : list InstalledBundle) : result cli_exn () :=
  of_core (reject_conflicting_plans (claim_plan <$> bundles)).

(** Whether a manifest's version lies in a range; what does not parse is a [ValueError]. *)
Definition in_version_range {PV : Pep440} (v range : string) : bool :=
  match Version v, SpecifierSet range with Some v, Some s => contains s v | _, _ => false end.

Definition dependencies (b : InstalledBundle) : list RequiredExtension := requires_extensions (manifest b).
Definition selected_bundles (bundles : list InstalledBundle) : list (string * InstalledBundle) :=
  dict_of ((λ b, (ib_id b, b)) <$> bundles).
Definition dependency_edges (bundles : list InstalledBundle) : list (string * list string) :=
  dict_of ((λ b, (ib_id b, rx_id <$> dependencies b)) <$> bundles).

Definition check_dependency {PV : Pep440} (selected : list (string * InstalledBundle)) (d : RequiredExtension)
    : result cli_exn () :=
  match od_get (rx_id d) selected with
  | None => reject
  | Some required => reject_if (negb (in_version_range (bundle_version (manifest required)) (rx_range d)))
  end.

Section visit.
Context (edges : list (string * list string)).

Definition successors (id : string) : list string := default [] (od_get id edges).

(** A loop over identifiers that stops at an exception. *)
Fixpoint visit_each (go : list string → string → option (result cli_exn (list string))) (visited ids : list string)
    : option (result cli_exn (list string)) :=
  match ids with
  | [] => Some (Ok visited)
  | id :: ids =>
      match go visited id with
      | Some (Ok visited) => visit_each go visited ids
      | r => r
      end
  end.

(** [visit]: the visited identifiers; [None] when the fuel is used up. *)
Fixpoint visit (fuel : nat) (visiting visited : list string) (id : string) {struct fuel}
    : option (result cli_exn (list string)) :=
  match fuel with
  | O => None
  | S fuel =>
      if among visiting id then Some reject
      else if among visited id then Some (Ok visited)
      else match visit_each (visit fuel (visiting ++ [id])) visited (successors id) with
           | Some (Ok visited) => Some (Ok (id :: visited))
           | r => r
           end
  end.
End visit.

Definition _validate_extension_dependencies {PV : Pep440} (bundles : list InstalledBundle) : result cli_exn () :=
  _ ← forR (λ b, forR (check_dependency (selected_bundles bundles)) (dependencies b)) bundles;
  let edges := dependency_edges bundles in
  match visit_each (visit edges (S (length edges)) []) [] (sort_on (λ s : string, s) edges.*1) with
  | Some (Ok _) => Ok ()
  | Some (Raise e) => Raise e
  | None => Raise Exhausted
  end.

Definition depends_on (id : string) (b : InstalledBundle) : bool :=
  existsb (λ d, bool_decide (rx_id d = id)) (dependencies b).
Definition _validate_dependency_removal (id : string) (bundles : list InstalledBundle) : result cli_exn () :=
  reject_if (existsb (λ b, negb (bool_decide (ib_id b = id)) && depends_on id b) bundles).

(** ** The command line of the host *)

Section command.
Context {F : FloatText}.

(** The value of an option, [--option value] or [--option=value], rewritten by [f]; at the
    end of the command [last]. *)
Fixpoint with_option (option : string) (f : string → result cli_exn string) (last : list string) (command : list string)
    : result cli_exn (list string) :=
  match command with
  | [] => Ok last
  | argument :: rest =>
      if bool_decide (argument = option) then
        match rest with
        | [] => reject
        | value :: rest => value ← f value; Ok (argument :: value :: rest)
        end
      else if starts_with (option +:+ "=") argument then
        value ← f (drop_chars (String.length (option +:+ "=")) argument);
        Ok ((option +:+ "=" +:+ value) :: rest)
      else rest ← with_option option f last rest; Ok (argument :: rest)
  end.

Definition ADDITIONAL_CONFIG : string := "--additional-config".
Definition merged_config (activation : list (string * json)) (raw : string) : result cli_exn string :=
  parsed ← parse_json raw;
  match parsed with
  | JObj existing =>
      _ ← reject_if (existsb (λ p, match assoc p.1 existing with Some w => negb (json_eqb w p.2) | None => false end) activation);
      Ok (dumps true (JObj (update existing activation)))
  | _ => reject
  end.
Definition _merge_command_config (command : list string) (activation : list (string * json))
    : result cli_exn (list string) :=
  if bool_decide (activation = []) then Ok command
  else with_option ADDITIONAL_CONFIG (merged_config activation)
         [ADDITIONAL_CONFIG; dumps true (JObj (update [] activation))] command.

Definition _merge_scalar_option (command : list string) (option generated : string) : result cli_exn (list string) :=
  with_option option (λ value, if bool_decide (value = generated) then Ok value else reject) [option; generated] command.
Definition _merge_json_option (command : list string) (option : string) (generated : list (string * json))
    : result cli_exn (list string) :=
  with_option option
    (λ value, existing ← parse_json value; if json_eqb existing (JObj generated) then Ok value else reject)
    [option; dumps true (JObj generated)] command.

(** ** The plan of a provider *)

Definition connector_action (a : PlanAction) : bool :=
  bool_decide (operation a = "render_connector_config") && json_eqb (action_target a) (JStr "vllm") && negb (mutating a).

Definition merge_json_options (command : list string) (options : list (string * json)) : result cli_exn (list string) :=
  foldR (λ command p,
           match p.2 with
           | JObj value =>
               if among [ADDITIONAL_CONFIG; "--batch-admission-policy-config"; "--speculative-config"] p.1
               then _merge_json_option command p.1 value else reject
           | _ => reject
           end) command options.
Definition merge_scalar_options (command : list string) (options : list (string * json)) : result cli_exn (list string) :=
  foldR (λ command p,
           match p.2 with
           | JStr value =>
               if among ["--batch-admission-policy"; "--preemption-policy"] p.1
               then _merge_scalar_option command p.1 value else reject
           | _ => reject
           end) command options.
Definition merge_flags (command : list string) (flags : list json) : result cli_exn (list string) :=
  foldR (λ command v,
           match v with
           | JStr option =>
               if bool_decide (option = "--scheduler-reserve-output-budget")
               then Ok (if among command option then command else command ++ [option]) else reject
           | _ => reject
           end) command flags.

Definition object_at (k : string) (kv : list (string * json)) : result cli_exn (list (string * json)) :=
  match get_or (JObj []) k kv with JObj o => Ok o | _ => reject end.

Definition _merge_provider_plan (command : list string) (plan : ProviderPlan) : result cli_exn (list string) :=
  let generated := generated_config plan in
  match json_get "kv_transfer_config" generated with
  | JNull =>
      if bool_decide (plan_provider plan = "stateaxis") then
        additional ← object_at "stateaxis_additional_config" generated;
        _ ← reject_if (negb (has_exactly ["experiment_mode"] additional));
        _ ← reject_if (negb (is_true (json_get "experiment_mode" additional)));
        _merge_command_config command additional
      else
        _ ← reject_if (negb (bool_decide (plan_provider plan = "vllm")));
        json_options ← object_at "vllm_json_options" generated;
        command ← merge_json_options command json_options;
        scalar_options ← object_at "vllm_options" generated;
        command ← merge_scalar_options command scalar_options;
        match get_or (JArr []) "vllm_flags" generated with
        | JArr flags => merge_flags command flags
        | _ => reject
        end
  | JObj kv_transfer_config =>
      _ ← reject_if (negb (length (filter (λ a, Is_true (connector_action a)) (actions plan)) =? 1)%nat);
      _merge_json_option command "--kv-transfer-config" kv_transfer_config
  | _ => reject
  end.
End command.

(** ** The commands *)

(** What the host is run with: command, environment, and the native manifests written to a
    directory of their own. *)
Record Launch : Type := mkLaunch {
  la_command : list string; la_environment : list (string * string); la_files : list (string * string);
}.
Inductive Outcome : Type :=
  | DryRun (command : list string) (environment : list (string * string)) (natives : list (string * json))
  | Supervise (launch : Launch).

Section cli.
Context {F : FloatText} {PV : Pep440} {HA : HostApi} {W : WordChars} {FS : FileSystem} {UR : Urls} {U : UnicodeInt}
  {H : Host}.
(** The providers, the installed entry points, the evidence file. *)
Context (builtins : list (string * HostProvider)) (providers : list ProviderEntry).
Context (registrations every : list EntryPoint) (evidence : option string).

Definition discover (ids : list string) : result cli_exn (list InstalledBundle) :=
  of_discovery (discover_bundles (Some ids) registrations every).
Definition discover_one (id : string) : result cli_exn InstalledBundle :=
  bundles ← discover [id];
  match bundles with b :: _ => Ok b | [] => Raise Crashed end.
Definition enabled_bundles (config : UserConfig) : result cli_exn (list InstalledBundle) :=
  match enabled_extensions config with [] => Ok [] | ids => discover ids end.

(** *** Changing the configuration *)

(** [tuple(sorted(enabled | {id}))] *)
Definition prospective (id : string) (config : UserConfig) : list string :=
  sort_on (λ s : string, s) (remove_dups (id :: enabled_extensions config)).

Definition blocked (b : InstalledBundle) : result cli_exn () :=
  blocker ← of_manifest (Manifest.activation_blocker (manifest b));
  reject_if (bool_decide (is_Some blocker)).

Definition cmd_enable (id : string) (config : UserConfig) : result cli_exn UserConfig :=
  bundle ← discover_one id;
  _ ← blocked bundle;
  bundles ← discover (prospective id config);
  _ ← _validate_extension_dependencies bundles;
  _ ← _validate_process_ownership bundles;
  _ ← _validate_resource_ownership bundles;
  Ok (with_extension id (mkExtension true (configuration (extension id config))) config).

Definition cmd_disable (id : string) (config : UserConfig) : result cli_exn UserConfig :=
  bundles ← enabled_bundles config;
  _ ← _validate_dependency_removal id bundles;
  Ok (with_extension id (mkExtension false (configuration (extension id config))) config).

Definition cmd_forget (id : string) (config : UserConfig) : result cli_exn UserConfig :=
  match od_get id config with
  | None => reject
  | Some stored =>
      _ ← reject_if (enabled stored);
      bundles ← enabled_bundles config;
      _ ← _validate_dependency_removal id bundles;
      Ok (without_extension id config)
  end.

(** [text]: the file with the new configuration, [None] where it cannot be read. *)
Definition cmd_configure (id : string) (text : option string) (config : UserConfig) : result cli_exn UserConfig :=
  _ ← discover [id];
  match text with
  | None => reject
  | Some text =>
      v ← parse_json text;
      match v with
      | JObj configuration => Ok (with_extension id (mkExtension (enabled (extension id config)) configuration) config)
      | _ => reject
      end
  end.

(** *** Listing *)

(** Why a bundle is not ready. *)
Inductive activation_obstacle : Type :=
  | Inactive (reason : string) | NotInstalled (id : string) | OutsideRange (id range found : string) | NotEnabled (id : string).
(** [_bundle_dict]: what it adds to the fields of the bundle and of its manifest, which it copies. *)
Record BundleView : Type := mkView {
  bv_bundle : InstalledBundle; bv_enabled : bool;
  bv_dependencies : list (RequiredExtension * option string * bool);
  bv_blocker : option activation_obstacle;
}.
Definition activation_ready (v : BundleView) : bool := bool_decide (bv_blocker v = None).

(** The first dependency that is not there; a version or a range that does not parse is a
    [ValueError]. *)
Fixpoint dependency_obstacle (enabled : list string) (installed : list (string * string)) (l : list RequiredExtension)
    : result cli_exn (option activation_obstacle) :=
  match l with
  | [] => Ok None
  | d :: l =>
      match od_get (rx_id d) installed with
      | None => Ok (Some (NotInstalled (rx_id d)))
      | Some found =>
          match Version found, SpecifierSet (rx_range d) with
          | Some v, Some range =>
              if negb (contains range v) then Ok (Some (OutsideRange (rx_id d) (rx_range d) found))
              else if negb (among enabled (rx_id d)) then Ok (Some (NotEnabled (rx_id d)))
              else dependency_obstacle enabled installed l
          | _, _ => reject
          end
      end
  end.

Definition _bundle_dict (enabled : list string) (installed_versions : list (string * string)) (b : InstalledBundle)
    : result cli_exn BundleView :=
  let installed := if bool_decide (installed_versions = []) then [(ib_id b, bundle_version (manifest b))] else installed_versions in
  blocker ← of_manifest (Manifest.activation_blocker (manifest b));
  obstacle ← match blocker with
             | Some reason => Ok (Some (Inactive reason))
             | None => dependency_obstacle enabled installed (dependencies b)
             end;
  Ok (mkView b (among enabled (ib_id b))
        ((λ d, (d, od_get (rx_id d) installed, among enabled (rx_id d))) <$> dependencies b) obstacle).

Definition installed_versions (inventory : list InstalledBundle) : list (string * string) :=
  dict_of ((λ b, (ib_id b, bundle_version (manifest b))) <$> inventory).
(** The views, and the identifiers that could not be discovered. *)
Definition cmd_list (config : UserConfig) : result cli_exn (list BundleView * list string) :=
  '(bundles, diagnostics) ← of_discovery (discover_bundle_inventory registrations every);
  views ← mapR (_bundle_dict (enabled_extensions config) (installed_versions bundles)) bundles;
  Ok (views, diagnostics).
Definition cmd_inspect (id : string) (config : UserConfig) : result cli_exn BundleView :=
  bundle ← discover_one id;
  '(bundles, _) ← of_discovery (discover_bundle_inventory registrations every);
  _bundle_dict (enabled_extensions config) (installed_versions bundles) bundle.

(** *** Inspecting *)

Definition status_of_bundle (config : UserConfig) (b : InstalledBundle) : result cli_exn ExtensionStatus :=
  of_status (status_for builtins providers true (runtime_effective_evidence (manifest b) evidence) b
               (extension (ib_id b) config)).
Definition plan_of (config : UserConfig) (b : InstalledBundle) : result cli_exn ProviderPlan :=
  of_core (plan_for builtins providers true b (extension (ib_id b) config)).

(** The bundle of [status], [check], [plan] and [render]. *)
Definition selected_bundle (id : string) (config : UserConfig) : result cli_exn InstalledBundle :=
  bundle ← discover_one id;
  bundles ← discover (prospective id config);
  _ ← _validate_extension_dependencies bundles;
  Ok bundle.
Definition cmd_status (id : string) (config : UserConfig) : result cli_exn ExtensionStatus :=
  bundle ← selected_bundle id config;
  status_of_bundle config bundle.
Definition cmd_plan (id : string) (config : UserConfig) : result cli_exn ProviderPlan :=
  bundle ← selected_bundle id config;
  plan_of config bundle.
Definition cmd_render (id : string) (config : UserConfig) : result cli_exn (list RenderArtifact) :=
  plan ← cmd_plan id config;
  of_core (render_plan builtins providers true plan).
Definition cmd_env (config : UserConfig) (os_plugins : option string) : result cli_exn (list (string * string)) :=
  bundles ← enabled_bundles config;
  _ ← _validate_extension_dependencies bundles;
  plans ← mapR (plan_of config) bundles;
  _ ← of_core (reject_conflicting_plans plans);
  _activation_environment bundles plans os_plugins.

(** *** [_run_command] *)

Definition has_state (s : LifecycleState) (st : ExtensionStatus) : bool := bool_decide (s ∈ states st).

Definition may_launch (b : InstalledBundle) (st : ExtensionStatus) : result cli_exn () :=
  let m := manifest b in
  _ ← reject_if (has_state INCOMPATIBLE st);
  _ ← reject_if (negb (bool_decide (filter (λ s, optional s = false) (requires_services m) = [])) &&
                 negb (has_state HEALTHY st));
  _ ← reject_if (among ["vllm"; "stateaxis"] (host_provider (host m)) &&
                 bool_decide (rt_isolation (runtime m) = "trusted_in_process") && negb (has_state COMPATIBLE st));
  reject_if (bool_decide (host_provider (host m) = "stateaxis") && negb (has_state CONFIGURED st)).
Definition check_launch (config : UserConfig) (b : InstalledBundle) : result cli_exn () :=
  _ ← blocked b;
  st ← status_of_bundle config b;
  may_launch b st.

(** The command after [--], ["vllm"] where none is given. *)
Definition target_command (arguments : list string) : result cli_exn (list string) :=
  let command := match arguments with [] => ["vllm"] | _ => arguments end in
  let command := match command with "--" :: rest => rest | _ => command end in
  _ ← reject_if (bool_decide (command = []));
  Ok command.

Definition native_manifests (plans : list ProviderPlan) : list (string * json) :=
  omap (M := list) (λ p, v ← assoc "native_extension_manifest" (generated_config p); Some (plan_extension p, v)) plans.
Definition manifest_files (directory : string) (natives : list (string * json)) : list (string * string) :=
  imap (λ i p, (directory +:+ "/" +:+ pretty i +:+ "-manifest.json", dumps_indented 0 p.2)) natives.

(** [dict.update] *)
Definition overlay (d d' : list (string * string)) : list (string * string) := foldl (λ d p, od_set p.1 p.2 d) d d'.

Definition launch_plans (config : UserConfig) (bundles : list InstalledBundle) (command : list string)
    : result cli_exn (list string * list ProviderPlan) :=
  additional ← _activation_config bundles;
  command ← _merge_command_config command additional;
  plans ← mapR (plan_of config) bundles;
  _ ← of_core (reject_conflicting_plans plans);
  command ← foldR _merge_provider_plan command plans;
  Ok (command, plans).

Definition run_environment (environ activation : list (string * string)) (bundles : list InstalledBundle)
    (natives : list (string * json)) (launch_id evidence_path directory : string)
    : result cli_exn (list (string * string)) :=
  _ ← reject_if (negb (bool_decide (natives = [])) &&
                 (among environ.*1 "VLLM_EXTENSION_MANIFESTS" || among environ.*1 "VLLM_EXTENSION_BUNDLES"));
  binding ← (if bool_decide (bundles = []) then Ok []
             else of_runtime (launch_environment environ.*1 launch_id evidence_path bundles));
  let environment := overlay (overlay environ activation) binding in
  Ok (if bool_decide (natives = []) then environment
      else od_set "VLLM_EXTENSION_BUNDLES" (join "," natives.*1)
             (od_set "VLLM_EXTENSION_MANIFESTS" (join ":" (manifest_files directory natives).*1) environment)).

Definition _run_command (config : UserConfig) (arguments : list string) (dry_run : bool)
    (environ : list (string * string)) (launch_id evidence_path directory : string) : result cli_exn Outcome :=
  bundles ← enabled_bundles config;
  _ ← _validate_extension_dependencies bundles;
  _ ← _validate_process_ownership bundles;
  _ ← forR (check_launch config) bundles;
  command ← target_command arguments;
  '(command, plans) ← launch_plans config bundles command;
  activation ← _activation_environment bundles plans (od_get "VLLM_PLUGINS" environ);
  let natives := native_manifests plans in
  if (dry_run : bool) then Ok (DryRun command activation (dict_of natives))
  else
    environment ← run_environment environ activation bundles natives launch_id evidence_path directory;
    Ok (Supervise (mkLaunch command environment (manifest_files directory natives))).
End cli.

(** *** The catalog *)

Definition catalog_entries (catalog : object) : list object :=
  omap (M := list) (λ v, match v with JObj kv => Some kv | _ => None end)
    (match json_get "extensions" catalog with JArr l => l | _ => [] end).
Definition listed_entries (include_preview : bool) (catalog : object) : list object :=
  filter (λ e, Is_true (include_preview || negb (json_eqb (json_get "availability" e) (JStr "preview"))))
    (catalog_entries catalog).
Definition inspected_entry (id : string) (catalog : object) : result cli_exn object :=
  match find (λ e, json_eqb (json_get "id" e) (JStr id)) (catalog_entries catalog) with
  | Some e => Ok e
  | None => reject
  end.
