(* ===== verification/CommandTheorems.v ===== *)
(** * Theorems about the commands of the extension manager *)

From S2P Require Import Prelude PyStd JsonText JsonRoundTrip ContractParse HostEvidence Manifest ManifestTheorems Capabilities ExtensionConfig Discovery DiscoveryTheorems RuntimeEvidence Catalog ExtensionCore ExtensionCoreTheorems VllmProvider StateAxisProvider MooncakeProvider ProductionStackProvider BuiltinProviders CommandLine.

Local Open Scope string_scope.
Local Open Scope list_scope.

Lemma reject_if_Ok b u : reject_if b = Ok u ↔ b = false.
Proof. apply raise_if_Ok. Qed.

(** ** The search for cycles *)

Lemma grounded_acyclic {A} (E : relation A) x : Acc (flip E) x → ¬ tc E x x.
Proof.
  induction 1 as [x _ IH]. intros Hx. inversion Hx as [? ? Hxx|? y ? Hxy Hyx]; subst.
  - by apply (IH x).
  - apply (IH y Hxy). by eapply tc_r.
Qed.

Section search.
Context (edges : list (string * list string)) (ids : list string).
Notation E := (λ x y, y ∈ successors edges x).
Context (Hclosed : ∀ x y, x ∈ ids → E x y → y ∈ ids).

(** What a search from [l] does: it adds identifiers from which no path is infinite, among
    them [l], or it found a cycle. *)
Definition searched (visited l : list string) (r : option (result cli_exn (list string))) : Prop :=
  match r with
  | Some (Ok visited') => l ⊆ visited' ∧ visited ⊆ visited' ∧ ∀ v, v ∈ visited' → Acc (flip E) v
  | Some (Raise e) => e = Refused ∧ ∃ x, tc E x x
  | None => False
  end.

Lemma searched_each go visited l :
  (∀ visited id, (∀ v, v ∈ visited → Acc (flip E) v) → id ∈ l → searched visited [id] (go visited id)) →
  (∀ v, v ∈ visited → Acc (flip E) v) →
  searched visited l (visit_each go visited l).
Proof.
  revert visited. induction l as [|id l IH]; intros visited Hgo Hv; cbn [visit_each].
  { split_and!; [set_solver|done|done]. }
  pose proof (Hgo visited id Hv ltac:(by left)) as H. destruct (go visited id) as [[visited'|e]|]; [|done..].
  destruct H as (Hid & Hsub & Hv'). specialize (IH visited' ltac:(intros; apply Hgo; [done|by right]) Hv').
  destruct (visit_each go visited' l) as [[visited''|e]|]; [|done..].
  destruct IH as (? & ? & ?). split_and!; [set_solver..|done].
Qed.

Lemma searched_visit fuel visiting visited id :
  NoDup visiting → visiting ⊆ ids → id ∈ ids → (∀ x, x ∈ visiting → tc E x id) →
  length ids < length visiting + fuel →
  (∀ v, v ∈ visited → Acc (flip E) v) →
  searched visited [id] (visit edges fuel visiting visited id).
Proof.
  revert visiting visited id. induction fuel as [|fuel IH]; intros visiting visited id Hn Hsub Hid Hpath Hfuel Hv; cbn [visit].
  { pose proof (submseteq_length _ _ (NoDup_submseteq _ _ Hn Hsub)). lia. }
  destruct (among visiting id) eqn:Hvi.
  { apply among_spec in Hvi. split; [done|]. exists id. by apply Hpath. }
  destruct (among visited id) eqn:Hvd.
  { apply among_spec in Hvd. split_and!; [set_solver|done|done]. }
  assert (id ∉ visiting) as Hnew by (intros ?%among_spec; congruence).
  assert (searched visited (successors edges id) (visit_each (visit edges fuel (visiting ++ [id])) visited (successors edges id))) as H.
  { apply searched_each; [|done]. intros visited' y Hv' Hy. apply IH; [..|done].
    - apply NoDup_app. split_and!; [done|set_solver|apply NoDup_singleton].
    - set_solver.
    - by apply (Hclosed id).
    - intros x [Hx| ->%list_elem_of_singleton]%elem_of_app; [by eapply tc_r; [apply Hpath|]|by apply tc_once].
    - rewrite length_app. cbn [length]. lia. }
  destruct (visit_each _ visited (successors edges id)) as [[visited'|e]|]; [|done..].
  destruct H as (Hs & ? & Hv'). split_and!; [set_solver..|]. intros v [->|?]%elem_of_cons; [|by apply Hv'].
  constructor. intros y Hy. apply Hv', Hs, Hy.
Qed.

(** The loop over all identifiers. *)
Lemma search_complete fuel l :
  l ⊆ ids → length ids < fuel → searched [] l (visit_each (visit edges fuel []) [] l).
Proof.
  intros Hl Hfuel. apply searched_each; [|by intros ? ?%elem_of_nil]. intros visited id Hv Hid.
  apply searched_visit; [constructor|set_solver|by apply Hl|by intros ? ?%elem_of_nil|cbn; lia|done].
Qed.
End search.

(** ** Dependencies *)

(** [x] requires [y] directly. *)
Definition requires (bundles : list InstalledBundle) (x y : string) : Prop :=
  ∃ b, b ∈ bundles ∧ ib_id b = x ∧ y ∈ rx_id <$> dependencies b.
(** Every dependency is selected, at a version of its range. *)
Definition satisfied {PV : Pep440} (bundles : list InstalledBundle) : Prop :=
  ∀ b d, b ∈ bundles → d ∈ dependencies b →
    ∃ r, r ∈ bundles ∧ ib_id r = rx_id d ∧ in_version_range (bundle_version (manifest r)) (rx_range d) = true.

Section dependencies.
Context {PV : Pep440} (bundles : list InstalledBundle) (Hn : NoDup (ib_id <$> bundles)).

Lemma dict_by_id {A} (f : InstalledBundle → A) id v :
  od_get id (dict_of ((λ b, (ib_id b, f b)) <$> bundles)) = Some v ↔ ∃ b, b ∈ bundles ∧ ib_id b = id ∧ f b = v.
Proof.
  assert (((λ b, (ib_id b, f b)) <$> bundles).*1 = ib_id <$> bundles) as Hk by (rewrite <-list_fmap_compose; done).
  rewrite dict_of_NoDup_keys by (by rewrite Hk). split.
  - intros (b & [= -> ->] & Hb)%od_get_elem_of%list_elem_of_fmap. by exists b.
  - intros (b & Hb & <- & <-). apply od_get_NoDup; [by rewrite Hk|]. apply list_elem_of_fmap. by exists b.
Qed.

Lemma successors_requires x y : y ∈ successors (dependency_edges bundles) x ↔ requires bundles x y.
Proof.
  unfold successors, dependency_edges, requires. split.
  - destruct (od_get x _) as [l|] eqn:E; cbn [default]; [|by intros ?%elem_of_nil].
    apply dict_by_id in E as (b & ? & ? & <-). intros ?. by exists b.
  - intros (b & Hb & Hx & Hy). destruct (od_get x _) as [l|] eqn:E; cbn [default].
    + apply dict_by_id in E as (b' & Hb' & Hx' & <-). assert (b' = b) as -> by (eapply NoDup_fmap_elem; [exact Hn|done|done|congruence]). done.
    + apply eq_None_not_Some in E. destruct E. exists (rx_id <$> dependencies b). apply dict_by_id. by exists b.
Qed.

Lemma edges_keys : (dependency_edges bundles).*1 = ib_id <$> bundles.
Proof.
  unfold dependency_edges. rewrite dict_of_NoDup_keys; rewrite <-list_fmap_compose; done.
Qed.

Lemma dependencies_checked :
  forR (λ b, forR (check_dependency (selected_bundles bundles)) (dependencies b)) bundles = Ok () ↔ satisfied bundles.
Proof.
  rewrite forR_Ok. unfold satisfied. rewrite Forall_forall. setoid_rewrite forR_Ok. setoid_rewrite Forall_forall.
  assert (∀ d, check_dependency (selected_bundles bundles) d = Ok () ↔
     ∃ r, r ∈ bundles ∧ ib_id r = rx_id d ∧ in_version_range (bundle_version (manifest r)) (rx_range d) = true) as Hd.
  { intros d. unfold check_dependency, selected_bundles. destruct (od_get (rx_id d) _) as [r|] eqn:Er.
    - apply dict_by_id in Er as (r' & ? & ? & ->). rewrite reject_if_Ok, negb_false_iff. split; [by eauto|].
      intros (r'' & ? & Hr & ?). assert (r'' = r) as -> by (eapply NoDup_fmap_elem; [exact Hn|done|done|congruence]). done.
    - split; [done|]. intros (r & ? & ? & ?). apply eq_None_not_Some in Er. destruct Er. exists r. apply dict_by_id. by exists r. }
  setoid_rewrite Hd. naive_solver.
Qed.

Lemma dependencies_raise : raises_only (λ e, e = Refused)
  (forR (λ b, forR (check_dependency (selected_bundles bundles)) (dependencies b)) bundles).
Proof.
  apply raises_only_forR. intros b _. apply raises_only_forR. intros d _. unfold check_dependency.
  destruct (od_get _ _); [by apply raises_only_raise_if|by apply raises_only_Raise].
Qed.

Lemma requires_tc x y : tc (λ x y, y ∈ successors (dependency_edges bundles) x) x y ↔ tc (requires bundles) x y.
Proof. split; apply (tc_congruence id); intros ? ?; apply successors_requires. Qed.

(** The search for cycles, once every dependency is there. *)
Lemma dependency_search :
  satisfied bundles →
  match visit_each (visit (dependency_edges bundles) (S (length (dependency_edges bundles))) []) []
          (sort_on (λ s : string, s) (dependency_edges bundles).*1) with
  | Some (Ok _) => ∀ x, ¬ tc (requires bundles) x x
  | Some (Raise e) => e = Refused ∧ ∃ x, tc (requires bundles) x x
  | None => False
  end.
Proof.
  intros Hsat. rewrite edges_keys.
  pose proof (search_complete (dependency_edges bundles) (ib_id <$> bundles)) as H.
  specialize (H ltac:(intros x y _ (b & Hb & _ & (d & -> & Hd)%list_elem_of_fmap)%successors_requires;
    destruct (Hsat b d Hb Hd) as (r & Hr & <- & _); by apply list_elem_of_fmap_2)
    (S (length (dependency_edges bundles))) (sort_on (λ s : string, s) (ib_id <$> bundles))).
  specialize (H ltac:(intros x; by rewrite elem_of_sort_on)).
  specialize (H ltac:(rewrite <-edges_keys, length_fmap; lia)).
  destruct (visit_each _ _ _) as [[visited|e]|]; cbn [searched] in H; [|by setoid_rewrite requires_tc in H|done].
  destruct H as (Hsub & _ & Hacc). intros x Hx. apply (grounded_acyclic (λ x y, y ∈ successors (dependency_edges bundles) x) x).
  - apply Hacc, Hsub, elem_of_sort_on. assert (∃ y, requires bundles x y) as (y & b & Hb & <- & _) by (inversion Hx; by eexists).
    by apply list_elem_of_fmap_2.
  - by apply requires_tc.
Qed.

Lemma dependencies_Ok :
  _validate_extension_dependencies bundles = Ok () ↔ satisfied bundles ∧ ∀ x, ¬ tc (requires bundles) x x.
Proof.
  unfold _validate_extension_dependencies. cbv zeta. rewrite result_bind_Ok. split.
  - intros ([] & Hd%dependencies_checked & H). split; [done|]. pose proof (dependency_search Hd) as Hs.
    by destruct (visit_each _ _ _) as [[|]|].
  - intros [Hd Hacyclic]. exists (). split; [by apply dependencies_checked|]. pose proof (dependency_search Hd) as Hs.
    destruct (visit_each _ _ _) as [[|]|]; [done| |done]. destruct Hs as (_ & x & Hx). by destruct (Hacyclic x).
Qed.

Lemma dependencies_outcome :
  _validate_extension_dependencies bundles = Ok () ∨ _validate_extension_dependencies bundles = Raise Refused.
Proof.
  unfold _validate_extension_dependencies. cbv zeta. pose proof dependencies_raise as Hr. unfold raises_only in Hr.
  destruct (forR _ bundles) as [[]|e] eqn:Hd; cbn [mbind result_bind]; [|right; by rewrite (Hr e)].
  apply dependencies_checked in Hd. pose proof (dependency_search Hd) as Hs.
  destruct (visit_each _ _ _) as [[|e]|]; [by left| |done]. right. by destruct Hs as [-> _].
Qed.
End dependencies.

(** C14: For bundles with distinct identifiers the dependency check always ends: it
    accepts exactly when every required extension is among them at a version in the
    required range and no extension transitively requires itself, and otherwise raises
    ValueError; its depth-first search never runs out of fuel. *)
Theorem dependencies_accepted_exactly {PV : Pep440} (bundles : list InstalledBundle) :
  NoDup (ib_id <$> bundles) →
  (_validate_extension_dependencies bundles = Ok () ↔ satisfied bundles ∧ ∀ x, ¬ tc (requires bundles) x x) ∧
  (_validate_extension_dependencies bundles = Ok () ∨ _validate_extension_dependencies bundles = Raise Refused).
Proof. intros Hn. split; [by apply dependencies_Ok|by apply dependencies_outcome]. Qed.

(** ** Pairs of a list *)

Section pairs.
Context {A : Type} (R : A → A → Prop) (HR : ∀ a b, R a b → R b a).

Lemma FOP_Permutation l k : l ≡ₚ k → ForallOrdPairs R l → ForallOrdPairs R k.
Proof.
  induction 1 as [|x l k Hp IH|x y l|l k m _ IH1 _ IH2]; [done| | |by auto].
  - inversion 1; subst. constructor; [by rewrite <-Hp|by apply IH].
  - intros H. inversion H as [|? ? Hy Hl]; subst. apply Forall_cons in Hy as [Hyx Hy]. inversion Hl as [|? ? Hx Hl']; subst.
    constructor; [constructor; [by apply HR|done]|]. by constructor.
Qed.

Lemma FOP_sublist l k : sublist l k → ForallOrdPairs R k → ForallOrdPairs R l.
Proof.
  induction 1 as [|x l k Hs IH|x l k Hs IH]; [done| |].
  - inversion 1; subst. constructor; [|by apply IH]. apply Forall_forall. intros y Hy.
    apply (proj1 (Forall_forall _ k)); [done|]. by eapply sublist_subseteq.
  - inversion 1; subst. by apply IH.
Qed.

Lemma FOP_app l k : ForallOrdPairs R (l ++ k) → ForallOrdPairs R l.
Proof. apply FOP_sublist, sublist_inserts_r, reflexivity. Qed.
End pairs.

Lemma agree_FOP {K V} `{EqDecision K} (conflict : V → V → bool) (items : list (K * V)) :
  agree_pairwise conflict items ↔ ForallOrdPairs (λ p q, p.1 = q.1 → conflict p.2 q.2 = false) items.
Proof.
  unfold agree_pairwise. induction items as [|[k v] l IH].
  { split; [by constructor|]. by intros _ [|??]. }
  split.
  - intros H. constructor.
    + apply Forall_forall. intros [k' w] (mid & post & ->)%list_elem_of_split. cbn. intros <-.
      by apply (H [] k v mid w post).
    + apply IH. intros pre k' v' mid w post ->. by apply (H ((k, v) :: pre) k' v' mid w post).
  - inversion 1 as [|? ? Hv Hl]; subst. intros [|[] pre] k' v' mid w post; cbn [app].
    + intros [= <- <- ->]. rewrite Forall_app, Forall_cons in Hv. by apply Hv.
    + intros [= _ _ ->]. by eapply (proj2 IH Hl).
Qed.

(** ** What the commands keep *)

Section coherence.
Context {F : FloatText} {PV : Pep440} {HA : HostApi} {W : WordChars} {FS : FileSystem} {UR : Urls}.
Context (registrations every : list EntryPoint).

(** What every check of the command line asks of the bundles enabled together. *)
Record fit_together (bundles : list InstalledBundle) : Prop := {
  fit_dependencies : _validate_extension_dependencies bundles = Ok ();
  fit_processes : _validate_process_ownership bundles = Ok ();
  fit_resources : _validate_resource_ownership bundles = Ok ();
  fit_unblocked : Forall (λ b, blocked b = Ok ()) bundles;
}.

Lemma processes_Ok bundles :
  _validate_process_ownership bundles = Ok () ↔ (length (filter (λ b, Is_true (owns_stateaxis_process b)) bundles) ≤ 1)%nat.
Proof. unfold _validate_process_ownership. rewrite reject_if_Ok, Nat.ltb_ge. done. Qed.

Definition claims_agree (p q : (string * string) * string) : Prop := p.1 = q.1 → claims_conflict p.2 q.2 = false.

Lemma resources_Ok bundles :
  _validate_resource_ownership bundles = Ok () ↔ ForallOrdPairs claims_agree (claim_items (claim_plan <$> bundles)).
Proof.
  unfold _validate_resource_ownership, reject_conflicting_plans.
  assert (config_items (claim_plan <$> bundles) = []) as -> by (by induction bundles).
  assert (∀ r : result core_exn (), of_core (_ ← r; check_items values_differ [] []) = Ok () ↔ r = Ok ()) as ->
    by (by intros [[]|[]]).
  rewrite check_items_Ok, agree_last_pairwise, agree_FOP; [done|].
  unfold claims_conflict. intros a b c [? ?]%orb_false_iff [? ?]%orb_false_iff. by apply orb_false_iff.
Qed.

(** Fewer bundles still fit together when nothing they require is gone. *)
Lemma fit_fewer bundles bundles' :
  NoDup (ib_id <$> bundles) → bundles' ⊆+ bundles →
  (∀ b d, b ∈ bundles' → d ∈ dependencies b → rx_id d ∈ ib_id <$> bundles') →
  fit_together bundles → fit_together bundles'.
Proof.
  intros Hn [rest Hp]%submseteq_Permutation Hclosed [Hd Hw Hr Hb].
  assert (NoDup (ib_id <$> bundles')) as Hn' by (rewrite Hp, fmap_app in Hn; by apply NoDup_app in Hn as [? _]).
  assert (∀ b, b ∈ bundles' → b ∈ bundles) as Hin by (intros; rewrite Hp; set_solver).
  split.
  - apply dependencies_Ok in Hd as [Hsat Hacyclic]; [|done]. apply dependencies_Ok; [done|]. split.
    + intros b d Hb' Hdb. pose proof (Hclosed b d Hb' Hdb) as (r & Hr' & Hrb)%list_elem_of_fmap.
      destruct (Hsat b d (Hin b Hb') Hdb) as (r' & Hrb' & Hr'' & Hv).
      assert (r' = r) as -> by (eapply NoDup_fmap_elem; [exact Hn|done|by apply Hin|congruence]). by exists r.
    + intros x Hx. apply (Hacyclic x). revert Hx. apply (tc_congruence id). intros ? ? (b & ? & ?). exists b. split; [by apply Hin|done].
  - apply processes_Ok. apply processes_Ok in Hw. rewrite Hp, filter_app, length_app in Hw. lia.
  - apply resources_Ok. apply resources_Ok in Hr. eapply FOP_app.
    assert (claim_items (claim_plan <$> bundles) ≡ₚ claim_items (claim_plan <$> bundles') ++ claim_items (claim_plan <$> rest)) as Hc.
    { unfold claim_items. rewrite <-bind_app, <-fmap_app. by rewrite Hp. }
    eapply FOP_Permutation; [|exact Hc|done]. unfold claims_agree, claims_conflict. intros p q Hpq E.
    rewrite orb_comm. by apply Hpq.
  - rewrite Hp in Hb. by apply Forall_app in Hb as [? _].
Qed.

(** *** The enabled extensions of a configuration *)

Lemma enabled_iff config id :
  NoDup config.*1 → id ∈ enabled_extensions config ↔ enabled (extension id config) = true.
Proof.
  intros Hn. unfold enabled_extensions, extension. rewrite list_elem_of_fmap. split.
  - intros ([k e] & -> & [He Hin]%list_elem_of_filter). by rewrite (od_get_NoDup k e config Hn Hin).
  - destruct (od_get id config) as [e|] eqn:E; [|done]. cbn [default]. intros He. exists (id, e).
    split; [done|]. apply list_elem_of_filter. split; [done|by apply od_get_elem_of].
Qed.

Lemma enabled_NoDup config : NoDup config.*1 → NoDup (enabled_extensions config).
Proof. intros Hn. unfold enabled_extensions. eapply sublist_NoDup; [exact Hn|]. apply fmap_sublist, sublist_filter. Qed.

Lemma discovered_ids ids bundles :
  CommandLine.discover registrations every ids = Ok bundles ↔ Forall2 (λ id b, single registrations every id = Ok b) ids bundles.
Proof.
  unfold CommandLine.discover, of_discovery. rewrite <-discover_each. destruct (discover_bundles _ _ _) as [|[]]; split; cbn; congruence.
Qed.

Lemma discovered_names ids bundles : CommandLine.discover registrations every ids = Ok bundles → ib_id <$> bundles = ids.
Proof.
  intros H%discovered_ids. induction H as [|id b ids bundles Hb _ IH]; [done|]. rewrite fmap_cons, IH. f_equal.
  unfold single in Hb. destruct (registered id registrations); [done|]. apply result_bind_Ok in Hb as (? & _ & Hb).
  by apply load_bundle_id in Hb.
Qed.

Lemma discovered_member ids bundles b :
  CommandLine.discover registrations every ids = Ok bundles → b ∈ bundles ↔ ib_id b ∈ ids ∧ single registrations every (ib_id b) = Ok b.
Proof.
  intros Hd. pose proof (discovered_names _ _ Hd) as Hids. apply discovered_ids in Hd. split.
  - intros [i Hi]%list_elem_of_lookup. destruct (Forall2_lookup_r _ _ _ _ _ Hd Hi) as (id & Hid & Hs).
    assert (id = ib_id b) as ->; [|split; [by eapply list_elem_of_lookup_2|done]].
    assert ((ib_id <$> bundles) !! i = Some (ib_id b)) as E by (by rewrite list_lookup_fmap, Hi). rewrite Hids in E. congruence.
  - intros [[i Hi]%list_elem_of_lookup Hs]. destruct (Forall2_lookup_l _ _ _ _ _ Hd Hi) as (b' & Hb' & Hs').
    assert (b' = b) as -> by congruence. by eapply list_elem_of_lookup_2.
Qed.

Lemma enabled_discovered config bundles :
  enabled_bundles registrations every config = Ok bundles ↔
  CommandLine.discover registrations every (enabled_extensions config) = Ok bundles.
Proof.
  unfold enabled_bundles. destruct (enabled_extensions config) eqn:E; [|done]. rewrite discovered_ids.
  split; [by intros [= <-]|by inversion 1].
Qed.

(** A configuration the host could be run with, as far as the bundles go. *)
Definition accepted (config : UserConfig) : Prop :=
  NoDup config.*1 ∧ ∃ bundles, enabled_bundles registrations every config = Ok bundles ∧ fit_together bundles.

(** From bundles that fit together: any configuration that enables some of them, with all
    they require, is accepted. *)
Lemma accepted_from ids bundles config :
  NoDup ids → CommandLine.discover registrations every ids = Ok bundles → fit_together bundles →
  NoDup config.*1 → enabled_extensions config ⊆ ids →
  (∀ b d, b ∈ bundles → ib_id b ∈ enabled_extensions config → d ∈ dependencies b → rx_id d ∈ enabled_extensions config) →
  accepted config.
Proof.
  intros Hn Hd Hfit Hc Hsub Hclosed. split; [done|].
  assert (∃ bundles', CommandLine.discover registrations every (enabled_extensions config) = Ok bundles') as [bundles' Hd'].
  { setoid_rewrite discovered_ids. apply discovered_ids in Hd.
    clear Hclosed. induction (enabled_extensions config) as [|id l IH]; [by exists []|].
    destruct IH as [bs Hbs]; [set_solver|]. assert (id ∈ ids) as [i Hi]%list_elem_of_lookup by set_solver.
    destruct (Forall2_lookup_l _ _ _ _ _ Hd Hi) as (b & _ & Hb). exists (b :: bs). by constructor. }
  exists bundles'. split; [by apply enabled_discovered|].
  assert (∀ b, b ∈ bundles' → b ∈ bundles) as Hin.
  { intros b [Hb ?]%(discovered_member _ _ _ Hd'). apply (discovered_member _ _ _ Hd). split; [by apply Hsub|done]. }
  pose proof (discovered_names _ _ Hd) as Hids. pose proof (discovered_names _ _ Hd') as Hids'.
  eapply fit_fewer; [| | |done].
  - by rewrite Hids.
  - apply NoDup_submseteq; [|done]. apply (NoDup_fmap_1 ib_id). rewrite Hids'. by apply enabled_NoDup.
  - intros b d Hb Hdb. rewrite Hids'. apply (Hclosed b d); [by apply Hin| |done]. rewrite <-Hids'. by apply list_elem_of_fmap_2.
Qed.

(** The same extensions enabled. *)
Lemma accepted_same config config' :
  accepted config → NoDup config'.*1 →
  (∀ id, enabled (extension id config') = enabled (extension id config)) → accepted config'.
Proof.
  intros (Hn & bundles & Hb%enabled_discovered & Hfit) Hn' He.
  assert (∀ id, id ∈ enabled_extensions config' ↔ id ∈ enabled_extensions config) as Hids
    by (intros; by rewrite !enabled_iff, He).
  pose proof (discovered_names _ _ Hb) as Hnames.
  eapply (accepted_from (enabled_extensions config)); [by apply enabled_NoDup|exact Hb|done|done|by intros ? ?%Hids|].
  intros b d Hin _ Hd. apply Hids. pose proof (fit_dependencies _ Hfit) as [Hsat _]%dependencies_Ok;
    [|rewrite Hnames; by apply enabled_NoDup].
  destruct (Hsat b d Hin Hd) as (r & Hr & <- & _). rewrite <-Hnames. by apply list_elem_of_fmap_2.
Qed.

(** *** Each command *)

Inductive Command : Type :=
  | Enable (id : string) | Disable (id : string) | Forget (id : string)
  | Configure (id : string) (text : option string).

Definition execute (c : Command) (config : UserConfig) : result cli_exn UserConfig :=
  match c with
  | Enable id => cmd_enable registrations every id config
  | Disable id => cmd_disable registrations every id config
  | Forget id => cmd_forget registrations every id config
  | Configure id text => cmd_configure registrations every id text config
  end.
(** The configuration the next command loads: the one saved, or the old one after an error. *)
Definition next (config : UserConfig) (c : Command) : UserConfig :=
  match execute c config with
  | Ok config' => match parse_config (config_payload config') with Ok stored => stored | Raise _ => config' end
  | Raise _ => config
  end.

Lemma extension_with id e config k :
  extension k (with_extension id e config) = if decide (k = id) then e else extension k config.
Proof. unfold extension, with_extension. rewrite od_get_set. by case_decide. Qed.

Lemma get_without id (config : UserConfig) k : k ≠ id → od_get k (without_extension id config) = od_get k config.
Proof.
  intros Hk. unfold without_extension, UserConfig in *. induction config as [|[k' e] config IH]; [done|]. rewrite filter_cons.
  case_decide as Hd; cbn [fst] in Hd; cbn [od_get]; rewrite IH; [done|].
  subst k'. by rewrite decide_False.
Qed.

Lemma enable_fits id config config' :
  accepted config → cmd_enable registrations every id config = Ok config' → accepted config'.
Proof.
  intros (Hn & current & Hcur%enabled_discovered & Hfit) H. unfold cmd_enable in H.
  apply result_bind_Ok in H as (bundle & Hone & ([] & Hblk & (bundles & Hd & ([] & Hdep & ([] & Hproc & ([] & Hres & [= <-])
    %result_bind_Ok)%result_bind_Ok)%result_bind_Ok)%result_bind_Ok)%result_bind_Ok).
  assert (NoDup (with_extension id (mkExtension true (configuration (extension id config))) config).*1) as Hn'
    by (by apply od_set_NoDup).
  assert (∀ k, k ∈ prospective id config ↔ k = id ∨ k ∈ enabled_extensions config) as Hp.
  { intros k. unfold prospective. rewrite elem_of_sort_on, elem_of_remove_dups. set_solver. }
  assert (∀ k, k ∈ enabled_extensions (with_extension id (mkExtension true (configuration (extension id config))) config) ↔
    k ∈ prospective id config) as Hk.
  { intros k. rewrite Hp, !enabled_iff, extension_with by done. case_decide; naive_solver. }
  assert (NoDup (prospective id config)) as Hnp by (unfold prospective; rewrite sort_on_perm; apply NoDup_remove_dups).
  pose proof (discovered_names _ _ Hd) as Hnames.
  eapply (accepted_from (prospective id config) bundles); [done..| |done|by intros ? ?%Hk|].
  - split; [done..|]. apply Forall_forall. intros b [Hb Hs]%(discovered_member _ _ _ Hd).
    apply Hp in Hb as [Hb|Hb].
    + unfold CommandLine.discover_one in Hone. apply result_bind_Ok in Hone as (one & H1 & Hone).
      apply discovered_ids in H1. inversion H1 as [|? b1 ? ? Hs1 Hnil]; subst. inversion Hnil; subst. injection Hone as ->.
      congruence.
    + pose proof (fit_unblocked _ Hfit) as Hb'. rewrite Forall_forall in Hb'. apply Hb'. by apply (discovered_member _ _ _ Hcur).
  - intros b d Hb _ Hd'. apply Hk. apply dependencies_Ok in Hdep as [Hsat _]; [|by rewrite Hnames].
    destruct (Hsat b d Hb Hd') as (r & Hr & <- & _). rewrite <-Hnames. by apply list_elem_of_fmap_2.
Qed.

(** Nothing enabled but [id] itself requires [id]. *)
Lemma removal_safe id bundles b d :
  _validate_dependency_removal id bundles = Ok () → b ∈ bundles → ib_id b ≠ id → d ∈ dependencies b → rx_id d ≠ id.
Proof.
  intros H%reject_if_Ok Hb Hne Hd E. apply not_true_iff_false in H. apply H, existsb_exists. exists b.
  split; [by apply list_elem_of_In|]. apply andb_true_iff. split; [by apply negb_true_iff, bool_decide_eq_false|].
  apply existsb_exists. exists d. split; [by apply list_elem_of_In|]. by apply bool_decide_eq_true.
Qed.

Lemma disable_fits id config config' :
  accepted config → cmd_disable registrations every id config = Ok config' → accepted config'.
Proof.
  intros (Hn & current & Hcur%enabled_discovered & Hfit) H. unfold cmd_disable in H.
  apply result_bind_Ok in H as (bundles & Hb%enabled_discovered & ([] & Hrem & [= <-])%result_bind_Ok).
  assert (bundles = current) as -> by congruence.
  assert (NoDup (with_extension id (mkExtension false (configuration (extension id config))) config).*1) as Hn'
    by (by apply od_set_NoDup).
  assert (∀ k, k ∈ enabled_extensions (with_extension id (mkExtension false (configuration (extension id config))) config) ↔
    k ≠ id ∧ k ∈ enabled_extensions config) as Hk.
  { intros k. rewrite !enabled_iff, extension_with by done. case_decide; naive_solver. }
  pose proof (discovered_names _ _ Hcur) as Hnames.
  eapply (accepted_from (enabled_extensions config) current); [by apply enabled_NoDup|done..|by intros ? []%Hk|].
  intros b d Hin [Hne _]%Hk Hd. apply Hk. split; [by eapply removal_safe|].
  pose proof (fit_dependencies _ Hfit) as [Hsat _]%dependencies_Ok; [|rewrite Hnames; by apply enabled_NoDup].
  destruct (Hsat b d Hin Hd) as (r & Hr & <- & _). rewrite <-Hnames. by apply list_elem_of_fmap_2.
Qed.

Lemma forget_fits id config config' :
  accepted config → cmd_forget registrations every id config = Ok config' → accepted config'.
Proof.
  intros Ha H. unfold cmd_forget in H. destruct (od_get id config) as [stored|] eqn:E; [|done].
  apply result_bind_Ok in H as ([] & Hst%reject_if_Ok & (bundles & _ & ([] & _ & [= <-])%result_bind_Ok)%result_bind_Ok).
  eapply accepted_same; [done| |].
  - destruct Ha as [Hn _]. unfold without_extension. eapply sublist_NoDup; [exact Hn|]. apply fmap_sublist, sublist_filter.
  - intros k. unfold extension. destruct (decide (k = id)) as [->|Hne]; [|by rewrite get_without].
    rewrite E. cbn [default]. assert (od_get id (without_extension id config) = None) as ->; [|done].
    apply od_get_None. unfold without_extension. intros ([] & -> & [Hf _]%list_elem_of_filter)%list_elem_of_fmap. by apply Hf.
Qed.

Lemma configure_fits id text config config' :
  accepted config → cmd_configure registrations every id text config = Ok config' → accepted config'.
Proof.
  intros Ha H. unfold cmd_configure in H. apply result_bind_Ok in H as (_ & _ & H). destruct text as [text|]; [|done].
  apply result_bind_Ok in H as ([] & _ & H); try done. injection H as <-. eapply accepted_same; [done| |].
  - destruct Ha as [Hn _]. by apply od_set_NoDup.
  - intros k. rewrite extension_with. by case_decide; subst.
Qed.

(** Saving and loading changes nothing. *)
Lemma next_accepted config c : accepted config → accepted (next config c).
Proof.
  intros Ha. unfold next. destruct (execute c config) as [config'|] eqn:E; [|done].
  assert (accepted config') as Ha'.
  { destruct c; cbn [execute] in E; eauto using enable_fits, disable_fits, forget_fits, configure_fits. }
  destruct Ha' as [Hn' Ha']. rewrite parse_config_payload by done. eapply accepted_same; [by split| |].
  - unfold sorted_config. by rewrite sort_on_perm.
  - intros k. by rewrite get_sorted_config.
Qed.

(** C9: Any sequence of enable, disable, forget and configure commands, each on the
    configuration the one before saved (a refused one saves nothing), keeps the enabled
    extensions discoverable, unblocked, with their dependencies enabled at versions in
    range and acyclic, without two exclusive claims on one resource, and with at most
    one owner of the StateAxis processes. *)
Theorem enabled_set_stays_coherent (config : UserConfig) (commands : list Command) :
  NoDup config.*1 →
  (∃ bundles, enabled_bundles registrations every config = Ok bundles ∧ fit_together bundles) →
  ∃ bundles, enabled_bundles registrations every (foldl next config commands) = Ok bundles ∧ fit_together bundles.
Proof.
  intros Hn Hb. assert (accepted config) as Ha by done. clear Hn Hb. revert config Ha.
  induction commands as [|c commands IH]; intros config Ha; cbn [foldl]; [by destruct Ha|]. by apply IH, next_accepted.
Qed.
End coherence.

(** ** Launching *)

Lemma foldR_each {E A B} (f : B → A → result E B) b l b' :
  foldR f b l = Ok b' → Forall (λ x, ∃ a a', f a x = Ok a') l.
Proof.
  revert b. induction l as [|x l IH]; intros b; cbn [foldR]; [by constructor|].
  intros (c & Hc & H)%result_bind_Ok. constructor; [by exists b, c|by eapply IH].
Qed.

Lemma foldR_inv_in {E A B} (P : B → Prop) (f : B → A → result E B) b l b' :
  (∀ b x b', x ∈ l → P b → f b x = Ok b' → P b') → P b → foldR f b l = Ok b' → P b'.
Proof.
  revert b. induction l as [|x l IH]; intros b Hf Hb; cbn [foldR]; [by intros [= <-]|].
  intros (c & Hc & H)%result_bind_Ok. eapply (IH c); [by intros ? ? ? ?; apply Hf; right| |exact H].
  by eapply Hf; [left| |].
Qed.

Lemma translated_Ok {E A} (f : E → cli_exn) (r : result E A) a : translate f r = Ok a ↔ r = Ok a.
Proof. destruct r; cbn; split; congruence. Qed.

(** The provider of a built-in name is the built-in one. *)
Lemma provider_for_builtin builtins entries name include_external p q :
  provider_for builtins entries name include_external = Ok q → od_get name builtins = Some p → q = p.
Proof.
  unfold provider_for. cbv zeta. intros H E. rewrite E in H. destruct include_external; [|by injection H].
  by destruct (filter _ entries); simplify_eq.
Qed.

Lemma elem_of_when b s s' : s' ∈ when b s ↔ b = true ∧ s' = s.
Proof. destruct b; cbn; set_solver. Qed.
Lemma is_yes_true o : is_yes o = true → o = Some true.
Proof. by destruct o as [[]|]. Qed.

(** What a status that is not incompatible says was checked. *)
Lemma status_checked builtins entries include_external effective bundle e st :
  status_for builtins entries include_external effective bundle e = Ok st → INCOMPATIBLE ∉ states st →
  ∃ p c, checked builtins entries include_external bundle e = Ok (p, c) ∧
    (COMPATIBLE ∈ states st → compatible c = Some true) ∧
    (CONFIGURED ∈ states st → configured c = true) ∧
    (HEALTHY ∈ states st → healthy c = Some true).
Proof.
  unfold status_for. destruct (checked _ _ _ _ _) as [[p c]|[]]; [|by intros [= <-]; set_solver|done].
  destruct (if enabled e then effective else Ok None) as [running|]; [|done]. intros [= <-] _. exists p, c. split; [done|].
  cbn [states].
  assert ((if is_yes (compatible c) then [COMPATIBLE] else when (is_no (compatible c)) INCOMPATIBLE) =
    when (is_yes (compatible c)) COMPATIBLE ++ when (negb (is_yes (compatible c)) && is_no (compatible c)) INCOMPATIBLE) as ->
    by (destruct (is_yes _); [done|by destruct (is_no _)]).
  assert ((if enabled e then ENABLED :: when (bool_decide (is_Some running)) RUNTIME_EFFECTIVE else []) =
    when (enabled e) ENABLED ++ when (enabled e && bool_decide (is_Some running)) RUNTIME_EFFECTIVE) as ->
    by (by destruct (enabled e)).
  repeat setoid_rewrite elem_of_cons. repeat setoid_rewrite elem_of_app. repeat setoid_rewrite elem_of_when.
  split_and!; intros H; destruct_or! H; naive_solver eauto using is_yes_true.
Qed.

(** ** The caller's command *)

Section merging.
Context {F : FloatText}.

Lemma od_get_assoc {A} k (d : list (string * A)) : od_get k d = assoc k d.
Proof. induction d as [|[k' v] d IH]; [done|]. cbn. by case_decide. Qed.

Lemma od_get_update_Some k v d o : od_get k d = Some v → is_Some (od_get k (update d o)).
Proof.
  unfold update. revert d v. induction o as [|[k' w] o IH]; intros d v Hd; [by exists v|]. cbn [foldl fst snd].
  destruct (decide (k = k')) as [<-|Hk]; [apply (IH _ w)|apply (IH _ v)]; rewrite od_get_set; by case_decide.
Qed.

(** Values of [--additional-config]: the members of the first are still there, up to JSON
    equality, in the second. *)
Definition config_extended (raw raw' : string) : Prop :=
  ∃ existing merged, parse_json raw = Ok (JObj existing) ∧ raw' = dumps true (JObj merged) ∧
    ∀ k v, assoc k existing = Some v → ∃ w, assoc k merged = Some w ∧ (w = v ∨ json_eqb v w = true).

Lemma merged_config_extended activation raw raw' : merged_config activation raw = Ok raw' → config_extended raw raw'.
Proof.
  unfold merged_config. intros (v & Hv & H)%result_bind_Ok. destruct v as [| | | | | |existing]; try done.
  apply result_bind_Ok in H as (_ & Hc%reject_if_Ok & [= <-]). exists existing, (update existing activation).
  split_and!; [done..|]. intros k v Hk. rewrite <-od_get_assoc in Hk. destruct (od_get_update_Some k v _ activation Hk) as [w Hw].
  exists w. split; [by rewrite <-od_get_assoc|]. apply od_get_update in Hw as [Hw|Hw]; [right|left; congruence].
  apply not_true_iff_false in Hc. destruct (json_eqb v w) eqn:E; [done|]. destruct Hc. apply existsb_exists.
  exists (k, w). split; [by apply list_elem_of_In|]. cbn [fst snd]. rewrite od_get_assoc in Hk. by rewrite Hk, E.
Qed.

(** An argument of the command and what became of it. *)
Definition argument_kept (a a' : string) : Prop :=
  ∃ prefix raw raw', (prefix = "" ∨ prefix = ADDITIONAL_CONFIG +:+ "=") ∧
    a = prefix +:+ raw ∧ a' = prefix +:+ raw' ∧ config_extended raw raw'.
Lemma kept_refl l : Forall2 (rtc argument_kept) l l.
Proof. induction l; by constructor. Qed.

(** The caller's arguments, in order, each the same or an extended value of
    [--additional-config], and then more. *)
Definition command_extended (command command' : list string) : Prop :=
  ∃ kept more, command' = kept ++ more ∧ Forall2 (rtc argument_kept) command kept.

#[export] Instance command_extended_preorder : PreOrder command_extended.
Proof.
  split.
  - intros c. exists c, []. rewrite app_nil_r. split; [done|]. apply kept_refl.
  - intros c1 c2 c3 (k1 & m1 & -> & H1) (k2 & m2 & -> & H2). apply Forall2_app_inv_l in H2 as (k & m & Hk & _ & ->).
    exists k, (m ++ m2). rewrite <-app_assoc. split; [done|]. by transitivity k1.
Qed.

Lemma with_option_extended option f last command command' :
  (option = ADDITIONAL_CONFIG ∧ ∀ raw raw', f raw = Ok raw' → config_extended raw raw') ∨ (∀ raw raw', f raw = Ok raw' → raw' = raw) →
  with_option option f last command = Ok command' → command_extended command command'.
Proof.
  intros Hf. revert command'. induction command as [|a rest IH]; intros command'; cbn [with_option].
  { intros [= <-]. by exists [], last. }
  case_bool_decide as Ea.
  { destruct rest as [|v rest]; [done|]. intros (v' & Hv & [= <-])%result_bind_Ok.
    exists (a :: v' :: rest), []. rewrite app_nil_r. split; [done|]. constructor; [done|]. constructor; [|apply kept_refl].
    destruct Hf as [[_ Hf]|Hf]; [|by rewrite (Hf _ _ Hv)]. apply rtc_once. exists "", v, v'. split_and!; try done; [by left|by apply Hf]. }
  destruct (starts_with _ a) eqn:Es.
  { apply starts_with_spec in Es as [raw ->]. rewrite drop_chars_app. intros (v' & Hv & [= <-])%result_bind_Ok. exists ((option +:+ "=" +:+ v') :: rest), []. rewrite app_nil_r.
    split; [done|]. constructor; [|apply kept_refl].
    destruct Hf as [[-> Hf]|Hf].
    - apply rtc_once. exists (ADDITIONAL_CONFIG +:+ "="), raw, v'. split_and!; [by right|done|done|by apply Hf].
    - by rewrite (Hf _ _ Hv), <-string_app_assoc. }
  intros (rest' & Hr & [= <-])%result_bind_Ok. destruct (IH _ Hr) as (kept & more & -> & Hk). exists (a :: kept), more.
  split; [done|]. by constructor.
Qed.
Lemma command_config_extended command activation command' :
  _merge_command_config command activation = Ok command' → command_extended command command'.
Proof.
  unfold _merge_command_config. case_bool_decide; [by intros [= <-]|]. apply with_option_extended. left. split; [done|].
  intros raw raw'. apply merged_config_extended.
Qed.

Lemma scalar_option_extended command option generated command' :
  _merge_scalar_option command option generated = Ok command' → command_extended command command'.
Proof. apply with_option_extended. right. intros raw raw'. case_bool_decide; [by intros [= <-]|done]. Qed.

Lemma json_option_extended command option generated command' :
  _merge_json_option command option generated = Ok command' → command_extended command command'.
Proof.
  apply with_option_extended. right. intros raw raw' (existing & _ & H)%result_bind_Ok.
  destruct (json_eqb existing _); [by injection H as <-|done].
Qed.

Lemma foldR_extended {A} (f : list string → A → result cli_exn (list string)) l command command' :
  (∀ c x c', f c x = Ok c' → command_extended c c') → foldR f command l = Ok command' → command_extended command command'.
Proof.
  intros Hf. revert command. induction l as [|x l IH]; intros command; cbn [foldR]; [by intros [= <-]|].
  intros (c & Hc%Hf & H%IH)%result_bind_Ok. by etrans.
Qed.

Lemma more_arguments command more : command_extended command (command ++ more).
Proof. exists command, more. split; [done|apply kept_refl]. Qed.

Lemma provider_plan_extended command plan command' :
  _merge_provider_plan command plan = Ok command' → command_extended command command'.
Proof.
  unfold _merge_provider_plan. cbv zeta. destruct (json_get _ _); try done.
  2: by intros (_ & _ & H%json_option_extended)%result_bind_Ok.
  case_bool_decide as Ep.
  { by intros (? & _ & (_ & _ & (_ & _ & H%command_config_extended)%result_bind_Ok)%result_bind_Ok)%result_bind_Ok. }
  intros (_ & _ & (options & _ & (c1 & H1 & (scalars & _ & (c2 & H2 & H3)%result_bind_Ok)%result_bind_Ok)%result_bind_Ok)%result_bind_Ok)%result_bind_Ok.
  apply foldR_extended in H1; [|intros c [k v] c'; cbn; destruct v; try done; destruct (among _ _); [apply json_option_extended|done]].
  apply foldR_extended in H2; [|intros c [k v] c'; cbn; destruct v; try done; destruct (among _ _); [apply scalar_option_extended|done]].
  etrans; [exact H1|]. etrans; [exact H2|]. destruct (get_or _ _ _); try done. revert H3. apply foldR_extended.
  intros c v c'. destruct v; try done. case_bool_decide; [|done]. intros [= <-]. destruct (among _ _); [done|apply more_arguments].
Qed.
End merging.

Section launching.
Context {F : FloatText} {PV : Pep440} {HA : HostApi} {W : WordChars} {FS : FileSystem} {UR : Urls} {U : UnicodeInt}
  {H : Host} {VM : VersionMajor} {I : Installed} {RF : ResearchFiles} {HE : HealthEndpoint} {CT : ContainerText} {EP : Endpoints}.
Context (entries : list ProviderEntry) (registrations every : list EntryPoint) (evidence : option string).

Notation status_of := (status_of_bundle _builtin_providers entries evidence).
Notation plan_of := (plan_of _builtin_providers entries).
Notation run := (_run_command _builtin_providers entries registrations every evidence).

Definition trusted (b : InstalledBundle) : Prop := rt_isolation (runtime (manifest b)) = "trusted_in_process".
Definition provider_of (b : InstalledBundle) : string := host_provider (host (manifest b)).
(** A service the extension cannot do without. *)
Definition needs_service (b : InstalledBundle) : Prop := ∃ s, s ∈ requires_services (manifest b) ∧ optional s = false.

Record launch_checked (config : UserConfig) (b : InstalledBundle) (st : ExtensionStatus) : Prop := {
  lc_status : status_of config b = Ok st;
  lc_unblocked : Manifest.activation_blocker (manifest b) = Ok None;
  lc_compatible : INCOMPATIBLE ∉ states st;
  lc_services : needs_service b → HEALTHY ∈ states st;
  lc_trusted : provider_of b ∈ ["vllm"; "stateaxis"] → trusted b → COMPATIBLE ∈ states st;
  lc_configured : provider_of b = "stateaxis" → CONFIGURED ∈ states st;
}.

Lemma rejected_bind {A} b (r : result cli_exn A) a : (_ ← reject_if b; r) = Ok a ↔ b = false ∧ r = Ok a.
Proof. destruct b; cbn; naive_solver. Qed.

Lemma blocked_Ok b u : blocked b = Ok u ↔ Manifest.activation_blocker (manifest b) = Ok None.
Proof.
  unfold blocked, of_manifest. destruct (Manifest.activation_blocker _) as [[reason|]|[]]; cbn; destruct u; naive_solver.
Qed.

Lemma check_launch_Ok config b :
  check_launch _builtin_providers entries evidence config b = Ok () → ∃ st, launch_checked config b st.
Proof.
  unfold check_launch. intros ([] & Hb%blocked_Ok & (st & Hst & Hm)%result_bind_Ok)%result_bind_Ok.
  unfold may_launch in Hm. cbv zeta in Hm. rewrite !rejected_bind, reject_if_Ok in Hm.
  destruct Hm as (Hi & Hs & Ht & Hc). exists st. unfold has_state in *. split; [done..| | | |].
  - by apply bool_decide_eq_false in Hi.
  - intros (s & Hin & Ho). apply andb_false_iff in Hs as [Hs|Hs].
    + apply negb_false_iff, bool_decide_eq_true in Hs.
      assert (s ∈ filter (λ s, optional s = false) (requires_services (manifest b))) as Hf by (by apply list_elem_of_filter).
      rewrite Hs in Hf. by apply elem_of_nil in Hf.
    + by apply negb_false_iff, bool_decide_eq_true in Hs.
  - intros Hp Htr. unfold provider_of, trusted in *. rewrite (proj2 (among_spec _ _) Hp), Htr in Ht.
    cbn in Ht. by apply negb_false_iff, bool_decide_eq_true in Ht.
  - intros Hp. unfold provider_of in Hp. rewrite Hp in Hc. cbn in Hc. by apply negb_false_iff, bool_decide_eq_true in Hc.
Qed.

(** What a run that is not refused went through. *)
Lemma run_Ok config arguments dry_run environ launch_id evidence_path directory outcome :
  run config arguments dry_run environ launch_id evidence_path directory = Ok outcome →
  ∃ bundles plans command command',
    enabled_bundles registrations every config = Ok bundles ∧
    _validate_extension_dependencies bundles = Ok () ∧ _validate_process_ownership bundles = Ok () ∧
    Forall (λ b, ∃ st, launch_checked config b st) bundles ∧
    target_command arguments = Ok command ∧
    launch_plans _builtin_providers entries config bundles command = Ok (command', plans) ∧
    ∃ activation, _activation_environment bundles plans (od_get "VLLM_PLUGINS" environ) = Ok activation ∧
      if dry_run then outcome = DryRun command' activation (dict_of (native_manifests plans))
      else ∃ environment,
        run_environment environ activation bundles (native_manifests plans) launch_id evidence_path directory = Ok environment ∧
        outcome = Supervise (mkLaunch command' environment (manifest_files directory (native_manifests plans))).
Proof.
  unfold _run_command.
  intros (bundles & Hb & ([] & Hd & ([] & Hp & ([] & Hc & (command & Ht & ([command' plans] & Hl & (activation & Ha & Hr)
    %result_bind_Ok)%result_bind_Ok)%result_bind_Ok)%result_bind_Ok)%result_bind_Ok)%result_bind_Ok)%result_bind_Ok.
  exists bundles, plans, command, command'. split_and!; [done..| |done|done|].
  - apply forR_Ok in Hc. eapply Forall_impl; [exact Hc|]. intros b. apply check_launch_Ok.
  - exists activation. split; [done|]. destruct dry_run; [by injection Hr as <-|].
    apply result_bind_Ok in Hr as (environment & He & [= <-]). by exists environment.
Qed.

Definition settings_of (config : UserConfig) (b : InstalledBundle) : list (string * json) :=
  configuration (extension (ib_id b) config).

Lemma plan_of_Ok config b plan p :
  plan_of config b = Ok plan → od_get (provider_of b) _builtin_providers = Some p →
  ∃ plan0, provider_plan p (manifest b) (settings_of config b) (enabled (extension (ib_id b) config)) = Ok plan0 ∧
    plan = with_claims (resource_claims (manifest b)) plan0.
Proof.
  unfold CommandLine.plan_of, of_core. rewrite translated_Ok. unfold plan_for.
  intros (q & Hq & ([] & _ & (plan0 & Hp & ([] & _ & ([] & _ & [= <-])%result_bind_Ok)%result_bind_Ok)%result_bind_Ok)%result_bind_Ok)
    %result_bind_Ok E.
  rewrite (provider_for_builtin _ _ _ _ _ _ Hq E) in Hp. by exists plan0.
Qed.

Lemma status_of_Ok config b st p :
  status_of config b = Ok st → INCOMPATIBLE ∉ states st → od_get (provider_of b) _builtin_providers = Some p →
  ∃ c, check p (manifest b) (settings_of config b) = Ok c ∧
    (COMPATIBLE ∈ states st → compatible c = Some true) ∧ (CONFIGURED ∈ states st → configured c = true) ∧
    (HEALTHY ∈ states st → healthy c = Some true).
Proof.
  unfold status_of_bundle, of_status. rewrite translated_Ok. intros Hs Hi E.
  destruct (status_checked _ _ _ _ _ _ _ Hs Hi) as (q & c & Hc & Hfacts). unfold checked in Hc.
  apply result_bind_Ok in Hc as (q' & Hq & ([] & _ & (c' & Hc & [= -> ->])%result_bind_Ok)%result_bind_Ok).
  rewrite (provider_for_builtin _ _ _ _ _ _ Hq E) in Hc. by exists c.
Qed.

Lemma launch_plans_Ok config bundles command command' plans :
  launch_plans _builtin_providers entries config bundles command = Ok (command', plans) →
  Forall2 (λ b plan, plan_of config b = Ok plan ∧ ∃ c c', _merge_provider_plan c plan = Ok c') bundles plans ∧
  reject_conflicting_plans plans = Ok ().
Proof.
  unfold launch_plans.
  intros (a & _ & (c & _ & (ps & Hp%mapR_Ok & ([] & Hr & (c' & Hf%foldR_each & [= <- <-])%result_bind_Ok)%result_bind_Ok)
    %result_bind_Ok)%result_bind_Ok)%result_bind_Ok.
  unfold of_core in Hr. apply translated_Ok in Hr. split; [|done]. clear Hr.
  induction Hp as [|b plan bundles plans Hb _ IH]; [constructor|].
  apply Forall_cons in Hf as [Hf1 Hf]. constructor; [done|by apply IH].
Qed.

(** What of a plan's generated configuration the command line can merge. *)
Lemma stateaxis_merged m config enabled plan claims c c' :
  stateaxis_plan m config enabled = Ok plan → _merge_provider_plan c (with_claims claims plan) = Ok c' →
  ∃ binding, _mod_binding m = Ok binding ∧ performance_qualified binding = false ∧ experiment_mode config = true.
Proof.
  unfold stateaxis_plan. intros (binding & Hb & (blocker & _ & Hp)%result_bind_Ok)%result_bind_Ok Hm.
  exists binding. split; [done|]. destruct (performance_qualified binding), (experiment_mode config); cbn in Hp; try done.
  all: repeat case_match; bound_results; try done; cbn in Hm; discriminate.
Qed.

Lemma production_unmerged m config enabled plan claims c c' :
  production_plan m config enabled = Ok plan → _merge_provider_plan c (with_claims claims plan) ≠ Ok c'.
Proof. unfold production_plan. intros Hp Hm. case_match; bound_results; cbn in Hm; discriminate. Qed.

(** What was checked of each bundle before a host is launched with it. *)
Record vetted (config : UserConfig) (b : InstalledBundle) : Prop := {
  v_checked : ∃ st, launch_checked config b st;
  v_trusted : provider_of b = "vllm" → trusted b →
    ∃ c, vllm_check (manifest b) (settings_of config b) = Ok c ∧ compatible c = Some true;
  v_stateaxis : provider_of b = "stateaxis" →
    experiment_mode (settings_of config b) = true ∧
    ∃ binding path bytes, _mod_binding (manifest b) = Ok binding ∧ performance_qualified binding = false ∧
      json_get "research_manifest_path" (settings_of config b) = JStr path ∧
      research_file path = Some (Some bytes) ∧ sha256_hexdigest bytes = mod_digest binding;
  v_services : needs_service b → provider_of b ∈ _builtin_providers.*1 →
    provider_of b = "mooncake" ∧ operations_not_failed (settings_of config b) ∧
    ∃ status, health_endpoint (json_get "health_url" (settings_of config b)) = Responded status ∧ (200 ≤ status < 300)%Z;
  v_provider : provider_of b ≠ "production-stack";
}.

Lemma bundle_vetted config b plan st c c' :
  plan_of config b = Ok plan → _merge_provider_plan c plan = Ok c' → launch_checked config b st → vetted config b.
Proof.
  intros Hplan Hmerge Hst. destruct (Hst) as [Hs _ Hi Hserv Htrust Hconf].
  assert (provider_of b ≠ "production-stack") as Hprod.
  { intros E. destruct (plan_of_Ok _ _ _ ProductionStackProvider Hplan) as (plan0 & Hp & ->); [by rewrite E|].
    by apply (production_unmerged _ _ _ _ _ _ _ Hp) in Hmerge. }
  split; [by exists st| | | |done].
  - intros E Ht. destruct (status_of_Ok _ _ _ VllmProvider Hs Hi) as (k & Hk & Hcomp & _); [by rewrite E|].
    exists k. split; [exact Hk|]. apply Hcomp, Htrust; [|done]. rewrite E. by left.
  - intros E. destruct (plan_of_Ok _ _ _ StateAxisProvider Hplan) as (plan0 & Hp & ->); [by rewrite E|].
    destruct (stateaxis_merged _ _ _ _ _ _ _ Hp Hmerge) as (binding & Hb & Hq & He). split; [done|].
    destruct (status_of_Ok _ _ _ StateAxisProvider Hs Hi) as (k & Hk & _ & Hcf & _); [by rewrite E|].
    destruct (stateaxis_configured_verified _ _ _ Hk (Hcf (Hconf E))) as (binding' & path & bytes & Hb' & ? & ? & ? & _).
    assert (binding' = binding) as -> by congruence. by exists binding, path, bytes.
  - intros Hn Hin. apply list_elem_of_fmap in Hin as ([name p] & E & Hin). cbn in E.
    assert (od_get (provider_of b) _builtin_providers = Some p) as Hp.
    { rewrite E. apply od_get_NoDup; [|done]. apply (bool_decide_unpack _). vm_compute. exact Logic.I. }
    destruct (status_of_Ok _ _ _ p Hs Hi Hp) as (k & Hk & _ & _ & Hh).
    destruct (healthy_is_observed _ _ _ _ _ Hp Hk (Hh (Hserv Hn))) as [(? & ? & ?)|[? _]]; [done|by destruct Hprod].
Qed.

(** C4: When run is not refused, the enabled bundles were discovered, their dependencies
    and process ownership accepted, their plans made and free of conflicts, and each
    bundle vetted: unblocked and not incompatible; a trusted vLLM extension was found
    compatible by its check; a StateAxis extension is an experiment whose research
    manifest has the digest of its binding; one that needs a service of a built-in
    provider is a Mooncake one whose health endpoint answered 2xx and whose counts of
    connector operations, if it is configured with any, are positive with no failed key;
    and none is a Production Stack one. *)
Theorem launched_extensions_vetted (config : UserConfig) (arguments : list string) (dry_run : bool)
    (environ : list (string * string)) (launch_id evidence_path directory : string) (outcome : Outcome) :
  run config arguments dry_run environ launch_id evidence_path directory = Ok outcome →
  ∃ bundles plans,
    enabled_bundles registrations every config = Ok bundles ∧
    Forall2 (λ b plan, plan_of config b = Ok plan) bundles plans ∧
    reject_conflicting_plans plans = Ok () ∧
    _validate_extension_dependencies bundles = Ok () ∧ _validate_process_ownership bundles = Ok () ∧
    Forall (vetted config) bundles.
Proof.
  intros (bundles & plans & command & command' & Hb & Hd & Hp & Hc & _ & (Hpl & Hr)%launch_plans_Ok & _)%run_Ok.
  exists bundles, plans. split_and!; [done| |done..|].
  - eapply Forall2_impl; [exact Hpl|]. by intros b plan [? _].
  - clear - Hpl Hc. induction Hpl as [|b plan bundles plans (Hplan & c & c' & Hm) _ IH]; [constructor|].
    apply Forall_cons in Hc as [(st & Hst) Hc]. constructor; [by eapply bundle_vetted|by apply IH].
Qed.

(** *** Sets that never run *)

Lemma load_bundle_manifest p b : load_bundle every p = Ok b → bundle_id (manifest b) = ib_id b.
Proof.
  unfold load_bundle. destruct (ep_dist p.2) as [d|]; [|done]. destruct (dist_name d); [|done].
  intros [_ Hl]%refuse_if_bind. apply result_bind_Ok in Hl as (path & _ & Hl). apply result_bind_Ok in Hl as (m & _ & Hl).
  apply refuse_if_bind in Hl as [Hid Hl]. apply refuse_if_bind in Hl as [_ Hl]. apply result_bind_Ok in Hl as (packaged & _ & Hl).
  apply refuse_if_bind in Hl as [_ [= <-]].
  cbn. by apply negb_false_iff, bool_decide_eq_true in Hid.
Qed.

Lemma discovered_manifest_id ids bundles b :
  CommandLine.discover registrations every ids = Ok bundles → b ∈ bundles → bundle_id (manifest b) = ib_id b.
Proof.
  intros Hd [_ Hs]%(discovered_member _ _ _ _ _ Hd). unfold single in Hs.
  destruct (registered (ib_id b) registrations); [done|]. apply result_bind_Ok in Hs as (? & _ & Hs).
  by apply load_bundle_manifest in Hs.
Qed.

Lemma two_of_list {A} (l : list A) i j x y :
  l !! i = Some x → l !! j = Some y → i < j → ∃ pre mid post, l = pre ++ x :: mid ++ y :: post.
Proof.
  intros Hi Hj Hlt. apply list_elem_of_split_length in Hi as (pre & rest & -> & ->).
  rewrite lookup_app_r in Hj by lia. destruct (j - length pre) as [|k] eqn:E; [lia|]. cbn in Hj.
  apply list_elem_of_split_length in Hj as (mid & post & -> & _). by exists pre, mid, post.
Qed.

Lemma native_planned config b plan range :
  plan_of config b = Ok plan → provider_of b = "vllm" → Manifest.activation_blocker (manifest b) = Ok None →
  api_range (host (manifest b)) = Some range →
  plan_provider plan = "vllm" ∧
  ∃ n, ("native_extension_manifest", n) ∈ generated_config plan ∧
    json_get "bundle_id" (object_of n) = JStr (bundle_id (manifest b)).
Proof.
  intros Hplan E Hblk Hr. destruct (plan_of_Ok _ _ _ VllmProvider Hplan) as (plan0 & Hp & ->); [by rewrite E|].
  cbn [provider_plan VllmProvider] in Hp. unfold vllm_plan, blocker_of in Hp. rewrite Hblk in Hp. cbn [mbind result_bind] in Hp.
  apply result_bind_Ok in Hp as (g & Hg & [= <-]). split; [done|]. cbn [generated_config with_claims].
  unfold generated in Hg. apply result_bind_Ok in Hg as ([options flags] & _ & Hg). bound_results.
  unfold native_manifest. rewrite Hr. cbn [present]. eexists. split; [do 4 right; rewrite !elem_of_app; do 3 right; by left|by cbn].
Qed.

(** Two vLLM extensions that both bring a native manifest, or a StateAxis extension whose
    mod is qualified. *)
Definition never_runs (bundles : list InstalledBundle) : Prop :=
  (∃ b b', b ∈ bundles ∧ b' ∈ bundles ∧ ib_id b ≠ ib_id b' ∧ provider_of b = "vllm" ∧ provider_of b' = "vllm" ∧
     is_Some (api_range (host (manifest b))) ∧ is_Some (api_range (host (manifest b')))) ∨
  (∃ b binding, b ∈ bundles ∧ provider_of b = "stateaxis" ∧ _mod_binding (manifest b) = Ok binding ∧
     performance_qualified binding = true).

(** C15: A negative liveness result: when two enabled vLLM extensions both bring an API
    range, or an enabled StateAxis extension's mod is performance qualified, run is
    refused whatever the command, environment, configuration and evidence are. *)
Theorem natives_and_qualified_never_run (config : UserConfig) (bundles : list InstalledBundle) (arguments : list string)
    (dry_run : bool) (environ : list (string * string)) (launch_id evidence_path directory : string) :
  enabled_bundles registrations every config = Ok bundles → never_runs bundles →
  ∃ e, run config arguments dry_run environ launch_id evidence_path directory = Raise e.
Proof.
  intros Hb Hnever. destruct (run _ _ _ _ _ _ _) as [outcome|e] eqn:E; [exfalso|by exists e].
  apply run_Ok in E as (bundles' & plans & command & command' & Hb' & _ & _ & Hc & _ & (Hpl & Hr)%launch_plans_Ok & _).
  assert (bundles' = bundles) as -> by congruence. apply enabled_discovered in Hb.
  assert (∀ i b, bundles !! i = Some b → ∃ plan st c c',
    plans !! i = Some plan ∧ plan_of config b = Ok plan ∧ launch_checked config b st ∧ _merge_provider_plan c plan = Ok c') as Hat.
  { intros i b Hi. destruct (Forall2_lookup_l _ _ _ _ _ Hpl Hi) as (plan & Hpi & Hplan & c & c' & Hm).
    rewrite Forall_lookup in Hc. destruct (Hc i b Hi) as [st Hst]. by exists plan, st, c, c'. }
  destruct Hnever as [(b & b' & Hin & Hin' & Hne & Hv & Hv' & [r Hr1] & [r' Hr2])|(b & binding & Hin & Hs & Hm & Hq)].
  - assert (∀ i j x y rx ry, i < j → bundles !! i = Some x → bundles !! j = Some y → ib_id x ≠ ib_id y →
      provider_of x = "vllm" → provider_of y = "vllm" → api_range (host (manifest x)) = Some rx →
      api_range (host (manifest y)) = Some ry → False) as Htwo.
    { intros i j x y rx ry Hlt Hi Hj Hxy Hx Hy Hrx Hry.
      destruct (Hat i x Hi) as (px & ? & _ & _ & Hpi & Hplan & [_ Hblk _ _ _ _] & _), (Hat j y Hj) as (py & ? & _ & _ & Hpj & Hplany & [_ Hblky _ _ _ _] & _).
      destruct (native_planned _ _ _ _ Hplan Hx Hblk Hrx) as (Ex & nx & Hnx & Hidx), (native_planned _ _ _ _ Hplany Hy Hblky Hry) as (Ey & ny & Hny & Hidy).
      destruct (two_of_list _ _ _ _ _ Hpi Hpj Hlt) as (pre & mid & post & ->). apply Hxy.
      rewrite <-(discovered_manifest_id _ _ x Hb), <-(discovered_manifest_id _ _ y Hb) by (by eapply list_elem_of_lookup_2).
      eapply native_plans_conflict; [exact Hr|congruence|exact Hnx|exact Hny|done|done]. }
    apply list_elem_of_lookup in Hin as [i Hi], Hin' as [j Hj].
    destruct (Nat.lt_trichotomy i j) as [Hlt|[->|Hlt]]; [by eapply (Htwo i j)|congruence|].
    eapply (Htwo j i); eauto.
  - apply list_elem_of_lookup in Hin as [i Hi]. destruct (Hat i b Hi) as (plan & st & c & c' & _ & Hplan & _ & Hmerge).
    destruct (plan_of_Ok _ _ _ StateAxisProvider Hplan) as (plan0 & Hp & ->); [by rewrite Hs|].
    destruct (stateaxis_merged _ _ _ _ _ _ _ Hp Hmerge) as (binding' & Hm' & Hq' & _). congruence.
Qed.


(** *** The environment *)

Lemma overlay_source k v d d' : od_get k (overlay d d') = Some v → (k, v) ∈ d' ∨ od_get k d = Some v.
Proof.
  unfold overlay. revert d. induction d' as [|[k' w] d' IH]; intros d; [by right|]. cbn [foldl fst snd].
  intros [?|Hd]%IH; [left; by right|]. rewrite od_get_set in Hd. case_decide; [|by right]. simplify_eq. left. by left.
Qed.

Lemma overlay_fresh k d d' : k ∉ d'.*1 → od_get k (overlay d d') = od_get k d.
Proof.
  unfold overlay. revert d. induction d' as [|[k' w] d' IH]; intros d; [done|]. rewrite fmap_cons. cbn [foldl fst snd].
  intros [Hk Hd]%not_elem_of_cons. rewrite IH by done. rewrite od_get_set. by rewrite decide_False.
Qed.

Lemma overlay_over k v d d' : NoDup d'.*1 → (k, v) ∈ d' → od_get k (overlay d d') = Some v.
Proof.
  unfold overlay. revert d. induction d' as [|[k' w] d' IH]; intros d; [by intros _ ?%elem_of_nil|].
  rewrite fmap_cons. cbn [foldl fst snd]. intros [Hk Hn]%NoDup_cons [[= -> ->]|Hin]%elem_of_cons; [|by apply IH].
  change (foldl _ _ d') with (overlay (od_set k' w d) d'). rewrite overlay_fresh by done. rewrite od_get_set. by rewrite decide_True.
Qed.

Lemma dict_of_elem {A} (pairs : list (string * A)) k v : od_get k (dict_of pairs) = Some v → (k, v) ∈ pairs.
Proof.
  unfold dict_of. assert (od_get k ([] : list (string * A)) = Some v → (k, v) ∈ pairs) as Hd by done. revert Hd.
  generalize ([] : list (string * A)). assert (∀ p, p ∈ pairs → p ∈ pairs) as Hsub by done. revert Hsub.
  generalize pairs at 1 4. induction pairs0 as [|[k' w] l IH]; intros Hsub d Hd; [done|]. cbn [foldl fst snd].
  apply IH; [by intros; apply Hsub; right|]. rewrite od_get_set. case_decide; [|done]. intros [= ->]. subst. apply Hsub. by left.
Qed.

(** Where a variable of a plan comes from: for a built-in provider, from the names the
    manifest declares. *)
Definition declares (b : InstalledBundle) (k : string) : Prop :=
  provider_of b ∈ _builtin_providers.*1 → k ∈ (ac_environment (activation (manifest b))).*1.

Lemma planned_variable config b plan items k v :
  plan_of config b = Ok plan → get_or (JObj []) "environment" (generated_config plan) = JObj items → (k, v) ∈ items →
  declares b k.
Proof.
  intros Hplan He Hin Hb. apply list_elem_of_fmap in Hb as ([name p] & E & Hb). cbn in E.
  assert (od_get (provider_of b) _builtin_providers = Some p) as Hp.
  { rewrite E. apply od_get_NoDup; [|done]. apply (bool_decide_unpack _). vm_compute. exact Logic.I. }
  destruct (plan_of_Ok _ _ _ p Hplan Hp) as (plan0 & Hp0 & ->). cbn [generated_config with_claims] in He. clear Hplan Hp E.
  assert (∀ l, get_or (JObj []) "environment" l = JObj items → assoc "environment" l = None → False) as Hnone.
  { intros l El Ha. unfold get_or in El. rewrite Ha in El. injection El as <-. by apply elem_of_nil in Hin. }
  unfold _builtin_providers in Hb. rewrite !elem_of_cons, elem_of_nil in Hb.
  destruct Hb as [[= _ ->]|[[= _ ->]|[[= _ ->]|[[= _ ->]|[]]]]]; cbn [provider_plan VllmProvider MooncakeProvider ProductionStackProvider StateAxisProvider] in Hp0.
  - unfold vllm_plan in Hp0. apply result_bind_Ok in Hp0 as ([reason|] & _ & Hp0).
    { injection Hp0 as <-. by destruct (Hnone _ He). }
    apply result_bind_Ok in Hp0 as (g & Hg & [= <-]). cbn [generated_config] in He. unfold generated in Hg.
    apply result_bind_Ok in Hg as ([options flags] & _ & Hg). apply result_bind_Ok in Hg as (env & Henv%declared_environment_Ok & Hg).
    bound_results. cbn in He. injection He as ->. destruct Henv as [<- _]. apply list_elem_of_fmap. by exists (k, v).
  - unfold mooncake_plan in Hp0. bound_results. by destruct (Hnone _ He).
  - unfold production_plan in Hp0. case_match; bound_results; by destruct (Hnone _ He).
  - unfold stateaxis_plan in Hp0. bound_results. repeat case_match; bound_results; by destruct (Hnone _ He).
Qed.

Lemma environment_source config bundles plans environment :
  Forall2 (λ b plan, plan_of config b = Ok plan) bundles plans →
  foldR (add_environment plans) [] bundles = Ok environment →
  NoDup environment.*1 ∧ ∀ k, k ∈ environment.*1 → ∃ b, b ∈ bundles ∧ declares b k.
Proof.
  intros Hplans Hf.
  refine (foldR_inv_in (λ environment, NoDup environment.*1 ∧ ∀ k, k ∈ environment.*1 → ∃ b, b ∈ bundles ∧ declares b k)
    _ _ _ _ _ _ Hf); [|split; [constructor|by intros ? ?%elem_of_nil]].
  intros acc b acc' Hb [Hn Hacc] Ha. unfold add_environment in Ha. destruct (default _ _) as [| | | | | |items] eqn:Ed; try done.
  assert (∀ k v, (k, v) ∈ items → ∃ b', b' ∈ bundles ∧ declares b' k) as Hitems.
  { intros k v Hin. destruct (od_get (ib_id b) (planned_environments plans)) as [e|] eqn:E; cbn in Ed.
    - subst e. apply dict_of_elem, list_elem_of_fmap in E as (plan & [= _ E] & Hp).
      apply list_elem_of_lookup in Hp as [i Hi]. destruct (Forall2_lookup_r _ _ _ _ _ Hplans Hi) as (b' & Hb' & Hplan).
      exists b'. split; [by eapply list_elem_of_lookup_2|]. by eapply planned_variable.
    - injection Ed as <-. exists b. split; [done|]. intros _. apply list_elem_of_fmap in Hin as ([k' w] & [= -> _] & Hin).
      apply list_elem_of_fmap. by exists (k', w). }
  refine (foldR_inv_in (λ environment, NoDup environment.*1 ∧ ∀ k, k ∈ environment.*1 → ∃ b, b ∈ bundles ∧ declares b k)
    _ _ _ _ _ _ Ha); [|done].
  intros e [k v] e' Hin [Hne He] Hkv. unfold environment_entry in Hkv. cbn [fst snd] in Hkv. destruct v; try done.
  apply rejected_bind in Hkv as [_ [= <-]]. split; [by apply od_set_NoDup|].
  intros k' [->|?]%od_set_keys; [by eapply Hitems|by apply He].
Qed.

Lemma activation_source config bundles plans os_plugins activation :
  Forall2 (λ b plan, plan_of config b = Ok plan) bundles plans →
  _activation_environment bundles plans os_plugins = Ok activation →
  NoDup activation.*1 ∧ ("VLLMHUST_EXT_ENABLED_BUNDLES", join "," (ib_id <$> bundles)) ∈ activation ∧
  ∀ k, k ∈ activation.*1 →
    k ∈ ["VLLM_PLUGINS"; "VLLMHUST_EXT_ENABLED_BUNDLES"] ∨ ∃ b, b ∈ bundles ∧ declares b k.
Proof.
  intros Hplans Ha. unfold _activation_environment in Ha. apply result_bind_Ok in Ha as (environment & He & Ha).
  apply result_bind_Ok in Ha as (activated & _ & [= <-]). destruct (environment_source _ _ _ _ Hplans He) as [Hn Hsrc].
  case_bool_decide as Eact.
  - split_and!; [by apply od_set_NoDup|apply od_get_elem_of; rewrite od_get_set; by rewrite decide_True|].
    intros k [->|Hk]%od_set_keys; [left; by right; left|right; by apply Hsrc].
  - assert (NoDup (filter (λ p, p.1 ≠ "VLLM_PLUGINS") environment).*1) as Hf
      by (eapply sublist_NoDup; [exact Hn|]; apply fmap_sublist, sublist_filter).
    split_and!; [by apply od_set_NoDup, od_set_NoDup|apply od_get_elem_of; rewrite od_get_set; by rewrite decide_True|].
    intros k [->|[->|Hk]%od_set_keys]%od_set_keys; [left; by right; left|left; by left|right]. apply Hsrc.
    apply list_elem_of_fmap in Hk as (p & -> & [_ Hp]%list_elem_of_filter). by apply list_elem_of_fmap_2.
Qed.

(** The variables the manager owns. *)
Definition binding_variables (launch_id evidence_path : string) (bundles : list InstalledBundle) : list (string * string) :=
  [("VLLM_ECPA_EVIDENCE_SINK", _SINK); ("VLLM_ECPA_EVIDENCE_STRICT", "1");
   ("VLLM_ECPA_PLAN_ID", sha256_hexdigest (launch_material bundles));
   ("VLLM_ECPA_LAUNCH_ID", launch_id); (_PATH_ENV, evidence_path)].
Definition manager_variables : list string :=
  (binding_variables "" "" []).*1 ++
  ["VLLM_PLUGINS"; "VLLMHUST_EXT_ENABLED_BUNDLES"; "VLLM_EXTENSION_MANIFESTS"; "VLLM_EXTENSION_BUNDLES"].

(** The evidence-binding variables are none of the others of the manager. *)
Lemma binding_apart k l :
  k ∈ (binding_variables "" "" []).*1 → k ∈ l →
  l = ["VLLM_EXTENSION_MANIFESTS"; "VLLM_EXTENSION_BUNDLES"] ∨ l = ["VLLM_PLUGINS"; "VLLMHUST_EXT_ENABLED_BUNDLES"] → False.
Proof.
  intros Hk Hl [->| ->]; revert Hk Hl; rewrite (elem_of_cons _ k), (elem_of_cons _ k);
    intros Hk [->|[->|[]%elem_of_nil]]; revert Hk; not_in_list.
Qed.

Lemma launch_environment_Ok environ launch_id evidence_path bundles binding :
  RuntimeEvidence.launch_environment environ launch_id evidence_path bundles = Ok binding →
  binding = binding_variables launch_id evidence_path bundles ∧ ∀ k, k ∈ binding.*1 → k ∉ environ.
Proof.
  unfold RuntimeEvidence.launch_environment. intros (_ & Hr%raise_if_Ok & [= <-])%result_bind_Ok. split; [done|].
  intros k Hk Hin. apply not_true_iff_false in Hr. apply Hr, existsb_exists. exists k. split; [|by apply among_spec].
  by apply list_elem_of_In.
Qed.

Lemma run_environment_Ok environ activation bundles natives launch_id evidence_path directory environment :
  run_environment environ activation bundles natives launch_id evidence_path directory = Ok environment →
  ∃ binding,
    (bundles = [] ∧ binding = [] ∨ bundles ≠ [] ∧ binding = binding_variables launch_id evidence_path bundles) ∧
    (∀ k, k ∈ binding.*1 → k ∉ environ.*1) ∧
    ∀ k, k ∉ ["VLLM_EXTENSION_MANIFESTS"; "VLLM_EXTENSION_BUNDLES"] →
      od_get k environment = od_get k (overlay (overlay environ activation) binding).
Proof.
  unfold run_environment. intros (_ & _ & (binding & Hb & [= <-])%result_bind_Ok)%result_bind_Ok. exists binding.
  case_bool_decide as Eb.
  - injection Hb as <-. split_and!; [by left|by intros ? ?%elem_of_nil|]. intros k Hk.
    case_bool_decide; [done|]. rewrite !od_get_set. by rewrite !decide_False by set_solver.
  - unfold of_runtime in Hb. apply translated_Ok, launch_environment_Ok in Hb as [-> Hk]. split_and!; [right; by split|done|].
    intros k Hin. case_bool_decide; [done|]. rewrite !od_get_set. by rewrite !decide_False by set_solver.
Qed.

End launching.

(** ** Listing *)

(** A bundle is listed as ready exactly when its carriers are active and every extension
    it requires is installed at a version of its range and enabled. *)
Theorem readiness_exact {PV : Pep440} (enabled : list string) (installed : list (string * string)) (b : InstalledBundle)
    (v : BundleView) :
  installed ≠ [] → _bundle_dict enabled installed b = Ok v →
  activation_ready v = true ↔
  Manifest.activation_blocker (manifest b) = Ok None ∧
  Forall (λ d, ∃ found, od_get (rx_id d) installed = Some found ∧ in_version_range found (rx_range d) = true ∧
                 rx_id d ∈ enabled) (dependencies b).
Proof.
  unfold _bundle_dict. intros Hi. rewrite bool_decide_eq_false_2 by done. cbv zeta.
  intros (blocker & Hb & (obstacle & Ho & [= <-])%result_bind_Ok)%result_bind_Ok.
  unfold of_manifest in Hb. apply translated_Ok in Hb. unfold activation_ready. cbn [bv_blocker]. rewrite bool_decide_eq_true, Hb.
  destruct blocker as [reason|]; [injection Ho as <-; naive_solver|].
  assert (∀ l, dependency_obstacle enabled installed l = Ok obstacle → obstacle = None ↔
    Forall (λ d, ∃ found, od_get (rx_id d) installed = Some found ∧ in_version_range found (rx_range d) = true ∧
                   rx_id d ∈ enabled) l) as Hl; [|rewrite (Hl _ Ho); naive_solver].
  unfold in_version_range. induction l as [|d l IH]; cbn [dependency_obstacle]; [intros [= <-]; by split|].
  rewrite Forall_cons. destruct (od_get (rx_id d) installed) as [found|]; [|intros [= <-]; naive_solver].
  destruct (Version found) as [v|] eqn:Ev; [|done]. destruct (SpecifierSet (rx_range d)) as [range|] eqn:Er; [|done].
  destruct (contains range v) eqn:Ec; cbn [negb].
  - destruct (among enabled (rx_id d)) eqn:Ea; cbn [negb].
    + intros H. rewrite (IH H). apply among_spec in Ea. split; [|naive_solver]. intros. split; [|done]. exists found. by rewrite Ev.
    + intros [= <-]. split; [done|]. intros [(? & _ & _ & Hin%among_spec) _]. congruence.
  - intros [= <-]. split; [done|]. intros [(found' & [= <-] & Hr & _) _]. rewrite Ev in Hr. congruence.
Qed.

(** ** Two extensions of an installed host *)

Module Example.
Import BuiltinProviders.Example.
#[export] Existing Instances any_version any_major any_host ascii_words nothing_installed one_file brackets web.
#[export] Existing Instance JsonText.Examples.no_floats.
#[export] Instance no_unicode : UnicodeInt := λ _, None.
#[export] Instance a_host : Host := {| hostname := "node"; proc_stat _ := None |}.
#[export] Instance silent : HealthEndpoint := λ _, Responded 503.

Definition base_payload (id : string) : json :=
  JObj [("schema_version", JStr "1.0"); ("bundle_id", JStr id); ("bundle_version", JStr "1.2");
        ("host_api_range", JStr ">=1.0"); ("components", JArr [ManifestTheorems.Example.component])].
(** An extension that requires [base]; its carrier is a module. *)
Definition dependent_payload (id base : string) : json :=
  JObj [("schema_version", JStr "0.3-experimental"); ("extension_id", JStr id); ("extension_version", JStr "0.3");
        ("kind", JStr "scheduler_policy");
        ("host", JObj [("provider", JStr "vllm"); ("name", JStr "vllm"); ("version_range", JStr ">=0.23"); ("api_range", JNull)]);
        ("runtime", JObj [("type", JStr "python"); ("process_scope", JStr "worker"); ("isolation", JStr "in-process")]);
        ("lifecycle_owner", JStr "vllm"); ("protocols", JArr []); ("implementation", JArr [ManifestTheorems.Example.carrier (JStr "active")]);
        ("requires_services", JArr []);
        ("requires_extensions", JArr [JObj [("extension_id", JStr base); ("version_range", JStr ">=1")]])].

(** What is installed: identifier, package, manifest. *)
Definition site : list (string * (string * json)) :=
  [("org.base", ("base", base_payload "org.base")); ("org.other", ("other", base_payload "org.other"));
   ("org.user", ("user", dependent_payload "org.user" "org.base")); ("org.ring", ("ring", dependent_payload "org.ring" "org.ring"))].
Definition manifest_file (package : string) : string := package +:+ "/vllm-hust-extension-v1.json".
Definition texts : list (string * string) :=
  (λ p, ("/site/" +:+ manifest_file p.2.1, dumps false p.2.2)) <$> site.
#[export] Instance files : FileSystem := {|
  fs_is_file path := among texts.*1 path;
  fs_bytes path := od_get path texts;
  fs_manifest path := mkFile false (among texts.*1 path) (od_get path texts);
|}.
#[export] Instance urls : Urls := λ _, None.
Definition distribution (package : string) : Distribution :=
  mkDistribution (Some package) "1" [manifest_file package; package +:+ "/policy.py"] (λ f, "/site/" +:+ f) None.
Definition registrations : list EntryPoint :=
  (λ p, mkEntryPoint p.1 ENTRY_POINT_GROUP p.2.1 (Some (distribution p.2.1))) <$> site.

Definition ids (r : result cli_exn (list InstalledBundle)) : option (list string) :=
  match r with Ok bundles => Some (ib_id <$> bundles) | Raise _ => None end.
Definition commanded (commands : list Command) : UserConfig := foldl (next registrations registrations) [] commands.
Definition dry_run (config : UserConfig) : result cli_exn Outcome :=
  _run_command _builtin_providers [] registrations registrations None config ["vllm"; "serve"] true [] "l" "e" "/tmp/x".

Definition run_with (config : UserConfig) : result cli_exn Outcome :=
  _run_command _builtin_providers [] registrations registrations None config ["vllm"; "serve"; "--additional-config"; "{}"]
    false [("HOME", "/root")] "launch-1" "/tmp/e" "/tmp/x".

(** Commands that cannot be obeyed change nothing: what is required must be enabled first
    and stays, and nothing may require itself. *)
Definition pair_config : UserConfig :=
  Eval vm_compute in commanded [Enable "org.user"; Enable "org.ring"; Enable "org.base"; Enable "org.user"; Disable "org.base"].
Lemma commands_in_order : enabled_extensions pair_config = ["org.base"; "org.user"].
Proof. reflexivity. Qed.
(** Two extensions with native manifests are accepted, and then refused at every launch. *)
Definition natives_config : UserConfig := Eval vm_compute in commanded [Enable "org.base"; Enable "org.other"].
Lemma natives_enabled : enabled_extensions natives_config = ["org.base"; "org.other"] ∧ dry_run natives_config = Raise Refused.
Proof. split; [reflexivity|vm_compute; reflexivity]. Qed.

Definition bundles_of (config : UserConfig) : list InstalledBundle :=
  match enabled_bundles registrations registrations config with Ok bundles => bundles | Raise _ => [] end.
Definition outcome_of (config : UserConfig) : Outcome :=
  match run_with config with Ok outcome => outcome | Raise _ => DryRun [] [] [] end.
Definition launch_of (config : UserConfig) : Launch :=
  match run_with config with Ok (Supervise launch) => launch | _ => mkLaunch [] [] [] end.
Lemma pair_launched : run_with pair_config = Ok (Supervise (launch_of pair_config)).
Proof. vm_compute. reflexivity. Qed.
Lemma launched_command :
  la_command (launch_of pair_config) =
  ["vllm"; "serve"; "--additional-config"; "{}"; "--preemption-policy"; "pkg.policy.Policy"].
Proof. vm_compute. reflexivity. Qed.

Lemma dependencies_accepted_exactly_witness :
  satisfied (bundles_of pair_config) ∧ ∀ x, ¬ tc (requires (bundles_of pair_config)) x x.
Proof.
  apply (proj1 (dependencies_accepted_exactly (bundles_of pair_config) ltac:(apply (bool_decide_unpack _); vm_compute; exact Logic.I))).
  vm_compute. reflexivity.
Defined.

Lemma readiness_exact_witness :
  Manifest.activation_blocker (manifest (List.last (bundles_of pair_config) (mkBundle "" "" "" "" legacy []))) = Ok None.
Proof.
  refine (proj1 (proj1 (readiness_exact ["org.base"] [("org.base", "1.2")] _ _ _ _) _));
    [discriminate|vm_compute; reflexivity|vm_compute; reflexivity].
Defined.

Lemma enabled_set_stays_coherent_witness :
  ∃ bundles, enabled_bundles registrations registrations (commanded [Enable "org.base"; Enable "org.user"; Disable "org.base"]) = Ok bundles ∧
    fit_together bundles.
Proof.
  apply (enabled_set_stays_coherent registrations registrations []); [constructor|].
  exists []. split; [reflexivity|]. split; [vm_compute; reflexivity..|constructor].
Defined.

Lemma launched_extensions_vetted_witness :
  ∃ bundles, enabled_bundles registrations registrations pair_config = Ok bundles ∧ Forall (vetted [] None pair_config) bundles.
Proof.
  destruct (launched_extensions_vetted [] registrations registrations None pair_config
    ["vllm"; "serve"; "--additional-config"; "{}"] false [("HOME", "/root")] "launch-1" "/tmp/e" "/tmp/x" _ pair_launched)
    as (bundles & plans & H1 & _ & _ & _ & _ & H2). by exists bundles.
Defined.

Lemma natives_and_qualified_never_run_witness :
  ∃ e, run_with natives_config = Raise e.
Proof.
  apply (natives_and_qualified_never_run [] registrations registrations None natives_config (bundles_of natives_config));
    [vm_compute; reflexivity|left].
  destruct (bundles_of natives_config) as [|b [|b' [|]]] eqn:E; vm_compute in E; try discriminate E. injection E as <- <-.
  do 2 eexists. split_and!; [left|right; left|..]; [by vm_compute..|by eexists|by eexists].
Defined.


End Example.
