(* ===== verification/ProcessSupervisor.v ===== *)
(** * The supervisor of a launched process tree

    [src/vllm_hust_ext/process_supervisor.py] on POSIX: [supervise] as a state machine whose
    events are its own next step, the delivery of a signal (its handler runs between any two
    steps), and what the launched processes and the clock do.  Times are integers in any
    unit; the child is the leader of a session and of the process group that bears its pid,
    and the group's number is not given to other processes while the supervisor runs. *)

From S2P Require Import Prelude.

Local Open Scope Z_scope.
Local Open Scope list_scope.

Definition SIGHUP : Z := 1.
Definition SIGINT : Z := 2.
Definition _KILL_SIGNAL : Z := 9.
Definition SIGTERM : Z := 15.
Definition _managed_signals : list Z := [SIGTERM; SIGINT; SIGHUP].

Inductive sup_exn : Type := SupValueError | SupOSError | SupPermissionError.

(** The direct child; a zombie is not yet waited for. *)
Inductive Child : Type := NotStarted | Running | Zombie (code : Z) | Reaped (code : Z).

(** Where [supervise] is; [r] is what it returns or raises, [deadline] that of the cleanup. *)
Inductive Phase : Type :=
  | Installing (todo : list Z)
  | Spawning
  | Assigning
  | Forwarding
  | Waiting
  | Escalating
  | Deadline (code : Z)
  | Checking (code deadline : Z)
  | Terminating (code deadline : Z)
  | Watching (code deadline : Z)
  | Timing (code deadline : Z)
  | Killing (code : Z)
  | Returning (code : Z)
  | Finally (r : result sup_exn Z)
  | FinalKill (r : result sup_exn Z)
  | FinalWait (r : result sup_exn Z)
  | Restoring (r : result sup_exn Z) (todo : list Z)
  | Finished (r : result sup_exn Z).

(** [others]: whether processes of the group besides the child are alive.  [started]: the
    start of [signal_started_at].  [known]: whether the variable [child] is set.  [sent]: the
    signals the group got, with their times; [spawned]: when the child was started. *)
Record Supervisor : Type := mkSupervisor {
  phase : Phase; now : Z; received : list Z; started : option Z; known : bool; child : Child; others : bool;
  handlers : list Z; escalated : bool; sent : list (Z * Z); spawned : Z;
}.

Definition set_phase (p : Phase) (s : Supervisor) : Supervisor :=
  mkSupervisor p (now s) (received s) (started s) (known s) (child s) (others s) (handlers s) (escalated s) (sent s) (spawned s).
Definition set_child (c : Child) (s : Supervisor) : Supervisor :=
  mkSupervisor (phase s) (now s) (received s) (started s) (known s) c (others s) (handlers s) (escalated s) (sent s) (spawned s).
Definition set_others (b : bool) (s : Supervisor) : Supervisor :=
  mkSupervisor (phase s) (now s) (received s) (started s) (known s) (child s) b (handlers s) (escalated s) (sent s) (spawned s).
Definition set_handlers (l : list Z) (s : Supervisor) : Supervisor :=
  mkSupervisor (phase s) (now s) (received s) (started s) (known s) (child s) (others s) l (escalated s) (sent s) (spawned s).
Definition pass (d : Z) (s : Supervisor) : Supervisor :=
  mkSupervisor (phase s) (now s + d) (received s) (started s) (known s) (child s) (others s) (handlers s) (escalated s) (sent s) (spawned s).
Definition log_sent (signum : Z) (s : Supervisor) : Supervisor :=
  mkSupervisor (phase s) (now s) (received s) (started s) (known s) (child s) (others s) (handlers s) (escalated s)
    (sent s ++ [(now s, signum)]) (spawned s).
Definition start_child (s : Supervisor) : Supervisor :=
  mkSupervisor (phase s) (now s) (received s) (started s) (known s) Running (others s) (handlers s) (escalated s) (sent s) (now s).
Definition know_child (s : Supervisor) : Supervisor :=
  mkSupervisor (phase s) (now s) (received s) (started s) true (child s) (others s) (handlers s) (escalated s) (sent s) (spawned s).
Definition set_escalated (s : Supervisor) : Supervisor :=
  mkSupervisor (phase s) (now s) (received s) (started s) (known s) (child s) (others s) (handlers s) true (sent s) (spawned s).
Definition receive (signum : Z) (s : Supervisor) : Supervisor :=
  mkSupervisor (phase s) (now s) (received s ++ [signum]) (match received s with [] => Some (now s) | _ => started s end)
    (known s) (child s) (others s) (handlers s) (escalated s) (sent s) (spawned s).

(** [killpg(pid, 0)] succeeds or is refused for lack of permission. *)
Definition _launch_tree_exists (s : Supervisor) : bool :=
  others s || match child s with Running | Zombie _ => true | _ => false end.

(** The signal, or the [PermissionError] of [killpg]; a group that is gone is ignored. *)
Definition _signal_launch_tree (refused : bool) (signum : Z) (s : Supervisor) : Supervisor + Supervisor :=
  if _launch_tree_exists s then (if refused then inr s else inl (log_sent signum s)) else inl s.

(** An exception goes to the [finally] block, or out of it. *)
Definition inside_try (p : Phase) : bool :=
  match p with
  | Installing _ | Finally _ | FinalKill _ | FinalWait _ | Restoring _ _ | Finished _ => false
  | _ => true
  end.
Definition raising (e : sup_exn) (s : Supervisor) : Supervisor :=
  set_phase (if inside_try (phase s) then Finally (Raise e) else Finished (Raise e)) s.

(** The rest of the program after a signal was sent. *)
Definition signalling (refused : bool) (signum : Z) (next : Phase) (s : Supervisor) : Supervisor :=
  match _signal_launch_tree refused signum s with
  | inl s => set_phase next s
  | inr s => raising SupPermissionError s
  end.

(** [forward] *)
Definition forward (refused : bool) (signum : Z) (s : Supervisor) : Supervisor :=
  let s := receive signum s in
  if known s then
    match _signal_launch_tree refused (if (1 <? length (received s))%nat then _KILL_SIGNAL else signum) s with
    | inl s => s
    | inr s => raising SupPermissionError s
    end
  else s.

Section supervise.
Context (_POLL_SECONDS shutdown_grace_seconds : Z).

Definition initial (time : Z) : Supervisor :=
  mkSupervisor (if shutdown_grace_seconds <? 0 then Finished (Raise SupValueError) else Installing _managed_signals)
    time [] None false NotStarted false [] false [] 0.

Definition grace_over (s : Supervisor) : bool :=
  match started s with Some t => shutdown_grace_seconds <=? now s - t | None => false end.

(** The next step of [supervise]; [fails]: the call it makes raises ([Popen] an [OSError],
    [killpg] a [PermissionError]).  [None]: it is blocked, or has finished. *)
Definition run (fails : bool) (s : Supervisor) : option Supervisor :=
  match phase s with
  | Installing (signum :: todo) => Some (set_phase (Installing todo) (set_handlers (handlers s ++ [signum]) s))
  | Installing [] => Some (set_phase Spawning s)
  | Spawning => Some (if fails then raising SupOSError s else set_phase Assigning (start_child s))
  | Assigning => Some (set_phase Forwarding (know_child s))
  | Forwarding =>
      Some (match received s with
            | [] => set_phase Waiting s
            | signum :: _ => signalling fails signum Waiting s
            end)
  | Waiting =>
      match child s with
      | Zombie code => Some (set_phase (Deadline code) (set_child (Reaped code) s))
      | Running => Some (set_phase Escalating (pass _POLL_SECONDS s))
      | _ => None
      end
  | Escalating =>
      Some (if negb (bool_decide (received s = [])) && negb (escalated s) && grace_over s
            then signalling fails _KILL_SIGNAL Waiting (set_escalated s)
            else set_phase Waiting s)
  | Deadline code =>
      Some (set_phase (Checking code (match started s with Some t => t | None => now s end + shutdown_grace_seconds)) s)
  | Checking code deadline =>
      Some (set_phase (if _launch_tree_exists s then Terminating code deadline else Returning code) s)
  | Terminating code deadline => Some (signalling fails SIGTERM (Watching code deadline) s)
  | Watching code deadline =>
      Some (set_phase (if _launch_tree_exists s then Timing code deadline else Returning code) s)
  | Timing code deadline =>
      Some (if deadline <=? now s then set_phase (Killing code) s
            else set_phase (Watching code deadline) (pass _POLL_SECONDS s))
  | Killing code => Some (signalling fails _KILL_SIGNAL (Returning code) s)
  | Returning code => Some (set_phase (Finally (Ok (match received s with signum :: _ => 128 + signum | [] => code end))) s)
  | Finally r =>
      Some (if known s then
              match child s with
              | Running => set_phase (FinalKill r) s
              | Zombie code => set_phase (Restoring r (handlers s)) (set_child (Reaped code) s)
              | _ => set_phase (Restoring r (handlers s)) s
              end
            else set_phase (Restoring r (handlers s)) s)
  | FinalKill r => Some (signalling fails _KILL_SIGNAL (FinalWait r) s)
  | FinalWait r =>
      match child s with
      | Zombie code => Some (set_phase (Restoring r (handlers s)) (set_child (Reaped code) s))
      | Reaped _ => Some (set_phase (Restoring r (handlers s)) s)
      | _ => None
      end
  | Restoring r (signum :: todo) =>
      Some (set_phase (Restoring r todo) (set_handlers (filter (λ h, h ≠ signum) (handlers s)) s))
  | Restoring r [] => Some (set_phase (Finished r) s)
  | Finished _ => None
  end.

(** What may happen next. *)
Inductive Event : Type :=
  | Run (fails : bool)
  | Signal (signum : Z) (refused : bool)
  | Exit (code : Z)
  | Others (alive : bool)
  | Pass (d : Z).

Definition perform (e : Event) (s : Supervisor) : option Supervisor :=
  match e with
  | Run fails => run fails s
  | Signal signum refused => if bool_decide (signum ∈ handlers s) then Some (forward refused signum s) else None
  | Exit code => match child s with Running => Some (set_child (Zombie code) s) | _ => None end
  | Others alive =>
      if alive && negb (others s) && negb (match child s with Running => true | _ => false end) then None
      else Some (set_others alive s)
  | Pass d => if d <? 0 then None else Some (pass d s)
  end.

Fixpoint performs (es : list Event) (s : Supervisor) : option Supervisor :=
  match es with
  | [] => Some s
  | e :: es => match perform e s with Some s => performs es s | None => None end
  end.
Definition reachable (s : Supervisor) : Prop := ∃ time es, performs es (initial time) = Some s.
End supervise.
