(* ===== verification/SupervisorTheorems.v ===== *)
(** * Theorems about the supervisor *)

From S2P Require Import Prelude ProcessSupervisor.

Local Open Scope Z_scope.
Local Open Scope list_scope.

Section theorems.
Context (poll grace : Z) (Hpoll : 0 ≤ poll) (Hgrace : 0 ≤ grace).

(** Whether an exception is on its way out. *)
Definition exceptional (p : Phase) : bool :=
  match p with
  | Finally (Raise _) | FinalKill (Raise _) | FinalWait (Raise _) | Restoring (Raise _) _ | Finished (Raise _) => true
  | _ => false
  end.
Definition alive (c : Child) : Prop := match c with Running | Zombie _ => True | _ => False end.
Definition gone (s : Supervisor) : Prop := (∃ c, child s = Reaped c) ∧ others s = false.
(** What outlives the child was killed. *)
Definition settled (s : Supervisor) : Prop := others s = false ∨ _KILL_SIGNAL ∈ (sent s).*2.
(** The time from which a kill at time [t] is due: the first signal's, or the start's. *)
Definition due (s : Supervisor) (t : Z) : Prop :=
  spawned s + grace ≤ t ∨ ∃ t0, started s = Some t0 ∧ t0 + grace ≤ t.
Definition exit_code (s : Supervisor) (c code : Z) : Prop :=
  (received s = [] → code = c) ∧ (code = c ∨ ∃ signum rest, received s = signum :: rest ∧ code = 128 + signum).

Definition phase_ok (s : Supervisor) : Prop :=
  match phase s with
  | Installing todo => known s = false ∧ child s = NotStarted ∧ handlers s ++ todo = _managed_signals
  | Spawning => known s = false ∧ child s = NotStarted ∧ handlers s = _managed_signals
  | Assigning => known s = false ∧ alive (child s) ∧ handlers s = _managed_signals
  | Forwarding | Waiting | Escalating => known s = true ∧ alive (child s) ∧ handlers s = _managed_signals
  | Deadline c => known s = true ∧ child s = Reaped c ∧ handlers s = _managed_signals
  | Checking c d | Terminating c d | Watching c d | Timing c d =>
      known s = true ∧ child s = Reaped c ∧ handlers s = _managed_signals ∧ due s d
  | Killing c => known s = true ∧ child s = Reaped c ∧ handlers s = _managed_signals ∧ due s (now s)
  | Returning c => known s = true ∧ child s = Reaped c ∧ handlers s = _managed_signals ∧ settled s
  | Finally (Ok code) => known s = true ∧ handlers s = _managed_signals ∧ ∃ c, child s = Reaped c ∧ exit_code s c code ∧ settled s
  | Finally (Raise _) => handlers s = _managed_signals ∧ (known s = false → child s = NotStarted)
  | FinalKill r => known s = true ∧ handlers s = _managed_signals ∧ exceptional (FinalKill r) = true
  | FinalWait r => known s = true ∧ handlers s = _managed_signals ∧ exceptional (FinalWait r) = true
  | Restoring (Ok code) todo => handlers s = todo ∧ NoDup todo ∧ ∃ c, child s = Reaped c ∧ exit_code s c code ∧ settled s
  | Restoring (Raise _) todo => handlers s = todo ∧ NoDup todo ∧ (child s = NotStarted ∨ ∃ c, child s = Reaped c)
  | Finished (Ok code) => handlers s = [] ∧ ∃ c, child s = Reaped c ∧ exit_code s c code ∧ settled s
  | Finished (Raise SupPermissionError) => True
  | Finished (Raise _) => handlers s = [] ∧ (child s = NotStarted ∨ ∃ c, child s = Reaped c)
  end.

Lemma managed_NoDup : NoDup _managed_signals.
Proof. apply (bool_decide_unpack _). vm_compute. exact Logic.I. Qed.

(** Phases in which the first signal has been forwarded. *)
Definition forwarded_by_now (p : Phase) : bool :=
  match p with
  | Waiting | Escalating | Deadline _ | Checking _ _ | Terminating _ _ | Watching _ _ | Timing _ _ | Killing _ | Returning _ => true
  | _ => false
  end.

Record inv (s : Supervisor) : Prop := {
  inv_phase : phase_ok s;
  inv_handlers : handlers s ⊆ _managed_signals;
  inv_received : received s ⊆ _managed_signals;
  inv_started : started s = None ↔ received s = [];
  inv_known : known s = true → child s ≠ NotStarted;
  inv_others : child s = NotStarted → others s = false;
  inv_sent : sent s = [] ∨ known s = true;
  inv_spawned : child s = NotStarted ∨ spawned s ≤ now s;
  inv_kill : ∀ t, (t, _KILL_SIGNAL) ∈ sent s → (2 ≤ length (received s))%nat ∨ due s t ∨ exceptional (phase s) = true;
  inv_first : ∀ signum rest, forwarded_by_now (phase s) = true → received s = signum :: rest → signum ∈ (sent s).*2 ∨ gone s;
}.

Lemma inv_initial time : inv (initial grace time).
Proof.
  unfold initial. destruct (grace <? 0) eqn:E; [lia|]. split; cbn; try done.
  - by intros ? ?%elem_of_nil.
  - by intros ? ?%elem_of_nil.
  - by left.
  - by left.
  - by intros t ?%elem_of_nil.
Qed.

(** The clock. *)
Lemma inv_pass d s : 0 ≤ d → inv s → inv (pass d s).
Proof.
  intros Hd [Hp Hh Hrc Hst Hk Ho Hs Hsp Hkill Hf]. split; try done.
  - unfold phase_ok, due, settled, exit_code in *. cbn in *. destruct (phase s); try done. destruct Hp as (? & ? & ? & Hdue).
    split_and!; try done. destruct Hdue as [?|(t0 & ? & ?)]; [left; lia|right; exists t0; split; [done|lia]].
  - cbn. destruct Hsp; [by left|right; lia].
Qed.

(** The processes. *)
Lemma inv_exit code s : child s = Running → inv s → inv (set_child (Zombie code) s).
Proof.
  intros Hr [Hp Hh Hrc Hst Hk Ho Hs Hsp Hkill Hf]. split; try done.
  - unfold phase_ok in *. cbn in *. rewrite Hr in Hp. destruct (phase s) as [| | | | | | | | | | | | |[]|[]|[]|[] |[|[]]]; naive_solver.
  - cbn. rewrite Hr in Hsp. by destruct Hsp; [|right].
  - intros signum rest Hf' Hrec. destruct (Hf signum rest Hf' Hrec) as [|[[c Hc] _]]; [by left|congruence].
Qed.

Lemma inv_set_others b s : b = false ∨ others s = true ∨ child s = Running → inv s → inv (set_others b s).
Proof.
  intros Hb [Hp Hh Hrc Hst Hk Ho Hs Hsp Hkill Hf].
  assert (∀ c, child s = Reaped c → others s = false → b = false) as Hgone by (intros c Hc Hfalse; destruct Hb as [|[|]]; congruence).
  assert (∀ c, child s = Reaped c → settled s → settled (set_others b s)) as Hset.
  { intros c Hc [Hfalse|]; [left; cbn; by eapply Hgone|by right]. }
  split; try done.
  - unfold phase_ok, due, exit_code in *. cbn in *. destruct (phase s) as [| | | | | | | | | | | | |[]|[]|[]|[] |[|[]]]; naive_solver.
  - cbn in *. intros Hn. specialize (Ho Hn). destruct Hb as [|[|]]; congruence.
  - intros signum rest Hf' Hrec. destruct (Hf signum rest Hf' Hrec) as [|[[c Hc] Hfalse]]; [by left|right].
    split; [by exists c|]. cbn. by eapply Hgone.
Qed.

(** A signal: first what the handler notes. *)
Lemma due_receive signum s t : inv s → due s t → due (receive signum s) t.
Proof.
  intros Hi [?|(t0 & Hs & ?)]; [by left|right]. exists t0. split; [|done]. cbn.
  destruct (received s) eqn:E; [|done]. apply (inv_started s Hi) in E. congruence.
Qed.

Lemma exit_code_receive signum s c code : exit_code s c code → exit_code (receive signum s) c code.
Proof.
  intros [H1 H2]. split; cbn; [by intros ?%app_nil; naive_solver|]. destruct H2 as [|(s0 & rest & E & ?)]; [by left|right].
  exists s0, (rest ++ [signum]). by rewrite E.
Qed.

Lemma phase_ok_receive signum s : inv s → phase_ok s → phase_ok (receive signum s).
Proof.
  intros Hi. pose proof (due_receive signum s) as Hd. pose proof (exit_code_receive signum s) as He.
  unfold phase_ok, settled. cbn [phase receive known child handlers others sent now].
  destruct (phase s) as [| | | | | | | | | | | | |[]|[]|[]|[] |[|[]]]; naive_solver.
Qed.

(** Everything but that the first signal was forwarded. *)
Record noted (s : Supervisor) : Prop := {
  noted_phase : phase_ok s;
  noted_handlers : handlers s ⊆ _managed_signals;
  noted_received : received s ⊆ _managed_signals;
  noted_started : started s = None ↔ received s = [];
  noted_known : known s = true → child s ≠ NotStarted;
  noted_others : child s = NotStarted → others s = false;
  noted_sent : sent s = [] ∨ known s = true;
  noted_spawned : child s = NotStarted ∨ spawned s ≤ now s;
  noted_kill : ∀ t, (t, _KILL_SIGNAL) ∈ sent s → (2 ≤ length (received s))%nat ∨ due s t ∨ exceptional (phase s) = true;
}.

Lemma inv_noted s : inv s ↔ noted s ∧
  ∀ signum rest, forwarded_by_now (phase s) = true → received s = signum :: rest → signum ∈ (sent s).*2 ∨ gone s.
Proof. split; [intros [????????? Hf]; split; [by split|exact Hf]|]. intros [[] ?]. by split. Qed.

Lemma noted_receive signum s : signum ∈ handlers s → inv s → noted (receive signum s).
Proof.
  intros Hsig Hi. destruct (Hi) as [Hp Hh Hrc Hst Hk Ho Hs Hsp Hkill Hf]. split; try done.
  - by apply phase_ok_receive.
  - cbn. intros x [?%Hrc| ->%list_elem_of_singleton]%elem_of_app; [done|by apply Hh].
  - cbn. split; [|by intros ?%app_nil; naive_solver]. destruct (received s) eqn:E; [done|]. intros ?%Hst. done.
  - intros t [?|[?|?]]%Hkill; [left|right; left; by apply due_receive|right; by right]. cbn. rewrite length_app. cbn. lia.
Qed.

(** A signal that reaches the group. *)
Lemma noted_log signum s :
  noted s → known s = true →
  (signum = _KILL_SIGNAL → (2 ≤ length (received s))%nat ∨ due s (now s) ∨ exceptional (phase s) = true) →
  noted (log_sent signum s).
Proof.
  intros [Hp Hh Hrc Hst Hk Ho Hs Hsp Hkill] Hkn Hdue. split; try done.
  - assert (settled s → settled (log_sent signum s)) as Hset by (intros [?|?]; [by left|right; cbn; rewrite fmap_app; set_solver]).
    unfold phase_ok in *. cbn [phase known child handlers log_sent now].
    destruct (phase s) as [| | | | | | | | | | | | |[]|[]|[]|[] |[|[]]]; naive_solver.
  - by right.
  - cbn. intros t [?%Hkill|[= -> <-]%list_elem_of_singleton]%elem_of_app; [done|]. by apply Hdue.
Qed.

(** An exception. *)
Lemma noted_raising e s : noted s → (e = SupPermissionError ∨ inside_try (phase s) = true) → known s = true ∨ child s = NotStarted →
  noted (raising e s).
Proof.
  intros [Hp Hh Hrc Hst Hk Ho Hs Hsp Hkill] He Hkc. unfold raising. split; try done.
  - unfold phase_ok in Hp |- *. cbn [phase set_phase handlers known child].
    destruct (inside_try (phase s)) eqn:E; [|by destruct He as [-> |]].
    destruct (phase s) as [| | | | | | | | | | | | |[]|[]|[]|[] |[|[]]]; try done;
      (split; [tauto|intros Hn; destruct Hkc; [congruence|done]]).
  - intros t Ht. right; right. cbn. by destruct (inside_try _).
Qed.

Lemma tree_gone s : known s = true → noted s → _launch_tree_exists s = false → gone s.
Proof.
  intros Hkn Hn [Ho Hc]%orb_false_iff. split; [|done]. pose proof (noted_known s Hn Hkn).
  destruct (child s) as [| | |c]; try done. by exists c.
Qed.

Lemma inv_forward refused signum s : signum ∈ handlers s → inv s → inv (forward refused signum s).
Proof.
  intros Hsig Hi. pose proof (noted_receive signum s Hsig Hi) as Hn. unfold forward. set (s' := receive signum s) in *. cbv zeta.
  assert (signum ≠ _KILL_SIGNAL) as Hne.
  { intros ->. pose proof (inv_handlers s Hi _ Hsig) as Hin. revert Hin. not_in_list. }
  change (known s') with (known s). destruct (known s) eqn:Hkn.
  2:{ apply inv_noted. split; [done|]. intros x rest Hf. pose proof (inv_phase s Hi) as Hp. unfold phase_ok in Hp.
      change (phase s') with (phase s) in Hf. destruct (phase s); try done; destruct_and?; congruence. }
  unfold _signal_launch_tree. destruct (_launch_tree_exists s') eqn:Ht.
  - destruct refused.
    { apply inv_noted. split; [apply noted_raising; [done|by left|by left]|]. intros x rest.
      unfold raising. cbn [phase set_phase]. by destruct (inside_try _). }
    apply inv_noted. split.
    + apply noted_log; [done..|]. destruct (1 <? length (received s'))%nat eqn:E; [|done]. apply Nat.ltb_lt in E. intros _. left. lia.
    + intros x rest Hf Hr. left. cbn [sent log_sent]. rewrite fmap_app, elem_of_app. change (sent s') with (sent s).
      change (received s') with (received s ++ [signum]) in *. cbn [received log_sent] in Hr.
      change (received s') with (received s ++ [signum]) in Hr.
      destruct (received s) as [|y l] eqn:E; cbn [app] in *; [|injection Hr as -> _].
      * injection Hr as -> _. right. by left.
      * destruct (inv_first s Hi x l Hf E) as [|[[c Hc] Ho]]; [by left|]. unfold _launch_tree_exists in Ht. cbn in Ht.
        rewrite Hc, Ho in Ht. done.
  - apply inv_noted. split; [done|]. intros x rest _ _. right. by apply tree_gone.
Qed.

(** A step that sends a signal. *)
Lemma inv_signalling refused signum next s :
  noted s → known s = true → inside_try (phase s) = true ∨ exceptional (phase s) = true →
  (signum = _KILL_SIGNAL → (2 ≤ length (received s))%nat ∨ due s (now s) ∨ exceptional (phase s) = true) →
  (phase_ok s → ∀ s', (s' = s ∧ gone s ∨ s' = log_sent signum s) → phase_ok (set_phase next s')) →
  (exceptional (phase s) = true → exceptional next = true) →
  (∀ x rest, forwarded_by_now next = true → received s = x :: rest → x ∈ (sent s).*2 ∨ x = signum ∨ gone s) →
  inv (signalling refused signum next s).
Proof.
  intros Hn Hkn Htry Hdue Hok Hex Hfirst. unfold signalling, _signal_launch_tree.
  assert (∀ s', noted s' → phase_ok (set_phase next s') → received s' = received s → started s' = started s → spawned s' = spawned s →
    (exceptional (phase s') = true → exceptional next = true) → noted (set_phase next s')) as Hset.
  { intros s' [] ? ? ? ? Hx. split; try done. intros t [?|[?|?]]%noted_kill0; [by left|right; by left|right; right; by apply Hx]. }
  destruct (_launch_tree_exists s) eqn:Ht.
  - destruct refused.
    { apply inv_noted. split.
      - apply noted_raising; [done|by left|by left].
      - intros x rest. unfold raising. cbn. by destruct (inside_try _). }
    apply inv_noted. split.
    + apply Hset; try done; [by apply noted_log|apply Hok; [apply Hn|by right]].
    + intros x rest Hf Hr. destruct (Hfirst x rest Hf Hr) as [|[->|Hg]]; [left..|by right]; cbn; rewrite fmap_app; set_solver.
  - apply inv_noted. pose proof (tree_gone s Hkn Hn Ht) as Hg. split; [|intros; by right].
    apply Hset; try done. apply Hok; [apply Hn|by left].
Qed.

(** A step that sends none: only the phase and what it says change. *)
Lemma inv_set_phase p s :
  inv s → phase_ok (set_phase p s) → (exceptional (phase s) = true → exceptional p = true) →
  (forwarded_by_now p = true → forwarded_by_now (phase s) = true ∨ received s = [] ∨ gone s) →
  inv (set_phase p s).
Proof.
  intros Hi Hok Hex Hf. apply inv_noted. split.
  - destruct Hi as [Hp Hh Hrc Hst Hk Ho Hs Hsp Hkill _]. split; try done.
    intros t [?|[?|?]]%Hkill; [by left|right; by left|right; right; by apply Hex].
  - intros x rest Hp Hr. destruct (Hf Hp) as [Hb|[Hb|Hb]]; [by apply (inv_first s Hi x rest)| |by right].
    cbn in Hr. congruence.
Qed.

Lemma inv_reap c p s :
  inv s → child s = Zombie c → phase_ok (set_phase p (set_child (Reaped c) s)) →
  (exceptional (phase s) = true → exceptional p = true) → (forwarded_by_now p = true → forwarded_by_now (phase s) = true) →
  inv (set_phase p (set_child (Reaped c) s)).
Proof.
  intros [Hp Hh Hrc Hst Hk Ho Hs Hsp Hkill Hf] Hz Hok Hex Hfw. split; try done.
  - right. by destruct Hsp; [congruence|].
  - intros t [?|[?|?]]%Hkill; [by left|right; by left|right; right; by apply Hex].
  - intros x rest Hb Hr. destruct (Hf x rest (Hfw Hb) Hr) as [?|[[c' Hc'] _]]; [by left|congruence].
Qed.

Ltac phase_facts :=
  match goal with
  | Hi : inv ?s, E : phase ?s = _ |- _ => pose proof (inv_phase s Hi) as Hphase; unfold phase_ok in Hphase; rewrite E in Hphase
  end.

Lemma inv_handled l p s :
  inv s → l ⊆ handlers s ∨ (∀ x, x ∈ l → x ∈ _managed_signals) → phase_ok (set_phase p (set_handlers l s)) →
  (exceptional (phase s) = true → exceptional p = true) → forwarded_by_now p = false →
  inv (set_phase p (set_handlers l s)).
Proof.
  intros [Hp Hh Hrc Hst Hk Ho Hs Hsp Hkill Hf] Hl Hok Hex Hfw. split; try done.
  - cbn. destruct Hl as [Hl|Hl]; [by etrans|done].
  - intros t [?|[?|?]]%Hkill; [by left|right; by left|right; right; by apply Hex].
  - cbn. intros x rest Hb. congruence.
Qed.

Lemma inv_run fails s s' : inv s → run poll grace fails s = Some s' → inv s'.
Proof.
  intros Hi. pose proof (proj1 (proj1 (inv_noted s) Hi)) as Hn. unfold run. destruct (phase s) as [[|signum todo]| | | | | |code|code d|code d|code d|code d|code|code|r|r|r|r [|signum todo]|r] eqn:E.
  all: phase_facts.
  - intros [= <-]. apply inv_set_phase; [done| |by rewrite E|done]. destruct Hphase as (? & ? & Hh).
    rewrite app_nil_r in Hh. done.
  - intros [= <-]. destruct Hphase as (? & ? & Hh). apply inv_handled; [done| | |by rewrite E|done].
    + right. intros x Hx. rewrite <-Hh. set_solver.
    + cbn. split_and!; [done..|]. by rewrite <-app_assoc.
  - destruct Hphase as (Hkn & Hc & Hh). destruct fails; intros [= <-].
    { unfold raising. rewrite E. cbn [inside_try]. apply inv_set_phase; [done|by split|by rewrite E|done]. }
    destruct Hn. apply inv_noted. split; [|done]. split; try done; [by right|]. cbn. intros t Ht. destruct noted_sent0 as [Hs|]; [|congruence].
    rewrite Hs in Ht. by apply elem_of_nil in Ht.
  - destruct Hphase as (Hkn & Hc & Hh). intros [= <-]. destruct Hn. apply inv_noted. split; [|done]. split; try done.
    + by intros _ Hx; cbn in Hx; rewrite Hx in Hc.
    + by right.
    + cbn. intros t Ht. apply noted_kill0 in Ht. by rewrite E in Ht.
  - destruct Hphase as (Hkn & Hc & Hh). destruct (received s) as [|x rest] eqn:Hr; intros [= <-].
    { apply inv_set_phase; [done|done|by rewrite E|by right; left]. }
    apply inv_signalling; [done..|by left; rewrite E| |by intros _ s' [[-> _]| ->]|by rewrite E|].
    + intros ->. exfalso. assert (_KILL_SIGNAL ∈ _managed_signals) as Hin by (apply (inv_received s Hi); rewrite Hr; by left).
      revert Hin. not_in_list.
    + intros y rest' _ Hy. right; left. congruence.
  - destruct Hphase as (Hkn & Hc & Hh). destruct (child s) as [| |c|c] eqn:Ec; try done; intros [= <-].
    + apply inv_set_phase; [by apply inv_pass| |cbn; by rewrite E|intros _; left; cbn; by rewrite E].
      unfold phase_ok. cbn. by rewrite Ec.
    + apply inv_reap; [done..|by rewrite E|by rewrite E].
  - destruct Hphase as (Hkn & Hc & Hh). assert (noted (set_escalated s)) as Hn' by (destruct Hn; by split).
    destruct (negb (bool_decide (received s = [])) && negb (escalated s) && grace_over grace s) eqn:Hb; intros [= <-].
    + apply andb_true_iff in Hb as [_ Hb]. unfold grace_over in Hb. destruct (started s) as [t0|] eqn:Et; [|done].
      apply Z.leb_le in Hb. apply inv_signalling; [done..|left; by cbn; rewrite E| |by intros _ s' [[-> _]| ->]|by cbn; rewrite E|].
      * intros _. right; left; right. exists t0. split; [done|]. cbn. lia.
      * intros x rest _ Hr. destruct (inv_first s Hi x rest) as [?|?]; [by rewrite E|done|by left|by right; right].
    + apply inv_set_phase; [done|done|by rewrite E|intros _; left; by rewrite E].
  - destruct Hphase as (Hkn & Hc & Hh). intros [= <-]. apply inv_set_phase; [done| |by rewrite E|intros _; left; by rewrite E].
    unfold phase_ok. cbn. split_and!; [done..|]. unfold due. destruct (started s) as [t0|] eqn:Et; cbn [set_phase spawned started]; rewrite Et.
    + right. exists t0. split; [done|]. lia.
    + left. destruct (inv_spawned s Hi) as [?|?]; [congruence|]. lia.
  - destruct Hphase as (Hkn & Hc & Hh & Hd). intros [= <-].
    apply inv_set_phase; [done| |rewrite E; by destruct (_launch_tree_exists s)|intros _; left; by rewrite E].
    destruct (_launch_tree_exists s) eqn:Ht; unfold phase_ok; cbn; split_and!; try done.
    left. by apply orb_false_iff in Ht as [? _].
  - destruct Hphase as (Hkn & Hc & Hh & Hd). intros [= <-].
    apply inv_signalling; [done..|by left; rewrite E|done|by intros _ s' [[-> _]| ->]|by rewrite E|].
    intros x rest _ Hr. destruct (inv_first s Hi x rest) as [?|?]; [by rewrite E|done|by left|by right; right].
  - destruct Hphase as (Hkn & Hc & Hh & Hd). intros [= <-].
    apply inv_set_phase; [done| |rewrite E; by destruct (_launch_tree_exists s)|intros _; left; by rewrite E].
    destruct (_launch_tree_exists s) eqn:Ht; unfold phase_ok; cbn; split_and!; try done.
    left. by apply orb_false_iff in Ht as [? _].
  - destruct Hphase as (Hkn & Hc & Hh & Hd). destruct (d <=? now s) eqn:El; intros [= <-].
    + apply Z.leb_le in El. apply inv_set_phase; [done| |by rewrite E|intros _; left; by rewrite E].
      unfold phase_ok. cbn. split_and!; try done. destruct Hd as [?|(t0 & ? & ?)]; [left; cbn; lia|right; exists t0; split; [done|cbn; lia]].
    + apply inv_set_phase; [by apply inv_pass|done|cbn; by rewrite E|intros _; left; cbn; by rewrite E].
  - destruct Hphase as (Hkn & Hc & Hh & Hd). intros [= <-].
    apply inv_signalling; [done..|by left; rewrite E|by intros _; right; left| |by rewrite E|].
    + intros _ s' [[-> [_ Hg]]| ->]; unfold phase_ok; cbn; split_and!; try done; [by left|].
      right. cbn. rewrite fmap_app. set_solver.
    + intros x rest _ Hr. destruct (inv_first s Hi x rest) as [?|?]; [by rewrite E|done|by left|by right; right].
  - destruct Hphase as (Hkn & Hc & Hh & Hs). intros [= <-]. apply inv_set_phase; [done| |by rewrite E|done].
    unfold phase_ok. cbn. split_and!; [done..|]. exists code. split_and!; [done| |done].
    unfold exit_code. cbn. destruct (received s) as [|x rest]; split; try done; [by left|]. right. by exists x, rest.
  - assert (handlers s = _managed_signals) as Hh by (destruct r; tauto).
    pose proof managed_NoDup as Hnd. rewrite <-Hh in Hnd. destruct (known s) eqn:Hkn.
    2:{ intros [= <-]. apply inv_set_phase; [done| |rewrite E; by destruct r|done]. unfold phase_ok. cbn.
        destruct r as [code|e]; [by destruct Hphase|]. destruct Hphase as [_ Hc]. split_and!; [done..|]. left. by apply Hc. }
    destruct (child s) as [| |c|c] eqn:Ec; intros [= <-].
    + by destruct (inv_known s Hi Hkn).
    + apply inv_set_phase; [done| |rewrite E; by destruct r|done]. unfold phase_ok. cbn.
      destruct r as [code|e]; [|done]. destruct Hphase as (_ & _ & c & Hc & _). congruence.
    + apply inv_reap; [done..| |rewrite E; by destruct r|done]. unfold phase_ok. cbn.
      destruct r as [code|e]; [|split_and!; [done..|right; by exists c]]. destruct Hphase as (_ & _ & c' & Hc & _). congruence.
    + apply inv_set_phase; [done| |rewrite E; by destruct r|done]. unfold phase_ok. cbn.
      destruct r as [code|e]; [|split_and!; [done..|right; by exists c]]. destruct Hphase as (_ & _ & c' & Hc & He).
      split_and!; [done..|]. exists c'. split; [congruence|exact He].
  - destruct Hphase as (Hkn & Hh & He). intros [= <-]. destruct r as [|e]; [done|].
    apply inv_signalling; [done..|by right; rewrite E|intros _; right; right; by rewrite E|by intros _ s' [[-> _]| ->]|done|done].
  - destruct Hphase as (Hkn & Hh & He). pose proof managed_NoDup as Hnd. rewrite <-Hh in Hnd. destruct r as [|e]; [done|].
    destruct (child s) as [| |c|c] eqn:Ec; try done; intros [= <-].
    + apply inv_reap; [done..| |done|done]. unfold phase_ok. cbn. split_and!; [done..|]. right. by exists c.
    + apply inv_set_phase; [done| |done|done]. unfold phase_ok. cbn. split_and!; [done..|]. right. by exists c.
  - intros [= <-]. apply inv_set_phase; [done| |rewrite E; by destruct r|done]. unfold phase_ok. cbn.
    destruct r as [code|[]]; try done; tauto.
  - intros [= <-]. assert (handlers s = signum :: todo ∧ NoDup (signum :: todo)) as [Hh [Hnew Hnd]%NoDup_cons] by (destruct r; tauto).
    apply inv_handled; [done|left; intros x Hx; by apply list_elem_of_filter in Hx as [_ ?]| |rewrite E; by destruct r|by destruct r].
    assert (filter (λ h, h ≠ signum) (handlers s) = todo) as Hf.
    { rewrite Hh, filter_cons_False by (by intros []). apply filter_whole, Forall_forall. intros x Hx ->. done. }
    unfold phase_ok. cbn. rewrite Hf. destruct r as [code|e]; destruct Hphase as (_ & _ & ?); done.
  - done.
Qed.

Lemma inv_perform e s s' : inv s → perform poll grace e s = Some s' → inv s'.
Proof.
  intros Hi. destruct e as [fails|signum refused|code|b|d]; cbn [perform].
  - by apply inv_run.
  - case_bool_decide; [|done]. intros [= <-]. by apply inv_forward.
  - destruct (child s) eqn:Ec; try done. intros [= <-]. by apply inv_exit.
  - destruct (b && negb (others s) && negb _) eqn:Hb; [done|]. intros [= <-]. apply inv_set_others; [|done].
    destruct b; [|by left]. destruct (others s); [by right; left|]. destruct (child s); try done. by right; right.
  - destruct (d <? 0) eqn:Hd; [done|]. intros [= <-]. apply inv_pass; [lia|done].
Qed.

Lemma inv_performs es s s' : inv s → performs poll grace es s = Some s' → inv s'.
Proof.
  revert s. induction es as [|e es IH]; intros s Hi; cbn [performs]; [by intros [= <-]|].
  destruct (perform poll grace e s) as [s1|] eqn:E; [|done]. apply IH. by eapply inv_perform.
Qed.

Lemma performs_app es es' s : performs poll grace (es ++ es') s = match performs poll grace es s with Some s' => performs poll grace es' s' | None => None end.
Proof. revert s. induction es as [|e es IH]; intros s; [done|]. cbn [app performs]. by destruct (perform poll grace e s). Qed.

Lemma inv_reachable s : reachable poll grace s → inv s.
Proof. intros (time & es & H). eapply inv_performs; [apply inv_initial|exact H]. Qed.

(** C23: When supervise returns a code, whatever signals came and whatever its processes
    did: its child is reaped, the signal handlers are restored, the code is the child's,
    or 128 and the first signal if one came, and every other process of the group is
    gone or the group was sent SIGKILL. When it raises anything but a PermissionError of
    killpg, the handlers are restored and the child was never started or is reaped. *)
Theorem supervised_tree_ends (s : Supervisor) (r : result sup_exn Z) :
  reachable poll grace s → phase s = Finished r →
  match r with
  | Ok code =>
      handlers s = [] ∧
      (∃ c, child s = Reaped c ∧ (received s = [] → code = c) ∧
         (code = c ∨ ∃ signum rest, received s = signum :: rest ∧ code = 128 + signum)) ∧
      (others s = false ∨ _KILL_SIGNAL ∈ (sent s).*2)
  | Raise e => e = SupPermissionError ∨ handlers s = [] ∧ (child s = NotStarted ∨ ∃ c, child s = Reaped c)
  end.
Proof.
  intros Hr%inv_reachable E. pose proof (inv_phase s Hr) as Hp. unfold phase_ok in Hp. rewrite E in Hp.
  destruct r as [code|e]; [|by destruct e; [right|right|left]]. destruct Hp as (? & c & ? & [? ?] & ?).
  split_and!; [done| |done]. by exists c.
Qed.

(** Signals go to the group only once the child was started; in the waiting loop the
    first signal that came has been forwarded; a SIGKILL was sent after a second signal,
    when the grace period of the start or of the first signal was over, or on the way
    out with an exception. *)
Theorem signals_forwarded_kills_due (s : Supervisor) :
  reachable poll grace s →
  (sent s ≠ [] → child s ≠ NotStarted) ∧
  (phase s ∈ [Waiting; Escalating] → ∀ signum rest, received s = signum :: rest → signum ∈ (sent s).*2) ∧
  (∀ t, (t, _KILL_SIGNAL) ∈ sent s →
     (2 ≤ length (received s))%nat ∨ spawned s + grace ≤ t ∨ (∃ t0, started s = Some t0 ∧ t0 + grace ≤ t) ∨
     exceptional (phase s) = true).
Proof.
  intros Hr%inv_reachable. split_and!.
  - intros Hs. destruct (inv_sent s Hr) as [|Hk]; [done|]. by apply inv_known.
  - intros Hp signum rest Hrec. assert (forwarded_by_now (phase s) = true ∧ alive (child s)) as [Hf Ha].
    { pose proof (inv_phase s Hr) as Hok. unfold phase_ok in Hok. rewrite !elem_of_cons, elem_of_nil in Hp.
      destruct Hp as [E|[E|[]]]; rewrite E in Hok |- *; by destruct Hok as (_ & ? & _). }
    destruct (inv_first s Hr signum rest Hf Hrec) as [|[[c Hc] _]]; [done|]. by rewrite Hc in Ha.
  - intros t [?|[[?|?]|?]]%(inv_kill s Hr); auto.
Qed.

(** ** It ends *)

Definition finishing (s : Supervisor) : Prop :=
  ∃ n s' r, performs poll grace (replicate n (Run false)) s = Some s' ∧ phase s' = Finished r.

Lemma finishing_step s s1 : run poll grace false s = Some s1 → finishing s1 → finishing s.
Proof. intros H (n & s' & r & Hn & Hf). exists (S n), s', r. cbn [replicate performs perform]. by rewrite H. Qed.

Lemma finishing_now s r : phase s = Finished r → finishing s.
Proof. intros. by exists 0%nat, s, r. Qed.

Lemma finishing_restoring r todo s : phase s = Restoring r todo → finishing s.
Proof.
  revert s. induction todo as [|x todo IH]; intros s E.
  - eapply finishing_step; [unfold run; by rewrite E|]. by eapply finishing_now.
  - eapply finishing_step; [unfold run; by rewrite E|]. by apply IH.
Qed.

Definition ended (c : Child) : Prop := match c with Zombie _ | Reaped _ => True | _ => False end.

Lemma finishing_finally r s : phase s = Finally r → ended (child s) → finishing s.
Proof.
  intros E Hc. eapply finishing_step; [unfold run; by rewrite E|].
  destruct (known s); [|by eapply finishing_restoring]. destruct (child s); try done; by eapply finishing_restoring.
Qed.

Lemma finishing_returning c s : phase s = Returning c → ended (child s) → finishing s.
Proof. intros E Hc. eapply finishing_step; [unfold run; by rewrite E|]. by eapply finishing_finally. Qed.

Definition over (s : Supervisor) : Prop := ended (child s) ∧ others s = false.

Lemma finishing_signal signum next s :
  (∀ s', over s' → child s' = child s → phase s' = next → finishing s') → over s → finishing (signalling false signum next s).
Proof. intros Hn Ho. unfold signalling, _signal_launch_tree. by destruct (_launch_tree_exists s); apply Hn. Qed.

Lemma over_tree_gone s c : over s → child s = Reaped c → _launch_tree_exists s = false.
Proof. intros [_ Ho] Hc. unfold _launch_tree_exists. by rewrite Ho, Hc. Qed.

Lemma finishing_killing c s : phase s = Killing c → over s → finishing s.
Proof.
  intros E Ho. eapply finishing_step; [unfold run; by rewrite E|]. apply finishing_signal; [|done].
  intros s' [? _] _ ?. by eapply finishing_returning.
Qed.

Lemma finishing_watching c c' d s : phase s = Watching c d → over s → child s = Reaped c' → finishing s.
Proof.
  intros E Ho Hc. eapply finishing_step; [unfold run; by rewrite E|]. rewrite (over_tree_gone s c' Ho Hc).
  eapply finishing_returning; [done|apply Ho].
Qed.

Lemma finishing_checking c c' d s : phase s = Checking c d → over s → child s = Reaped c' → finishing s.
Proof.
  intros E Ho Hc. eapply finishing_step; [unfold run; by rewrite E|]. rewrite (over_tree_gone s c' Ho Hc).
  eapply finishing_returning; [done|apply Ho].
Qed.

Lemma finishing_deadline c c' s : phase s = Deadline c → over s → child s = Reaped c' → finishing s.
Proof. intros E Ho Hc. eapply finishing_step; [unfold run; by rewrite E|]. by eapply finishing_checking. Qed.

Lemma finishing_waiting c s : phase s = Waiting → over s → child s = Zombie c → finishing s.
Proof.
  intros E Ho Hc. eapply finishing_step; [unfold run; rewrite E; by rewrite Hc|]. eapply (finishing_deadline _ c); [done| |done].
  split; [done|apply Ho].
Qed.

Lemma finishing_escalating c s : phase s = Escalating → over s → child s = Zombie c → finishing s.
Proof.
  intros E Ho Hc. eapply finishing_step; [unfold run; by rewrite E|].
  destruct (negb (bool_decide (received s = [])) && negb (escalated s) && grace_over grace s).
  - apply finishing_signal; [|done]. intros s' Ho' Hc' ?. eapply (finishing_waiting c); [done..|]. by rewrite Hc'.
  - by eapply (finishing_waiting c).
Qed.

Lemma finishing_forwarding c s : phase s = Forwarding → over s → child s = Zombie c → finishing s.
Proof.
  intros E Ho Hc. eapply finishing_step; [unfold run; by rewrite E|]. destruct (received s).
  - by eapply (finishing_waiting c).
  - apply finishing_signal; [|done]. intros s' Ho' Hc' ?. eapply (finishing_waiting c); [done..|]. by rewrite Hc'.
Qed.

Lemma finishing_reaped c c' d s :
  phase s = Terminating c d ∨ phase s = Timing c d → over s → child s = Reaped c' → finishing s.
Proof.
  intros [E|E] Ho Hc; (eapply finishing_step; [unfold run; by rewrite E|]).
  - apply finishing_signal; [|done]. intros s' Ho' Hc' ?. eapply finishing_watching; [done..|]. by rewrite Hc'.
  - destruct (d <=? now s); [by eapply finishing_killing|by eapply finishing_watching].
Qed.

Lemma finishing_final_wait r s : phase s = FinalWait r → ended (child s) → finishing s.
Proof.
  intros E Hc. destruct (child s) eqn:Ec; try done;
    (eapply finishing_step; [unfold run; by rewrite E, Ec|by eapply finishing_restoring]).
Qed.

(** Once the child and the processes it left have ended, supervise finishes in a number
    of its own steps, when no killpg is refused. *)
Theorem supervision_ends (s : Supervisor) :
  reachable poll grace s → ended (child s) → others s = false →
  ∃ n s' r, performs poll grace (replicate n (Run false)) s = Some s' ∧ phase s' = Finished r.
Proof.
  intros Hi%inv_reachable Hc Ho. change (finishing s). assert (over s) as Hov by done.
  pose proof (inv_phase s Hi) as Hp. unfold phase_ok in Hp.
  assert (alive (child s) → ∃ c, child s = Zombie c) as Hzombie by (destruct (child s) as [| |c|]; try done; by exists c).
  destruct (phase s) as [todo| | | | | |code|code d|code d|code d|code d|code|code|r|r|r|r todo|r] eqn:E.
  - destruct Hp as (_ & Hn & _). by rewrite Hn in Hc.
  - destruct Hp as (_ & Hn & _). by rewrite Hn in Hc.
  - destruct Hp as (_ & [c Hz]%Hzombie & _). eapply finishing_step; [unfold run; by rewrite E|]. by eapply (finishing_forwarding c).
  - destruct Hp as (_ & [c Hz]%Hzombie & _). by eapply finishing_forwarding.
  - destruct Hp as (_ & [c Hz]%Hzombie & _). by eapply finishing_waiting.
  - destruct Hp as (_ & [c Hz]%Hzombie & _). by eapply finishing_escalating.
  - destruct Hp as (_ & Hr & _). by eapply finishing_deadline.
  - destruct Hp as (_ & Hr & _). by eapply finishing_checking.
  - destruct Hp as (_ & Hr & _). eapply finishing_reaped; [by left|done..].
  - destruct Hp as (_ & Hr & _). by eapply finishing_watching.
  - destruct Hp as (_ & Hr & _). eapply finishing_reaped; [by right|done..].
  - by eapply finishing_killing.
  - by eapply finishing_returning.
  - by eapply finishing_finally.
  - eapply finishing_step; [unfold run; by rewrite E|]. apply finishing_signal; [|done]. intros s' [He _] _ E'.
    by eapply finishing_final_wait.
  - by eapply finishing_final_wait.
  - by eapply finishing_restoring.
  - by eapply finishing_now.
Qed.

(** ** A child that ignores the signals is killed *)

Definition escalation_ok (s : Supervisor) : Prop :=
  escalated s = true → _KILL_SIGNAL ∈ (sent s).*2 ∨ exceptional (phase s) = true.

Lemma escalation_phase p s : escalation_ok s → (exceptional (phase s) = true → exceptional p = true) → escalation_ok (set_phase p s).
Proof. intros H Hp [?|?]%H; [by left|right; by apply Hp]. Qed.

Lemma exceptional_raising e s : escalation_ok (raising e s).
Proof. intros _. right. unfold raising. cbn. by destruct (inside_try _). Qed.

Lemma escalation_sent signum s : escalation_ok s → escalation_ok (log_sent signum s).
Proof. intros H [?|?]%H; [left|by right]. cbn. rewrite fmap_app. set_solver. Qed.

Lemma escalation_signalling refused signum next s :
  escalation_ok s → (exceptional (phase s) = true → exceptional next = true) → escalation_ok (signalling refused signum next s).
Proof.
  intros H Hn. unfold signalling, _signal_launch_tree. destruct (_launch_tree_exists s); [|by apply escalation_phase].
  destruct refused; [apply exceptional_raising|]. apply escalation_phase; [by apply escalation_sent|done].
Qed.

Lemma escalation_forward refused signum s : escalation_ok s → escalation_ok (forward refused signum s).
Proof.
  intros H. unfold forward, _signal_launch_tree. cbv zeta. assert (escalation_ok (receive signum s)) as Hr by done.
  destruct (known (receive signum s)); [|done]. destruct (_launch_tree_exists (receive signum s)); [|done].
  destruct refused; [apply exceptional_raising|by apply escalation_sent].
Qed.

Lemma escalation_run fails s s' : inv s → escalation_ok s → run poll grace fails s = Some s' → escalation_ok s'.
Proof.
  intros Hi H. pose proof (inv_phase s Hi) as Hp. unfold phase_ok in Hp. unfold run.
  destruct (phase s) as [[|x todo]| | | | | |code|code d|code d|code d|code d|code|code|r|r|r|r [|x todo]|r] eqn:E;
    try (intros [= <-]; apply escalation_phase; [exact H|cbn; rewrite E; by destruct r]);
    try (intros [= <-]; by apply escalation_phase; [exact H|cbn; rewrite E]).
  - intros [= <-]. destruct fails; [apply exceptional_raising|]. apply escalation_phase; [exact H|cbn; by rewrite E].
  - intros [= <-]. destruct (received s); [apply escalation_phase|apply escalation_signalling]; by rewrite ?E.
  - destruct (child s); try done; intros [= <-]; (apply escalation_phase; [exact H|cbn; by rewrite E]).
  - intros [= <-]. destruct (_ && _ && _); [|by apply escalation_phase; rewrite ?E].
    destruct Hp as (_ & Ha & _). unfold signalling, _signal_launch_tree.
    assert (_launch_tree_exists (set_escalated s) = true) as -> by (unfold _launch_tree_exists; cbn; destruct (child s); try done; apply orb_true_r).
    destruct fails; [apply exceptional_raising|]. intros _. left. cbn. rewrite fmap_app. set_solver.
  - intros [= <-]. apply escalation_signalling; by rewrite ?E.
  - intros [= <-]. destruct (d <=? now s); (apply escalation_phase; [exact H|cbn; by rewrite E]).
  - intros [= <-]. apply escalation_signalling; by rewrite ?E.
  - intros [= <-]. destruct (known s); [destruct (child s)|]; (apply escalation_phase; [exact H|cbn; rewrite E; by destruct r]).
  - intros [= <-]. apply escalation_signalling; [done|rewrite E; by destruct r].
  - destruct (child s); try done; intros [= <-]; (apply escalation_phase; [exact H|cbn; rewrite E; by destruct r]).
Qed.

Lemma escalation_performs es s s' : inv s → escalation_ok s → performs poll grace es s = Some s' → escalation_ok s'.
Proof.
  revert s. induction es as [|e es IH]; intros s Hi H; cbn [performs]; [by intros [= <-]|].
  destruct (perform poll grace e s) as [s1|] eqn:E; [|done]. apply IH; [by eapply inv_perform|].
  destruct e as [fails|signum refused|code|b|d]; cbn [perform] in E.
  - by eapply escalation_run.
  - case_bool_decide; [|done]. injection E as <-. by apply escalation_forward.
  - destruct (child s); try done. by injection E as <-.
  - destruct (b && _ && _); [done|]. by injection E as <-.
  - destruct (d <? 0); [done|]. by injection E as <-.
Qed.

(** Two steps of the waiting loop: the kill, or one poll closer to it. *)
Lemma polled s t0 :
  phase s = Waiting → child s = Running → received s ≠ [] → escalated s = false → started s = Some t0 →
  ∃ s', performs poll grace [Run false; Run false] s = Some s' ∧
    (_KILL_SIGNAL ∈ (sent s').*2 ∨
     phase s' = Waiting ∧ child s' = Running ∧ received s' ≠ [] ∧ escalated s' = false ∧ started s' = Some t0 ∧
       now s' = now s + poll ∧ now s' < t0 + grace).
Proof.
  intros E Hc Hr He Hs. cbn [performs perform]. unfold run at 1. rewrite E, Hc. cbn [run phase set_phase received escalated pass].
  assert (bool_decide (received s = []) = false) as -> by by apply bool_decide_eq_false.
  rewrite He. cbn [negb andb]. unfold grace_over. cbn [started set_phase pass now]. rewrite Hs.
  destruct (grace <=? now s + poll - t0) eqn:Hg; (eexists; split; [done|]).
  - left. unfold signalling, _signal_launch_tree. assert (_launch_tree_exists (set_escalated (set_phase Escalating (pass poll s))) = true) as ->.
    { unfold _launch_tree_exists. cbn. rewrite Hc. apply orb_true_r. }
    cbn. rewrite fmap_app. set_solver.
  - right. apply Z.leb_gt in Hg. split_and!; try done. cbn. lia.
Qed.

Lemma performs_run_app n m s s1 s2 :
  performs poll grace (replicate n (Run false)) s = Some s1 → performs poll grace (replicate m (Run false)) s1 = Some s2 →
  performs poll grace (replicate (n + m) (Run false)) s = Some s2.
Proof. intros H1 H2. by rewrite replicate_add, performs_app, H1. Qed.

Lemma kill_after (k : nat) s t0 :
  0 < poll → t0 + grace ≤ now s + Z.of_nat k * poll + poll →
  phase s = Waiting → child s = Running → received s ≠ [] → escalated s = false → started s = Some t0 →
  ∃ n s', (n ≤ 2 * k + 2)%nat ∧ performs poll grace (replicate n (Run false)) s = Some s' ∧ _KILL_SIGNAL ∈ (sent s').*2.
Proof.
  intros Hpos. revert s. induction k as [|k IH]; intros s Hk E Hc Hr He Hs;
    destruct (polled s t0 E Hc Hr He Hs) as (s1 & H1 & [Hkill|(E1 & Hc1 & Hr1 & He1 & Hs1 & Hn1 & Hlt)]);
    try (exists 2%nat, s1; split_and!; [lia|done..]).
  - lia.
  - destruct (IH s1) as (n & s2 & Hn & H2 & Hkill); [lia|done..|].
    exists (2 + n)%nat, s2. split_and!; [lia| |done]. by eapply performs_run_app.
Qed.

(** C31: Once a signal has come, a child that ignores it is killed: from any reachable
    state of the waiting loop, the group has been sent SIGKILL after at most two steps
    for each poll interval left of the grace period and two more, when no killpg is
    refused. *)
Theorem ignored_signal_kills (s : Supervisor) (t0 : Z) :
  0 < poll → reachable poll grace s → phase s = Waiting → child s = Running → started s = Some t0 →
  ∃ n s', (n ≤ 2 * Z.to_nat ((t0 + grace - now s)%Z / poll)%Z + 2)%nat ∧
    performs poll grace (replicate n (Run false)) s = Some s' ∧ _KILL_SIGNAL ∈ (sent s').*2.
Proof.
  intros Hpos (time & es & Hes) E Hc Hs.
  assert (inv s) as Hi by (eapply inv_performs; [apply inv_initial|exact Hes]).
  assert (received s ≠ []) as Hr by (intros Hn%(inv_started s Hi); congruence).
  destruct (escalated s) eqn:He.
  - exists 0%nat, s. split_and!; [lia|done|].
    assert (escalation_ok s) as Hok.
    { eapply escalation_performs; [apply inv_initial| |exact Hes]. unfold initial. by destruct (grace <? 0). }
    destruct (Hok He) as [|Hx]; [done|]. by rewrite E in Hx.
  - apply (kill_after _ s t0); try done.
    pose proof (Z.mul_succ_div_gt (t0 + grace - now s) poll Hpos).
    destruct (Z.le_gt_cases 0 ((t0 + grace - now s) / poll)); [rewrite Z2Nat.id by done; lia|].
    rewrite (Z2Nat.nonpos ((t0 + grace - now s) / poll)) by lia. nia.
Qed.
End theorems.

(** ** Runs

    A poll of one unit and a grace period of three. *)
Module Example.
Definition runs (n : nat) : list Event := replicate n (Run false).
Definition after (es : list Event) : Supervisor := default (initial 3 0) (performs 1 3 es (initial 3 0)).

Lemma after_reachable es : bool_decide (is_Some (performs 1 3 es (initial 3 0))) = true → reachable 1 3 (after es).
Proof. intros [s E]%bool_decide_eq_true. exists 0, es. unfold after. by rewrite E. Qed.

(** Seven steps lead to the waiting loop. *)
Definition waiting : list Event := runs 7.
(** A child that ends upon the first SIGTERM and leaves a process that ignores it. *)
Definition stopped : list Event := waiting ++ [Signal SIGTERM false; Others true; Run false; Run false; Exit 0] ++ runs 17.
Definition ignoring : list Event := waiting ++ [Signal SIGTERM false].
Definition exited : list Event := waiting ++ [Signal SIGTERM false; Exit 0].

Example stopped_run :
  phase (after stopped) = Finished (Ok 143) ∧ (sent (after stopped)).*2 = [SIGTERM; SIGTERM; _KILL_SIGNAL] ∧ handlers (after stopped) = [].
Proof. by vm_compute. Qed.

(** A signal that comes between the start of the child and line 112 is forwarded twice: by the
    handler, since [child] is set, and by line 113, since [received] is not empty. *)
Example early_signal_forwarded_twice :
  let s := after (runs 6 ++ [Signal SIGINT false; Run false]) in
  phase s = Waiting ∧ received s = [SIGINT] ∧ (sent s).*2 = [SIGINT; SIGINT].
Proof. by vm_compute. Qed.

(** Two signals before [child] is set: no SIGKILL, only the first is forwarded. *)
Example early_second_signal_does_not_escalate :
  let s := after (runs 5 ++ [Signal SIGTERM false; Signal SIGTERM false; Run false; Run false]) in
  phase s = Waiting ∧ received s = [SIGTERM; SIGTERM] ∧ (sent s).*2 = [SIGTERM].
Proof. by vm_compute. Qed.

(** A process of the group that has been sent SIGKILL may still be there when [supervise] returns. *)
Example survivors_not_awaited : phase (after stopped) = Finished (Ok 143) ∧ others (after stopped) = true.
Proof. by vm_compute. Qed.

(** A refused [killpg] in the [finally] block leaves the child running and the handlers installed. *)
Example refused_kill_leaks :
  let s := after (waiting ++ [Signal SIGTERM true; Run false; Run true]) in
  phase s = Finished (Raise SupPermissionError) ∧ child s = Running ∧ handlers s = _managed_signals.
Proof. by vm_compute. Qed.

Lemma supervised_tree_ends_witness :
  handlers (after stopped) = [] ∧
  (∃ c, child (after stopped) = Reaped c ∧ (received (after stopped) = [] → 143 = c) ∧
     (143 = c ∨ ∃ signum rest, received (after stopped) = signum :: rest ∧ 143 = 128 + signum)) ∧
  (others (after stopped) = false ∨ _KILL_SIGNAL ∈ (sent (after stopped)).*2).
Proof. apply (supervised_tree_ends 1 3 ltac:(lia) ltac:(lia) _ (Ok 143)); [by apply after_reachable|by vm_compute]. Defined.

Lemma signals_forwarded_kills_due_witness :
  ∀ signum rest, received (after ignoring) = signum :: rest → signum ∈ (sent (after ignoring)).*2.
Proof.
  apply (signals_forwarded_kills_due 1 3 ltac:(lia) ltac:(lia)); [by apply after_reachable|].
  change (phase (after ignoring)) with Waiting. by left.
Defined.

Lemma supervision_ends_witness :
  ∃ n s' r, performs 1 3 (replicate n (Run false)) (after exited) = Some s' ∧ phase s' = Finished r.
Proof. apply (supervision_ends 1 3 ltac:(lia) ltac:(lia)); [by apply after_reachable|by vm_compute|by vm_compute]. Defined.

Lemma ignored_signal_kills_witness :
  ∃ n s', (n ≤ 8)%nat ∧ performs 1 3 (replicate n (Run false)) (after ignoring) = Some s' ∧ _KILL_SIGNAL ∈ (sent s').*2.
Proof.
  apply (ignored_signal_kills 1 3 ltac:(lia) ltac:(lia) (after ignoring) 0); [lia|by apply after_reachable|by vm_compute..].
Defined.
End Example.
