(* ===== verification/ManagerController.v ===== *)
(** * The manager-owned launch: [src/vllm_hust_ext/manager_controller.py]

    The checks of [launch_managed] and the environment of the target as functions of what the
    operating system reports; then the launch itself as a state machine whose events are its
    own next step, a signal to the Manager, what the target does and the clock.  The handlers
    that [launch_managed] replaces are Python's own: SIGINT raises [KeyboardInterrupt], SIGTERM
    ends the process.  The directory of the journals is that of [HostEventSink], the environment
    is read by [HostJournal]; the target is the leader of a process group of its own. *)

From S2P Require Import Prelude PyStd JsonText HostEventSink ProcessSupervisor.
From S2P Require EcpaModel PlanArtifact Manifest Discovery HostJournal.

Local Open Scope string_scope.
Local Open Scope list_scope.

Definition ACTIVATION_CONTRACT : string := "manager-controlled-activation".
Definition HOST_SINK : string := "vllm_hust_ext.host_event_sink:append_event".
Definition CONTROLLED_ENVIRONMENT : list string :=
  ["VLLM_ECPA_PLAN_ID"; "VLLM_ECPA_LAUNCH_ID"; "VLLM_ECPA_EVIDENCE_SINK"; "VLLM_ECPA_EVIDENCE_STRICT";
   "ECPA_HOST_EVENT_DIR"; "ECPA_HOST_EVENT_FSYNC"; "ECPA_HOST_EVENT_DEVICE"; "ECPA_HOST_EVENT_INODE";
   "ECPA_CONTROLLER_INSTANCE"; "ECPA_ACTIVATION_CONTRACT"].

Inductive ctl_exn : Type :=
  | CtlValueError (detail : string)
  | CtlOSError
  | CtlArtifact (e : PlanArtifact.artifact_exn).

Definition activation_probe_receipt : string :=
  EcpaModel.canonical_bytes (JObj
    [("schema", JStr "ecpa-activation-probe/v1");
     ("activation_contract", JStr ACTIVATION_CONTRACT);
     ("accepted_options", JArr (JStr <$>
        ["--controller-instance"; "--host-event-dir"; "--launch-id"; "--plan"; "--target-executable-device";
         "--target-executable-inode"; "--target-executable-sha256"; "formal-run"]))]) +:+ newline.

(** ** The environment of the target *)

(** Of a [str], as every caller passes. *)
Definition _identity (value name prefix : string) : result ctl_exn string :=
  _ ← raise_if (negb (starts_with prefix value) || bool_decide (value = prefix) || negb (is_stripped value) ||
                PlanArtifact.has_space value)
        (CtlValueError (name +:+ " is not a canonical '" +:+ prefix +:+ "' identity"));
  Ok value.

Definition Variables : Type := gmap string string.

Definition desired (plan_id launch_id controller_instance path : string) (d : Directory) : list (string * string) :=
  [("VLLM_ECPA_PLAN_ID", plan_id);
   ("VLLM_ECPA_LAUNCH_ID", launch_id);
   ("VLLM_ECPA_EVIDENCE_SINK", HOST_SINK);
   ("VLLM_ECPA_EVIDENCE_STRICT", "1");
   ("ECPA_HOST_EVENT_DIR", path);
   ("ECPA_HOST_EVENT_FSYNC", "1");
   ("ECPA_HOST_EVENT_DEVICE", pretty (d_device d));
   ("ECPA_HOST_EVENT_INODE", pretty (d_inode d));
   ("ECPA_CONTROLLER_INSTANCE", controller_instance);
   ("ECPA_ACTIVATION_CONTRACT", ACTIVATION_CONTRACT)].

Definition plan_id_of (a : PlanArtifact.ExecutionPlanArtifact) : string :=
  EcpaModel.Plan_plan_id (PlanArtifact.artifact_plan a).

(** [str(Path(s))] on POSIX: one slash between components, two at the start kept, no [.] *)
Definition path_text (s : string) : string :=
  let root := if starts_with "//" s && negb (starts_with "///" s) then "//" else if starts_with "/" s then "/" else "" in
  let text := root +:+ join "/" (filter (λ p, p ≠ "" ∧ p ≠ ".") (Discovery.split_char 47 s)) in
  if bool_decide (text = "") then "." else text.

(** [d]: the directory [host_event_dir] names. *)
Definition managed_host_environment (base : Variables) (artifact : PlanArtifact.ExecutionPlanArtifact)
    (launch_id controller_instance host_event_dir : string) (d : Directory) : result ctl_exn Variables :=
  launch_id ← _identity launch_id "launch id" "launch:";
  controller_instance ← _identity controller_instance "controller instance" "controller:";
  _ ← raise_if (bool_decide (d_path d ∈ [Relative_or_link; Missing]))
        (CtlValueError "host event directory must be an existing canonical path");
  _ ← raise_if (bool_decide (d_path d = Indirect) || negb (d_private d))
        (CtlValueError "host event directory must be private and owned");
  let conflicts := filter (λ k, is_Some (base !! k)) CONTROLLED_ENVIRONMENT in
  _ ← raise_if (negb (bool_decide (conflicts = [])))
        (CtlValueError ("caller environment conflicts with manager-owned values: " +:+ join ", " (sort_on id conflicts)));
  Ok (list_to_map (desired (plan_id_of artifact) launch_id controller_instance (path_text host_event_dir) d) ∪ base).

(** ** The target's executable *)

(** What [os.open], [os.fstat] and the reads of the descriptor report. *)
Record Executable : Type := mkExecutable {
  ex_mode : Z; ex_device : Z; ex_inode : Z; ex_content : option string;
}.

Record Fingerprint : Type := mkFingerprint {
  target_executable_device : Z; target_executable_inode : Z; target_executable_sha256 : string;
}.

Definition fingerprint_invalid (f : Fingerprint) : bool :=
  (target_executable_device f <? 0)%Z || (target_executable_inode f <=? 0)%Z ||
  negb (starts_with "sha256:" (target_executable_sha256 f)) ||
  negb (length (Manifest.code_points (target_executable_sha256 f)) =? 71)%nat.

(** [stat.S_IMODE(mode) & 0o111] *)
Definition executable_mode (mode : Z) : bool := negb (Z.land (Z.land mode 4095) 73 =? 0)%Z.

Definition differs (e : Executable) (bytes : string) (f : Fingerprint) : bool :=
  negb (PlanArtifact.S_ISREG (ex_mode e)) || negb (executable_mode (ex_mode e)) ||
  negb (ex_device e =? target_executable_device f)%Z || negb (ex_inode e =? target_executable_inode f)%Z ||
  negb (bool_decide ("sha256:" +:+ sha256_hexdigest bytes = target_executable_sha256 f)).

Record Request : Type := mkRequest {
  plan_path : string; launch_id : string; controller_instance : string; host_event_dir : string;
  command : list string; fingerprint : Fingerprint; base_environment : Variables;
}.

(** What the operating system holds for a request: the plan's file, the directory of the
    journals and the file that [command[0]] names. *)
Record Site : Type := mkSite {
  euid : Z; plan_file : PlanArtifact.PathReport; event_directory : Directory; executable : option Executable;
}.

Section checks.
Context {F : FloatText}.

(** Lines 148-190: the plan and the environment with which the target is started. *)
Definition checked_launch (q : Request) (s : Site) : result ctl_exn (PlanArtifact.ExecutionPlanArtifact * Variables) :=
  _ ← raise_if (bool_decide (command q = []) || existsb (λ item, bool_decide (item = "")) (command q))
        (CtlValueError "formal-run requires a non-empty target after --");
  _ ← raise_if (fingerprint_invalid (fingerprint q))
        (CtlValueError "formal-run target executable fingerprint is invalid");
  artifact ← match PlanArtifact.read_plan_artifact (euid s) (plan_path q) (plan_file s) with
             | Ok a => Ok a | Raise e => Raise (CtlArtifact e)
             end;
  let host := EcpaModel.plan_host (PlanArtifact.artifact_plan artifact) in
  _ ← raise_if (negb (bool_decide (EcpaModel.host_runtime host = "vllm-hust")) || negb (bool_decide (EcpaModel.host_provider host = "vllm")))
        (CtlValueError "formal-run requires a vLLM-HUST execution plan");
  environment ← managed_host_environment (base_environment q) artifact (launch_id q) (controller_instance q)
                  (host_event_dir q) (event_directory s);
  metadata ← match executable s with Some e => Ok e | None => Raise CtlOSError end;
  bytes ← match ex_content metadata with Some bytes => Ok bytes | None => Raise CtlOSError end;
  _ ← raise_if (differs metadata bytes (fingerprint q))
        (CtlValueError "formal-run target executable differs from its fingerprint");
  Ok (artifact, environment).

(** The line a dry run prints. *)
Definition dry_run_receipt (q : Request) (s : Site) : result ctl_exn string :=
  '(artifact, environment) ← checked_launch q s;
  Ok (dumps true (JObj
    [("activation_contract", JStr ACTIVATION_CONTRACT);
     ("command", JArr (JStr <$> command q));
     ("controlled_environment", JObj ((λ key, (key, JStr (default "" (environment !! key)))) <$> CONTROLLED_ENVIRONMENT));
     ("controller_instance", JStr (default "" (environment !! "ECPA_CONTROLLER_INSTANCE")));
     ("plan_id", JStr (plan_id_of artifact));
     ("schema", JStr "ecpa-managed-launch/v1");
     ("target_executable", JObj
        [("device", JInt (target_executable_device (fingerprint q)));
         ("inode", JInt (target_executable_inode (fingerprint q)));
         ("sha256", JStr (target_executable_sha256 (fingerprint q)))])])).
End checks.

(** The variables the target's event sink reads. *)
Definition sink_environment (environment : Variables) : HostJournal.Environment :=
  HostJournal.mkEnvironment (environment !! "ECPA_HOST_EVENT_DIR") (environment !! "ECPA_HOST_EVENT_FSYNC")
    (environment !! "ECPA_HOST_EVENT_DEVICE") (environment !! "ECPA_HOST_EVENT_INODE").

(** ** The launch *)

Inductive launch_exn : Type :=
  | _ManagedTermination (signum : Z)
  | KeyboardInterrupt
  | LaunchOSError.

(** Where the lines 215-244 are; [r]: what the call returns or raises.  [ManagerKilled]: the Manager
    itself was ended by a signal. *)
Inductive Stage : Type :=
  | Starting
  | Handling (todo : list Z)
  | Waited
  | Got (code : Z)
  | Polling (r : result launch_exn Z)
  | Stopping (r : result launch_exn Z)
  | Grace (r : result launch_exn Z)
  | Slaying (r : result launch_exn Z)
  | LastWait (r : result launch_exn Z)
  | Unhandling (r : result launch_exn Z) (todo : list Z)
  | Closing (r : result launch_exn Z)
  | Ended (r : result launch_exn Z)
  | ManagerKilled.

(** [handled]: the signals whose handler is [forward], in the order of installation.
    [group]: the signals sent to the target's process group, with their times. *)
Record Launch : Type := mkLaunch {
  stage : Stage; clock : Z; target : Child; handled : list Z; fd_open : bool; group : list (Z * Z);
}.

Definition set_stage (p : Stage) (s : Launch) : Launch :=
  mkLaunch p (clock s) (target s) (handled s) (fd_open s) (group s).
Definition set_target (c : Child) (s : Launch) : Launch :=
  mkLaunch (stage s) (clock s) c (handled s) (fd_open s) (group s).
Definition set_handled (l : list Z) (s : Launch) : Launch :=
  mkLaunch (stage s) (clock s) (target s) l (fd_open s) (group s).
Definition close_fd (s : Launch) : Launch :=
  mkLaunch (stage s) (clock s) (target s) (handled s) false (group s).
Definition elapse (d : Z) (s : Launch) : Launch :=
  mkLaunch (stage s) (clock s + d) (target s) (handled s) (fd_open s) (group s).
Definition log_group (signum : Z) (s : Launch) : Launch :=
  mkLaunch (stage s) (clock s) (target s) (handled s) (fd_open s) (group s ++ [(clock s, signum)]).

Definition launched (time : Z) : Launch := mkLaunch Starting time NotStarted [] true [].

(** The signals of [previous_handlers]. *)
Definition handled_signals : list Z := [SIGINT; SIGTERM].

(** An exception raised at a stage: the [except] clauses of the [try] of line 232, its
    [finally], the [finally] of line 243. *)
Definition thrown (e : launch_exn) (s : Launch) : Launch :=
  match stage s with
  | Starting | Handling _ => set_stage (Closing (Raise e)) s
  | Waited | Got _ =>
      set_stage (Polling (match e with _ManagedTermination signum => Ok (128 + signum)%Z | _ => Raise e end)) s
  | Polling _ | Stopping _ | Grace _ | Slaying _ | LastWait _ => set_stage (Unhandling (Raise e) (handled s)) s
  | Unhandling _ _ => set_stage (Closing (Raise e)) s
  | Closing _ => set_stage (Ended (Raise e)) s
  | Ended _ | ManagerKilled => s
  end.

(** [os.killpg] under [suppress(ProcessLookupError)]: the group is there while the target is
    not reaped. *)
Definition kill_group (refused : bool) (signum : Z) (next : Stage) (s : Launch) : Launch :=
  match target s with
  | Running | Zombie _ => if refused then thrown LaunchOSError s else set_stage next (log_group signum s)
  | _ => set_stage next s
  end.

Section launch.
Context (TARGET_TERMINATION_GRACE_S : Z).

(** [_terminate_process_group], called with the outcome [r]; [fails]: the system call it makes
    raises an [OSError]. *)
Definition _terminate_process_group (fails : bool) (s : Launch) : option Launch :=
  match stage s with
  | Polling r =>
      Some (match target s with
            | Running => set_stage (Stopping r) s
            | Zombie code => set_stage (Unhandling r (handled s)) (set_target (Reaped code) s)
            | _ => set_stage (Unhandling r (handled s)) s
            end)
  | Stopping r => Some (kill_group fails SIGTERM (Grace r) s)
  | Grace r =>
      Some (match target s with
            | Running => set_stage (Slaying r) (elapse TARGET_TERMINATION_GRACE_S s)
            | Zombie code => set_stage (Unhandling r (handled s)) (set_target (Reaped code) s)
            | _ => set_stage (Unhandling r (handled s)) s
            end)
  | Slaying r => Some (kill_group fails _KILL_SIGNAL (LastWait r) s)
  | LastWait r =>
      match target s with
      | Zombie code => Some (set_stage (Unhandling r (handled s)) (set_target (Reaped code) s))
      | Reaped _ => Some (set_stage (Unhandling r (handled s)) s)
      | _ => None
      end
  | _ => None
  end.

(** The next step of [launch_managed]. *)
Definition advance (fails : bool) (s : Launch) : option Launch :=
  match stage s with
  | Starting => Some (if fails then thrown LaunchOSError s else set_stage (Handling handled_signals) (set_target Running s))
  | Handling (signum :: todo) => Some (set_stage (Handling todo) (set_handled (handled s ++ [signum]) s))
  | Handling [] => Some (set_stage Waited s)
  | Waited =>
      match target s with
      | Zombie code => Some (set_stage (Got code) (set_target (Reaped code) s))
      | _ => None
      end
  | Got code => Some (set_stage (Unhandling (Ok code) (handled s)) s)
  | Polling _ | Stopping _ | Grace _ | Slaying _ | LastWait _ => _terminate_process_group fails s
  | Unhandling r (signum :: todo) =>
      Some (set_stage (Unhandling r todo) (set_handled (filter (λ h, h ≠ signum) (handled s)) s))
  | Unhandling r [] => Some (set_stage (Closing r) s)
  | Closing r => Some (set_stage (Ended r) (close_fd s))
  | Ended _ | ManagerKilled => None
  end.

(** A signal to the Manager, under the handler of the moment. *)
Definition signalled (signum : Z) (s : Launch) : Launch :=
  if bool_decide (signum ∈ handled s) then thrown (_ManagedTermination signum) s
  else if (signum =? SIGINT)%Z then thrown KeyboardInterrupt s
  else set_stage ManagerKilled s.

Inductive Happening : Type :=
  | Step (fails : bool)
  | Signalled (signum : Z)
  | TargetExit (code : Z)
  | Elapse (d : Z).

Definition finished (s : Launch) : bool := match stage s with Ended _ | ManagerKilled => true | _ => false end.

Definition happen (h : Happening) (s : Launch) : option Launch :=
  match h with
  | Step fails => advance fails s
  | Signalled signum => if bool_decide (signum ∈ handled_signals) && negb (finished s) then Some (signalled signum s) else None
  | TargetExit code => match target s with Running => Some (set_target (Zombie code) s) | _ => None end
  | Elapse d => if (d <? 0)%Z then None else Some (elapse d s)
  end.

Fixpoint happens (hs : list Happening) (s : Launch) : option Launch :=
  match hs with
  | [] => Some s
  | h :: hs => match happen h s with Some s => happens hs s | None => None end
  end.

Definition launch_reachable (s : Launch) : Prop := ∃ time hs, happens hs (launched time) = Some s.
End launch.
