(* ===== verification/ManagerTheorems.v ===== *)
(** * Theorems about the manager-owned launch

    When the target is started and with what environment; that its event sink opens the very
    directory the Manager inspected; how a launch ends, with and without signals. *)

From S2P Require Import Prelude PyStd JsonText JsonRoundTrip HostEvidence HostEventSink ProcessSupervisor ManagerController.
From S2P Require EcpaModel PlanArtifact Manifest HostJournal.

Local Open Scope string_scope.
Local Open Scope list_scope.

(** ** [int(str(z))] *)

Lemma digit_bounds a : is_digit a = true → (48 ≤ code a ≤ 57)%N.
Proof. unfold is_digit, code. cbv zeta. rewrite andb_true_iff, !N.leb_le. done. Qed.

Lemma int_digits_text d after value count :
  string_forallb is_digit d = true → (after = true ∨ d ≠ "") →
  int_digits after value count (bytes_of_string d) =
    Some (foldl (λ v b, v * 10 + (b - 48))%N value (bytes_of_string d), (count + String.length d)%nat).
Proof.
  revert after value count. induction d as [|a d IH]; intros after value count Hd Ha.
  - destruct Ha as [->|]; [|done]. simpl. by rewrite Nat.add_0_r.
  - simpl in Hd. apply andb_true_iff in Hd as [Hx Hd]. pose proof (digit_bounds a Hx) as Hb.
    cbn [bytes_of_string int_digits foldl String.length]. unfold code in Hb.
    assert ((48 <=? Ascii.N_of_ascii a)%N && (Ascii.N_of_ascii a <=? 57)%N = true) as ->
      by (apply andb_true_iff; rewrite !N.leb_le; done).
    rewrite IH by (done || by left). do 2 f_equal. lia.
Qed.

Definition digit_byte (n : N) : Prop := (48 ≤ n ≤ 57)%N.

Lemma digit_bytes d : string_forallb is_digit d = true → Forall digit_byte (bytes_of_string d).
Proof.
  induction d as [|a d IH]; [constructor|]. simpl. intros [Ha Hd]%andb_true_iff.
  constructor; [by apply digit_bounds|by apply IH].
Qed.

Lemma drop_spaces_digits l : Forall digit_byte l → drop_spaces l = l.
Proof.
  intros [|x l' Hx _]; [done|]. cbn [drop_spaces]. unfold digit_byte in Hx.
  assert (int_space x = false) as ->; [|done]. unfold int_space.
  apply orb_false_iff; split; apply andb_false_iff; rewrite !N.leb_gt; lia.
Qed.

Lemma strip_spaces_digits l : Forall digit_byte l → strip_spaces l = l.
Proof.
  intros H. unfold strip_spaces. rewrite (drop_spaces_digits l H), (drop_spaces_digits (rev l)), rev_involutive; [done|].
  by apply Forall_rev.
Qed.

Lemma int_ascii_digits d :
  string_forallb is_digit d = true → d ≠ "" → (String.length d ≤ MAX_STR_DIGITS)%nat →
  int_ascii (bytes_of_string d) = Some (Z.of_N (digits_value d)).
Proof.
  intros Hd Hne Hlen. pose proof (digit_bytes d Hd) as Hb.
  assert (int_digits false 0 0 (bytes_of_string d) = Some (digits_value d, String.length d)) as Hi
    by (rewrite int_digits_text by (done || by right); done).
  assert ((MAX_STR_DIGITS <? String.length d)%nat = false) as Hm by by apply Nat.ltb_ge.
  assert (∃ x l, bytes_of_string d = x :: l) as (x & l & E) by (destruct d; [done|by eexists _, _]).
  unfold int_ascii. rewrite E in *. apply Forall_inv in Hb. unfold digit_byte in Hb.
  assert (x = 48 ∨ x = 49 ∨ x = 50 ∨ x = 51 ∨ x = 52 ∨ x = 53 ∨ x = 54 ∨ x = 55 ∨ x = 56 ∨ x = 57)%N as Hx by lia.
  clear Hb. repeat destruct Hx as [->|Hx]; subst; rewrite Hi; cbn [mbind option_bind]; by rewrite Hm.
Qed.

Lemma py_int_digits {U : UnicodeInt} d :
  string_forallb is_digit d = true → d ≠ "" → (String.length d ≤ MAX_STR_DIGITS)%nat →
  py_int d = Some (Z.of_N (digits_value d)).
Proof.
  intros Hd Hne Hlen. pose proof (digit_bytes d Hd) as Hb. unfold py_int. cbv zeta.
  assert (forallb (λ n, n <? 128)%N (bytes_of_string d) = true) as ->.
  { apply forallb_forall. intros x Hx%list_elem_of_In. rewrite Forall_forall in Hb. specialize (Hb x Hx).
    unfold digit_byte in Hb. apply N.ltb_lt. lia. }
  rewrite strip_spaces_digits by done. by apply int_ascii_digits.
Qed.

Lemma py_int_pretty {U : UnicodeInt} z : (0 ≤ z)%Z → int_ok z → py_int (pretty z) = Some z.
Proof.
  intros Hz Hok. unfold int_ok in Hok. destruct z as [|p|p]; [done| |done].
  pose proof (pretty_digits p) as (Hd & Hv & a & d & Hp & _).
  change (pretty (Z.pos p)) with (pretty p). change (pretty (Z.abs_N (Z.pos p))) with (pretty p) in Hok.
  rewrite py_int_digits; [by rewrite Hv|done| |done]. by rewrite Hp.
Qed.

(** ** What is started *)

Definition identity_ok (prefix value : string) : Prop :=
  starts_with prefix value = true ∧ value ≠ prefix ∧ is_stripped value = true ∧ PlanArtifact.has_space value = false.

Lemma _identity_Ok value name prefix v :
  _identity value name prefix = Ok v ↔ v = value ∧ identity_ok prefix value.
Proof.
  unfold _identity, identity_ok. rewrite result_bind_Ok. setoid_rewrite raise_if_Ok. split.
  - intros ([] & ? & [= <-]). by bool_inv.
  - intros (-> & -> & ? & -> & ->). exists (). split; [|done]. by rewrite bool_decide_eq_false_2.
Qed.

Lemma no_conflicts (base : Variables) :
  filter (λ k, is_Some (base !! k)) CONTROLLED_ENVIRONMENT = [] ↔ ∀ k, k ∈ CONTROLLED_ENVIRONMENT → base !! k = None.
Proof.
  split.
  - intros H k Hk. apply eq_None_not_Some. intros Hs.
    assert (k ∈ filter (λ k, is_Some (base !! k)) CONTROLLED_ENVIRONMENT) as Hin by by apply list_elem_of_filter.
    rewrite H in Hin. by apply elem_of_nil in Hin.
  - intros H. apply elem_of_nil_inv. intros k [[v Hs] Hk]%list_elem_of_filter. by rewrite (H k Hk) in Hs.
Qed.

(** A directory in the Manager's custody, and the identities of a launch. *)
Record custody (base : Variables) (launch controller : string) (d : Directory) : Prop := {
  custody_launch : identity_ok "launch:" launch;
  custody_controller : identity_ok "controller:" controller;
  custody_path : d_path d = Canonical;
  custody_private : d_private d = true;
  custody_base : ∀ k, k ∈ CONTROLLED_ENVIRONMENT → base !! k = None;
}.

Lemma managed_host_environment_Ok base a launch controller dir d env :
  managed_host_environment base a launch controller dir d = Ok env ↔
  custody base launch controller d ∧ env = list_to_map (desired (plan_id_of a) launch controller (path_text dir) d) ∪ base.
Proof.
  unfold managed_host_environment. split.
  - intros H. method_inv. apply _identity_Ok in H as [-> ?]. apply _identity_Ok in H0 as [-> ?]. bool_inv.
    repeat match goal with H : Ok _ = Ok _ |- _ => injection H as <- end. split; [|done]. split; try done.
    + destruct (d_path d); [done|exfalso..]; set_solver.
    + by apply no_conflicts.
  - intros [[Hl Hc Hp Hpr Hb%no_conflicts] ->].
    assert (∀ value name prefix, identity_ok prefix value → _identity value name prefix = Ok value) as Hid
      by (intros; by apply _identity_Ok).
    rewrite (Hid _ _ _ Hl). cbn [mbind result_bind]. rewrite (Hid _ _ _ Hc), Hp, Hpr. cbn [mbind result_bind].
    cbv zeta. by rewrite Hb.
Qed.

(** C22: launch_managed gets to the start of the target with a plan and an environment
    exactly when the command has no empty part, the plan file is accepted and names a
    vLLM-HUST host of the vLLM provider, the identities are canonical, the event
    directory is canonical, private and owned, the caller sets none of the Manager's
    variables, and the executable is a regular executable file whose device, inode and
    SHA-256 are the fingerprint's. *)
Theorem launch_checked_exactly {F : FloatText} (q : Request) (s : Site) (a : PlanArtifact.ExecutionPlanArtifact) (env : Variables) :
  checked_launch q s = Ok (a, env) ↔
  (command q ≠ [] ∧ "" ∉ command q) ∧
  PlanArtifact.read_plan_artifact (euid s) (plan_path q) (plan_file s) = Ok a ∧
  (EcpaModel.host_runtime (EcpaModel.plan_host (PlanArtifact.artifact_plan a)) = "vllm-hust" ∧
   EcpaModel.host_provider (EcpaModel.plan_host (PlanArtifact.artifact_plan a)) = "vllm") ∧
  custody (base_environment q) (launch_id q) (controller_instance q) (event_directory s) ∧
  fingerprint_invalid (fingerprint q) = false ∧
  (∃ e bytes, executable s = Some e ∧ ex_content e = Some bytes ∧
     PlanArtifact.S_ISREG (ex_mode e) = true ∧ executable_mode (ex_mode e) = true ∧
     fingerprint q = mkFingerprint (ex_device e) (ex_inode e) ("sha256:" +:+ sha256_hexdigest bytes)) ∧
  env = list_to_map (desired (plan_id_of a) (launch_id q) (controller_instance q) (path_text (host_event_dir q)) (event_directory s))
          ∪ base_environment q.
Proof.
  unfold checked_launch. split.
  - intros H. method_inv. cbv zeta in *. method_inv. bool_inv.
    destruct (PlanArtifact.read_plan_artifact _ _ _) as [a'|] eqn:Ea; [|done].
    destruct (executable s) as [e|] eqn:Ee; [|done].
    repeat match goal with H : Ok _ = Ok _ |- _ => injection H as <- end.
    destruct (ex_content e) as [bytes|] eqn:Eb; [|done].
    repeat match goal with H : Ok _ = Ok _ |- _ => injection H as <- end.
    repeat match goal with H : managed_host_environment _ _ _ _ _ _ = Ok _ |- _ => apply managed_host_environment_Ok in H as [? ->] end.
    unfold differs in *. bool_inv. split_and!; try done.
    + intros Hin. match goal with H : existsb _ _ = false |- _ => rewrite <-not_true_iff_false in H; apply H end.
      apply existsb_exists. exists "". split; [by apply list_elem_of_In|done].
    + exists e, bytes. split_and!; try done. destruct (fingerprint q). cbn in *. congruence.
  - intros ((Hne & Hall) & Ha & (Hr & Hp) & Hc & Hf & (e & bytes & He & Hb & Hreg & Hx & Hfp) & ->).
    rewrite bool_decide_eq_false_2 by done.
    assert (existsb (λ item, bool_decide (item = "")) (command q) = false) as ->.
    { apply not_true_iff_false. intros (x & Hin%list_elem_of_In & ->%bool_decide_eq_true)%existsb_exists. done. }
    rewrite Hf. cbn [orb raise_if mbind result_bind]. rewrite Ha. cbn [mbind result_bind]. cbv zeta. rewrite Hr, Hp.
    assert (managed_host_environment (base_environment q) a (launch_id q) (controller_instance q) (host_event_dir q) (event_directory s) =
      Ok (list_to_map (desired (plan_id_of a) (launch_id q) (controller_instance q) (path_text (host_event_dir q)) (event_directory s)) ∪ base_environment q))
      as -> by by apply managed_host_environment_Ok.
    rewrite He. cbn [mbind result_bind raise_if bool_decide negb orb]. rewrite Hb. cbn [mbind result_bind].
    unfold differs. rewrite Hreg, Hx, Hfp. cbn [target_executable_device target_executable_inode target_executable_sha256].
    rewrite !Z.eqb_refl, bool_decide_eq_true_2 by done. done.
Qed.

(** ** The target's event sink *)

Lemma desired_keys plan_id launch controller path d : (desired plan_id launch controller path d).*1 = CONTROLLED_ENVIRONMENT.
Proof. done. Qed.

Lemma environment_base base plan_id launch controller path d k :
  k ∉ CONTROLLED_ENVIRONMENT → ((list_to_map (desired plan_id launch controller path d) : Variables) ∪ base) !! k = base !! k.
Proof.
  intros Hk. apply lookup_union_r. apply not_elem_of_list_to_map. by rewrite desired_keys.
Qed.

Lemma environment_desired base plan_id launch controller path d k v :
  (k, v) ∈ desired plan_id launch controller path d →
  ((list_to_map (desired plan_id launch controller path d) : Variables) ∪ base) !! k = Some v.
Proof.
  intros Hin. apply lookup_union_Some_l. apply elem_of_list_to_map_1; [|done].
  rewrite desired_keys. apply (bool_decide_unpack _). by vm_compute.
Qed.

Ltac desired := unfold desired; repeat first [apply list_elem_of_here | apply list_elem_of_further].

(** The directory's identity as the target reads it back from its environment. *)
Lemma expected_identity {U : UnicodeInt} env d :
  env !! "ECPA_HOST_EVENT_DEVICE" = Some (pretty (d_device d)) → env !! "ECPA_HOST_EVENT_INODE" = Some (pretty (d_inode d)) →
  (0 ≤ d_device d)%Z → (0 ≤ d_inode d)%Z → int_ok (d_device d) → int_ok (d_inode d) →
  HostJournal._expected_directory_identity (sink_environment env) = Ok (Some (identity_of d)).
Proof.
  intros Hd Hi Hd0 Hi0 Hdo Hio. unfold HostJournal._expected_directory_identity, sink_environment.
  cbn [HostJournal.env_device HostJournal.env_inode]. rewrite Hd, Hi. unfold HostJournal.identity_part.
  rewrite !py_int_pretty by done. cbn [mbind result_bind].
  assert ((d_device d <? 0)%Z || (d_inode d <? 0)%Z = false) as -> by (apply orb_false_iff; rewrite !Z.ltb_ge; done).
  done.
Qed.

(** What [_open_journal_root] does when no system call fails. *)
Lemma open_journal_root_Ok w i :
  script w = [] →
  (_open_journal_root Source (Some i) w).2 = w ∧
  ((_open_journal_root Source (Some i) w).1 = Ok () ↔
     d_path (source w) = Canonical ∧ d_private (source w) = true ∧ identity_of (source w) = i).
Proof.
  destruct w as [src q l sc pi tk ino]. cbn [script source]. intros ->. unfold _open_journal_root.
  cbv beta iota zeta delta [mbind method_bind get dir source guard_raise].
  destruct (d_path src) eqn:Hp; cbn -[identity_of]; rewrite ?Hp; cbn -[identity_of]; try (split; [done|split; [done|by intros (? & _)]]).
  destruct (d_private src) eqn:Hpr; cbn -[identity_of]; rewrite ?Hp; cbn -[identity_of]; [|split; [done|split; [done|by intros (_ & ? & _)]]].
  destruct (bool_decide (identity_of src = i)) eqn:Hi.
  - apply bool_decide_eq_true in Hi. split; [done|]. by split.
  - apply bool_decide_eq_false in Hi. split; [done|]. split; [done|by intros (_ & _ & ?)].
Qed.

Lemma open_journal_root_changed w i :
  script w = [] → d_path (source w) = Canonical → d_private (source w) = true → identity_of (source w) ≠ i →
  (_open_journal_root Source (Some i) w).1 = Raise (HostEventSinkError "host event directory identity changed").
Proof.
  destruct w as [src q l sc pi tk ino]. cbn [script source]. intros -> Hp Hpr Hi. unfold _open_journal_root.
  cbv beta iota zeta delta [mbind method_bind get dir source guard_raise]. rewrite Hp, Hpr.
  cbn -[identity_of]. destruct (bool_decide (identity_of src = i)) eqn:E; [by apply bool_decide_eq_true in E|done].
Qed.

Lemma path_text_nonempty s : path_text s ≠ "".
Proof. unfold path_text. cbv zeta. by case_bool_decide. Qed.

(** C12: The Manager's hand-over to the target's event sink: with the environment
    managed_host_environment makes, and when no system call fails, the sink's
    _configured_journal_root, run later by the target, opens the directory exactly when
    it is still canonical and private and has the device and inode the Manager
    inspected; a canonical private directory with another identity is refused as
    changed; the sink looks at the path the Manager was given, normalised; the plan and
    launch identifiers are the Manager's, and every variable that is not the Manager's
    is the caller's. *)
Theorem target_opens_the_directory {U : UnicodeInt} (base : Variables) (a : PlanArtifact.ExecutionPlanArtifact)
    (launch controller host_event_dir : string) (d : Directory) (env : Variables) (w : World) :
  managed_host_environment base a launch controller host_event_dir d = Ok env →
  (0 ≤ d_device d)%Z → (0 ≤ d_inode d)%Z → int_ok (d_device d) → int_ok (d_inode d) → script w = [] →
  let opened := HostJournal._configured_journal_root (sink_environment env) w in
  (opened.1 = Ok () ↔
     d_path (source w) = Canonical ∧ d_private (source w) = true ∧ identity_of (source w) = identity_of d) ∧
  (d_path (source w) = Canonical → d_private (source w) = true → identity_of (source w) ≠ identity_of d →
     opened.1 = Raise (HostJournal.sink_error "host event directory identity changed")) ∧
  opened.2 = w ∧
  HostJournal.env_dir (sink_environment env) = Some (path_text host_event_dir) ∧
  env !! "VLLM_ECPA_PLAN_ID" = Some (plan_id_of a) ∧ env !! "VLLM_ECPA_LAUNCH_ID" = Some launch ∧
  (∀ k, k ∉ CONTROLLED_ENVIRONMENT → env !! k = base !! k).
Proof.
  intros [_ Henv]%managed_host_environment_Ok Hd Hi Hdo Hio Hs opened.
  revert Henv. generalize (plan_id_of a). intros plan_id Henv.
  assert (∀ k v, (k, v) ∈ desired plan_id launch controller (path_text host_event_dir) d → env !! k = Some v) as Hk
    by (intros k v Hin; rewrite Henv; exact (environment_desired _ _ _ _ _ _ k v Hin)).
  assert (HostJournal.env_dir (sink_environment env) = Some (path_text host_event_dir)) as Hdir
    by (cbn [HostJournal.env_dir sink_environment]; apply Hk; desired).
  assert (opened = HostJournal.sink (_open_journal_root Source (Some (identity_of d))) w) as ->.
  { unfold opened, HostJournal._configured_journal_root, guard_raise, mbind, method_bind. rewrite Hdir.
    rewrite bool_decide_eq_false_2 by apply path_text_nonempty. unfold mret, method_ret, lift.
    by rewrite (expected_identity _ d) by (done || (apply Hk; desired)). }
  destruct (open_journal_root_Ok w (identity_of d) Hs) as [Hw Hok].
  pose proof (open_journal_root_changed w (identity_of d) Hs) as Hch.
  unfold HostJournal.sink. destruct (_open_journal_root Source (Some (identity_of d)) w) as [r w'] eqn:E. cbn in Hw, Hok, Hch |- *.
  split_and!; [|intros Hp Hpr Hne; by rewrite (Hch Hp Hpr Hne)|done|done|apply Hk; desired|apply Hk; desired|].
  - rewrite <-Hok. destruct r as [[]|]; naive_solver.
  - intros k Hkn. rewrite Henv. by apply environment_base.
Qed.

(** ** How a launch ends *)

Local Open Scope Z_scope.

Section launch.
Context (grace : Z) (Hgrace : 0 ≤ grace).

Definition living (c : Child) : Prop := match c with Running | Zombie _ => True | _ => False end.
Definition started (c : Child) : Prop := match c with NotStarted => False | _ => True end.

(** The signals the group was sent: a SIGTERM, and a SIGKILL once the grace is over. *)
Definition escalation (g : list (Z * Z)) (now : Z) : Prop :=
  g = [] ∨ ∃ t, t ≤ now ∧ (g = [(t, SIGTERM)] ∨ ∃ t', g = [(t, SIGTERM); (t', _KILL_SIGNAL)] ∧ t + grace ≤ t' ≤ now).

Definition interrupted (r : result launch_exn Z) : Prop :=
  ∀ code, r = Ok code → ∃ signum, signum ∈ handled_signals ∧ code = 128 + signum.
(** The target is reaped, and [r] is its code or that of the signal. *)
Definition reported (r : result launch_exn Z) (s : Launch) : Prop :=
  ∀ code, r = Ok code → ∃ c, target s = Reaped c ∧
    (code = c ∧ group s = [] ∨ ∃ signum, signum ∈ handled_signals ∧ code = 128 + signum).

Definition stage_ok (s : Launch) : Prop :=
  match stage s with
  | Starting => target s = NotStarted ∧ handled s = [] ∧ group s = []
  | Handling todo => living (target s) ∧ handled s ++ todo = handled_signals ∧ group s = []
  | Waited => living (target s) ∧ handled s = handled_signals ∧ group s = []
  | Got code => target s = Reaped code ∧ handled s = handled_signals ∧ group s = []
  | Polling r => started (target s) ∧ handled s = handled_signals ∧ group s = [] ∧ interrupted r
  | Stopping r => living (target s) ∧ handled s = handled_signals ∧ group s = [] ∧ interrupted r
  | Grace r => living (target s) ∧ handled s = handled_signals ∧ (∃ t, group s = [(t, SIGTERM)] ∧ t ≤ clock s) ∧ interrupted r
  | Slaying r => living (target s) ∧ handled s = handled_signals ∧ (∃ t, group s = [(t, SIGTERM)] ∧ t + grace ≤ clock s) ∧ interrupted r
  | LastWait r => living (target s) ∧ handled s = handled_signals ∧ interrupted r
  | Unhandling r todo => handled s = todo ∧ NoDup todo ∧ reported r s
  | Closing r => (∀ code, r = Ok code → handled s = []) ∧ reported r s
  | Ended r => (∀ code, r = Ok code → handled s = [] ∧ fd_open s = false) ∧ reported r s
  | ManagerKilled => True
  end.

Record launch_inv (s : Launch) : Prop := {
  launch_stage : stage_ok s;
  launch_group : escalation (group s) (clock s);
  launch_handled : handled s ⊆ handled_signals;
}.

Lemma handled_NoDup : NoDup handled_signals.
Proof. apply (bool_decide_unpack _). by vm_compute. Qed.

Lemma interrupted_Raise e : interrupted (Raise e).
Proof. by intros code. Qed.
Lemma reported_Raise e s : reported (Raise e) s.
Proof. by intros code. Qed.
Lemma interrupted_reported r s c : interrupted r → target s = Reaped c → reported r s.
Proof. intros H Hc code E. exists c. split; [done|]. right. by apply H. Qed.

Lemma escalation_later g now now' : now ≤ now' → escalation g now → escalation g now'.
Proof.
  intros Hle [?|(t & Ht & [Hg|(t' & Hg & ?)])]; [by left|right..]; exists t.
  - split; [lia|by left].
  - split; [lia|right]. exists t'. split; [done|lia].
Qed.

(** The invariant after a change of the stage alone, or of the stage and the target. *)
Lemma inv_to p s : launch_inv s → stage_ok (set_stage p s) → launch_inv (set_stage p s).
Proof. intros [] ?. by split. Qed.

Lemma inv_thrown e s : launch_inv s → (∀ signum, e = _ManagedTermination signum → signum ∈ handled_signals) → launch_inv (thrown e s).
Proof.
  intros Hi He. pose proof (launch_stage s Hi) as Hs. unfold stage_ok in Hs. unfold thrown.
  pose proof handled_NoDup as Hnd.
  assert (∀ r' : launch_exn, (∀ code, Raise (A := Z) r' = Ok code → handled s = []) ∧ reported (Raise r') s) as Hraise
    by (intros r'; split; [done|apply reported_Raise]).
  assert (handled s = handled_signals → handled s = handled s ∧ NoDup (handled s) ∧ reported (Raise e) s) as Hrestore
    by (intros ->; split_and!; [done..|apply reported_Raise]).
  destruct (stage s) eqn:E; try exact Hi; apply inv_to; try exact Hi; unfold stage_ok; cbn;
    try apply Hraise; try (apply Hrestore; tauto).
  - destruct Hs as (Ha & -> & ->). split_and!; try done; [by destruct (target s)|].
    destruct e; try apply interrupted_Raise. intros code [= <-]. eexists. split; [by eapply He|done].
  - destruct Hs as (-> & -> & ->). split_and!; try done.
    destruct e; try apply interrupted_Raise. intros code' [= <-]. eexists. split; [by eapply He|done].
  - split; [done|apply reported_Raise].
Qed.

Lemma inv_reap_target r s code :
  launch_inv s → target s = Zombie code → handled s = handled_signals → interrupted r →
  launch_inv (set_stage (Unhandling r (handled s)) (set_target (Reaped code) s)).
Proof.
  intros [_ Hg Hh] Hz E Hr. split; [|done..]. unfold stage_ok. cbn. rewrite E.
  split_and!; [done|apply handled_NoDup|by eapply interrupted_reported].
Qed.

Lemma inv_reaped r s code :
  launch_inv s → target s = Reaped code → handled s = handled_signals → interrupted r →
  launch_inv (set_stage (Unhandling r (handled s)) s).
Proof.
  intros [_ Hg Hh] Hz E Hr. split; [|done..]. unfold stage_ok. cbn. rewrite E.
  split_and!; [done|apply handled_NoDup|by eapply interrupted_reported].
Qed.

Lemma inv_kill_group refused signum next s :
  launch_inv s → (∀ e, launch_inv (thrown e s) ∨ ∃ signum, e = _ManagedTermination signum) → living (target s) →
  launch_inv (set_stage next (log_group signum s)) → launch_inv (kill_group refused signum next s).
Proof.
  intros Hi Ht Ha Hn. unfold kill_group. destruct (target s); try done;
    (destruct refused; [|exact Hn]; by destruct (Ht LaunchOSError) as [|[? ?]]).
Qed.

Lemma launch_inv_advance fails s s' : launch_inv s → advance grace fails s = Some s' → launch_inv s'.
Proof.
  intros Hi. pose proof (launch_stage s Hi) as Hs. unfold stage_ok in Hs. pose proof handled_NoDup as Hnd.
  assert (∀ e, launch_inv (thrown e s) ∨ ∃ signum, e = _ManagedTermination signum) as Ht.
  { intros [signum| |]; [right; by exists signum|left; by apply inv_thrown..]. }
  unfold advance, _terminate_process_group. destruct (stage s) as [|[|x todo]| |code|r|r|r|r|r|r [|x todo]|r|r|] eqn:E.
  - destruct Hs as (Hc & Hh & Hg). intros [= <-]. destruct fails; [by destruct (Ht LaunchOSError) as [|[? ?]]|].
    split; [|by left; cbn|apply Hi]. unfold stage_ok. cbn. by rewrite Hh.
  - destruct Hs as (Hc & Hh & Hg). intros [= <-]. apply inv_to; [done|]. unfold stage_ok. cbn. by rewrite app_nil_r in Hh.
  - destruct Hs as (Hc & Hh & Hg). intros [= <-]. split; [|apply Hi|].
    + unfold stage_ok. cbn. split_and!; [done| |done]. by rewrite <-app_assoc.
    + cbn. rewrite <-Hh. set_solver.
  - destruct Hs as (Hc & Hh & Hg). destruct (target s) eqn:Et; try done. intros [= <-]. by destruct Hi.
  - destruct Hs as (Hc & Hh & Hg). intros [= <-]. apply inv_to; [done|]. unfold stage_ok. cbn. rewrite Hh.
    split_and!; [done..|]. intros c [= <-]. exists code. split; [done|by left].
  - destruct Hs as (Hc & Hh & Hg & Hr). destruct (target s) eqn:Et; intros [= <-]; [done| |by apply inv_reap_target|by eapply inv_reaped].
    apply inv_to; [done|]. unfold stage_ok. cbn. by rewrite Et.
  - destruct Hs as (Hc & Hh & Hg & Hr). intros [= <-]. apply inv_kill_group; [done..|]. split; [| |apply Hi].
    + unfold stage_ok. cbn. split_and!; try done. exists (clock s). by rewrite Hg.
    + right. exists (clock s). cbn. rewrite Hg. split; [done|by left].
  - destruct Hs as (Hc & Hh & (t & Hg & Hle) & Hr). destruct (target s) eqn:Et; intros [= <-]; [done| |by apply inv_reap_target|done].
    split; [| |apply Hi].
    + unfold stage_ok. cbn. rewrite Et. split_and!; try done. exists t. split; [done|lia].
    + cbn. eapply escalation_later; [|apply Hi]. lia.
  - destruct Hs as (Hc & Hh & (t & Hg & Hle) & Hr). intros [= <-]. apply inv_kill_group; [done..|]. split; [| |apply Hi].
    + unfold stage_ok. by cbn.
    + right. exists t. cbn. rewrite Hg. split; [lia|right]. exists (clock s). by split.
  - destruct Hs as (Hc & Hh & Hr). destruct (target s) eqn:Et; try done. intros [= <-]. by apply inv_reap_target.
  - destruct Hs as (Hh & _ & Hr). intros [= <-]. apply inv_to; [done|]. unfold stage_ok. by cbn.
  - destruct Hs as (Hh & Hd & Hr). intros [= <-]. split; [|apply Hi|].
    + unfold stage_ok. cbn. apply NoDup_cons in Hd as [Hx Hd]. split_and!; [|done|done].
      rewrite Hh, filter_cons_False by (by intros []). apply filter_whole, Forall_forall. by intros y Hy ->.
    + cbn. intros y [_ Hy]%list_elem_of_filter. by apply Hi.
  - destruct Hs as [Hh Hr]. intros [= <-]. split; [|apply Hi..]. unfold stage_ok. cbn. split; [|done]. intros code Ec. split; [by eapply Hh|done].
  - done.
  - done.
Qed.

Lemma launch_inv_happen h s s' : launch_inv s → happen grace h s = Some s' → launch_inv s'.
Proof.
  intros Hi. pose proof (launch_stage s Hi) as Hs. unfold stage_ok in Hs. destruct h as [fails|signum|code|d]; cbn [happen].
  - by apply launch_inv_advance.
  - destruct (bool_decide _ && _) eqn:Hb; [|done]. intros [= <-]. apply andb_true_iff in Hb as [Hb%bool_decide_eq_true _].
    unfold signalled. case_bool_decide; [apply inv_thrown; [done|by intros ? [= <-]]|].
    destruct (signum =? SIGINT)%Z; [by apply inv_thrown|]. by destruct Hi.
  - destruct (target s) eqn:Et; try done. intros [= <-]. split; [|apply Hi..]. unfold stage_ok. cbn [stage set_target target handled group clock fd_open].
    assert (∀ r, reported r s → reported r (set_target (Zombie code) s)) as Hrep.
    { intros r Hr c E. destruct (Hr c E) as (c' & Hc & _). congruence. }
    destruct (stage s); try done; destruct_and?; split_and?; try done; by apply Hrep.
  - destruct (d <? 0)%Z eqn:Hd; [done|]. intros [= <-]. split; [| |apply Hi].
    + unfold stage_ok, reported in *. cbn [stage elapse target handled group clock fd_open].
      destruct (stage s); try done; destruct Hs as (? & ? & (t & ? & ?) & ?); split_and!; try done; exists t; (split; [done|lia]).
    + cbn. eapply escalation_later; [|apply Hi]. lia.
Qed.

Lemma launch_inv_happens hs s s' : launch_inv s → happens grace hs s = Some s' → launch_inv s'.
Proof.
  revert s. induction hs as [|h hs IH]; intros s Hi; cbn [happens]; [by intros [= <-]|].
  destruct (happen grace h s) as [s1|] eqn:E; [|done]. apply IH. by eapply launch_inv_happen.
Qed.

Lemma launch_inv_reachable s : launch_reachable grace s → launch_inv s.
Proof.
  intros (time & hs & H). eapply launch_inv_happens; [|exact H]. split; [done|by left|by intros ? ?%elem_of_nil].
Qed.

(** When launch_managed returns a code, the descriptor is closed, the handlers are
    restored and the target is reaped; the code is the target's, no signal having been
    sent to it, or 128 and a SIGINT or SIGTERM that came. The group is sent nothing, a
    SIGTERM, or a SIGTERM and, when the grace is over, a SIGKILL. *)
Theorem launch_outcome (s : Launch) :
  launch_reachable grace s →
  (∀ code, stage s = Ended (Ok code) →
     fd_open s = false ∧ handled s = [] ∧
     ∃ c, target s = Reaped c ∧ (code = c ∧ group s = [] ∨ ∃ signum, signum ∈ [SIGINT; SIGTERM] ∧ code = 128 + signum)) ∧
  (group s = [] ∨ ∃ t, t ≤ clock s ∧
     (group s = [(t, SIGTERM)] ∨ ∃ t', group s = [(t, SIGTERM); (t', _KILL_SIGNAL)] ∧ t + grace ≤ t' ≤ clock s)).
Proof.
  intros Hi%launch_inv_reachable. split; [|apply Hi]. intros code E.
  pose proof (launch_stage s Hi) as Hs. unfold stage_ok in Hs. rewrite E in Hs. destruct Hs as [Hh Hr].
  destruct (Hh code eq_refl). destruct (Hr code eq_refl) as (c & ? & ?). split_and!; [done..|]. by exists c.
Qed.

(** A signal while the target runs stops it even if it ignores SIGTERM: after the grace
    it is killed and reaped, the handlers are restored, the descriptor is closed and 128
    and the signal returned, when no second signal comes. *)
Theorem interrupted_target_stopped (s : Launch) (signum code : Z) :
  launch_reachable grace s → stage s = Waited → target s = Running → signum ∈ [SIGINT; SIGTERM] →
  ∃ s', happens grace ([Signalled signum] ++ replicate 4 (Step false) ++ [TargetExit code] ++ replicate 5 (Step false)) s = Some s' ∧
    stage s' = Ended (Ok (128 + signum)) ∧ target s' = Reaped code ∧ handled s' = [] ∧ fd_open s' = false ∧
    group s' = [(clock s, SIGTERM); (clock s + grace, _KILL_SIGNAL)].
Proof.
  intros Hi%launch_inv_reachable Es Et Hin. pose proof (launch_stage s Hi) as Hs. unfold stage_ok in Hs. rewrite Es in Hs.
  destruct Hs as (_ & Hh & Hg). destruct s as [st now t hs fd g]. cbn in Es, Et, Hh, Hg. subst.
  exists (mkLaunch (Ended (Ok (128 + signum))) (now + grace) (Reaped code) [] false
            [(now, SIGTERM); (now + grace, _KILL_SIGNAL)]).
  split; [|done]. rewrite !elem_of_cons, elem_of_nil in Hin. by destruct Hin as [-> |[-> |[]]]; cbv -[Z.add].
Qed.

(** ** It ends *)

Definition closing (s : Launch) : Prop :=
  ∃ n s' r, happens grace (replicate n (Step false)) s = Some s' ∧ stage s' = Ended r.

Lemma closing_step s s1 : advance grace false s = Some s1 → closing s1 → closing s.
Proof. intros H (n & s' & r & Hn & Hf). exists (S n), s', r. cbn [replicate happens happen]. by rewrite H. Qed.

Lemma closing_closing r s : stage s = Closing r → closing s.
Proof.
  intros E. eapply closing_step; [unfold advance, _terminate_process_group; by rewrite E|]. by eexists 0%nat, _, r.
Qed.

Lemma closing_unhandling r todo s : stage s = Unhandling r todo → closing s.
Proof.
  revert s. induction todo as [|x todo IH]; intros s E; (eapply closing_step; [unfold advance, _terminate_process_group; by rewrite E|]).
  - by eapply closing_closing.
  - by apply IH.
Qed.

Definition exited (c : Child) : Prop := match c with Zombie _ | Reaped _ => True | _ => False end.

Lemma closing_polling r s : stage s = Polling r ∨ stage s = Grace r → exited (target s) → closing s.
Proof.
  intros [E|E] Hx; (eapply closing_step; [unfold advance, _terminate_process_group; by rewrite E|]); destruct (target s); try done; by eapply closing_unhandling.
Qed.

Lemma closing_last r s : stage s = LastWait r → exited (target s) → closing s.
Proof.
  intros E Hx. destruct (target s) eqn:Et; try done; (eapply closing_step; [unfold advance, _terminate_process_group; by rewrite E, Et|by eapply closing_unhandling]).
Qed.

Lemma closing_kill signum next s :
  (∀ s', target s' = target s → stage s' = next → closing s') → closing (kill_group false signum next s).
Proof. intros H. unfold kill_group. destruct (target s) eqn:Et; by apply H. Qed.

Lemma closing_waited c s : stage s = Waited → target s = Zombie c → closing s.
Proof.
  intros E Et. eapply closing_step; [unfold advance, _terminate_process_group; by rewrite E, Et|]. eapply closing_step; [done|]. by eapply closing_unhandling.
Qed.

Lemma closing_handling todo c s : stage s = Handling todo → target s = Zombie c → closing s.
Proof.
  revert s. induction todo as [|x todo IH]; intros s E Et; (eapply closing_step; [unfold advance, _terminate_process_group; by rewrite E|]).
  - by eapply closing_waited.
  - by apply IH.
Qed.

(** Once the target has ended, the launch ends in a number of its own steps, unless a
    signal ended the Manager. *)
Theorem launch_ends (s : Launch) :
  launch_reachable grace s → exited (target s) → stage s ≠ ManagerKilled →
  ∃ n s' r, happens grace (replicate n (Step false)) s = Some s' ∧ stage s' = Ended r.
Proof.
  intros Hi%launch_inv_reachable Hx Hk. change (closing s). pose proof (launch_stage s Hi) as Hs. unfold stage_ok in Hs.
  assert (living (target s) → ∃ c, target s = Zombie c) as Hz by (destruct (target s) as [| |c|]; try done; by exists c).
  destruct (stage s) as [|todo| |code|r|r|r|r|r|r todo|r|r|] eqn:E.
  - destruct Hs as (Hn & _). by rewrite Hn in Hx.
  - destruct Hs as ([c Hc]%Hz & _). by eapply closing_handling.
  - destruct Hs as ([c Hc]%Hz & _). by eapply closing_waited.
  - eapply closing_step; [unfold advance, _terminate_process_group; by rewrite E|]. by eapply closing_unhandling.
  - eapply closing_polling; [by left|done].
  - eapply closing_step; [unfold advance, _terminate_process_group; by rewrite E|]. apply closing_kill. intros s' Ht Hst. eapply closing_polling; [by right|by rewrite Ht].
  - eapply closing_polling; [by right|done].
  - eapply closing_step; [unfold advance, _terminate_process_group; by rewrite E|]. apply closing_kill. intros s' Ht Hst. eapply closing_last; [done|by rewrite Ht].
  - by eapply closing_last.
  - by eapply closing_unhandling.
  - by eapply closing_closing.
  - by exists 0%nat, s, r.
  - done.
Qed.
End launch.

(** ** Launches

    A plan of [PlanArtifact]'s examples and a grace of five units. *)
Module Example.
#[local] Existing Instance PlanArtifact.Example.float_text.
#[local] Instance no_unicode : UnicodeInt := λ _, None.

Definition an_artifact : PlanArtifact.ExecutionPlanArtifact :=
  PlanArtifact.mkArtifact "/run/plan.json" (PlanArtifact.plan_artifact_bytes PlanArtifact.Example.a_plan) PlanArtifact.Example.a_plan.
Definition a_directory : Directory := mkDirectory Canonical true 64769 1234 ∅.
Definition an_executable : Executable := mkExecutable 33261 64769 77 (Some "ELF").
Definition a_request : Request :=
  mkRequest "/run/plan.json" "launch:1" "controller:a" "/events/" ["/usr/bin/serve"; "--x"]
    (mkFingerprint 64769 77 ("sha256:" +:+ sha256_hexdigest "ELF")) {["PATH" := "/bin"]}.
Definition a_site : Site := mkSite 1000 PlanArtifact.Example.a_report a_directory (Some an_executable).
Definition an_environment : Variables :=
  list_to_map (desired (plan_id_of an_artifact) "launch:1" "controller:a" "/events" a_directory) ∪ {["PATH" := "/bin"]}.

Example a_launch_checked : checked_launch a_request a_site = Ok (an_artifact, an_environment).
Proof. vm_compute. reflexivity. Qed.

(** A replaced executable, and a caller that sets a variable of the Manager's. *)
Example launch_refused :
  checked_launch a_request (mkSite 1000 PlanArtifact.Example.a_report a_directory (Some (mkExecutable 33261 64769 77 (Some "ELF!")))) =
    Raise (CtlValueError "formal-run target executable differs from its fingerprint") ∧
  managed_host_environment {["ECPA_HOST_EVENT_DIR" := "/tmp"]} an_artifact "launch:1" "controller:a" "/events" a_directory =
    Raise (CtlValueError "caller environment conflicts with manager-owned values: ECPA_HOST_EVENT_DIR").
Proof. split; vm_compute; reflexivity. Qed.

Example path_texts :
  path_text "/a//b/./c/" = "/a/b/c" ∧ path_text "//a" = "//a" ∧ path_text "///a" = "/a" ∧ path_text "" = "." ∧ path_text "a/." = "a".
Proof. by vm_compute. Qed.

Lemma target_opens_the_directory_witness :
  (HostJournal._configured_journal_root (sink_environment an_environment) (mkWorld a_directory a_directory false [] 42 0 0)).1 = Ok ().
Proof.
  apply (target_opens_the_directory {["PATH" := "/bin"]} an_artifact "launch:1" "controller:a" "/events/" a_directory an_environment
    (mkWorld a_directory a_directory false [] 42 0 0));
    [vm_compute; reflexivity|done|done|apply (bool_decide_unpack _); vm_compute; exact Logic.I..|done|done].
Defined.

Definition after (hs : list Happening) : Launch := default (launched 0) (happens 5 hs (launched 0)).
Lemma launch_after_reachable hs : bool_decide (is_Some (happens 5 hs (launched 0))) = true → launch_reachable 5 (after hs).
Proof. intros [s E]%bool_decide_eq_true. exists 0%Z, hs. unfold after. by rewrite E. Qed.

Definition steps (n : nat) : list Happening := replicate n (Step false).
Definition waiting : list Happening := steps 4.
Definition stopped : list Happening := waiting ++ [Signalled SIGTERM] ++ steps 4 ++ [TargetExit 0] ++ steps 5.

Lemma launch_outcome_witness :
  fd_open (after stopped) = false ∧ handled (after stopped) = [] ∧
  ∃ c, target (after stopped) = Reaped c ∧
    (143 = c ∧ group (after stopped) = [] ∨ ∃ signum, signum ∈ [SIGINT; SIGTERM] ∧ 143 = 128 + signum).
Proof. apply (launch_outcome 5 ltac:(lia) (after stopped)); [by apply launch_after_reachable|by vm_compute]. Defined.

Lemma interrupted_target_stopped_witness :
  ∃ s', happens 5 ([Signalled SIGINT] ++ steps 4 ++ [TargetExit 9] ++ steps 5) (after waiting) = Some s' ∧
    stage s' = Ended (Ok 130) ∧ target s' = Reaped 9 ∧ handled s' = [] ∧ fd_open s' = false ∧
    group s' = [(0, SIGTERM); (5, _KILL_SIGNAL)].
Proof.
  apply (interrupted_target_stopped 5 ltac:(lia) (after waiting) SIGINT 9); [by apply launch_after_reachable|done|done|by left].
Defined.

Lemma launch_ends_witness :
  ∃ n s' r, happens 5 (replicate n (Step false)) (after (waiting ++ [TargetExit 3])) = Some s' ∧ stage s' = Ended r.
Proof. apply (launch_ends 5 ltac:(lia)); [by apply launch_after_reachable|done|done]. Defined.

(** Until the handlers are in place a SIGTERM ends the Manager, a SIGINT the call: the target
    runs on, and nothing was sent to it. *)
Example early_signal_orphans_target :
  (let s := after (steps 1 ++ [Signalled SIGTERM]) in stage s = ManagerKilled ∧ target s = Running ∧ group s = []) ∧
  (let s := after (steps 2 ++ [Signalled SIGTERM] ) in stage s = ManagerKilled ∧ target s = Running ∧ group s = []) ∧
  (let s := after (steps 1 ++ [Signalled SIGINT] ++ steps 1) in
   stage s = Ended (Raise KeyboardInterrupt) ∧ target s = Running ∧ group s = []).
Proof. by vm_compute. Qed.

(** A second signal during the grace period leaves the termination: no SIGKILL, and the
    target runs on. *)
Example second_signal_abandons_target :
  let s := after (waiting ++ [Signalled SIGTERM] ++ steps 2 ++ [Signalled SIGTERM] ++ steps 4) in
  stage s = Ended (Raise (_ManagedTermination SIGTERM)) ∧ target s = Running ∧ group s = [(0, SIGTERM)].
Proof. by vm_compute. Qed.

(** A signal between the installation of the handlers and the [try] leaves them installed. *)
Example early_signal_keeps_handlers :
  let s := after (steps 3 ++ [Signalled SIGTERM] ++ steps 1) in
  stage s = Ended (Raise (_ManagedTermination SIGTERM)) ∧ handled s = [SIGINT; SIGTERM] ∧ target s = Running.
Proof. by vm_compute. Qed.
End Example.
